(* ===== verification/_CoqProject ===== *)
-Q . S2P
Prelude.v
PalDefs.v
RingBuffer.v
RingBufferFacts.v
Instances.v
InstancesFacts.v
Users.v
UsersFacts.v
Device.v
DeviceFacts.v
StreamPcm.v
StreamPcmFacts.v
ContextManager.v
ContextManagerFacts.v
CmdQueue.v
CmdQueueFacts.v
EcRef.v
EcRefFacts.v
CaptureProfile.v
CaptureProfileFacts.v
SoundTriggerState.v
SoundTrigger.v
SoundTriggerFacts.v
SoundTriggerConfig.v
SoundTriggerMachine.v
SoundTriggerSpec.v
STUtils.v
STUtilsFacts.v
STUtilsSpec.v
STUtilsThread.v
RoutingState.v
Routing.v
RoutingPolicy.v
RoutingFacts.v
RoutingConn.v
RoutingSwitch.v
RoutingPolicyFacts.v
RoutingDevice.v
RoutingSpec.v
SvaState.v
SvaConfig.v
SvaConfigFacts.v
SvaCodecFacts.v
SvaModels.v
SvaModelsFacts.v
SvaEvent.v
SvaEventFacts.v
SvaEventSpec.v
SvaInstances.v
SvaLevelsSpec.v
