(* ===== verification/Prelude.v ===== *)
(** * audioreach-pal: a verification library of the Platform Abstraction Layer

    The Platform Abstraction Layer (src/) sits between audio clients and the audio
    drivers.  A client opens a stream (stream/), which drives a session of the audio
    graph (session/) and a set of devices (device/); the resource manager
    (resource_manager/) knows all of them, hands out ids, tracks users and reacts to
    failures of the sound card; the context manager (context_manager/) serves
    requests of the sensor hub with streams of its own; sound trigger streams pass
    audio through a ring buffer (stream/StreamSoundTrigger/).

    ** Files

    - Prelude: machine integers, bounded access to memory blocks ([slice],
      [splice]), states ([St], [st_wp]), lists, tactics.
    - PalDefs: constants and structures of inc/PalDefs.h, and string routines.
    - RingBuffer, RingBufferFacts: PalRingBuffer and its readers
      (stream/StreamSoundTrigger/src/PalRingBuffer.cpp).  One function per method on
      a record of the block, the indices and the store of readers.  The facts relate
      the wrapped block to a queue of bytes per reader: a write appends or is
      refused, a read delivers a prefix, keyword seeks and resets re-establish the
      invariant, and the cases in which a reader loses data or overruns.
    - Instances, InstancesFacts: getStreamInstanceID, resetStreamInstanceID and the
      front-end ids (resource_manager/src/ResourceManager.cpp).  The 64-bit masks are
      written with the 32-bit shifts of the code; the facts show that they act as
      sets of at most 32 ids, that live streams have distinct ids, and that
      allocation and release are inverse.
    - Users, UsersFacts: the registry of streams, the user counters and the semaphore
      with which Pal.cpp protects a stream from being destroyed under a caller.  A
      step relation interleaves the threads of the clients; with one closing thread per
      stream the calls that count their use are protected.  Two closing threads break
      this, and so do the calls (write, read, pause and others) that count nothing,
      unless the client keeps them apart from the close.
    - Device, DeviceFacts: the device base class (device/src/Device.cpp): open, close,
      start and stop with their counts, the ranking of attributes, custom payloads.
      Effects are events, the driver is the class [DeviceEnv]; the counts are integers
      without a width, and the invariant bounds them by the number of steps.
    - StreamPcm, StreamPcmFacts: stream/StreamPCM/src/StreamPCM.cpp.  The calls are
      programs of a state monad over the stream, its devices and session (class
      [PcmEnv]), the sound card, three mutexes and a step of the other threads where
      the code gives up the stream's mutex.  The facts: every call returns, gives
      back its locks and makes only its transition of the state machine; any history
      with failures of the sound card runs to its end; recovery restores opened and
      started streams exactly; the cases in which it does not restore paused ones.
    - ContextManager, ContextManagerFacts: context_manager/src/ContextManager.cpp.
      Requests of sensors, use cases, acknowledgements, on the map of sensors and a
      log of calls; the message layouts are the class [Asps], the rest of PAL is
      [PalEnv].  The facts: every open handle belongs to the proxy or to a use case (a
      multiset of handles), every registration is answered when the reply fits the block
      offered first (a block enlarged on request is lost), the module map is decoded
      exactly, the size test of context lists and its gap.
    - EcRef, EcRefFacts: the echo references of the resource manager
      (registerDevice to updateECDeviceMap of ResourceManager.cpp, setECRef of
      SessionAlsaPcm.cpp) on its tables, the sessions and the mixer controls.  The facts:
      the counts are counters, a capture stream has at most one counted reference and its
      session uses it, and the cases in which a reference is lost or stale.  The capture
      streams are those of StreamPCM; external references are left out of the invariant.
    - CmdQueue, CmdQueueFacts: the queue and thread in front of the context manager
      as a step relation: requests are processed in order and lost only by a flush, the
      shutdown can hang.
    - SoundTriggerState, SoundTrigger: the sound trigger stream and its state machine
      (stream/StreamSoundTrigger/src/StreamSoundTrigger.cpp): the eight state classes
      and their events, ProcessEvent and its re-entry, the public calls, detection,
      SSR, the recognition configuration and its comparison, the call backs to the
      client.  The engines, devices, readers and the resource manager are the class
      [StEnv]; its laws are [StLaws], the steps other threads may take while the
      stream's mutex is given up are [StRely].
    - SoundTriggerFacts, SoundTriggerMachine: a program logic over what a stream shows
      its surroundings (locks, wake lock, state), and the lemma of each event in each
      state.
    - SoundTriggerConfig: compareRecognitionConfig against equality of the contents.
    - SoundTriggerSpec: every event in every state is defined, gives its locks back
      and keeps the invariant; at most two levels of re-entry; a detection takes and
      releases one wake lock; pausing is silent; a restart of the audio DSP restores
      the state; the copy of a sound model stays in bounds; a device switch while
      buffering that leaks the wake lock.

    - CaptureProfile, CaptureProfileFacts: the comparison of capture profiles and of
      vendor UUIDs (utils/src/SoundTriggerPlatformInfo.cpp); the sound trigger stream
      and the policy below share them.
    - STUtils, STUtilsFacts, STUtilsSpec: utils/src/STUtils.cpp, the choice between low
      and normal power for all sound trigger streams, its deferral, the pausing of
      streams, the common capture profiles.  It works on the registry of Users and
      calls streams through the class [StuEnv] (laws [StuLaws]).  A policy states in
      which mode the streams should be; the facts show that every history of
      well-behaved calls follows it when no speech recognition stream and no sensor stream
      in normal power takes part, that a switch stops and starts each stream once,
      that pauses are counted, which profile is chosen, and histories that break the
      policy or take the mutex twice when a call is not well behaved or a stream of
      these two kinds is there.  Handlers may call other streams ([with_nested]).
    - STUtilsThread: the countdown thread of STUtils.cpp as a step relation: an armed
      countdown is carried out, the wake lock is balanced while the thread lives.

    - RoutingState, Routing, RoutingPolicy: which streams play on which devices.
      RoutingState is what Stream.cpp and ResourceManager.cpp share: streams with their
      mutexes, device objects, the structures lists of connections point to, the device
      group, and the queries on them; the class [RtEnv] is the rest (sessions, methods of
      device classes, configuration).  Routing has connectStreamDevice_l,
      disconnectStreamDevice_l and streamDevSwitch, RoutingPolicy the decisions:
      updateDeviceConfig, restoreDevice, both forceDeviceSwitch, Stream::switchDevice.
    - RoutingFacts, RoutingConn, RoutingSwitch, RoutingPolicyFacts, RoutingDevice: a
      program logic over the mutexes a function holds and what it keeps of the state,
      and the specification of each function in it, in the order of the calls.  The laws
      of the environment are [RtLaws]; [RtTable] adds what histories need of the table
      of back ends, which the default table does not keep (an uncaught exception).
    - RoutingSpec: any history of allowed routing calls (no opening on A2DP or BLE, no
      switch of a VoIP stream that takes a mutex twice) returns with every mutex free,
      leaves each device open as often as streams use it and, while the card is up and no
      close fails, no stream on one back end twice; the outcomes of connections and
      disconnections; the search for the streams of a back end; a mutex taken twice when
      a stream opens on A2DP.

    - SvaState, SvaConfig, SvaModels: the voice UI interface
      (plugins/vui_interface/sva_intf/src/SVAInterface.cpp, utils/src/VUIInterfaceUtils.cpp)
      behind the sound trigger stream.  SvaState has the structures with their layouts in
      memory, the interface object, and the class [SvaEnv] of the allocator, the sound
      model library and the DSP's events; SvaConfig the split of combined sound models and
      the levels and opaque data of a recognition configuration; SvaModels the models of
      the streams, their merge, the engine's levels and payloads; SvaEvent the detection
      events, the event built for the client, SetParameter and GetParameter; SvaInstances
      the interfaces that streams share (GetInstance, DetachStream), with the theorem that
      the lists are exactly the interfaces in use.
    - SvaConfigFacts: the levels accepted and the table of them the code builds.
      SvaCodecFacts: encoders for opaque data and sound models, which the parsers invert.
      SvaModelsFacts: the invariant and the limit of SetModelState.  SvaEventFacts: every
      call keeps the interface well formed.
    - SvaLevelsSpec: the specification of a merged engine's levels, kept by every history
      in which no two streams share a name, and the case in which they do.
      SvaEventSpec: the reference of a client's event, which GenerateCallbackEvent meets.

    A file with definitions requires Prelude and PalDefs only, but for the records and
    components it is built on (SoundTriggerState for SoundTrigger, CaptureProfile for
    both users of profiles, Users for STUtils, Users and Device for routing, the records
    of SoundTriggerState for the voice UI interface); its facts are in the files that
    carry its name.

    ** Conventions

    A function of a component keeps its source's name.  [None] is undefined behaviour
    (an access outside a block, a null or dangling pointer, a double lock, an
    uncaught exception) or, in Users, a blocking call; errors the code reports are
    the negated errno values it returns.  A method that runs under one mutex is one
    function of the state; where a method gives its mutex up, or several threads
    matter, the steps are explicit.  Words are integers with their wrap-around
    written out.  Libraries and headers outside the repository are type classes whose
    laws, where a theorem needs some, are named hypotheses with a concrete instance
    in the witness.  Names are addresses ([positive]) where objects are shared.

    ** Bounds

    The loops are structural over the lists of the state (readers, devices, engines,
    use cases) or over a counter the code itself bounds (32 and 64 instance ids, the
    number of tags of a response), so they need no fuel; histories of calls are
    lists of any length.  There are three exceptions.  The loop over opaque recognition data
    ([config_loop]) moves by the size of each parameter: its fuel is the number of bytes,
    enough because each parameter takes at least eight, and the round trip of
    SvaCodecFacts proves that it ends.  The loop over a detection event ([event_loop]) has
    as many steps as the event has bytes; [event_loop_enough] shows that more change
    nothing, since behind the event no header can be read.  The third is ProcessEvent of the sound trigger
    states, which re-enters itself: its fuel is the depth of that re-entry, and
    SoundTriggerSpec proves that two levels are enough for every event in every
    state.

    ** Not modelled

    Log output, statistics, sleeping times and the contents of vendor payloads.
    Sessions and concrete devices are interfaces.  Of the sound trigger stream:
    getParameters, the checks of sample rate, width and channels, and the look-up of
    the vendor's interface.  Of the voice UI interface: the destructor, which only frees
    memory.  Of routing: the gains of the ultrasound device.  The device
    configurations of the resource manager, the loading of the voice UI manager library
    in STUtils.cpp, the other stream classes (compressed, in-call, haptic, ACD, ASR, call
    translation), IPC and configuration files are left to later work. *)

From Stdlib Require Export ZArith.
From stdpp Require Export base tactics numbers list gmap option strings sorting relations.
From stdpp Require Import options.

#[global] Open Scope Z_scope.

(** ** Machine integers

    The library represents a machine word by the integer it denotes and
    writes every wrap-around out: [u8], [u32] and [u64] are the conversions to
    [uint8_t], [uint32_t] and [size_t]/[uint64_t] (LP64), [s32] is the
    conversion to [int32_t]. *)

Definition u8 (z : Z) : Z := z mod 2 ^ 8.
Definition u32 (z : Z) : Z := z mod 2 ^ 32.
Definition u64 (z : Z) : Z := z mod 2 ^ 64.
Definition s32 (z : Z) : Z := (z + 2 ^ 31) mod 2 ^ 32 - 2 ^ 31.

(** [x % y] on unsigned operands; division by zero is undefined. *)
Definition umod (x y : Z) : option Z :=
  if decide (y = 0) then None else Some (x mod y).

(** The error numbers of <errno.h> the code returns (negated). *)
Abbreviation EIO := 5 (only parsing).
Abbreviation ENOENT := 2 (only parsing).
Abbreviation ENOMEM := 12 (only parsing).
Abbreviation ENODEV := 19 (only parsing).
Abbreviation EINVAL := 22 (only parsing).
Abbreviation ENOSYS := 38 (only parsing).
Abbreviation ENODATA := 61 (only parsing).
Abbreviation ENETRESET := 102 (only parsing).

(** ** Automation *)

Create HintDb pal.

(** Case analysis on every [decide], [bool_decide] and [match] of the goal. *)
Ltac split_cases :=
  repeat first [ case_decide | case_bool_decide | case_match ]; simplify_eq/=.

(** Unfolds the conversions and reduces them modulo their literal width. *)
Ltac word_lia :=
  unfold u8, u32, u64, s32 in *;
  change (2 ^ 8) with 256 in *; change (2 ^ 31) with 2147483648 in *;
  change (2 ^ 32) with 4294967296 in *;
  change (2 ^ 64) with 18446744073709551616 in *;
  Z.to_euclidean_division_equations; lia.

Lemma u64_small z : 0 ≤ z < 2 ^ 64 → u64 z = z.
Proof. apply Z.mod_small. Qed.
Lemma u32_small z : 0 ≤ z < 2 ^ 32 → u32 z = z.
Proof. apply Z.mod_small. Qed.
Lemma u8_small z : 0 ≤ z < 2 ^ 8 → u8 z = z.
Proof. apply Z.mod_small. Qed.
Lemma s32_small z : - 2 ^ 31 ≤ z < 2 ^ 31 → s32 z = z.
Proof. intros. unfold s32. rewrite Z.mod_small; lia. Qed.
Lemma umod_pos x y : 0 < y → umod x y = Some (x mod y).
Proof. intros. unfold umod. rewrite decide_False by lia. done. Qed.
Lemma u32_range z : 0 ≤ u32 z < 2 ^ 32.
Proof. apply Z.mod_pos_bound. lia. Qed.
Lemma u64_range z : 0 ≤ u64 z < 2 ^ 64.
Proof. apply Z.mod_pos_bound. lia. Qed.
#[export] Hint Resolve u32_range u64_range : pal.

(** ** Bounded access to a block of memory

    A block is the list of its cells.  [slice] reads [n] cells at offset
    [off], [splice] overwrites the cells at [off]; both return [None] when the
    access leaves the block, which is undefined behaviour in the code. *)

Section memory.
Context {A : Type}.
Implicit Types l d : list A.

Definition zlen l : Z := Z.of_nat (length l).

Definition slice (off n : Z) l : option (list A) :=
  if decide (0 ≤ off ∧ 0 ≤ n ∧ off + n ≤ zlen l)
  then Some (take (Z.to_nat n) (drop (Z.to_nat off) l)) else None.

Definition splice (off : Z) d l : option (list A) :=
  if decide (0 ≤ off ∧ off + zlen d ≤ zlen l)
  then Some (take (Z.to_nat off) l ++ d ++ drop (Z.to_nat off + length d) l)
  else None.

Lemma zlen_nonneg l : 0 ≤ zlen l.
Proof. unfold zlen. lia. Qed.

Lemma zlen_app l d : zlen (l ++ d) = zlen l + zlen d.
Proof. unfold zlen. rewrite length_app. lia. Qed.

Lemma slice_Some off n l r :
  slice off n l = Some r ↔
  (0 ≤ off ∧ 0 ≤ n ∧ off + n ≤ zlen l) ∧
  r = take (Z.to_nat n) (drop (Z.to_nat off) l).
Proof. unfold slice. case_decide; (split; [by intros [= <-]|by intros [? ->]]). Qed.

Lemma slice_length off n l r : slice off n l = Some r → zlen r = n.
Proof.
  rewrite slice_Some. intros [? ->]. unfold zlen in *.
  rewrite length_take, length_drop. lia.
Qed.

Lemma slice_lookup off n l r (i : nat) :
  slice off n l = Some r → (i < Z.to_nat n)%nat →
  r !! i = l !! (Z.to_nat off + i)%nat.
Proof.
  rewrite slice_Some. intros [? ->] ?.
  rewrite lookup_take_lt by lia. by rewrite lookup_drop.
Qed.

Lemma slice_is_Some off n l :
  0 ≤ off → 0 ≤ n → off + n ≤ zlen l → ∃ r, slice off n l = Some r.
Proof. intros. unfold slice. rewrite decide_True by lia. eauto. Qed.

Lemma splice_is_Some off d l :
  0 ≤ off → off + zlen d ≤ zlen l → ∃ r, splice off d l = Some r.
Proof. intros. unfold splice. rewrite decide_True by lia. eauto. Qed.

Lemma splice_Some off d l r :
  splice off d l = Some r ↔
  (0 ≤ off ∧ off + zlen d ≤ zlen l) ∧
  r = take (Z.to_nat off) l ++ d ++ drop (Z.to_nat off + length d) l.
Proof. unfold splice. case_decide; (split; [by intros [= <-]|by intros [? ->]]). Qed.

Lemma splice_length off d l r : splice off d l = Some r → length r = length l.
Proof.
  rewrite splice_Some. intros [? ->]. unfold zlen in *.
  rewrite !length_app, length_take, length_drop. lia.
Qed.

(** A cell of the block after [splice]: the new data inside the range, the
    old contents outside. *)
Lemma splice_lookup off d l r (j : nat) :
  splice off d l = Some r →
  r !! j = if decide (off ≤ Z.of_nat j < off + zlen d)
           then d !! (j - Z.to_nat off)%nat else l !! j.
Proof.
  rewrite splice_Some. intros [[??] ->]. unfold zlen in *.
  case_decide.
  - rewrite lookup_app_r by (rewrite length_take; lia).
    rewrite length_take, lookup_app_l by lia. f_equal. lia.
  - destruct (decide (Z.of_nat j < off)).
    + rewrite lookup_app_l by (rewrite length_take; lia).
      by rewrite lookup_take_lt by lia.
    + rewrite lookup_app_r by (rewrite length_take; lia).
      rewrite lookup_app_r by (rewrite length_take; lia).
      rewrite lookup_drop. f_equal. rewrite length_take. lia.
Qed.
End memory.

(** ** Little-endian words in byte blocks *)

Fixpoint le_bytes (n : nat) (z : Z) : list Z :=
  match n with O => [] | S n => z mod 256 :: le_bytes n (z / 256) end.

Fixpoint le_val (bs : list Z) : Z :=
  match bs with [] => 0 | b :: bs => b + 256 * le_val bs end.

Lemma le_bytes_length n z : length (le_bytes n z) = n.
Proof. revert z. induction n as [|n IH]; intros z; simpl; [done|]. by rewrite IH. Qed.

Lemma le_val_bytes n z : le_val (le_bytes n z) = z mod 2 ^ (8 * Z.of_nat n).
Proof.
  revert z. induction n as [|n IH]; intros z; simpl le_bytes; simpl le_val.
  - by rewrite Z.mod_1_r.
  - rewrite IH. replace (8 * Z.of_nat (S n)) with (8 + 8 * Z.of_nat n) by lia.
    rewrite Z.pow_add_r by lia. change (2 ^ 8) with 256.
    rewrite Z.rem_mul_r by lia. lia.
Qed.

(** A 32-bit word read at an offset. *)
Definition read_u32 (off : Z) (m : list Z) : option Z :=
  bs ← slice off 4 m; Some (le_val bs).

(** A 32-bit word stored at an offset. *)
Definition write_u32 (off v : Z) (m : list Z) : option (list Z) :=
  splice off (le_bytes 4 (u32 v)) m.

Lemma write_u32_length off v m m' :
  write_u32 off v m = Some m' → length m' = length m.
Proof. apply splice_length. Qed.

Lemma read_write_u32_same off v m m' :
  write_u32 off v m = Some m' → read_u32 off m' = Some (u32 v).
Proof.
  unfold write_u32, read_u32. intros H. pose proof (splice_length _ _ _ _ H) as HL.
  apply splice_Some in H as [[??] ->].
  unfold zlen in *. rewrite le_bytes_length in *.
  unfold slice, zlen. rewrite decide_True by (rewrite HL; lia).
  change (Z.to_nat 4) with 4%nat. cbn [mbind option_bind].
  rewrite drop_app_length' by (rewrite length_take; lia).
  rewrite take_app_length' by (by rewrite le_bytes_length).
  rewrite le_val_bytes. f_equal. apply Z.mod_small, u32_range.
Qed.

Lemma read_write_u32_other off off' v m m' :
  write_u32 off v m = Some m' → off' + 4 ≤ off ∨ off + 4 ≤ off' →
  read_u32 off' m' = read_u32 off' m.
Proof.
  unfold write_u32, read_u32. intros H Hd.
  pose proof (splice_length _ _ _ _ H) as HL.
  unfold slice, zlen. rewrite HL. case_decide; [|done]. simpl. do 2 f_equal.
  apply list_eq. intros i. destruct (decide (i < 4)%nat).
  - rewrite !lookup_take_lt by lia. rewrite !lookup_drop.
    rewrite (splice_lookup _ _ _ _ _ H). unfold zlen. rewrite le_bytes_length.
    rewrite decide_False; [done|]. lia.
  - rewrite !lookup_take_ge by lia. done.
Qed.

(** ** Lists *)

(** [std::find] followed by [erase] of the element found. *)
Fixpoint erase_first {A} `{EqDecision A} (x : A) (l : list A) : list A :=
  match l with
  | [] => []
  | y :: l => if decide (x = y) then l else y :: erase_first x l
  end.

Lemma erase_first_notin {A} `{EqDecision A} (x : A) l :
  x ∉ l → erase_first x l = l.
Proof.
  induction l as [|y l IH]; simpl; [done|].
  rewrite not_elem_of_cons. intros [??]. rewrite decide_False by done.
  by rewrite IH.
Qed.

Lemma erase_first_elem {A} `{EqDecision A} (x y : A) l :
  NoDup l → y ∈ erase_first x l ↔ y ∈ l ∧ y ≠ x.
Proof.
  induction 1 as [|z l Hz Hl IH]; simpl; [set_solver|].
  case_decide; subst; [|rewrite elem_of_cons, IH]; set_solver.
Qed.

Lemma erase_first_sublist {A} `{EqDecision A} (x : A) l :
  erase_first x l `sublist_of` l.
Proof.
  induction l as [|y l IH]; simpl; [done|].
  case_decide; [by apply sublist_cons|by apply sublist_skip].
Qed.

Lemma erase_first_NoDup {A} `{EqDecision A} (x : A) l :
  NoDup l → NoDup (erase_first x l).
Proof. intros. eapply sublist_NoDup; [done|apply erase_first_sublist]. Qed.

Lemma erase_first_snoc {A} `{EqDecision A} (x : A) l :
  x ∉ l → erase_first x (l ++ [x]) = l.
Proof.
  induction l as [|y l IH]; simpl.
  - intros _. by rewrite decide_True.
  - rewrite not_elem_of_cons. intros [??]. rewrite decide_False by done.
    by rewrite IH.
Qed.

(** ** Memory routines of the operating system abstraction layer

    [ar_mem_cpy] lives outside the repository (the AR OSAL headers); the model
    takes it as a parameter: [ar_mem_cpy dst_size src] is the sequence of bytes
    stored at the destination.  [OsalSpec] is its documented behaviour: it
    copies at most [dst_size] bytes of the source. *)

Class Osal := ar_mem_cpy : Z → list Z → list Z.

Class OsalSpec (osal : Osal) : Prop :=
  ar_mem_cpy_take : ∀ n src, 0 ≤ n → ar_mem_cpy n src = take (Z.to_nat n) src.

Lemma ar_mem_cpy_fits `{!Osal, !OsalSpec _} n src :
  zlen src ≤ n → ar_mem_cpy n src = src.
Proof.
  intros. pose proof (zlen_nonneg src). rewrite ar_mem_cpy_take by lia.
  apply take_ge. unfold zlen in *. lia.
Qed.

(** A concrete instance, for closed examples. *)
Module BoundedCopy.
Definition bounded_copy (n : Z) (src : list Z) : list Z := take (Z.to_nat n) src.
#[export] Instance osal : Osal := bounded_copy.
#[export] Instance osal_spec : OsalSpec osal.
Proof. intros n src ?. reflexivity. Qed.
End BoundedCopy.

(** ** Records of state

    [record_setter eta field] is the function that replaces [field]; [eta s] rebuilds
    a record [s] from its fields. *)
Ltac record_setter eta field :=
  let e := eval red in eta in
  match eval pattern field in e with
  | ?F _ => let r := eval cbv beta in (λ x s, F (λ _, x) s) in exact r
  end.

(** ** Stateful code

    [St W A] is code that runs on a state [W] and returns an [A]; [None] is
    undefined behaviour. *)

Definition St (W A : Type) : Type := W → option (A * W).

Definition st_ret {W A} (x : A) : St W A := λ w, Some (x, w).
Definition st_bind {W A B} (m : St W A) (k : A → St W B) : St W B :=
  λ w, match m w with Some (x, w') => k x w' | None => None end.
Definition st_gets {W A} (f : W → A) : St W A := λ w, Some (f w, w).
Definition st_modify {W} (f : W → W) : St W unit := λ w, Some (tt, f w).
Definition st_lift {W A} (o : option A) : St W A := λ w,
  match o with Some x => Some (x, w) | None => None end.

(** Reads the state; undefined where [f] is. *)
Definition st_query {W A} (f : W → option A) : St W A := λ w,
  match f w with Some x => Some (x, w) | None => None end.
(** [b || m] and [b && m]: [m] runs when [b] does not decide. *)
Definition st_or {W} (b : bool) (m : St W bool) : St W bool := if b then st_ret true else m.
Definition st_and {W} (b : bool) (m : St W bool) : St W bool := if b then m else st_ret false.

Declare Scope st_scope.
Delimit Scope st_scope with st.
Notation "x <-- m ;; k" := (st_bind m (λ x, k))
  (at level 100, m at next level, right associativity) : st_scope.
Notation "m ;;;; k" := (st_bind m (λ _, k))
  (at level 100, right associativity) : st_scope.

(** A [for] loop over a vector. *)
Fixpoint st_for {W A} (l : list A) (body : A → St W unit) : St W unit :=
  match l with
  | [] => st_ret tt
  | x :: l => st_bind (body x) (λ _, st_for l body)
  end.

Lemma st_bind_Some {W A B} (m : St W A) (k : A → St W B) w r :
  st_bind m k w = Some r ↔ ∃ x w', m w = Some (x, w') ∧ k x w' = Some r.
Proof.
  unfold st_bind. destruct (m w) as [[x w']|]; split; [eauto|by intros (?&?&[= -> ->]&?)|done|].
  by intros (?&?&?&?).
Qed.

(** [st_wp m Q w]: run from [w], [m] has a defined result, which satisfies [Q]. *)
Definition st_wp {W A} (m : St W A) (Q : A → W → Prop) (w : W) : Prop :=
  ∃ a w', m w = Some (a, w') ∧ Q a w'.

Lemma st_wp_ret {W A} (x : A) (Q : A → W → Prop) w : Q x w → st_wp (st_ret x) Q w.
Proof. by exists x, w. Qed.
Lemma st_wp_gets {W A} (f : W → A) (Q : A → W → Prop) w : Q (f w) w → st_wp (st_gets f) Q w.
Proof. by exists (f w), w. Qed.
Lemma st_wp_modify {W} (f : W → W) (Q : unit → W → Prop) w :
  Q tt (f w) → st_wp (st_modify f) Q w.
Proof. by exists tt, (f w). Qed.
Lemma st_wp_lift {W A} (o : option A) x (Q : A → W → Prop) w :
  o = Some x → Q x w → st_wp (st_lift o) Q w.
Proof. intros -> ?. by exists x, w. Qed.
Lemma st_wp_query {W A} (f : W → option A) x (Q : A → W → Prop) w :
  f w = Some x → Q x w → st_wp (st_query f) Q w.
Proof. intros Hf ?. exists x, w. unfold st_query. by rewrite Hf. Qed.
Lemma st_wp_bind {W A B} (m : St W A) (k : A → St W B) Q w :
  st_wp m (λ a, st_wp (k a) Q) w → st_wp (st_bind m k) Q w.
Proof. intros (a&w'&Hm&b&w2&Hk&?). exists b, w2. unfold st_bind. by rewrite Hm. Qed.
Lemma st_wp_mono {W A} (m : St W A) (Q Q' : A → W → Prop) w :
  st_wp m Q w → (∀ a w', Q a w' → Q' a w') → st_wp m Q' w.
Proof. intros (a&w'&?&?) HQ. exists a, w'. auto. Qed.

