(* ===== verification/PalDefs.v ===== *)
(** * Types shared by the components (inc/PalDefs.h, stream/inc/Stream.h)

    Enumerations are the integers the code compares, indexes and converts;
    structures are records.  The union of stream information is the sum of its
    members: the member a stream uses follows from its type. *)

From S2P Require Import Prelude.

(** ** Audio formats ([pal_audio_fmt_t]) *)

Definition PAL_AUDIO_FMT_DEFAULT_PCM : Z := 1.
Definition PAL_AUDIO_FMT_PCM_S16_LE : Z := 1.
Definition PAL_AUDIO_FMT_DEFAULT_COMPRESSED : Z := 2.
Definition PAL_AUDIO_FMT_MP3 : Z := 2.
Definition PAL_AUDIO_FMT_AAC : Z := 3.
Definition PAL_AUDIO_FMT_AAC_ADTS : Z := 4.
Definition PAL_AUDIO_FMT_AAC_ADIF : Z := 5.
Definition PAL_AUDIO_FMT_AAC_LATM : Z := 6.
Definition PAL_AUDIO_FMT_WMA_STD : Z := 7.
Definition PAL_AUDIO_FMT_ALAC : Z := 8.
Definition PAL_AUDIO_FMT_APE : Z := 9.
Definition PAL_AUDIO_FMT_WMA_PRO : Z := 10.
Definition PAL_AUDIO_FMT_FLAC : Z := 11.
Definition PAL_AUDIO_FMT_FLAC_OGG : Z := 12.
Definition PAL_AUDIO_FMT_VORBIS : Z := 13.
Definition PAL_AUDIO_FMT_AMR_NB : Z := 14.
Definition PAL_AUDIO_FMT_AMR_WB : Z := 15.
Definition PAL_AUDIO_FMT_AMR_WB_PLUS : Z := 16.
Definition PAL_AUDIO_FMT_EVRC : Z := 17.
Definition PAL_AUDIO_FMT_G711 : Z := 18.
Definition PAL_AUDIO_FMT_QCELP : Z := 19.
Definition PAL_AUDIO_FMT_PCM_S8 : Z := 20.
Definition PAL_AUDIO_FMT_PCM_S24_3LE : Z := 21.
Definition PAL_AUDIO_FMT_PCM_S24_LE : Z := 22.
Definition PAL_AUDIO_FMT_PCM_S32_LE : Z := 23.
Definition PAL_AUDIO_FMT_OPUS : Z := 24.
Definition PAL_AUDIO_FMT_NON_PCM : Z := 3758096384.
Definition PAL_AUDIO_FMT_COMPRESSED_RANGE_BEGIN : Z := 4026531840.
Definition PAL_AUDIO_FMT_COMPRESSED_EXTENDED_RANGE_BEGIN : Z := 4026535680.
Definition PAL_AUDIO_FMT_COMPRESSED_EXTENDED_RANGE_END : Z := 4026535935.
Definition PAL_AUDIO_FMT_COMPRESSED_RANGE_END : Z := 4026535935.

(** ** Stream types ([pal_stream_type_t]) *)

Definition PAL_STREAM_LOW_LATENCY : Z := 1.
Definition PAL_STREAM_DEEP_BUFFER : Z := 2.
Definition PAL_STREAM_COMPRESSED : Z := 3.
Definition PAL_STREAM_VOIP : Z := 4.
Definition PAL_STREAM_VOIP_RX : Z := 5.
Definition PAL_STREAM_VOIP_TX : Z := 6.
Definition PAL_STREAM_VOICE_CALL_MUSIC : Z := 7.
Definition PAL_STREAM_GENERIC : Z := 8.
Definition PAL_STREAM_RAW : Z := 9.
Definition PAL_STREAM_VOICE_RECOGNITION : Z := 10.
Definition PAL_STREAM_VOICE_CALL_RECORD : Z := 11.
Definition PAL_STREAM_VOICE_CALL_TX : Z := 12.
Definition PAL_STREAM_VOICE_CALL_RX_TX : Z := 13.
Definition PAL_STREAM_VOICE_CALL : Z := 14.
Definition PAL_STREAM_LOOPBACK : Z := 15.
Definition PAL_STREAM_TRANSCODE : Z := 16.
Definition PAL_STREAM_VOICE_UI : Z := 17.
Definition PAL_STREAM_PCM_OFFLOAD : Z := 18.
Definition PAL_STREAM_ULTRA_LOW_LATENCY : Z := 19.
Definition PAL_STREAM_PROXY : Z := 20.
Definition PAL_STREAM_NON_TUNNEL : Z := 21.
Definition PAL_STREAM_HAPTICS : Z := 22.
Definition PAL_STREAM_ACD : Z := 23.
Definition PAL_STREAM_CONTEXT_PROXY : Z := 24.
Definition PAL_STREAM_SENSOR_PCM_DATA : Z := 25.
Definition PAL_STREAM_ULTRASOUND : Z := 26.
Definition PAL_STREAM_SPATIAL_AUDIO : Z := 27.
Definition PAL_STREAM_COMMON_PROXY : Z := 28.
Definition PAL_STREAM_SENSOR_PCM_RENDERER : Z := 29.
Definition PAL_STREAM_ASR : Z := 30.
Definition PAL_STREAM_HPCM : Z := 31.
Definition PAL_STREAM_DUMMY : Z := 32.
Definition PAL_STREAM_CALL_TRANSLATION : Z := 33.
Definition PAL_STREAM_PLAYBACK_BUS : Z := 34.
Definition PAL_STREAM_CAPTURE_BUS : Z := 35.
Definition PAL_STREAM_MAX : Z := 36.

(** ** States of the sound card *)

Inductive card_status_t :=
  CARD_STATUS_OFFLINE | CARD_STATUS_ONLINE | CARD_STATUS_STANDBY | CARD_STATUS_NONE.

#[export] Instance card_status_eq_dec : EqDecision card_status_t.
Proof. solve_decision. Defined.

Definition PAL_CARD_STATUS_DOWN (n : card_status_t) : bool :=
  bool_decide (n = CARD_STATUS_OFFLINE ∨ n = CARD_STATUS_STANDBY).
Definition PAL_CARD_STATUS_UP (n : card_status_t) : bool :=
  bool_decide (n = CARD_STATUS_ONLINE).

(** ** Directions ([pal_stream_direction_t]) *)

Definition PAL_AUDIO_OUTPUT : Z := 1.
Definition PAL_AUDIO_INPUT : Z := 2.
Definition PAL_AUDIO_INPUT_OUTPUT : Z := 3.

(** ** Devices ([pal_device_id_t]) *)

Definition PAL_DEVICE_OUT_MIN : Z := 0.
Definition PAL_DEVICE_NONE : Z := 1.
Definition PAL_DEVICE_OUT_HANDSET : Z := 2.
Definition PAL_DEVICE_OUT_SPEAKER : Z := 3.
Definition PAL_DEVICE_OUT_WIRED_HEADSET : Z := 4.
Definition PAL_DEVICE_OUT_WIRED_HEADPHONE : Z := 5.
Definition PAL_DEVICE_OUT_LINE : Z := 6.
Definition PAL_DEVICE_OUT_BLUETOOTH_SCO : Z := 7.
Definition PAL_DEVICE_OUT_BLUETOOTH_A2DP : Z := 8.
Definition PAL_DEVICE_OUT_AUX_DIGITAL : Z := 9.
Definition PAL_DEVICE_OUT_HDMI : Z := 10.
Definition PAL_DEVICE_OUT_USB_DEVICE : Z := 11.
Definition PAL_DEVICE_OUT_USB_HEADSET : Z := 12.
Definition PAL_DEVICE_OUT_SPDIF : Z := 13.
Definition PAL_DEVICE_OUT_FM : Z := 14.
Definition PAL_DEVICE_OUT_AUX_LINE : Z := 15.
Definition PAL_DEVICE_OUT_PROXY : Z := 16.
Definition PAL_DEVICE_OUT_AUX_DIGITAL_1 : Z := 17.
Definition PAL_DEVICE_OUT_HEARING_AID : Z := 18.
Definition PAL_DEVICE_OUT_HAPTICS_DEVICE : Z := 19.
Definition PAL_DEVICE_OUT_ULTRASOUND : Z := 20.
Definition PAL_DEVICE_OUT_ULTRASOUND_DEDICATED : Z := 21.
Definition PAL_DEVICE_OUT_BLUETOOTH_BLE : Z := 22.
Definition PAL_DEVICE_OUT_BLUETOOTH_BLE_BROADCAST : Z := 23.
Definition PAL_DEVICE_OUT_DUMMY : Z := 24.
Definition PAL_DEVICE_OUT_RECORD_PROXY : Z := 25.
Definition PAL_DEVICE_OUT_SOUND_DOSE : Z := 26.
Definition PAL_DEVICE_OUT_BLUETOOTH_HFP : Z := 27.
Definition PAL_DEVICE_OUT_SPEAKER2 : Z := 28.
Definition PAL_DEVICE_OUT_SPEAKER3 : Z := 29.
Definition PAL_DEVICE_OUT_MAX : Z := 30.
Definition PAL_DEVICE_IN_MIN : Z := 30.
Definition PAL_DEVICE_IN_HANDSET_MIC : Z := 31.
Definition PAL_DEVICE_IN_SPEAKER_MIC : Z := 32.
Definition PAL_DEVICE_IN_BLUETOOTH_SCO_HEADSET : Z := 33.
Definition PAL_DEVICE_IN_WIRED_HEADSET : Z := 34.
Definition PAL_DEVICE_IN_AUX_DIGITAL : Z := 35.
Definition PAL_DEVICE_IN_HDMI : Z := 36.
Definition PAL_DEVICE_IN_USB_ACCESSORY : Z := 37.
Definition PAL_DEVICE_IN_USB_DEVICE : Z := 38.
Definition PAL_DEVICE_IN_USB_HEADSET : Z := 39.
Definition PAL_DEVICE_IN_FM_TUNER : Z := 40.
Definition PAL_DEVICE_IN_LINE : Z := 41.
Definition PAL_DEVICE_IN_SPDIF : Z := 42.
Definition PAL_DEVICE_IN_PROXY : Z := 43.
Definition PAL_DEVICE_IN_HANDSET_VA_MIC : Z := 44.
Definition PAL_DEVICE_IN_BLUETOOTH_A2DP : Z := 45.
Definition PAL_DEVICE_IN_HEADSET_VA_MIC : Z := 46.
Definition PAL_DEVICE_IN_VI_FEEDBACK : Z := 47.
Definition PAL_DEVICE_IN_TELEPHONY_RX : Z := 48.
Definition PAL_DEVICE_IN_ULTRASOUND_MIC : Z := 49.
Definition PAL_DEVICE_IN_EXT_EC_REF : Z := 50.
Definition PAL_DEVICE_IN_ECHO_REF : Z := 51.
Definition PAL_DEVICE_IN_HAPTICS_VI_FEEDBACK : Z := 52.
Definition PAL_DEVICE_IN_BLUETOOTH_BLE : Z := 53.
Definition PAL_DEVICE_IN_CPS_FEEDBACK : Z := 54.
Definition PAL_DEVICE_IN_DUMMY : Z := 55.
Definition PAL_DEVICE_IN_CPS2_FEEDBACK : Z := 56.
Definition PAL_DEVICE_IN_RECORD_PROXY : Z := 57.
Definition PAL_DEVICE_IN_BLUETOOTH_HFP : Z := 58.
Definition PAL_DEVICE_IN_SPEAKER_MIC2 : Z := 59.
Definition PAL_DEVICE_IN_SPEAKER_MIC3 : Z := 60.
Definition PAL_DEVICE_IN_MAX : Z := 61.

(** ** Stream flags ([pal_stream_flags_t]) *)

Definition PAL_STREAM_FLAG_TIMESTAMP : Z := 1.
Definition PAL_STREAM_FLAG_NON_BLOCKING : Z := 2.
Definition PAL_STREAM_FLAG_MMAP : Z := 4.
Definition PAL_STREAM_FLAG_MMAP_NO_IRQ : Z := 8.
Definition PAL_STREAM_FLAG_EXTERN_MEM : Z := 16.
Definition PAL_STREAM_FLAG_SRCM_INBAND : Z := 32.
Definition PAL_STREAM_FLAG_EOF : Z := 64.

(** ** Loopback kinds ([pal_stream_loopback_type_t]) *)

Definition PAL_STREAM_LOOPBACK_PCM : Z := 0.
Definition PAL_STREAM_LOOPBACK_HFP_RX : Z := 1.
Definition PAL_STREAM_LOOPBACK_HFP_TX : Z := 2.
Definition PAL_STREAM_LOOPBACK_COMPRESS : Z := 3.
Definition PAL_STREAM_LOOPBACK_FM : Z := 4.
Definition PAL_STREAM_LOOPBACK_KARAOKE : Z := 5.
Definition PAL_STREAM_LOOPBACK_PLAYBACK_ONLY : Z := 6.
Definition PAL_STREAM_LOOPBACK_CAPTURE_ONLY : Z := 7.
Definition PAL_STREAM_LOOPBACK_ICC : Z := 8.

(** ** Voice effects ([pal_audio_effect_t]) *)

Definition PAL_AUDIO_EFFECT_NONE : Z := 0.
Definition PAL_AUDIO_EFFECT_EC : Z := 1.
Definition PAL_AUDIO_EFFECT_NS : Z := 2.
Definition PAL_AUDIO_EFFECT_ECNS : Z := 3.
(** ** Structures *)

Definition PAL_MAX_CHANNELS_SUPPORTED : Z := 64.

Record pal_channel_info := mkChannels { channels : Z; ch_map : list Z }.

Record pal_media_config := mkMedia {
  sample_rate : Z;
  bit_width : Z;
  aud_fmt_id : Z;
  ch_info : pal_channel_info;
}.

Record pal_stream_info := mkStreamInfo {
  info_version : Z;
  info_size : Z;
  duration_us : Z;
  has_video : bool;
  is_streaming : bool;
  loopback_type : Z;
  tx_proxy_type : Z;
  rx_proxy_type : Z;
  haptics_type : Z;
  isBitPerfect : bool;
}.

Inductive pal_stream_info_t :=
  | opt_stream_info (i : pal_stream_info)
  | voice_rec_info (version size record_direction : Z)
  | voice_call_info (VSID tty_mode : Z)
  | incall_music_info (local_playback : bool) (music_dir : Z)
  | hpcm_stream_info (hpcm_stream_type : Z).

(** [address] is a C string; [None] is the null pointer. *)
Record pal_stream_attributes := mkAttr {
  type : Z;
  info : pal_stream_info_t;
  flags : Z;
  direction : Z;
  in_media_config : pal_media_config;
  out_media_config : pal_media_config;
  address : option (list Z);
}.

#[export] Instance pal_channel_info_eq_dec : EqDecision pal_channel_info.
Proof. solve_decision. Defined.
#[export] Instance pal_media_config_eq_dec : EqDecision pal_media_config.
Proof. solve_decision. Defined.
#[export] Instance pal_stream_info_eq_dec : EqDecision pal_stream_info.
Proof. solve_decision. Defined.
#[export] Instance pal_stream_info_t_eq_dec : EqDecision pal_stream_info_t.
Proof. solve_decision. Defined.
#[export] Instance pal_stream_attributes_eq_dec : EqDecision pal_stream_attributes.
Proof. solve_decision. Defined.

Record pal_usb_device_address := mkUsb { card_id : Z; device_num : Z }.

(** The character arrays hold C strings; [addressV1] is the union's bytes. *)
Record pal_device := mkDevice {
  dev_id : Z;
  config : pal_media_config;
  dev_address : pal_usb_device_address;
  sndDevName : string;
  custom_key : string;
  addressV1 : list Z;
}.

#[export] Instance pal_usb_device_address_eq_dec : EqDecision pal_usb_device_address.
Proof. solve_decision. Defined.
#[export] Instance pal_device_eq_dec : EqDecision pal_device.
Proof. solve_decision. Defined.

(** The states of a stream ([stream_state_t] of stream/inc/Stream.h). *)
Inductive stream_state_t :=
  | STREAM_IDLE | STREAM_INIT | STREAM_OPENED | STREAM_STARTED | STREAM_PAUSED
  | STREAM_SUSPENDED | STREAM_STOPPED.

#[export] Instance stream_state_eq_dec : EqDecision stream_state_t.
Proof. solve_decision. Defined.

Definition PAL_MAX_CUSTOM_KEY_SIZE : nat := 128.
Definition DEVICE_NAME_MAX_SIZE : nat := 128.

(** [strlcpy] into an array of [n] characters. *)
Definition strlcpy (s : string) (n : nat) : string := String.substring 0 (n - 1) s.

Definition isPalPCMFormat (fmt_id : Z) : bool :=
  bool_decide (fmt_id ∈ [PAL_AUDIO_FMT_PCM_S32_LE; PAL_AUDIO_FMT_PCM_S8;
    PAL_AUDIO_FMT_PCM_S24_3LE; PAL_AUDIO_FMT_PCM_S24_LE; PAL_AUDIO_FMT_PCM_S16_LE]).
