(* ===== verification/RingBuffer.v ===== *)
(** * The detection ring buffer (stream/StreamSoundTrigger/src/PalRingBuffer.cpp)

    One writer and several readers share a block of [bufferEnd_] bytes.  Reader
    objects live in a store keyed by their address; [readers_] is the vector of
    addresses, so a reader that is removed from the vector stays an object.
    Every operation runs under [mutex_], so it is one function of the state.
    [None] stands for undefined behaviour (an access outside a block, a division
    by zero, a dangling reader). *)

From S2P Require Import Prelude.

Inductive pal_ring_buffer_reader_state :=
  READER_DISABLED | READER_ENABLED | READER_PREPARED.

#[export] Instance reader_state_eq_dec :
  EqDecision pal_ring_buffer_reader_state.
Proof. solve_decision. Defined.

Record kwdConfig := mkKwd { startIdx : Z; endIdx : Z; ftrtSize : Z }.

(** [notified_] counts the notifications sent on [cv_]. *)
Record PalRingBufferReader := mkReader {
  unreadSize_ : Z;
  readOffset_ : Z;
  state_ : pal_ring_buffer_reader_state;
  requestedSize_ : Z;
  notified_ : nat;
}.

Record PalRingBuffer := mkRing {
  buffer_ : list Z;
  kwCfg_ : gmap positive kwdConfig;
  writeOffset_ : Z;
  bufferEnd_ : Z;
  readers_ : list positive;
  store : gmap positive PalRingBufferReader;
}.

Definition set_reader (p : positive) (r : PalRingBufferReader)
    (b : PalRingBuffer) : PalRingBuffer :=
  mkRing (buffer_ b) (kwCfg_ b) (writeOffset_ b) (bufferEnd_ b) (readers_ b)
    (<[p := r]> (store b)).

Definition set_state (s : pal_ring_buffer_reader_state)
    (r : PalRingBufferReader) : PalRingBufferReader :=
  mkReader (unreadSize_ r) (readOffset_ r) s (requestedSize_ r) (notified_ r).

Section operations.
Context `{!Osal}.

(** The constructor; a fresh block holds arbitrary bytes [junk]. *)
Definition PalRingBuffer_new (bufferSize : Z) (junk : list Z) : PalRingBuffer :=
  mkRing junk ∅ 0 bufferSize [] ∅.

Definition PalRingBufferReader_new : PalRingBufferReader :=
  mkReader 0 0 READER_DISABLED 0 0.

Definition newReader (b : PalRingBuffer) : positive * PalRingBuffer :=
  let p := fresh (dom (store b)) in
  (p, mkRing (buffer_ b) (kwCfg_ b) (writeOffset_ b) (bufferEnd_ b)
        (readers_ b ++ [p]) (<[p := PalRingBufferReader_new]> (store b))).

Definition removeReader (p : positive) (b : PalRingBuffer) : Z * PalRingBuffer :=
  (0, mkRing (buffer_ b) (kwCfg_ b) (writeOffset_ b) (bufferEnd_ b)
        (erase_first p (readers_ b)) (store b)).

Definition getFreeSize_step (bufferEnd freeSize : Z) (r : PalRingBufferReader) : Z :=
  if decide (state_ r = READER_ENABLED)
  then freeSize `min` u64 (bufferEnd - unreadSize_ r) else freeSize.

Definition getFreeSize (b : PalRingBuffer) : option Z :=
  rs ← mapM (λ p, store b !! p) (readers_ b);
  Some (foldl (getFreeSize_step (bufferEnd_ b)) (bufferEnd_ b) rs).

Definition bump_unread (writtenSize : Z) (r : PalRingBufferReader) : PalRingBufferReader :=
  let unread := u64 (unreadSize_ r + writtenSize) in
  mkReader unread (readOffset_ r) (state_ r) (requestedSize_ r)
    (if bool_decide (0 < requestedSize_ r ∧ requestedSize_ r ≤ unread)
     then S (notified_ r) else notified_ r).

Fixpoint updateUnReadSize (writtenSize : Z) (ps : list positive)
    (m : gmap positive PalRingBufferReader)
    : option (gmap positive PalRingBufferReader) :=
  match ps with
  | [] => Some m
  | p :: ps =>
      r ← m !! p;
      updateUnReadSize writtenSize ps (<[p := bump_unread writtenSize r]> m)
  end.

(** One reader of [updateKwdConfig]'s loop. *)
Definition seek_reader (sz bufferEnd : Z) (r : PalRingBufferReader)
    : option PalRingBufferReader :=
  let unread := if decide (sz < unreadSize_ r)
                then u64 (unreadSize_ r - sz) else unreadSize_ r in
  unread ← umod unread bufferEnd;
  off ← umod sz bufferEnd;
  Some (mkReader unread off (state_ r) (requestedSize_ r) (notified_ r)).

Fixpoint seek_readers (sz bufferEnd : Z) (ps : list positive)
    (m : gmap positive PalRingBufferReader)
    : option (gmap positive PalRingBufferReader) :=
  match ps with
  | [] => Some m
  | p :: ps =>
      r ← m !! p;
      r' ← seek_reader sz bufferEnd r;
      seek_readers sz bufferEnd ps (<[p := r']> m)
  end.

(** [readers] is [StreamSoundTrigger::GetReaders()] of the stream [s]. *)
Definition updateKwdConfig (s : positive) (readers : list positive)
    (startIdx endIdx preRoll : Z) (b : PalRingBuffer) : option PalRingBuffer :=
  let sz := if decide (preRoll ≤ startIdx) then u32 (startIdx - preRoll) else 0 in
  m ← seek_readers sz (bufferEnd_ b) readers (store b);
  let kc := mkKwd (u32 (startIdx - sz)) (u32 (endIdx - sz)) endIdx in
  Some (mkRing (buffer_ b) (<[s := kc]> (kwCfg_ b)) (writeOffset_ b)
          (bufferEnd_ b) (readers_ b) m).

(** [kwCfg_[s]] inserts a zeroed entry when [s] is absent. *)
Definition getIndices (s : positive) (b : PalRingBuffer)
    : (Z * Z * Z) * PalRingBuffer :=
  let kc := default (mkKwd 0 0 0) (kwCfg_ b !! s) in
  ((startIdx kc, endIdx kc, ftrtSize kc),
   mkRing (buffer_ b) (<[s := kc]> (kwCfg_ b)) (writeOffset_ b) (bufferEnd_ b)
     (readers_ b) (store b)).

(** The copy of [write]: the block, the bytes written, the write offset. *)
Definition write_copy (b : PalRingBuffer) (writeBuffer : list Z) (sizeToCopy : Z)
    : option (list Z * Z * Z) :=
  if decide (sizeToCopy = 0) then Some (buffer_ b, 0, writeOffset_ b)
  else if decide (bufferEnd_ b < u64 (writeOffset_ b + sizeToCopy)) then
    let i := u64 (bufferEnd_ b - writeOffset_ b) in
    src1 ← slice 0 i writeBuffer;
    buf1 ← splice (writeOffset_ b) (ar_mem_cpy i src1) (buffer_ b);
    let rest := u64 (sizeToCopy - i) in
    src2 ← slice i rest writeBuffer;
    buf2 ← splice 0 (ar_mem_cpy rest src2) buf1;
    Some (buf2, u64 (i + rest), rest)
  else
    src ← slice 0 sizeToCopy writeBuffer;
    buf ← splice (writeOffset_ b) (ar_mem_cpy sizeToCopy src) (buffer_ b);
    Some (buf, sizeToCopy, u64 (writeOffset_ b + sizeToCopy)).

Definition write (writeBuffer : list Z) (writeSize : Z) (b : PalRingBuffer)
    : option (Z * PalRingBuffer) :=
  freeSize ← getFreeSize b;
  let sizeToCopy := if decide (writeSize ≤ freeSize) then writeSize else freeSize in
  '(buf, writtenSize, woff) ← write_copy b writeBuffer sizeToCopy;
  m ← updateUnReadSize writtenSize (readers_ b) (store b);
  woff ← umod woff (bufferEnd_ b);
  Some (writtenSize,
        mkRing buf (kwCfg_ b) woff (bufferEnd_ b) (readers_ b) m).

Definition PalRingBufferReader_reset (r : PalRingBufferReader) : PalRingBufferReader :=
  mkReader 0 0 READER_DISABLED 0 (S (notified_ r)).

Definition reset (b : PalRingBuffer) : PalRingBuffer :=
  mkRing (buffer_ b) ∅ 0 (bufferEnd_ b) (readers_ b)
    (foldr (λ p m, alter PalRingBufferReader_reset p m) (store b) (readers_ b)).

(** The new block holds arbitrary bytes [junk]. *)
Definition resizeRingBuffer (bufferSize : Z) (junk : list Z) (b : PalRingBuffer)
    : PalRingBuffer :=
  mkRing junk (kwCfg_ b) (writeOffset_ b) bufferSize (readers_ b) (store b).

(** [waitForBuffers] releases the reader's lock while it waits on [cv_]:
    [others] is what the other threads do to the buffer meanwhile. *)
Definition waitForBuffers (others : PalRingBuffer → PalRingBuffer)
    (p : positive) (buffer_size : Z) (b : PalRingBuffer)
    : option (bool * PalRingBuffer) :=
  let set_requested q r :=
    mkReader (unreadSize_ r) (readOffset_ r) (state_ r) q (notified_ r) in
  r ← store b !! p;
  let b1 := if decide (state_ r = READER_ENABLED ∧ unreadSize_ r < buffer_size)
            then others (set_reader p (set_requested buffer_size r) b) else b in
  r1 ← store b1 !! p;
  Some (bool_decide (buffer_size ≤ unreadSize_ r1),
        set_reader p (set_requested 0 r1) b1).

(** [data] is the caller's block; the result is that block and the status. *)
Definition getKwData (p : positive) (data : list Z) (size : Z) (b : PalRingBuffer)
    : option (Z * list Z) :=
  r ← store b !! p;
  if decide (bufferEnd_ b < u64 (readOffset_ r + size)) then
    let offset := u64 (bufferEnd_ b - readOffset_ r) in
    src1 ← slice (readOffset_ r) offset (buffer_ b);
    data ← splice 0 (ar_mem_cpy offset src1) data;
    src2 ← slice 0 (u64 (size - offset)) (buffer_ b);
    data ← splice offset (ar_mem_cpy (u64 (size - offset)) src2) data;
    Some (s32 size, data)
  else
    src ← slice (readOffset_ r) size (buffer_ b);
    data ← splice 0 (ar_mem_cpy size src) data;
    Some (s32 size, data).

(** [read] once the reader is enabled and has unread bytes: the status, the
    caller's block, the unread size and the read offset left behind. *)
Definition read_copy (b : PalRingBuffer) (r : PalRingBufferReader)
    (readBuffer : list Z) (bufferSize : Z) : option (Z * list Z * Z * Z) :=
  if decide (readOffset_ r < writeOffset_ b) then
    let unread := u64 (writeOffset_ b - readOffset_ r) in
    if decide (unread ≤ bufferSize) then
      src ← slice (readOffset_ r) unread (buffer_ b);
      dst ← splice 0 (ar_mem_cpy unread src) readBuffer;
      Some (s32 unread, dst, 0, u64 (readOffset_ r + unread))
    else
      src ← slice (readOffset_ r) bufferSize (buffer_ b);
      dst ← splice 0 (ar_mem_cpy unread src) readBuffer;
      let roff := u64 (readOffset_ r + bufferSize) in
      Some (s32 bufferSize, dst, u64 (writeOffset_ b - roff), roff)
  else
    let freeClientSize := s32 bufferSize in
    let i := s32 (u64 (bufferEnd_ b - readOffset_ r)) in
    if decide (u64 i ≤ bufferSize) then
      src1 ← slice (readOffset_ r) (u64 i) (buffer_ b);
      dst1 ← splice 0 (ar_mem_cpy (u64 i) src1) readBuffer;
      let readSize := i in
      let freeClientSize := s32 (freeClientSize - readSize) in
      let unread := writeOffset_ b in
      if decide (unread < u64 freeClientSize) then
        src2 ← slice 0 unread (buffer_ b);
        dst2 ← splice readSize (ar_mem_cpy unread src2) dst1;
        Some (s32 (readSize + unread), dst2, 0, unread)
      else
        src2 ← slice 0 (u64 freeClientSize) (buffer_ b);
        dst2 ← splice readSize (ar_mem_cpy (u64 freeClientSize) src2) dst1;
        Some (s32 (readSize + freeClientSize), dst2,
              u64 (writeOffset_ b - u64 freeClientSize), u64 freeClientSize)
    else
      src ← slice (readOffset_ r) bufferSize (buffer_ b);
      dst ← splice 0 (ar_mem_cpy bufferSize src) readBuffer;
      let roff := u64 (readOffset_ r + bufferSize) in
      Some (s32 bufferSize, dst,
            u64 (bufferEnd_ b - roff + writeOffset_ b), roff).

Definition read (p : positive) (readBuffer : list Z) (bufferSize : Z)
    (b : PalRingBuffer) : option (Z * list Z * PalRingBuffer) :=
  r ← store b !! p;
  if decide (state_ r = READER_DISABLED) then Some (- EINVAL, readBuffer, b)
  else
    let r := if decide (state_ r = READER_PREPARED)
             then set_state READER_ENABLED r else r in
    if decide (unreadSize_ r = 0) then Some (0, readBuffer, set_reader p r b)
    else
      '(ret, dst, unread, roff) ← read_copy b r readBuffer bufferSize;
      Some (ret, dst,
            set_reader p (mkReader unread roff (state_ r) (requestedSize_ r)
                            (notified_ r)) b).

Definition advanceReadOffset (p : positive) (advanceSize : Z) (b : PalRingBuffer)
    : option (Z * PalRingBuffer) :=
  r ← store b !! p;
  off ← umod (u64 (readOffset_ r + advanceSize)) (bufferEnd_ b);
  let unread := if decide (advanceSize < unreadSize_ r)
                then u64 (unreadSize_ r - advanceSize) else unreadSize_ r in
  Some (advanceSize,
        set_reader p (mkReader unread off (state_ r) (requestedSize_ r)
                        (notified_ r)) b).

Definition updateState (p : positive) (s : pal_ring_buffer_reader_state)
    (b : PalRingBuffer) : option PalRingBuffer :=
  r ← store b !! p;
  Some (set_reader p (set_state s r) b).
End operations.
