(* ===== verification/RingBufferFacts.v ===== *)
(** * The ring buffer as a bounded queue of bytes

    [ring_cells] reads a wrapped range of the block, [RingOk] is the invariant
    of the shared buffer, and the theorems relate every operation to the byte
    queue [unread_data] each reader sees. *)

From S2P Require Import Prelude RingBuffer.

(** ** Wrapped ranges of a block *)

Definition ring_cells (e r n : Z) (buf : list Z) : list Z :=
  (λ i : nat, buf !!! Z.to_nat ((r + Z.of_nat i) mod e)) <$> seq 0 (Z.to_nat n).

(** [buf'] is [buf] with [d] stored from [w] on, wrapping at [e]. *)
Definition ring_put (e w : Z) (d buf buf' : list Z) : Prop :=
  ∀ j : Z, 0 ≤ j < e →
    buf' !!! Z.to_nat j =
      if decide ((j - w) mod e < zlen d) then d !!! Z.to_nat ((j - w) mod e)
      else buf !!! Z.to_nat j.

Section cells.
Context (e : Z) (He : 0 < e).

Lemma ring_cells_length r n buf : 0 ≤ n → zlen (ring_cells e r n buf) = n.
Proof. intros. unfold zlen, ring_cells. rewrite length_fmap, length_seq. lia. Qed.

Lemma ring_cells_0 r buf : ring_cells e r 0 buf = [].
Proof. done. Qed.

Lemma ring_cells_lookup r n buf (i : nat) :
  (i < Z.to_nat n)%nat →
  ring_cells e r n buf !! i = Some (buf !!! Z.to_nat ((r + Z.of_nat i) mod e)).
Proof.
  intros. unfold ring_cells. rewrite list_lookup_fmap, lookup_seq_lt by lia. done.
Qed.

Lemma ring_cells_eq r r' n buf buf' :
  (∀ i, 0 ≤ i < n →
    buf !!! Z.to_nat ((r + i) mod e) = buf' !!! Z.to_nat ((r' + i) mod e)) →
  ring_cells e r n buf = ring_cells e r' n buf'.
Proof.
  intros H. unfold ring_cells. apply list_fmap_ext. intros i j.
  rewrite lookup_seq. intros [-> ?]. apply H. lia.
Qed.

Lemma ring_cells_mod r n buf :
  ring_cells e (r mod e) n buf = ring_cells e r n buf.
Proof. apply ring_cells_eq. intros. by rewrite Zplus_mod_idemp_l. Qed.

Lemma ring_cells_app r n m buf :
  0 ≤ n → 0 ≤ m →
  ring_cells e r (n + m) buf = ring_cells e r n buf ++ ring_cells e (r + n) m buf.
Proof.
  intros. unfold ring_cells. rewrite Z2Nat.inj_add by done.
  rewrite seq_app, fmap_app. f_equal.
  rewrite Nat.add_0_l, <- (Nat.add_0_r (Z.to_nat n)) at 1.
  rewrite <- fmap_add_seq, <- list_fmap_compose.
  apply list_fmap_ext. intros i j _. simpl. do 3 f_equal. lia.
Qed.

(** An unwrapped range is a slice. *)
Lemma ring_cells_slice r n buf :
  zlen buf = e → 0 ≤ r → 0 ≤ n → r + n ≤ e →
  slice r n buf = Some (ring_cells e r n buf).
Proof.
  intros Hl ???. destruct (slice_is_Some r n buf) as [s Hs]; [lia..|].
  rewrite Hs. f_equal. pose proof (slice_length _ _ _ _ Hs) as HL.
  apply list_eq. intros i. destruct (decide (i < Z.to_nat n)%nat) as [Hi|Hi].
  - rewrite (slice_lookup _ _ _ _ _ Hs Hi), ring_cells_lookup by done.
    rewrite Z.mod_small by lia. unfold zlen in *.
    rewrite list_lookup_lookup_total_lt by lia. do 2 f_equal. lia.
  - rewrite lookup_ge_None_2 by (unfold zlen in *; lia).
    rewrite lookup_ge_None_2; [done|].
    pose proof (ring_cells_length r n buf). unfold zlen in *. lia.
Qed.

Lemma ring_put_nil w buf : ring_put e w [] buf buf.
Proof. intros j ?. rewrite decide_False; [done|]. unfold zlen. simpl.
       pose proof (Z.mod_pos_bound (j - w) e). lia. Qed.

(** The bytes just stored are read back. *)
Lemma ring_put_new w d buf buf' :
  ring_put e w d buf buf' → zlen d ≤ e → ring_cells e w (zlen d) buf' = d.
Proof.
  intros Hp Hd. apply list_eq. intros i.
  destruct (decide (i < Z.to_nat (zlen d))%nat) as [Hi|Hi].
  - rewrite ring_cells_lookup by done.
    rewrite Hp by (apply Z.mod_pos_bound; lia).
    rewrite Zminus_mod_idemp_l. replace (w + Z.of_nat i - w) with (Z.of_nat i) by lia.
    rewrite Z.mod_small by lia. rewrite decide_True by lia.
    rewrite Nat2Z.id, list_lookup_lookup_total_lt; [done|]. unfold zlen in *. lia.
  - pose proof (ring_cells_length w (zlen d) buf') as HL.
    unfold zlen in *. rewrite !lookup_ge_None_2; [done| |]; lia.
Qed.

(** A range that ends where the new bytes start is untouched. *)
Lemma ring_put_old w d buf buf' r n :
  ring_put e w d buf buf' → (r + n) mod e = w mod e → 0 ≤ n → n + zlen d ≤ e →
  ring_cells e r n buf' = ring_cells e r n buf.
Proof.
  intros Hp Hw ? Hd. apply ring_cells_eq. intros i ?.
  rewrite Hp by (apply Z.mod_pos_bound; lia).
  rewrite decide_False; [done|].
  rewrite Zminus_mod_idemp_l.
  assert ((r + i - w) mod e = e + i - n) as ->; [|lia].
  rewrite Zminus_mod, <- Hw, <- Zminus_mod.
  replace (r + i - (r + n)) with (e + i - n + (-1) * e) by lia.
  rewrite Z.mod_add by lia. apply Z.mod_small. pose proof (zlen_nonneg d). lia.
Qed.

(** One or two [splice]s implement [ring_put]. *)
Lemma splice_ring_put w d buf buf' :
  zlen buf = e → 0 ≤ w → w < e → splice w d buf = Some buf' →
  ring_put e w d buf buf'.
Proof.
  intros Hl ?? Hs j ?. pose proof (splice_lookup _ _ _ _ (Z.to_nat j) Hs) as Hj.
  pose proof (splice_length _ _ _ _ Hs) as HL.
  apply splice_Some in Hs as [[_ Hd] _]. rewrite Z2Nat.id in Hj by lia.
  rewrite !list_lookup_total_alt, Hj. unfold zlen in *.
  destruct (decide (w ≤ j)).
  - rewrite Z.mod_small by lia. repeat case_decide; try done; try lia.
    do 2 f_equal. lia.
  - replace (j - w) with (j - w + e + (-1) * e) by lia.
    rewrite Z.mod_add, Z.mod_small by lia. repeat case_decide; try done; lia.
Qed.

Lemma splice2_ring_put w d1 d2 buf buf1 buf2 :
  zlen buf = e → 0 ≤ w → w < e → w + zlen d1 = e → zlen d1 + zlen d2 ≤ e →
  splice w d1 buf = Some buf1 → splice 0 d2 buf1 = Some buf2 →
  ring_put e w (d1 ++ d2) buf buf2.
Proof.
  intros Hl ?? Hd1 ? Hs1 Hs2 j ?.
  pose proof (splice_lookup _ _ _ _ (Z.to_nat j) Hs1) as Hj1.
  pose proof (splice_lookup _ _ _ _ (Z.to_nat j) Hs2) as Hj2.
  rewrite !list_lookup_total_alt, Hj2, Hj1. rewrite zlen_app, lookup_app.
  rewrite Z2Nat.id by lia. unfold zlen in *.
  destruct (decide (w ≤ j)).
  - rewrite (Z.mod_small (j - w)) by lia. repeat case_decide; try lia.
    replace (Z.to_nat j - Z.to_nat w)%nat with (Z.to_nat (j - w)) by lia.
    destruct (d1 !! Z.to_nat (j - w)) eqn:E; [done|].
    apply lookup_ge_None_1 in E. lia.
  - replace (j - w) with (j - w + e + (-1) * e) by lia.
    rewrite Z.mod_add, (Z.mod_small (j - w + e)) by lia.
    rewrite (lookup_ge_None_2 d1 (Z.to_nat (j - w + e))) by lia.
    repeat case_decide; try done; try lia.
    do 2 f_equal. lia.
Qed.
End cells.

(** ** The shared invariant *)

(** The read position of [r] plus its unread bytes is the write position. *)
Definition positioned (b : PalRingBuffer) (r : PalRingBufferReader) : Prop :=
  0 ≤ readOffset_ r < bufferEnd_ b ∧ 0 ≤ unreadSize_ r < 2 ^ 64 ∧
  (readOffset_ r + unreadSize_ r) mod bufferEnd_ b = writeOffset_ b.

(** Enabled readers never hold more than the block. *)
Definition reader_ok (b : PalRingBuffer) (r : PalRingBufferReader) : Prop :=
  positioned b r ∧
  (state_ r = READER_ENABLED → unreadSize_ r ≤ bufferEnd_ b).

Record RingOk (b : PalRingBuffer) : Prop := {
  ok_size : 0 < bufferEnd_ b < 2 ^ 31;
  ok_block : zlen (buffer_ b) = bufferEnd_ b;
  ok_woff : 0 ≤ writeOffset_ b < bufferEnd_ b;
  ok_nodup : NoDup (readers_ b);
  ok_readers : ∀ p, p ∈ readers_ b →
    ∃ r, store b !! p = Some r ∧ reader_ok b r;
}.

Definition unread_data (b : PalRingBuffer) (r : PalRingBufferReader) : list Z :=
  ring_cells (bufferEnd_ b) (readOffset_ r) (unreadSize_ r) (buffer_ b).

(** What a [read] can still deliver: an overrun (prepared) reader gets the
    bytes between its position and the write position. *)
Definition pending (b : PalRingBuffer) (r : PalRingBufferReader) : Z :=
  if decide (unreadSize_ r = 0) then 0
  else if decide (readOffset_ r < writeOffset_ b)
  then writeOffset_ b - readOffset_ r
  else bufferEnd_ b - readOffset_ r + writeOffset_ b.

Lemma ok_lookup b p r :
  RingOk b → p ∈ readers_ b → store b !! p = Some r → reader_ok b r.
Proof. intros [_ _ _ _ H] Hp Hr. destruct (H p Hp) as (?&?&?). by simplify_eq. Qed.

(** Two representatives of one residue that are less than [e] apart. *)
Lemma mod_window e x y :
  0 < e → x mod e = y mod e → - e < x - y < e → x = y.
Proof.
  intros He Hm Hw.
  pose proof (Z.div_mod x e ltac:(lia)). pose proof (Z.div_mod y e ltac:(lia)).
  assert (x - y = e * (x / e - y / e)) as Hd by lia.
  assert (x / e - y / e = 0) by nia. nia.
Qed.

Lemma pending_range b r :
  RingOk b → positioned b r → 0 ≤ pending b r ≤ bufferEnd_ b.
Proof. intros [? _ ? _ _] [? _]. unfold pending. repeat case_decide; lia. Qed.

Lemma pending_positioned b r :
  RingOk b → positioned b r →
  (readOffset_ r + pending b r) mod bufferEnd_ b = writeOffset_ b.
Proof.
  intros [? _ ? _ _] (?&?&Hm). unfold pending. repeat case_decide.
  - by rewrite <- Hm; f_equal; lia.
  - rewrite Z.mod_small; lia.
  - replace (readOffset_ r + (bufferEnd_ b - readOffset_ r + writeOffset_ b))
      with (writeOffset_ b + 1 * bufferEnd_ b) by lia.
    rewrite Z.mod_add, Z.mod_small; lia.
Qed.

(** For a reader that is not overrun, every unread byte is pending. *)
Lemma pending_unread b r :
  RingOk b → positioned b r → unreadSize_ r ≤ bufferEnd_ b →
  pending b r = unreadSize_ r.
Proof.
  intros Hok Hpos Hle. pose proof (pending_positioned b r Hok Hpos) as Hp.
  pose proof (pending_range b r Hok Hpos).
  destruct Hpos as (?&?&Hm), Hok as [? _ ? _ _].
  assert (unreadSize_ r = 0 ∧ pending b r = 0 ∨ 0 < unreadSize_ r ∧ 0 < pending b r)
    as [?|?] by (unfold pending; repeat case_decide; lia); [lia|].
  assert (readOffset_ r + pending b r = readOffset_ r + unreadSize_ r); [|lia].
  apply (mod_window (bufferEnd_ b)); [lia| |lia]. by rewrite Hm.
Qed.

(** ** [getFreeSize] is the smallest room an enabled reader leaves *)

Lemma getFreeSize_fold b rs :
  RingOk b → Forall (reader_ok b) rs → ∀ f0, 0 ≤ f0 ≤ bufferEnd_ b →
  let f := foldl (getFreeSize_step (bufferEnd_ b)) f0 rs in
  0 ≤ f ≤ f0 ∧
  (∀ r, r ∈ rs → state_ r = READER_ENABLED → f ≤ bufferEnd_ b - unreadSize_ r) ∧
  (f = f0 ∨ ∃ r, r ∈ rs ∧ state_ r = READER_ENABLED ∧
                 f = bufferEnd_ b - unreadSize_ r).
Proof.
  intros Hok. pose proof (ok_size _ Hok).
  induction 1 as [|r rs [Hp He] _ IH]; simpl; intros f0 Hf0.
  { split_and!; [lia|lia|set_solver|by left]. }
  destruct Hp as (?&?&_). destruct (decide (state_ r = READER_ENABLED)) as [Hs|Hs].
  - specialize (He Hs).
    assert (getFreeSize_step (bufferEnd_ b) f0 r = f0 `min` (bufferEnd_ b - unreadSize_ r))
      as -> by (unfold getFreeSize_step; rewrite decide_True, u64_small by (done || lia); done).
    destruct (IH (f0 `min` (bufferEnd_ b - unreadSize_ r))) as (?&Hle&Hor); [lia|].
    split_and!; [lia|lia| |].
    + intros r' [->|?]%elem_of_cons ?; [lia|by apply Hle].
    + destruct Hor as [->|(r'&?&?&?)]; [|right; exists r'; set_solver].
      destruct (decide (f0 ≤ bufferEnd_ b - unreadSize_ r)).
      * left. lia.
      * right. exists r. split_and!; [set_solver|done|lia].
  - assert (getFreeSize_step (bufferEnd_ b) f0 r = f0)
      as -> by (unfold getFreeSize_step; by rewrite decide_False).
    destruct (IH f0) as (?&Hle&Hor); [lia|]. split_and!; [lia|lia| |].
    + intros r' [->|?]%elem_of_cons ?; [done|by apply Hle].
    + destruct Hor as [->|(r'&?&?&?)]; [by left|right; exists r'; set_solver].
Qed.

Lemma readers_mapM b :
  RingOk b → ∃ rs, mapM (λ p, store b !! p) (readers_ b) = Some rs ∧
    Forall (reader_ok b) rs ∧
    ∀ r, r ∈ rs ↔ ∃ p, p ∈ readers_ b ∧ store b !! p = Some r.
Proof.
  intros [_ _ _ _ Hr].
  assert (∀ p, p ∈ readers_ b → ∃ r, store b !! p = Some r ∧ reader_ok b r) as H by done.
  clear Hr. induction (readers_ b) as [|p ps IH]; simpl.
  { exists []. split_and!; [done|done|set_solver]. }
  destruct (H p) as (r&Hp&?); [set_solver|].
  destruct IH as (rs&Hrs&?&Hin); [intros; apply H; set_solver|].
  exists (r :: rs). rewrite Hp. simpl. rewrite Hrs. split_and!; [done|by constructor|].
  intros r'. rewrite elem_of_cons, Hin. split.
  - intros [->|(p'&?&?)]; [exists p|exists p']; split; done || set_solver.
  - intros (p'&[->|?]%elem_of_cons&?); [left; congruence|right; eauto].
Qed.

Lemma getFreeSize_spec b :
  RingOk b → ∃ f, getFreeSize b = Some f ∧ 0 ≤ f ≤ bufferEnd_ b ∧
    (∀ p r, p ∈ readers_ b → store b !! p = Some r →
       state_ r = READER_ENABLED → f ≤ bufferEnd_ b - unreadSize_ r) ∧
    (f = bufferEnd_ b ∨ ∃ p r, p ∈ readers_ b ∧ store b !! p = Some r ∧
       state_ r = READER_ENABLED ∧ f = bufferEnd_ b - unreadSize_ r).
Proof.
  intros Hok. pose proof (ok_size _ Hok).
  destruct (readers_mapM b Hok) as (rs&Hrs&Hall&Hin).
  destruct (getFreeSize_fold b rs Hok Hall (bufferEnd_ b)) as (?&Hle&Hor); [lia|].
  eexists. unfold getFreeSize. rewrite Hrs. simpl. split_and!; [done|lia|lia| |].
  - intros p r ???. apply Hle; [apply Hin; eauto|done].
  - destruct Hor as [->|(r&(p&?&?)%Hin&?&?)]; [by left|right; eauto 10].
Qed.

(** ** [write] *)

Lemma updateUnReadSize_lookup n ps : ∀ m,
  NoDup ps → (∀ p, p ∈ ps → is_Some (m !! p)) →
  ∃ m', updateUnReadSize n ps m = Some m' ∧
    ∀ p, m' !! p = if decide (p ∈ ps) then bump_unread n <$> m !! p else m !! p.
Proof.
  induction ps as [|q ps IH]; intros m Hnd Hm; cbn [updateUnReadSize].
  { exists m. split; [done|]. intros p. case_decide; set_solver. }
  apply NoDup_cons in Hnd as [Hq Hnd].
  destruct (Hm q) as [r Hr]; [set_solver|]. rewrite Hr. simpl.
  destruct (IH (<[q := bump_unread n r]> m) Hnd) as (m'&->&Hl).
  { intros p Hp. rewrite lookup_insert_ne by set_solver. apply Hm. set_solver. }
  exists m'. split; [done|]. intros p. rewrite Hl.
  destruct (decide (p = q)) as [->|Hne].
  - rewrite lookup_insert_eq. repeat case_decide; try done; [|set_solver]. by rewrite Hr.
  - rewrite lookup_insert_ne by done. repeat case_decide; try done; set_solver.
Qed.

Section writer.
Context `{!Osal, !OsalSpec ar_mem_cpy}.

Lemma write_copy_spec b wbuf k :
  RingOk b → 0 ≤ k ≤ bufferEnd_ b → k ≤ zlen wbuf →
  ∃ buf woff, write_copy b wbuf k = Some (buf, k, woff) ∧
    ring_put (bufferEnd_ b) (writeOffset_ b) (take (Z.to_nat k) wbuf) (buffer_ b) buf ∧
    zlen buf = bufferEnd_ b ∧ woff mod bufferEnd_ b = (writeOffset_ b + k) mod bufferEnd_ b.
Proof.
  intros [? Hblk ? _ _] ??. unfold write_copy.
  case_decide as Hk; [subst; eexists _, _; split; [done|]|].
  { rewrite take_0, Z.add_0_r. split_and!; [apply ring_put_nil; lia|done|done]. }
  rewrite !u64_small by lia. case_decide as Hw.
  - set (i := bufferEnd_ b - writeOffset_ b).
    rewrite (u64_small i), (u64_small (k - i)) by lia. rewrite (u64_small (i + (k - i))) by lia.
    destruct (slice_is_Some 0 i wbuf) as [s1 Hs1]; [lia..|].
    destruct (slice_is_Some i (k - i) wbuf) as [s2 Hs2]; [lia..|].
    pose proof (slice_length _ _ _ _ Hs1). pose proof (slice_length _ _ _ _ Hs2).
    rewrite Hs1. simpl. rewrite ar_mem_cpy_fits by lia.
    destruct (splice_is_Some (writeOffset_ b) s1 (buffer_ b)) as [b1 Hb1]; [lia..|].
    rewrite Hb1. simpl. rewrite Hs2. simpl. rewrite ar_mem_cpy_fits by lia.
    pose proof (splice_length _ _ _ _ Hb1) as HL1.
    destruct (splice_is_Some 0 s2 b1) as [b2 Hb2]; [unfold zlen in *; lia..|].
    rewrite Hb2. simpl. pose proof (splice_length _ _ _ _ Hb2) as HL2.
    eexists _, _. split_and!.
    + do 3 f_equal. lia.
    + replace (take (Z.to_nat k) wbuf) with (s1 ++ s2).
      { eapply splice2_ring_put; eauto; lia. }
      apply slice_Some in Hs1 as [_ ->], Hs2 as [_ ->].
      rewrite drop_0, take_take_drop. f_equal. lia.
    + unfold zlen in *. lia.
    + replace (writeOffset_ b + k) with (k - i + 1 * bufferEnd_ b) by lia.
      by rewrite Z.mod_add by lia.
  - destruct (slice_is_Some 0 k wbuf) as [s Hs]; [lia..|].
    pose proof (slice_length _ _ _ _ Hs). rewrite Hs. simpl.
    rewrite ar_mem_cpy_fits by lia.
    destruct (splice_is_Some (writeOffset_ b) s (buffer_ b)) as [b1 Hb1]; [lia..|].
    rewrite Hb1. simpl. pose proof (splice_length _ _ _ _ Hb1) as HL1.
    eexists _, _. split_and!; [done| |unfold zlen in *; lia|done].
    replace (take (Z.to_nat k) wbuf) with s; [by eapply splice_ring_put; eauto; lia|].
    by apply slice_Some in Hs as [_ ->].
Qed.

(** Room in the 64-bit unread counters for [n] more bytes. *)
Definition headroom (n : Z) (b : PalRingBuffer) : Prop :=
  ∀ p r, p ∈ readers_ b → store b !! p = Some r → unreadSize_ r + n < 2 ^ 64.

(** A reader after [k] bytes were appended at the write position. *)
Lemma bump_reader_ok b b' r k :
  RingOk b → reader_ok b r → 0 ≤ k → unreadSize_ r + k < 2 ^ 64 →
  bufferEnd_ b' = bufferEnd_ b →
  writeOffset_ b' = (writeOffset_ b + k) mod bufferEnd_ b →
  (state_ r = READER_ENABLED → k ≤ bufferEnd_ b - unreadSize_ r) →
  reader_ok b' (bump_unread k r).
Proof.
  intros Hok [(?&?&Hm) _] ?? Hend Hwoff Hk. unfold reader_ok, positioned; simpl.
  rewrite u64_small, Hend, Hwoff by lia. split_and!; try lia.
  - rewrite <- Hm, Zplus_mod_idemp_l. f_equal. lia.
  - intros Hs. specialize (Hk Hs). lia.
Qed.

(** C1: under the invariant [write] never touches memory outside the blocks;
    it stores exactly [min writeSize freeSize] bytes, where [freeSize] is the
    smallest room an enabled reader leaves; every enabled reader keeps all
    its unread bytes, in order, followed by the bytes stored; and the
    invariant holds again. *)
Theorem write_appends b wbuf n :
  RingOk b → headroom n b → 0 ≤ n ≤ zlen wbuf →
  ∃ f b', getFreeSize b = Some f ∧ write wbuf n b = Some (n `min` f, b') ∧
    RingOk b' ∧ readers_ b' = readers_ b ∧
    ∀ p r, p ∈ readers_ b → store b !! p = Some r → state_ r = READER_ENABLED →
      ∃ r', store b' !! p = Some r' ∧ state_ r' = READER_ENABLED ∧
        readOffset_ r' = readOffset_ r ∧
        unread_data b' r' = unread_data b r ++ take (Z.to_nat (n `min` f)) wbuf.
Proof.
  intros Hok Hroom Hn. destruct (getFreeSize_spec b Hok) as (f&Hf&?&Hmin&_).
  exists f. unfold write. rewrite Hf. cbn [mbind option_bind].
  replace (if decide (n ≤ f) then n else f) with (n `min` f) by (case_decide; lia).
  set (k := n `min` f).
  destruct (write_copy_spec b wbuf k Hok) as (buf&woff&Hcopy&Hput&Hlen&Hwoff);
    [lia..|].
  rewrite Hcopy. cbn [mbind option_bind].
  destruct (updateUnReadSize_lookup k (readers_ b) (store b)) as (m&Hm&Hlk).
  { by apply ok_nodup. }
  { intros p Hp. destruct (ok_readers _ Hok p Hp) as (?&->&_). by eexists. }
  rewrite Hm. cbn [mbind option_bind]. pose proof (ok_size _ Hok).
  rewrite umod_pos, Hwoff by lia. cbn [mbind option_bind].
  eexists. split; [done|]. split; [done|].
  assert (∀ p r, p ∈ readers_ b → store b !! p = Some r →
    state_ r = READER_ENABLED → k ≤ bufferEnd_ b - unreadSize_ r) as Hk.
  { intros p r Hp Hr Hs. specialize (Hmin p r Hp Hr Hs). lia. }
  split; [|split; [done|]].
  - split; simpl; [lia|done|apply Z.mod_pos_bound; lia|by apply ok_nodup|].
    intros p Hp. destruct (ok_readers _ Hok p Hp) as (r&Hr&Hrok).
    rewrite Hlk, decide_True, Hr by done. eexists. split; [done|].
    specialize (Hroom p r Hp Hr).
    apply (bump_reader_ok b); [done|done|lia|lia|done|done|by eauto].
  - intros p r Hp Hr Hs. simpl. rewrite Hlk, decide_True, Hr by done.
    eexists. split; [done|]. split; [done|]. split; [done|].
    destruct (ok_lookup _ _ _ Hok Hp Hr) as [(?&?&Hpos) Hle]. specialize (Hle Hs).
    specialize (Hk p r Hp Hr Hs). specialize (Hroom p r Hp Hr).
    unfold unread_data; simpl. rewrite u64_small by lia.
    assert (zlen (take (Z.to_nat k) wbuf) = k) as Hzk
      by (unfold zlen in *; rewrite length_take; lia).
    rewrite ring_cells_app by lia. f_equal.
    + eapply (ring_put_old (bufferEnd_ b)); [lia|done| |lia|lia].
      rewrite Hpos. symmetry. apply Z.mod_small, ok_woff, Hok.
    + rewrite <- ring_cells_mod, Hpos by lia. rewrite <- Hzk at 1.
      eapply ring_put_new; [lia|done|lia].
Qed.
End writer.

(** ** [read] *)

Lemma splice_0 (d l : list Z) :
  zlen d ≤ zlen l → splice 0 d l = Some (d ++ drop (length d) l).
Proof.
  intros. unfold splice. rewrite decide_True by lia. done.
Qed.

Lemma splice_after (d1 d2 l : list Z) off :
  off = zlen d1 → zlen d1 + zlen d2 ≤ zlen l →
  splice off d2 (d1 ++ drop (length d1) l) =
    Some ((d1 ++ d2) ++ drop (length (d1 ++ d2)) l).
Proof.
  intros -> ?. unfold zlen in *. unfold splice, zlen.
  rewrite decide_True by (rewrite length_app, length_drop; lia).
  rewrite Nat2Z.id, take_app_length, drop_app_ge by lia.
  rewrite drop_drop, length_app, <- app_assoc. do 4 f_equal. lia.
Qed.

Section reader.
Context `{!Osal, !OsalSpec ar_mem_cpy}.

(** A slice of the block copied to the front of the caller's block. *)
Lemma copy_out b r0 k dst :
  RingOk b → 0 ≤ r0 → 0 ≤ k → r0 + k ≤ bufferEnd_ b → k ≤ zlen dst →
  ∀ c, k ≤ c → ∃ src, slice r0 k (buffer_ b) = Some src ∧
    src = ring_cells (bufferEnd_ b) r0 k (buffer_ b) ∧
    splice 0 (ar_mem_cpy c src) dst = Some (src ++ drop (length src) dst).
Proof.
  intros [? Hb _ _ _] ???? c ?. eexists.
  rewrite (ring_cells_slice (bufferEnd_ b)) by lia. split; [done|]. split; [done|].
  pose proof (ring_cells_length (bufferEnd_ b) r0 k (buffer_ b)).
  rewrite ar_mem_cpy_fits by lia. apply splice_0. lia.
Qed.

(** A non-empty reader delivers its next [min n pending] bytes and moves on by
    that many. *)
Lemma read_copy_spec b r dst n :
  RingOk b → positioned b r → unreadSize_ r ≠ 0 →
  0 ≤ n < 2 ^ 31 → n ≤ zlen dst →
  let k := n `min` pending b r in
  let data := ring_cells (bufferEnd_ b) (readOffset_ r) k (buffer_ b) in
  read_copy b r dst n =
    Some (k, data ++ drop (length data) dst, pending b r - k,
          (readOffset_ r + k) mod bufferEnd_ b).
Proof.
  intros Hok Hpos Hne Hn Hdst. pose proof Hok as [? Hb ? _ _].
  destruct Hpos as (?&?&_). unfold read_copy, pending.
  rewrite (decide_False (P := unreadSize_ r = 0)) by done. case_decide as Hlt.
  - rewrite (u64_small (writeOffset_ b - readOffset_ r)) by lia. case_decide.
    + rewrite Z.min_r by lia.
      destruct (copy_out b (readOffset_ r) (writeOffset_ b - readOffset_ r) dst Hok)
        with (writeOffset_ b - readOffset_ r) as (src&->&->&Hs); [lia..|].
      cbn [mbind option_bind]. rewrite Hs. cbn [mbind option_bind].
      rewrite s32_small, u64_small, Z.mod_small, Z.sub_diag by lia. done.
    + rewrite Z.min_l by lia.
      destruct (copy_out b (readOffset_ r) n dst Hok)
        with (writeOffset_ b - readOffset_ r) as (src&->&->&Hs); [lia..|].
      cbn [mbind option_bind]. rewrite Hs. cbn [mbind option_bind].
      rewrite s32_small, !u64_small, Z.mod_small by (rewrite ?u64_small; lia).
      do 3 f_equal. lia.
  - set (i := bufferEnd_ b - readOffset_ r).
    rewrite (u64_small i), (s32_small i), (u64_small i), (s32_small n) by lia.
    case_decide.
    + destruct (copy_out b (readOffset_ r) i dst Hok) with i as (src&->&Hsrc&Hs);
        [lia..|]. cbn [mbind option_bind]. rewrite Hs. cbn [mbind option_bind].
      rewrite (s32_small (n - i)), (u64_small (n - i)) by lia.
      pose proof (ring_cells_length (bufferEnd_ b) (readOffset_ r) i (buffer_ b)) as HL.
      rewrite <- Hsrc in HL.
      assert (∀ m, 0 ≤ m → m ≤ writeOffset_ b → i + m ≤ n →
        ring_cells (bufferEnd_ b) (readOffset_ r) (i + m) (buffer_ b) =
        src ++ ring_cells (bufferEnd_ b) 0 m (buffer_ b)) as Happ.
      { intros m ???. rewrite ring_cells_app, <- Hsrc by lia. f_equal.
        rewrite <- (ring_cells_mod (bufferEnd_ b) (readOffset_ r + i)). f_equal.
        replace (readOffset_ r + i) with (0 + 1 * bufferEnd_ b) by lia.
        by rewrite Z.mod_add, Z.mod_0_l by lia. }
      assert (∀ m, 0 ≤ m → m ≤ writeOffset_ b →
        (readOffset_ r + (i + m)) mod bufferEnd_ b = m) as Hmod.
      { intros m ??. replace (readOffset_ r + (i + m)) with (m + 1 * bufferEnd_ b) by lia.
        rewrite Z.mod_add, Z.mod_small; lia. }
      case_decide.
      * rewrite Z.min_r, Happ, Hmod by lia.
        rewrite (ring_cells_slice (bufferEnd_ b)) by lia. cbn [mbind option_bind].
        pose proof (ring_cells_length (bufferEnd_ b) 0 (writeOffset_ b) (buffer_ b)).
        rewrite ar_mem_cpy_fits, splice_after by lia. cbn [mbind option_bind].
        rewrite s32_small by lia. do 3 f_equal. lia.
      * replace (n `min` (i + writeOffset_ b)) with (i + (n - i)) by lia.
        rewrite Happ, Hmod by lia.
        rewrite (ring_cells_slice (bufferEnd_ b)) by lia. cbn [mbind option_bind].
        pose proof (ring_cells_length (bufferEnd_ b) 0 (n - i) (buffer_ b)).
        rewrite ar_mem_cpy_fits, splice_after by lia. cbn [mbind option_bind].
        rewrite s32_small, u64_small by lia. do 3 f_equal. lia.
    + rewrite Z.min_l by lia.
      destruct (copy_out b (readOffset_ r) n dst Hok) with n as (src&->&->&Hs); [lia..|].
      cbn [mbind option_bind]. rewrite Hs. cbn [mbind option_bind].
      rewrite (u64_small (readOffset_ r + n)), Z.mod_small by lia.
      rewrite u64_small by lia. do 3 f_equal. lia.
Qed.

Definition reading (r : PalRingBufferReader) (b : PalRingBuffer)
    (k : Z) : PalRingBufferReader :=
  if decide (unreadSize_ r = 0) then set_state READER_ENABLED r
  else mkReader (pending b r - k) ((readOffset_ r + k) mod bufferEnd_ b)
         READER_ENABLED (requestedSize_ r) (notified_ r).

Lemma reading_ok r b k :
  RingOk b → positioned b r → 0 ≤ k ≤ pending b r →
  reader_ok b (reading r b k) ∧
  unread_data b (reading r b k) =
    ring_cells (bufferEnd_ b) (readOffset_ r + k) (pending b r - k) (buffer_ b).
Proof.
  intros Hok Hpos Hk. pose proof (pending_range b r Hok Hpos) as Hr.
  pose proof (pending_positioned b r Hok Hpos) as Hp.
  pose proof (ok_size _ Hok). unfold reading. case_decide as Hz.
  - assert (pending b r = 0) as Hp0 by (unfold pending; by rewrite decide_True).
    destruct Hpos as (?&?&?). split; [split; [done|simpl; lia]|].
    unfold unread_data; simpl. rewrite Hz, Hp0. by replace k with 0 by lia.
  - split; [split; [split_and!; simpl; [..|lia|lia|]|simpl; lia]|].
    + apply Z.mod_pos_bound. lia.
    + apply Z.mod_pos_bound. lia.
    + rewrite Zplus_mod_idemp_l, <- Hp. f_equal. lia.
    + unfold unread_data; simpl. apply ring_cells_mod.
Qed.

(** C2: an enabled or prepared reader that holds a valid position reads
    exactly the next [min bufferSize pending] bytes of its queue into the
    caller's block, nothing beyond them is written, the reader becomes
    enabled and its queue is what remains, and the invariant is kept: also an
    overrun prepared reader is put back in step. *)
Theorem read_delivers b p r dst n :
  RingOk b → p ∈ readers_ b → store b !! p = Some r →
  state_ r ≠ READER_DISABLED → 0 ≤ n < 2 ^ 31 → n ≤ zlen dst →
  let k := n `min` pending b r in
  let queue := ring_cells (bufferEnd_ b) (readOffset_ r) (pending b r) (buffer_ b) in
  ∃ b' r', read p dst n b =
      Some (k, take (Z.to_nat k) queue ++ drop (Z.to_nat k) dst, b') ∧
    RingOk b' ∧ store b' = <[p := r']> (store b) ∧
    state_ r' = READER_ENABLED ∧ unread_data b' r' = drop (Z.to_nat k) queue.
Proof.
  intros Hok Hp Hr Hs Hn Hdst k queue.
  destruct (ok_lookup _ _ _ Hok Hp Hr) as [Hpos _].
  pose proof (pending_range b r Hok Hpos).
  destruct (reading_ok r b k Hok Hpos) as [Hrok Hdata]; [lia|].
  assert (queue = ring_cells (bufferEnd_ b) (readOffset_ r) k (buffer_ b) ++
    ring_cells (bufferEnd_ b) (readOffset_ r + k) (pending b r - k) (buffer_ b)) as Hq.
  { unfold queue. rewrite <- ring_cells_app by lia. f_equal. lia. }
  pose proof (ring_cells_length (bufferEnd_ b) (readOffset_ r) k (buffer_ b)
    ltac:(lia)) as HL.
  assert (length (ring_cells (bufferEnd_ b) (readOffset_ r) k (buffer_ b))
    = Z.to_nat k) as HLn by (unfold zlen in HL; lia).
  exists (set_reader p (reading r b k) b), (reading r b k).
  rewrite Hq, <- HLn, take_app_length, drop_app_length, HLn.
  split; [|split; [|split_and!; [done| |done]]].
  - unfold read. rewrite Hr. cbn [mbind option_bind]. rewrite decide_False by done.
    assert ((if decide (state_ r = READER_PREPARED) then set_state READER_ENABLED r
      else r) = set_state READER_ENABLED r) as ->.
    { case_decide; [done|]. by destruct r as [?? []]. }
    simpl. unfold reading. case_decide as Hz.
    + assert (k = 0) as -> by (unfold k, pending; rewrite decide_True by done; lia).
      rewrite ring_cells_0. done.
    + rewrite (read_copy_spec b (set_state READER_ENABLED r) dst n) by done.
      change (pending b (set_state READER_ENABLED r)) with (pending b r).
      fold k. cbn [mbind option_bind set_state readOffset_]. by rewrite HLn.
  - destruct Hok as [? ? ? ? Hall]. split; try done. intros q Hq'. simpl.
    destruct (decide (q = p)) as [->|].
    + rewrite lookup_insert_eq. eauto.
    + rewrite lookup_insert_ne by done. apply Hall. done.
  - unfold reading. by case_decide.
Qed.

(** On a disabled reader [read] is refused and changes nothing. *)
Lemma read_disabled b p r dst n :
  store b !! p = Some r → state_ r = READER_DISABLED →
  read p dst n b = Some (- EINVAL, dst, b).
Proof. intros Hr Hs. unfold read. rewrite Hr. simpl. by rewrite decide_True. Qed.
End reader.

(** ** Seeking to a keyword, snapshots, reset *)

Lemma seek_readers_lookup sz e ps : ∀ m,
  0 < e → NoDup ps → (∀ p, p ∈ ps → is_Some (m !! p)) →
  ∃ m', seek_readers sz e ps m = Some m' ∧
    ∀ p, m' !! p = if decide (p ∈ ps) then m !! p ≫= seek_reader sz e else m !! p.
Proof.
  induction ps as [|q ps IH]; intros m He Hnd Hm; cbn [seek_readers].
  { exists m. split; [done|]. intros p. case_decide; set_solver. }
  apply NoDup_cons in Hnd as [Hq Hnd].
  destruct (Hm q) as [r Hr]; [set_solver|].
  assert (∃ r', seek_reader sz e r = Some r') as [r' Hr'].
  { unfold seek_reader. rewrite !umod_pos by done. by eexists. }
  rewrite Hr. cbn [mbind option_bind]. rewrite Hr'. cbn [mbind option_bind].
  destruct (IH (<[q := r']> m) He Hnd) as (m'&->&Hl).
  { intros p Hp. rewrite lookup_insert_ne by set_solver. apply Hm. set_solver. }
  exists m'. split; [done|]. intros p. rewrite Hl. destruct (decide (p = q)) as [->|Hne].
  - rewrite lookup_insert_eq. repeat case_decide; try done; [|set_solver].
    rewrite Hr. simpl. by rewrite Hr'.
  - rewrite lookup_insert_ne by done. repeat case_decide; try done; set_solver.
Qed.

(** The bytes before the pre-roll of a keyword that starts at [start]. *)
Definition seek_size (start preRoll : Z) : Z :=
  if decide (preRoll ≤ start) then start - preRoll else 0.

(** A reader at the start of the block, still holding the keyword's pre-roll. *)
Definition at_start (sz : Z) (b : PalRingBuffer) (p : positive) : Prop :=
  p ∈ readers_ b ∧
  ∃ r, store b !! p = Some r ∧ readOffset_ r = 0 ∧ sz < unreadSize_ r.

Lemma seek_reader_ok b r sz :
  RingOk b → reader_ok b r → readOffset_ r = 0 → 0 ≤ sz < unreadSize_ r →
  ∃ r', seek_reader sz (bufferEnd_ b) r = Some r' ∧ state_ r' = state_ r ∧
    reader_ok b r' ∧ unreadSize_ r' = (unreadSize_ r - sz) mod bufferEnd_ b ∧
    (unreadSize_ r - sz < bufferEnd_ b →
     unreadSize_ r ≤ bufferEnd_ b →
     unread_data b r' = drop (Z.to_nat sz) (unread_data b r)).
Proof.
  intros Hok [(?&?&Hm) _] Hoff Hsz. pose proof (ok_size _ Hok). unfold seek_reader.
  rewrite !umod_pos, decide_True, u64_small by lia. cbn [mbind option_bind].
  pose proof (Z.mod_pos_bound sz (bufferEnd_ b) ltac:(lia)).
  pose proof (Z.mod_pos_bound (unreadSize_ r - sz) (bufferEnd_ b) ltac:(lia)).
  eexists. split; [done|]. split; [done|].
  split; [split; [split_and!; simpl; try lia|simpl; lia]|split; [done|]].
  - rewrite <- Zplus_mod, <- Hm, Hoff. f_equal. lia.
  - intros Hlt Hle. unfold unread_data. simpl.
    rewrite (Z.mod_small (unreadSize_ r - sz)), ring_cells_mod, Hoff by lia.
    replace (unreadSize_ r) with (sz + (unreadSize_ r - sz)) at 2 by lia.
    rewrite ring_cells_app, Z.add_0_l by lia.
    rewrite drop_app_length'; [done|].
    pose proof (ring_cells_length (bufferEnd_ b) 0 sz (buffer_ b)).
    unfold zlen in *. lia.
Qed.

(** C33: on a detection [updateKwdConfig], with indices that fit their type and readers
    that stand at the start of the block and still hold the pre-roll ([at_start]), moves
    every reader of the stream to the start of the pre-roll, records the keyword's indices
    relative to that point, and keeps the invariant.  A reader whose remaining bytes do
    not fill the whole block loses and invents no byte; one whose remaining bytes do loses
    all of them ([updateKwdConfig_full_reader_lost]). *)
Theorem updateKwdConfig_seeks b s ps start end_ preRoll :
  RingOk b → NoDup ps → 0 ≤ preRoll → 0 ≤ start < 2 ^ 32 → start ≤ end_ < 2 ^ 32 →
  let sz := seek_size start preRoll in
  (∀ p, p ∈ ps → at_start sz b p) →
  ∃ b', updateKwdConfig s ps start end_ preRoll b = Some b' ∧ RingOk b' ∧
    fst (getIndices s b') = (start - sz, end_ - sz, end_) ∧
    ∀ p r, p ∈ ps → store b !! p = Some r → ∃ r', store b' !! p = Some r' ∧
      state_ r' = state_ r ∧
      (unreadSize_ r ≤ bufferEnd_ b → unreadSize_ r - sz < bufferEnd_ b →
       unread_data b' r' = drop (Z.to_nat sz) (unread_data b r)).
Proof.
  intros Hok Hnd Hpre Hst Hen sz Hat. pose proof (ok_size _ Hok).
  assert (0 ≤ sz ≤ start) by (unfold sz, seek_size; case_decide; lia).
  unfold updateKwdConfig.
  assert ((if decide (preRoll ≤ start) then u32 (start - preRoll) else 0) = sz) as ->.
  { unfold sz, seek_size. case_decide; [|done]. rewrite u32_small; lia. }
  destruct (seek_readers_lookup sz (bufferEnd_ b) ps (store b)) as (m&Hm&Hl);
    [lia|done|intros p Hp; destruct (Hat p Hp) as (?&?&?&?); by eexists|].
  rewrite Hm. cbn [mbind option_bind]. rewrite !u32_small by lia.
  assert (∀ p, p ∈ readers_ b → ∃ r r', store b !! p = Some r ∧ m !! p = Some r' ∧
    reader_ok b r' ∧ (p ∈ ps → seek_reader sz (bufferEnd_ b) r = Some r')) as Hall.
  { intros p Hp. destruct (ok_readers _ Hok p Hp) as (r&Hr&Hrok). rewrite Hl.
    case_decide as Hps; [|by exists r, r].
    destruct (Hat p Hps) as (_&r2&Hr2&Hoff&?). simplify_eq.
    destruct (seek_reader_ok b r sz Hok Hrok Hoff) as (r'&Hr'&_&?&_); [lia|].
    exists r, r'. rewrite Hr. simpl. rewrite Hr'. done. }
  eexists. split; [done|]. split; [|split].
  - destruct Hok as [? ? ? ? _]. split; try done. simpl. intros p Hp.
    destruct (Hall p Hp) as (?&r'&_&?&?&_). by exists r'.
  - unfold getIndices; simpl. by rewrite lookup_insert_eq.
  - intros p r Hp Hr. destruct (Hat p Hp) as (Hpr&r2&Hr2&Hoff&?). simplify_eq.
    destruct (seek_reader_ok b r sz Hok) as (r'&Hr'&?&_&_&Hd);
      [by eapply ok_lookup|done|lia|].
    exists r'. simpl. rewrite Hl, decide_True, Hr by done. simpl. rewrite Hr'.
    split_and!; [done|done|]. intros. by apply Hd.
Qed.

(** the corner [updateKwdConfig] gets wrong: a reader whose unread bytes
    fill the whole block when the keyword sits at the start (nothing to skip)
    is left with no unread byte at all, so the buffered audio is lost. *)
Theorem updateKwdConfig_full_reader_lost b s p r start end_ preRoll :
  RingOk b → store b !! p = Some r → 0 ≤ start ≤ preRoll →
  unreadSize_ r = bufferEnd_ b →
  ∃ b' r', updateKwdConfig s [p] start end_ preRoll b = Some b' ∧
    store b' !! p = Some r' ∧ unread_data b' r' = [] ∧
    zlen (unread_data b r) = bufferEnd_ b.
Proof.
  intros Hok Hr Hst Hfull. pose proof (ok_size _ Hok). unfold updateKwdConfig.
  assert ((if decide (preRoll ≤ start) then u32 (start - preRoll) else 0) = 0) as ->.
  { case_decide; [|done]. rewrite u32_small; lia. }
  cbn [seek_readers]. rewrite Hr. unfold seek_reader. cbn [mbind option_bind].
  rewrite !umod_pos, decide_True, Hfull, (Z.sub_0_r (bufferEnd_ b)) by lia.
  rewrite u64_small, (Z_mod_same_full (bufferEnd_ b)) by lia.
  cbn [mbind option_bind]. eexists _, _. split; [done|]. simpl.
  rewrite lookup_insert_eq. split; [done|]. split; [done|].
  unfold unread_data. rewrite Hfull. apply ring_cells_length. lia.
Qed.

(** ** Reset and resize *)

Lemma reset_store_lookup ps (m : gmap positive PalRingBufferReader) p :
  NoDup ps →
  foldr (λ p m, alter PalRingBufferReader_reset p m) m ps !! p =
    if decide (p ∈ ps) then PalRingBufferReader_reset <$> m !! p else m !! p.
Proof.
  induction ps as [|q ps IH]; intros Hnd; cbn [foldr].
  { case_decide; set_solver. }
  apply NoDup_cons in Hnd as [Hq Hnd]. destruct (decide (p = q)) as [->|Hne].
  - rewrite lookup_alter_eq, IH, decide_False, decide_True by set_solver. done.
  - rewrite lookup_alter_ne, IH by done. repeat case_decide; try done; set_solver.
Qed.

(** [resizeRingBuffer] and [reset], in either order, bring any buffer whose
    registered readers exist back to the invariant, with the new capacity, no
    keyword entry and every reader disabled and empty. *)
Theorem reset_reestablishes b n junk :
  0 < n < 2 ^ 31 → zlen junk = n → NoDup (readers_ b) →
  (∀ p, p ∈ readers_ b → is_Some (store b !! p)) →
  let b1 := reset (resizeRingBuffer n junk b) in
  b1 = resizeRingBuffer n junk (reset b) ∧ RingOk b1 ∧ kwCfg_ b1 = ∅ ∧
  ∀ p, p ∈ readers_ b → ∃ r, store b1 !! p = Some r ∧
    state_ r = READER_DISABLED ∧ unread_data b1 r = [].
Proof.
  intros Hn Hj Hnd Hs b1. split; [done|].
  assert (∀ p, p ∈ readers_ b → ∃ r, store b !! p = Some r ∧
    store b1 !! p = Some (PalRingBufferReader_reset r)) as Hl.
  { intros p Hp. destruct (Hs p Hp) as [r Hr]. exists r. split; [done|].
    unfold b1, reset; simpl. by rewrite reset_store_lookup, decide_True, Hr. }
  split; [|split; [done|]].
  - split; simpl; [done|done|lia|done|].
    intros p Hp. destruct (Hl p Hp) as (r&_&Hr). eexists. split; [done|].
    split; [|done]. split; [simpl; lia|split; [simpl; lia|]].
    simpl. rewrite Z.mod_small; lia.
  - intros p Hp. destruct (Hl p Hp) as (r&_&Hr). by eexists.
Qed.

(** ** The keyword snapshot *)

(** [getKwData] copies the [size] bytes at the reader's position, wrapped
    at the end of the block, to the front of the caller's block and consumes
    nothing. *)
Theorem getKwData_copies `{!Osal, !OsalSpec ar_mem_cpy} b p r data size :
  RingOk b → p ∈ readers_ b → store b !! p = Some r →
  0 ≤ size ≤ bufferEnd_ b → size ≤ zlen data →
  getKwData p data size b =
    Some (size, ring_cells (bufferEnd_ b) (readOffset_ r) size (buffer_ b) ++
                drop (Z.to_nat size) data).
Proof.
  intros Hok Hp Hr Hsz Hd. pose proof Hok as [? Hb _ _ _].
  destruct (ok_lookup _ _ _ Hok Hp Hr) as [(?&_) _].
  unfold getKwData. rewrite Hr. cbn [mbind option_bind].
  pose proof (ring_cells_length (bufferEnd_ b) (readOffset_ r) size (buffer_ b)) as HL.
  rewrite (u64_small (readOffset_ r + size)), s32_small by lia. case_decide.
  - set (i := bufferEnd_ b - readOffset_ r).
    rewrite (u64_small i), (u64_small (size - i)) by lia.
    destruct (copy_out b (readOffset_ r) i data Hok) with i as (src&->&Hsrc&Hs);
      [lia..|]. cbn [mbind option_bind]. rewrite Hs. cbn [mbind option_bind].
    pose proof (ring_cells_length (bufferEnd_ b) (readOffset_ r) i (buffer_ b)) as Hi.
    rewrite <- Hsrc in Hi.
    rewrite (ring_cells_slice (bufferEnd_ b)) by lia. cbn [mbind option_bind].
    pose proof (ring_cells_length (bufferEnd_ b) 0 (size - i) (buffer_ b)).
    rewrite ar_mem_cpy_fits, splice_after by lia. cbn [mbind option_bind].
    assert (ring_cells (bufferEnd_ b) (readOffset_ r) size (buffer_ b) =
      src ++ ring_cells (bufferEnd_ b) 0 (size - i) (buffer_ b)) as ->.
    { replace size with (i + (size - i)) at 1 by lia.
      rewrite ring_cells_app, <- Hsrc by lia. f_equal.
      rewrite <- (ring_cells_mod (bufferEnd_ b) (readOffset_ r + i)). f_equal.
      replace (readOffset_ r + i) with (0 + 1 * bufferEnd_ b) by lia.
      by rewrite Z.mod_add, Z.mod_0_l by lia. }
    do 3 f_equal. rewrite length_app. unfold zlen in *. f_equal. lia.
  - destruct (copy_out b (readOffset_ r) size data Hok) with size as (src&->&->&Hs);
      [lia..|]. cbn [mbind option_bind]. rewrite Hs. cbn [mbind option_bind].
    do 3 f_equal. unfold zlen in *. f_equal. lia.
Qed.

(** ** A reader that fell behind *)

(** a reader that is enabled after it fell behind by more than a block
    puts no back-pressure on the writer: its room underflows to a huge number,
    [getFreeSize] ignores it, and the writer goes on overwriting its unread
    bytes. *)
Theorem enable_overrun b p r :
  RingOk b → store b !! p = Some r →
  bufferEnd_ b < unreadSize_ r < 2 ^ 64 → readers_ b = [p] →
  ∃ b', updateState p READER_ENABLED b = Some b' ∧
    getFreeSize b' = Some (bufferEnd_ b).
Proof.
  intros Hok Hr Hu Hps. pose proof (ok_size _ Hok). unfold updateState. rewrite Hr.
  eexists. split; [done|]. unfold getFreeSize. simpl. rewrite Hps. simpl.
  rewrite lookup_insert_eq. simpl. unfold getFreeSize_step. simpl. f_equal. apply Z.min_l.
  unfold u64. rewrite <- (Z_mod_plus_full _ 1), Z.mod_small by lia. lia.
Qed.

(** ** Closed examples

    A block of eight bytes with one enabled reader, at address 1, that has read
    two of seven bytes, and the same block with its reader prepared and
    full. *)

Module ring_examples.
Import BoundedCopy.

Definition ring8 (r : PalRingBufferReader) (w : Z) : PalRingBuffer :=
  mkRing [10; 11; 12; 13; 14; 15; 16; 17] ∅ w 8 [1%positive] {[ 1%positive := r ]}.
Definition reader (unread off : Z) (s : pal_ring_buffer_reader_state) :=
  mkReader unread off s 0 0.

Definition half : PalRingBuffer := ring8 (reader 5 2 READER_ENABLED) 7.
Definition full : PalRingBuffer := ring8 (reader 8 0 READER_PREPARED) 0.

Lemma ring8_ok r w :
  0 ≤ w < 8 → reader_ok (ring8 r w) r → RingOk (ring8 r w).
Proof.
  intros Hw Hr. split; simpl; [lia|done|lia|apply NoDup_singleton|].
  intros p ->%list_elem_of_singleton. exists r. by rewrite lookup_singleton_eq.
Qed.

Lemma half_ok : RingOk half.
Proof. apply ring8_ok; [lia|]. split; [|simpl; lia]. split_and!; simpl; done || lia. Qed.

Lemma full_ok : RingOk full.
Proof. apply ring8_ok; [lia|]. split; [|simpl; done]. split_and!; simpl; done || lia. Qed.
End ring_examples.
Import BoundedCopy ring_examples.

Theorem write_appends_witness :
  ∃ b', write [1; 2; 3; 4; 5] 5 half = Some (3, b') ∧
    ∃ r', store b' !! 1%positive = Some r' ∧
      unread_data b' r' = [12; 13; 14; 15; 16; 1; 2; 3].
Proof.
  destruct (write_appends half [1; 2; 3; 4; 5] 5 half_ok) as (f&b'&Hf&Hw&_&_&Hr).
  - intros p r Hp%list_elem_of_singleton. subst. simpl. rewrite lookup_singleton_eq.
    intros [= <-]. simpl. lia.
  - done.
  - assert (getFreeSize half = Some 3) as Hf' by (vm_compute; reflexivity).
    rewrite Hf in Hf'. injection Hf' as ->. exists b'. split; [exact Hw|].
    destruct (Hr 1%positive (reader 5 2 READER_ENABLED)) as (r'&Hr'&_&_&Hd);
      [by apply list_elem_of_singleton|by vm_compute|done|].
    exists r'. split; [exact Hr'|]. rewrite Hd. vm_compute. reflexivity.
Defined.

Theorem read_delivers_witness :
  ∃ b' r', read 1 [0; 0; 0; 0] 3 half = Some (3, [12; 13; 14; 0], b') ∧
    store b' = <[1%positive := r']> (store half) ∧
    unread_data b' r' = [15; 16].
Proof.
  destruct (read_delivers half 1 (reader 5 2 READER_ENABLED) [0; 0; 0; 0] 3 half_ok)
    as (b'&r'&H&_&Hs&_&Hd);
    [by apply list_elem_of_singleton|by vm_compute|done|lia|vm_compute; congruence|].
  exists b', r'. split; [exact H|]. split; [exact Hs|]. rewrite Hd. vm_compute. reflexivity.
Defined.

Theorem updateKwdConfig_seeks_witness :
  ∃ b' r', updateKwdConfig 1 [1%positive] 4 6 1 full = Some b' ∧
    store b' !! 1%positive = Some r' ∧ unread_data b' r' = [13; 14; 15; 16; 17].
Proof.
  destruct (updateKwdConfig_seeks full 1 [1%positive] 4 6 1 full_ok)
    as (b'&H&_&_&Hr); [apply NoDup_singleton|lia|lia|lia| |].
  { intros p ->%list_elem_of_singleton. split; [by apply list_elem_of_singleton|].
    exists (reader 8 0 READER_PREPARED). split_and!; [by vm_compute|done|by vm_compute]. }
  destruct (Hr 1%positive (reader 8 0 READER_PREPARED)) as (r'&Hr'&_&Hd);
    [by apply list_elem_of_singleton|by vm_compute|].
  exists b', r'. split; [exact H|]. split; [exact Hr'|].
  rewrite Hd; [vm_compute; reflexivity|simpl; lia|vm_compute; reflexivity].
Defined.

Theorem updateKwdConfig_full_reader_lost_witness :
  ∃ b' r', updateKwdConfig 1 [1%positive] 4 6 5 full = Some b' ∧
    store b' !! 1%positive = Some r' ∧ unread_data b' r' = [].
Proof.
  destruct (updateKwdConfig_full_reader_lost full 1 1 (reader 8 0 READER_PREPARED) 4 6 5
    full_ok) as (b'&r'&H&Hr&Hd&_); [by vm_compute|lia|done|].
  exists b', r'. split; [exact H|]. split; [exact Hr|exact Hd].
Defined.

Theorem reset_reestablishes_witness :
  RingOk (reset (resizeRingBuffer 2 [7; 7] half)).
Proof.
  apply (reset_reestablishes half 2 [7; 7]); [lia|done|apply NoDup_singleton|].
  intros p ->%list_elem_of_singleton. vm_compute. by eexists.
Defined.

Theorem getKwData_copies_witness :
  getKwData 1 [0; 0; 0; 0; 0; 0; 0; 0] 7 half =
    Some (7, [12; 13; 14; 15; 16; 17; 10; 0]).
Proof.
  apply (getKwData_copies half 1 (reader 5 2 READER_ENABLED) [0; 0; 0; 0; 0; 0; 0; 0] 7
    half_ok); [by apply list_elem_of_singleton|by vm_compute| |vm_compute; congruence].
  change (bufferEnd_ half) with 8. lia.
Defined.

Theorem enable_overrun_witness :
  ∃ b', updateState 1 READER_ENABLED (ring8 (reader 13 2 READER_DISABLED) 7) = Some b' ∧
    getFreeSize b' = Some 8.
Proof.
  apply (enable_overrun (ring8 (reader 13 2 READER_DISABLED) 7) 1
    (reader 13 2 READER_DISABLED));
    [|by vm_compute|simpl; lia|done].
  apply ring8_ok; [lia|]. split; [|done]. split_and!; simpl; done || lia.
Defined.
