(* ===== verification/Instances.v ===== *)
(** * Stream instance ids and front-end ids (resource_manager/src/ResourceManager.cpp)

    [getStreamInstanceID], [resetStreamInstanceID] with their helpers, and the
    pool of front-end ids.  Each runs under one mutex, so it is one function of
    the state.  The instance masks are 64-bit words, written with the
    conversions the code performs: [1 << i] is an [int].  [None] stands for
    undefined behaviour: an index outside a vector, a shift by 32 or more. *)

From S2P Require Import Prelude PalDefs.

(** ** Instance ids *)

(** The part of a [Stream] the functions read and write. *)
Record StreamIds := mkStreamIds {
  mStreamAttr : option pal_stream_attributes;
  mInstanceID : Z;
  mStreamSelector : string;
}.

Record InstanceState := mkInstances {
  stream_instances : list Z;
  in_stream_instances : list Z;
  STInstancesLists : list (string * list (Z * bool));
  mNTStreamInstancesList : list (gmap Z bool);
}.

Definition setInstanceId (sid : Z) (str : StreamIds) : StreamIds :=
  mkStreamIds (mStreamAttr str) (u32 sid) (mStreamSelector str).

Definition set_stream_instances (l : list Z) (rm : InstanceState) : InstanceState :=
  mkInstances l (in_stream_instances rm) (STInstancesLists rm)
    (mNTStreamInstancesList rm).
Definition set_in_stream_instances (l : list Z) (rm : InstanceState) : InstanceState :=
  mkInstances (stream_instances rm) l (STInstancesLists rm)
    (mNTStreamInstancesList rm).
Definition set_STInstancesLists (l : list (string * list (Z * bool)))
    (rm : InstanceState) : InstanceState :=
  mkInstances (stream_instances rm) (in_stream_instances rm) l
    (mNTStreamInstancesList rm).
Definition set_mNTStreamInstancesList (l : list (gmap Z bool))
    (rm : InstanceState) : InstanceState :=
  mkInstances (stream_instances rm) (in_stream_instances rm)
    (STInstancesLists rm) l.

Definition MAX_STREAM_INSTANCES : nat := 64.

(** An element of either array. *)
Definition word_at (l : list Z) (i : Z) : option Z :=
  if decide (0 ≤ i) then l !! Z.to_nat i else None.

(** The constructor: both arrays zeroed, empty non-tunnel maps. *)
Definition instances_init : InstanceState :=
  mkInstances (replicate (Z.to_nat PAL_STREAM_MAX) 0)
    (replicate (Z.to_nat PAL_STREAM_MAX) 0) [] [∅; ∅].

(** [1 << i] on [int]. *)
Definition int_bit (i : Z) : option Z :=
  if decide (0 ≤ i < 32) then Some (s32 (2 ^ i)) else None.

(** [word & (1 << i)] is non-zero; [int] operands are converted to
    [uint64_t]. *)
Definition word_test (w i : Z) : option bool :=
  b ← int_bit i; Some (negb (bool_decide (Z.land w (u64 b) = 0))).

(** [word |= (1 << i)]. *)
Definition word_set (w i : Z) : option Z :=
  b ← int_bit i; Some (Z.lor w (u64 b)).

(** [word &= ~(1 << i)]. *)
Definition word_clear (w i : Z) : option Z :=
  b ← int_bit i; Some (Z.land w (u64 (Z.lnot b))).

(** The [for (i = 0; i < MAX_STREAM_INSTANCES; ++i)] loop that claims the first
    clear bit: the new word and the status, [status] when no bit is clear. *)
Fixpoint claim_loop (n : nat) (i status w : Z) : option (Z * Z) :=
  match n with
  | O => Some (w, status)
  | S n =>
      t ← word_test w i;
      if t : bool then claim_loop n (i + 1) status w
      else w' ← word_set w i; Some (w', i + 1)
  end.

(** The [default] branch for one word of either array when the stream has no
    instance id yet. *)
Definition claim_word (w : Z) : option (Z * Z) :=
  if decide (w = u64 (-1)) then Some (w, - EINVAL)
  else claim_loop MAX_STREAM_INSTANCES 0 0 w.

(** The branch that marks the id an input stream already has. *)
Definition remark_word (w status : Z) : option Z :=
  t ← word_test w (status - 1);
  if t : bool then Some w else word_set w (status - 1).

Definition getNTPathForStreamAttr (attr : pal_stream_attributes) : nat :=
  let streamInputFormat := aud_fmt_id (out_media_config attr) in
  if decide (streamInputFormat = PAL_AUDIO_FMT_PCM_S16_LE
             ∨ streamInputFormat = PAL_AUDIO_FMT_PCM_S8
             ∨ streamInputFormat = PAL_AUDIO_FMT_PCM_S24_3LE
             ∨ streamInputFormat = PAL_AUDIO_FMT_PCM_S24_LE
             ∨ streamInputFormat = PAL_AUDIO_FMT_PCM_S32_LE)
  then 0%nat else 1%nat.

(** [INSTANCE_1] comes from a generated header that is not in the repository;
    [max_session_num] and [max_nt_sessions] are read from the configuration. *)
Class InstanceConfig := mkInstanceConfig {
  INSTANCE_1 : Z;
  max_session_num : nat;
  max_nt_sessions : Z;
}.

Section instances.
Context `{!InstanceConfig}.

(** The loop over [inst = INSTANCE_1 .. max_nt_sessions]. *)
Fixpoint nt_loop (n : nat) (inst : Z) (m : gmap Z bool) : Z * gmap Z bool :=
  match n with
  | O => (- EINVAL, m)
  | S n =>
      match m !! inst with
      | Some true => nt_loop n (inst + 1) m
      | _ => (inst, <[inst := true]> m)
      end
  end.

Definition getAvailableNTStreamInstance (attr : pal_stream_attributes)
    (rm : InstanceState) : option (Z * InstanceState) :=
  let pathIdx := getNTPathForStreamAttr attr in
  m ← mNTStreamInstancesList rm !! pathIdx;
  let '(status, m) :=
    nt_loop (Z.to_nat (max_nt_sessions - INSTANCE_1 + 1)) INSTANCE_1 m in
  Some (status, set_mNTStreamInstancesList
                  (<[pathIdx := m]> (mNTStreamInstancesList rm)) rm).

(** Claims the first free node of a list: [second[i]] for [i < n]. *)
Fixpoint st_claim (n i : nat) (status : Z) (l : list (Z * bool))
    : option (Z * list (Z * bool)) :=
  match n with
  | O => Some (status, l)
  | S n =>
      '(id, taken) ← l !! i;
      if taken : bool then st_claim n (S i) status l
      else Some (id, <[i := (id, true)]> l)
  end.

(** Clears the node of [sInstanceID]. *)
Fixpoint st_release (n i : nat) (sInstanceID : Z) (l : list (Z * bool))
    : option (list (Z * bool)) :=
  match n with
  | O => Some l
  | S n =>
      '(id, taken) ← l !! i;
      if decide (u32 id = sInstanceID) then Some (<[i := (id, false)]> l)
      else st_release n (S i) sInstanceID l
  end.

(** The index of the list of [streamSelector]. *)
Fixpoint st_find (streamSelector : string) (ls : list (string * list (Z * bool)))
    : option nat :=
  match ls with
  | [] => None
  | (s, _) :: ls =>
      if decide (s = streamSelector) then Some O
      else S <$> st_find streamSelector ls
  end.

Definition st_fresh_list : list (Z * bool) :=
  (λ i : nat, (Z.of_nat i, false)) <$> seq 1 max_session_num.

Definition getStreamInstanceID (str : StreamIds) (rm : InstanceState)
    : option (Z * StreamIds * InstanceState) :=
  match mStreamAttr str with
  | None => Some (- EINVAL, str, rm)
  | Some StrAttr =>
    if decide (PAL_STREAM_MAX ≤ type StrAttr) then Some (- EINVAL, str, rm)
    else if decide (type StrAttr = PAL_STREAM_VOICE_UI) then
      if decide (mStreamSelector str = "") then Some (0, str, rm)
      else
        let '(x, ls) :=
          match st_find (mStreamSelector str) (STInstancesLists rm) with
          | Some x => (x, STInstancesLists rm)
          | None => (length (STInstancesLists rm),
                     STInstancesLists rm ++ [(mStreamSelector str, st_fresh_list)])
          end in
        '(sel, l) ← ls !! x;
        '(status, l) ← st_claim max_session_num 0 0 l;
        Some (status, str, set_STInstancesLists (<[x := (sel, l)]> ls) rm)
    else if decide (type StrAttr = PAL_STREAM_NON_TUNNEL) then
      if decide (s32 (mInstanceID str) = 0) then
        '(status, rm) ← getAvailableNTStreamInstance StrAttr rm;
        if decide (status < 0) then Some (status, str, rm)
        else Some (status, setInstanceId status str, rm)
      else Some (0, str, rm)
    else
      let status := s32 (mInstanceID str) in
      let idx := Z.to_nat (type StrAttr - 1) in
      if decide (direction StrAttr = PAL_AUDIO_INPUT ∧ status = 0) then
        w ← word_at (in_stream_instances rm) (type StrAttr - 1);
        '(w', status) ← claim_word w;
        if decide (status < 0) then Some (status, str, rm)
        else Some (status, setInstanceId status str,
                   set_in_stream_instances (<[idx := w']> (in_stream_instances rm)) rm)
      else if decide (direction StrAttr = PAL_AUDIO_INPUT ∧ status ≠ 0) then
        w ← word_at (in_stream_instances rm) (type StrAttr - 1);
        w' ← remark_word w status;
        Some (status, str,
              set_in_stream_instances (<[idx := w']> (in_stream_instances rm)) rm)
      else if decide (status = 0) then
        w ← word_at (stream_instances rm) (type StrAttr - 1);
        '(w', status) ← claim_word w;
        if decide (status < 0) then Some (status, str, rm)
        else Some (status, setInstanceId status str,
                   set_stream_instances (<[idx := w']> (stream_instances rm)) rm)
      else Some (status, str, rm)
  end.

(** [resetStreamInstanceID(str, sInstanceID)]. *)
Definition resetStreamInstanceID (str : StreamIds) (sInstanceID : Z)
    (rm : InstanceState) : option (Z * StreamIds * InstanceState) :=
  if decide (sInstanceID < INSTANCE_1) then Some (- EINVAL, str, rm)
  else match mStreamAttr str with
  | None => Some (- EINVAL, str, rm)
  | Some StrAttr =>
    if decide (PAL_STREAM_MAX ≤ type StrAttr) then Some (- EINVAL, str, rm)
    else if decide (type StrAttr = PAL_STREAM_VOICE_UI) then
      if decide (mStreamSelector str = "") then Some (0, str, rm)
      else match st_find (mStreamSelector str) (STInstancesLists rm) with
        | None => Some (0, str, rm)
        | Some x =>
            '(sel, l) ← STInstancesLists rm !! x;
            l ← st_release max_session_num 0 sInstanceID l;
            Some (0, str,
                  set_STInstancesLists (<[x := (sel, l)]> (STInstancesLists rm)) rm)
        end
    else if decide (type StrAttr = PAL_STREAM_NON_TUNNEL) then
      let pathIdx := getNTPathForStreamAttr StrAttr in
      m ← mNTStreamInstancesList rm !! pathIdx;
      let m' := if decide (is_Some (m !! mInstanceID str))
                then <[mInstanceID str := false]> m else m in
      Some (0, setInstanceId 0 str,
            set_mNTStreamInstancesList
              (<[pathIdx := m']> (mNTStreamInstancesList rm)) rm)
    else
      let idx := Z.to_nat (type StrAttr - 1) in
      if decide (direction StrAttr = PAL_AUDIO_INPUT) then
        w ← word_at (in_stream_instances rm) (type StrAttr - 1);
        w' ← word_clear w (sInstanceID - 1);
        Some (0, setInstanceId 0 str,
              set_in_stream_instances (<[idx := w']> (in_stream_instances rm)) rm)
      else
        w ← word_at (stream_instances rm) (type StrAttr - 1);
        w' ← word_clear w (sInstanceID - 1);
        Some (0, setInstanceId 0 str,
              set_stream_instances (<[idx := w']> (stream_instances rm)) rm)
  end.

(** [resetStreamInstanceID(s)] with the stream's own id. *)
Definition resetStreamInstanceID_own (str : StreamIds) (rm : InstanceState)
    : option (Z * StreamIds * InstanceState) :=
  resetStreamInstanceID str (mInstanceID str) rm.
End instances.

(** ** Front-end ids

    [frontEndIdMap] maps a key to the vector of free ids. *)

(** [std::unique] followed by [erase]: drops repeated neighbours. *)
Fixpoint unique (l : list Z) : list Z :=
  match l with
  | [] => []
  | x :: l =>
      match unique l with
      | [] => [x]
      | y :: l' => if decide (x = y) then y :: l' else x :: y :: l'
      end
  end.

Definition removeDuplicates (vec : list Z) : list Z := unique (merge_sort Z.le vec).

Definition allocateFrontEndIds (key : string) (m : gmap string (list Z))
    : Z * gmap string (list Z) :=
  match m !! key with
  | Some ids =>
      match last ids with
      | None => (-1, m)
      | Some id => (id, <[key := removelast ids]> m)
      end
  | None => (-1, m)
  end.

Definition freeFrontEndIds (key : string) (frontend : list Z)
    (m : gmap string (list Z)) : gmap string (list Z) :=
  if decide (frontend = []) then m
  else match m !! key with
  | Some ids => <[key := removeDuplicates (ids ++ frontend)]> m
  | None => m
  end.
