(* ===== verification/InstancesFacts.v ===== *)
(** * Instance ids behave as sets of at most 32 ids

    The masks are related to the set of ids they hold ([taken]); allocation,
    release and their interleavings are stated on those sets. *)

From S2P Require Import Prelude PalDefs Instances.

(** ** Masks

    [1 << 31] sets the bits 31 to 63 at once, so a mask holds 32 ids: its upper
    half repeats bit 31. *)

Definition mask_ok (w : Z) : Prop :=
  0 ≤ w < 2 ^ 64 ∧ ∀ j, 32 ≤ j < 64 → Z.testbit w j = Z.testbit w 31.

Definition mask_bit (i j : Z) : bool := (j =? i) || ((i =? 31) && (31 <=? j)).

Lemma bits_table :
  forallb (λ i, forallb (λ j,
    Bool.eqb (Z.testbit (u64 (s32 (2 ^ i))) j) (mask_bit i j) &&
    Bool.eqb (Z.testbit (u64 (Z.lnot (s32 (2 ^ i)))) j) (negb (mask_bit i j)))
      (seqZ 0 64)) (seqZ 0 32) = true.
Proof. vm_compute. reflexivity. Qed.

Lemma mask_bits i j :
  0 ≤ i < 32 → 0 ≤ j < 64 →
  Z.testbit (u64 (s32 (2 ^ i))) j = mask_bit i j ∧
  Z.testbit (u64 (Z.lnot (s32 (2 ^ i)))) j = negb (mask_bit i j).
Proof.
  intros Hi Hj. pose proof bits_table as H. rewrite forallb_forall in H.
  specialize (H i). rewrite forallb_forall in H.
  assert (∀ k n, 0 ≤ k < n → In k (seqZ 0 n)) as Hin.
  { intros k n ?. apply list_elem_of_In, elem_of_seqZ. lia. }
  specialize (H (Hin i 32 Hi) j (Hin j 64 Hj)).
  apply andb_prop in H as [H1 H2]. by apply Bool.eqb_prop in H1, H2.
Qed.

Lemma testbit_high w j : 0 ≤ w < 2 ^ 64 → 64 ≤ j → Z.testbit w j = false.
Proof.
  intros Hw Hj. destruct (decide (w = 0)) as [->|]; [apply Z.bits_0|].
  apply Z.bits_above_log2; [lia|]. assert (Z.log2 w < 64) by (apply Z.log2_lt_pow2; lia).
  lia.
Qed.

(** A 64-bit word is determined by its bits. *)
Lemma word_ext w w' :
  0 ≤ w < 2 ^ 64 → 0 ≤ w' < 2 ^ 64 →
  (∀ j, 0 ≤ j < 64 → Z.testbit w j = Z.testbit w' j) → w = w'.
Proof.
  intros ?? Hb. apply Z.bits_inj'. intros j ?. destruct (decide (j < 64)); [by apply Hb; lia|].
  by rewrite !testbit_high by lia.
Qed.

Lemma mask_ext w w' :
  mask_ok w → mask_ok w' →
  (∀ j, 0 ≤ j < 32 → Z.testbit w j = Z.testbit w' j) → w = w'.
Proof.
  intros [? Hw] [? Hw'] Hb. apply word_ext; [done|done|]. intros j ?.
  destruct (decide (j < 32)); [by apply Hb; lia|].
  rewrite Hw, Hw' by lia. apply Hb. lia.
Qed.

Lemma land_range x y : 0 ≤ x < 2 ^ 64 → 0 ≤ y < 2 ^ 64 → 0 ≤ Z.land x y < 2 ^ 64.
Proof.
  intros. assert (0 ≤ Z.land x y) by (apply Z.land_nonneg; lia). split; [done|].
  assert (Z.land x y = Z.land x y mod 2 ^ 64) as ->; [|apply Z.mod_pos_bound; lia].
  apply Z.bits_inj'. intros j ?. destruct (decide (j < 64)).
  - by rewrite Z.mod_pow2_bits_low by lia.
  - rewrite Z.mod_pow2_bits_high, Z.land_spec, testbit_high by lia. done.
Qed.

Lemma lor_range x y : 0 ≤ x < 2 ^ 64 → 0 ≤ y < 2 ^ 64 → 0 ≤ Z.lor x y < 2 ^ 64.
Proof.
  intros. assert (0 ≤ Z.lor x y) by (apply Z.lor_nonneg; lia). split; [done|].
  assert (Z.lor x y = Z.lor x y mod 2 ^ 64) as ->; [|apply Z.mod_pos_bound; lia].
  apply Z.bits_inj'. intros j ?. destruct (decide (j < 64)).
  - by rewrite Z.mod_pow2_bits_low by lia.
  - rewrite Z.mod_pow2_bits_high, Z.lor_spec, !testbit_high by lia. done.
Qed.

Lemma word_test_spec w i :
  mask_ok w → 0 ≤ i < 32 → word_test w i = Some (Z.testbit w i).
Proof.
  intros [Hw Hrep] Hi. unfold word_test, int_bit. rewrite decide_True by done.
  cbn [mbind option_bind]. f_equal. destruct (Z.testbit w i) eqn:E.
  - rewrite bool_decide_false; [done|]. intros H0.
    assert (Z.testbit (Z.land w (u64 (s32 (2 ^ i)))) i = true) as Hb; [|by rewrite H0, Z.bits_0 in Hb].
    rewrite Z.land_spec, E. destruct (mask_bits i i) as [-> _]; [lia..|].
    unfold mask_bit. by rewrite Z.eqb_refl.
  - rewrite bool_decide_true; [done|]. apply Z.bits_inj'. intros j ?.
    rewrite Z.land_spec, Z.bits_0. destruct (decide (j < 64)).
    + destruct (mask_bits i j) as [-> _]; [lia..|]. unfold mask_bit.
      destruct (decide (j = i)) as [->|]; [by rewrite E|].
      destruct (decide (i = 31 ∧ 31 ≤ j)) as [[-> ?]|].
      * rewrite Hrep, E by lia. done.
      * assert ((j =? i) = false) as -> by (apply Z.eqb_neq; lia).
        assert ((i =? 31) && (31 <=? j) = false) as ->; [|by rewrite andb_false_r].
        apply andb_false_iff. rewrite Z.eqb_neq, Z.leb_gt. lia.
    + by rewrite testbit_high by lia.
Qed.

Lemma mask_bit_low i j : 0 ≤ i < 32 → j < 32 → mask_bit i j = (j =? i).
Proof.
  intros. unfold mask_bit. destruct (Z.eqb_spec j i); [done|].
  apply andb_false_iff. rewrite Z.eqb_neq, Z.leb_gt. lia.
Qed.

Lemma mask_bit_high i j : 0 ≤ i < 32 → 32 ≤ j → mask_bit i j = mask_bit i 31.
Proof.
  intros. unfold mask_bit. rewrite (Z.eqb_sym 31 i).
  destruct (Z.eqb_spec j i); [lia|]. destruct (Z.eqb_spec i 31); simpl; [|done].
  apply Z.leb_le. lia.
Qed.

Lemma word_set_spec w i :
  mask_ok w → 0 ≤ i < 32 → ∃ w', word_set w i = Some w' ∧ mask_ok w' ∧
    ∀ j, 0 ≤ j < 32 → Z.testbit w' j = Z.testbit w j || (j =? i).
Proof.
  intros [Hw Hrep] Hi. unfold word_set, int_bit. rewrite decide_True by done.
  eexists. split; [done|].
  assert (∀ j, 0 ≤ j < 64 → Z.testbit (Z.lor w (u64 (s32 (2 ^ i)))) j =
    Z.testbit w j || mask_bit i j) as Hb.
  { intros j ?. rewrite Z.lor_spec. by destruct (mask_bits i j) as [-> _]. }
  split; [split|].
  - apply lor_range; [done|apply u64_range].
  - intros j ?. rewrite !Hb, Hrep, (mask_bit_high i j) by lia. done.
  - intros j ?. rewrite Hb, mask_bit_low by lia. done.
Qed.

Lemma word_clear_spec w i :
  mask_ok w → 0 ≤ i < 32 → ∃ w', word_clear w i = Some w' ∧ mask_ok w' ∧
    ∀ j, 0 ≤ j < 32 → Z.testbit w' j = Z.testbit w j && negb (j =? i).
Proof.
  intros [Hw Hrep] Hi. unfold word_clear, int_bit. rewrite decide_True by done.
  eexists. split; [done|].
  assert (∀ j, 0 ≤ j < 64 → Z.testbit (Z.land w (u64 (Z.lnot (s32 (2 ^ i))))) j =
    Z.testbit w j && negb (mask_bit i j)) as Hb.
  { intros j ?. rewrite Z.land_spec. by destruct (mask_bits i j) as [_ ->]. }
  split; [split|].
  - apply land_range; [done|apply u64_range].
  - intros j ?. rewrite !Hb, Hrep, (mask_bit_high i j) by lia. done.
  - intros j ?. rewrite Hb, mask_bit_low by lia. done.
Qed.

(** ** The set of ids a mask holds *)

Definition all_ids : list Z := seqZ 1 32.

Definition taken_ids (w : Z) : gset Z :=
  list_to_set (filter (λ id, Z.testbit w (id - 1) = true) all_ids).

Lemma elem_of_taken w id :
  id ∈ taken_ids w ↔ 1 ≤ id ≤ 32 ∧ Z.testbit w (id - 1) = true.
Proof.
  unfold taken_ids, all_ids. rewrite elem_of_list_to_set, list_elem_of_filter, elem_of_seqZ.
  naive_solver lia.
Qed.

Lemma taken_inj w w' : mask_ok w → mask_ok w' → taken_ids w = taken_ids w' → w = w'.
Proof.
  intros Hw Hw' Heq. apply mask_ext; [done|done|]. intros j ?.
  assert (j + 1 ∈ taken_ids w ↔ j + 1 ∈ taken_ids w') as Hj by (by rewrite Heq).
  rewrite !elem_of_taken in Hj. replace (j + 1 - 1) with j in Hj by lia.
  destruct (Z.testbit w j), (Z.testbit w' j); naive_solver lia.
Qed.

(** The ids of a fresh mask, the specification of allocation: the least id of
    1..32 that is not taken. *)
Definition least_free (S : gset Z) : option Z := head (filter (.∉ S) all_ids).

Lemma head_filter_seqZ (P : Z → Prop) `{∀ x, Decision (P x)} n : ∀ a,
  match head (filter P (seqZ a (Z.of_nat n))) with
  | Some k => a ≤ k < a + Z.of_nat n ∧ P k ∧ ∀ j, a ≤ j < k → ¬ P j
  | None => ∀ j, a ≤ j < a + Z.of_nat n → ¬ P j
  end.
Proof.
  induction n as [|n IH]; intros a; [simpl; lia|].
  rewrite seqZ_cons by lia. replace (Z.pred (Z.of_nat (S n))) with (Z.of_nat n) by lia.
  specialize (IH (Z.succ a)). destruct (decide (P a)) as [Ha|Ha].
  - rewrite filter_cons_True by done. simpl. split_and!; [lia|lia|done|lia].
  - rewrite filter_cons_False by done.
    destruct (head (filter P (seqZ (Z.succ a) (Z.of_nat n)))) as [k|].
    + destruct IH as (?&?&Hl). split_and!; [lia|lia|done|]. intros j ?.
      destruct (decide (j = a)) as [->|]; [done|apply Hl; lia].
    + intros j ?. destruct (decide (j = a)) as [->|]; [done|apply IH; lia].
Qed.

Lemma least_free_spec S :
  match least_free S with
  | Some k => 1 ≤ k ≤ 32 ∧ k ∉ S ∧ ∀ j, 1 ≤ j < k → j ∈ S
  | None => ∀ j, 1 ≤ j ≤ 32 → j ∈ S
  end.
Proof.
  unfold least_free, all_ids. pose proof (head_filter_seqZ (.∉ S) 32 1) as H.
  change (Z.of_nat 32) with 32 in H.
  destruct (head _) as [k|].
  - destruct H as (?&?&Hl). split_and!; [lia|lia|done|]. intros j ?.
    specialize (Hl j ltac:(lia)). by apply dec_stable.
  - intros j ?. specialize (H j ltac:(lia)). by apply dec_stable.
Qed.

Lemma word_set_taken w w' id :
  mask_ok w → 1 ≤ id ≤ 32 → word_set w (id - 1) = Some w' →
  mask_ok w' ∧ taken_ids w' = {[id]} ∪ taken_ids w.
Proof.
  intros Hw Hid Hs. destruct (word_set_spec w (id - 1) Hw) as (w2&Hs2&?&Hb); [lia|].
  simplify_eq. split; [done|]. apply set_eq. intros x.
  rewrite elem_of_union, elem_of_singleton, !elem_of_taken.
  destruct (decide (1 ≤ x ≤ 32)); [|naive_solver lia].
  rewrite Hb, orb_true_iff, Z.eqb_eq by lia. naive_solver lia.
Qed.

Lemma word_clear_taken w w' id :
  mask_ok w → 1 ≤ id ≤ 32 → word_clear w (id - 1) = Some w' →
  mask_ok w' ∧ taken_ids w' = taken_ids w ∖ {[id]}.
Proof.
  intros Hw Hid Hs. destruct (word_clear_spec w (id - 1) Hw) as (w2&Hs2&?&Hb); [lia|].
  simplify_eq. split; [done|]. apply set_eq. intros x.
  rewrite elem_of_difference, elem_of_singleton, !elem_of_taken.
  destruct (decide (1 ≤ x ≤ 32)); [|naive_solver lia].
  rewrite Hb, andb_true_iff, negb_true_iff, Z.eqb_neq by lia. naive_solver lia.
Qed.

Lemma claim_loop_spec w k n i status :
  mask_ok w → 0 ≤ k < 32 → Z.testbit w k = false →
  0 ≤ i ≤ k → k < i + Z.of_nat n → (∀ j, i ≤ j < k → Z.testbit w j = true) →
  claim_loop n i status w = w' ← word_set w k; Some (w', k + 1).
Proof.
  intros Hw Hk Hbk. revert i. induction n as [|n IH]; intros i Hi Hn Hall; [lia|].
  cbn [claim_loop]. rewrite word_test_spec by (done || lia). cbn [mbind option_bind].
  destruct (decide (i = k)) as [->|].
  - by rewrite Hbk.
  - rewrite Hall by lia. apply IH; [lia|lia|]. intros. apply Hall. lia.
Qed.

(** [claim_word] implements the least-free-id specification. *)
Lemma claim_word_spec w :
  mask_ok w →
  match least_free (taken_ids w) with
  | None => claim_word w = Some (w, - EINVAL)
  | Some k => ∃ w', claim_word w = Some (w', k) ∧ mask_ok w' ∧
                    taken_ids w' = {[k]} ∪ taken_ids w
  end.
Proof.
  intros Hw. pose proof (least_free_spec (taken_ids w)) as H. unfold claim_word.
  destruct (least_free _) as [k|].
  - destruct H as (?&Hk&Hl). rewrite elem_of_taken in Hk.
    assert (Z.testbit w (k - 1) = false) as Hb.
    { destruct (Z.testbit w (k - 1)); [naive_solver|done]. }
    rewrite decide_False.
    + rewrite (claim_loop_spec w (k - 1)); [|done|lia|done|lia|change (Z.of_nat MAX_STREAM_INSTANCES) with 64; lia|].
      2:{ intros j ?. pose proof (Hl (j + 1) ltac:(lia)) as Hj.
          apply elem_of_taken in Hj as [_ Hj]. by replace (j + 1 - 1) with j in Hj by lia. }
      destruct (word_set_spec w (k - 1) Hw) as (w'&Hs&_); [lia|].
      rewrite Hs. simpl. exists w'. split; [do 2 f_equal; lia|].
      by apply word_set_taken.
    + intros ->. destruct (decide (k - 1 < 32)); [|lia].
      assert (Z.testbit (u64 (-1)) (k - 1) = true) as Ht; [|congruence].
      change (u64 (-1)) with (Z.ones 64). apply Z.ones_spec_low. lia.
  - rewrite decide_True; [done|]. destruct Hw as [? Hrep].
    apply word_ext; [done|apply u64_range|]. intros j ?.
    change (u64 (-1)) with (Z.ones 64). rewrite Z.ones_spec_low by lia.
    assert (∀ i, 0 ≤ i < 32 → Z.testbit w i = true) as Hlow.
    { intros i ?. specialize (H (i + 1) ltac:(lia)). apply elem_of_taken in H as [_ H].
      by replace (i + 1 - 1) with i in H by lia. }
    destruct (decide (j < 32)); [apply Hlow; lia|]. rewrite Hrep by lia. apply Hlow. lia.
Qed.

(** ** The tables of the resource manager *)

(** The types served by the masks (voice UI and non-tunnel streams have their
    own lists). *)
Definition plain_type (t : Z) : Prop :=
  1 ≤ t < PAL_STREAM_MAX ∧ t ≠ PAL_STREAM_VOICE_UI ∧ t ≠ PAL_STREAM_NON_TUNNEL.

Definition is_input (a : pal_stream_attributes) : bool :=
  bool_decide (direction a = PAL_AUDIO_INPUT).

Definition masks (input : bool) (rm : InstanceState) : list Z :=
  if input then in_stream_instances rm else stream_instances rm.
Definition set_masks (input : bool) (l : list Z) (rm : InstanceState) : InstanceState :=
  if input then set_in_stream_instances l rm else set_stream_instances l rm.

Record InstOk (rm : InstanceState) : Prop := {
  inst_len : ∀ b, length (masks b rm) = Z.to_nat PAL_STREAM_MAX;
  inst_mask : ∀ b, Forall mask_ok (masks b rm);
}.

(** The ids in use for a type, per direction. *)
Definition ids (b : bool) (t : Z) (rm : InstanceState) : gset Z :=
  taken_ids (default 0 (masks b rm !! Z.to_nat (t - 1))).

Lemma masks_set b b' l rm :
  masks b (set_masks b' l rm) = if decide (b = b') then l else masks b rm.
Proof. by destruct b, b'. Qed.

Lemma set_masks_eq b l rm : masks b rm = l → set_masks b l rm = rm.
Proof. intros <-. destruct rm. by destruct b. Qed.

Lemma set_masks_twice b l l' rm : set_masks b l (set_masks b l' rm) = set_masks b l rm.
Proof. by destruct b. Qed.

Lemma word_at_ok b t rm :
  InstOk rm → plain_type t →
  ∃ w, word_at (masks b rm) (t - 1) = Some w ∧ mask_ok w ∧ ids b t rm = taken_ids w ∧
    masks b rm !! Z.to_nat (t - 1) = Some w.
Proof.
  intros [Hlen Hm] (Ht&_&_). specialize (Hlen b). specialize (Hm b).
  change PAL_STREAM_MAX with 36 in *. unfold word_at, ids.
  destruct (lookup_lt_is_Some_2 (masks b rm) (Z.to_nat (t - 1))) as [w Hw]; [lia|].
  exists w. rewrite decide_True, Hw by lia. split_and!; [done| |done|done].
  by eapply Forall_lookup_1.
Qed.

Lemma InstOk_set b t w rm :
  InstOk rm → mask_ok w →
  InstOk (set_masks b (<[Z.to_nat (t - 1) := w]> (masks b rm)) rm).
Proof.
  intros [Hlen Hm] Hw. split; intros b'; rewrite masks_set; case_decide; subst; try done.
  - by rewrite length_insert.
  - by apply Forall_insert.
Qed.

Lemma ids_set b t w rm b' t' :
  InstOk rm → plain_type t → plain_type t' →
  ids b' t' (set_masks b (<[Z.to_nat (t - 1) := w]> (masks b rm)) rm) =
    if decide (b' = b ∧ t' = t) then taken_ids w else ids b' t' rm.
Proof.
  intros [Hlen _] [Ht _] [Ht' _]. specialize (Hlen b). change PAL_STREAM_MAX with 36 in *.
  unfold ids. rewrite masks_set. destruct (decide (b' = b)) as [->|].
  - destruct (decide (t' = t)) as [->|].
    + rewrite list_lookup_insert_eq, decide_True by (done || lia). done.
    + rewrite list_lookup_insert_ne, decide_False by (lia || tauto). done.
  - rewrite decide_False by tauto. done.
Qed.

Lemma init_ok : InstOk instances_init.
Proof.
  assert (Forall mask_ok (replicate (Z.to_nat PAL_STREAM_MAX) 0)).
  { apply Forall_replicate. split; [lia|]. intros. by rewrite !Z.bits_0. }
  by split; intros [].
Qed.

Lemma ids_init b t : ids b t instances_init = ∅.
Proof.
  unfold ids. assert (default 0 (masks b instances_init !! Z.to_nat (t - 1)) = 0) as ->.
  { destruct (masks b instances_init !! Z.to_nat (t - 1)) as [w|] eqn:E; [|done].
    destruct b; apply (lookup_replicate_1 (Z.to_nat PAL_STREAM_MAX)) in E as [-> _]; done. }
  by vm_compute.
Qed.

Section config.
Context `{!InstanceConfig} (Hinst1 : INSTANCE_1 = 1).

(** What [getStreamInstanceID] does for a stream served by the masks. *)
Lemma get_plain str a rm :
  mStreamAttr str = Some a → plain_type (type a) → 0 ≤ mInstanceID str < 2 ^ 31 →
  let b := is_input a in let l := masks b rm in
  getStreamInstanceID str rm =
    if decide (mInstanceID str = 0) then
      w ← word_at l (type a - 1);
      '(w', status) ← claim_word w;
      if decide (status < 0) then Some (status, str, rm)
      else Some (status, setInstanceId status str,
                 set_masks b (<[Z.to_nat (type a - 1) := w']> l) rm)
    else if b then
      w ← word_at l (type a - 1);
      w' ← remark_word w (mInstanceID str);
      Some (mInstanceID str, str, set_masks b (<[Z.to_nat (type a - 1) := w']> l) rm)
    else Some (mInstanceID str, str, rm).
Proof.
  intros Ha (Ht&Hv&Hn) Hid b l. unfold getStreamInstanceID. rewrite Ha.
  rewrite (decide_False (P := PAL_STREAM_MAX ≤ _)), !decide_False by (done || lia).
  rewrite s32_small by lia. unfold l, b, is_input, masks, set_masks.
  repeat (case_bool_decide || case_decide); try tauto; done.
Qed.

Lemma reset_plain str a id rm :
  mStreamAttr str = Some a → plain_type (type a) →
  let b := is_input a in let l := masks b rm in
  resetStreamInstanceID str id rm =
    if decide (id < 1) then Some (- EINVAL, str, rm) else
    w ← word_at l (type a - 1);
    w' ← word_clear w (id - 1);
    Some (0, setInstanceId 0 str, set_masks b (<[Z.to_nat (type a - 1) := w']> l) rm).
Proof.
  intros Ha (Ht&Hv&Hn) b l. unfold resetStreamInstanceID. rewrite Ha, Hinst1.
  case_decide; [done|].
  rewrite (decide_False (P := PAL_STREAM_MAX ≤ _)), !decide_False by (done || lia).
  unfold l, b, is_input, masks, set_masks.
  repeat (case_bool_decide || case_decide); try tauto; done.
Qed.

(** Allocation at the level of the tables. *)
Lemma get_claims str a rm :
  InstOk rm → mStreamAttr str = Some a → plain_type (type a) → mInstanceID str = 0 →
  match least_free (ids (is_input a) (type a) rm) with
  | None => getStreamInstanceID str rm = Some (- EINVAL, str, rm)
  | Some k =>
      ∃ rm', getStreamInstanceID str rm = Some (k, setInstanceId k str, rm') ∧
        InstOk rm' ∧ ∀ b t, plain_type t → ids b t rm' =
          if decide (b = is_input a ∧ t = type a)
          then {[k]} ∪ ids (is_input a) (type a) rm else ids b t rm
  end.
Proof.
  intros Hok Ha Ht H0. rewrite (get_plain str a) by (done || lia).
  rewrite decide_True by done.
  destruct (word_at_ok (is_input a) (type a) rm Hok Ht) as (w&Hw&Hmok&Hids&_).
  rewrite Hw. cbn [mbind option_bind]. rewrite Hids.
  pose proof (claim_word_spec w Hmok) as Hc. pose proof (least_free_spec (taken_ids w)) as Hl.
  destruct (least_free (taken_ids w)) as [k|]; [|by rewrite Hc].
  destruct Hl as (Hk&_), Hc as (w'&->&Hok'&Hids').
  cbn [mbind option_bind]. rewrite decide_False by lia. eexists. split; [done|].
  split; [by apply InstOk_set|]. intros b t Ht'. rewrite ids_set by done. by rewrite Hids'.
Qed.

Lemma reset_releases str a rm :
  InstOk rm → mStreamAttr str = Some a → plain_type (type a) →
  1 ≤ mInstanceID str ≤ 32 →
  ∃ rm', resetStreamInstanceID_own str rm = Some (0, setInstanceId 0 str, rm') ∧
    InstOk rm' ∧ ∀ b t, plain_type t → ids b t rm' =
      if decide (b = is_input a ∧ t = type a)
      then ids (is_input a) (type a) rm ∖ {[mInstanceID str]} else ids b t rm.
Proof.
  intros Hok Ha Ht Hid. unfold resetStreamInstanceID_own.
  rewrite (reset_plain str a) by done. rewrite decide_False by lia.
  destruct (word_at_ok (is_input a) (type a) rm Hok Ht) as (w&->&Hmok&Hids&_).
  cbn [mbind option_bind].
  destruct (word_clear_spec w (mInstanceID str - 1) Hmok) as (w'&Hc&_); [lia|].
  destruct (word_clear_taken w w' _ Hmok Hid Hc) as [Hok' Hids'].
  rewrite Hc. cbn [mbind option_bind]. eexists. split; [done|].
  split; [by apply InstOk_set|]. intros b t Ht'. rewrite ids_set by done.
  by rewrite Hids', Hids.
Qed.

(** Asking again for an id already held changes nothing. *)
Lemma get_again str a rm :
  InstOk rm → mStreamAttr str = Some a → plain_type (type a) →
  mInstanceID str ∈ ids (is_input a) (type a) rm →
  getStreamInstanceID str rm = Some (mInstanceID str, str, rm).
Proof.
  intros Hok Ha Ht Hin.
  destruct (word_at_ok (is_input a) (type a) rm Hok Ht) as (w&Hw&Hmok&Hids&Hlk).
  rewrite Hids in Hin. apply elem_of_taken in Hin as [Hid Hbit].
  rewrite (get_plain str a) by (done || lia). rewrite decide_False by lia.
  rewrite Hw. cbn [mbind option_bind]. unfold remark_word.
  rewrite word_test_spec, Hbit by (done || lia). cbn [mbind option_bind].
  rewrite list_insert_id, set_masks_eq by done. by destruct (is_input a).
Qed.

(** C34: a stream without an id gets the least id in 1..32 that its type and
    direction do not use, the id becomes used and nothing else changes; when
    all 32 are used (and not 64, the size [MAX_STREAM_INSTANCES] announces) the
    call fails with [-EINVAL] and changes nothing. *)
Theorem getStreamInstanceID_allocates str a rm :
  InstOk rm → mStreamAttr str = Some a → plain_type (type a) → mInstanceID str = 0 →
  let used := ids (is_input a) (type a) rm in
  (used = list_to_set all_ids ∧ getStreamInstanceID str rm = Some (- EINVAL, str, rm)) ∨
  ∃ k rm', 1 ≤ k ≤ 32 ∧ k ∉ used ∧ (∀ j, 1 ≤ j < k → j ∈ used) ∧
    getStreamInstanceID str rm = Some (k, setInstanceId k str, rm') ∧
    InstOk rm' ∧ ∀ b t, plain_type t → ids b t rm' =
      if decide (b = is_input a ∧ t = type a) then {[k]} ∪ used else ids b t rm.
Proof.
  intros Hok Ha Ht H0 used. pose proof (get_claims str a rm Hok Ha Ht H0) as Hc.
  pose proof (least_free_spec used) as Hl. unfold used in *.
  destruct (least_free _) as [k|].
  - right. destruct Hl as (?&?&?), Hc as (rm'&?&?&?). exists k, rm'. split_and!; done || lia.
  - left. split; [|done]. apply set_eq. intros x. rewrite elem_of_list_to_set.
    unfold all_ids. rewrite elem_of_seqZ. unfold ids in *.
    split; [rewrite elem_of_taken; lia|]. intros ?. apply Hl. lia.
Qed.

(** Releasing the id a stream was just given restores the resource manager's
    tables exactly and leaves the stream without an id. *)
Theorem reset_after_get str a rm k str' rm' :
  InstOk rm → mStreamAttr str = Some a → plain_type (type a) → mInstanceID str = 0 →
  getStreamInstanceID str rm = Some (k, str', rm') → 0 ≤ k →
  resetStreamInstanceID_own str' rm' = Some (0, str, rm).
Proof.
  intros Hok Ha Ht H0. rewrite (get_plain str a) by (done || lia).
  rewrite decide_True by done.
  destruct (word_at_ok (is_input a) (type a) rm Hok Ht) as (w&Hw&Hmok&_&Hlk).
  rewrite Hw. cbn [mbind option_bind].
  pose proof (claim_word_spec w Hmok) as Hc. pose proof (least_free_spec (taken_ids w)) as Hl.
  destruct (least_free (taken_ids w)) as [k0|].
  2:{ rewrite Hc. cbn [mbind option_bind]. rewrite decide_True by lia. by intros [= <- _ _]. }
  destruct Hl as (Hk&Hn&_), Hc as (w'&->&Hok'&Hids'). cbn [mbind option_bind].
  rewrite decide_False by lia. intros [= <- <- <-] _.
  unfold resetStreamInstanceID_own. simpl. rewrite u32_small by lia.
  rewrite (reset_plain _ a) by done. rewrite decide_False by lia.
  set (rm' := set_masks _ _ rm).
  destruct (word_at_ok (is_input a) (type a) rm') as (w2&Hw2&_&_&Hlk2); [by apply InstOk_set|done|].
  rewrite Hw2. cbn [mbind option_bind].
  assert (w2 = w') as ->.
  { unfold rm' in Hlk2. rewrite masks_set, decide_True in Hlk2 by done.
    rewrite list_lookup_insert_eq in Hlk2; [by simplify_eq|]. by eapply lookup_lt_Some. }
  destruct (word_clear_spec w' (k0 - 1) Hok') as (w3&Hcl&_); [lia|]. rewrite Hcl.
  destruct (word_clear_taken w' w3 k0 Hok' Hk Hcl) as [Hok3 Hids3].
  assert (w3 = w) as ->.
  { apply taken_inj; [done|done|]. rewrite Hids3, Hids'. set_solver. }
  cbn [mbind option_bind]. f_equal. f_equal.
  - f_equal. destruct str; simpl in *; by subst.
  - unfold rm'. rewrite set_masks_twice. apply set_masks_eq.
    rewrite masks_set, decide_True, list_insert_insert_eq by done.
    symmetry. by apply list_insert_id.
Qed.
(** ** Any interleaving of requests

    Streams ask for ids and give them back in any order. *)

Definition id_world : Type := InstanceState * gmap positive StreamIds.

Inductive id_step : id_world → id_world → Prop :=
  | step_get p s st s' rm rm' m :
      m !! p = Some s → getStreamInstanceID s rm = Some (st, s', rm') →
      id_step (rm, m) (rm', <[p := s']> m)
  | step_reset p s st s' rm rm' m :
      m !! p = Some s → resetStreamInstanceID_own s rm = Some (st, s', rm') →
      id_step (rm, m) (rm', <[p := s']> m).

Definition id_start (m : gmap positive StreamIds) : Prop :=
  ∀ p s, m !! p = Some s → mInstanceID s = 0 ∧
    ∃ a, mStreamAttr s = Some a ∧ plain_type (type a).

(** Stream [p], of type [t] in direction [b], has id [id]. *)
Definition holds (m : gmap positive StreamIds) (p : positive) (b : bool) (t id : Z) : Prop :=
  ∃ s a, m !! p = Some s ∧ mStreamAttr s = Some a ∧ is_input a = b ∧ type a = t ∧
    mInstanceID s = id.

Record world_ok (w : id_world) : Prop := {
  wo_tables : InstOk w.1;
  wo_plain : ∀ p s, w.2 !! p = Some s →
    ∃ a, mStreamAttr s = Some a ∧ plain_type (type a);
  wo_ids : ∀ b t id, plain_type t →
    id ∈ ids b t w.1 ↔ id ≠ 0 ∧ ∃ p, holds w.2 p b t id;
  wo_inj : ∀ p q b t id, id ≠ 0 → holds w.2 p b t id → holds w.2 q b t id → p = q;
}.

Lemma holds_insert m p s a id q b t id' :
  m !! p = Some s → mStreamAttr s = Some a →
  holds (<[p := mkStreamIds (mStreamAttr s) id (mStreamSelector s)]> m) q b t id' ↔
    (q = p ∧ is_input a = b ∧ type a = t ∧ id = id') ∨ (q ≠ p ∧ holds m q b t id').
Proof.
  intros Hp Ha. unfold holds. destruct (decide (q = p)) as [->|].
  - rewrite lookup_insert_eq. naive_solver.
  - rewrite lookup_insert_ne by done. naive_solver.
Qed.

(** The effect of one call on the invariant: stream [p] now has the id [new],
    and the ids of its type are those the streams hold. *)
Lemma world_ok_update rm m rm' p s a new used :
  world_ok (rm, m) → m !! p = Some s → mStreamAttr s = Some a → InstOk rm' →
  (∀ b t, plain_type t → ids b t rm' =
     if decide (b = is_input a ∧ t = type a) then used else ids b t rm) →
  (∀ id, id ∈ used ↔ id ≠ 0 ∧
     (id = new ∨ ∃ q, q ≠ p ∧ holds m q (is_input a) (type a) id)) →
  (new ≠ 0 → ∀ q, q ≠ p → ¬ holds m q (is_input a) (type a) new) →
  world_ok (rm', <[p := mkStreamIds (mStreamAttr s) new (mStreamSelector s)]> m).
Proof.
  intros [_ Hplain Hids Hinj] Hp Ha Htab Hids' Hused Hnew. simpl in *.
  pose proof (λ q b t id', holds_insert m p s a new q b t id' Hp Ha) as Hh.
  destruct (Hplain p s Hp) as (?&?&Ht). simplify_eq.
  split; simpl; [done| | |].
  - intros q s2. destruct (decide (q = p)) as [->|]; [|rewrite lookup_insert_ne by done; eauto].
    rewrite lookup_insert_eq. intros [= <-]. eauto.
  - intros b t id Ht'. rewrite Hids' by done. setoid_rewrite Hh. case_decide as Hd.
    + destruct Hd as [-> ->]. rewrite Hused. naive_solver.
    + rewrite Hids by done. split; [|naive_solver].
      intros [? (q&Hq)]. split; [done|]. exists q. right. split; [|done]. intros ->.
      destruct Hq as (?&?&?&?&?&?&?). naive_solver.
  - intros q1 q2 b t id Hn. rewrite !Hh.
    intros [(->&?&?&?)|[? Hq1]] [(->&?&?&?)|[? Hq2]]; subst; try done; naive_solver.
Qed.

Lemma world_ok_get rm m p s st s' rm' :
  world_ok (rm, m) → m !! p = Some s →
  getStreamInstanceID s rm = Some (st, s', rm') → world_ok (rm', <[p := s']> m).
Proof.
  intros Hw Hp Hg. pose proof Hw as [Htab Hplain Hids Hinj]. simpl in *.
  destruct (Hplain p s Hp) as (a&Ha&Ht). destruct (decide (mInstanceID s = 0)) as [H0|H0].
  - pose proof (get_claims s a rm Htab Ha Ht H0) as Hc.
    pose proof (least_free_spec (ids (is_input a) (type a) rm)) as Hl.
    destruct (least_free _) as [k|]; [|rewrite Hc in Hg; simplify_eq; by rewrite insert_id].
    destruct Hc as (rm2&Hc&Htab2&Hids2), Hl as (?&Hk&_). rewrite Hc in Hg. simplify_eq.
    unfold setInstanceId. rewrite u32_small by lia.
    assert (∀ q id, id ≠ 0 → holds m q (is_input a) (type a) id → q ≠ p) as Hne.
    { intros q id ? (?&?&?&?&?&?&?) ->. simplify_eq. }
    eapply world_ok_update; [done..| |].
    + intros id. rewrite elem_of_union, elem_of_singleton, Hids by done. split.
      * intros [->|[? (q&Hq)]]; [split; [lia|by left]|]. eauto 10.
      * naive_solver.
    + intros _ q _ Hq. apply Hk, Hids; [done|]. split; [lia|eauto].
  - rewrite (get_again s a) in Hg; [simplify_eq; by rewrite insert_id|done..|].
    apply Hids; [done|]. split; [done|]. by exists p, s, a.
Qed.

Lemma world_ok_reset rm m p s st s' rm' :
  world_ok (rm, m) → m !! p = Some s →
  resetStreamInstanceID_own s rm = Some (st, s', rm') → world_ok (rm', <[p := s']> m).
Proof.
  intros Hw Hp Hr. pose proof Hw as [Htab Hplain Hids Hinj]. simpl in *.
  destruct (Hplain p s Hp) as (a&Ha&Ht). destruct (decide (mInstanceID s = 0)) as [H0|H0].
  { unfold resetStreamInstanceID_own in Hr. rewrite (reset_plain s a) in Hr by done.
    rewrite decide_True in Hr by lia. simplify_eq. by rewrite insert_id. }
  assert (holds m p (is_input a) (type a) (mInstanceID s)) as Hps by (by exists s, a).
  assert (mInstanceID s ∈ ids (is_input a) (type a) rm) as Hin by (apply Hids; eauto).
  destruct (reset_releases s a rm) as (rm2&Hr2&Htab2&Hids2); [done|done|done| |].
  { unfold ids in Hin. by apply elem_of_taken in Hin as [? _]. }
  rewrite Hr2 in Hr. simplify_eq. unfold setInstanceId. rewrite u32_small by lia.
  eapply world_ok_update; [done..| |done].
  intros id. rewrite elem_of_difference, elem_of_singleton, Hids by done. split.
  - intros [[? (q&Hq)] Hne]. split; [done|]. right. exists q. split; [|done]. intros ->.
    destruct Hq as (?&?&?&?&?&?&?). naive_solver.
  - intros [? [->|(q&?&Hq)]]; [done|]. split; [eauto|]. intros ->. eauto.
Qed.

Lemma id_step_ok w w' : world_ok w → id_step w w' → world_ok w'.
Proof.
  intros Hw Hs. destruct Hs; [by eapply world_ok_get|by eapply world_ok_reset].
Qed.

Lemma id_start_ok m : id_start m → world_ok (instances_init, m).
Proof.
  intros Hm. split; simpl; [apply init_ok| | |].
  - intros p s Hp. by destruct (Hm p s Hp).
  - intros b t id _. rewrite ids_init. split; [set_solver|].
    intros [? (p&s&a&Hp&?&?&?&?)]. destruct (Hm p s Hp). congruence.
  - intros p q b t id Hn (s&a&Hp&?&?&?&?). destruct (Hm p s Hp). congruence.
Qed.

(** however requests and releases of any number of streams interleave,
    no call leaves the defined behaviour, two streams of one type and direction
    never share an id, and an id is marked used exactly when a stream has it:
    no id leaks. *)
Theorem instance_ids_distinct m w :
  id_start m → rtc id_step (instances_init, m) w →
  (∀ p q b t id, id ≠ 0 → holds w.2 p b t id → holds w.2 q b t id → p = q) ∧
  (∀ b t id, plain_type t →
     id ∈ ids b t w.1 ↔ id ≠ 0 ∧ ∃ p, holds w.2 p b t id) ∧
  (∀ p s, w.2 !! p = Some s →
     is_Some (getStreamInstanceID s w.1) ∧ is_Some (resetStreamInstanceID_own s w.1)).
Proof.
  intros Hm Hr. assert (world_ok w) as Hw.
  { apply (rtc_ind_r (R:=id_step) world_ok (instances_init, m)); [by apply id_start_ok| |done].
    intros ? ? _ ? ?. by eapply id_step_ok. }
  destruct Hw as [Htab Hplain Hids Hinj]. split; [done|]. split; [done|].
  intros p s Hp. destruct (Hplain p s Hp) as (a&Ha&Ht).
  destruct (decide (mInstanceID s = 0)) as [H0|H0].
  - split.
    + pose proof (get_claims s a w.1 Htab Ha Ht H0) as Hc.
      destruct (least_free _); [destruct Hc as (?&->&_)|rewrite Hc]; by eexists.
    + unfold resetStreamInstanceID_own. rewrite (reset_plain s a) by done.
      rewrite decide_True by lia. by eexists.
  - assert (mInstanceID s ∈ ids (is_input a) (type a) w.1) as Hin.
    { apply Hids; [done|]. split; [done|]. by exists p, s, a. }
    split; [rewrite (get_again s a) by done; by eexists|].
    destruct (reset_releases s a w.1) as (?&->&_); [done|done|done| |by eexists].
    unfold ids in Hin. apply elem_of_taken in Hin as [? _]. done.
Qed.
End config.

(** ** The pool of front-end ids *)

Lemma unique_elem l x : x ∈ unique l ↔ x ∈ l.
Proof.
  induction l as [|y l IH]; simpl; [done|]. destruct (unique l) as [|z l'] eqn:E.
  - rewrite !elem_of_cons. naive_solver.
  - case_decide; subst; rewrite !elem_of_cons in *; naive_solver.
Qed.

Lemma unique_sorted l : StronglySorted Z.le l → StronglySorted Z.lt (unique l).
Proof.
  induction 1 as [|x l Hl IH Hx]; simpl; [constructor|].
  pose proof (unique_elem l) as Hel. destruct (unique l) as [|y l'].
  { repeat constructor. }
  case_decide as Hxy; subst; [done|]. constructor; [done|].
  inversion IH as [|?? _ Hy]; subst. rewrite Forall_forall in Hx.
  assert (x ≤ y) by (apply Hx, Hel; set_solver). constructor; [lia|].
  eapply Forall_impl; [exact Hy|]. simpl. intros. lia.
Qed.

Lemma sorted_lt_NoDup l : StronglySorted Z.lt l → NoDup l.
Proof.
  induction 1 as [|x l _ IH Hx]; constructor; [|done].
  intros Hin. rewrite Forall_forall in Hx. specialize (Hx x Hin). lia.
Qed.

Lemma sorted_lt_le l : StronglySorted Z.lt l → StronglySorted Z.le l.
Proof.
  induction 1 as [|x l _ IH Hx]; constructor; [done|].
  eapply Forall_impl; [exact Hx|]. simpl. lia.
Qed.

(** Strictly sorted pools are determined by their elements. *)
Lemma sorted_lt_unique l l' :
  StronglySorted Z.lt l → StronglySorted Z.lt l' → (∀ x, x ∈ l ↔ x ∈ l') → l = l'.
Proof.
  intros Hl Hl' Hel. apply (StronglySorted_unique Z.le).
  - by apply sorted_lt_le.
  - by apply sorted_lt_le.
  - by apply NoDup_Permutation; try apply sorted_lt_NoDup.
Qed.

Lemma removeDuplicates_pool l :
  StronglySorted Z.lt (removeDuplicates l) ∧ ∀ x, x ∈ removeDuplicates l ↔ x ∈ l.
Proof.
  unfold removeDuplicates. split.
  - apply unique_sorted, StronglySorted_merge_sort; [apply _|]. intros ??; lia.
  - intros x. by rewrite unique_elem, merge_sort_Permutation.
Qed.

(** [n] allocations in a row, the last id first. *)
Fixpoint allocs (n : nat) (key : string) (m : gmap string (list Z))
    : list Z * gmap string (list Z) :=
  match n with
  | O => ([], m)
  | S n =>
      let '(id, m) := allocateFrontEndIds key m in
      let '(got, m) := allocs n key m in (id :: got, m)
  end.

Lemma allocs_spec n key : ∀ ids m,
  m !! key = Some ids → (n ≤ length ids)%nat →
  allocs n key m = (reverse (drop (length ids - n) ids),
                    <[key := take (length ids - n) ids]> m).
Proof.
  induction n as [|n IH]; intros ids m Hm Hn; cbn [allocs].
  { rewrite Nat.sub_0_r, drop_all, firstn_all, insert_id by done. done. }
  destruct (exists_last (l := ids)) as (l&x&->); [intros ->; simpl in Hn; lia|].
  unfold allocateFrontEndIds. rewrite Hm, last_snoc. rewrite removelast_last.
  rewrite length_app in Hn. simpl in Hn.
  rewrite (IH l) by (by rewrite ?lookup_insert_eq || lia).
  rewrite length_app, insert_insert_eq in *. simpl in *.
  replace (length l + 1 - S n)%nat with (length l - n)%nat by lia.
  rewrite drop_app_le, take_app_le, reverse_snoc by lia. done.
Qed.

(** ids taken from a strictly sorted pool are pairwise distinct and leave
    it, and giving all of them back, in any order and even more than once,
    restores the pool. *)
Theorem frontend_ids_roundtrip key m ids n back :
  m !! key = Some ids → StronglySorted Z.lt ids → (0 < n ≤ length ids)%nat →
  let '(got, m') := allocs n key m in
  NoDup got ∧ length got = n ∧ (∀ id rest, m' !! key = Some rest → id ∈ got → id ∉ rest) ∧
  ((∀ x, x ∈ back ↔ x ∈ got) → freeFrontEndIds key back m' = m).
Proof.
  intros Hm Hs Hn. rewrite (allocs_spec n key ids m Hm) by lia.
  pose proof (sorted_lt_NoDup _ Hs) as Hnd. set (k := (length ids - n)%nat).
  rewrite <- (take_drop k ids) in Hnd. apply NoDup_app in Hnd as (_&Hdisj&Hnd).
  split_and!.
  - by rewrite reverse_Permutation.
  - rewrite length_reverse, length_drop. lia.
  - intros id rest. rewrite lookup_insert_eq. intros [= <-]. rewrite elem_of_reverse.
    intros Hd Ht. by apply (Hdisj id).
  - intros Hback. unfold freeFrontEndIds. rewrite decide_False.
    2:{ intros ->. assert (drop k ids ≠ []) as Hne.
        { intros He. apply (f_equal length) in He. rewrite length_drop in He. simpl in He. lia. }
        destruct (drop k ids) as [|x l]; [done|]. specialize (Hback x).
        rewrite elem_of_reverse in Hback. set_solver. }
    rewrite lookup_insert_eq, insert_insert_eq.
    destruct (removeDuplicates_pool (take k ids ++ back)) as [Hsort Hel].
    rewrite (sorted_lt_unique _ ids Hsort Hs), insert_id; [done|done|].
    intros x. rewrite Hel, <- (take_drop k ids) at 1. rewrite take_drop.
    rewrite elem_of_app, Hback, elem_of_reverse, <- elem_of_app, take_drop. done.
Qed.

(** ** Closed examples *)

Module instance_examples.
#[export] Instance config : InstanceConfig := mkInstanceConfig 1 8 2.
Definition pcm48 : pal_media_config := mkMedia 48000 16 1 (mkChannels 2 [1; 2]).
Definition deep (dir : Z) : pal_stream_attributes :=
  mkAttr PAL_STREAM_DEEP_BUFFER (voice_call_info 0 0) 0 dir pcm48 pcm48 None.
Definition player : StreamIds := mkStreamIds (Some (deep PAL_AUDIO_OUTPUT)) 0 "".
Definition recorder : StreamIds := mkStreamIds (Some (deep PAL_AUDIO_INPUT)) 0 "".

Lemma config_one : INSTANCE_1 = 1.
Proof. reflexivity. Qed.
Definition after_first : InstanceState :=
  match getStreamInstanceID player instances_init with
  | Some (_, _, rm) => rm
  | None => instances_init
  end.
Lemma deep_plain : plain_type PAL_STREAM_DEEP_BUFFER.
Proof. by split. Qed.
End instance_examples.
Import instance_examples.

Theorem getStreamInstanceID_allocates_witness :
  ∃ rm', getStreamInstanceID player instances_init = Some (1, setInstanceId 1 player, rm').
Proof.
  destruct (getStreamInstanceID_allocates player (deep PAL_AUDIO_OUTPUT) instances_init
    init_ok eq_refl deep_plain eq_refl) as [[_ H]|(k&rm'&_&_&_&H&_)].
  - vm_compute in H. discriminate H.
  - exists rm'. rewrite H. assert (k = 1) as ->; [|reflexivity].
    assert ((λ x, x.1.1) <$> getStreamInstanceID player instances_init = Some 1) as H1
      by (vm_compute; reflexivity).
    rewrite H in H1. simpl in H1. congruence.
Defined.

Theorem reset_after_get_witness :
  ∃ s' rm', getStreamInstanceID recorder instances_init = Some (1, s', rm') ∧
    resetStreamInstanceID_own s' rm' = Some (0, recorder, instances_init).
Proof.
  eexists _, _. split; [vm_compute; reflexivity|].
  apply (reset_after_get config_one recorder (deep PAL_AUDIO_INPUT) instances_init 1);
    [exact init_ok|reflexivity|exact deep_plain|reflexivity|vm_compute; reflexivity|lia].
Defined.

Theorem instance_ids_distinct_witness :
  ∃ w, rtc id_step (instances_init, {[ 1%positive := player; 2%positive := player ]}) w ∧
    1 ∈ ids false PAL_STREAM_DEEP_BUFFER w.1.
Proof.
  assert (id_start {[ 1%positive := player; 2%positive := player ]}) as Hstart.
  { intros p s Hp. assert (s = player) as ->; [|split; [done|]; eexists; split; [done|exact deep_plain]].
    apply lookup_insert_Some in Hp as [[_ <-]|[_ Hp]]; [done|].
    by apply lookup_singleton_Some in Hp as [_ <-]. }
  assert (∃ w, id_step (instances_init, {[ 1%positive := player; 2%positive := player ]}) w ∧
    holds w.2 1 false PAL_STREAM_DEEP_BUFFER 1) as (w&Hw&Hh).
  { exists (after_first, <[1%positive := setInstanceId 1 player]>
      {[ 1%positive := player; 2%positive := player ]}). split.
    - apply (step_get 1 player 1); [by rewrite lookup_insert_eq|vm_compute; reflexivity].
    - exists (setInstanceId 1 player), (deep PAL_AUDIO_OUTPUT). simpl.
      by rewrite lookup_insert_eq. }
  exists w. split; [by apply rtc_once|].
  destruct (instance_ids_distinct config_one _ w Hstart (rtc_once _ _ Hw)) as (_&Hids&_).
  apply Hids; [exact deep_plain|]. split; [lia|by exists 1%positive].
Defined.

Theorem frontend_ids_roundtrip_witness :
  let m : gmap string (list Z) := {[ "PCM_PLAYBACK" := [3; 5; 8] ]} in
  freeFrontEndIds "PCM_PLAYBACK" [5; 8; 5] (allocs 2 "PCM_PLAYBACK" m).2 = m.
Proof.
  intros m. pose proof (frontend_ids_roundtrip "PCM_PLAYBACK" m [3; 5; 8] 2 [5; 8; 5]) as H.
  assert (allocs 2 "PCM_PLAYBACK" m = ([8; 5], {[ "PCM_PLAYBACK" := [3] ]})) as Ha
    by (vm_compute; reflexivity).
  rewrite Ha in H |- *. apply H; [by vm_compute| |simpl; lia|].
  - repeat constructor; lia.
  - intros x. rewrite !elem_of_cons. naive_solver.
Defined.
