(* ===== verification/Users.v ===== *)
(** * Stream registry and user counters

    The registry of active streams and the user counters of
    resource_manager/src/ResourceManager.cpp, the semaphore [mInUse] of
    stream/src/Stream.cpp, and the protocol with which Pal.cpp uses them.  A
    section of code under [mActiveStreamMutex] is one function of the state;
    [None] is a call that blocks on the semaphore.  [sys_step] interleaves the
    threads of the clients. *)

From S2P Require Import Prelude PalDefs.

(** Streams are named by their address. *)
Record UserState := mkUsers {
  mActiveStreams : list positive;
  activeStreamMap : gmap Z (list positive);
  mActiveStreamUserCounter : gmap positive (Z * bool);
  mInUse : gmap positive Z;
}.

Definition users_init : UserState := mkUsers [] ∅ ∅ ∅.

Definition set_counter (m : gmap positive (Z * bool)) (st : UserState) : UserState :=
  mkUsers (mActiveStreams st) (activeStreamMap st) m (mInUse st).
Definition set_mInUse (m : gmap positive Z) (st : UserState) : UserState :=
  mkUsers (mActiveStreams st) (activeStreamMap st) (mActiveStreamUserCounter st) m.

(** ** Registration

    [stype] is the outcome of [s->getStreamType]: [None] when the stream has no
    attributes. *)

Definition registerStream (s : positive) (stype : option Z) (st : UserState)
    : Z * UserState :=
  match stype with
  | None => (- EINVAL, st)
  | Some type =>
      let l := match activeStreamMap st !! type with
               | Some l => l ++ [s] | None => [s] end in
      (0, mkUsers (mActiveStreams st ++ [s]) (<[type := l]> (activeStreamMap st))
            (mActiveStreamUserCounter st) (mInUse st))
  end.

Definition deregisterStream (s : positive) (stype : option Z) (st : UserState)
    : Z * UserState :=
  match stype with
  | None => (- EINVAL, st)
  | Some type =>
      let '(ret, m) :=
        match activeStreamMap st !! type with
        | Some l =>
            if decide (s ∈ l) then
              (0, if decide (erase_first s l = []) then delete type (activeStreamMap st)
                  else <[type := erase_first s l]> (activeStreamMap st))
            else (- ENOENT, activeStreamMap st)
        | None => (- EINVAL, activeStreamMap st)
        end in
      let ret := if decide (s ∈ mActiveStreams st) then ret else - ENOENT in
      (ret, mkUsers (erase_first s (mActiveStreams st)) m
              (mActiveStreamUserCounter st) (mInUse st))
  end.

Definition isStreamActive (s : positive) (st : UserState) : bool :=
  bool_decide (s ∈ mActiveStreams st).

(** ** The semaphore of a stream *)

Definition initStreamSmph (s : positive) (st : UserState) : UserState :=
  set_mInUse (<[s := 1]> (mInUse st)) st.
Definition deinitStreamSmph (s : positive) (st : UserState) : UserState :=
  set_mInUse (delete s (mInUse st)) st.
Definition postStreamSmph (s : positive) (st : UserState) : UserState :=
  set_mInUse (alter (Z.add 1) s (mInUse st)) st.
Definition waitStreamSmph (s : positive) (st : UserState) : option UserState :=
  match mInUse st !! s with
  | Some v => if decide (0 < v) then Some (set_mInUse (<[s := v - 1]> (mInUse st)) st)
              else None
  | None => None
  end.

(** ** User counters *)

(** [std::map::insert] keeps an entry that exists. *)
Definition initStreamUserCounter (s : positive) (st : UserState) : Z * UserState :=
  let m := mActiveStreamUserCounter st in
  let m := match m !! s with Some _ => m | None => <[s := (0, true)]> m end in
  (0, initStreamSmph s (set_counter m st)).

(** [deactivateStreamUserCounter] up to the unlock; it then waits on the
    semaphore ([waitStreamSmph]) and destroys it ([deinitStreamSmph]). *)
Definition deactivateStreamUserCounter_locked (s : positive) (st : UserState)
    : Z * UserState :=
  match mActiveStreamUserCounter st !! s with
  | Some (n, true) =>
      (0, set_counter (<[s := (n, false)]> (mActiveStreamUserCounter st)) st)
  | _ => (- EINVAL, st)
  end.

Definition eraseStreamUserCounter (s : positive) (st : UserState) : Z * UserState :=
  match mActiveStreamUserCounter st !! s with
  | Some _ => (0, set_counter (delete s (mActiveStreamUserCounter st)) st)
  | None => (- EINVAL, st)
  end.

Definition increaseStreamUserCounter (s : positive) (st : UserState)
    : option (Z * UserState) :=
  match mActiveStreamUserCounter st !! s with
  | Some (n, true) =>
      st ← if decide (n = 0) then waitStreamSmph s st else Some st;
      Some (0, set_counter (<[s := (u32 (n + 1), true)]> (mActiveStreamUserCounter st)) st)
  | _ => Some (- EINVAL, st)
  end.

Definition decreaseStreamUserCounter (s : positive) (st : UserState) : Z * UserState :=
  match mActiveStreamUserCounter st !! s with
  | Some (n, active) =>
      if decide (n = 0) then (- EINVAL, st)
      else
        let n := u32 (n - 1) in
        let st := set_counter (<[s := (n, active)]> (mActiveStreamUserCounter st)) st in
        (0, if decide (n = 0) then postStreamSmph s st else st)
  | None => (- EINVAL, st)
  end.

Definition getStreamUserCounter (s : positive) (st : UserState) : Z :=
  match mActiveStreamUserCounter st !! s with
  | Some (n, _) => s32 n
  | None => - EINVAL
  end.

(** ** The client threads

    The points at which a thread of [pal_stream_open], [pal_stream_start] (and
    the other entry points that hold a use count), of [pal_stream_write] (and the
    others that do not: read, pause, resume, flush, suspend, get_device,
    set_buffer_size, get_buffer_size, create_mmap_buffer, get_mmap_position,
    set_custom_param, get_custom_param) and [pal_stream_close] can be preempted.  At every
    point but [Idle] the thread is about to touch, or is touching, the object [s]. *)
Inductive pc :=
  | Idle
  | Opening (s : positive)      (* created and registered, before initStreamUserCounter *)
  | InUse (s : positive)        (* between increase- and decreaseStreamUserCounter *)
  | Unguarded (s : positive)    (* in a call that neither looks s up nor counts its use *)
  | Closing (s : positive)      (* found active; about to call setCachedState and close *)
  | Closed (s : positive)       (* s->close() returned; about to deactivate *)
  | Draining (s : positive)     (* inactive; about to wait on the semaphore *)
  | Drained (s : positive)      (* has the semaphore; about to erase the counter *)
  | Erased (s : positive)       (* about to destroy: the destructor deregisters *)
  | Dying (s : positive).       (* deregistered; about to free *)

#[export] Instance pc_eq_dec : EqDecision pc.
Proof. solve_decision. Defined.

(** The object a thread is touching. *)
Definition touches (p : pc) : option positive :=
  match p with
  | Idle => None
  | Opening s | InUse s | Unguarded s | Closing s | Closed s | Draining s | Drained s
  | Erased s | Dying s => Some s
  end.

Definition guarded (p : pc) : bool := match p with Unguarded _ => false | _ => true end.

(** The stream a thread is opening or closing. *)
Definition owns (p : pc) : option positive :=
  match p with
  | Idle | InUse _ | Unguarded _ => None
  | Opening s | Closing s | Closed s | Draining s | Drained s | Erased s
  | Dying s => Some s
  end.

Record System := mkSystem {
  users : UserState;
  alive : gset positive;
  threads : gmap nat pc;
}.

Definition at_pc (t : nat) (p : pc) (w : System) : Prop := threads w !! t = Some p.
Definition move (t : nat) (p : pc) (st : UserState) (w : System) : System :=
  mkSystem st (alive w) (<[t := p]> (threads w)).

Section system.
Context (stype : positive → Z).

(** [may_close] restricts the streams a client may pass to [pal_stream_close] and
    [may_call] those it may pass to the entry points that check nothing. *)
Inductive sys_step (may_close may_call : positive → System → Prop) : System → System → Prop :=
  | sys_create t s w st :
      at_pc t Idle w → s ∉ alive w →
      registerStream s (Some (stype s)) (users w) = (0, st) →
      sys_step may_close may_call w
        (mkSystem st ({[s]} ∪ alive w) (<[t := Opening s]> (threads w)))
  | sys_publish t s w st :
      at_pc t (Opening s) w → initStreamUserCounter s (users w) = (0, st) →
      sys_step may_close may_call w (move t Idle st w)
  | sys_enter t s w st :
      at_pc t Idle w → isStreamActive s (users w) = true →
      increaseStreamUserCounter s (users w) = Some (0, st) →
      sys_step may_close may_call w (move t (InUse s) st w)
  | sys_enter_refused t s w st ret :
      at_pc t Idle w → isStreamActive s (users w) = true →
      increaseStreamUserCounter s (users w) = Some (ret, st) → ret ≠ 0 →
      sys_step may_close may_call w (move t Idle st w)
  | sys_leave t s w st ret :
      at_pc t (InUse s) w → decreaseStreamUserCounter s (users w) = (ret, st) →
      sys_step may_close may_call w (move t Idle st w)
  | sys_call t s w :
      at_pc t Idle w → may_call s w →
      sys_step may_close may_call w (move t (Unguarded s) (users w) w)
  | sys_return t s w :
      at_pc t (Unguarded s) w →
      sys_step may_close may_call w (move t Idle (users w) w)
  | sys_close t s w :
      at_pc t Idle w → may_close s w → isStreamActive s (users w) = true →
      sys_step may_close may_call w (move t (Closing s) (users w) w)
  | sys_closed t s w :
      at_pc t (Closing s) w →
      sys_step may_close may_call w (move t (Closed s) (users w) w)
  | sys_deactivate t s w st :
      at_pc t (Closed s) w →
      deactivateStreamUserCounter_locked s (users w) = (0, st) →
      sys_step may_close may_call w (move t (Draining s) st w)
  | sys_deactivate_refused t s w st ret :
      at_pc t (Closed s) w →
      deactivateStreamUserCounter_locked s (users w) = (ret, st) → ret ≠ 0 →
      sys_step may_close may_call w (move t Idle st w)
  | sys_drain t s w st :
      at_pc t (Draining s) w → waitStreamSmph s (users w) = Some st →
      sys_step may_close may_call w (move t (Drained s) (deinitStreamSmph s st) w)
  | sys_erase t s w st ret :
      at_pc t (Drained s) w → eraseStreamUserCounter s (users w) = (ret, st) →
      sys_step may_close may_call w (move t (Erased s) st w)
  | sys_deregister t s w st ret :
      at_pc t (Erased s) w →
      deregisterStream s (Some (stype s)) (users w) = (ret, st) →
      sys_step may_close may_call w (move t (Dying s) st w)
  | sys_free t s w :
      at_pc t (Dying s) w →
      sys_step may_close may_call w
        (mkSystem (users w) (alive w ∖ {[s]}) (<[t := Idle]> (threads w))).

(** A client that closes each of its streams from one thread: no other thread
    is opening or closing the stream. *)
Definition one_closer (s : positive) (w : System) : Prop :=
  ∀ t p, at_pc t p w → owns p ≠ Some s.

Definition any_closer (s : positive) (w : System) : Prop := True.

(** A client that also waits for its calls that are not counted before it closes the
    stream, and makes them on open streams only. *)
Definition exclusive_closer (s : positive) (w : System) : Prop :=
  one_closer s w ∧ ∀ t, ¬ at_pc t (Unguarded s) w.

Definition open_handle (s : positive) (w : System) : Prop := s ∈ alive w ∧ one_closer s w.

Definition any_call (s : positive) (w : System) : Prop := True.
End system.

Definition sys_start (n : nat) : System :=
  mkSystem users_init ∅ (gset_to_gmap Idle (set_seq 0 n)).
