(* ===== verification/UsersFacts.v ===== *)
(** * The user counters protect streams from use after destruction

    One record per stream, its [view], is related to the thread that opens or
    closes it and to the number of threads inside it. *)

From S2P Require Import Prelude PalDefs Users.

(** ** Threads *)

(** The number of threads inside the stream [s]. *)
Definition users_of (s : positive) (th : gmap nat pc) : nat :=
  size (filter (λ x, x.2 = InUse s) th).

Definition in_use (p : pc) (s : positive) : nat :=
  if decide (p = InUse s) then 1 else 0.

Lemma users_of_insert s th t p p' :
  th !! t = Some p →
  (users_of s (<[t := p']> th) + in_use p s = users_of s th + in_use p' s)%nat.
Proof.
  intros Ht. assert (∀ x th0, th0 !! t = None →
    users_of s (<[t := x]> th0) = in_use x s + users_of s th0)%nat as Hins.
  { intros x th0 H0. unfold users_of, in_use. destruct (decide (x = InUse s)).
    - rewrite map_filter_insert_True by done.
      rewrite map_size_insert_None; [done|]. by apply map_lookup_filter_None; left.
    - rewrite map_filter_insert_False, delete_id by done. done. }
  rewrite <- (insert_delete_id th t p) at 2 by done.
  rewrite <- insert_delete_eq, !Hins by apply lookup_delete_eq. lia.
Qed.

Lemma users_of_pos s th t : th !! t = Some (InUse s) → (0 < users_of s th)%nat.
Proof.
  intros Ht. pose proof (users_of_insert s th t _ Idle Ht) as H. unfold in_use in H.
  rewrite decide_True, decide_False in H by done. lia.
Qed.

Lemma users_of_le s th : (users_of s th ≤ size th)%nat.
Proof. apply map_subseteq_size, map_filter_subseteq. Qed.

Lemma users_of_lt s th t p :
  th !! t = Some p → p ≠ InUse s → (users_of s th < size th)%nat.
Proof.
  intros Ht Hp. pose proof (users_of_insert s th t _ (InUse s) Ht) as H.
  pose proof (users_of_le s (<[t := InUse s]> th)) as Hle.
  rewrite map_size_insert_Some in Hle by done. unfold in_use in H.
  rewrite (decide_False (P := p = InUse s)) in H by done.
  rewrite decide_True in H by done. lia.
Qed.

(** The thread that is opening or closing [s], if any. *)
Definition owner (s : positive) (th : gmap nat pc) (o : pc) : Prop :=
  match owns o with
  | None => o = Idle ∧ ∀ t p, th !! t = Some p → owns p ≠ Some s
  | Some s' => s' = s ∧ ∃ t, th !! t = Some o ∧
      ∀ t' p, th !! t' = Some p → owns p = Some s → t' = t
  end.

Lemma owner_here s th o t p :
  owner s th o → th !! t = Some p → owns p = Some s → o = p.
Proof.
  unfold owner. intros Ho Ht Hp. destruct (owns o).
  - destruct Ho as (->&t'&Ht'&Hu). pose proof (Hu _ _ Ht Hp). by simplify_eq.
  - by destruct Ho as [_ Ho]; specialize (Ho t p Ht).
Qed.

(** Thread [t] leaves or changes its role for [s]. *)
Lemma owner_mine s th t p p' :
  owner s th p → th !! t = Some p → owns p = Some s →
  owns p' = Some s ∨ p' = Idle → owner s (<[t := p']> th) p'.
Proof.
  unfold owner. intros Ho Ht Hp Hp'. rewrite Hp in Ho. destruct Ho as (_&t0&Ht0&Hu).
  assert (t = t0) as <- by (by eapply Hu). destruct Hp' as [Hp'| ->]; [rewrite Hp'|simpl].
  - split; [done|]. exists t. rewrite lookup_insert_eq. split; [done|].
    intros t' q [[<- _]|[? Hq]]%lookup_insert_Some; [done|by eapply Hu].
  - split; [done|]. intros t' q [[_ <-]|[? Hq]]%lookup_insert_Some ?; [done|].
    assert (t' = t) by (by eapply Hu). done.
Qed.

(** Thread [t] does something else. *)
Lemma owner_other s th t p p' o :
  owner s th o → th !! t = Some p → owns p ≠ Some s → owns p' ≠ Some s →
  owner s (<[t := p']> th) o.
Proof.
  unfold owner. intros Ho Ht Hp Hp'. destruct (owns o) as [s'|] eqn:Hoo.
  - destruct Ho as (->&t0&Ht0&Hu). split; [done|]. exists t0.
    assert (t ≠ t0) by (intros ->; congruence).
    rewrite lookup_insert_ne by done. split; [done|].
    intros t' q [[_ <-]|[? Hq]]%lookup_insert_Some ?; [done|by eapply Hu].
  - destruct Ho as [-> Ho]. split; [done|].
    intros t' q [[_ <-]|[? Hq]]%lookup_insert_Some; [done|by eapply Ho].
Qed.

(** Thread [t] becomes the owner. *)
Lemma owner_new s th t p' :
  owner s th Idle → owns p' = Some s → owner s (<[t := p']> th) p'.
Proof.
  unfold owner. simpl. intros [_ Ho] ->. split; [done|]. exists t.
  rewrite lookup_insert_eq. split; [done|].
  intros t' q [[<- _]|[? Hq]]%lookup_insert_Some Hs; [done|]. by destruct (Ho t' q Hq).
Qed.

(** ** The view of a stream *)

Record view := mkView {
  v_alive : bool;
  v_active : bool;
  v_counter : option (Z * bool);
  v_sem : option Z;
  v_users : nat;
}.

Definition view_of (s : positive) (w : System) : view :=
  mkView (bool_decide (s ∈ alive w)) (isStreamActive s (users w))
    (mActiveStreamUserCounter (users w) !! s) (mInUse (users w) !! s)
    (users_of s (threads w)).

Definition counted (b : bool) (v : view) : Prop :=
  v_counter v = Some (Z.of_nat (v_users v), b).
Definition sem_free (v : view) : Prop :=
  v_sem v = Some (if decide (v_users v = 0%nat) then 1 else 0).
Definition uncounted (v : view) : Prop := v_counter v = None ∧ v_users v = 0%nat.

Definition view_ok (o : pc) (v : view) : Prop :=
  match o with
  | Idle =>
      (v_alive v ∧ v_active v ∧ counted true v ∧ sem_free v) ∨
      (¬ v_alive v ∧ ¬ v_active v ∧ uncounted v)
  | Opening _ | Erased _ => v_alive v ∧ v_active v ∧ uncounted v
  | InUse _ | Unguarded _ => False
  | Closing _ | Closed _ => v_alive v ∧ v_active v ∧ counted true v ∧ sem_free v
  | Draining _ => v_alive v ∧ v_active v ∧ counted false v ∧ sem_free v
  | Drained _ => v_alive v ∧ v_active v ∧ counted false v ∧ v_users v = 0%nat
  | Dying _ => v_alive v ∧ ¬ v_active v ∧ uncounted v
  end.

Record SystemOk (w : System) : Prop := {
  so_nodup : NoDup (mActiveStreams (users w));
  so_threads : Z.of_nat (size (threads w)) < 2 ^ 32;
  so_view : ∀ s, ∃ o, owner s (threads w) o ∧ view_ok o (view_of s w);
}.

(** The view of [s] after thread [t] moved from [p] to [p'] and the resource
    manager's state became [st]. *)
Definition view_moved (s : positive) (w : System) (p p' : pc) (st : UserState)
    (al : gset positive) : view :=
  mkView (bool_decide (s ∈ al)) (isStreamActive s st)
    (mActiveStreamUserCounter st !! s) (mInUse st !! s)
    (users_of s (threads w) + in_use p' s - in_use p s).

Definition about (s : positive) (p : pc) : Prop := p = Idle ∨ touches p = Some s.

Lemma in_use_ne p s : p ≠ InUse s → in_use p s = 0%nat.
Proof. intros. unfold in_use. by rewrite decide_False. Qed.
Lemma in_use_eq s : in_use (InUse s) s = 1%nat.
Proof. unfold in_use. by rewrite decide_True. Qed.

Lemma about_other s s' p : about s p → s' ≠ s → owns p ≠ Some s' ∧ in_use p s' = 0%nat.
Proof.
  intros [->|Hp] Hne; [done|]. split; [destruct p; simplify_eq/=; congruence|].
  apply in_use_ne. intros ->. simplify_eq/=.
Qed.

(** A step of thread [t] that concerns the stream [s0] alone. *)
Lemma step_ok w t p p' st al s0 :
  SystemOk w → at_pc t p w → about s0 p → about s0 p' →
  NoDup (mActiveStreams st) →
  (∀ s, s ≠ s0 → (s ∈ al ↔ s ∈ alive w) ∧
     isStreamActive s st = isStreamActive s (users w) ∧
     mActiveStreamUserCounter st !! s = mActiveStreamUserCounter (users w) !! s ∧
     mInUse st !! s = mInUse (users w) !! s) →
  (∀ o, owner s0 (threads w) o → view_ok o (view_of s0 w) →
     ∃ o', owner s0 (<[t := p']> (threads w)) o' ∧
           view_ok o' (view_moved s0 w p p' st al)) →
  SystemOk (mkSystem st al (<[t := p']> (threads w))).
Proof.
  intros [Hn Hth Hv] Ht Hp Hp' Hn' Hframe Hs0.
  assert (∀ s, view_of s (mkSystem st al (<[t := p']> (threads w))) =
    view_moved s w p p' st al) as Hview.
  { intros s. unfold view_of, view_moved. f_equal. simpl.
    pose proof (users_of_insert s _ _ _ p' Ht). lia. }
  split; [done| |].
  - simpl. rewrite map_size_insert_Some by done. done.
  - intros s. rewrite Hview. simpl. destruct (Hv s) as (o&Ho&Hok).
    destruct (decide (s = s0)) as [->|Hne]; [by eapply Hs0|].
    exists o. destruct (about_other _ _ _ Hp Hne) as [Hop Hip].
    destruct (about_other _ _ _ Hp' Hne) as [Hop' Hip'].
    destruct (Hframe s Hne) as (Hal&Hact&Hc&Hm).
    split; [by eapply owner_other|]. unfold view_moved. unfold view_of in Hok.
    rewrite Hact, Hc, Hm, Hip, Hip', Nat.add_0_r, Nat.sub_0_r.
    by rewrite (bool_decide_ext _ _ Hal).
Qed.

(** Frame conditions of the operations. *)
Ltac frame_solve :=
  intros; simpl; unfold isStreamActive; simpl;
  repeat match goal with
    | |- _ ∧ _ => split
    | |- context [<[_ := _]> _ !! _] => rewrite lookup_insert_ne by done
    | |- context [delete _ _ !! _] => rewrite lookup_delete_ne by done
    | |- context [alter _ _ _ !! _] => rewrite lookup_alter_ne by done
    end; try done.

(** A thread that only changes its own role. *)
Lemma step_role w t p p' s :
  SystemOk w → at_pc t p w → about s p → about s p' →
  in_use p s = 0%nat → in_use p' s = 0%nat →
  (∀ o, owner s (threads w) o → view_ok o (view_of s w) →
     ∃ o', owner s (<[t := p']> (threads w)) o' ∧ view_ok o' (view_of s w)) →
  SystemOk (move t p' (users w) w).
Proof.
  intros Hok Ht Hp Hp' Hip Hip' H.
  apply (step_ok w t p p' _ _ s); [done|done|done|done|apply Hok|done|].
  - intros o Ho Hv. destruct (H o Ho Hv) as (o'&Ho'&Hv'). exists o'. split; [done|].
    unfold view_moved. rewrite Hip, Hip', Nat.add_0_r, Nat.sub_0_r. exact Hv'.
Qed.

(** ** The steps preserve the invariant *)

Lemma register_ok s ty st :
  (registerStream s (Some ty) st).1 = 0 ∧
  ∀ s', isStreamActive s' (registerStream s (Some ty) st).2 =
    bool_decide (s' = s) || isStreamActive s' st.
Proof.
  split; [done|]. intros s'. unfold isStreamActive. simpl.
  rewrite <- bool_decide_or. apply bool_decide_ext. set_solver.
Qed.

Lemma deregister_ok s ty st :
  mActiveStreams (deregisterStream s (Some ty) st).2 = erase_first s (mActiveStreams st) ∧
  mActiveStreamUserCounter (deregisterStream s (Some ty) st).2 = mActiveStreamUserCounter st ∧
  mInUse (deregisterStream s (Some ty) st).2 = mInUse st.
Proof. unfold deregisterStream. by repeat case_match. Qed.

(** Open, entered and drained streams, by the use counter. *)
Lemma counted_view o n b v :
  view_ok o v → v_counter v = Some (n, b) →
  v_alive v ∧ v_active v ∧ n = Z.of_nat (v_users v) ∧
  (b = true → sem_free v ∧ ∀ v', v_alive v' → v_active v' → counted true v' →
     sem_free v' → view_ok o v').
Proof.
  unfold counted, uncounted. destruct o; simpl; unfold counted, uncounted;
    intros; destruct_and?; destruct_or?; destruct_and?; simplify_eq; naive_solver.
Qed.

Lemma dead_view o v :
  view_ok o v → ¬ v_alive v → o = Idle ∧ ¬ v_active v ∧ uncounted v.
Proof. destruct o; simpl; intuition. Qed.

Lemma alive_view s w : v_alive (view_of s w) ↔ s ∈ alive w.
Proof. apply bool_decide_spec. Qed.
Lemma active_view s w : v_active (view_of s w) ↔ s ∈ mActiveStreams (users w).
Proof. apply bool_decide_spec. Qed.

Section system.
Context (stype : positive → Z).

Lemma create_ok w t s st :
  SystemOk w → at_pc t Idle w → s ∉ alive w →
  registerStream s (Some (stype s)) (users w) = (0, st) →
  SystemOk (mkSystem st ({[s]} ∪ alive w) (<[t := Opening s]> (threads w))).
Proof.
  intros Hok Ht Hs [= <-].
  assert (∀ o, view_ok o (view_of s w) → o = Idle ∧ s ∉ mActiveStreams (users w) ∧
    uncounted (view_of s w)) as Hdead.
  { intros o Hv. rewrite <- active_view. apply dead_view; [done|]. by rewrite alive_view. }
  destruct (so_view _ Hok s) as (o&_&Hv). destruct (Hdead o Hv) as (_&Hact&_).
  apply (step_ok w t Idle (Opening s) _ _ s); [done|done|by left|by right| | |].
  - simpl. apply NoDup_app. split; [apply Hok|]. split; [set_solver|apply NoDup_singleton].
  - frame_solve; [set_solver|apply bool_decide_ext; set_solver].
  - clear o Hv. intros o Ho Hv. destruct (Hdead o Hv) as (->&_&Hc&Hu).
    exists (Opening s). split; [by apply owner_new|]. unfold view_moved. simpl.
    rewrite !in_use_ne, Nat.add_0_r, Nat.sub_0_r by done.
    split; [apply bool_decide_spec; set_solver|].
    split; [apply bool_decide_spec; set_solver|]. done.
Qed.

Lemma publish_ok w t s st :
  SystemOk w → at_pc t (Opening s) w →
  initStreamUserCounter s (users w) = (0, st) → SystemOk (move t Idle st w).
Proof.
  intros Hok Ht. unfold initStreamUserCounter. intros [= <-].
  apply (step_ok w t (Opening s) Idle _ _ s); [done|done|by right|by left|apply Hok| |].
  - frame_solve. case_match; [done|]. by rewrite lookup_insert_ne.
  - intros o Ho Hv. assert (o = Opening s) as -> by (by eapply owner_here).
    exists Idle. split; [eapply owner_mine; eauto|]. unfold view_moved. simpl in *.
    destruct Hv as (?&?&Hc&Hu). simpl in Hc, Hu. rewrite Hc, Hu.
    rewrite !in_use_ne, !lookup_insert_eq by done. left. by split_and!.
Qed.

Lemma enter_ok w t s st :
  SystemOk w → at_pc t Idle w →
  increaseStreamUserCounter s (users w) = Some (0, st) → SystemOk (move t (InUse s) st w).
Proof.
  intros Hok Ht. unfold increaseStreamUserCounter.
  destruct (mActiveStreamUserCounter (users w) !! s) as [[n []]|] eqn:Hc; [|done..].
  assert (∀ o, view_ok o (view_of s w) → n = Z.of_nat (users_of s (threads w)) ∧
    mInUse (users w) !! s = Some (if decide (users_of s (threads w) = 0%nat) then 1 else 0))
    as Hn.
  { intros o Hv. destruct (counted_view _ _ _ _ Hv Hc) as (_&_&?&Hs).
    split; [done|]. by destruct (Hs eq_refl). }
  destruct (so_view _ Hok s) as (o&_&Hv). destruct (Hn o Hv) as [Hnu Hsem].
  pose proof (users_of_lt s _ _ _ Ht ltac:(done)) as Hlt. pose proof (so_threads _ Hok).
  intros Hst. assert (st = set_counter (<[s := (n + 1, true)]> (mActiveStreamUserCounter (users w)))
    (set_mInUse (<[s := 0]> (mInUse (users w))) (users w))) as ->.
  { unfold waitStreamSmph in Hst. rewrite Hsem, u32_small in Hst by lia.
    revert Hsem Hst. destruct (decide (users_of s (threads w) = 0%nat)); intros Hsem Hst.
    - rewrite decide_True, decide_True in Hst by lia. by injection Hst as <-.
    - rewrite decide_False in Hst by lia. injection Hst as <-.
      unfold set_mInUse. by rewrite (insert_id (mInUse (users w))). }
  apply (step_ok w t Idle (InUse s) _ _ s); [done|done|by left|by right|apply Hok| |].
  { frame_solve. }
  clear o Hv. intros o Ho Hv. exists o. split; [by eapply owner_other|].
  destruct (counted_view _ _ _ _ Hv Hc) as (Hal&Hac&_&Hs). apply Hs; [done|done|done| |];
    unfold counted, sem_free, view_moved; simpl;
    rewrite in_use_eq, in_use_ne, !lookup_insert_eq by done.
  - do 2 f_equal. lia.
  - by rewrite decide_False by lia.
Qed.

Lemma enter_refused_ok w t s st ret :
  SystemOk w → at_pc t Idle w →
  increaseStreamUserCounter s (users w) = Some (ret, st) → ret ≠ 0 →
  SystemOk (move t Idle st w).
Proof.
  intros Hok Ht Hinc Hret. assert (st = users w) as ->.
  { unfold increaseStreamUserCounter in Hinc.
    destruct (_ !! s) as [[n []]|]; [|by simplify_eq..].
    by destruct (decide (n = 0)); [destruct (waitStreamSmph _ _)|]; simplify_eq/=. }
  apply (step_role w t Idle Idle s); [done|done|by left|by left|done|done|].
  intros o Ho Hv. exists o. split; [by eapply owner_other|done].
Qed.

Lemma leave_ok w t s st ret :
  SystemOk w → at_pc t (InUse s) w →
  decreaseStreamUserCounter s (users w) = (ret, st) → SystemOk (move t Idle st w).
Proof.
  intros Hok Ht Hdec. pose proof (users_of_pos _ _ _ Ht) as Hpos.
  assert (∀ o, view_ok o (view_of s w) → ∃ b, mActiveStreamUserCounter (users w) !! s =
      Some (Z.of_nat (users_of s (threads w)), b) ∧ v_alive (view_of s w) ∧
      v_active (view_of s w) ∧ sem_free (view_of s w) ∧
      ∀ v', v_alive v' → v_active v' → counted b v' → sem_free v' → view_ok o v') as Hb.
  { intros o Hv. destruct o; simpl in Hv; unfold counted, uncounted in Hv; simpl in Hv;
      destruct_and?; destruct_or?; destruct_and?; try done; try lia;
      eexists; (split; [eassumption|]); rewrite alive_view; split_and!; try done;
      intros v' ????; simpl; first [by split_and!|left; by split_and!]. }
  destruct (so_view _ Hok s) as (o0&_&Hv0).
  destruct (Hb o0 Hv0) as (b&Hc&Hal&Hac&Hsem&_). clear o0 Hv0.
  unfold sem_free in Hsem. simpl in Hsem. rewrite decide_False in Hsem by lia.
  pose proof (users_of_le s (threads w)). pose proof (so_threads _ Hok).
  unfold decreaseStreamUserCounter in Hdec. rewrite Hc in Hdec.
  rewrite decide_False, u32_small in Hdec by lia. injection Hdec as <- <-.
  apply (step_ok w t (InUse s) Idle _ _ s); [done|done|by right|by left| | |].
  - case_decide; apply Hok.
  - case_decide; frame_solve.
  - intros o Ho Hv. destruct (Hb o Hv) as (b'&Hc'&_&_&_&Hback).
    rewrite Hc in Hc'. injection Hc' as <-. exists o. split; [by eapply owner_other|].
    apply Hback; [done|by case_decide| |];
      unfold counted, sem_free, view_moved; simpl; rewrite in_use_eq, in_use_ne by done.
    + case_decide; simpl; rewrite lookup_insert_eq; do 2 f_equal; lia.
    + case_decide; simpl.
      * rewrite lookup_alter_eq, Hsem, decide_True by lia. done.
      * by rewrite decide_False by lia.
Qed.

Lemma close_ok w t s :
  SystemOk w → at_pc t Idle w → one_closer s w → isStreamActive s (users w) = true →
  SystemOk (move t (Closing s) (users w) w).
Proof.
  intros Hok Ht Hone Hact.
  apply (step_role w t Idle (Closing s) s); [done|done|by left|by right|done|done|].
  intros o Ho Hv. assert (o = Idle) as ->.
  { unfold owner in Ho. destruct (owns o) as [s'|] eqn:E; [|by destruct Ho].
    destruct Ho as (->&t'&Ht'&_). by destruct (Hone t' o Ht'). }
  exists (Closing s). split; [by apply owner_new|].
  simpl in *. destruct Hv as [?|(_&Hna&_)]; [done|]. destruct Hna.
  apply active_view. by apply bool_decide_eq_true in Hact.
Qed.

Lemma closed_ok w t s :
  SystemOk w → at_pc t (Closing s) w → SystemOk (move t (Closed s) (users w) w).
Proof.
  intros Hok Ht.
  apply (step_role w t (Closing s) (Closed s) s); [done|done|by right|by right|done|done|].
  intros o Ho Hv. assert (o = Closing s) as -> by (by eapply owner_here).
  exists (Closed s). split; [|done]. eapply owner_mine; eauto.
Qed.

(** The closing thread always finds its stream active: it is never refused. *)
Lemma deactivate_view w t s :
  SystemOk w → at_pc t (Closed s) w →
  deactivateStreamUserCounter_locked s (users w) =
    (0, set_counter (<[s := (Z.of_nat (users_of s (threads w)), false)]>
                       (mActiveStreamUserCounter (users w))) (users w)).
Proof.
  intros Hok Ht. destruct (so_view _ Hok s) as (o&Ho&Hv).
  assert (o = Closed s) as -> by (by eapply owner_here).
  destruct Hv as (_&_&Hc&_). unfold counted in Hc. simpl in Hc.
  unfold deactivateStreamUserCounter_locked. by rewrite Hc.
Qed.

Lemma deactivate_ok w t s st :
  SystemOk w → at_pc t (Closed s) w →
  deactivateStreamUserCounter_locked s (users w) = (0, st) →
  SystemOk (move t (Draining s) st w).
Proof.
  intros Hok Ht. rewrite (deactivate_view w t s Hok Ht). intros [= <-].
  apply (step_ok w t (Closed s) (Draining s) _ _ s);
    [done|done|by right|by right|apply Hok|frame_solve|].
  intros o Ho Hv. assert (o = Closed s) as -> by (by eapply owner_here).
  exists (Draining s). split; [eapply owner_mine; eauto|].
  destruct Hv as (?&?&Hc&Hs). unfold view_moved, counted, sem_free in *. simpl in *.
  rewrite !in_use_ne, lookup_insert_eq, Nat.add_0_r, Nat.sub_0_r by done. by split_and!.
Qed.

Lemma drain_ok w t s st :
  SystemOk w → at_pc t (Draining s) w → waitStreamSmph s (users w) = Some st →
  SystemOk (move t (Drained s) (deinitStreamSmph s st) w).
Proof.
  intros Hok Ht Hwait.
  assert (∀ o, owner s (threads w) o → o = Draining s) as Hown
    by (intros o Ho; by eapply owner_here).
  destruct (so_view _ Hok s) as (o0&Ho0&Hv0). pose proof (Hown o0 Ho0) as ->.
  destruct Hv0 as (_&_&_&Hs). unfold sem_free in Hs. simpl in Hs.
  unfold waitStreamSmph in Hwait. rewrite Hs in Hwait.
  destruct (decide (users_of s (threads w) = 0%nat)) as [H0|]; [|done].
  injection Hwait as <-.
  apply (step_ok w t (Draining s) (Drained s) _ _ s);
    [done|done|by right|by right|apply Hok|frame_solve|].
  intros o Ho Hv. pose proof (Hown o Ho) as ->. exists (Drained s).
  split; [eapply owner_mine; eauto|].
  destruct Hv as (?&?&Hc&_). unfold view_moved, counted in *. simpl in *.
  rewrite !in_use_ne, Nat.add_0_r, Nat.sub_0_r by done. by split_and!.
Qed.

Lemma erase_ok w t s st ret :
  SystemOk w → at_pc t (Drained s) w →
  eraseStreamUserCounter s (users w) = (ret, st) → SystemOk (move t (Erased s) st w).
Proof.
  intros Hok Ht Her.
  assert (st = set_counter (delete s (mActiveStreamUserCounter (users w))) (users w)) as ->.
  { unfold eraseStreamUserCounter in Her.
    destruct (mActiveStreamUserCounter (users w) !! s) eqn:E; simplify_eq; [done|].
    rewrite delete_id by done. by destruct (users w). }
  apply (step_ok w t (Drained s) (Erased s) _ _ s);
    [done|done|by right|by right|apply Hok|frame_solve|].
  intros o Ho Hv. assert (o = Drained s) as -> by (by eapply owner_here).
  exists (Erased s). split; [eapply owner_mine; eauto|].
  destruct Hv as (?&?&_&Hu). unfold view_moved in *. simpl in *. unfold uncounted in *. simpl in *.
  rewrite !in_use_ne, lookup_delete_eq by done. split_and!; done || lia.
Qed.

Lemma deregister_step_ok w t s st ret :
  SystemOk w → at_pc t (Erased s) w →
  deregisterStream s (Some (stype s)) (users w) = (ret, st) →
  SystemOk (move t (Dying s) st w).
Proof.
  intros Hok Ht Hd. destruct (deregister_ok s (stype s) (users w)) as (Hm&Hc&Hi).
  rewrite Hd in Hm, Hc, Hi. simpl in *. pose proof (so_nodup _ Hok) as Hnd.
  apply (step_ok w t (Erased s) (Dying s) _ _ s); [done|done|by right|by right| | |].
  - rewrite Hm. by apply erase_first_NoDup.
  - intros s' Hne. rewrite Hc, Hi. split_and!; try done. unfold isStreamActive.
    rewrite Hm. apply bool_decide_ext. rewrite erase_first_elem by done. tauto.
  - intros o Ho Hv. assert (o = Erased s) as -> by (by eapply owner_here).
    exists (Dying s). split; [eapply owner_mine; eauto|].
    destruct Hv as (?&_&?&Hu). unfold view_moved in *. simpl in *. unfold uncounted in *. simpl in *.
    rewrite !in_use_ne, Hc by done. split; [done|]. split; [|split; done || lia].
    unfold isStreamActive. rewrite bool_decide_spec, Hm, erase_first_elem by done. tauto.
Qed.

Lemma free_ok w t s :
  SystemOk w → at_pc t (Dying s) w →
  SystemOk (mkSystem (users w) (alive w ∖ {[s]}) (<[t := Idle]> (threads w))).
Proof.
  intros Hok Ht.
  apply (step_ok w t (Dying s) Idle _ _ s);
    [done|done|by right|by left|apply Hok|frame_solve; set_solver|].
  intros o Ho Hv. assert (o = Dying s) as -> by (by eapply owner_here).
  exists Idle. split; [eapply owner_mine; eauto|].
  destruct Hv as (_&?&?&Hu). unfold view_moved in *. simpl in *. unfold uncounted in *. simpl in *.
  rewrite !in_use_ne by done. right. split_and!; [|done|done|lia].
  rewrite bool_decide_spec. set_solver.
Qed.

Lemma call_ok w t s :
  SystemOk w → at_pc t Idle w → SystemOk (move t (Unguarded s) (users w) w).
Proof.
  intros Hok Ht. apply (step_role w t Idle (Unguarded s) s);
    [done|done|by left|by right|done|by apply in_use_ne|].
  intros o Ho Hv. exists o. split; [by eapply owner_other|done].
Qed.

Lemma return_ok w t s :
  SystemOk w → at_pc t (Unguarded s) w → SystemOk (move t Idle (users w) w).
Proof.
  intros Hok Ht. apply (step_role w t (Unguarded s) Idle s);
    [done|done|by right|by left|by apply in_use_ne|done|].
  intros o Ho Hv. exists o. split; [by eapply owner_other|done].
Qed.

Lemma sys_step_ok may_call w w' :
  SystemOk w → sys_step stype one_closer may_call w w' → SystemOk w'.
Proof.
  intros Hok Hs. destruct Hs;
    eauto using create_ok, publish_ok, enter_ok, enter_refused_ok, leave_ok, call_ok, return_ok, close_ok,
      closed_ok, deactivate_ok, drain_ok, erase_ok, deregister_step_ok, free_ok.
  rewrite (deactivate_view w t s) in * by done. by simplify_eq.
Qed.

Lemma sys_start_ok n : Z.of_nat n < 2 ^ 32 → SystemOk (sys_start n).
Proof.
  intros Hn. assert (∀ t p, threads (sys_start n) !! t = Some p → p = Idle) as Hidle.
  { intros t p Ht. simpl in Ht. by apply lookup_gset_to_gmap_Some in Ht as [_ <-]. }
  split; [apply NoDup_nil_2| |].
  - simpl. rewrite <- size_dom, dom_gset_to_gmap, size_set_seq. done.
  - intros s. exists Idle. split.
    + split; [done|]. intros t p Ht. by rewrite (Hidle t p Ht).
    + right. rewrite alive_view, active_view. split; [set_solver|]. split; [set_solver|].
      split; [done|].
      simpl. unfold users_of. rewrite map_size_empty_iff.
      apply map_empty. intros t. apply map_lookup_filter_None. right.
      intros p Ht. simpl. by rewrite (Hidle t p Ht).
Qed.

Lemma reach_ok may_call n w :
  Z.of_nat n < 2 ^ 32 → rtc (sys_step stype one_closer may_call) (sys_start n) w → SystemOk w.
Proof.
  intros Hn Hr. apply (rtc_ind_r (R := sys_step stype one_closer may_call) SystemOk (sys_start n));
    [by apply sys_start_ok| |done].
  intros ?? _ ??. by eapply sys_step_ok.
Qed.
End system.

Lemma increase_never_blocks w s :
  SystemOk w → is_Some (increaseStreamUserCounter s (users w)).
Proof.
  intros Hok. unfold increaseStreamUserCounter.
  destruct (mActiveStreamUserCounter (users w) !! s) as [[n []]|] eqn:Hc; [|by eexists..].
  destruct (so_view _ Hok s) as (o&_&Hv).
  destruct (counted_view _ _ _ _ Hv Hc) as (_&_&Hn&Hs). destruct (Hs eq_refl) as [Hsem _].
  unfold sem_free in Hsem. simpl in *. unfold waitStreamSmph. rewrite Hsem.
  case_decide.
  - rewrite (decide_True (P := n = 0)), decide_True by lia. by eexists.
  - rewrite (decide_False (P := n = 0)) by lia. by eexists.
Qed.

Lemma inside_not_destroyed w t t' s p :
  SystemOk w → at_pc t (InUse s) w → at_pc t' p w → owns p = Some s →
  p ≠ Drained s ∧ p ≠ Erased s ∧ p ≠ Dying s.
Proof.
  intros Hok Ht Ht' Hp. pose proof (users_of_pos _ _ _ Ht).
  destruct (so_view _ Hok s) as (o&Ho&Hv).
  assert (o = p) as -> by (by eapply owner_here).
  split_and!; intros ->; simpl in Hv; unfold uncounted in Hv; simpl in Hv; lia.
Qed.

Lemma touched_alive w t p s :
  SystemOk w → at_pc t p w → touches p = Some s → guarded p = true → s ∈ alive w.
Proof.
  intros Hok Ht Hp Hg. destruct (so_view _ Hok s) as (o&Ho&Hv). apply alive_view.
  destruct (decide (owns p = Some s)) as [Hown|Hown].
  - assert (o = p) as -> by (by eapply owner_here).
    destruct p; try discriminate; exact (proj1 Hv).
  - destruct p; simplify_eq/=; try discriminate. pose proof (users_of_pos _ _ _ Ht).
    destruct o; simpl in Hv; unfold uncounted in Hv; simpl in Hv;
      intuition lia.
Qed.

Section protocol.
Context (stype : positive → Z) (may_call : positive → System → Prop).

(** C37: when no two threads close the same stream, a thread in a call that looks the
    stream up and counts its use, or in open or close, never touches a stream that has
    been freed (nothing is said of the calls that do neither, see
    [unguarded_use_after_free]); while a thread is inside a stream no other
    thread has got past the semaphore towards its destruction; and taking a use
    count never blocks on the semaphore, so [mActiveStreamMutex] is never held
    by a blocked thread. *)
Theorem streams_protected n w :
  Z.of_nat n < 2 ^ 32 → rtc (sys_step stype one_closer may_call) (sys_start n) w →
  (∀ t p s, at_pc t p w → touches p = Some s → guarded p = true → s ∈ alive w) ∧
  (∀ t t' p s, at_pc t (InUse s) w → at_pc t' p w → owns p = Some s →
     p ≠ Drained s ∧ p ≠ Erased s ∧ p ≠ Dying s) ∧
  (∀ s, is_Some (increaseStreamUserCounter s (users w))).
Proof.
  intros Hn Hr. pose proof (reach_ok stype may_call n w Hn Hr) as Hok. split_and!.
  - intros t p s. by apply touched_alive.
  - intros t t' p s. by apply inside_not_destroyed.
  - intros s. by apply increase_never_blocks.
Qed.

Lemma drain_enabled w t s :
  SystemOk w → at_pc t (Draining s) w →
  waitStreamSmph s (users w) =
    if decide (users_of s (threads w) = 0%nat)
    then Some (set_mInUse (<[s := 0]> (mInUse (users w))) (users w)) else None.
Proof.
  intros Hok Ht. destruct (so_view _ Hok s) as (o&Ho&Hv).
  assert (o = Draining s) as -> by (by eapply owner_here).
  destruct Hv as (_&_&_&Hs). unfold sem_free in Hs. simpl in Hs.
  unfold waitStreamSmph. rewrite Hs. by case_decide.
Qed.

Lemma at_pc_move t p st w : at_pc t p (move t p st w).
Proof. apply lookup_insert_eq. Qed.

Lemma idle_users_move w t p p' st s :
  at_pc t p w → p ≠ InUse s → p' ≠ InUse s → users_of s (threads w) = 0%nat →
  users_of s (threads (move t p' st w)) = 0%nat.
Proof.
  intros Ht Hp Hp' H0. pose proof (users_of_insert s _ _ _ p' Ht) as H.
  rewrite !in_use_ne in H by done. simpl. lia.
Qed.

(** From the point where it has the semaphore the closing thread runs on. *)
Lemma finish_from_drained w t s :
  at_pc t (Drained s) w →
  ∃ w', rtc (sys_step stype one_closer may_call) w w' ∧ at_pc t Idle w' ∧ s ∉ alive w'.
Proof.
  intros Ht. eexists. split.
  - eapply rtc_l; [eapply sys_erase; [done|apply surjective_pairing]|].
    eapply rtc_l; [eapply sys_deregister; [apply at_pc_move|apply surjective_pairing]|].
    apply rtc_once. eapply sys_free. apply at_pc_move.
  - split; [apply lookup_insert_eq|]. simpl. set_solver.
Qed.


(** two threads that close the same stream can both find it active; the
    slower one then calls [setCachedState] and [close] on a freed object. *)
Theorem close_race s :
  ∃ w, rtc (sys_step stype any_closer any_call) (sys_start 2) w ∧
    at_pc 1 (Closing s) w ∧ s ∉ alive w.
Proof.
  eexists. split; [|split].
  - eapply rtc_l; [apply (sys_create _ _ _ 0 s); [done|set_solver|done]|].
    eapply rtc_l; [apply (sys_publish _ _ _ 0 s); [apply lookup_insert_eq|done]|].
    eapply rtc_l; [apply (sys_close _ _ _ 0 s); [apply lookup_insert_eq|done|
      by apply bool_decide_eq_true; simpl; set_solver]|].
    eapply rtc_l; [apply (sys_close _ _ _ 1 s); [done|done|
      by apply bool_decide_eq_true; simpl; set_solver]|].
    eapply rtc_l; [apply (sys_closed _ _ _ 0 s); done|].
    eapply rtc_l; [apply (sys_deactivate _ _ _ 0 s); [apply lookup_insert_eq|]|].
    { simpl. unfold deactivateStreamUserCounter_locked. simpl.
      rewrite lookup_empty, lookup_insert_eq. reflexivity. }
    eapply rtc_l; [apply (sys_drain _ _ _ 0 s); [apply lookup_insert_eq|]|].
    { unfold waitStreamSmph. simpl. rewrite lookup_insert_eq. reflexivity. }
    eapply rtc_l; [eapply (sys_erase _ _ _ 0 s); [apply lookup_insert_eq|apply surjective_pairing]|].
    eapply rtc_l; [eapply (sys_deregister _ _ _ 0 s); [apply lookup_insert_eq|apply surjective_pairing]|].
    apply rtc_once. apply (sys_free _ _ _ 0 s). apply lookup_insert_eq.
  - done.
  - simpl. set_solver.
Qed.
End protocol.

Section clients.
Context (stype : positive → Z).

(** The calls that neither look a stream up nor count their use: a thread in
    [pal_stream_write] on a stream that was open when it began is left with a freed
    object when another thread closes the stream. *)
Theorem unguarded_use_after_free s :
  ∃ w, rtc (sys_step stype one_closer open_handle) (sys_start 2) w ∧
    at_pc 1 (Unguarded s) w ∧ s ∉ alive w.
Proof.
  assert (∀ w, (∀ p, threads w !! 0%nat = Some p → owns p ≠ Some s) →
    (∀ p, threads w !! 1%nat = Some p → owns p ≠ Some s) →
    (∀ t, (2 ≤ t)%nat → threads w !! t = None) → one_closer s w) as Hone.
  { intros w H0 H1 H2 [|[|t]] p Ht; [by apply H0|by apply H1|].
    unfold at_pc in Ht. rewrite H2 in Ht by lia. done. }
  assert (∀ t, (2 ≤ t)%nat → threads (sys_start 2) !! t = None) as Hrest.
  { intros t Ht. apply lookup_gset_to_gmap_None. rewrite elem_of_set_seq. lia. }
  eexists. split; [|split].
  - eapply rtc_l; [apply (sys_create _ _ _ 0 s); [done|set_solver|done]|].
    eapply rtc_l; [apply (sys_publish _ _ _ 0 s); [apply lookup_insert_eq|done]|].
    eapply rtc_l; [apply (sys_call _ _ _ 1 s); [done|]|].
    { split; [simpl; set_solver|]. apply Hone; simpl; [by intros p [= <-]..|].
      intros t Ht. rewrite !lookup_insert_ne by lia. by apply Hrest. }
    eapply rtc_l; [apply (sys_close _ _ _ 0 s); [done| |
      by apply bool_decide_eq_true; simpl; set_solver]|].
    { apply Hone; simpl; [by intros p [= <-]..|].
      intros t Ht. rewrite !lookup_insert_ne by lia. by apply Hrest. }
    eapply rtc_l; [apply (sys_closed _ _ _ 0 s); done|].
    eapply rtc_l; [apply (sys_deactivate _ _ _ 0 s); [apply lookup_insert_eq|]|].
    { simpl. unfold deactivateStreamUserCounter_locked. simpl.
      rewrite lookup_empty, lookup_insert_eq. reflexivity. }
    eapply rtc_l; [apply (sys_drain _ _ _ 0 s); [apply lookup_insert_eq|]|].
    { unfold waitStreamSmph. simpl. rewrite lookup_insert_eq. reflexivity. }
    eapply rtc_l; [eapply (sys_erase _ _ _ 0 s); [apply lookup_insert_eq|apply surjective_pairing]|].
    eapply rtc_l; [eapply (sys_deregister _ _ _ 0 s); [apply lookup_insert_eq|apply surjective_pairing]|].
    apply rtc_once. apply (sys_free _ _ _ 0 s). apply lookup_insert_eq.
  - done.
  - simpl. set_solver.
Qed.

(** ** Clients that guard the calls themselves *)

(** Calls that are not counted run on streams that are alive and nobody closes. *)
Definition calls_safe (w : System) : Prop :=
  ∀ t s, at_pc t (Unguarded s) w → s ∈ alive w ∧ one_closer s w.

Lemma calls_safe_step w t p p' st al :
  calls_safe w → at_pc t p w → owns p' = owns p ∨ owns p' = None →
  (∀ s, p' = Unguarded s → s ∈ alive w ∧ one_closer s w) →
  (∀ s, s ∈ alive w → owns p ≠ Some s → s ∈ al) →
  calls_safe (mkSystem st al (<[t := p']> (threads w))).
Proof.
  intros Hc Ht Ho Hp' Hal t1 s1 Ht1. unfold at_pc in Ht1; simpl in Ht1.
  assert (s1 ∈ alive w ∧ one_closer s1 w) as [Ha H1].
  { apply lookup_insert_Some in Ht1 as [[_ ?]|[_ Ht1]]; [by apply Hp'|by eapply Hc]. }
  pose proof (H1 t p Ht) as Hp. split; [by apply Hal|].
  intros t2 p2. unfold at_pc; simpl.
    intros [[_ <-]|[_ Ht2]]%lookup_insert_Some; [|by eapply H1].
  destruct Ho as [->| ->]; done.
Qed.

Lemma exclusive_step w w' :
  calls_safe w → sys_step stype exclusive_closer open_handle w w' →
  calls_safe w' ∧ sys_step stype one_closer open_handle w w'.
Proof.
  intros Hc Hs. destruct Hs as
    [t s w st Ht Hs Hr| | | | |t s w Ht [Ha H1]| |t s w Ht [H1 Hu] Ha| | | | | | |];
    (split; [|try by econstructor]).
  all: try (eapply calls_safe_step; [done|done|by (left + right)|done|set_solver]).
  - (* a stream is created at a fresh address *)
    intros t1 s1 Ht1. unfold at_pc in Ht1; simpl in Ht1.
    apply lookup_insert_Some in Ht1 as [[_ ?]|[_ Ht1]]; [done|].
    destruct (Hc t1 s1 Ht1) as [Ha H1]. split; [simpl; set_solver|].
    intros t2 p2. unfold at_pc; simpl.
    intros [[_ <-]|[_ Ht2]]%lookup_insert_Some; [|by eapply H1].
    simpl. intros [= ->]. done.
  - eapply calls_safe_step; [done|done|by right| |done]. by intros ? [= <-].
  - (* a stream nobody is in is closed *)
    intros t1 s1 Ht1. unfold at_pc in Ht1; simpl in Ht1.
    apply lookup_insert_Some in Ht1 as [[_ ?]|[_ Ht1]]; [done|].
    destruct (Hc t1 s1 Ht1) as [Ha1 H11]. split; [done|].
    intros t2 p2. unfold at_pc; simpl.
    intros [[_ <-]|[_ Ht2]]%lookup_insert_Some; [|by eapply H11].
    simpl. intros [= ->]. by apply (Hu t1).
Qed.

Lemma exclusive_reach n w :
  rtc (sys_step stype exclusive_closer open_handle) (sys_start n) w →
  calls_safe w ∧ rtc (sys_step stype one_closer open_handle) (sys_start n) w.
Proof.
  revert w. apply (rtc_ind_r (λ w, calls_safe w ∧ rtc _ (sys_start n) w)).
  - split; [|done]. intros t s Ht. unfold at_pc in Ht. simpl in Ht.
    by apply lookup_gset_to_gmap_Some in Ht as [_ ?].
  - intros w1 w2 _ Hs [Hc Hr]. destruct (exclusive_step _ _ Hc Hs).
    split; [done|]. by eapply rtc_r.
Qed.

End clients.

(** ** Closed examples *)

(** One thread opens the stream 1 and starts to close it. *)
Definition closing_one : System :=
  mkSystem (initStreamUserCounter 1 (registerStream 1 (Some 2) users_init).2).2
    {[1%positive]} {[0%nat := Closing 1]}.

Lemma closing_one_reachable :
  rtc (sys_step (λ _, 2) one_closer any_call) (sys_start 1) closing_one.
Proof.
  eapply rtc_l; [apply (sys_create _ _ _ 0 1); [done|set_solver|done]|].
  eapply rtc_l; [apply (sys_publish _ _ _ 0 1); [apply lookup_insert_eq|done]|].
  eapply rtc_l; [apply (sys_close _ _ _ 0 1); [apply lookup_insert_eq| |done]|].
  - intros t p. unfold at_pc. simpl. intros Ht.
    rewrite lookup_insert_Some in Ht. destruct Ht as [[_ <-]|[Hne Ht]]; [done|].
    rewrite lookup_insert_ne in Ht by done.
    by apply lookup_gset_to_gmap_Some in Ht as [_ <-].
  - match goal with |- rtc _ ?x ?y => assert (x = y) as ->; [|apply rtc_refl] end.
    vm_compute. reflexivity.
Qed.

Theorem streams_protected_witness :
  (1%positive : positive) ∈ alive closing_one ∧
  is_Some (increaseStreamUserCounter 1 (users closing_one)).
Proof.
  destruct (streams_protected (λ _, 2) any_call 1 closing_one eq_refl closing_one_reachable)
    as (H1&_&H3). split; [|apply H3]. apply (H1 0%nat (Closing 1)); reflexivity.
Defined.


(** One thread opens the stream 1 and is in a call that is not counted. *)
Definition calling_one : System :=
  mkSystem (users closing_one) {[1%positive]} {[0%nat := Unguarded 1]}.

Lemma calling_one_reachable :
  rtc (sys_step (λ _, 2) exclusive_closer open_handle) (sys_start 1) calling_one.
Proof.
  eapply rtc_l; [apply (sys_create _ _ _ 0 1); [done|set_solver|done]|].
  eapply rtc_l; [apply (sys_publish _ _ _ 0 1); [apply lookup_insert_eq|done]|].
  eapply rtc_l; [apply (sys_call _ _ _ 0 1); [apply lookup_insert_eq|]|].
  - split; [simpl; set_solver|]. intros t p. unfold at_pc. simpl.
    intros [[_ <-]|[Hne Ht]]%lookup_insert_Some; [done|].
    rewrite lookup_insert_ne in Ht by done.
    by apply lookup_gset_to_gmap_Some in Ht as [_ <-].
  - match goal with |- rtc _ ?x ?y => assert (x = y) as ->; [|apply rtc_refl] end.
    vm_compute. reflexivity.
Qed.

