(* ===== verification/Device.v ===== *)
(** * The device base class (device/src/Device.cpp)

    Every operation runs under [mDeviceMutex], so it is one function of the
    device's state.  What it does outside the object (sound driver mixer, audio
    route, resource manager) is the list of events it returns; the answers come
    from the environment class [DeviceEnv].  [None] is undefined behaviour or an
    exception.  The two counts, of type [int], are integers here: they grow by at most
    one per call, so they leave that type after 2^31 calls at the earliest
    ([device_counts_ok]). *)

From S2P Require Import Prelude PalDefs.

(** ** Environment *)

Record pal_device_info := mkDevInfo {
  priority : Z;
  channels_overwrite : bool;
  samplerate_overwrite : bool;
  sndDevName_overwrite : bool;
  bit_width_overwrite : bool;
}.

Record group_dev_hwep_config := mkGroup {
  grp_sample_rate : Z;
  grp_channels : Z;
  grp_aud_fmt_id : Z;
  grp_slot_mask : Z;
}.

(** The resource manager's answers, the virtual methods of the device's class,
    the driver's constants and the outcomes of the mixer library. *)
Class DeviceEnv := {
  getPALDeviceName : Z → string;
  getBackendName : Z → string;
  getAudioRoute : Z;
  getSndDeviceName : Z → Z * string;
  getVirtualAudioMixer : Z;
  getHwAudioMixer : Z;
  IsQmpEnabled : bool;
  getDeviceInfo : Z → Z → string → pal_device_info;
  getProxyChannels : Z;
  getActiveGroupDevConfig : option group_dev_hwep_config;
  IsVirtualPortForUPDEnabled : bool;
  IsI2sDualMonoEnabled : bool;
  is_multiple_sample_rate_combo_supported : bool;
  isPluginPlaybackDevice : Z → bool;
  isDpDevice : Z → bool;
  stream_type : positive → Z;
  isComboHeadsetActive : positive → bool;
  SNDRV_PCM_FORMAT_S8 : Z;
  SNDRV_PCM_FORMAT_S16_LE : Z;
  SNDRV_PCM_FORMAT_S24_LE : Z;
  SNDRV_PCM_FORMAT_S24_3LE : Z;
  SNDRV_PCM_FORMAT_S32_LE : Z;
  AGM_DATA_FORMAT_COMPR_OVER_PCM_PACKETIZED : Z;
  AGM_DATA_FORMAT_FIXED_POINT : Z;
  mixer_get_ctl_by_name : string → bool;
  mixer_ctl_set_array : string → list Z → Z;
  mixer_ctl_set_value : string → Z → Z → Z;
}.

(** What the code does outside the device object. *)
Inductive dev_event :=
  | EvSetArray (ctl : string) (vals : list Z)
  | EvSetValue (ctl : string) (val : Z)
  | EvGroupConfig (rate channels : Z)
  | EvHdrRoutine (key : string)
  | EvVoteSleepMonitor (vote : bool)
  | EvEnableDevice (snd : string)
  | EvDisableDevice (snd : string)
  | EvSetProxyChannels (n : Z)
  | EvUpdateSndName (id : Z) (name : string).

(** ** State *)

Record Device := mkDev {
  deviceAttr : pal_device;
  mPALDeviceName : string;
  deviceCount : Z;
  deviceStartStopCount : Z;
  mSndDeviceName : string;
  customPayload : option (list Z);
  customPayloadSize : Z;
  UpdatedSndName : string;
  mCurrentPriority : Z;
  mStreamDevAttr : list (Z * (positive * pal_device));
  mSampleRate : Z;
  mBitWidth : Z;
}.

Definition MIN_USECASE_PRIORITY : Z := 4294967295.
Definition DEFAULT_OUTPUT_SAMPLING_RATE : Z := 48000.
Definition DEFAULT_OUTPUT_CHANNEL : Z := 2.

(** [Device::Device(device, Rm)]. *)
Definition Device_new (device : pal_device) : Device :=
  mkDev device "" 0 0 "" None 0 "" MIN_USECASE_PRIORITY [] 0 0.

Definition set_deviceAttr (a : pal_device) (d : Device) : Device :=
  mkDev a (mPALDeviceName d) (deviceCount d) (deviceStartStopCount d)
    (mSndDeviceName d) (customPayload d) (customPayloadSize d) (UpdatedSndName d)
    (mCurrentPriority d) (mStreamDevAttr d) (mSampleRate d) (mBitWidth d).
Definition set_names (pal snd : string) (d : Device) : Device :=
  mkDev (deviceAttr d) pal (deviceCount d) (deviceStartStopCount d)
    snd (customPayload d) (customPayloadSize d) (UpdatedSndName d)
    (mCurrentPriority d) (mStreamDevAttr d) (mSampleRate d) (mBitWidth d).
Definition set_counts (n k : Z) (d : Device) : Device :=
  mkDev (deviceAttr d) (mPALDeviceName d) n k
    (mSndDeviceName d) (customPayload d) (customPayloadSize d) (UpdatedSndName d)
    (mCurrentPriority d) (mStreamDevAttr d) (mSampleRate d) (mBitWidth d).
Definition set_payload (p : option (list Z)) (size : Z) (d : Device) : Device :=
  mkDev (deviceAttr d) (mPALDeviceName d) (deviceCount d) (deviceStartStopCount d)
    (mSndDeviceName d) p size (UpdatedSndName d)
    (mCurrentPriority d) (mStreamDevAttr d) (mSampleRate d) (mBitWidth d).
Definition set_updated_priority (s : string) (prio : Z) (d : Device) : Device :=
  mkDev (deviceAttr d) (mPALDeviceName d) (deviceCount d) (deviceStartStopCount d)
    (mSndDeviceName d) (customPayload d) (customPayloadSize d) s
    prio (mStreamDevAttr d) (mSampleRate d) (mBitWidth d).
Definition set_mStreamDevAttr (l : list (Z * (positive * pal_device)))
    (d : Device) : Device :=
  mkDev (deviceAttr d) (mPALDeviceName d) (deviceCount d) (deviceStartStopCount d)
    (mSndDeviceName d) (customPayload d) (customPayloadSize d) (UpdatedSndName d)
    (mCurrentPriority d) l (mSampleRate d) (mBitWidth d).

Section operations.
Context `{!DeviceEnv}.

(** ** Formats and mixer controls *)

Definition palToSndDriverFormat (fmt_id : Z) : Z :=
  if decide (fmt_id = PAL_AUDIO_FMT_PCM_S32_LE) then SNDRV_PCM_FORMAT_S32_LE
  else if decide (fmt_id = PAL_AUDIO_FMT_PCM_S8) then SNDRV_PCM_FORMAT_S8
  else if decide (fmt_id = PAL_AUDIO_FMT_PCM_S24_3LE) then SNDRV_PCM_FORMAT_S24_3LE
  else if decide (fmt_id = PAL_AUDIO_FMT_PCM_S24_LE) then SNDRV_PCM_FORMAT_S24_LE
  else SNDRV_PCM_FORMAT_S16_LE.

Definition bitsToAlsaFormat (bits : Z) : Z :=
  if decide (bits = 32) then SNDRV_PCM_FORMAT_S32_LE
  else if decide (bits = 8) then SNDRV_PCM_FORMAT_S8
  else if decide (bits = 24) then SNDRV_PCM_FORMAT_S24_3LE
  else SNDRV_PCM_FORMAT_S16_LE.

(** The name of the control, when the mixer has it ([beCtrlNames]). *)
Definition BE_MEDIAFMT : string := " rate ch fmt".
Definition BE_SETPARAM : string := " setParam".
Definition BE_GROUP_ATTR : string := " grp config".

Definition getBeMixerControl (beName ctlName : string) : option string :=
  let cntrlName := String.append beName ctlName in
  if mixer_get_ctl_by_name cntrlName then Some cntrlName else None.

Definition setCustomPayload (backEndName : string) (payload : list Z)
    : Z * list dev_event :=
  if decide (getVirtualAudioMixer ≠ 0) then (getVirtualAudioMixer, [])
  else match getBeMixerControl backEndName BE_SETPARAM with
  | None => (- EINVAL, [])
  | Some ctl => (mixer_ctl_set_array ctl payload, [EvSetArray ctl payload])
  end.

(** [name.erase(name.end() - n, name.end())]; undefined on a shorter name. *)
Definition truncate_name (n : nat) (name : string) : option string :=
  if decide (n ≤ String.length name)%nat
  then Some (String.substring 0 (String.length name - n) name) else None.

(** The group attributes of a virtual port; [n] characters are cut off the name
    of the back end. *)
Definition set_group_attr (n : nat) (g : group_dev_hwep_config) (backEndName : string)
    (dAttr : pal_device) : option (Z * list dev_event) :=
  truncatedBeName ← truncate_name n backEndName;
  match getBeMixerControl truncatedBeName BE_GROUP_ATTR with
  | None => Some (- EINVAL, [])
  | Some ctl =>
      let rate := if decide (grp_sample_rate g = 0) then sample_rate (config dAttr)
                  else grp_sample_rate g in
      let ch := if decide (grp_channels g = 0) then channels (ch_info (config dAttr))
                else grp_channels g in
      Some (0, [EvSetArray ctl [rate; ch; palToSndDriverFormat (grp_aud_fmt_id g);
                                AGM_DATA_FORMAT_FIXED_POINT; grp_slot_mask g];
                EvGroupConfig rate ch])
  end.

Definition aif_media_config (dAttr : pal_device) : list Z :=
  let c := config dAttr in
  if isPalPCMFormat (aud_fmt_id c)
  then [sample_rate c; channels (ch_info c); palToSndDriverFormat (aud_fmt_id c);
        AGM_DATA_FORMAT_FIXED_POINT]
  else [sample_rate c; channels (ch_info c); bitsToAlsaFormat (bit_width c);
        AGM_DATA_FORMAT_COMPR_OVER_PCM_PACKETIZED].

Definition setMediaConfig (backEndName : string) (dAttr : pal_device)
    : option (Z * list dev_event) :=
  if decide (getVirtualAudioMixer ≠ 0) then Some (getVirtualAudioMixer, [])
  else
    '(status, evs) ←
      match getActiveGroupDevConfig with
      | Some g =>
          if decide (dev_id dAttr ∈ [PAL_DEVICE_OUT_SPEAKER; PAL_DEVICE_OUT_HANDSET;
                                     PAL_DEVICE_OUT_ULTRASOUND]
                     ∧ IsVirtualPortForUPDEnabled = true)
          then set_group_attr 7 g backEndName dAttr
          else if decide (dev_id dAttr ∈ [PAL_DEVICE_OUT_SPEAKER;
                                          PAL_DEVICE_OUT_HAPTICS_DEVICE]
                          ∧ IsI2sDualMonoEnabled = true)
          then set_group_attr 10 g backEndName dAttr
          else Some (0, [])
      | None => Some (0, [])
      end;
    if decide (status ≠ 0) then Some (status, evs)
    else match getBeMixerControl backEndName BE_MEDIAFMT with
    | None => Some (- EINVAL, evs)
    | Some ctl =>
        Some (mixer_ctl_set_array ctl (aif_media_config dAttr),
              evs ++ [EvSetArray ctl (aif_media_config dAttr)])
    end.

Definition configureDeviceClockSrc (mixerStrClockSrc : option string) (clockSrc : Z)
    : Z * list dev_event :=
  match mixerStrClockSrc with
  | None => (- EINVAL, [])
  | Some ctl =>
      if decide (getHwAudioMixer ≠ 0) then (getHwAudioMixer, [])
      else if mixer_get_ctl_by_name ctl
      then (mixer_ctl_set_value ctl 0 clockSrc, [EvSetValue ctl clockSrc])
      else (0, [])
  end.

(** ** Custom payload *)

(** [calloc]/[realloc] of [n] bytes succeed when [n] satisfies [alloc]; [fresh n]
    are the indeterminate bytes by which [realloc] grows a block. *)
Definition updateCustomPayload (alloc : Z → bool) (fresh : Z → list Z)
    (payload : list Z) (d : Device) : option (Z * Device) :=
  let size := zlen payload in
  let old := default [] (customPayload d) in
  let n := u64 (customPayloadSize d + size) in
  let block :=
    if decide (customPayloadSize d = 0)
    then if alloc size then Some (replicate (Z.to_nat size) 0) else None
    else if alloc n then Some (old ++ fresh (n - zlen old)) else None in
  match block with
  | None => Some (- ENOMEM, set_payload None (customPayloadSize d) d)
  | Some block =>
      block ← splice (customPayloadSize d) payload block;
      Some (0, set_payload (Some block) n d)
  end.

Definition freeCustomPayload (payload : option (list Z)) (payloadSize : Z)
    : Z * option (list Z) * Z :=
  match payload with
  | Some _ => (0, None, 0)
  | None => (0, None, payloadSize)
  end.

(** ** Open, close, start, stop *)

(** [strstr(key, "unprocessed-hdr-mic")]. *)
Definition hdr_key (key : string) : bool :=
  bool_decide (is_Some (String.index 0 "unprocessed-hdr-mic" key)).

Definition open (d : Device) : option (Z * Device * list dev_event) :=
  let id := dev_id (deviceAttr d) in
  let d := set_names (getPALDeviceName id) (mSndDeviceName d) d in
  if decide (deviceCount d = 0) then
    let backEndName := getBackendName id in
    '(_, ev1) ← if decide (backEndName = "") then Some (0, [])
                else setMediaConfig backEndName (deviceAttr d);
    if decide (getAudioRoute ≠ 0) then Some (getAudioRoute, d, ev1)
    else
      let '(status, snd) := getSndDeviceName id in
      let snd := if decide (UpdatedSndName d = "") then snd
                 else strlcpy (UpdatedSndName d) DEVICE_NAME_MAX_SIZE in
      let d := set_names (mPALDeviceName d) snd d in
      if decide (status ≠ 0) then Some (status, d, ev1)
      else
        let ev2 := if IsQmpEnabled && hdr_key (custom_key (deviceAttr d))
                   then [EvHdrRoutine (custom_key (deviceAttr d))] else [] in
        Some (status, set_counts (deviceCount d + 1) (deviceStartStopCount d) d,
              ev1 ++ ev2 ++ [EvVoteSleepMonitor true; EvEnableDevice snd;
                             EvVoteSleepMonitor false])
  else Some (0, set_counts (deviceCount d + 1) (deviceStartStopCount d) d, []).

Definition close (d : Device) : Z * Device * list dev_event :=
  if decide (0 < deviceCount d) then
    let d := set_counts (deviceCount d - 1) (deviceStartStopCount d) d in
    if decide (deviceCount d = 0) then
      let evs := EvDisableDevice (mSndDeviceName d) ::
                 (if decide (getProxyChannels ≠ 0) then [EvSetProxyChannels 0] else []) in
      let d := set_counts (deviceCount d) 0 d in
      let d := match customPayload d with
               | Some _ => set_payload None 0 d | None => d end in
      (0, set_updated_priority "" MIN_USECASE_PRIORITY d, evs)
    else (0, d, [])
  else (0, d, []).

(** [start_l] hands the mixer library a null pointer with a size when the size of
    the payload outlived it ([customPayload d] is [None]): undefined.

    The defaults for a plug-in device whose attributes were cleared by a
    disconnection; a channel map shorter than two is undefined. *)
Definition default_config (c : pal_media_config) : option pal_media_config :=
  let rate := if decide (sample_rate c = 0) then DEFAULT_OUTPUT_SAMPLING_RATE
              else sample_rate c in
  let bits := if decide (bit_width c = 0) then 16 else bit_width c in
  ch ← if decide (channels (ch_info c) = 0) then
         map ← splice 0 [1; 2] (ch_map (ch_info c));
         Some (mkChannels DEFAULT_OUTPUT_CHANNEL map)
       else Some (ch_info c);
  let fmt := if decide (aud_fmt_id c = 0) then PAL_AUDIO_FMT_PCM_S16_LE
             else aud_fmt_id c in
  Some (mkMedia rate bits fmt ch).

Definition set_config (c : pal_media_config) (a : pal_device) : pal_device :=
  mkDevice (dev_id a) c (dev_address a) (sndDevName a) (custom_key a) (addressV1 a).

Definition start_l (d : Device) : option (Z * Device * list dev_event) :=
  if decide (deviceStartStopCount d = 0) then
    let id := dev_id (deviceAttr d) in
    let backEndName := getBackendName id in
    if decide (backEndName = "") then Some (- EINVAL, d, [])
    else
      c ← if isPluginPlaybackDevice id || isDpDevice id
          then default_config (config (deviceAttr d)) else Some (config (deviceAttr d));
      let d := set_deviceAttr (set_config c (deviceAttr d)) d in
      '(_, ev1) ← setMediaConfig backEndName (deviceAttr d);
      '(status, ev2) ←
        if decide (customPayloadSize d = 0) then Some (0, [])
        else p ← customPayload d; Some (setCustomPayload backEndName p);
      Some (status, set_counts (deviceCount d) (deviceStartStopCount d + 1) d, ev1 ++ ev2)
  else Some (0, set_counts (deviceCount d) (deviceStartStopCount d + 1) d, []).

Definition stop_l (d : Device) : Z * Device :=
  if decide (0 < deviceStartStopCount d)
  then (0, set_counts (deviceCount d) (deviceStartStopCount d - 1) d)
  else (0, d).

Definition getDeviceCount (d : Device) : Z := deviceCount d.

Definition setDeviceAttributes (dattr : pal_device) (d : Device) : Z * Device :=
  (0, set_deviceAttr dattr d).

(** ** Attributes per stream, by priority *)

(** The four null checks are the [None]s. *)
Definition compareStreamDevAttr (inDevAttr : option pal_device)
    (inDevInfo : option pal_device_info) (curDevAttr : option pal_device)
    (curDevInfo : option pal_device_info) : bool :=
  match inDevAttr, inDevInfo, curDevAttr, curDevInfo with
  | Some a, Some i, Some b, Some c =>
    let a := config a in let b := config b in
    if sndDevName_overwrite i && negb (sndDevName_overwrite c) then true
    else if channels_overwrite i && negb (channels_overwrite c) then true
    else if Bool.eqb (channels_overwrite i) (channels_overwrite c)
            && (channels (ch_info b) <? channels (ch_info a)) then true
    else if samplerate_overwrite i && negb (samplerate_overwrite c) then true
    else if samplerate_overwrite i && samplerate_overwrite c
            && (sample_rate b <? sample_rate a) then true
    else if negb (samplerate_overwrite i) && negb (samplerate_overwrite c)
            && ((sample_rate a mod 44100 =? 0) && negb (sample_rate b mod 44100 =? 0))
    then true
    else if negb (samplerate_overwrite i) && negb (samplerate_overwrite c)
            && (sample_rate b <? sample_rate a)
            && negb ((sample_rate b mod 44100 =? 0) && (sample_rate a mod 48000 =? 0))
    then true
    else if bit_width_overwrite i && negb (bit_width_overwrite c) then
      isPalPCMFormat (aud_fmt_id a)
    else if Bool.eqb (bit_width_overwrite i) (bit_width_overwrite c) then
      isPalPCMFormat (aud_fmt_id a) && (bit_width b <? bit_width a)
    else false
  | _, _, _, _ => false
  end.

Definition dev_info_of (s : positive) (a : pal_device) : pal_device_info :=
  getDeviceInfo (dev_id a) (stream_type s) (custom_key a).

(** The loop over the multimap; inserting with a hint puts the entry just
    before it. *)
Fixpoint insert_loop (prio : Z) (s : positive) (a : pal_device)
    (l : list (Z * (positive * pal_device))) : list (Z * (positive * pal_device)) :=
  match l with
  | [] => [(prio, (s, a))]
  | (p, (s', a')) :: l' =>
      if decide (prio < p) then (prio, (s, a)) :: l
      else if decide (prio = p
                 ∧ (compareStreamDevAttr (Some a) (Some (dev_info_of s a)) (Some a')
                      (Some (dev_info_of s' a')) = true
                    ∨ (isComboHeadsetActive s = true
                       ∧ is_multiple_sample_rate_combo_supported = false)))
      then (prio, (s, a)) :: l
      else (p, (s', a')) :: insert_loop prio s a l'
  end.

Definition insertStreamDeviceAttr (alloc_ok : bool) (inDevAttr : option pal_device)
    (streamHandle : option positive) (d : Device) : Z * Device :=
  match streamHandle, inDevAttr with
  | None, _ | _, None => (- EINVAL, d)
  | Some s, Some a =>
      if alloc_ok then
        (0, set_mStreamDevAttr
              (insert_loop (priority (dev_info_of s a)) s a (mStreamDevAttr d)) d)
      else (- ENOMEM, d)
  end.

Fixpoint remove_loop (s : positive) (l : list (Z * (positive * pal_device)))
    : list (Z * (positive * pal_device)) :=
  match l with
  | [] => []
  | (p, (s', a')) :: l => if decide (s' = s) then l else (p, (s', a')) :: remove_loop s l
  end.

Definition removeStreamDeviceAttr (s : positive) (d : Device) : Device :=
  set_mStreamDevAttr (remove_loop s (mStreamDevAttr d)) d.

(** [bitWidthToFormat.at(bitWidth)] throws for other widths. *)
Definition getAudioFmt (bitWidth : Z) : option Z :=
  if decide (bitWidth = 16) then Some PAL_AUDIO_FMT_PCM_S16_LE
  else if decide (bitWidth = 24) then Some PAL_AUDIO_FMT_PCM_S24_LE
  else if decide (bitWidth = 32) then Some PAL_AUDIO_FMT_PCM_S32_LE
  else None.

Definition getTopPriorityDeviceAttr (d : Device)
    : option (Z * option (pal_device * Z) * list dev_event) :=
  match mStreamDevAttr d with
  | [] => Some (- EINVAL, None, [])
  | (prio, (_, a)) :: _ =>
      let c := config a in
      let rate := if decide (mSampleRate d = 0) then sample_rate c else mSampleRate d in
      '(bits, fmt) ← if decide (mBitWidth d = 0) then Some (bit_width c, aud_fmt_id c)
                     else f ← getAudioFmt (mBitWidth d); Some (mBitWidth d, f);
      Some (0, Some (set_config (mkMedia rate bits fmt (ch_info c)) a, prio),
            [EvUpdateSndName (dev_id a) (sndDevName a)])
  end.

(** The attributes of the device, with the custom key of [streamHandle]'s entry
    when one is asked for. *)
Definition getDeviceAttributes (want : bool) (streamHandle : option positive)
    (d : Device) : Z * option pal_device :=
  if want then
    let a := deviceAttr d in
    match streamHandle with
    | None => (0, Some a)
    | Some s =>
        match list_find (λ x, x.2.1 = s) (mStreamDevAttr d) with
        | Some (_, (_, (_, b))) =>
            (0, Some (mkDevice (dev_id a) (config a) (dev_address a) (sndDevName a)
                       (strlcpy (custom_key b) PAL_MAX_CUSTOM_KEY_SIZE) (addressV1 a)))
        | None => (0, Some a)
        end
    end
  else (- EINVAL, None).
End operations.
