(* ===== verification/DeviceFacts.v ===== *)
(** * Devices: use counts, attribute ranking, custom payload *)

From S2P Require Import Prelude PalDefs Device.

(** ** Use counts and the hardware

    [enables] counts how often a trace of events switched the sound device on
    less how often it switched it off. *)

Definition enables (tr : list dev_event) : Z :=
  foldr (λ e n, match e with
                | EvEnableDevice _ => n + 1 | EvDisableDevice _ => n - 1 | _ => n end)
    0 tr.

Lemma enables_app tr tr' : enables (tr ++ tr') = enables tr + enables tr'.
Proof. induction tr as [|[] tr IH]; simpl; lia. Qed.

Section counts.
Context `{Henv : !DeviceEnv}.

Lemma set_group_attr_quiet n g be a st evs :
  set_group_attr n g be a = Some (st, evs) → enables evs = 0.
Proof.
  unfold set_group_attr. destruct (truncate_name n be); simpl; [|done].
  destruct (getBeMixerControl _ _); intros [= <- <-]; done.
Qed.

Lemma setMediaConfig_quiet be a st evs :
  setMediaConfig be a = Some (st, evs) → enables evs = 0.
Proof.
  unfold setMediaConfig. case_decide; [by intros [= <- <-]|].
  assert (∀ o : option (Z * list dev_event),
    (∀ st evs, o = Some (st, evs) → enables evs = 0) →
    ('(status, evs) ← o; if decide (status ≠ 0) then Some (status, evs)
      else match getBeMixerControl be BE_MEDIAFMT with
      | None => Some (- EINVAL, evs)
      | Some ctl => Some (mixer_ctl_set_array ctl (aif_media_config a),
                          evs ++ [EvSetArray ctl (aif_media_config a)]) end)
      = Some (st, evs) → enables evs = 0) as Hrest.
  { intros [[st1 evs1]|] Ho; [|done]. specialize (Ho _ _ eq_refl). simpl.
    destruct (decide (st1 ≠ 0)); [intros [= <- <-]; done|].
    destruct (getBeMixerControl _ _); intros [= <- <-]; [|done].
    rewrite enables_app. simpl. lia. }
  apply Hrest. intros st1 evs1.
  destruct getActiveGroupDevConfig as [g|]; [|by intros [= <- <-]].
  repeat case_decide; [apply set_group_attr_quiet..|by intros [= <- <-]].
Qed.

Lemma setCustomPayload_quiet be p st evs :
  setCustomPayload be p = (st, evs) → enables evs = 0.
Proof.
  unfold setCustomPayload. case_decide; [by intros [= <- <-]|].
  destruct (getBeMixerControl _ _); by intros [= <- <-].
Qed.

(** [open] on each of its branches. *)
Lemma open_spec d st d' evs :
  open d = Some (st, d', evs) →
  deviceStartStopCount d' = deviceStartStopCount d ∧
  (st ≠ 0 ∧ deviceCount d = 0 ∧ deviceCount d' = 0 ∧ enables evs = 0 ∨
   st = 0 ∧ deviceCount d' = deviceCount d + 1 ∧
   enables evs = if decide (deviceCount d = 0) then 1 else 0).
Proof.
  unfold open. cbn [deviceCount set_names]. destruct (decide (deviceCount d = 0)) as [H0|].
  2:{ intros [= <- <- <-]. split; [done|]. right. done. }
  set (o := if decide (_ = "") then Some (0, []) else _).
  assert (∀ x ev1, o = Some (x, ev1) → enables ev1 = 0) as Ho.
  { intros x ev1. unfold o. case_decide; [by intros [= <- <-]|apply setMediaConfig_quiet]. }
  destruct o as [[x ev1]|]; [|done]. specialize (Ho _ _ eq_refl). simpl.
  case_decide; [intros [= <- <- <-]; split; [done|]; left; done|].
  destruct (getSndDeviceName _) as [status snd].
  destruct (decide (status ≠ 0)) as [Hs|Hs]; intros [= <- <- <-]; (split; [done|]).
  - left. done.
  - right. apply dec_stable in Hs. split; [done|]. split; [done|].
    rewrite !enables_app, Ho. by destruct (_ && _).
Qed.

Lemma close_spec d :
  ∃ d' evs, close d = (0, d', evs) ∧
    deviceCount d' = (if decide (0 < deviceCount d) then deviceCount d - 1
                      else deviceCount d) ∧
    (deviceStartStopCount d' = deviceStartStopCount d ∨ deviceStartStopCount d' = 0) ∧
    enables evs = if decide (deviceCount d = 1) then -1 else 0.
Proof.
  unfold close. destruct (decide (0 < deviceCount d)) as [Hpos|].
  2:{ eexists _, _. split; [done|]. split; [done|]. split; [by left|].
      by rewrite decide_False by lia. }
  cbn [deviceCount set_counts]. case_decide.
  - rewrite (decide_True (P := deviceCount d = 1)) by lia.
    eexists _, _. split; [done|]. split; [by destruct (customPayload _)|].
    split; [right; by destruct (customPayload _)|]. by case_decide.
  - rewrite (decide_False (P := deviceCount d = 1)) by lia.
    eexists _, _. split; [done|]. split; [done|]. split; [by left|done].
Qed.

Lemma start_spec d st d' evs :
  start_l d = Some (st, d', evs) →
  deviceCount d' = deviceCount d ∧ enables evs = 0 ∧
  (deviceStartStopCount d' = deviceStartStopCount d ∨
   deviceStartStopCount d' = deviceStartStopCount d + 1).
Proof.
  unfold start_l. case_decide; [|intros [= <- <- <-]; naive_solver].
  case_decide; [intros [= <- <- <-]; naive_solver|].
  destruct (if _ || _ then _ else _) as [c|]; [|done]. simpl.
  destruct (setMediaConfig _ _) as [[x ev1]|] eqn:E1; [|done]. simpl.
  apply setMediaConfig_quiet in E1.
  assert (∀ r ev2, (if decide (customPayloadSize d = 0) then Some (0, [])
    else p ← customPayload d; Some (setCustomPayload (getBackendName (dev_id (deviceAttr d))) p))
      = Some (r, ev2) → enables ev2 = 0) as Hq.
  { intros r ev2. case_decide; [by intros [= <- <-]|].
    destruct (customPayload d) as [p|]; simpl; [|done].
    intros [= Hset]. by eapply setCustomPayload_quiet. }
  destruct (if decide (customPayloadSize d = 0) then _ else _) as [[r ev2]|]; [|done].
  specialize (Hq _ _ eq_refl). simpl. intros [= <- <- <-]. rewrite enables_app.
  split; [done|]. split; [lia|by right].
Qed.

(** The calls of the streams, in any order, with the events so far. *)
Inductive dev_step : Device * list dev_event → Device * list dev_event → Prop :=
  | dev_open d d' tr st evs :
      open d = Some (st, d', evs) → dev_step (d, tr) (d', tr ++ evs)
  | dev_close d d' tr st evs :
      close d = (st, d', evs) → dev_step (d, tr) (d', tr ++ evs)
  | dev_start d d' tr st evs :
      start_l d = Some (st, d', evs) → dev_step (d, tr) (d', tr ++ evs)
  | dev_stop d d' tr st :
      stop_l d = (st, d') → dev_step (d, tr) (d', tr)
  | dev_attr d d' tr st a :
      setDeviceAttributes a d = (st, d') → dev_step (d, tr) (d', tr)
  | dev_insert d d' tr st ok a s :
      insertStreamDeviceAttr ok a s d = (st, d') → dev_step (d, tr) (d', tr)
  | dev_remove d tr s :
      dev_step (d, tr) (removeStreamDeviceAttr s d, tr)
  | dev_payload d d' tr st alloc fresh p :
      updateCustomPayload alloc fresh p d = Some (st, d') → dev_step (d, tr) (d', tr).

(** The counts after at most [n] calls. *)
Definition counts_ok (n : Z) (x : Device * list dev_event) : Prop :=
  0 ≤ deviceCount x.1 ≤ n ∧ 0 ≤ deviceStartStopCount x.1 ≤ n ∧
  enables x.2 = if decide (deviceCount x.1 = 0) then 0 else 1.

Lemma counts_same n d d' tr :
  counts_ok n (d, tr) → deviceCount d' = deviceCount d →
  deviceStartStopCount d' = deviceStartStopCount d → counts_ok (n + 1) (d', tr).
Proof. unfold counts_ok; simpl. intros (?&?&?) -> ->. split_and!; done || lia. Qed.

Lemma dev_step_ok n x x' : counts_ok n x → dev_step x x' → counts_ok (n + 1) x'.
Proof.
  intros Hok Hs. destruct Hs as [d d' tr st evs H|d d' tr st evs H|d d' tr st evs H|
    d d' tr st H|d d' tr st a H|d d' tr st ok a s H|d tr s|d d' tr st alloc fresh p H].
  - destruct Hok as (?&?&He). simpl in *. pose proof (open_spec _ _ _ _ H) as [Hk Ho].
    unfold counts_ok; simpl. rewrite enables_app, He.
    destruct Ho as [(_&?&?&->)|(_&?&->)]; repeat case_decide; lia.
  - destruct Hok as (?&?&He). simpl in *. destruct (close_spec d) as (d2&ev2&Hc&Hn&Hk&Hen).
    rewrite H in Hc. simplify_eq. unfold counts_ok; simpl. rewrite enables_app, He, Hn, Hen.
    repeat case_decide; lia.
  - destruct Hok as (?&?&He). simpl in *. pose proof (start_spec _ _ _ _ H) as (Hn&Hen&Hk).
    unfold counts_ok; simpl. rewrite enables_app, He, Hn, Hen.
    repeat case_decide; lia.
  - destruct Hok as (?&?&?). unfold stop_l in H. case_decide; simplify_eq;
      unfold counts_ok in *; simpl in *; split_and!; done || lia.
  - unfold setDeviceAttributes in H. simplify_eq. by eapply counts_same.
  - unfold insertStreamDeviceAttr in H.
    destruct s, a, ok; simplify_eq; by eapply counts_same.
  - by eapply counts_same.
  - unfold updateCustomPayload in H. destruct (if decide _ then _ else _) as [b|].
    + destruct (splice _ p b); simplify_eq/=. by eapply counts_same.
    + simplify_eq. by eapply counts_same.
Qed.
End counts.

(** A call in some state of the hardware, the resource manager and the other devices. *)
Definition any_step (x x' : Device * list dev_event) : Prop :=
  ∃ env : DeviceEnv, dev_step (Henv := env) x x'.

(** C40: Whatever the streams call on a device, in whatever order and whatever the
    hardware and the resource manager answer, which may differ from call to call: after
    [n] calls both counts are between 0 and [n] (so for fewer than 2^31 calls they
    stay in the [int] they are kept in), the sound device is on exactly while the use
    count is positive (switched on by the first successful open and off by the last
    close, never twice), and a failed open leaves the count unchanged and the device
    off. *)
Theorem device_counts_ok a n x :
  nsteps any_step n (Device_new a, []) x →
  counts_ok (Z.of_nat n) x ∧
  ∀ (env : DeviceEnv) st d' evs, open (H := env) x.1 = Some (st, d', evs) → st ≠ 0 →
    deviceCount d' = deviceCount x.1 ∧ enables (x.2 ++ evs) = 0.
Proof.
  intros Hr. assert (counts_ok (Z.of_nat n) x) as Hok.
  { remember (Device_new a, []) as x0 eqn:Hx. assert (counts_ok 0 x0) as H0 by by rewrite Hx.
    clear Hx. change 0 with (Z.of_nat 0) in H0. replace n with (n + 0)%nat by lia.
    revert H0. generalize 0%nat. induction Hr as [x|n x y z [env Hs] _ IH]; intros k H0; [done|].
    replace (S n + k)%nat with (n + S k)%nat by lia. apply IH.
    replace (Z.of_nat (S k)) with (Z.of_nat k + 1) by lia. by eapply dev_step_ok. }
  split; [done|]. intros env st d' evs Ho Hst. destruct Hok as (_&_&He).
  destruct (open_spec _ _ _ _ Ho) as [_ [(_&H0&->&Hev)|(?&_)]]; [|done].
  rewrite decide_True in He by done. rewrite enables_app, He, Hev. by split.
Qed.

Section payload_start.
Context `{Henv : !DeviceEnv}.

(** [start_l] counts a start whose custom payload the driver refused: the
    error is returned, the start count goes up all the same, and the next start
    does not configure the device again. *)
Theorem start_counts_failure d be c p :
  deviceStartStopCount d = 0 → customPayload d = Some p → customPayloadSize d ≠ 0 →
  getBackendName (dev_id (deviceAttr d)) = be → be ≠ "" →
  isPluginPlaybackDevice (dev_id (deviceAttr d)) = false →
  isDpDevice (dev_id (deviceAttr d)) = false →
  setMediaConfig be (deviceAttr d) = Some c → fst (setCustomPayload be p) ≠ 0 →
  ∃ st d' evs, start_l d = Some (st, d', evs) ∧ st ≠ 0 ∧ deviceStartStopCount d' = 1 ∧
    start_l d' = Some (0, set_counts (deviceCount d') 2 d', []).
Proof.
  intros H0 Hp Hsz Hbe Hne Hpl Hdp Hm Hf. unfold start_l at 1.
  rewrite decide_True, Hbe, decide_False, Hpl, Hdp by done. simpl.
  assert (set_config (config (deviceAttr d)) (deviceAttr d) = deviceAttr d) as ->
    by by destruct (deviceAttr d).
  rewrite Hm. destruct c as [r ev1]. simpl. rewrite decide_False by done. rewrite Hp.
  simpl. destruct (setCustomPayload be p) as [st ev2]. simpl in Hf.
  eexists _, _, _. split; [done|]. split; [done|]. split; [simpl; lia|].
  unfold start_l. simpl. rewrite decide_False by lia.
  by replace (deviceStartStopCount d + 1 + 1) with 2 by lia.
Qed.
End payload_start.

(** ** The ranking of the streams' attributes *)

Section ranking.
Context `{Henv : !DeviceEnv}.

Definition ranked (d : Device) : Prop := StronglySorted Z.le (mStreamDevAttr d).*1.
Definition streams_of (d : Device) : list positive := (mStreamDevAttr d).*2.*1.

Lemma insert_loop_perm prio s a l : insert_loop prio s a l ≡ₚ (prio, (s, a)) :: l.
Proof.
  induction l as [|[p [s' a']] l IH]; simpl; [done|]. repeat case_decide; try done.
  rewrite IH. by apply Permutation_swap.
Qed.

Lemma insert_loop_sorted prio s a l :
  StronglySorted Z.le l.*1 → StronglySorted Z.le (insert_loop prio s a l).*1.
Proof.
  induction l as [|[p [s' a']] l IH]; simpl; intros Hs; [by repeat constructor|].
  inversion Hs as [|?? Hl Hp]; subst. repeat case_decide; simpl; constructor; try done.
  - constructor; [lia|]. eapply Forall_impl; [exact Hp|]. simpl. lia.
  - constructor; [lia|]. eapply Forall_impl; [exact Hp|]. simpl. lia.
  - by apply IH.
  - rewrite (fmap_Permutation fst _ _ (insert_loop_perm prio s a l)). simpl.
    constructor; [lia|done].
Qed.

Lemma remove_insert_loop prio s a l :
  s ∉ l.*2.*1 → remove_loop s (insert_loop prio s a l) = l.
Proof.
  induction l as [|[p [s' a']] l IH]; simpl; [by rewrite decide_True by done|].
  rewrite not_elem_of_cons. intros [? ?].
  repeat case_decide; simpl; rewrite ?decide_True by done; try done.
  rewrite decide_False by done. by rewrite IH.
Qed.

(** inserting a stream's attributes keeps the entries sorted by priority,
    adds exactly that entry under the priority the configuration gives it, and
    removing the stream again restores the device. *)
Theorem insert_keeps_ranking a s d :
  ranked d → s ∉ streams_of d →
  ∃ d', insertStreamDeviceAttr true (Some a) (Some s) d = (0, d') ∧ ranked d' ∧
    mStreamDevAttr d' ≡ₚ (priority (dev_info_of s a), (s, a)) :: mStreamDevAttr d ∧
    removeStreamDeviceAttr s d' = d.
Proof.
  intros Hr Hs. eexists. split; [done|]. split; [|split].
  - by apply insert_loop_sorted.
  - apply insert_loop_perm.
  - unfold removeStreamDeviceAttr. simpl. rewrite remove_insert_loop by done.
    by destruct d.
Qed.

(** [getTopPriorityDeviceAttr] answers with an entry that no entry precedes,
    at the rate and width forced on the device if there are any; a forced width
    other than 16, 24 and 32 makes [std::map::at] throw, with the device's
    mutex held. *)
Theorem top_priority_spec d :
  ranked d → mStreamDevAttr d ≠ [] →
  ∃ prio s a, (prio, (s, a)) ∈ mStreamDevAttr d ∧
    (∀ x, x ∈ mStreamDevAttr d → prio ≤ x.1) ∧
    match getTopPriorityDeviceAttr d with
    | Some (st, Some (a', prio'), evs) =>
        st = 0 ∧ prio' = prio ∧ dev_id a' = dev_id a ∧
        ch_info (config a') = ch_info (config a) ∧
        sample_rate (config a') =
          (if decide (mSampleRate d = 0) then sample_rate (config a) else mSampleRate d) ∧
        (mBitWidth d = 0 → bit_width (config a') = bit_width (config a) ∧
                           aud_fmt_id (config a') = aud_fmt_id (config a)) ∧
        (mBitWidth d ≠ 0 → bit_width (config a') = mBitWidth d ∧
                           isPalPCMFormat (aud_fmt_id (config a')) = true)
    | Some (_, None, _) => False
    | None => mBitWidth d ∉ [0; 16; 24; 32]
    end.
Proof.
  unfold ranked, getTopPriorityDeviceAttr.
  destruct (mStreamDevAttr d) as [|[prio [s a]] l]; [done|]. intros Hs _.
  inversion Hs as [|?? _ Hp]; subst.
  exists prio, s, a. split; [by left|]. split.
  { intros x [->|Hx]%elem_of_cons; [done|]. rewrite Forall_fmap, Forall_forall in Hp.
    by apply Hp. }
  destruct (decide (mBitWidth d = 0)) as [H0|H0]; simpl; [naive_solver|].
  unfold getAudioFmt.
  repeat case_decide; simpl; try (split_and!; try done; intros; lia || done).
  all: rewrite !not_elem_of_cons; split_and!; done || apply not_elem_of_nil.
Qed.

(** The configuration of a stream without overwrites. *)
Definition plain_info (i : pal_device_info) : Prop :=
  channels_overwrite i = false ∧ samplerate_overwrite i = false ∧
  sndDevName_overwrite i = false ∧ bit_width_overwrite i = false.

Lemma compare_channels a b i c :
  plain_info i → plain_info c →
  channels (ch_info (config b)) < channels (ch_info (config a)) →
  compareStreamDevAttr (Some a) (Some i) (Some b) (Some c) = true.
Proof.
  intros (H1&H2&H3&H4) (H5&H6&H7&H8) Hch. unfold compareStreamDevAttr.
  rewrite H1, H3, H5. simpl. by apply Z.ltb_lt in Hch as ->.
Qed.

Lemma compare_rate a b i c :
  plain_info i → plain_info c →
  sample_rate (config b) < sample_rate (config a) →
  sample_rate (config b) mod 44100 ≠ 0 →
  compareStreamDevAttr (Some a) (Some i) (Some b) (Some c) = true.
Proof.
  intros (H1&H2&H3&H4) (H5&H6&H7&H8) Hr H44. unfold compareStreamDevAttr.
  rewrite H1, H2, H3, H5, H6. simpl. apply Z.ltb_lt in Hr as ->.
  apply Z.eqb_neq in H44 as ->. simpl. by repeat case_match.
Qed.

(** The ranking of equal priorities is not an order: of two streams, one
    with more channels and one with a higher rate, each outranks the other, so
    the attributes the device ends up with are those of the stream that came
    last. *)
Theorem ranking_depends_on_order a1 a2 s1 s2 d :
  s1 ≠ s2 → mStreamDevAttr d = [] →
  plain_info (dev_info_of s1 a1) → plain_info (dev_info_of s2 a2) →
  priority (dev_info_of s1 a1) = priority (dev_info_of s2 a2) →
  channels (ch_info (config a2)) < channels (ch_info (config a1)) →
  sample_rate (config a1) < sample_rate (config a2) →
  sample_rate (config a1) mod 44100 ≠ 0 →
  let put a s d := (insertStreamDeviceAttr true (Some a) (Some s) d).2 in
  head (mStreamDevAttr (put a2 s2 (put a1 s1 d))) =
    Some (priority (dev_info_of s2 a2), (s2, a2)) ∧
  head (mStreamDevAttr (put a1 s1 (put a2 s2 d))) =
    Some (priority (dev_info_of s1 a1), (s1, a1)).
Proof.
  intros Hne H0 Hi1 Hi2 Hprio Hch Hr H44 put. unfold put; simpl. rewrite H0. simpl.
  rewrite Hprio. set (prio := priority (dev_info_of s2 a2)).
  assert (¬ prio < prio) by lia. split.
  - rewrite (decide_False (P := prio < prio)), decide_True by (done ||
      (split; [done|]; left; by apply compare_rate)). done.
  - rewrite (decide_False (P := prio < prio)), decide_True by (done ||
      (split; [done|]; left; by apply compare_channels)). done.
Qed.
End ranking.

(** ** The custom payload *)

Section payload.
Context `{Henv : !DeviceEnv}.

(** The block and its size agree. *)
Definition payload_ok (d : Device) : Prop :=
  customPayloadSize d = zlen (default [] (customPayload d)).

(** [updateCustomPayload] appends the bytes to the payload and keeps block
    and size in agreement; when memory runs out the payload is gone but its size
    stays, and the next start of the device gives the driver a null pointer with
    that size. *)
Theorem updateCustomPayload_spec alloc fresh p d be evs :
  payload_ok d → zlen p + customPayloadSize d < 2 ^ 64 →
  (∀ n, 0 ≤ n → zlen (fresh n) = n) →
  let n := customPayloadSize d + zlen p in
  (alloc n = true → ∃ d', updateCustomPayload alloc fresh p d = Some (0, d') ∧
     customPayload d' = Some (default [] (customPayload d) ++ p) ∧ payload_ok d') ∧
  (alloc n = false → customPayloadSize d ≠ 0 →
     ∃ d', updateCustomPayload alloc fresh p d = Some (- ENOMEM, d') ∧ ¬ payload_ok d' ∧
       (deviceStartStopCount d = 0 → getBackendName (dev_id (deviceAttr d)) = be →
        be ≠ "" → isPluginPlaybackDevice (dev_id (deviceAttr d)) = false →
        isDpDevice (dev_id (deviceAttr d)) = false →
        setMediaConfig be (deviceAttr d) = Some evs → start_l d' = None)).
Proof.
  intros Hok Hn Hfresh n. pose proof (zlen_nonneg p).
  pose proof (zlen_nonneg (default [] (customPayload d))). unfold payload_ok in Hok.
  unfold updateCustomPayload. rewrite u64_small by lia. fold n. split.
  - intros Ha. destruct (decide (customPayloadSize d = 0)) as [Hz|Hz].
    + assert (default [] (customPayload d) = []) as ->.
      { apply length_zero_iff_nil. unfold zlen in *. lia. }
      replace (zlen p) with n by lia. rewrite Ha, Hz.
      unfold splice. rewrite decide_True by (unfold zlen in *; rewrite length_replicate; lia).
      simpl. rewrite drop_ge by (rewrite length_replicate; unfold zlen in *; lia).
      rewrite app_nil_r. eexists. split; [done|]. split; [done|].
      unfold payload_ok. simpl. lia.
    + rewrite Ha, Hok. unfold splice. rewrite decide_True
        by (rewrite zlen_app, Hfresh by lia; lia).
      unfold zlen at 1. rewrite Nat2Z.id, take_app_length.
      rewrite drop_ge, app_nil_r.
      2:{ specialize (Hfresh (n - zlen (default [] (customPayload d))) ltac:(lia)).
          rewrite length_app. unfold zlen in *. lia. }
      simpl. eexists. split; [done|]. split; [done|].
      unfold payload_ok. simpl. rewrite zlen_app. lia.
  - intros Ha Hz. rewrite decide_False, Ha by done. eexists. split; [done|].
    split; [unfold payload_ok; simpl; done|].
    intros Hk Hbe Hne Hpl Hdp Hm. unfold start_l. simpl.
    rewrite decide_True, Hbe, decide_False, Hpl, Hdp by done. simpl.
    assert (set_config (config (deviceAttr d)) (deviceAttr d) = deviceAttr d) as ->
      by by destruct (deviceAttr d).
    rewrite Hm. destruct evs as [st evs]. simpl. by rewrite decide_False.
Qed.
End payload.

(** ** Closed examples *)

Module device_examples.
#[export] Instance env : DeviceEnv := {|
  getPALDeviceName := λ _, "speaker"; getBackendName := λ _, "WSA-RX-0";
  getAudioRoute := 0; getSndDeviceName := λ _, (0, "wsa-speaker");
  getVirtualAudioMixer := 0; getHwAudioMixer := 0; IsQmpEnabled := false;
  getDeviceInfo := λ _ t _, mkDevInfo 8 false false false false;
  getProxyChannels := 0; getActiveGroupDevConfig := None;
  IsVirtualPortForUPDEnabled := false; IsI2sDualMonoEnabled := false;
  is_multiple_sample_rate_combo_supported := true;
  isPluginPlaybackDevice := λ _, false; isDpDevice := λ _, false;
  stream_type := λ _, PAL_STREAM_DEEP_BUFFER; isComboHeadsetActive := λ _, false;
  SNDRV_PCM_FORMAT_S8 := 0; SNDRV_PCM_FORMAT_S16_LE := 2; SNDRV_PCM_FORMAT_S24_LE := 6;
  SNDRV_PCM_FORMAT_S24_3LE := 32; SNDRV_PCM_FORMAT_S32_LE := 10;
  AGM_DATA_FORMAT_COMPR_OVER_PCM_PACKETIZED := 2; AGM_DATA_FORMAT_FIXED_POINT := 1;
  mixer_get_ctl_by_name := λ _, true;
  mixer_ctl_set_array := λ ctl vals, if decide (length vals = 3%nat) then - EINVAL else 0;
  mixer_ctl_set_value := λ _ _ _, 0 |}.

Definition speaker (ch rate : Z) : pal_device :=
  mkDevice PAL_DEVICE_OUT_SPEAKER (mkMedia rate 16 1 (mkChannels ch [1; 2]))
    (mkUsb 0 0) "" "" [].
Definition d0 : Device := Device_new (speaker 2 48000).
Definition d_payload : Device := set_payload (Some [1; 2; 3]) 3 d0.
End device_examples.
Import device_examples.

Theorem device_counts_ok_witness :
  ∃ d evs, open d0 = Some (0, d, evs) ∧ counts_ok 1 (d, evs).
Proof.
  destruct (open d0) as [[[st d] evs]|] eqn:E; [|vm_compute in E; discriminate E].
  assert (st = 0) as -> by (vm_compute in E; congruence).
  exists d, evs. split; [reflexivity|].
  apply (device_counts_ok (speaker 2 48000) 1 (d, evs)).
  eapply nsteps_l; [|apply nsteps_O]. exists env. exact (dev_open d0 d [] 0 evs E).
Defined.

Theorem start_counts_failure_witness :
  ∃ st d' evs, start_l d_payload = Some (st, d', evs) ∧ st ≠ 0 ∧ deviceStartStopCount d' = 1 ∧
    start_l d' = Some (0, set_counts (deviceCount d') 2 d', []).
Proof.
  destruct (setMediaConfig "WSA-RX-0" (deviceAttr d_payload)) as [c|] eqn:E;
    [|vm_compute in E; discriminate E].
  apply (start_counts_failure d_payload "WSA-RX-0" c [1; 2; 3]);
    [reflexivity|reflexivity|discriminate|reflexivity|discriminate|reflexivity|reflexivity|
     exact E|vm_compute; discriminate].
Defined.

Theorem insert_keeps_ranking_witness :
  ∃ d', insertStreamDeviceAttr true (Some (speaker 2 48000)) (Some 1%positive) d0 = (0, d') ∧
    ranked d' ∧ removeStreamDeviceAttr 1 d' = d0.
Proof.
  destruct (insert_keeps_ranking (speaker 2 48000) 1 d0) as (d'&H1&H2&_&H3);
    [constructor|apply not_elem_of_nil|]. exists d'. split; [exact H1|]. split; [exact H2|exact H3].
Defined.

Theorem top_priority_spec_witness :
  let d := (insertStreamDeviceAttr true (Some (speaker 2 48000)) (Some 1%positive) d0).2 in
  ∃ prio s a, (prio, (s, a)) ∈ mStreamDevAttr d ∧
    (∀ x, x ∈ mStreamDevAttr d → prio ≤ x.1).
Proof.
  intros d. destruct (top_priority_spec d) as (prio&s&a&H1&H2&_);
    [repeat constructor|discriminate|]. exists prio, s, a. split; [exact H1|exact H2].
Defined.

Theorem ranking_depends_on_order_witness :
  let put a s d := (insertStreamDeviceAttr true (Some a) (Some s) d).2 in
  head (mStreamDevAttr (put (speaker 1 96000) 2%positive (put (speaker 2 48000) 1%positive d0))) =
    Some (8, (2%positive, speaker 1 96000)) ∧
  head (mStreamDevAttr (put (speaker 2 48000) 1%positive (put (speaker 1 96000) 2%positive d0))) =
    Some (8, (1%positive, speaker 2 48000)).
Proof.
  apply (ranking_depends_on_order (Henv := env) (speaker 2 48000) (speaker 1 96000) 1 2 d0);
    [discriminate|reflexivity|repeat split|repeat split|reflexivity|
     vm_compute; reflexivity|vm_compute; reflexivity|vm_compute; discriminate].
Defined.

Theorem updateCustomPayload_spec_witness :
  ∃ d', updateCustomPayload (λ _, true) (λ n, replicate (Z.to_nat n) 0) [4] d_payload = Some (0, d') ∧
    customPayload d' = Some [1; 2; 3; 4].
Proof.
  destruct (updateCustomPayload_spec (λ _, true) (λ n, replicate (Z.to_nat n) 0) [4] d_payload
    "" (0, [])) as [H _]; [reflexivity|vm_compute; reflexivity| |].
  - intros n Hn. unfold zlen. rewrite length_replicate. lia.
  - destruct (H eq_refl) as (d'&H1&H2&_). exists d'. split; [exact H1|exact H2].
Defined.
