(* ===== verification/StreamPcm.v ===== *)
(** * PCM streams (stream/StreamPCM/src/StreamPCM.cpp)

    The calls of a stream are programs of a state monad over the stream object,
    its devices, its session, the state of the sound card and the locks the
    calling thread holds.  [None] is undefined behaviour or a deadlock: locking a
    [std::mutex] twice, unlocking one that is not held, a dangling pointer, an
    access outside a block.

    Devices and sessions are classes with several implementations; the calls see
    them through the interface [PcmEnv].  Where a call gives up [mStreamMutex]
    and takes it again, [others] is what other threads do meanwhile. *)

From S2P Require Import Prelude PalDefs.

(** ** State *)

(** [volume_pair] holds the pairs (channel mask, volume) that fit the block;
    volumes are bit patterns. *)
Record pal_volume_data := mkVol {
  no_of_volpair : Z;
  volume_pair : list (Z * Z);
}.

Record StreamPCM := mkPcm {
  mStreamAttr : pal_stream_attributes;
  currentState : stream_state_t;
  cachedState : stream_state_t;
  mDevices : list Z;
  mVolumeData : option pal_volume_data;
  isPaused : bool;
  isMMap : bool;
  a2dpMuted : bool;
  a2dpPaused : bool;
  unMutePending : bool;
  skipSSRHandling : bool;
  deviceMuteStateRx : bool;
  deviceMuteStateTx : bool;
}.

Definition set_mStreamAttr (x : pal_stream_attributes) (s : StreamPCM) : StreamPCM :=
  mkPcm
    x (currentState s) (cachedState s) (mDevices s) (mVolumeData s)
    (isPaused s) (isMMap s) (a2dpMuted s) (a2dpPaused s) (unMutePending s)
    (skipSSRHandling s) (deviceMuteStateRx s) (deviceMuteStateTx s).
Definition set_currentState (x : stream_state_t) (s : StreamPCM) : StreamPCM :=
  mkPcm
    (mStreamAttr s) x (cachedState s) (mDevices s) (mVolumeData s)
    (isPaused s) (isMMap s) (a2dpMuted s) (a2dpPaused s) (unMutePending s)
    (skipSSRHandling s) (deviceMuteStateRx s) (deviceMuteStateTx s).
Definition set_cachedState (x : stream_state_t) (s : StreamPCM) : StreamPCM :=
  mkPcm
    (mStreamAttr s) (currentState s) x (mDevices s) (mVolumeData s)
    (isPaused s) (isMMap s) (a2dpMuted s) (a2dpPaused s) (unMutePending s)
    (skipSSRHandling s) (deviceMuteStateRx s) (deviceMuteStateTx s).
Definition set_mDevices (x : list Z) (s : StreamPCM) : StreamPCM :=
  mkPcm
    (mStreamAttr s) (currentState s) (cachedState s) x (mVolumeData s)
    (isPaused s) (isMMap s) (a2dpMuted s) (a2dpPaused s) (unMutePending s)
    (skipSSRHandling s) (deviceMuteStateRx s) (deviceMuteStateTx s).
Definition set_mVolumeData (x : option pal_volume_data) (s : StreamPCM) : StreamPCM :=
  mkPcm
    (mStreamAttr s) (currentState s) (cachedState s) (mDevices s) x
    (isPaused s) (isMMap s) (a2dpMuted s) (a2dpPaused s) (unMutePending s)
    (skipSSRHandling s) (deviceMuteStateRx s) (deviceMuteStateTx s).
Definition set_isPaused (x : bool) (s : StreamPCM) : StreamPCM :=
  mkPcm
    (mStreamAttr s) (currentState s) (cachedState s) (mDevices s)
    (mVolumeData s) x (isMMap s) (a2dpMuted s) (a2dpPaused s)
    (unMutePending s) (skipSSRHandling s) (deviceMuteStateRx s)
    (deviceMuteStateTx s).
Definition set_isMMap (x : bool) (s : StreamPCM) : StreamPCM :=
  mkPcm
    (mStreamAttr s) (currentState s) (cachedState s) (mDevices s)
    (mVolumeData s) (isPaused s) x (a2dpMuted s) (a2dpPaused s)
    (unMutePending s) (skipSSRHandling s) (deviceMuteStateRx s)
    (deviceMuteStateTx s).
Definition set_a2dpMuted (x : bool) (s : StreamPCM) : StreamPCM :=
  mkPcm
    (mStreamAttr s) (currentState s) (cachedState s) (mDevices s)
    (mVolumeData s) (isPaused s) (isMMap s) x (a2dpPaused s)
    (unMutePending s) (skipSSRHandling s) (deviceMuteStateRx s)
    (deviceMuteStateTx s).
Definition set_a2dpPaused (x : bool) (s : StreamPCM) : StreamPCM :=
  mkPcm
    (mStreamAttr s) (currentState s) (cachedState s) (mDevices s)
    (mVolumeData s) (isPaused s) (isMMap s) (a2dpMuted s) x (unMutePending s)
    (skipSSRHandling s) (deviceMuteStateRx s) (deviceMuteStateTx s).
Definition set_unMutePending (x : bool) (s : StreamPCM) : StreamPCM :=
  mkPcm
    (mStreamAttr s) (currentState s) (cachedState s) (mDevices s)
    (mVolumeData s) (isPaused s) (isMMap s) (a2dpMuted s) (a2dpPaused s) x
    (skipSSRHandling s) (deviceMuteStateRx s) (deviceMuteStateTx s).
Definition set_skipSSRHandling (x : bool) (s : StreamPCM) : StreamPCM :=
  mkPcm
    (mStreamAttr s) (currentState s) (cachedState s) (mDevices s)
    (mVolumeData s) (isPaused s) (isMMap s) (a2dpMuted s) (a2dpPaused s)
    (unMutePending s) x (deviceMuteStateRx s) (deviceMuteStateTx s).
Definition set_deviceMuteStateRx (x : bool) (s : StreamPCM) : StreamPCM :=
  mkPcm
    (mStreamAttr s) (currentState s) (cachedState s) (mDevices s)
    (mVolumeData s) (isPaused s) (isMMap s) (a2dpMuted s) (a2dpPaused s)
    (unMutePending s) (skipSSRHandling s) x (deviceMuteStateTx s).
Definition set_deviceMuteStateTx (x : bool) (s : StreamPCM) : StreamPCM :=
  mkPcm
    (mStreamAttr s) (currentState s) (cachedState s) (mDevices s)
    (mVolumeData s) (isPaused s) (isMMap s) (a2dpMuted s) (a2dpPaused s)
    (unMutePending s) (skipSSRHandling s) (deviceMuteStateRx s) x.

(** ** The environment *)

Inductive DevCall := DOpen | DClose | DStart | DStop.

Inductive SessCall :=
  | SOpen | SClose | SPrepare | SStart | SStop | SPause | SResume | SFlush
  | SMute (state : bool)
  | SSetVolume
  | SSetParameters (param_id : Z)
  | SRead (size : Z)
  | SWrite (size : Z)
  | SDisconnect (dev : Z)
  | SCreateMmapBuffer (min_size_frames : Z)
  | SGetMmapPosition
  | SSetECRef (dev : option Z) (is_enable : bool)
  | SAddRemoveEffect (effect : Z) (enable : bool).

(** [sess_errno] is [errno] after the last call of the session, [sess_size] the
    size its last read or write reported. *)
Class PcmEnv (D S : Type) := {
  dev_op : DevCall → D → option (Z * D);
  sess_op : SessCall → S → Z * S;
  sess_errno : S → Z;
  sess_size : S → Z;
  isBtDevice : Z → bool;
  isDeviceAvailable : Z → bool;
  isDeviceReady : Z → bool;
  isSsrDownFeasible : Z → bool;
  handleBTDeviceNotReady : list Z → gmap Z D → Z * bool * list Z * gmap Z D;
  isVolumeUsingSetParam : bool;
  volume_streams : list Z;
  vol_is_zero : Z → bool;
  vol_differs : Z → Z → bool;
  others : StreamPCM → gmap Z D → S → card_status_t →
    StreamPCM * gmap Z D * S * card_status_t;
}.

(** Calls to the resource manager and to the client's buffer that are kept as
    events. *)
Inductive pcm_event :=
  | EvSsrHandler (state : card_status_t)
  | EvSilence (size : Z)
  | EvDutyCycle.

Record World (D S : Type) := mkWorld {
  strm : StreamPCM;
  devs : gmap Z D;
  sess : S;
  card : card_status_t;
  active : list Z;
  lk_stream : bool;
  lk_graph : bool;
  lk_active : bool;
  events : list pcm_event;
}.
Arguments mkWorld {D S}.
Arguments strm {D S}.
Arguments devs {D S}.
Arguments sess {D S}.
Arguments card {D S}.
Arguments active {D S}.
Arguments lk_stream {D S}.
Arguments lk_graph {D S}.
Arguments lk_active {D S}.
Arguments events {D S}.

Inductive mutex := mStreamMutex | mGraphMutex | mActiveStreamMutex.

Section pcm.
Context {D S : Type} `{!PcmEnv D S}.
Local Abbreviation W := (World D S).

(** ** The monad *)

Definition M (A : Type) : Type := W → option (A * W).

Definition mret_M {A} (x : A) : M A := λ w, Some (x, w).
Definition bind_M {A B} (m : M A) (k : A → M B) : M B :=
  λ w, match m w with Some (x, w') => k x w' | None => None end.

Declare Scope pcm_scope.
Local Open Scope pcm_scope.
Local Notation "x <- m ;; k" := (bind_M m (λ x, k))
  (at level 100, m at next level, right associativity) : pcm_scope.
Local Notation "m ;;; k" := (bind_M m (λ _, k))
  (at level 100, right associativity) : pcm_scope.
Local Notation ret := mret_M.

Definition gets {A} (f : W → A) : M A := λ w, Some (f w, w).

Definition set_strm (f : StreamPCM → StreamPCM) : M unit := λ w,
  Some (tt, mkWorld (f (strm w)) (devs w) (sess w) (card w) (active w)
              (lk_stream w) (lk_graph w) (lk_active w) (events w)).
Definition set_active (l : list Z) : M unit := λ w,
  Some (tt, mkWorld (strm w) (devs w) (sess w) (card w) l
              (lk_stream w) (lk_graph w) (lk_active w) (events w)).
Definition emit (e : pcm_event) : M unit := λ w,
  Some (tt, mkWorld (strm w) (devs w) (sess w) (card w) (active w)
              (lk_stream w) (lk_graph w) (lk_active w) (events w ++ [e])).

Definition held (l : mutex) (w : W) : bool :=
  match l with
  | mStreamMutex => lk_stream w
  | mGraphMutex => lk_graph w
  | mActiveStreamMutex => lk_active w
  end.
Definition set_held (l : mutex) (b : bool) (w : W) : W :=
  match l with
  | mStreamMutex => mkWorld (strm w) (devs w) (sess w) (card w) (active w)
                      b (lk_graph w) (lk_active w) (events w)
  | mGraphMutex => mkWorld (strm w) (devs w) (sess w) (card w) (active w)
                     (lk_stream w) b (lk_active w) (events w)
  | mActiveStreamMutex => mkWorld (strm w) (devs w) (sess w) (card w) (active w)
                            (lk_stream w) (lk_graph w) b (events w)
  end.

Definition lock (l : mutex) : M unit := λ w,
  if held l w then None else Some (tt, set_held l true w).
Definition unlock (l : mutex) : M unit := λ w,
  if held l w then Some (tt, set_held l false w) else None.

(** Other threads run while this one does not hold [mStreamMutex]. *)
Definition preempt : M unit := λ w,
  let '(s, ds, se, c) := others (strm w) (devs w) (sess w) (card w) in
  Some (tt, mkWorld s ds se c (active w)
              (lk_stream w) (lk_graph w) (lk_active w) (events w)).

Definition dev_call (c : DevCall) (id : Z) : M Z := λ w,
  d ← devs w !! id;
  '(st, d') ← dev_op c d;
  Some (st, mkWorld (strm w) (<[id := d']> (devs w)) (sess w) (card w) (active w)
              (lk_stream w) (lk_graph w) (lk_active w) (events w)).

Definition sess_call (c : SessCall) : M Z := λ w,
  let '(st, s') := sess_op c (sess w) in
  Some (st, mkWorld (strm w) (devs w) s' (card w) (active w)
              (lk_stream w) (lk_graph w) (lk_active w) (events w)).

Definition errno : M Z := gets (λ w, sess_errno (sess w)).
Definition card_down : M bool := gets (λ w, PAL_CARD_STATUS_DOWN (card w)).
Definition card_up : M bool := gets (λ w, PAL_CARD_STATUS_UP (card w)).

(** [rm->registerDevice] and [deregisterDevice] on the devices of this stream
    among [active_devices]. *)
Definition registerDevice (id : Z) : M unit :=
  l <- gets active;; if decide (id ∈ l) then ret tt else set_active (l ++ [id]).
Definition deregisterDevice (id : Z) : M unit :=
  l <- gets active;; set_active (erase_first id l).

Fixpoint for_each (f : Z → M unit) (ds : list Z) : M unit :=
  match ds with
  | [] => ret tt
  | d :: ds => f d;;; for_each f ds
  end.

(** ** Loops over the devices *)

(** Calls [c] on every device; the status of the last one, or [st]. *)
Fixpoint call_all (c : DevCall) (ds : list Z) (st : Z) : M Z :=
  match ds with
  | [] => ret st
  | d :: ds => st <- dev_call c d;; call_all c ds st
  end.

(** Stops at the first device that fails. *)
Fixpoint call_until_error (c : DevCall) (ds : list Z) : M Z :=
  match ds with
  | [] => ret 0
  | d :: ds =>
      st <- dev_call c d;;
      if decide (st = 0) then call_until_error c ds else ret st
  end.

(** A failure of any device is the status; all are called. *)
Fixpoint stop_all_status (ds : list Z) (status : Z) : M Z :=
  match ds with
  | [] => ret status
  | d :: ds =>
      st <- dev_call DStop d;;
      stop_all_status ds (if decide (st = 0) then status else st)
  end.

Definition is_out_device (id : Z) : bool :=
  bool_decide (PAL_DEVICE_OUT_MIN < id < PAL_DEVICE_OUT_MAX).
Definition is_in_device (id : Z) : bool :=
  bool_decide (PAL_DEVICE_IN_MIN < id < PAL_DEVICE_IN_MAX).

(** Devices that a mapped stream starts early and stops late. *)
Definition mmap_device (id : Z) : bool :=
  isBtDevice id || bool_decide (id = PAL_DEVICE_OUT_SPEAKER).

(** ** open *)

Definition bt_unready (ds : list Z) : bool :=
  existsb (λ id, isBtDevice id &&
    (negb (isDeviceAvailable id) ||
     (negb (isDeviceReady id) && bool_decide (length ds = 1%nat)))) ds.

Definition open : M Z :=
  lock mStreamMutex;;;
  s <- gets strm;;
  down <- card_down;;
  status <-
    (if down : bool then ret (- EIO)
     else if bt_unready (mDevices s) then ret (- ENODEV)
     else match currentState s with
     | STREAM_IDLE =>
         status <- call_until_error DOpen (mDevices s);;
         if decide (status = 0) then
           lock mGraphMutex;;;
           status <- sess_call SOpen;;
           unlock mGraphMutex;;;
           if decide (status = 0) then
             set_strm (set_currentState STREAM_INIT);;; ret status
           else call_all DClose (mDevices s) status
         else ret status
     | STREAM_INIT => ret 0
     | _ => ret (- EINVAL)
     end);;
  unlock mStreamMutex;;;
  ret status.

(** ** start *)

(** Where a direction's part of [start] leaves to. *)
Inductive flow := Break (status : Z) | Exit (status : Z) | SessionFail (status : Z).

(** [prepare] and [start] of the session, the same in all directions; the graph
    lock is given up on every path. *)
Definition start_session : M flow :=
  status <- sess_call SPrepare;;
  if decide (status = 0) then
    status <- sess_call SStart;;
    e <- errno;;
    if decide (e = - ENETRESET) then
      up <- card_up;;
      (if up : bool then emit (EvSsrHandler CARD_STATUS_OFFLINE) else ret tt);;;
      set_strm (set_cachedState STREAM_STARTED);;;
      unlock mGraphMutex;;;
      ret (SessionFail 0)
    else
      unlock mGraphMutex;;;
      if decide (status = 0) then ret (Break 0) else ret (SessionFail status)
  else
    unlock mGraphMutex;;;
    ret (SessionFail status).

Definition mute_l (state : bool) : M Z :=
  s <- gets strm;;
  let mute_by_volume :=
    match mVolumeData s with
    | Some v =>
        (* reading past the block is undefined *)
        if decide (no_of_volpair v ≤ zlen (volume_pair v))
        then Some (forallb (λ p, vol_is_zero p.2)
                     (take (Z.to_nat (no_of_volpair v)) (volume_pair v)))
        else match find (λ p, negb (vol_is_zero p.2)) (volume_pair v) with
             | Some _ => Some false
             | None => None
             end
    | None => Some true
    end in
  match mute_by_volume with
  | None => λ _, None
  | Some m =>
      if m && bool_decide (direction (mStreamAttr s) = PAL_AUDIO_OUTPUT) then
        set_strm (set_unMutePending (negb state));;; ret 0
      else sess_call (SMute state)
  end.

(** The start of the output devices: a device that fails is disconnected, closed
    and dropped from [mDevices]. *)
Fixpoint start_rx_loop (mmap : bool) (kept todo : list Z) (status cachedStatus : Z)
    : M (Z * Z) :=
  match todo with
  | [] => ret (status, cachedStatus)
  | d :: todo =>
      if mmap_device d && mmap then start_rx_loop mmap (kept ++ [d]) todo 0 cachedStatus
      else
        devStatus <- dev_call DStart d;;
        if decide (devStatus = 0) then start_rx_loop mmap (kept ++ [d]) todo 0 cachedStatus
        else
          sess_call (SDisconnect d);;;
          dev_call DClose d;;;
          set_strm (set_mDevices (kept ++ todo));;;
          start_rx_loop mmap kept todo status devStatus
  end.

Definition handle_bt : M (Z * bool) := λ w,
  let '(st, suspend, l, ds) := handleBTDeviceNotReady (mDevices (strm w)) (devs w) in
  Some ((st, suspend),
        mkWorld (set_mDevices l (strm w)) ds (sess w) (card w) (active w)
          (lk_stream w) (lk_graph w) (lk_active w) (events w)).

Definition start_output : M flow :=
  p <- handle_bt;;
  let '(status, a2dpSuspend) := p in
  if decide (status = 0) then
    lock mGraphMutex;;;
    s <- gets strm;;
    if decide (mDevices s = []) then unlock mGraphMutex;;; ret (Exit (- EINVAL))
    else
      p <- start_rx_loop (isMMap s) [] (mDevices s) (- EINVAL) 0;;
      let '(status, cachedStatus) := p in
      if decide (status = 0) then
        r <- start_session;;
        match r with
        | Break status =>
            s <- gets strm;;
            if a2dpSuspend && negb (a2dpMuted s) then
              mute_l true;;;
              set_strm (set_a2dpMuted true);;;
              ret (Break status)
            else ret (Break status)
        | _ => ret r
        end
      else unlock mGraphMutex;;; ret (Exit cachedStatus)
  else ret (Exit status).

Definition start_input : M flow :=
  lock mGraphMutex;;;
  s <- gets strm;;
  status <- call_until_error DStart (mDevices s);;
  if decide (status = 0) then start_session
  else unlock mGraphMutex;;; ret (Exit status).

Definition start_loopback : M flow :=
  lock mGraphMutex;;;
  s <- gets strm;;
  status <- call_until_error DStart (filter (λ d, is_out_device d = true) (mDevices s));;
  if decide (status = 0) then
    status <- call_until_error DStart (filter (λ d, is_in_device d = true) (mDevices s));;
    if decide (status = 0) then start_session
    else
      call_until_error DStop (filter (λ d, is_out_device d = true) (mDevices s));;;
      unlock mGraphMutex;;;
      ret (Exit status)
  else unlock mGraphMutex;;; ret (Exit status).

Definition start_direction (dir : Z) : M flow :=
  if decide (dir = PAL_AUDIO_OUTPUT) then start_output
  else if decide (dir = PAL_AUDIO_INPUT) then start_input
  else if decide (dir = PAL_AUDIO_INPUT_OUTPUT) then start_loopback
  else ret (Break (- EINVAL)).

Definition start : M Z :=
  lock mStreamMutex;;;
  s <- gets strm;;
  down <- card_down;;
  status <-
    (if down : bool then set_strm (set_cachedState STREAM_STARTED);;; ret 0
     else match currentState s with
     | STREAM_INIT | STREAM_STOPPED =>
         r <- start_direction (direction (mStreamAttr s));;
         match r with
         | Exit status => ret status
         | SessionFail status =>
             s <- gets strm;; stop_all_status (mDevices s) status
         | Break status =>
             set_strm (set_currentState STREAM_STARTED);;;
             unlock mStreamMutex;;;
             preempt;;;
             lock mActiveStreamMutex;;;
             lock mStreamMutex;;;
             s <- gets strm;;
             for_each registerDevice (mDevices s);;;
             unlock mActiveStreamMutex;;;
             emit EvDutyCycle;;;
             ret status
         end
     | STREAM_STARTED => ret 0
     | _ => ret (- EINVAL)
     end);;
  unlock mStreamMutex;;;
  ret status.

(** ** stop *)

Fixpoint stop_rx_loop (mmap : bool) (ds : list Z) (status : Z) : M Z :=
  match ds with
  | [] => ret status
  | d :: ds =>
      if mmap_device d && mmap then stop_rx_loop mmap ds 0
      else
        status <- dev_call DStop d;;
        if decide (status = 0) then stop_rx_loop mmap ds status else ret status
  end.

Definition stop_output : M Z :=
  lock mGraphMutex;;;
  status <- sess_call SStop;;
  s <- gets strm;;
  status <- stop_rx_loop (isMMap s) (mDevices s) status;;
  unlock mGraphMutex;;;
  ret status.

Definition stop_input : M Z :=
  lock mGraphMutex;;;
  s <- gets strm;;
  call_all DStop (mDevices s) 0;;;
  status <- sess_call SStop;;
  unlock mGraphMutex;;;
  ret status.

Definition stop_loopback : M Z :=
  lock mGraphMutex;;;
  s <- gets strm;;
  call_all DStop (filter (λ d, is_in_device d = true) (mDevices s)) 0;;;
  status <- sess_call SStop;;
  status <- stop_rx_loop false (filter (λ d, is_out_device d = true) (mDevices s)) status;;
  unlock mGraphMutex;;;
  ret status.

Definition stop_direction (dir : Z) : M Z :=
  if decide (dir = PAL_AUDIO_OUTPUT) then stop_output
  else if decide (dir = PAL_AUDIO_INPUT) then stop_input
  else if decide (dir = PAL_AUDIO_INPUT_OUTPUT) then stop_loopback
  else ret (- EINVAL).

Definition stop : M Z :=
  lock mStreamMutex;;;
  s <- gets strm;;
  status <-
    match currentState s with
    | STREAM_STARTED | STREAM_PAUSED =>
        unlock mStreamMutex;;;
        preempt;;;
        lock mActiveStreamMutex;;;
        lock mStreamMutex;;;
        set_strm (set_currentState STREAM_STOPPED);;;
        s <- gets strm;;
        for_each deregisterDevice (mDevices s);;;
        unlock mActiveStreamMutex;;;
        stop_direction (direction (mStreamAttr s))
    | STREAM_STOPPED | STREAM_IDLE => ret 0
    | _ => ret (- EINVAL)
    end;;
  unlock mStreamMutex;;;
  ret status.

(** ** close *)

Definition close : M Z :=
  lock mStreamMutex;;;
  s <- gets strm;;
  match currentState s with
  | STREAM_IDLE => unlock mStreamMutex;;; ret 0
  | st =>
      match st with
      | STREAM_STARTED | STREAM_PAUSED =>
          unlock mStreamMutex;;;
          preempt;;;
          stop;;;
          preempt;;;
          lock mStreamMutex
      | STREAM_INIT | STREAM_STOPPED =>
          call_all DStop
            (filter (λ d, mmap_device d && isMMap s = true) (mDevices s)) 0;;;
          ret tt
      | _ => ret tt
      end;;;
      lock mGraphMutex;;;
      status <- sess_call SClose;;
      s <- gets strm;;
      status <- call_all DClose (mDevices s) status;;
      set_strm (set_currentState STREAM_IDLE);;;
      unlock mGraphMutex;;;
      emit EvDutyCycle;;;
      unlock mStreamMutex;;;
      ret status
  end.

(** ** Volume *)

Definition PAL_PARAM_ID_VOLUME_USING_SET_PARAM : Z := 55.

(** The block [setVolume] allocates: its size is an [uint8_t], so it holds the
    pairs that fit [volSize] bytes. *)
Definition volSize (volume : pal_volume_data) : Z := u8 (4 + 8 * no_of_volpair volume).

Definition copy_volume (volume : pal_volume_data) : option pal_volume_data :=
  pairs ← slice 0 ((volSize volume - 4) / 8) (volume_pair volume);
  Some (mkVol (no_of_volpair volume) pairs).

(** The loop over the pairs; [None] when it leaves the block. *)
Definition force_set_parameters (v : pal_volume_data) : option bool :=
  pairs ← slice 0 (no_of_volpair v) (volume_pair v);
  match pairs with
  | [] => Some false
  | p0 :: ps => Some (existsb (λ p, vol_differs p0.2 p.2) ps)
  end.

Definition lift {A} (o : option A) : M A := λ w,
  match o with Some x => Some (x, w) | None => None end.

Definition setVolume (alloc_ok : bool) (volume : option pal_volume_data) : M Z :=
  match volume with
  | None => ret (- EINVAL)
  | Some volume =>
    if decide (no_of_volpair volume = 0) then ret (- EINVAL)
    else if negb alloc_ok then set_strm (set_mVolumeData None);;; ret (- ENOMEM)
    else
      v <- lift (copy_volume volume);;
      set_strm (set_mVolumeData (Some v));;;
      force <- lift (force_set_parameters v);;
      s <- gets strm;;
      c <- gets card;;
      if a2dpMuted s then ret 0
      else if bool_decide (c = CARD_STATUS_ONLINE ∧ currentState s ≠ STREAM_IDLE ∧
                           currentState s ≠ STREAM_INIT) && negb (isPaused s) then
        let zero := match volume_pair v with p0 :: _ => vol_is_zero p0.2 | [] => false end in
        let isStreamAvail := bool_decide (type (mStreamAttr s) ∈ volume_streams) in
        force <- (if negb force && zero && negb isVolumeUsingSetParam
                  then sess_call SSetVolume;;; ret true else ret force);;
        status <- (if (isStreamAvail && isVolumeUsingSetParam) || force
                   then sess_call (SSetParameters PAL_PARAM_ID_VOLUME_USING_SET_PARAM)
                   else sess_call SSetVolume);;
        if decide (status = 0) then
          s <- gets strm;;
          (if unMutePending s
           then set_strm (set_unMutePending false);;; mute_l false;;; ret tt
           else ret tt);;;
          ret status
        else ret status
      else ret 0
  end.

(** [Stream::getVolumeData] into a block for [no_of_volpair] pairs. *)
Definition getVolumeData (s : StreamPCM) : option (Z * option pal_volume_data) :=
  match mVolumeData s with
  | None => Some (- EINVAL, None)
  | Some v =>
      pairs ← slice 0 (no_of_volpair v) (volume_pair v);
      Some (0, Some (mkVol (no_of_volpair v) pairs))
  end.

(** ** read and write *)

Definition frame_bytes (c : pal_media_config) : Z :=
  u32 (bit_width c / 8 * channels (ch_info c)).

Definition read (bufsize : Z) : M Z :=
  lock mStreamMutex;;;
  s <- gets strm;;
  down <- card_down;;
  status <-
    (if (down : bool) || negb (bool_decide (cachedState s = STREAM_IDLE)) then
       let c := in_media_config (mStreamAttr s) in
       if decide (frame_bytes c = 0 ∨ sample_rate c = 0) then ret (- EINVAL)
       else
         let size := s32 bufsize in
         (if decide (size < 0) then (λ _, None) else emit (EvSilence size));;;
         ret size
     else match currentState s with
     | STREAM_STARTED =>
         status <- sess_call (SRead bufsize);;
         if decide (status = 0) then gets (λ w, sess_size (sess w))
         else
           e <- errno;;
           up <- card_up;;
           down <- card_down;;
           if bool_decide (e = - ENETRESET) && (up : bool) then
             emit (EvSsrHandler CARD_STATUS_OFFLINE);;; ret (s32 bufsize)
           else if down : bool then ret (s32 bufsize)
           else ret status
     | _ => ret (- EINVAL)
     end);;
  unlock mStreamMutex;;;
  ret status.

Definition write (bufsize : Z) : M Z :=
  lock mStreamMutex;;;
  s <- gets strm;;
  down <- card_down;;
  if (down : bool) || negb (bool_decide (cachedState s = STREAM_IDLE)) || a2dpPaused s then
    let c := out_media_config (mStreamAttr s) in
    if decide (frame_bytes c = 0 ∨ sample_rate c = 0)
    then unlock mStreamMutex;;; ret (- EINVAL)
    else unlock mStreamMutex;;; ret (s32 bufsize)
  else match currentState s with
  | STREAM_STARTED | STREAM_PAUSED =>
      status <- sess_call (SWrite bufsize);;
      size <- gets (λ w, sess_size (sess w));;
      e <- errno;;
      unlock mStreamMutex;;;
      preempt;;;
      if decide (status = 0) then
        s <- gets strm;;
        if bool_decide (currentState s = STREAM_PAUSED) && negb (isPaused s) then
          lock mActiveStreamMutex;;;
          lock mStreamMutex;;;
          for_each registerDevice (mDevices s);;;
          unlock mStreamMutex;;;
          unlock mActiveStreamMutex;;;
          set_strm (set_currentState STREAM_STARTED);;;
          ret size
        else ret size
      else
        up <- card_up;;
        down <- card_down;;
        if bool_decide (e = - ENETRESET) && (up : bool) then
          emit (EvSsrHandler CARD_STATUS_OFFLINE);;; ret (s32 bufsize)
        else if down : bool then ret (s32 bufsize)
        else ret status
  | STREAM_STOPPED => unlock mStreamMutex;;; ret (- EIO)
  | _ => unlock mStreamMutex;;; ret (- EINVAL)
  end.

(** ** Parameters, mute, pause, resume, flush *)

Definition setDeviceMute (dir : Z) (state : bool) : M Z :=
  set_strm (if decide (dir = PAL_AUDIO_OUTPUT) then set_deviceMuteStateRx state
            else set_deviceMuteStateTx state);;;
  ret 0.

Definition getDeviceMute (dir : Z) (s : StreamPCM) : bool :=
  if decide (dir = PAL_AUDIO_OUTPUT) then deviceMuteStateRx s else deviceMuteStateTx s.

Definition setParameters (param_id : Z) (payload : bool) : M Z :=
  if payload then
    lock mStreamMutex;;;
    s <- gets strm;;
    match currentState s with
    | STREAM_IDLE => unlock mStreamMutex;;; ret (- EINVAL)
    | _ =>
        status <- sess_call (SSetParameters param_id);;
        unlock mStreamMutex;;;
        ret status
    end
  else ret (- EINVAL).

(** A call that runs [m] under the stream's mutex. *)
Definition locked (m : M Z) : M Z :=
  lock mStreamMutex;;; status <- m;; unlock mStreamMutex;;; ret status.

Definition mute (state : bool) : M Z := locked (mute_l state).

Definition pause_l : M Z :=
  down <- card_down;;
  s <- gets strm;;
  let paused status :=
    set_strm (set_isPaused true);;;
    set_strm (set_currentState STREAM_PAUSED);;;
    ret status in
  if down : bool then
    set_strm (set_cachedState STREAM_PAUSED);;;
    set_strm (set_isPaused true);;;
    paused 0
  else if isPaused s then paused 0
  else
    status <- sess_call SPause;;
    if decide (status = 0) then paused 0 else ret status.

Definition pause : M Z := locked pause_l.

Definition resume_l (alloc_ok : bool) : M Z :=
  down <- card_down;;
  if down : bool then set_strm (set_cachedState STREAM_STARTED);;; ret 0
  else
    status <- sess_call SResume;;
    if decide (status = 0) then
      set_strm (set_isPaused false);;;
      s <- gets strm;;
      if bool_decide (is_Some (mVolumeData s)) && alloc_ok then
        p <- lift (getVolumeData s);;
        let '(status, voldata) := p in
        if decide (status = 0) then setVolume alloc_ok voldata;;; ret status
        else ret status
      else ret (- ENOMEM)
    else ret status.

Definition resume (alloc_ok : bool) : M Z := locked (resume_l alloc_ok).

Definition flush : M Z :=
  locked
    (s <- gets strm;;
     if negb (isPaused s) then ret 0
     else if decide (type (mStreamAttr s) ∉ [PAL_STREAM_PCM_OFFLOAD;
                       PAL_STREAM_PLAYBACK_BUS; PAL_STREAM_DEEP_BUFFER]) then ret 0
     else match currentState s with
     | STREAM_STOPPED | STREAM_IDLE => ret 0
     | _ => sess_call SFlush
     end).

Definition addRemoveEffect (effect : Z) (enable : bool) : M Z :=
  locked (sess_call (SAddRemoveEffect effect enable)).

Definition setECRef_l (dev : option Z) (is_enable : bool) : M Z :=
  sess_call (SSetECRef dev is_enable).

Definition setECRef (dev : option Z) (is_enable : bool) : M Z :=
  locked (setECRef_l dev is_enable).

(** The header with the constants is not in the repository. *)
Definition isSampleRateSupported (sampleRate : Z) : Z := 0.
Definition isChannelSupported (CHANNELS : list Z) (numChannels : Z) : Z :=
  if decide (numChannels ∈ CHANNELS) then 0 else - EINVAL.
Definition isBitWidthSupported (BITWIDTHS : list Z) (bitWidth : Z) : Z :=
  if decide (bitWidth ∈ BITWIDTHS) then 0 else - EINVAL.

(** ** Recovery of the sound card

    The handlers are called with [mActiveStreamMutex] held. *)

Definition ssrDownHandler : M Z :=
  lock mStreamMutex;;;
  s <- gets strm;;
  if isSsrDownFeasible (type (mStreamAttr s)) then
    (if decide (cachedState s = STREAM_IDLE)
     then set_strm (set_cachedState (currentState s)) else ret tt);;;
    status <-
      match currentState s with
      | STREAM_INIT | STREAM_STOPPED =>
          unlock mStreamMutex;;; preempt;;; close
      | STREAM_STARTED | STREAM_PAUSED =>
          unlock mStreamMutex;;;
          unlock mActiveStreamMutex;;;
          preempt;;;
          stop;;;
          preempt;;;
          status <- close;;
          lock mActiveStreamMutex;;;
          ret status
      | _ => unlock mStreamMutex;;; ret 0
      end;;
    set_strm (set_currentState STREAM_IDLE);;;
    ret status
  else
    set_strm (set_skipSSRHandling true);;;
    unlock mStreamMutex;;;
    ret 0.

(** [open], then [start] without the lock of the active streams; then [k] if the
    stream was started. *)
Definition reopen_and_start (k : M Z) : M Z :=
  unlock mStreamMutex;;;
  preempt;;;
  status <- open;;
  if decide (status = 0) then
    unlock mActiveStreamMutex;;;
    preempt;;;
    status <- start;;
    lock mActiveStreamMutex;;;
    if decide (status = 0) then
      s <- gets strm;;
      if decide (currentState s = STREAM_STARTED) then k else ret status
    else ret status
  else ret status.

Definition ssrUpHandler : M Z :=
  lock mStreamMutex;;;
  s <- gets strm;;
  if skipSSRHandling s then
    set_strm (set_skipSSRHandling false);;;
    unlock mStreamMutex;;;
    ret 0
  else
    status <-
      match cachedState s with
      | STREAM_INIT => unlock mStreamMutex;;; preempt;;; open
      | STREAM_STARTED => reopen_and_start (ret 0)
      | STREAM_PAUSED => reopen_and_start pause
      | _ => unlock mStreamMutex;;; ret 0
      end;;
    set_strm (set_cachedState STREAM_IDLE);;;
    ret status.

(** ** Mapped buffers *)

(** The status, [btDevStarted], and whether to give up. *)
Fixpoint mmap_start_loop (alone : bool) (ds : list Z) (status : Z) (started : bool)
    : M (Z * bool * bool) :=
  match ds with
  | [] => ret (status, started, false)
  | d :: ds =>
      if mmap_device d then
        status <- dev_call DStart d;;
        let started := bool_decide (status = 0) in
        if negb started && alone then ret (status, started, true)
        else mmap_start_loop alone ds status started
      else mmap_start_loop alone ds status started
  end.

Definition createMmapBuffer (min_size_frames : Z) : M Z :=
  locked
    (s <- gets strm;;
     match currentState s with
     | STREAM_INIT =>
         lock mGraphMutex;;;
         p <- mmap_start_loop (bool_decide (length (mDevices s) = 1%nat)) (mDevices s)
                0 false;;
         let '(status, started, giveup) := p in
         if giveup : bool then unlock mGraphMutex;;; ret status
         else
           status <- sess_call (SCreateMmapBuffer min_size_frames);;
           if decide (status = 0) then
             set_strm (set_isMMap true);;; unlock mGraphMutex;;; ret status
           else
             (if started : bool
              then call_all DStop (filter (λ d, isBtDevice d = true) (mDevices s)) 0;;; ret tt
              else ret tt);;;
             unlock mGraphMutex;;;
             ret status
     | _ => ret (- EINVAL)
     end).

Definition GetMmapPosition : M Z := sess_call SGetMmapPosition.
End pcm.

(** ** The public calls *)

Inductive pcm_api :=
  | AOpen | AClose | AStart | AStop | APause | AFlush
  | AResume (alloc_ok : bool)
  | AMute (state : bool)
  | ASetVolume (alloc_ok : bool) (volume : option pal_volume_data)
  | ARead (size : Z)
  | AWrite (size : Z)
  | ASetParameters (param_id : Z) (payload : bool)
  | AEffect (effect : Z) (enable : bool)
  | ASetECRef (dev : option Z) (is_enable : bool)
  | ACreateMmapBuffer (min_size_frames : Z).

Definition run_api {D S : Type} `{!PcmEnv D S} (a : pcm_api) : M (D := D) (S := S) Z :=
  match a with
  | AOpen => open
  | AClose => close
  | AStart => start
  | AStop => stop
  | APause => pause
  | AFlush => flush
  | AResume ok => resume ok
  | AMute st => mute st
  | ASetVolume ok v => setVolume ok v
  | ARead n => read n
  | AWrite n => write n
  | ASetParameters id p => setParameters id p
  | AEffect e b => addRemoveEffect e b
  | ASetECRef d b => setECRef d b
  | ACreateMmapBuffer n => createMmapBuffer n
  end.

(** The sound card as the resource manager reports it. *)
Definition set_card {D S : Type} (c : card_status_t) (w : World D S) : World D S :=
  mkWorld (strm w) (devs w) (sess w) c (active w) (lk_stream w) (lk_graph w) (lk_active w)
    (events w).

(** What a stream undergoes: calls of the client, changes of the sound card, and
    the handlers, which the resource manager calls with the lock of the active
    streams held. *)
Inductive pcm_input :=
  | InCall (a : pcm_api)
  | InCard (c : card_status_t)
  | InSsrDown
  | InSsrUp.

Definition with_active {D S : Type} `{!PcmEnv D S} (m : M (D := D) (S := S) Z)
    : M (D := D) (S := S) Z :=
  bind_M (lock mActiveStreamMutex) (λ _,
  bind_M m (λ st, bind_M (unlock mActiveStreamMutex) (λ _, mret_M st))).

Definition run_input {D S : Type} `{!PcmEnv D S} (i : pcm_input) : M (D := D) (S := S) Z :=
  match i with
  | InCall a => run_api a
  | InCard c => λ w, Some (0, set_card c w)
  | InSsrDown => with_active ssrDownHandler
  | InSsrUp => with_active ssrUpHandler
  end.

Fixpoint run_inputs {D S : Type} `{!PcmEnv D S} (l : list pcm_input)
    : M (D := D) (S := S) (list Z) :=
  match l with
  | [] => mret_M []
  | i :: l => bind_M (run_input i) (λ st, bind_M (run_inputs l) (λ sts, mret_M (st :: sts)))
  end.
