(* ===== verification/StreamPcmFacts.v ===== *)
(** * PCM streams: lock discipline, state machine, recovery

    [wp m Q w] says that [m] run from [w] has a defined result that satisfies
    [Q]: no deadlock, no access outside a block, no dangling device.  [spec]
    tracks the locks the thread holds and the state of the stream through the
    programs. *)

From S2P Require Import Prelude PalDefs StreamPcm.

Section facts.
Context {D S : Type} `{Henv : !PcmEnv D S}.
Local Abbreviation W := (World D S).

Definition wp {A} (m : M A) (Q : A → W → Prop) (w : W) : Prop :=
  ∃ a w', m w = Some (a, w') ∧ Q a w'.

Lemma wp_mono {A} (m : M A) (Q Q' : A → W → Prop) w :
  wp m Q w → (∀ a w', Q a w' → Q' a w') → wp m Q' w.
Proof. intros (a&w'&?&?) HQ. exists a, w'. auto. Qed.

Lemma wp_bind {A B} (m : M A) (k : A → M B) Q w :
  wp m (λ a, wp (k a) Q) w → wp (bind_M m k) Q w.
Proof. intros (a&w'&Hm&b&w2&Hk&?). exists b, w2. unfold bind_M. by rewrite Hm. Qed.

(** ** What the proofs assume of the environment

    [U] are the devices of the table; [dev_ok] is an invariant under which the
    calls of a device are defined. *)

Context (U : Z → Prop) (dev_ok : D → Prop).

Definition vol_ok (s : StreamPCM) : Prop :=
  match mVolumeData s with
  | Some v => 0 ≤ no_of_volpair v ≤ 31 ∧ no_of_volpair v ≤ zlen (volume_pair v)
  | None => True
  end.

Definition shape_ok (s : StreamPCM) (ds : gmap Z D) : Prop :=
  Forall U (mDevices s) ∧ vol_ok s ∧ ∀ id, U id → ∃ d, ds !! id = Some d ∧ dev_ok d.

Record env_ok : Prop := {
  dev_total : ∀ c d, dev_ok d → ∃ st d', dev_op c d = Some (st, d') ∧ dev_ok d';
  others_ok : ∀ s ds se c, shape_ok s ds →
    let '(s', ds', _, _) := others s ds se c in
    shape_ok s' ds' ∧ currentState s' = currentState s;
  bt_ok : ∀ s ds, shape_ok s ds →
    let '(_, _, l, ds') := handleBTDeviceNotReady (mDevices s) ds in
    shape_ok (set_mDevices l s) ds';
}.

Context (Hok : env_ok).

Definition wf (w : W) : Prop := shape_ok (strm w) (devs w).
Definition state_of (w : W) : stream_state_t := currentState (strm w).

(** The locks of the stream, the graph and the active streams. *)
Definition locks (w : W) : bool * bool * bool := (lk_stream w, lk_graph w, lk_active w).

Definition spec {A} (l : bool * bool * bool) (c : stream_state_t) (m : M A)
    (Q : A → bool * bool * bool → stream_state_t → Prop) : Prop :=
  ∀ w, wf w → locks w = l → state_of w = c →
    wp m (λ a w', wf w' ∧ Q a (locks w') (state_of w')) w.

(** The locks and the state at the end, whatever the result. *)
Definition ends {A} (l : bool * bool * bool) (c : stream_state_t) :
    A → bool * bool * bool → stream_state_t → Prop :=
  λ _ l' c', l' = l ∧ c' = c.

Lemma spec_mono {A} l c (m : M A) (Q Q' : _ → _ → _ → Prop) :
  spec l c m Q → (∀ a l' c', Q a l' c' → Q' a l' c') → spec l c m Q'.
Proof.
  intros H HQ w Hw Hl Hc. eapply wp_mono; [by apply H|]. intros ?? [??]. eauto.
Qed.

Lemma spec_bind {A B} l c (m : M A) (k : A → M B) R Q :
  spec l c m R → (∀ a l' c', R a l' c' → spec l' c' (k a) Q) →
  spec l c (bind_M m k) Q.
Proof.
  intros Hm Hk w Hw Hl Hc. apply wp_bind. eapply wp_mono; [by apply Hm|].
  intros a w' [Hw' HR]. by apply (Hk a (locks w') (state_of w') HR w').
Qed.

Lemma spec_seq {A B} l c (m : M A) (k : A → M B) l' c' Q :
  spec l c m (ends l' c') → (∀ a, spec l' c' (k a) Q) → spec l c (bind_M m k) Q.
Proof. intros Hm Hk. eapply spec_bind; [done|]. intros a ? ? [-> ->]. apply Hk. Qed.

Lemma spec_ret {A} l c (x : A) (Q : _ → _ → _ → Prop) : Q x l c → spec l c (mret_M x) Q.
Proof. intros H w Hw <- <-. exists x, w. done. Qed.

Lemma spec_gets {A} (f : W → A) l c : spec l c (gets f) (ends l c).
Proof. intros w Hw <- <-. exists (f w), w. done. Qed.

(** Reading the stream object. *)
Lemma spec_strm {B} l c (k : StreamPCM → M B) Q :
  (∀ s, Forall U (mDevices s) → vol_ok s → currentState s = c → spec l c (k s) Q) →
  spec l c (bind_M (gets strm) k) Q.
Proof.
  intros H w Hw Hl Hc. apply wp_bind. exists (strm w), w. split; [done|].
  destruct Hw as (?&?&?). by apply H.
Qed.

Lemma spec_set_strm (f : StreamPCM → StreamPCM) l c c' :
  (∀ s, Forall U (mDevices s) → vol_ok s → currentState s = c →
     Forall U (mDevices (f s)) ∧ vol_ok (f s) ∧ currentState (f s) = c') →
  spec l c (set_strm f) (ends l c').
Proof.
  intros H w (Hd&Hv&Ht) <- <-. exists tt. eexists. split; [done|].
  destruct (H (strm w) Hd Hv eq_refl) as (?&?&?). done.
Qed.

Lemma spec_emit e l c : spec l c (emit e) (ends l c).
Proof. intros w Hw <- <-. exists tt. eexists. done. Qed.

Lemma spec_set_active x l c : spec l c (set_active x) (ends l c).
Proof. intros w Hw <- <-. exists tt. eexists. done. Qed.

Definition with_lock (m : mutex) (b : bool) (l : bool * bool * bool) : bool * bool * bool :=
  let '(s, g, a) := l in
  match m with
  | mStreamMutex => (b, g, a) | mGraphMutex => (s, b, a) | mActiveStreamMutex => (s, g, b)
  end.
Definition has_lock (m : mutex) (l : bool * bool * bool) : bool :=
  let '(s, g, a) := l in
  match m with mStreamMutex => s | mGraphMutex => g | mActiveStreamMutex => a end.

Lemma spec_lock m l c :
  has_lock m l = false → spec l c (lock m) (ends (with_lock m true l) c).
Proof.
  intros Hl w Hw <- <-. exists tt, (set_held m true w). unfold lock.
  destruct m; simpl in Hl |- *; rewrite Hl; done.
Qed.

Lemma spec_unlock m l c :
  has_lock m l = true → spec l c (unlock m) (ends (with_lock m false l) c).
Proof.
  intros Hl w Hw <- <-. exists tt, (set_held m false w). unfold unlock.
  destruct m; simpl in Hl |- *; rewrite Hl; done.
Qed.

Lemma spec_preempt l c : spec l c preempt (ends l c).
Proof.
  intros w Hw <- <-. unfold wp, preempt.
  pose proof (others_ok Hok (strm w) (devs w) (sess w) (card w) Hw) as H.
  destruct (others _ _ _ _) as [[[s' ds'] se'] c'].
  destruct H as [? Hs]. eexists _, _. split; [done|]. split; [done|]. done.
Qed.

Lemma spec_dev_call op id l c : U id → spec l c (dev_call op id) (ends l c).
Proof.
  intros HU w (Hd&Hv&Ht) <- <-. destruct (Ht id HU) as (d&Hl&Hdok).
  destruct (dev_total Hok op d Hdok) as (st&d'&Hop&Hd').
  unfold wp, dev_call. rewrite Hl. simpl. rewrite Hop. simpl.
  eexists _, _. split; [done|]. split; [|done]. split; [done|]. split; [done|].
  intros id' HU'. simpl. destruct (decide (id' = id)) as [->|].
  - rewrite lookup_insert_eq. eauto.
  - rewrite lookup_insert_ne by done. by apply Ht.
Qed.

Lemma spec_sess_call op l c : spec l c (sess_call op) (ends l c).
Proof.
  intros w Hw <- <-. unfold wp, sess_call. destruct (sess_op op (sess w)) as [st s'].
  eexists _, _. done.
Qed.

Lemma spec_lift {A} (o : option A) l c x : o = Some x → spec l c (lift o) (λ a l' c', a = x ∧ l' = l ∧ c' = c).
Proof. intros -> w Hw <- <-. by exists x, w. Qed.

Lemma spec_handle_bt l c : spec l c handle_bt (ends l c).
Proof.
  intros w Hw <- <-. unfold wp, handle_bt.
  pose proof (bt_ok Hok (strm w) (devs w) Hw) as H.
  destruct (handleBTDeviceNotReady _ _) as [[[st b] l] ds'].
  eexists _, _. split; [done|]. done.
Qed.

(** ** Loops *)

Lemma spec_call_all op ds l c : Forall U ds → ∀ st, spec l c (call_all op ds st) (ends l c).
Proof.
  induction 1 as [|d ds Hd _ IH]; intros st; simpl; [by apply spec_ret|].
  eapply spec_seq; [by apply spec_dev_call|]. intros. apply IH.
Qed.

Lemma spec_until_error op ds l c :
  Forall U ds → spec l c (call_until_error op ds) (ends l c).
Proof.
  induction 1 as [|d ds Hd _ IH]; simpl; [by apply spec_ret|].
  eapply spec_seq; [by apply spec_dev_call|]. intros st. by case_decide; [|apply spec_ret].
Qed.

Lemma spec_stop_all ds l c :
  Forall U ds → ∀ st, spec l c (stop_all_status ds st) (ends l c).
Proof.
  induction 1 as [|d ds Hd _ IH]; intros st; simpl; [by apply spec_ret|].
  eapply spec_seq; [by apply spec_dev_call|]. intros. apply IH.
Qed.

Lemma spec_for_each f ds l c :
  (∀ d, spec l c (f d) (ends l c)) → spec l c (for_each f ds) (ends l c).
Proof.
  intros Hf. induction ds as [|d ds IH]; simpl; [by apply spec_ret|].
  eapply spec_seq; [apply Hf|]. done.
Qed.

Lemma spec_register d l c : spec l c (registerDevice d) (ends l c).
Proof.
  eapply spec_seq; [apply spec_gets|]. intros a. case_decide; [by apply spec_ret|].
  apply spec_set_active.
Qed.

Lemma spec_deregister d l c : spec l c (deregisterDevice d) (ends l c).
Proof. eapply spec_seq; [apply spec_gets|]. intros a. apply spec_set_active. Qed.

Lemma spec_start_rx mmap l c todo : Forall U todo → ∀ kept st cached,
  Forall U kept → spec l c (start_rx_loop mmap kept todo st cached) (ends l c).
Proof.
  induction 1 as [|d todo Hd Htodo IH]; intros kept st cached Hk; simpl; [by apply spec_ret|].
  assert (Forall U (kept ++ [d])) by (apply Forall_app; auto).
  case_match; [by apply IH|]. eapply spec_seq; [by apply spec_dev_call|]. intros dst.
  case_decide; [by apply IH|].
  eapply spec_seq; [apply spec_sess_call|]. intros _.
  eapply spec_seq; [by apply spec_dev_call|]. intros _.
  eapply spec_seq; [|intros _; by apply IH].
  apply spec_set_strm. intros s ???. simpl. split; [by apply Forall_app|done].
Qed.

Lemma spec_stop_rx mmap l c ds : Forall U ds → ∀ st,
  spec l c (stop_rx_loop mmap ds st) (ends l c).
Proof.
  induction 1 as [|d ds Hd _ IH]; intros st; simpl; [by apply spec_ret|].
  case_match; [apply IH|]. eapply spec_seq; [by apply spec_dev_call|]. intros dst.
  case_decide; [apply IH|by apply spec_ret].
Qed.

Lemma spec_mmap_loop alone l c ds : Forall U ds → ∀ st b,
  spec l c (mmap_start_loop alone ds st b) (ends l c).
Proof.
  induction 1 as [|d ds Hd _ IH]; intros st b; simpl; [by apply spec_ret|].
  case_match; [|apply IH]. eapply spec_seq; [by apply spec_dev_call|]. intros dst.
  case_match; [by apply spec_ret|apply IH].
Qed.

Lemma filter_U (P : Z → Prop) `{∀ x, Decision (P x)} ds : Forall U ds → Forall U (filter P ds).
Proof. rewrite !Forall_forall. intros HF x [_ Hx]%list_elem_of_filter. auto. Qed.
Hint Resolve filter_U : core.

Lemma spec_if {A} (b : bool) l c (m1 m2 : M A) Q :
  spec l c m1 Q → spec l c m2 Q → spec l c (if b then m1 else m2) Q.
Proof. by destruct b. Qed.

(** ** The calls *)

(** One step of a program whose state and locks are known. *)
Ltac spec_step :=
  lazymatch goal with
  | |- spec _ _ (bind_M (gets strm) _) _ => apply spec_strm; intros ????
  | |- spec _ _ (bind_M _ _) _ => eapply spec_seq; [|intros ?]
  | |- spec _ _ (mret_M _) _ => apply spec_ret
  | |- spec _ _ (gets _) _ => apply spec_gets
  | |- spec _ _ card_down _ => apply spec_gets
  | |- spec _ _ card_up _ => apply spec_gets
  | |- spec _ _ errno _ => apply spec_gets
  | |- spec _ _ (lock _) _ => by apply spec_lock
  | |- spec _ _ (unlock _) _ => by apply spec_unlock
  | |- spec _ _ preempt _ => apply spec_preempt
  | |- spec _ _ (emit _) _ => apply spec_emit
  | |- spec _ _ (sess_call _) _ => apply spec_sess_call
  | |- spec _ _ (call_all _ _ _) _ => apply spec_call_all; by auto
  | |- spec _ _ (call_until_error _ _) _ => apply spec_until_error; by auto
  | |- spec _ _ (stop_all_status _ _) _ => apply spec_stop_all; by auto
  | |- spec _ _ (for_each registerDevice _) _ => apply spec_for_each; intros; apply spec_register
  | |- spec _ _ (for_each deregisterDevice _) _ => apply spec_for_each; intros; apply spec_deregister
  | |- spec _ _ handle_bt _ => apply spec_handle_bt
  | |- spec _ _ (start_rx_loop _ _ _ _ _) _ => apply spec_start_rx; by auto
  | |- spec _ _ (stop_rx_loop _ _ _) _ => apply spec_stop_rx; by auto
  | |- spec _ _ (mmap_start_loop _ _ _ _) _ => apply spec_mmap_loop; by auto
  | |- spec _ _ (set_strm _) _ => by apply spec_set_strm
  | |- spec _ _ (let '(_, _) := ?p in _) _ => destruct p
  | |- spec _ _ (if decide _ then _ else _) _ => case_decide
  | |- spec _ _ (if ?b then _ else _) _ => apply spec_if
  end; cbn [with_lock].

Lemma spec_start_session a c :
  spec (true, true, a) c start_session (ends (true, false, a) c).
Proof. unfold start_session. repeat spec_step; done. Qed.

Lemma spec_mute_l state l c : spec l c (mute_l state) (ends l c).
Proof.
  unfold mute_l. spec_step. case_match eqn:Hm.
  - repeat spec_step; done.
  - unfold vol_ok in *. destruct (mVolumeData s); [|done]. by case_decide; [|lia].
Qed.

Lemma spec_start_direction dir a c :
  spec (true, false, a) c (start_direction dir) (ends (true, false, a) c).
Proof.
  unfold start_direction, start_output, start_input, start_loopback.
  repeat first [spec_step | apply spec_start_session | case_match | apply spec_mute_l]; done.
Qed.

Lemma spec_stop_direction dir a c :
  spec (true, false, a) c (stop_direction dir) (ends (true, false, a) c).
Proof.
  unfold stop_direction, stop_output, stop_input, stop_loopback. repeat spec_step; done.
Qed.
(** *** Transitions of the calls, with [mStreamMutex] free *)

Definition to_started (c c' : stream_state_t) : Prop :=
  c' = c ∨ (c = STREAM_INIT ∨ c = STREAM_STOPPED) ∧ c' = STREAM_STARTED.
Definition to_stopped (c c' : stream_state_t) : Prop :=
  c' = match c with STREAM_STARTED | STREAM_PAUSED => STREAM_STOPPED | _ => c end.
Definition to_opened (st : Z) (c c' : stream_state_t) : Prop :=
  c' = c ∨ c = STREAM_IDLE ∧ c' = STREAM_INIT ∧ st = 0.

Lemma spec_open a c :
  spec (false, false, a) c open (λ st l' c', l' = (false, false, a) ∧ to_opened st c c').
Proof.
  unfold open. spec_step; [spec_step|]. spec_step. spec_step; [spec_step|].
  eapply (spec_bind _ _ _ _ (λ st l' c', l' = (true, false, a) ∧ to_opened st c c')).
  - apply spec_if; [by apply spec_ret; split; [|left]|].
    apply spec_if; [by apply spec_ret; split; [|left]|].
    destruct (currentState s) eqn:Hcur; subst c; try by apply spec_ret; split; [|left].
    spec_step; [spec_step|]. case_decide; [|by apply spec_ret; split; [|left]].
    spec_step; [spec_step|]. spec_step; [spec_step|]. spec_step; [spec_step|].
    case_decide.
    + eapply spec_seq; [apply (spec_set_strm _ _ _ STREAM_INIT); done|]. intros _.
      apply spec_ret. split; [done|]. right. subst. done.
    + eapply spec_mono; [by apply spec_call_all|].
      intros ??? [-> ->]. split; [done|by left].
  - intros st l' c' [-> ?]. spec_step; [spec_step|]. by apply spec_ret.
Qed.

Lemma spec_start c :
  spec (false, false, false) c start
    (λ _ l' c', l' = (false, false, false) ∧ to_started c c').
Proof.
  unfold start. spec_step; [spec_step|]. spec_step. spec_step; [spec_step|].
  eapply (spec_bind _ _ _ _ (λ st l' c', l' = (true, false, false) ∧ to_started c c')).
  - apply spec_if.
    { spec_step; [spec_step|]. by apply spec_ret; split; [|left]. }
    destruct (currentState s) eqn:Hcur; subst c;
      try by (apply spec_ret; split; [|left]).
    all: spec_step; [apply spec_start_direction|]; case_match.
    all: try by (apply spec_ret; rewrite ?Hcur; split; [|left]).
    all: try (spec_step; eapply spec_mono; [by apply spec_stop_all|];
                 intros ??? [-> ->]; split; [done|by left]).
    all: eapply spec_seq; [by apply (spec_set_strm _ _ _ STREAM_STARTED)|]; intros _.
    all: repeat spec_step; try done.
    all: split; [done|right]; rewrite ?Hcur; auto.
  - intros st l' c' [-> ?]. spec_step; [spec_step|]. by apply spec_ret.
Qed.

Lemma spec_stop c :
  spec (false, false, false) c stop
    (λ _ l' c', l' = (false, false, false) ∧ to_stopped c c').
Proof.
  unfold stop. spec_step; [spec_step|]. spec_step.
  eapply (spec_bind _ _ _ _ (λ st l' c', l' = (true, false, false) ∧ to_stopped c c')).
  - destruct (currentState s) eqn:Hcur; subst c; rewrite ?Hcur;
      try by (apply spec_ret; rewrite ?Hcur).
    all: do 4 (spec_step; [spec_step|]).
    all: eapply spec_seq; [by apply (spec_set_strm _ _ _ STREAM_STOPPED)|]; intros _.
    all: spec_step; spec_step; [spec_step|]; spec_step; [spec_step|].
    all: eapply spec_mono; [apply spec_stop_direction|].
    all: intros ??? [-> ->]; done.
  - intros st l' c' [-> ?]. spec_step; [spec_step|]. by apply spec_ret.
Qed.

Lemma spec_close a c :
  a = false ∨ (c ≠ STREAM_STARTED ∧ c ≠ STREAM_PAUSED) →
  spec (false, false, a) c close (λ _ l' c', l' = (false, false, a) ∧ c' = STREAM_IDLE).
Proof.
  intros Ha. unfold close. spec_step; [spec_step|]. spec_step.
  destruct (currentState s) eqn:Hcur; subst c; rewrite ?Hcur in Ha |- *.
  1: { spec_step; [spec_step|]. by apply spec_ret. }
  all: eapply (spec_bind _ _ _ _ (λ _ l' _, l' = (true, false, a)));
    [|intros _ ? c' ->].
  all: lazymatch goal with
    | |- context [stop] =>
        destruct Ha as [->|[??]]; [|done]; do 2 (spec_step; [spec_step|]);
        eapply spec_bind; [apply spec_stop|]; intros ??? [-> _];
        spec_step; [spec_step|]; eapply spec_mono; [by apply spec_lock|];
        intros ??? [-> _]; done
    | |- context [mret_M tt] => repeat spec_step; done
    | |- _ => idtac
    end.
  all: do 2 (spec_step; [spec_step|]); spec_step; spec_step; [spec_step|].
  all: eapply spec_seq; [by apply (spec_set_strm _ _ _ STREAM_IDLE)|]; intros _.
  all: repeat spec_step; done.
Qed.

(** *** Volume *)

(** What a client may pass: at most 31 pairs, all of them present. *)
Definition volume_ok (v : pal_volume_data) : Prop :=
  0 ≤ no_of_volpair v ≤ 31 ∧ no_of_volpair v ≤ zlen (volume_pair v).

Lemma volSize_exact v : 0 ≤ no_of_volpair v ≤ 31 →
  volSize v = 4 + 8 * no_of_volpair v.
Proof. intros. unfold volSize. apply u8_small. lia. Qed.

Lemma copy_volume_ok v : volume_ok v →
  ∃ pairs, copy_volume v = Some (mkVol (no_of_volpair v) pairs) ∧
    slice 0 (no_of_volpair v) (volume_pair v) = Some pairs ∧
    zlen pairs = no_of_volpair v.
Proof.
  intros [Hn Hl]. unfold copy_volume. rewrite volSize_exact by done.
  replace ((4 + 8 * no_of_volpair v - 4) / 8) with (no_of_volpair v)
    by (replace (4 + 8 * no_of_volpair v - 4) with (no_of_volpair v * 8) by lia;
        by rewrite Z.div_mul).
  destruct (slice_is_Some 0 (no_of_volpair v) (volume_pair v)) as [r Hr]; [lia..|].
  rewrite Hr. exists r. repeat split. by eapply slice_length.
Qed.

Lemma force_ok v : 0 ≤ no_of_volpair v ≤ zlen (volume_pair v) →
  ∃ b, force_set_parameters v = Some b.
Proof.
  intros [??]. unfold force_set_parameters.
  destruct (slice_is_Some 0 (no_of_volpair v) (volume_pair v)) as [r ->]; [lia..|].
  simpl. destruct r; eauto.
Qed.

(** More pairs than an [uint8_t] counts: the block is short. *)
Lemma copy_volume_short v : 32 ≤ no_of_volpair v →
  ∃ ps n, (copy_volume v = None ∨ copy_volume v = Some (mkVol (no_of_volpair v) ps)) ∧
    zlen ps = n ∧ n < no_of_volpair v.
Proof.
  intros Hn. unfold copy_volume. set (m := (volSize v - 4) / 8).
  assert (m < no_of_volpair v) as Hm.
  { unfold m, volSize. word_lia. }
  destruct (slice 0 m (volume_pair v)) as [ps|] eqn:Hs.
  - exists ps, m. split; [by right|]. split; [by eapply slice_length|done].
  - exists [], 0. split; [by left|]. split; [done|lia].
Qed.

Lemma force_out ps n : zlen ps < n → force_set_parameters (mkVol n ps) = None.
Proof. intros. unfold force_set_parameters, slice. simpl. rewrite decide_False by lia. done. Qed.

Lemma spec_setVolume ok volume l c :
  (∀ v, volume = Some v → volume_ok v) →
  spec l c (setVolume ok volume) (ends l c).
Proof.
  intros Hv. unfold setVolume. destruct volume as [v|]; [|by spec_step].
  specialize (Hv v eq_refl). case_decide; [by spec_step|].
  apply spec_if.
  { repeat spec_step; done. }
  destruct (copy_volume_ok v Hv) as (ps&Hcopy&_&Hlen).
  eapply spec_bind; [by apply spec_lift|]. intros ??? (->&->&->).
  eapply spec_seq.
  { apply (spec_set_strm _ _ _ c). intros s ???. split; [done|]. split; [|done].
    simpl. unfold vol_ok. simpl. destruct Hv. lia. }
  intros _. destruct (force_ok (mkVol (no_of_volpair v) ps)) as [b Hb].
  { destruct Hv. simpl. lia. }
  eapply spec_bind; [by apply spec_lift|]. intros ??? (->&->&->).
  spec_step. spec_step; [spec_step|]. apply spec_if; [by spec_step|].
  repeat first [done | spec_step | apply spec_mute_l].
Qed.

(** *** The other calls *)

Lemma spec_read n a c : 0 ≤ s32 n →
  spec (false, false, a) c (read n) (ends (false, false, a) c).
Proof.
  intros Hn. unfold read. spec_step; [spec_step|]. spec_step. spec_step; [spec_step|].
  apply (spec_seq _ _ _ _ (true, false, a) c); [|intros ?; repeat spec_step; done].
  apply spec_if.
  - case_decide; [by spec_step|]. rewrite decide_False by lia.
    repeat spec_step; done.
  - destruct (currentState s); repeat spec_step; done.
Qed.

Definition to_written (c c' : stream_state_t) : Prop :=
  c' = c ∨ c = STREAM_PAUSED ∧ c' = STREAM_STARTED.

Lemma spec_write n c :
  spec (false, false, false) c (write n)
    (λ _ l' c', l' = (false, false, false) ∧ to_written c c').
Proof.
  unfold write. spec_step; [spec_step|]. spec_step. spec_step; [spec_step|].
  apply spec_if.
  { case_decide; repeat spec_step; by split; [|left]. }
  destruct (currentState s) eqn:Hcur; subst c; rewrite ?Hcur.
  1, 2, 3, 6, 7: repeat spec_step; by split; [|left].
  all: do 5 (spec_step; [spec_step|]); case_decide;
    [|spec_step; [spec_step|]; spec_step; [spec_step|];
      apply spec_if; [|apply spec_if]; repeat spec_step; by split; [|left]].
  all: spec_step; case_match eqn:Hp; [|by spec_step; split; [|left]].
  all: do 5 (spec_step; [spec_step|]).
  all: eapply spec_seq; [by apply (spec_set_strm _ _ _ STREAM_STARTED)|]; intros _.
  all: apply spec_ret; split; [done|].
  all: rewrite ?Hcur; first [by left|by right].
Qed.

Lemma spec_locked (m : M Z) a c (R : Z → stream_state_t → Prop) :
  spec (true, false, a) c m (λ st l' c', l' = (true, false, a) ∧ R st c') →
  spec (false, false, a) c (locked m) (λ st l' c', l' = (false, false, a) ∧ R st c').
Proof.
  intros Hm. unfold locked. spec_step; [spec_step|].
  eapply spec_bind; [apply Hm|]. intros st l' c' [-> ?].
  spec_step; [spec_step|]. by apply spec_ret.
Qed.

Lemma spec_locked_ends (m : M Z) a c :
  spec (true, false, a) c m (ends (true, false, a) c) →
  spec (false, false, a) c (locked m) (ends (false, false, a) c).
Proof. apply (spec_locked m a c (λ _ c', c' = c)). Qed.

Definition to_paused (st : Z) (c c' : stream_state_t) : Prop :=
  c' = if decide (st = 0) then STREAM_PAUSED else c.

Lemma spec_pause a c :
  spec (false, false, a) c pause (λ st l' c', l' = (false, false, a) ∧ to_paused st c c').
Proof.
  apply (spec_locked _ _ _ (λ st, to_paused st c)). unfold pause_l.
  spec_step; [spec_step|]. spec_step.
  apply spec_if; [|apply spec_if]; repeat lazymatch goal with
  | |- spec _ _ (bind_M (set_strm (set_currentState _)) _) _ =>
      eapply spec_seq; [by apply (spec_set_strm _ _ _ STREAM_PAUSED)|]; intros _
  | |- spec _ _ _ _ => spec_step
  end; try done.
  split; [done|]. unfold to_paused. by rewrite decide_False.
Qed.

Lemma spec_resume ok a c : spec (false, false, a) c (resume ok) (ends (false, false, a) c).
Proof.
  apply spec_locked_ends. unfold resume_l. spec_step; [spec_step|].
  apply spec_if; [repeat spec_step; done|].
  spec_step; [spec_step|]. case_decide; [|by spec_step].
  spec_step; [spec_step|]. spec_step. destruct (mVolumeData s) as [v|] eqn:Hv.
  2: { rewrite bool_decide_false by (by intros [? ?]). cbn [andb]. by spec_step. }
  apply spec_if; [|by spec_step].
  assert (volume_ok v) as [??] by (unfold vol_ok in *; by rewrite Hv in *).
  destruct (slice_is_Some 0 (no_of_volpair v) (volume_pair v)) as [r Hr]; [lia..|].
  eapply spec_bind.
  { apply spec_lift. unfold getVolumeData. rewrite Hv, Hr. done. }
  intros ??? (->&->&->). cbn [fst snd]. rewrite decide_True by done.
  apply (spec_seq _ _ _ _ (true, false, a) c); [|intros ?; by spec_step].
  apply spec_setVolume. intros ? [= <-]. apply slice_length in Hr. split; simpl; lia.
Qed.

(** What the client passes to the calls with arguments. *)
Definition api_ok (call : pcm_api) : Prop :=
  match call with
  | ASetVolume _ (Some v) => volume_ok v
  | ARead n => 0 ≤ s32 n
  | _ => True
  end.

(** The change of [currentState] a call may make. *)
Definition transition (call : pcm_api) (st : Z) (c c' : stream_state_t) : Prop :=
  match call with
  | AOpen => to_opened st c c'
  | AClose => c' = STREAM_IDLE
  | AStart => to_started c c'
  | AStop => to_stopped c c'
  | APause => to_paused st c c'
  | AWrite _ => to_written c c'
  | _ => c' = c
  end.

Definition unlocked : bool * bool * bool := (false, false, false).

Lemma spec_api call c : api_ok call →
  spec unlocked c (run_api call) (λ st l' c', l' = unlocked ∧ transition call st c c').
Proof.
  unfold unlocked. destruct call; simpl; intros Hapi.
  - apply spec_open.
  - apply spec_close. by left.
  - apply spec_start.
  - apply spec_stop.
  - apply spec_pause.
  - apply spec_locked_ends. repeat first [done | spec_step | case_match].
  - apply spec_resume.
  - apply spec_locked_ends, spec_mute_l.
  - apply spec_setVolume. intros v ->. done.
  - by apply spec_read.
  - apply spec_write.
  - unfold setParameters. destruct payload; [|by spec_step].
    spec_step; [spec_step|]. spec_step.
    destruct (currentState s); repeat spec_step; done.
  - apply spec_locked_ends, spec_sess_call.
  - apply spec_locked_ends, spec_sess_call.
  - apply spec_locked_ends. spec_step.
    destruct (currentState s); repeat first [done | spec_step].
Qed.

(** *** Recovery, called with the lock of the active streams *)

Lemma spec_ssrDown c :
  spec (false, false, true) c ssrDownHandler
    (λ _ l' c', l' = (false, false, true) ∧ (c' = STREAM_IDLE ∨ c' = c)).
Proof.
  unfold ssrDownHandler. spec_step; [spec_step|]. spec_step. case_match.
  2: { repeat spec_step; try done. by split; [|right]. }
  apply (spec_seq _ _ _ _ (true, false, true) c); [case_decide; repeat spec_step; done|].
  intros _.
  apply (spec_bind _ _ _ _ (λ _ l' _, l' = (false, false, true))).
  2: { intros ??? ->. eapply spec_seq; [by apply (spec_set_strm _ _ _ STREAM_IDLE)|].
       intros _. apply spec_ret. auto. }
  destruct (currentState s) eqn:Hcur; subst c; rewrite ?Hcur.
  1, 3, 6: repeat spec_step; done.
  1, 4: do 2 (spec_step; [spec_step|]); eapply spec_mono; [apply spec_close; by right|];
    by intros ??? [-> _].
  all: do 3 (spec_step; [spec_step|]); eapply spec_bind; [apply spec_stop|]; intros ??? [-> _];
    spec_step; [spec_step|]; eapply spec_bind; [apply spec_close; by left|]; intros ??? [-> _];
    repeat spec_step; done.
Qed.

Lemma spec_reopen (k : M Z) c :
  (∀ c, spec (false, false, true) c k (λ _ l' _, l' = (false, false, true))) →
  spec (true, false, true) c (reopen_and_start k) (λ _ l' _, l' = (false, false, true)).
Proof.
  intros Hk. unfold reopen_and_start. do 2 (spec_step; [spec_step|]).
  eapply spec_bind; [apply spec_open|]. intros ??? [-> _]. case_decide; [|by spec_step].
  do 2 (spec_step; [spec_step|]). eapply spec_bind; [apply spec_start|]. intros ??? [-> _].
  spec_step; [spec_step|]. case_decide; [|by spec_step].
  spec_step. case_decide; [apply Hk|by spec_step].
Qed.

Lemma spec_ssrUp c :
  spec (false, false, true) c ssrUpHandler (λ _ l' _, l' = (false, false, true)).
Proof.
  unfold ssrUpHandler. spec_step; [spec_step|]. spec_step. case_match.
  { repeat spec_step; done. }
  apply (spec_bind _ _ _ _ (λ _ l' _, l' = (false, false, true))).
  2: { intros ? ? c' ->. eapply spec_seq; [by apply (spec_set_strm _ _ _ c')|].
       intros _. by apply spec_ret. }
  destruct (cachedState s).
  1, 3, 6, 7: repeat spec_step; done.
  - do 2 (spec_step; [spec_step|]). eapply spec_mono; [apply spec_open|]. by intros ??? [-> _].
  - apply spec_reopen. intros. by apply spec_ret.
  - apply spec_reopen. intros. eapply spec_mono; [apply spec_pause|]. by intros ??? [-> _].
Qed.

Definition input_ok (i : pcm_input) : Prop :=
  match i with InCall a => api_ok a | _ => True end.

Lemma spec_with_active (m : M Z) c :
  spec (false, false, true) c m (λ _ l' _, l' = (false, false, true)) →
  spec unlocked c (with_active m) (λ _ l' _, l' = unlocked).
Proof.
  intros Hm. unfold with_active. spec_step; [spec_step|].
  eapply spec_bind; [apply Hm|]. intros ??? ->. spec_step; [spec_step|]. by apply spec_ret.
Qed.

Lemma spec_input i c : input_ok i → spec unlocked c (run_input i) (λ _ l' _, l' = unlocked).
Proof.
  intros Hi. destruct i; simpl.
  - eapply spec_mono; [by apply spec_api|]. by intros ??? [-> _].
  - intros w Hw <- <-. by exists 0, (set_card c0 w).
  - apply spec_with_active. eapply spec_mono; [apply spec_ssrDown|]. by intros ??? [-> _].
  - apply spec_with_active, spec_ssrUp.
Qed.

Lemma spec_inputs l : Forall input_ok l → ∀ c,
  spec unlocked c (run_inputs l) (λ sts l' _, l' = unlocked ∧ length sts = length l).
Proof.
  induction 1 as [|i l Hi _ IH]; intros c; simpl; [by apply spec_ret|].
  eapply spec_bind; [by apply spec_input|]. intros ??? ->.
  eapply spec_bind; [apply IH|]. intros sts ?? [-> ?]. apply spec_ret. simpl. auto.
Qed.
End facts.

(** ** Exact runs

    When no call of a device fails, the session answers each call with a fixed
    status and no other thread interferes, the calls are determined by the stream
    object, the sound card and the locks.  [log] lists the calls the session has
    received. *)

Section exact.
Context {D S : Type} `{Henv : !PcmEnv D S}.
Local Abbreviation W := (World D S).
Context (log : S → list SessCall) (answer : SessCall → Z) (U : list Z).

Record healthy : Prop := {
  devs_succeed : ∀ c d, ∃ d', dev_op c d = Some (0, d');
  sess_answers : ∀ c s, (sess_op c s).1 = answer c ∧ log (sess_op c s).2 = log s ++ [c];
  no_reset : ∀ s, sess_errno s ≠ - ENETRESET;
  alone : ∀ s ds se c, others s ds se c = (s, ds, se, c);
  no_bt : ∀ id, isBtDevice id = false;
  bt_ready : ∀ l ds, handleBTDeviceNotReady l ds = (0, false, l, ds);
  feasible : ∀ t, isSsrDownFeasible t = true;
}.
Context (Hh : healthy).

Record view := View {
  v_strm : StreamPCM;
  v_card : card_status_t;
  v_locks : bool * bool * bool;
  v_log : list SessCall;
}.

Definition shows (v : view) (w : W) : Prop :=
  strm w = v_strm v ∧ card w = v_card v ∧ locks w = v_locks v ∧ log (sess w) = v_log v ∧
  ∀ id, id ∈ U → is_Some (devs w !! id).

(** [m] returns [r] and takes the view [v] to [v']. *)
Definition runs {A} (v : view) (m : M A) (r : A) (v' : view) : Prop :=
  ∀ w, shows v w → ∃ w', m w = Some (r, w') ∧ shows v' w'.

Lemma runs_bind {A B} v (m : M A) (k : A → M B) r v' r' v2 :
  runs v m r v' → runs v' (k r) r' v2 → runs v (bind_M m k) r' v2.
Proof.
  intros Hm Hk w Hw. destruct (Hm w Hw) as (w'&Hm'&Hw'). unfold bind_M. rewrite Hm'. by apply Hk.
Qed.
Lemma runs_ret {A} v (x : A) : runs v (mret_M x) x v.
Proof. intros w Hw. by exists w. Qed.
Lemma runs_gets {A B} v (f : W → A) (k : A → M B) r v' x :
  (∀ w, shows v w → f w = x) → runs v (k x) r v' → runs v (bind_M (gets f) k) r v'.
Proof. intros Hf Hk w Hw. unfold bind_M, gets. rewrite (Hf w Hw). by apply Hk. Qed.
Lemma runs_strm {B} v (k : StreamPCM → M B) r v' :
  runs v (k (v_strm v)) r v' → runs v (bind_M (gets strm) k) r v'.
Proof. apply runs_gets. by intros w (?&_). Qed.
Lemma runs_down {B} v (k : bool → M B) r v' :
  runs v (k (PAL_CARD_STATUS_DOWN (v_card v))) r v' → runs v (bind_M card_down k) r v'.
Proof. apply runs_gets. by intros w (_&->&_). Qed.
Lemma runs_set_strm v f :
  runs v (set_strm f) tt (View (f (v_strm v)) (v_card v) (v_locks v) (v_log v)).
Proof.
  intros w (Hs&Hc&Hl&Hg&Hd). eexists. split; [done|]. unfold shows. simpl. by rewrite Hs.
Qed.
Lemma runs_lock m s c l g :
  has_lock m l = false → runs (View s c l g) (lock m) tt (View s c (with_lock m true l) g).
Proof.
  intros Hm w (Hs&Hc&Hl&Hg&Hd). simpl in Hl. subst l. exists (set_held m true w). unfold lock.
  destruct m; simpl in Hm |- *; rewrite Hm; done.
Qed.
Lemma runs_unlock m s c l g :
  has_lock m l = true → runs (View s c l g) (unlock m) tt (View s c (with_lock m false l) g).
Proof.
  intros Hm w (Hs&Hc&Hl&Hg&Hd). simpl in Hl. subst l. exists (set_held m false w). unfold unlock.
  destruct m; simpl in Hm |- *; rewrite Hm; done.
Qed.
Lemma runs_preempt v : runs v preempt tt v.
Proof.
  intros w Hw. unfold preempt. rewrite (alone Hh). eexists. split; [done|]. by destruct w.
Qed.
Lemma runs_emit v e : runs v (emit e) tt v.
Proof. intros w Hw. eexists. split; [done|]. done. Qed.
Lemma runs_sess_answer v c :
  runs v (sess_call c) (answer c) (View (v_strm v) (v_card v) (v_locks v) (v_log v ++ [c])).
Proof.
  intros w (Hs&Hc&Hl&Hg&Hd). unfold sess_call. destruct (sess_answers Hh c (sess w)) as [H1 H2].
  destruct (sess_op c (sess w)) as [st s']; simpl in *. subst. eexists. split; [done|].
  unfold shows. simpl. by rewrite H2, Hg.
Qed.
Lemma runs_errno {B} v (k : Z → M B) r v' :
  (∀ e, e ≠ - ENETRESET → runs v (k e) r v') → runs v (bind_M errno k) r v'.
Proof. intros Hk w Hw. unfold bind_M, errno, gets. apply Hk; [apply (no_reset Hh)|done]. Qed.
Lemma runs_dev v c id : id ∈ U → runs v (dev_call c id) 0 v.
Proof.
  intros Hid w (Hs&Hc&Hl&Hg&Hd). unfold dev_call. destruct (Hd id Hid) as [d Hdid].
  rewrite Hdid. destruct (devs_succeed Hh c d) as [d' Hop]. simpl. rewrite Hop. simpl.
  eexists. split; [done|]. repeat split; try done. intros id' ?. simpl.
  destruct (decide (id' = id)) as [->|]; [by rewrite lookup_insert_eq|].
  rewrite lookup_insert_ne by done. auto.
Qed.
Lemma runs_handle_bt v : runs v handle_bt (0, false) v.
Proof.
  intros w Hw. unfold handle_bt. rewrite (bt_ready Hh). eexists. split; [done|].
  destruct w as [s]. by destruct s.
Qed.

Lemma runs_call_all v c ds : ds ⊆ U → runs v (call_all c ds 0) 0 v.
Proof.
  induction ds as [|d ds IH]; intros HU; simpl; [apply runs_ret|].
  eapply runs_bind; [apply runs_dev; set_solver|]. apply IH. set_solver.
Qed.
Lemma runs_until_error v c ds : ds ⊆ U → runs v (call_until_error c ds) 0 v.
Proof.
  induction ds as [|d ds IH]; intros HU; simpl; [apply runs_ret|].
  eapply runs_bind; [apply runs_dev; set_solver|]. apply IH. set_solver.
Qed.
Lemma runs_start_rx v mmap cs todo : todo ⊆ U → ∀ kept st,
  runs v (start_rx_loop mmap kept todo st cs) (if decide (todo = []) then st else 0, cs) v.
Proof.
  induction todo as [|d ds IH]; intros HU kept st; simpl; [apply runs_ret|].
  assert (∀ kept, runs v (start_rx_loop mmap kept ds 0 cs) (0, cs) v) as Hrest.
  { intros k. specialize (IH ltac:(set_solver) k 0). by case_decide. }
  destruct (mmap_device d && mmap); [apply Hrest|].
  eapply runs_bind; [apply runs_dev; set_solver|]. apply Hrest.
Qed.
Lemma runs_stop_rx v mmap ds : ds ⊆ U → runs v (stop_rx_loop mmap ds 0) 0 v.
Proof.
  induction ds as [|d ds IH]; intros HU; simpl; [apply runs_ret|].
  case_match; [apply IH; set_solver|].
  eapply runs_bind; [apply runs_dev; set_solver|]. apply IH. set_solver.
Qed.
Lemma runs_register v id : runs v (registerDevice id) tt v.
Proof.
  intros w Hw. unfold registerDevice, bind_M, gets. case_decide; eexists; (split; [done|done]).
Qed.
Lemma runs_deregister v id : runs v (deregisterDevice id) tt v.
Proof. intros w Hw. eexists. split; [done|done]. Qed.
Lemma runs_for_each v f ds : (∀ d, runs v (f d) tt v) → runs v (for_each f ds) tt v.
Proof.
  intros Hf. induction ds as [|d ds IH]; simpl; [apply runs_ret|].
  by eapply runs_bind.
Qed.
Lemma filter_sub (P : Z → Prop) `{∀ x, Decision (P x)} ds : ds ⊆ U → filter P ds ⊆ U.
Proof. intros HU x [_ Hx]%list_elem_of_filter. auto. Qed.
Hint Resolve filter_sub : core.

Ltac runs_step0 :=
  lazymatch goal with
  | |- runs _ (bind_M (gets strm) _) _ _ => apply runs_strm
  | |- runs _ (bind_M card_down _) _ _ => apply runs_down
  | |- runs _ (bind_M errno _) _ _ => apply runs_errno; intros ??
  | |- runs _ (bind_M _ _) _ _ => eapply runs_bind
  | |- runs _ (mret_M _) _ _ => apply runs_ret
  | |- runs _ (lock _) _ _ => by apply runs_lock
  | |- runs _ (unlock _) _ _ => by apply runs_unlock
  | |- runs _ preempt _ _ => apply runs_preempt
  | |- runs _ (emit _) _ _ => apply runs_emit
  | |- runs _ (set_strm _) _ _ => apply runs_set_strm
  | |- runs _ handle_bt _ _ => apply runs_handle_bt
  | |- runs _ (call_all _ _ 0) _ _ => apply runs_call_all; by auto
  | |- runs _ (call_until_error _ _) _ _ => apply runs_until_error; by auto
  | |- runs _ (stop_rx_loop _ _ 0) _ _ => apply runs_stop_rx; by auto
  | |- runs _ (start_rx_loop _ _ _ _ _) _ _ => apply runs_start_rx; by auto
  | |- runs _ (for_each registerDevice _) _ _ => apply runs_for_each, runs_register
  | |- runs _ (for_each deregisterDevice _) _ _ => apply runs_for_each, runs_deregister
  | |- runs _ (if decide (0 = 0) then _ else _) _ _ => rewrite decide_True by done
  | |- runs _ (if decide _ then _ else _) _ _ => rewrite decide_False by done
  end; cbn [v_strm v_card v_locks v_log with_lock].

Ltac runs_step := runs_step0.

(** A session that refuses to open: the devices are closed again, and the status
    is that of the last close. *)
Lemma runs_bt_ready ds : bt_unready ds = false.
Proof.
  unfold bt_unready. generalize (length ds). intros n.
  induction ds as [|d l IH]; [done|]. simpl. by rewrite (no_bt Hh), IH.
Qed.

Lemma runs_call_all_ne v c ds st : ds ⊆ U → ds ≠ [] → runs v (call_all c ds st) 0 v.
Proof.
  destruct ds as [|d ds]; [done|]. intros HU _. simpl.
  eapply runs_bind; [apply runs_dev; set_solver|]. apply runs_call_all. set_solver.
Qed.

Lemma runs_open_refused s c a g :
  answer SOpen ≠ 0 → PAL_CARD_STATUS_DOWN c = false → mDevices s ⊆ U → mDevices s ≠ [] →
  currentState s = STREAM_IDLE →
  runs (View s c (false, false, a) g) open 0 (View s c (false, false, a) (g ++ [SOpen])).
Proof.
  intros Hans Hc HU Hne Hst. unfold open. runs_step; [runs_step|]. runs_step. runs_step.
  rewrite Hc, runs_bt_ready, Hst.
  apply (runs_bind _ _ _ 0 (View s c (true, false, a) (g ++ [SOpen]))); [|repeat runs_step].
  runs_step; [runs_step|]. runs_step. runs_step; [runs_step|].
  eapply runs_bind; [apply runs_sess_answer|]. cbn [v_strm v_card v_locks v_log].
  runs_step; [runs_step|]. runs_step. by apply runs_call_all_ne.
Qed.

(** From here on the session succeeds. *)
Context (Hz : ∀ c, answer c = 0).

Lemma runs_sess v c :
  runs v (sess_call c) 0 (View (v_strm v) (v_card v) (v_locks v) (v_log v ++ [c])).
Proof. rewrite <- (Hz c). apply runs_sess_answer. Qed.

Ltac runs_step ::=
  lazymatch goal with
  | |- runs _ (sess_call _) _ _ => apply runs_sess; cbn [v_strm v_card v_locks v_log]
  | |- _ => runs_step0
  end.

(** The directions a stream can be started in, with its devices. *)
Definition startable (s : StreamPCM) : Prop :=
  direction (mStreamAttr s) ∈ [PAL_AUDIO_OUTPUT; PAL_AUDIO_INPUT; PAL_AUDIO_INPUT_OUTPUT] ∧
  mDevices s ≠ [] ∧ mDevices s ⊆ U.

Lemma runs_start_session s c a g :
  runs (View s c (true, true, a) g) start_session (Break 0)
    (View s c (true, false, a) ((g ++ [SPrepare]) ++ [SStart])).
Proof. unfold start_session. repeat runs_step. Qed.

Lemma runs_start_direction s c a g : startable s →
  runs (View s c (true, false, a) g) (start_direction (direction (mStreamAttr s))) (Break 0)
    (View s c (true, false, a) ((g ++ [SPrepare]) ++ [SStart])).
Proof.
  intros (Hdir&Hne&HU). unfold start_direction, start_output, start_input, start_loopback.
  repeat (apply elem_of_cons in Hdir as [->|Hdir]); [..|by apply elem_of_nil in Hdir].
  all: repeat (first [rewrite decide_True by done|rewrite decide_False by done]).
  - runs_step; [runs_step|]. cbv beta iota. runs_step. runs_step; [runs_step|].
    runs_step. runs_step. runs_step; [runs_step|]. rewrite decide_False by done.
    cbv beta iota. runs_step. runs_step; [apply runs_start_session|].
    cbv beta iota. runs_step. simpl. runs_step.
  - repeat first [apply runs_start_session|runs_step].
  - repeat first [apply runs_start_session|runs_step].
Qed.

Lemma runs_start s c g :
  PAL_CARD_STATUS_DOWN c = false → startable s →
  currentState s = STREAM_INIT ∨ currentState s = STREAM_STOPPED →
  runs (View s c unlocked g) start 0
    (View (set_currentState STREAM_STARTED s) c unlocked ((g ++ [SPrepare]) ++ [SStart])).
Proof.
  intros Hc Hs Hst. unfold start, unlocked. runs_step; [runs_step|]. runs_step. runs_step.
  rewrite Hc.
  apply (runs_bind _ _ _ 0 (View (set_currentState STREAM_STARTED s) c (true, false, false)
    ((g ++ [SPrepare]) ++ [SStart]))); [|repeat runs_step].
  destruct Hst as [-> | ->].
  all: runs_step; [by apply runs_start_direction|]; cbv beta iota.
  all: do 5 (runs_step; [runs_step|]); repeat runs_step.
Qed.

Lemma runs_open s c a g :
  PAL_CARD_STATUS_DOWN c = false → mDevices s ⊆ U → currentState s = STREAM_IDLE →
  runs (View s c (false, false, a) g) open 0
    (View (set_currentState STREAM_INIT s) c (false, false, a) (g ++ [SOpen])).
Proof.
  intros Hc HU Hst. unfold open. runs_step; [runs_step|]. runs_step. runs_step.
  rewrite Hc, runs_bt_ready, Hst.
  apply (runs_bind _ _ _ 0 (View (set_currentState STREAM_INIT s) c (true, false, a)
    (g ++ [SOpen]))); [|repeat runs_step].
  repeat runs_step.
Qed.

Lemma runs_stop s c g :
  direction (mStreamAttr s) ∈ [PAL_AUDIO_OUTPUT; PAL_AUDIO_INPUT; PAL_AUDIO_INPUT_OUTPUT] →
  mDevices s ⊆ U → currentState s = STREAM_STARTED ∨ currentState s = STREAM_PAUSED →
  runs (View s c unlocked g) stop 0
    (View (set_currentState STREAM_STOPPED s) c unlocked (g ++ [SStop])).
Proof.
  intros Hdir HU Hst. unfold stop, unlocked. runs_step; [runs_step|]. runs_step.
  apply (runs_bind _ _ _ 0 (View (set_currentState STREAM_STOPPED s) c (true, false, false)
    (g ++ [SStop]))); [|repeat runs_step].
  destruct Hst as [-> | ->].
  all: do 5 (runs_step; [runs_step|]); runs_step; do 2 (runs_step; [runs_step|]).
  all: unfold stop_direction, stop_output, stop_input, stop_loopback; cbn [mStreamAttr set_currentState].
  all: repeat (apply elem_of_cons in Hdir as [->|Hdir]); [..|by apply elem_of_nil in Hdir].
  all: repeat (first [rewrite decide_True by done|rewrite decide_False by done]).
  all: repeat runs_step.
Qed.

Lemma runs_close_opened s c a g : mDevices s ⊆ U →
  currentState s = STREAM_INIT ∨ currentState s = STREAM_STOPPED →
  runs (View s c (false, false, a) g) close 0
    (View (set_currentState STREAM_IDLE s) c (false, false, a) (g ++ [SClose])).
Proof.
  intros HU Hst. unfold close. runs_step; [runs_step|]. runs_step.
  destruct Hst as [-> | ->].
  all: apply (runs_bind _ _ _ tt (View s c (true, false, a) g)); [repeat runs_step|].
  all: repeat runs_step.
Qed.

(** The state in which [close] follows [stop]. *)
Lemma runs_close_stopped s c g : mDevices s ⊆ U →
  runs (View (set_currentState STREAM_STOPPED s) c unlocked g) close 0
    (View (set_currentState STREAM_IDLE s) c unlocked (g ++ [SClose])).
Proof.
  intros HU. pose proof (runs_close_opened (set_currentState STREAM_STOPPED s) c false g HU) as H.
  apply H. by right.
Qed.

Lemma runs_pause_l s c g a :
  PAL_CARD_STATUS_DOWN c = false →
  runs (View s c (false, false, a) g) pause 0
    (View (set_currentState STREAM_PAUSED (set_isPaused true s)) c (false, false, a)
       (if isPaused s then g else g ++ [SPause])).
Proof.
  intros Hc. unfold pause, locked, pause_l. runs_step; [runs_step|].
  apply (runs_bind _ _ _ 0
    (View (set_currentState STREAM_PAUSED (set_isPaused true s)) c (true, false, a)
       (if isPaused s then g else g ++ [SPause]))); [|repeat runs_step].
  runs_step. runs_step. rewrite Hc. destruct (isPaused s); repeat runs_step.
Qed.

(** *** The handlers *)

Lemma set_idle s : cachedState s = STREAM_IDLE →
  set_cachedState STREAM_IDLE s = s.
Proof. destruct s. simpl. by intros ->. Qed.

Lemma runs_down_opened s c g : mDevices s ⊆ U → cachedState s = STREAM_IDLE →
  currentState s = STREAM_INIT ∨ currentState s = STREAM_STOPPED →
  runs (View s c (false, false, true) g) ssrDownHandler 0
    (View (set_currentState STREAM_IDLE (set_cachedState (currentState s) s)) c
       (false, false, true) (g ++ [SClose])).
Proof.
  intros HU Hca Hst. unfold ssrDownHandler. runs_step; [runs_step|]. runs_step.
  rewrite (feasible Hh). rewrite decide_True by done. runs_step; [runs_step|].
  cbn [v_strm v_card v_locks v_log].
  assert (mDevices (set_cachedState (currentState s) s) ⊆ U ∧
    mStreamAttr (set_cachedState (currentState s) s) = mStreamAttr s ∧
    currentState (set_cachedState (currentState s) s) = currentState s)
    as (HU'&Hat&Hcur') by done.
  generalize dependent (set_cachedState (currentState s) s). intros s' HU' Hat Hcur'.
  apply (runs_bind _ _ _ 0 (View (set_currentState STREAM_IDLE s') c (false, false, true)
    (g ++ [SClose]))).
  - destruct Hst as [Hc|Hc]; rewrite Hc;
      (runs_step; [runs_step|]); (runs_step; [runs_step|]);
      apply runs_close_opened; rewrite ?Hcur'; auto.
  - eapply runs_bind; [apply runs_set_strm|]. runs_step.
Qed.

Lemma runs_down_started s c g : mDevices s ⊆ U → cachedState s = STREAM_IDLE →
  direction (mStreamAttr s) ∈ [PAL_AUDIO_OUTPUT; PAL_AUDIO_INPUT; PAL_AUDIO_INPUT_OUTPUT] →
  currentState s = STREAM_STARTED ∨ currentState s = STREAM_PAUSED →
  runs (View s c (false, false, true) g) ssrDownHandler 0
    (View (set_currentState STREAM_IDLE (set_cachedState (currentState s) s)) c
       (false, false, true) ((g ++ [SStop]) ++ [SClose])).
Proof.
  intros HU Hca Hdir Hst. unfold ssrDownHandler. runs_step; [runs_step|]. runs_step.
  rewrite (feasible Hh). rewrite decide_True by done. runs_step; [runs_step|].
  cbn [v_strm v_card v_locks v_log].
  assert (mDevices (set_cachedState (currentState s) s) ⊆ U ∧
    mStreamAttr (set_cachedState (currentState s) s) = mStreamAttr s ∧
    currentState (set_cachedState (currentState s) s) = currentState s)
    as (HU'&Hat&Hcur') by done.
  generalize dependent (set_cachedState (currentState s) s). intros s' HU' Hat Hcur'.
  apply (runs_bind _ _ _ 0 (View (set_currentState STREAM_IDLE s') c (false, false, true)
    ((g ++ [SStop]) ++ [SClose]))).
  - assert (currentState s' = STREAM_STARTED ∨ currentState s' = STREAM_PAUSED)
      by (by rewrite Hcur').
    rewrite <- Hat in Hdir.
    destruct Hst as [Hc|Hc]; rewrite Hc; do 3 (runs_step; [runs_step|]);
      (eapply runs_bind; [by apply (runs_stop s')|]); (runs_step; [runs_step|]);
      (eapply runs_bind; [by apply (runs_close_stopped s')|]);
      (runs_step; [by apply runs_lock|]); runs_step.
  - eapply runs_bind; [apply runs_set_strm|]. runs_step.
Qed.

(** [open] and [start] of a stream that was closed. *)
Lemma runs_reopen s c g k r v :
  PAL_CARD_STATUS_DOWN c = false → startable s → currentState s = STREAM_IDLE →
  runs (View (set_currentState STREAM_STARTED s) c (false, false, true)
          (((g ++ [SOpen]) ++ [SPrepare]) ++ [SStart])) k r v →
  runs (View s c (true, false, true) g) (reopen_and_start k) r v.
Proof.
  intros Hc Hs Hst Hk. unfold reopen_and_start. do 2 (runs_step; [runs_step|]).
  eapply runs_bind; [apply runs_open; [done|apply Hs|done]|]. runs_step.
  do 2 (runs_step; [runs_step|]).
  eapply runs_bind; [apply (runs_start (set_currentState STREAM_INIT s)); auto|].
  runs_step; [by apply runs_lock|]. runs_step. runs_step. rewrite decide_True by done. apply Hk.
Qed.

Lemma runs_up_init s c g :
  PAL_CARD_STATUS_DOWN c = false → mDevices s ⊆ U → skipSSRHandling s = false →
  currentState s = STREAM_IDLE → cachedState s = STREAM_INIT →
  runs (View s c (false, false, true) g) ssrUpHandler 0
    (View (set_cachedState STREAM_IDLE (set_currentState STREAM_INIT s)) c
       (false, false, true) (g ++ [SOpen])).
Proof.
  intros Hc HU Hsk Hst Hca. unfold ssrUpHandler. runs_step; [runs_step|]. runs_step.
  rewrite Hsk, Hca. eapply runs_bind.
  - do 2 (runs_step; [runs_step|]). by apply runs_open.
  - runs_step; [runs_step|]. runs_step.
Qed.

Lemma runs_up_started s c g :
  PAL_CARD_STATUS_DOWN c = false → startable s → skipSSRHandling s = false →
  currentState s = STREAM_IDLE → cachedState s = STREAM_STARTED →
  runs (View s c (false, false, true) g) ssrUpHandler 0
    (View (set_cachedState STREAM_IDLE (set_currentState STREAM_STARTED s)) c
       (false, false, true) (((g ++ [SOpen]) ++ [SPrepare]) ++ [SStart])).
Proof.
  intros Hc HU Hsk Hst Hca. unfold ssrUpHandler. runs_step; [runs_step|]. runs_step.
  rewrite Hsk, Hca. eapply runs_bind.
  - apply runs_reopen; [done..|]. runs_step.
  - runs_step; [runs_step|]. runs_step.
Qed.

Lemma runs_up_paused s c g :
  PAL_CARD_STATUS_DOWN c = false → startable s → skipSSRHandling s = false →
  currentState s = STREAM_IDLE → cachedState s = STREAM_PAUSED →
  runs (View s c (false, false, true) g) ssrUpHandler 0
    (View (set_cachedState STREAM_IDLE
            (set_currentState STREAM_PAUSED (set_isPaused true s))) c
       (false, false, true)
       (if isPaused s then ((g ++ [SOpen]) ++ [SPrepare]) ++ [SStart]
        else (((g ++ [SOpen]) ++ [SPrepare]) ++ [SStart]) ++ [SPause])).
Proof.
  intros Hc HU Hsk Hst Hca. unfold ssrUpHandler. runs_step; [runs_step|]. runs_step.
  rewrite Hsk, Hca. eapply runs_bind.
  - apply runs_reopen; [done..|]. by apply runs_pause_l.
  - runs_step; [runs_step|]. simpl. runs_step.
Qed.

Lemma runs_up_none s c g :
  skipSSRHandling s = false → cachedState s = STREAM_STOPPED →
  runs (View s c (false, false, true) g) ssrUpHandler 0
    (View (set_cachedState STREAM_IDLE s) c (false, false, true) g).
Proof.
  intros Hsk Hca. unfold ssrUpHandler. runs_step; [runs_step|]. runs_step. rewrite Hsk, Hca.
  eapply runs_bind; [do 2 runs_step; runs_step|]. runs_step; [runs_step|]. runs_step.
Qed.

(** The card fails and comes back; nothing else happens. *)
Definition card_failure : list pcm_input :=
  [InCard CARD_STATUS_OFFLINE; InSsrDown; InCard CARD_STATUS_ONLINE; InSsrUp].

Lemma runs_with_active s c g s' g' (m : M Z) r :
  runs (View s c (false, false, true) g) m r (View s' c (false, false, true) g') →
  runs (View s c unlocked g) (with_active m) r (View s' c unlocked g').
Proof.
  intros Hm. unfold with_active. runs_step; [runs_step|]. eapply runs_bind; [apply Hm|].
  runs_step; [runs_step|]. runs_step.
Qed.

Lemma runs_card s c l g c' : runs (View s c l g) (run_input (InCard c')) 0 (View s c' l g).
Proof. intros w (?&?&?&?&?). eexists. split; [done|done]. Qed.

Lemma runs_card_failure s c g s1 g1 s2 g2 :
  runs (View s CARD_STATUS_OFFLINE (false, false, true) g) ssrDownHandler 0
    (View s1 CARD_STATUS_OFFLINE (false, false, true) g1) →
  runs (View s1 CARD_STATUS_ONLINE (false, false, true) g1) ssrUpHandler 0
    (View s2 CARD_STATUS_ONLINE (false, false, true) g2) →
  runs (View s c unlocked g) (run_inputs card_failure) [0; 0; 0; 0]
    (View s2 CARD_STATUS_ONLINE unlocked g2).
Proof.
  intros Hd Hu. unfold card_failure. cbn [run_inputs].
  eapply runs_bind; [apply runs_card|]. eapply runs_bind; [|apply runs_ret].
  eapply runs_bind; [by apply runs_with_active|]. eapply runs_bind; [|apply runs_ret].
  eapply runs_bind; [apply runs_card|]. eapply runs_bind; [|apply runs_ret].
  eapply runs_bind; [by apply runs_with_active|]. eapply runs_bind; apply runs_ret.
Qed.
(** *** A pause while the card is down *)

Lemma runs_pause_offline s g :
  runs (View s CARD_STATUS_OFFLINE unlocked g) pause 0
    (View (set_currentState STREAM_PAUSED (set_isPaused true
       (set_isPaused true (set_cachedState STREAM_PAUSED s)))) CARD_STATUS_OFFLINE unlocked g).
Proof.
  unfold pause, locked, pause_l, unlocked. runs_step; [runs_step|].
  apply (runs_bind _ _ _ 0 (View (set_currentState STREAM_PAUSED (set_isPaused true
       (set_isPaused true (set_cachedState STREAM_PAUSED s)))) CARD_STATUS_OFFLINE
       (true, false, false) g)); [|repeat runs_step].
  runs_step. runs_step. change (PAL_CARD_STATUS_DOWN CARD_STATUS_OFFLINE) with true.
  cbv beta iota zeta. repeat runs_step.
Qed.

Lemma runs_open_paused s c a g :
  PAL_CARD_STATUS_DOWN c = false → currentState s = STREAM_PAUSED →
  runs (View s c (false, false, a) g) open (- EINVAL) (View s c (false, false, a) g).
Proof.
  intros Hc Hst. unfold open. runs_step; [runs_step|]. runs_step. runs_step.
  rewrite Hc, runs_bt_ready, Hst. eapply runs_bind; [runs_step|]. repeat runs_step.
Qed.

Lemma runs_start_paused s c g :
  PAL_CARD_STATUS_DOWN c = false → currentState s = STREAM_PAUSED →
  runs (View s c unlocked g) start (- EINVAL) (View s c unlocked g).
Proof.
  intros Hc Hst. unfold start, unlocked. runs_step; [runs_step|]. runs_step. runs_step.
  rewrite Hc, Hst. eapply runs_bind; [runs_step|]. repeat runs_step.
Qed.

Lemma runs_up_blocked s c g :
  PAL_CARD_STATUS_DOWN c = false → skipSSRHandling s = false →
  cachedState s = STREAM_PAUSED → currentState s = STREAM_PAUSED →
  runs (View s c (false, false, true) g) ssrUpHandler (- EINVAL)
    (View (set_cachedState STREAM_IDLE s) c (false, false, true) g).
Proof.
  intros Hc Hsk Hca Hst. unfold ssrUpHandler. runs_step; [runs_step|]. runs_step.
  rewrite Hsk, Hca. eapply runs_bind.
  - unfold reopen_and_start. do 2 (runs_step; [runs_step|]).
    eapply runs_bind; [by apply runs_open_paused|]. runs_step. runs_step.
  - runs_step; [runs_step|]. runs_step.
Qed.

Lemma runs_to {A} v (m : M A) r s c l g s' g' :
  runs v m r (View s' c l g') → s' = s → g' = g → runs v m r (View s c l g).
Proof. by intros ? -> ->. Qed.

(** The handlers write back what they read. *)
Lemma ssr_restores s : cachedState s = STREAM_IDLE →
  set_cachedState STREAM_IDLE (set_currentState (currentState s)
    (set_currentState STREAM_IDLE (set_cachedState (currentState s) s))) = s.
Proof. destruct s. simpl. by intros ->. Qed.
Lemma ssr_restores_idle s : cachedState s = STREAM_IDLE →
  set_cachedState STREAM_IDLE (set_currentState STREAM_IDLE
    (set_cachedState (currentState s) s)) = set_currentState STREAM_IDLE s.
Proof. destruct s. simpl. by intros ->. Qed.
End exact.

(** ** Properties *)

Section properties.
Context {D S : Type} `{Henv : !PcmEnv D S}.
Local Abbreviation W := (World D S).



(** C22: Recovery of the sound card, when every call of a device and of the session
    succeeds, no device is a Bluetooth device, the stream type takes part in the recovery
    and no other thread interferes ([healthy]).  A stream with devices and a supported
    direction, without a cached state or a pending skip, that was opened or started
    before the card failed is, after the down and the up handler, the same stream object
    in the same state, and the session was closed and opened (and prepared and started)
    again; a stopped stream ends IDLE with its session closed. *)
Theorem ssr_round_trip (log : S → list SessCall) (U : list Z)
    (Hh : healthy log (λ _, 0)) (s : StreamPCM) (c : card_status_t) (g : list SessCall)
    (Hs : startable U s) (Hca : cachedState s = STREAM_IDLE)
    (Hsk : skipSSRHandling s = false) :
  let after s' g' :=
    runs log U (View s c unlocked g) (run_inputs card_failure) [0; 0; 0; 0]
      (View s' CARD_STATUS_ONLINE unlocked g') in
  (currentState s = STREAM_INIT → after s (g ++ [SClose; SOpen])) ∧
  (currentState s = STREAM_STARTED →
     after s (g ++ [SStop; SClose; SOpen; SPrepare; SStart])) ∧
  (currentState s = STREAM_STOPPED →
     after (set_currentState STREAM_IDLE s) (g ++ [SClose])).
Proof.
  pose proof Hs as (Hdir&Hne&HU). cbv zeta. split; [|split]; intros Hst.
  - eapply runs_to; [eapply runs_card_failure; [eapply runs_down_opened; eauto|]|..].
    + rewrite Hst. eapply runs_up_init; eauto.
    + rewrite <- Hst. by apply ssr_restores.
    + by rewrite <- !app_assoc.
  - eapply runs_to; [eapply runs_card_failure; [eapply runs_down_started; eauto|]|..].
    + rewrite Hst. eapply runs_up_started; eauto.
    + rewrite <- Hst. by apply ssr_restores.
    + by rewrite <- !app_assoc.
  - eapply runs_to; [eapply runs_card_failure; [eapply runs_down_opened; eauto|]|..].
    + rewrite Hst. eapply runs_up_none; eauto.
    + rewrite <- Hst. by apply ssr_restores_idle.
    + done.
Qed.

(** Recovery of a paused stream.  A stream paused by the client ([isPaused])
    is PAUSED again after the recovery, but its session was opened and started and
    not paused: it plays.  A stream the client has resumed and not yet written to
    is paused by the recovery. *)
Theorem ssr_paused_inverts (log : S → list SessCall) (U : list Z)
    (Hh : healthy log (λ _, 0)) (s : StreamPCM) (c : card_status_t) (g : list SessCall)
    (Hs : startable U s) (Hca : cachedState s = STREAM_IDLE)
    (Hsk : skipSSRHandling s = false) (Hst : currentState s = STREAM_PAUSED) :
  runs log U (View s c unlocked g) (run_inputs card_failure) [0; 0; 0; 0]
    (View (set_isPaused true s) CARD_STATUS_ONLINE unlocked
       (g ++ [SStop; SClose; SOpen; SPrepare; SStart] ++
        if isPaused s then [] else [SPause])).
Proof.
  pose proof Hs as (Hdir&Hne&HU).
  eapply runs_to; [eapply runs_card_failure; [eapply runs_down_started; eauto|]|..].
  - rewrite Hst. eapply runs_up_paused; eauto.
  - clear Hs Hdir Hne HU. destruct s. simpl in *. by subst.
  - simpl. destruct (isPaused s); by rewrite <- !app_assoc.
Qed.

(** A pause between the two handlers makes the recovery fail: the closed stream
    becomes PAUSED, [ssrUpHandler] cannot open it (-EINVAL), forgets the state to
    restore, and every later [start] or [open] is refused too. *)
Theorem pause_while_offline_blocks_recovery (log : S → list SessCall) (U : list Z)
    (Hh : healthy log (λ _, 0)) (s : StreamPCM) (g : list SessCall)
    (Hst : currentState s = STREAM_IDLE) (Hsk : skipSSRHandling s = false) :
  runs log U (View s CARD_STATUS_OFFLINE unlocked g)
    (run_inputs [InCall APause; InCard CARD_STATUS_ONLINE; InSsrUp; InCall AOpen;
                 InCall AStart])
    [0; 0; - EINVAL; - EINVAL; - EINVAL]
    (View (set_cachedState STREAM_IDLE (set_currentState STREAM_PAUSED (set_isPaused true s)))
       CARD_STATUS_ONLINE unlocked g).
Proof.
  cbn [run_inputs run_input run_api].
  eapply runs_bind; [by apply runs_pause_offline|]. eapply runs_bind; [|apply runs_ret].
  eapply runs_bind; [apply runs_card|]. eapply runs_bind; [|apply runs_ret].
  eapply runs_bind; [eapply runs_with_active, runs_up_blocked; eauto|].
  eapply runs_bind; [|apply runs_ret].
  eapply runs_bind; [by eapply runs_open_paused|]. eapply runs_bind; [|apply runs_ret].
  eapply runs_bind; [by eapply runs_start_paused|]. eapply runs_bind; apply runs_ret.
Qed.

(** When the session refuses to open, [open] closes the devices again and
    returns the status of the last close: with devices that close, 0, although the
    stream stays IDLE and the session is not open. *)
Theorem open_reports_device_close (log : S → list SessCall) (answer : SessCall → Z)
    (U : list Z) (Hh : healthy log answer) (s : StreamPCM) (c : card_status_t)
    (g : list SessCall) (Hfail : answer SOpen ≠ 0) (Hc : PAL_CARD_STATUS_DOWN c = false)
    (HU : mDevices s ⊆ U) (Hne : mDevices s ≠ []) (Hst : currentState s = STREAM_IDLE) :
  runs log U (View s c unlocked g) open 0 (View s c unlocked (g ++ [SOpen])).
Proof. by apply (runs_open_refused log answer U Hh). Qed.

(** [setVolume] computes the size of its block in an [uint8_t].  Up to 31 pairs
    the copy is the client's volume; from 32 pairs on the block is smaller than the
    pairs it is said to hold and the loop over them leaves it. *)
Theorem setVolume_block (v : pal_volume_data)
    (Hn : 0 < no_of_volpair v < 2 ^ 32) (Hl : no_of_volpair v ≤ zlen (volume_pair v)) :
  (no_of_volpair v ≤ 31 →
     copy_volume v = Some (mkVol (no_of_volpair v)
       (take (Z.to_nat (no_of_volpair v)) (volume_pair v))) ∧
     volSize v = 4 + 8 * no_of_volpair v) ∧
  (32 ≤ no_of_volpair v → ∀ w : W, setVolume true (Some v) w = None).
Proof.
  split; intros Hv.
  - destruct (copy_volume_ok v) as (ps&->&Hs&_); [by split; lia|].
    apply slice_Some in Hs as [_ ->]. split; [done|]. apply volSize_exact. lia.
  - intros w. unfold setVolume. rewrite decide_False by lia. cbn [negb].
    destruct (copy_volume_short v Hv) as (ps&n&Hcopy&Hlen).
    unfold bind_M, lift at 1. destruct Hcopy as [-> | ->]; [done|].
    rewrite force_out by (destruct Hlen; lia). done.
Qed.

(** While the card is down, reads and writes of a stream with valid parameters
    consume the client's buffer without a call to the session (a read returns
    silence), and the stream stays as it is. *)
Theorem offline_io (w : W) (n : Z) (Hl : locks w = unlocked)
    (Hdown : PAL_CARD_STATUS_DOWN (card w) = true) (Hn : 0 ≤ s32 n) :
  let valid c := negb (bool_decide (frame_bytes c = 0 ∨ sample_rate c = 0)) in
  write n w = Some (if valid (out_media_config (mStreamAttr (strm w)))
                    then s32 n else - EINVAL, w) ∧
  ∃ w', read n w = Some (if valid (in_media_config (mStreamAttr (strm w)))
                         then s32 n else - EINVAL, w') ∧
    strm w' = strm w ∧ devs w' = devs w ∧ sess w' = sess w ∧ locks w' = unlocked ∧
    events w' = events w ++
      if valid (in_media_config (mStreamAttr (strm w))) then [EvSilence (s32 n)] else [].
Proof.
  destruct w as [s ds se c ac l1 l2 l3 ev]. unfold locks, unlocked in Hl. simpl in *.
  injection Hl as -> -> ->. split.
  - unfold write, bind_M, lock, card_down, gets, unlock. simpl. rewrite Hdown. simpl.
    repeat case_decide; repeat case_bool_decide; done.
  - unfold read, bind_M, lock, card_down, gets, unlock, emit. simpl. rewrite Hdown. simpl.
    rewrite (decide_False (P := s32 n < 0)) by lia.
    repeat case_decide; repeat case_bool_decide; try done; eexists; (split; [done|]);
      simpl; rewrite ?app_nil_r; done.
Qed.
End properties.

(** ** Instances *)

Module Examples.
(** Devices that always succeed and a session that records its calls and answers
    them by [answer]. *)
Definition LogEnv (answer : SessCall → Z) : PcmEnv Z (list SessCall) := {|
  dev_op _ d := Some (0, d);
  sess_op c s := (answer c, s ++ [c]);
  sess_errno _ := 0;
  sess_size _ := 0;
  isBtDevice _ := false;
  isDeviceAvailable _ := true;
  isDeviceReady _ := true;
  isSsrDownFeasible _ := true;
  handleBTDeviceNotReady l ds := (0, false, l, ds);
  isVolumeUsingSetParam := false;
  volume_streams := [];
  vol_is_zero := Z.eqb 0;
  vol_differs a b := negb (Z.eqb a b);
  others s ds se c := (s, ds, se, c);
|}.

Lemma LogEnv_healthy answer : healthy (Henv := LogEnv answer) (λ s, s) answer.
Proof. split; intros; first [done|by eexists]. Qed.

Definition U (id : Z) : Prop := id = 1.
Lemma LogEnv_ok answer : env_ok (Henv := LogEnv answer) U (λ _, True).
Proof. split; simpl; [by eauto|done|by intros ?? (?&?&?)]. Qed.

Definition config : pal_media_config := mkMedia 48000 16 1 (mkChannels 2 [1; 2]).
Definition attr : pal_stream_attributes :=
  mkAttr PAL_STREAM_DEEP_BUFFER (hpcm_stream_info 0) 0 PAL_AUDIO_OUTPUT
    config config None.
Definition stream (c : stream_state_t) (paused : bool) : StreamPCM :=
  mkPcm attr c STREAM_IDLE [1] (Some (mkVol 1 [(3, 1)])) paused false false false false
    false false false.
Definition world (c : stream_state_t) (card : card_status_t) : World Z (list SessCall) :=
  mkWorld (stream c false) {[1 := 0]} [] card [] false false false [].

(** Another thread starts the stream whenever it can. *)
Definition RaceEnv : PcmEnv Z (list SessCall) := {|
  dev_op _ d := Some (0, d);
  sess_op c s := (0, s ++ [c]);
  sess_errno _ := 0;
  sess_size _ := 0;
  isBtDevice _ := false;
  isDeviceAvailable _ := true;
  isDeviceReady _ := true;
  isSsrDownFeasible _ := true;
  handleBTDeviceNotReady l ds := (0, false, l, ds);
  isVolumeUsingSetParam := false;
  volume_streams := [];
  vol_is_zero := Z.eqb 0;
  vol_differs a b := negb (Z.eqb a b);
  others s ds se c := (set_currentState STREAM_STARTED s, ds, se, c);
|}.

Lemma world_wf c card : wf U (λ _, True) (world c card).
Proof.
  split; [by repeat constructor|]. split; [done|]. intros id ->. by exists 0.
Qed.
Lemma stream_startable c p : startable [1] (stream c p).
Proof. split; [vm_compute; set_solver|]. split; [done|]. simpl. set_solver. Qed.
End Examples.



Lemma ssr_round_trip_witness :
  runs (λ s, s) [1] (View (Examples.stream STREAM_STARTED false) CARD_STATUS_ONLINE unlocked [])
    (run_inputs (PcmEnv0 := Examples.LogEnv (λ _, 0)) card_failure) [0; 0; 0; 0]
    (View (Examples.stream STREAM_STARTED false) CARD_STATUS_ONLINE unlocked
       [SStop; SClose; SOpen; SPrepare; SStart]).
Proof.
  apply (ssr_round_trip (Henv := Examples.LogEnv (λ _, 0)) (λ s, s) [1]
    (Examples.LogEnv_healthy _) (Examples.stream STREAM_STARTED false) _ []
    (Examples.stream_startable _ _) eq_refl eq_refl). reflexivity.
Defined.

Lemma ssr_paused_inverts_witness :
  runs (λ s, s) [1] (View (Examples.stream STREAM_PAUSED true) CARD_STATUS_ONLINE unlocked [])
    (run_inputs (PcmEnv0 := Examples.LogEnv (λ _, 0)) card_failure) [0; 0; 0; 0]
    (View (Examples.stream STREAM_PAUSED true) CARD_STATUS_ONLINE unlocked
       [SStop; SClose; SOpen; SPrepare; SStart]).
Proof.
  apply (ssr_paused_inverts (Henv := Examples.LogEnv (λ _, 0)) (λ s, s) [1]
    (Examples.LogEnv_healthy _) (Examples.stream STREAM_PAUSED true) _ []
    (Examples.stream_startable _ _) eq_refl eq_refl eq_refl).
Defined.

Lemma pause_while_offline_blocks_recovery_witness :
  runs (λ s, s) [1] (View (Examples.stream STREAM_IDLE false) CARD_STATUS_OFFLINE unlocked [])
    (run_inputs (PcmEnv0 := Examples.LogEnv (λ _, 0))
       [InCall APause; InCard CARD_STATUS_ONLINE; InSsrUp; InCall AOpen; InCall AStart])
    [0; 0; - EINVAL; - EINVAL; - EINVAL]
    (View (Examples.stream STREAM_PAUSED true) CARD_STATUS_ONLINE unlocked []).
Proof.
  apply (pause_while_offline_blocks_recovery (Henv := Examples.LogEnv (λ _, 0)) (λ s, s) [1]
    (Examples.LogEnv_healthy _) (Examples.stream STREAM_IDLE false) [] eq_refl eq_refl).
Defined.

Lemma open_reports_device_close_witness :
  runs (λ s, s) [1] (View (Examples.stream STREAM_IDLE false) CARD_STATUS_ONLINE unlocked [])
    (open (PcmEnv0 := Examples.LogEnv (λ _, - EINVAL))) 0
    (View (Examples.stream STREAM_IDLE false) CARD_STATUS_ONLINE unlocked [SOpen]).
Proof.
  apply (open_reports_device_close (Henv := Examples.LogEnv (λ _, - EINVAL)) (λ s, s)
    (λ _, - EINVAL) [1] (Examples.LogEnv_healthy _) (Examples.stream STREAM_IDLE false)
    CARD_STATUS_ONLINE []); done.
Defined.

Lemma setVolume_block_witness :
  setVolume (PcmEnv0 := Examples.LogEnv (λ _, 0)) true (Some (mkVol 32 (replicate 32 (1, 1))))
    (Examples.world STREAM_STARTED CARD_STATUS_ONLINE) = None.
Proof.
  apply (setVolume_block (Henv := Examples.LogEnv (λ _, 0)) (mkVol 32 (replicate 32 (1, 1)))
    ltac:(simpl; lia) ltac:(vm_compute; discriminate)). simpl. lia.
Defined.

Lemma offline_io_witness :
  write (PcmEnv0 := Examples.LogEnv (λ _, 0)) 960 (Examples.world STREAM_IDLE CARD_STATUS_OFFLINE) =
    Some (960, Examples.world STREAM_IDLE CARD_STATUS_OFFLINE).
Proof.
  apply (offline_io (Henv := Examples.LogEnv (λ _, 0))
    (Examples.world STREAM_IDLE CARD_STATUS_OFFLINE) 960 eq_refl eq_refl).
  vm_compute. discriminate.
Defined.

(** An opened stream is started by another thread after [ssrDownHandler] has given its
    lock away: [close] calls [stop], which waits for the lock of the active streams that
    the caller of the handler holds. *)
Lemma ssr_down_race_deadlocks :
  run_input (PcmEnv0 := Examples.RaceEnv) InSsrDown
    (Examples.world STREAM_INIT CARD_STATUS_ONLINE) = None.
Proof. vm_compute. reflexivity. Qed.
