(* ===== verification/ContextManager.v ===== *)
(** * The context manager (context_manager/src/ContextManager.cpp)

    Sensors ask through the proxy stream for use cases; the manager keeps, per
    sensor, the use cases that run, and answers with acknowledgements.  The state
    is the map of sensors and the log of calls made; [None] is undefined behaviour:
    a null pointer used, an access outside a block.

    The layout of the messages and the numbers of the identifiers come from headers
    outside the repository and are the class [Asps]; the rest of PAL answers through
    [PalEnv].  Commands run one at a time on the command thread; the queue in front
    of it is in CmdQueue. *)

From S2P Require Import Prelude PalDefs.
Local Open Scope st_scope.

(** ** The sensor protocol *)

Inductive usecase_kind := UC_ACD | UC_PCM_DATA | UC_UPD | UC_PCM_RENDERER | UC_SDZ | UC_ASR.

Record pcm_v2_payload := mkV2 {
  requires_buffering : Z; v2_bit_width : Z; v2_sample_rate : Z; v2_num_channels : Z }.
Record rendering_payload := mkRendering {
  sampling_rate : Z; num_channels : Z; us_bit_width : Z }.
Record asr_payload := mkAsrPayload {
  language_code : Z; enable_sdz : bool; frame_length_ms : Z }.

(** The first fields of [pal_asr_config]; [asr_rest] stands for the others, which
    the manager does not touch. *)
Record pal_asr_config := mkAsr {
  input_language_code : Z;
  output_language_code : Z;
  enable_speaker_diarization : bool;
  asr_rest : list Z;
}.

Class Asps := {
  ASPS_USECASE_ID_ACD : Z;
  ASPS_USECASE_ID_PCM_DATA : Z;
  ASPS_USECASE_ID_PCM_DATA_V2 : Z;
  ASPS_USECASE_ID_UPD : Z;
  ASPS_USECASE_ID_ULTRASOUND_RENDERING : Z;
  ASPS_USECASE_ID_SDZ : Z;
  ASPS_USECASE_ID_ASR : Z;
  EVENT_ID_ASPS_SENSOR_REGISTER_REQUEST : Z;
  EVENT_ID_ASPS_SENSOR_DEREGISTER_REQUEST : Z;
  EVENT_ID_ASPS_GET_SUPPORTED_CONTEXT_IDS : Z;
  EVENT_ID_ASPS_CLOSE_ALL : Z;
  CONTEXT_DETECTION_ENGINE : Z;
  RD_SHMEM_ENDPOINT : Z;
  TAG_STREAM_MFC : Z;
  STREAM_PCM_CONVERTER : Z;
  ULTRASOUND_DETECTION_MODULE : Z;
  TAG_TONE_RENDERER_MODULE : Z;
  TAG_MODULE_SDZ : Z;
  TAG_MODULE_ASR : Z;
  sizeof_acd_ack : Z;
  sizeof_rendering : Z;
  sizeof_asr : Z;
  sizeof_param_data : Z;
  sizeof_register_ack : Z;
  sizeof_basic_ack : Z;
  sizeof_supported_ids : Z;
  read_pcm_v2 : list Z → option pcm_v2_payload;
  read_stream_type : list Z → option Z;
  read_rendering : list Z → option rendering_payload;
  read_asr : list Z → option asr_payload;
}.

Definition PCM_DATA_EFFECT_RAW : Z := 1.
Definition PCM_DATA_EFFECT_NS : Z := 2.
Definition SPCM_TYPE_V1 : Z := 0.
Definition SPCM_TYPE_V2 : Z := 1.
Definition PAL_PARAM_ID_CONTEXT_LIST : Z := 39.
Definition PAL_PARAM_ID_CUSTOM_CONFIGURATION : Z := 43.
Definition PAL_PARAM_ID_ASR_CONFIG : Z := 78.
Definition PAL_PARAM_ID_ASR_SET_PARAM : Z := 82.
Definition TAG_MODULE_DEFAULT_SIZE : Z := 1024.
Definition ACKDATA_DEFAULT_SIZE : Z := 1024.
Definition PAL_ALIGN_8BYTE (x : Z) : Z := Z.land (x + 7) (Z.lnot 7).

(** A 32-bit word of a little-endian block. *)
Definition word_at (off : Z) (data : list Z) : option Z :=
  b ← slice off 4 data;
  match b with
  | [b0; b1; b2; b3] => Some (b0 + 2 ^ 8 * b1 + 2 ^ 16 * b2 + 2 ^ 24 * b3)
  | _ => None
  end.

Fixpoint words_at (off : Z) (n : nat) (data : list Z) : option (list Z) :=
  match n with
  | O => Some []
  | S n => x ← word_at off data; l ← words_at (off + 4) n data; Some (x :: l)
  end.

(** ** State *)

Record Usecase := mkUsecase {
  kind : usecase_kind;
  usecase_id : Z;
  tags : list Z;
  pal_devices : list pal_device;
  stream_attributes : pal_stream_attributes;
  pal_stream : option Z;
  requested_context_list : option (list Z);
  pcm_data_type : Z;
  pcm_data_buffering : Z;
  asr_reg_config : option asr_payload;
}.

Definition set_pal_stream (h : option Z) (u : Usecase) : Usecase :=
  mkUsecase (kind u) (usecase_id u) (tags u) (pal_devices u) (stream_attributes u) h
    (requested_context_list u) (pcm_data_type u) (pcm_data_buffering u) (asr_reg_config u).
Definition set_contexts (l : option (list Z)) (u : Usecase) : Usecase :=
  mkUsecase (kind u) (usecase_id u) (tags u) (pal_devices u) (stream_attributes u)
    (pal_stream u) l (pcm_data_type u) (pcm_data_buffering u) (asr_reg_config u).
Definition set_devices (d : list pal_device) (u : Usecase) : Usecase :=
  mkUsecase (kind u) (usecase_id u) (tags u) d (stream_attributes u)
    (pal_stream u) (requested_context_list u) (pcm_data_type u) (pcm_data_buffering u)
    (asr_reg_config u).
Definition set_attributes (a : pal_stream_attributes) (u : Usecase) : Usecase :=
  mkUsecase (kind u) (usecase_id u) (tags u) (pal_devices u) a
    (pal_stream u) (requested_context_list u) (pcm_data_type u) (pcm_data_buffering u)
    (asr_reg_config u).
Definition set_pcm (ty buffering : Z) (u : Usecase) : Usecase :=
  mkUsecase (kind u) (usecase_id u) (tags u) (pal_devices u) (stream_attributes u)
    (pal_stream u) (requested_context_list u) ty buffering (asr_reg_config u).
Definition set_asr (c : option asr_payload) (u : Usecase) : Usecase :=
  mkUsecase (kind u) (usecase_id u) (tags u) (pal_devices u) (stream_attributes u)
    (pal_stream u) (requested_context_list u) (pcm_data_type u) (pcm_data_buffering u) c.

(** [std::map] of use cases. *)
Record see_client := mkClient { see_id : Z; usecases : gmap Z Usecase }.

Inductive ack_data :=
  | AckMiids (miids : list Z)
  | AckAcd (miid num_contexts : Z) (contexts : list Z).

(** What the manager sends to the proxy stream, with the sizes it writes. *)
Inductive asps_msg :=
  | RegisterAck (see uc ack_size param_size : Z) (data : ack_data)
  | BasicAck (event status see param_size : Z)
  | SupportedContexts (see num param_size : Z) (ids : list Z).

(** [handle] is the out parameter of an open: what it holds is known afterwards. *)
Inductive PalCall :=
  | StreamOpen (attr : pal_stream_attributes) (devices : list pal_device)
      (handle : option Z)
  | StreamStart (h : option Z)
  | StreamStop (h : option Z)
  | StreamClose (h : option Z)
  | SetParam (h : option Z) (param_id payload_size : Z) (payload : list Z)
  | SetAsrConfig (h : option Z) (config : pal_asr_config)
  | AddRemoveEffect (h : option Z) (effect : Z) (enable : bool)
  | GetTagInfo (h : option Z) (size : Z)
  | Send (h : Z) (msg : asps_msg) (size : Z).

(** [last_handle] is the handle the last successful open stored, [tag_info] what the
    last query of tags wrote: the number of tags, the 8-byte entries after it and
    the size it reported. *)
Class PalEnv (S : Type) := {
  pal_api : PalCall → S → Z * S;
  last_handle : S → option Z;
  tag_info : S → Z * list (Z * Z) * Z;
  alloc : S → bool * S;
  sound_models : list (list Z);
  asr_platform : option (option Z * option (Z * pal_asr_config));
}.

Record CM (S : Type) := mkCM {
  see_clients : gmap Z see_client;
  proxy_stream : option Z;
  env : S;
  log : list (PalCall * Z);
}.
Arguments mkCM {S}.
Arguments see_clients {S}.
Arguments proxy_stream {S}.
Arguments env {S}.
Arguments log {S}.

Definition set_clients {S} (m : gmap Z see_client) (w : CM S) : CM S :=
  mkCM m (proxy_stream w) (env w) (log w).
Definition set_proxy {S} (h : option Z) (w : CM S) : CM S :=
  mkCM (see_clients w) h (env w) (log w).

(** The walk of [GetModuleIIDs] over the entries: a tag and its number of modules,
    followed by the modules (id, instance id).  A step moves by the size of the
    entry, computed in 32 bits. *)
Definition add_miids (tag : Z) (miids : list Z) (m : gmap Z (list Z)) : gmap Z (list Z) :=
  match miids with [] => m | _ => <[tag := default [] (m !! tag) ++ miids]> m end.

Fixpoint tag_walk (ts : list Z) (block : list (Z * Z)) (n : nat) (pos : Z)
    (acc : gmap Z (list Z)) : option (gmap Z (list Z)) :=
  match n with
  | O => Some acc
  | S n =>
      entry ← slice pos 1 block;
      match entry with
      | [(tag, num)] =>
          acc ← (if decide (tag ∈ ts)
                 then mods ← slice (pos + 1) num block; Some (add_miids tag mods.*2 acc)
                 else Some acc);
          tag_walk ts block n (pos + u32 (8 + 8 * num) `div` 8) acc
      | _ => None
      end
  end.

(** All module instances of the tags, in the order of the tags. *)
Definition ack_miids (ts : list Z) (m : gmap Z (list Z)) : list Z :=
  ts ≫= λ t, default [] (m !! t).

Section manager.
Context {E : Type} `{!Asps} `{!PalEnv E}.
Local Abbreviation M := (St (CM E)).

(** A call as it is logged: a successful open with the handle it stored. *)
Definition completed (c : PalCall) (rc : Z) (s : E) : PalCall :=
  match c with
  | StreamOpen a ds h => StreamOpen a ds (if decide (rc = 0) then last_handle s else h)
  | _ => c
  end.

Definition pal (c : PalCall) : M Z := λ w,
  let '(rc, s) := pal_api c (env w) in
  Some (rc, mkCM (see_clients w) (proxy_stream w) s (log w ++ [(completed c rc s, rc)])).

Definition calloc : M bool := λ w,
  let '(ok, s) := alloc (env w) in
  Some (ok, mkCM (see_clients w) (proxy_stream w) s (log w)).

(** ** Use cases *)

Definition no_media : pal_media_config := mkMedia 0 0 0 (mkChannels 0 []).
Definition zero_device : pal_device := mkDevice 0 no_media (mkUsb 0 0) "" "" [].
Definition zero_attributes : pal_stream_attributes :=
  mkAttr 0 (opt_stream_info (mkStreamInfo 0 0 0 false false 0 0 0 0 false)) 0 0
    no_media no_media None.
Definition attributes (ty dir : Z) : pal_stream_attributes :=
  mkAttr ty (info zero_attributes) 0 dir no_media no_media None.
Definition va_mic (rate ch fmt : Z) (map : list Z) : pal_device :=
  mkDevice PAL_DEVICE_IN_HANDSET_VA_MIC (mkMedia rate 16 fmt (mkChannels ch map))
    (mkUsb 0 0) "" "" [].

Definition new_usecase (k : usecase_kind) (id : Z) (a : pal_stream_attributes)
    (ds : list pal_device) (ts : list Z) : Usecase :=
  mkUsecase k id ts ds a None None 0 0 None.

Definition UsecaseACD (id : Z) : Usecase :=
  new_usecase UC_ACD id (attributes PAL_STREAM_ACD 0) [va_mic 16000 1 0 []]
    [CONTEXT_DETECTION_ENGINE].
Definition UsecasePCMData (id : Z) : Usecase :=
  new_usecase UC_PCM_DATA id (attributes PAL_STREAM_SENSOR_PCM_DATA PAL_AUDIO_INPUT)
    [va_mic 16000 1 PAL_AUDIO_FMT_PCM_S16_LE []]
    [RD_SHMEM_ENDPOINT; TAG_STREAM_MFC; STREAM_PCM_CONVERTER].
Definition UsecaseUPD (id : Z) : Usecase :=
  new_usecase UC_UPD id (attributes PAL_STREAM_ULTRASOUND PAL_AUDIO_INPUT_OUTPUT)
    [zero_device; zero_device] [ULTRASOUND_DETECTION_MODULE].
Definition UsecasePCMRenderer (id : Z) : Usecase :=
  new_usecase UC_PCM_RENDERER id (attributes PAL_STREAM_SENSOR_PCM_RENDERER PAL_AUDIO_OUTPUT)
    [zero_device] [TAG_TONE_RENDERER_MODULE].
Definition UsecaseSDZ (id : Z) : Usecase :=
  new_usecase UC_SDZ id (attributes PAL_STREAM_ACD 0) [va_mic 16000 1 0 []]
    [TAG_MODULE_SDZ].
Definition UsecaseASR (id : Z) : Usecase :=
  new_usecase UC_ASR id (attributes PAL_STREAM_ASR PAL_AUDIO_INPUT)
    [va_mic 48000 2 PAL_AUDIO_FMT_PCM_S16_LE [1; 2]] [TAG_MODULE_ASR; TAG_MODULE_SDZ].

Definition usecase_for (id : Z) : option Usecase :=
  if decide (id = ASPS_USECASE_ID_ACD) then Some (UsecaseACD id)
  else if decide (id = ASPS_USECASE_ID_PCM_DATA ∨ id = ASPS_USECASE_ID_PCM_DATA_V2)
  then Some (UsecasePCMData id)
  else if decide (id = ASPS_USECASE_ID_UPD) then Some (UsecaseUPD id)
  else if decide (id = ASPS_USECASE_ID_ULTRASOUND_RENDERING)
  then Some (UsecasePCMRenderer id)
  else if decide (id = ASPS_USECASE_ID_SDZ) then Some (UsecaseSDZ id)
  else if decide (id = ASPS_USECASE_ID_ASR) then Some (UsecaseASR id)
  else None.

(** The constructors allocate the attributes and the devices; a failure throws. *)
Definition UsecaseCreate (id : Z) : M (option Usecase) :=
  match usecase_for id with
  | None => st_ret None
  | Some u =>
      ok1 <-- calloc;;
      if negb ok1 then st_ret None
      else ok2 <-- calloc;; st_ret (if ok2 : bool then Some u else None)
  end.

Definition Open (u : Usecase) : M (Z * Usecase) :=
  rc <-- pal (StreamOpen (stream_attributes u) (pal_devices u) (pal_stream u));;
  h <-- st_gets (λ w, last_handle (env w));;
  st_ret (rc, if decide (rc = 0) then set_pal_stream h u else u).

Definition Start (u : Usecase) : M Z := pal (StreamStart (pal_stream u)).

Definition StopAndClose (u : Usecase) : M Z :=
  pal (StreamStop (pal_stream u));;;;
  pal (StreamClose (pal_stream u));;;;
  st_ret 0.

(** *** SetUseCaseData *)

Definition set_data_acd (size : Z) (data : option (list Z)) (u : Usecase)
    : M (Z * Usecase) :=
  match data with
  | None => st_ret (- EINVAL, u)
  | Some d =>
      if decide (size = 0) then st_ret (- EINVAL, u)
      else
        let u := set_contexts None u in
        n <-- st_lift (word_at 0 d);;
        if decide (size < u64 (4 + u64 (u64 (s32 n) * 4))) then st_ret (- EINVAL, u)
        else
          ok <-- calloc;;
          if negb ok then st_ret (- ENOMEM, u)
          else
            copy <-- st_lift (slice 0 size d);;
            st_ret (0, set_contexts (Some copy) u)
  end.

(** The configuration of the first device. *)
Definition with_config (p : pcm_v2_payload) (d : pal_device) : pal_device :=
  mkDevice
    (if decide (v2_sample_rate p = 16000) then PAL_DEVICE_IN_HANDSET_VA_MIC
     else if decide (v2_sample_rate p = 48000 ∨ v2_sample_rate p = 96000)
     then PAL_DEVICE_IN_ULTRASOUND_MIC else dev_id d)
    (mkMedia (v2_sample_rate p) (v2_bit_width p) (aud_fmt_id (config d))
       (mkChannels (v2_num_channels p) (ch_map (ch_info (config d)))))
    (dev_address d) (sndDevName d) (custom_key d) (addressV1 d).

Definition map_head {A} (f : A → A) (l : list A) : list A :=
  match l with [] => [] | x :: l => f x :: l end.

Definition set_data_pcm (size : Z) (data : option (list Z)) (u : Usecase)
    : M (Z * Usecase) :=
  match data with
  | None => st_ret (- EINVAL, u)
  | Some d =>
      if decide (size = 0) then st_ret (- EINVAL, u)
      else
        u <-- (if decide (usecase_id u = ASPS_USECASE_ID_PCM_DATA_V2) then
                 p <-- st_lift (read_pcm_v2 d);;
                 st_ret (set_devices (map_head (with_config p) (pal_devices u))
                           (set_pcm (pcm_data_type u) (requires_buffering p) u))
               else st_ret u);;
        ty <-- st_lift (read_stream_type d);;
        if decide (ty ≠ PCM_DATA_EFFECT_RAW ∧ ty ≠ PCM_DATA_EFFECT_NS)
        then st_ret (- EINVAL, u)
        else st_ret (0, set_pcm ty (pcm_data_buffering u) u)
  end.

Definition set_out_config (c : pal_media_config) (a : pal_stream_attributes)
    : pal_stream_attributes :=
  mkAttr (type a) (info a) (flags a) (direction a) (in_media_config a) c (address a).

Definition set_key (key : string) (d : pal_device) : pal_device :=
  mkDevice (dev_id d) (config d) (dev_address d) (sndDevName d)
    (strlcpy key PAL_MAX_CUSTOM_KEY_SIZE) (addressV1 d).

Definition speaker_key (channels : list Z) : string :=
  match channels with
  | [c] => if decide (c = 1) then "top-spkr" else "bottom-spkr"
  | _ => "stereo-spkr"
  end.

Definition set_data_renderer (size : Z) (data : option (list Z)) (u : Usecase)
    : M (Z * Usecase) :=
  match data with
  | None => st_ret (- EINVAL, u)
  | Some d =>
      if decide (size < sizeof_rendering) then st_ret (- EINVAL, u)
      else
        r <-- st_lift (read_rendering d);;
        let c := out_media_config (stream_attributes u) in
        let u := set_attributes (set_out_config
                   (mkMedia (sampling_rate r) (bit_width c) (aud_fmt_id c) (ch_info c))
                   (stream_attributes u)) u in
        if decide (2 < num_channels r) then st_ret (- EINVAL, u)
        else
          let media map := mkMedia (sampling_rate r) (us_bit_width r) (aud_fmt_id c)
                             (mkChannels (num_channels r) map) in
          let old := ch_map (ch_info c) in
          let u := set_attributes (set_out_config (media old) (stream_attributes u)) u in
          if decide (size - sizeof_rendering < num_channels r) then st_ret (- EINVAL, u)
          else
            chs <-- st_lift (slice sizeof_rendering (num_channels r) d);;
            let u := set_attributes (set_out_config (media (chs ++ drop (length chs) old))
                       (stream_attributes u)) u in
            st_ret (0, set_devices (map_head (set_key (speaker_key chs)) (pal_devices u)) u)
  end.

Definition set_data_asr (size : Z) (data : option (list Z)) (u : Usecase)
    : M (Z * Usecase) :=
  match data with
  | None => st_ret (- EINVAL, u)
  | Some d =>
      if decide (size ≠ sizeof_asr) then st_ret (- EINVAL, u)
      else
        ok <-- calloc;;
        if negb ok then st_ret (- ENOMEM, set_asr None u)
        else p <-- st_lift (read_asr d);; st_ret (0, set_asr (Some p) u)
  end.

Definition SetUseCaseData (size : Z) (data : option (list Z)) (u : Usecase)
    : M (Z * Usecase) :=
  match kind u with
  | UC_ACD => set_data_acd size data u
  | UC_PCM_DATA => set_data_pcm size data u
  | UC_PCM_RENDERER => set_data_renderer size data u
  | UC_ASR => set_data_asr size data u
  | UC_UPD | UC_SDZ => st_ret (0, u)
  end.

(** *** Configure *)

Definition configure_acd (u : Usecase) : M Z :=
  l <-- st_lift (requested_context_list u);;
  n <-- st_lift (word_at 0 l);;
  if decide (n = 0) then st_ret (- EINVAL)
  else
    ok <-- calloc;;
    if negb ok then st_ret (- ENOMEM)
    else
      payload <-- st_lift (slice 0 (4 * u32 (1 + n)) l);;
      pal (SetParam (pal_stream u) PAL_PARAM_ID_CONTEXT_LIST 8 payload).

Definition configure_pcm (u : Usecase) : M Z :=
  ok <-- calloc;;
  if negb ok then st_ret (- ENOMEM)
  else
    let v2 := bool_decide (usecase_id u = ASPS_USECASE_ID_PCM_DATA_V2) in
    rc <-- pal (SetParam (pal_stream u) PAL_PARAM_ID_CUSTOM_CONFIGURATION 8
                  (if v2 then [pcm_data_buffering u; SPCM_TYPE_V2] else [0; SPCM_TYPE_V1]));;
    if decide (rc = 0) then
      pal (AddRemoveEffect (pal_stream u)
             (if decide (pcm_data_type u = PCM_DATA_EFFECT_NS) then PAL_AUDIO_EFFECT_NS
              else PAL_AUDIO_EFFECT_NONE) true)
    else st_ret rc.

Definition configure_sdz (u : Usecase) : M Z :=
  ok1 <-- calloc;;
  if negb ok1 then st_ret (- ENOMEM)
  else
    ok2 <-- calloc;;
    if negb ok2 then st_ret (- ENOMEM)
    else pal (SetParam (pal_stream u) PAL_PARAM_ID_CONTEXT_LIST 8 [0; 0; 0; 0]).

Definition asr_config_for (p : asr_payload) (c : pal_asr_config) : pal_asr_config :=
  mkAsr (language_code p) (language_code p) (enable_sdz p) (asr_rest c).

Definition configure_asr (u : Usecase) : M Z :=
  match asr_reg_config u, asr_platform with
  | Some p, Some (Some buf_size, Some (rc_default, cfg)) =>
      ok <-- calloc;;
      if negb ok then st_ret (- ENOMEM)
      else if decide (rc_default ≠ 0) then st_ret rc_default
      else
        let frame := if decide (buf_size = 0) then frame_length_ms p else buf_size in
        rc <-- pal (SetAsrConfig (pal_stream u) (asr_config_for p cfg));;
        if decide (rc ≠ 0) then st_ret rc
        else
          ok <-- calloc;;
          if negb ok then st_ret (- ENOMEM)
          else pal (SetParam (pal_stream u) PAL_PARAM_ID_ASR_SET_PARAM 4 [u32 frame])
  | _, _ => st_ret (- EINVAL)
  end.

Definition Configure (u : Usecase) : M Z :=
  match kind u with
  | UC_ACD => configure_acd u
  | UC_PCM_DATA => configure_pcm u
  | UC_SDZ => configure_sdz u
  | UC_ASR => configure_asr u
  | UC_UPD | UC_PCM_RENDERER => st_ret 0
  end.

(** *** Module instances and acknowledgements *)

(** The entries of a block of [size] bytes after the number of tags; what was not
    written is zero. *)
Definition tag_block (size : Z) (entries : list (Z * Z)) : list (Z * Z) :=
  let cap := Z.to_nat ((size - 4) / 8) in
  take cap (entries ++ replicate cap (0, 0)).

(** [resize] to more than the block has moves it, and the second query writes to the
    old one. *)
Definition GetModuleIIDs (u : Usecase) : M (Z * gmap Z (list Z)) :=
  rc <-- pal (GetTagInfo (pal_stream u) TAG_MODULE_DEFAULT_SIZE);;
  rc <-- (if decide (rc = ENODATA) then
            p <-- st_gets (λ w, tag_info (env w));;
            let '(_, _, size) := p in
            if decide (TAG_MODULE_DEFAULT_SIZE < size) then st_lift None
            else pal (GetTagInfo (pal_stream u) size)
          else st_ret rc);;
  if decide (rc ≠ 0) then st_ret (rc, ∅)
  else
    p <-- st_gets (λ w, tag_info (env w));;
    let '(num_tags, entries, _) := p in
    m <-- st_lift (tag_walk (tags u) (tag_block TAG_MODULE_DEFAULT_SIZE entries)
                     (Z.to_nat num_tags) 0 ∅);;
    if decide (m = ∅) then st_ret (- ENODATA, m) else st_ret (0, m).

(** The status, the new size and what was written to the block of [size] bytes. *)
Definition ack_base (u : Usecase) (size : Z) : M (Z * Z * ack_data) :=
  p <-- GetModuleIIDs u;;
  let '(rc, m) := p in
  if decide (rc ≠ 0) then st_ret (rc, size, AckMiids [])
  else
    let l := ack_miids (tags u) m in
    if decide (size < 4 * zlen l) then st_lift None
    else st_ret (0, 4 * zlen l, AckMiids l).

Definition ack_acd (u : Usecase) (size : Z) : M (Z * Z * ack_data) :=
  p <-- GetModuleIIDs u;;
  let '(rc, m) := p in
  if decide (rc ≠ 0) then st_ret (rc, size, AckMiids [])
  else
    l <-- st_lift (requested_context_list u);;
    n <-- st_lift (word_at 0 l);;
    let need := sizeof_acd_ack + 4 * n in
    if decide (need ≤ size) then
      miid <-- st_lift (head (tags u) ≫= λ t, m !! t ≫= head);;
      ctx <-- st_lift (words_at 4 (Z.to_nat n) l);;
      st_ret (0, u32 need, AckAcd miid n ctx)
    else st_ret (- ENODATA, u32 need, AckMiids []).

Definition GetAckDataOnSuccessfullStart (u : Usecase) (size : Z) : M (Z * Z * ack_data) :=
  match kind u with UC_ACD => ack_acd u size | _ => ack_base u size end.

(** A null [proxy_stream] is dereferenced. *)
Definition send (msg : asps_msg) (size : Z) : M Z :=
  h <-- st_gets proxy_stream;;
  h <-- st_lift h;;
  pal (Send h msg size).

Definition send_asps_basic_response (status event see : Z) : M Z :=
  ok <-- calloc;;
  if negb ok then st_ret (- ENOMEM)
  else send (BasicAck event status see (PAL_ALIGN_8BYTE sizeof_basic_ack))
         (PAL_ALIGN_8BYTE (sizeof_basic_ack + sizeof_param_data)).

Definition build_and_send_register_ack (u : Usecase) (see uc : Z) : M Z :=
  ok <-- calloc;;
  if negb ok then st_ret (- ENOMEM)
  else
    r <-- GetAckDataOnSuccessfullStart u ACKDATA_DEFAULT_SIZE;;
    r <-- (let '(rc, size, d) := r in
           if decide (rc = ENODATA) then
             ok <-- calloc;;
             if negb ok then st_ret (- ENOMEM, size, d)
             else GetAckDataOnSuccessfullStart u size
           else st_ret (rc, size, d));;
    let '(rc, size, d) := r in
    if decide (rc ≠ 0) then st_ret rc
    else
      ok <-- calloc;;
      if negb ok then st_ret (- ENOMEM)
      else send (RegisterAck see uc size (PAL_ALIGN_8BYTE (sizeof_register_ack + size)) d)
             (PAL_ALIGN_8BYTE (sizeof_param_data + sizeof_register_ack + size)).

(** ** Sensors *)

Definition SEE_Client_CreateIf_And_Get (see : Z) : M see_client :=
  m <-- st_gets see_clients;;
  match m !! see with
  | Some c => st_ret c
  | None =>
      let c := mkClient see ∅ in
      st_modify (set_clients (<[see := c]> m));;;; st_ret c
  end.

Definition SEE_Client_Get_Existing (see : Z) : M (option see_client) :=
  m <-- st_gets see_clients;; st_ret (m !! see).

Definition Usecase_Get (id : Z) (c : see_client) : option Usecase := usecases c !! id.

(** [std::map::insert] keeps an entry that is there. *)
Definition Usecase_Add (id : Z) (u : Usecase) (c : see_client) : see_client :=
  match usecases c !! id with
  | Some _ => c
  | None => mkClient (see_id c) (<[id := u]> (usecases c))
  end.

Definition Usecase_Remove (id : Z) (c : see_client) : Z * see_client :=
  match usecases c !! id with
  | Some _ => (0, mkClient (see_id c) (delete id (usecases c)))
  | None => (- EINVAL, c)
  end.

(** An operation on the object a sensor's entry points to. *)
Definition update_client (see : Z) (f : see_client → see_client) : M unit :=
  st_modify (λ w, set_clients (alter f see (see_clients w)) w).

(** The keys of a [std::map], in its order. *)
Definition map_keys {A} (m : gmap Z A) : list Z := merge_sort Z.le (elements (dom m)).

Fixpoint close_usecases (m : gmap Z Usecase) (ids : list Z) : M unit :=
  match ids with
  | [] => st_ret tt
  | id :: ids =>
      match m !! id with
      | Some u => StopAndClose u;;;; close_usecases m ids
      | None => close_usecases m ids
      end
  end.

Definition CloseAllUsecases (c : see_client) : M unit :=
  close_usecases (usecases c) (map_keys (usecases c)).

Fixpoint close_clients (m : gmap Z see_client) (sees : list Z) : M unit :=
  match sees with
  | [] => st_ret tt
  | see :: sees =>
      match m !! see with
      | Some c =>
          CloseAllUsecases c;;;;
          st_modify (λ w, set_clients (delete see (see_clients w)) w);;;;
          close_clients m sees
      | None => close_clients m sees
      end
  end.

Definition CloseAll : M unit :=
  m <-- st_gets see_clients;; close_clients m (map_keys m).

(** ** Requests *)

(** Open, configure and start a new use case; it is given up on the first error, and
    closed if it was opened. *)
Definition launch_usecase (u : Usecase) : M (Z * Usecase) :=
  p <-- Open u;;
  let '(rc, u) := p in
  if decide (rc ≠ 0) then st_ret (rc, u)
  else
    rc <-- Configure u;;
    if decide (rc ≠ 0) then StopAndClose u;;;; st_ret (rc, u)
    else
      rc <-- Start u;;
      if decide (rc ≠ 0) then StopAndClose u;;;; st_ret (rc, u)
      else st_ret (0, u).

Definition create_usecase (see id size : Z) (payload : option (list Z)) : M (Z * option Usecase) :=
  o <-- UsecaseCreate id;;
  match o with
  | None => st_ret (- EINVAL, None)
  | Some u =>
      p <-- SetUseCaseData size payload u;;
      let '(rc, u) := p in
      if decide (rc ≠ 0) then st_ret (rc, None)
      else
        p <-- launch_usecase u;;
        let '(rc, u) := p in
        if decide (rc ≠ 0) then st_ret (rc, None)
        else update_client see (Usecase_Add id u);;;; st_ret (0, Some u)
  end.

Definition reconfigure_usecase (see id size : Z) (payload : option (list Z)) (u : Usecase)
    : M (Z * Usecase) :=
  p <-- SetUseCaseData size payload u;;
  let '(rc, u) := p in
  update_client see (λ c, mkClient (see_id c) (<[id := u]> (usecases c)));;;;
  if decide (rc ≠ 0) then st_ret (rc, u)
  else
    rc <-- Configure u;;
    if decide (rc ≠ 0) then StopAndClose u;;;; st_ret (rc, u)
    else st_ret (0, u).

Definition process_register_request (see id size : Z) (payload : option (list Z)) : M Z :=
  c <-- SEE_Client_CreateIf_And_Get see;;
  p <-- match Usecase_Get id c with
        | None => create_usecase see id size payload
        | Some u =>
            p <-- reconfigure_usecase see id size payload u;;
            st_ret (p.1, Some p.2)
        end;;
  let '(rc, o) := p in
  rc <-- match o with
         | Some u =>
             if decide (rc ≠ 0) then st_ret rc else build_and_send_register_ack u see id
         | None => st_ret rc
         end;;
  if decide (rc ≠ 0) then
    send_asps_basic_response rc EVENT_ID_ASPS_SENSOR_REGISTER_REQUEST see;;;; st_ret rc
  else st_ret rc.

Definition process_deregister_request (see id : Z) : M Z :=
  o <-- SEE_Client_Get_Existing see;;
  match o with
  | None => st_ret (-1)
  | Some c =>
      match Usecase_Get id c with
      | None => st_ret (- EINVAL)
      | Some u =>
          StopAndClose u;;;;
          update_client see (λ c, (Usecase_Remove id c).2);;;;
          st_ret 0
      end
  end.

Definition process_close_all : M Z := CloseAll;;;; st_ret 0.

Definition GetSupportedContextIDs : list Z := concat sound_models.

Definition get_context_ids (see : Z) : M Z :=
  let ids := GetSupportedContextIDs in
  let num := zlen ids in
  ok <-- calloc;;
  if negb ok then st_ret (- ENOMEM)
  else send (SupportedContexts see (u32 num)
               (u32 (PAL_ALIGN_8BYTE (sizeof_supported_ids + 4 * num))) ids)
         (PAL_ALIGN_8BYTE (sizeof_param_data + sizeof_supported_ids + 4 * num)).

(** ** Commands *)

Inductive RequestCommand :=
  | CommandRegister (see_sensor_iid uc size : Z) (payload : option (list Z))
  | CommandDeregister (see_sensor_iid uc : Z)
  | CommandGetContextIDs (see_sensor_iid : Z)
  | CommandCloseAll.

Definition Process (c : RequestCommand) : M Z :=
  match c with
  | CommandRegister see uc size payload => process_register_request see uc size payload
  | CommandDeregister see uc =>
      rc <-- process_deregister_request see uc;;
      send_asps_basic_response rc EVENT_ID_ASPS_SENSOR_DEREGISTER_REQUEST see;;;;
      st_ret rc
  | CommandGetContextIDs see => get_context_ids see
  | CommandCloseAll => process_close_all
  end.

Fixpoint process_all (l : list RequestCommand) : M unit :=
  match l with
  | [] => st_ret tt
  | c :: l => Process c;;;; process_all l
  end.

(** ** The proxy stream *)

Definition OpenAndStartProxyStream : M Z :=
  rc <-- pal (StreamOpen (attributes PAL_STREAM_CONTEXT_PROXY PAL_AUDIO_INPUT) [] None);;
  if decide (rc ≠ 0) then st_ret rc
  else
    h <-- st_gets (λ w, last_handle (env w));;
    st_modify (set_proxy h);;;;
    rc <-- pal (StreamStart h);;
    if decide (rc ≠ 0) then
      pal (StreamClose h);;;; st_modify (set_proxy None);;;; st_ret rc
    else st_ret rc.

Definition StopAndCloseProxyStream : M Z :=
  h <-- st_gets proxy_stream;;
  match h with
  | None => st_ret 0
  | Some _ =>
      pal (StreamStop h);;;;
      rc <-- pal (StreamClose h);;
      st_modify (set_proxy None);;;;
      st_ret rc
  end.

Definition Init : M Z :=
  rc <-- OpenAndStartProxyStream;;
  st_ret rc.

(** The thread is joined between the last two calls of the code. *)
Definition DeInit : M unit := CloseAll;;;; StopAndCloseProxyStream;;;; st_ret tt.

(** The part of [ssrDownHandler] before it drops the queued commands. *)
Definition ssrDownHandler : M Z := CloseAll;;;; st_ret 0.
Definition ssrUpHandler : M Z := st_ret 0.
End manager.
