(* ===== verification/ContextManagerFacts.v ===== *)
(** * The context manager: ownership of streams, answers, bounds

    [quiet] tracks the programs that leave the sensors alone: what they return and
    what they add to the log of calls. *)

From stdpp Require Import gmultiset.
From S2P Require Import Prelude PalDefs ContextManager.

(** ** The ledger of streams *)

(** The handles PAL has open for the manager after some calls. *)
Definition ledger (M : gmultiset (option Z)) (e : PalCall * Z) : gmultiset (option Z) :=
  match e with
  | (StreamOpen _ _ h, rc) => if decide (rc = 0) then M ⊎ {[+ h +]} else M
  | (StreamClose h, _) => M ∖ {[+ h +]}
  | _ => M
  end.
Definition open_after (l : list (PalCall * Z)) (M : gmultiset (option Z))
  : gmultiset (option Z) := foldl ledger M l.

Lemma open_after_app l l' M : open_after (l ++ l') M = open_after l' (open_after l M).
Proof. apply foldl_app. Qed.

(** Calls that leave the open streams alone, and calls that open none. *)
Definition idle_calls (l : list (PalCall * Z)) : Prop := ∀ M, open_after l M = M.
Definition opens_none (l : list (PalCall * Z)) : Prop := ∀ M, open_after l M ⊆ M.

Lemma idle_calls_nil : idle_calls [].
Proof. done. Qed.
Lemma idle_calls_app l l' : idle_calls l → idle_calls l' → idle_calls (l ++ l').
Proof. intros H H' M. rewrite open_after_app, H'. apply H. Qed.
Lemma idle_opens_none l : idle_calls l → opens_none l.
Proof. intros H M. by rewrite H. Qed.
Lemma opens_none_nil : opens_none [].
Proof. by intros M. Qed.
#[local] Hint Resolve opens_none_nil : core.
Lemma opens_none_app l l' : opens_none l → opens_none l' → opens_none (l ++ l').
Proof. intros H H' M. rewrite open_after_app. etrans; [apply H'|apply H]. Qed.
Lemma opens_none_close h r1 r2 : opens_none [(StreamStop h, r1); (StreamClose h, r2)].
Proof. intros M. simpl. multiset_solver. Qed.

(** The handles of the use cases of the sensors. *)
Definition uc_handles (m : gmap Z Usecase) : list (option Z) :=
  pal_stream <$> (map_to_list m).*2.
Definition owned (m : gmap Z see_client) : gmultiset (option Z) :=
  list_to_set_disj ((map_to_list m).*2 ≫= λ c, uc_handles (usecases c)).

Lemma uc_handles_insert m id u : m !! id = None →
  uc_handles (<[id := u]> m) ≡ₚ pal_stream u :: uc_handles m.
Proof. intros Hm. unfold uc_handles. by rewrite (map_to_list_insert m id u Hm). Qed.
Lemma uc_handles_delete m id u : m !! id = Some u →
  uc_handles m ≡ₚ pal_stream u :: uc_handles (delete id m).
Proof.
  intros Hm. rewrite <- (insert_delete_id m id u Hm) at 1.
  apply uc_handles_insert, lookup_delete_eq.
Qed.
Lemma uc_handles_update m id u u' : m !! id = Some u → pal_stream u' = pal_stream u →
  uc_handles (<[id := u']> m) ≡ₚ uc_handles m.
Proof.
  intros Hm Hu. rewrite (uc_handles_delete m id u Hm), <- Hu, <- insert_delete_eq.
  apply uc_handles_insert, lookup_delete_eq.
Qed.

Lemma owned_empty : owned ∅ = ∅.
Proof. done. Qed.
Lemma owned_insert m see c : m !! see = None →
  owned (<[see := c]> m) = list_to_set_disj (uc_handles (usecases c)) ⊎ owned m.
Proof.
  intros Hm. unfold owned. rewrite <- list_to_set_disj_app.
  apply list_to_set_disj_perm. by rewrite (map_to_list_insert m see c Hm).
Qed.
Lemma owned_delete m see c : m !! see = Some c →
  owned m = list_to_set_disj (uc_handles (usecases c)) ⊎ owned (delete see m).
Proof.
  intros Hm. rewrite <- (insert_delete_id m see c Hm) at 1.
  apply owned_insert, lookup_delete_eq.
Qed.
Lemma owned_alter m see f c : m !! see = Some c →
  owned (alter f see m) =
    list_to_set_disj (uc_handles (usecases (f c))) ⊎ owned (delete see m).
Proof.
  intros Hm. rewrite (owned_delete (alter f see m) see (f c)) by (by rewrite lookup_alter_eq, Hm).
  by rewrite delete_alter_eq.
Qed.

(** ** Bytes and words *)

Definition bytes (d : list Z) : Prop := Forall (λ b, 0 ≤ b < 2 ^ 8) d.

Lemma le_word_at_ok off d : bytes d → 0 ≤ off → off + 4 ≤ zlen d →
  ∃ n, word_at off d = Some n ∧ 0 ≤ n < 2 ^ 32.
Proof.
  intros Hd Ho Hl. unfold word_at.
  destruct (slice_is_Some off 4 d) as [b Hb]; [lia..|]. rewrite Hb. simpl.
  pose proof (slice_length _ _ _ _ Hb) as Hlen.
  assert (bytes b) as Hb'.
  { apply slice_Some in Hb as [_ ->]. by apply Forall_take, Forall_drop. }
  destruct b as [|b0 [|b1 [|b2 [|b3 [|]]]]]; try (unfold zlen in Hlen; simpl in Hlen; lia).
  eexists. split; [done|].
  apply Forall_cons in Hb' as [? Hb']. apply Forall_cons in Hb' as [? Hb'].
  apply Forall_cons in Hb' as [? Hb']. apply Forall_cons in Hb' as [? _].
  change (2 ^ 8) with 256 in *. change (2 ^ 16) with 65536. change (2 ^ 24) with 16777216.
  change (2 ^ 32) with 4294967296. lia.
Qed.

Lemma words_at_ok n : ∀ off d, bytes d → 0 ≤ off → off + 4 * Z.of_nat n ≤ zlen d →
  ∃ l, words_at off n d = Some l ∧ length l = n.
Proof.
  induction n as [|n IH]; intros off d Hd Ho Hl; [by exists []|]. simpl.
  destruct (le_word_at_ok off d) as (x&->&_); [done|lia..|]. simpl.
  destruct (IH (off + 4) d) as (l&->&Hlen); [done|lia..|]. simpl. exists (x :: l).
  split; [done|]. simpl. lia.
Qed.

Lemma slice_all (d : list Z) : slice 0 (zlen d) d = Some d.
Proof.
  unfold slice. pose proof (zlen_nonneg d). rewrite decide_True by lia.
  rewrite drop_0, take_ge; [done|]. unfold zlen. lia.
Qed.

(** The test on the number of contexts, with the conversions of C: 2^32 - 1 contexts
    pass it whatever the size. *)
Lemma acd_size_test n size : 0 ≤ n < 2 ^ 32 → 0 ≤ size < 2 ^ 32 →
  ¬ size < u64 (4 + u64 (u64 (s32 n) * 4)) ↔ n = 2 ^ 32 - 1 ∨ 4 + 4 * n ≤ size.
Proof. intros. word_lia. Qed.

Section facts.
Context {E : Type} `{Ha : !Asps} `{He : !PalEnv E}.
Local Abbreviation W := (CM E).

(** ** Programs that leave the sensors alone *)

Definition quiet {A} (m : St W A) (Q : A → list (PalCall * Z) → Prop) (w : W) : Prop :=
  st_wp m (λ a w', see_clients w' = see_clients w ∧ proxy_stream w' = proxy_stream w ∧
    ∃ l, log w' = log w ++ l ∧ Q a l) w.

Lemma quiet_ret {A} (x : A) (Q : _ → _ → Prop) w : Q x [] → quiet (st_ret x) Q w.
Proof. intros. apply st_wp_ret. split; [done|split; [done|]]. exists []. by rewrite app_nil_r. Qed.

Lemma quiet_bind {A B} (m : St W A) (k : A → St W B) (R Q : _ → _ → Prop) w :
  quiet m R w → (∀ a l w', R a l → see_clients w' = see_clients w →
     proxy_stream w' = proxy_stream w → quiet (k a) (λ b l', Q b (l ++ l')) w') →
  quiet (st_bind m k) Q w.
Proof.
  intros Hm Hk. apply st_wp_bind. eapply st_wp_mono; [apply Hm|].
  intros a w' (Hs&Hp&l&Hl&HR). eapply st_wp_mono; [by apply (Hk a l)|].
  intros b w2 (Hs2&Hp2&l2&Hl2&HQ). simpl in *. split; [congruence|]. split; [congruence|].
  exists (l ++ l2). by rewrite Hl2, Hl, app_assoc.
Qed.

Lemma quiet_mono {A} (m : St W A) (Q Q' : _ → _ → Prop) w :
  quiet m Q w → (∀ a l, Q a l → Q' a l) → quiet m Q' w.
Proof.
  intros Hm HQ. eapply st_wp_mono; [apply Hm|]. intros a w' (?&?&l&?&?). eauto 6.
Qed.

Lemma quiet_gets {A} (f : W → A) (Q : _ → _ → Prop) w : Q (f w) [] → quiet (st_gets f) Q w.
Proof.
  intros. apply st_wp_gets. split; [done|split; [done|]]. exists []. by rewrite app_nil_r.
Qed.

Lemma quiet_lift {A} (o : option A) x (Q : _ → _ → Prop) w :
  o = Some x → Q x [] → quiet (st_lift o) Q w.
Proof.
  intros Ho ?. eapply st_wp_lift; [done|]. split; [done|split; [done|]].
  exists []. by rewrite app_nil_r.
Qed.

(** The state after the call [c] was answered with [rc] and the environment [s]. *)
Definition answered_by (c : PalCall) (rc : Z) (s : E) (w : W) : W :=
  mkCM (see_clients w) (proxy_stream w) s (log w ++ [(completed c rc s, rc)]).

Lemma quiet_bind_pal {B} c (k : Z → St W B) (Q : _ → _ → Prop) w :
  (∀ rc s, pal_api c (env w) = (rc, s) →
     quiet (k rc) (λ b l, Q b ((completed c rc s, rc) :: l)) (answered_by c rc s w)) →
  quiet (st_bind (pal c) k) Q w.
Proof.
  intros Hk. unfold quiet. apply st_wp_bind. unfold st_wp at 1, pal.
  destruct (pal_api c (env w)) as [rc s]. exists rc, (answered_by c rc s w). split; [done|].
  eapply st_wp_mono; [by apply (Hk rc s)|]. intros b w' (Hs&Hp&l&Hl&HQ). simpl in *.
  split; [done|]. split; [done|]. eexists. split; [|done]. by rewrite Hl, <- app_assoc.
Qed.

Definition not_open (c : PalCall) : Prop :=
  match c with StreamOpen _ _ _ => False | _ => True end.
Lemma completed_other c rc s : not_open c → completed c rc s = c.
Proof. by destruct c. Qed.

Lemma quiet_pal c (Q : _ → _ → Prop) w :
  not_open c → (∀ rc, Q rc [(c, rc)]) → quiet (pal c) Q w.
Proof.
  intros Hc HQ. unfold quiet, st_wp, pal. destruct (pal_api c (env w)) as [rc s].
  exists rc. eexists. split; [done|]. rewrite completed_other by done. simpl. eauto 6.
Qed.

Lemma quiet_calloc (Q : _ → _ → Prop) w : (∀ ok, Q ok []) → quiet calloc Q w.
Proof.
  intros HQ. unfold quiet, st_wp, calloc. destruct (alloc (env w)) as [ok s].
  exists ok. eexists. split; [done|]. simpl. split; [done|split; [done|]].
  exists []. by rewrite app_nil_r.
Qed.

(** ** What the requests and the rest of PAL must satisfy *)

(** A request: the payload is the block it says, and holds the structure the use
    case reads. *)
Definition payload_ok (id size : Z) (p : option (list Z)) : Prop :=
  ∀ d u0, p = Some d → usecase_for id = Some u0 →
    bytes d ∧ zlen d = size ∧ size < 2 ^ 32 ∧
    match kind u0 with
    | UC_ACD => size = 0 ∨ 4 ≤ size
    | UC_PCM_DATA => is_Some (read_pcm_v2 d) ∧ is_Some (read_stream_type d)
    | UC_PCM_RENDERER =>
        sizeof_rendering ≤ size → ∃ r, read_rendering d = Some r ∧ 0 ≤ num_channels r
    | UC_ASR => size = sizeof_asr → is_Some (read_asr d)
    | _ => True
    end.

(** The sizes are those of structures, the tags of a use case differ, and of a query
    of tags: on success the entries announced are in the block of the manager, and
    [ENODATA] (a positive number; PAL answers errors with negative ones) does not ask
    for a larger block, which the code reads through a pointer to the freed one
    ([larger_block_is_lost]). *)
Record env_ok : Prop := {
  rendering_size : 0 ≤ sizeof_rendering;
  ack_size : 0 ≤ sizeof_acd_ack;
  tags_distinct : ∀ id u0, usecase_for id = Some u0 → NoDup (tags u0);
  tag_reply : ∀ h n s rc s', n ≤ TAG_MODULE_DEFAULT_SIZE →
    pal_api (GetTagInfo h n) s = (rc, s') →
    let '(num, entries, sz) := tag_info s' in
    (rc = ENODATA → sz ≤ TAG_MODULE_DEFAULT_SIZE) ∧
    (rc = 0 → ∀ id u0, usecase_for id = Some u0 → is_Some (
       tag_walk (tags u0) (tag_block TAG_MODULE_DEFAULT_SIZE entries) (Z.to_nat num) 0 ∅));
}.
Context (Hok : env_ok).

(** A use case of the identifier [id]. *)
Definition made_for (id : Z) (u : Usecase) : Prop :=
  ∃ u0, usecase_for id = Some u0 ∧ kind u = kind u0 ∧ usecase_id u = id ∧ tags u = tags u0.

(** The list of contexts a use case may be configured with. *)
Definition ready (u : Usecase) : Prop :=
  kind u = UC_ACD → ∃ l n, requested_context_list u = Some l ∧ bytes l ∧
    word_at 0 l = Some n ∧ 0 ≤ n < 2 ^ 32 ∧ (n = 2 ^ 32 - 1 ∨ 4 + 4 * n ≤ zlen l).

Lemma made_for_id id u0 : usecase_for id = Some u0 → usecase_id u0 = id.
Proof. unfold usecase_for. intros. by split_cases. Qed.

Lemma made_for_new id u0 : usecase_for id = Some u0 → made_for id u0.
Proof. intros Hu. exists u0. by rewrite (made_for_id id u0 Hu). Qed.

Lemma acd_tags id u : made_for id u → kind u = UC_ACD → tags u = [CONTEXT_DETECTION_ENGINE].
Proof.
  intros (u0&Hu&Hk&_&->). rewrite Hk. revert Hu. unfold usecase_for. intros. by split_cases.
Qed.

(** The parts of a use case that its data do not touch. *)
Definition same_usecase (u u' : Usecase) : Prop :=
  kind u' = kind u ∧ usecase_id u' = usecase_id u ∧ tags u' = tags u ∧
  pal_stream u' = pal_stream u.

Definition set_post (u : Usecase) (p : Z * Usecase) (l : list (PalCall * Z)) : Prop :=
  l = [] ∧ same_usecase u p.2 ∧ (p.1 = 0 → ready p.2).

Lemma quiet_bind_lift {A B} (o : option A) x (k : A → St W B) Q w :
  o = Some x → quiet (k x) Q w → quiet (st_bind (st_lift o) k) Q w.
Proof. by intros ->. Qed.
Lemma quiet_bind_gets {A B} (f : W → A) (k : A → St W B) Q w :
  quiet (k (f w)) Q w → quiet (st_bind (st_gets f) k) Q w.
Proof. done. Qed.
Lemma quiet_bind_ret {A B} (x : A) (k : A → St W B) Q w :
  quiet (k x) Q w → quiet (st_bind (st_ret x) k) Q w.
Proof. done. Qed.
Lemma quiet_bind_bind_gets {A B C} (f : W → A) (k : A → St W B) (k' : B → St W C) Q w :
  quiet (st_bind (k (f w)) k') Q w → quiet (st_bind (st_bind (st_gets f) k) k') Q w.
Proof. done. Qed.

Ltac quiet_step :=
  lazymatch goal with
  | |- quiet (st_ret _) _ _ => apply quiet_ret
  | |- quiet (st_gets _) _ _ => apply quiet_gets
  | |- quiet calloc _ _ => apply quiet_calloc; intros ?
  | |- quiet (pal _) _ _ => apply quiet_pal; [done|intros ?]
  | |- quiet (st_bind calloc _) _ _ =>
      eapply quiet_bind; [apply (quiet_calloc (λ _ l, l = [])); done|intros ? ? ? -> ??]
  | |- quiet (st_bind (st_gets _) _) _ _ =>
      apply quiet_bind_gets
  | |- quiet (st_bind (pal ?c) _) _ _ =>
      eapply quiet_bind;
      [apply (quiet_pal c (λ rc l, l = [(c, rc)])); [done|done]|intros ? ? ? -> ??]
  | |- quiet (if decide _ then _ else _) _ _ => case_decide
  | |- quiet (if negb ?b then _ else _) _ _ => destruct b; cbn [negb]
  | |- quiet (if ?b then _ else _) _ _ => destruct b
  end; simpl.


Lemma same_refl u : same_usecase u u.
Proof. done. Qed.

Lemma quiet_set_acd size p u w :
  kind u = UC_ACD →
  (∀ d, p = Some d → bytes d ∧ zlen d = size ∧ size < 2 ^ 32 ∧ (size = 0 ∨ 4 ≤ size)) →
  quiet (set_data_acd size p u) (set_post u) w.
Proof.
  intros Hk Hp. unfold set_data_acd. destruct p as [d|]; [|by apply quiet_ret].
  destruct (Hp d eq_refl) as (Hb&<-&Hsz&H4). pose proof (zlen_nonneg d).
  case_decide; [by apply quiet_ret|].
  destruct (le_word_at_ok 0 d) as (n&Hn&Hr); [done|lia..|].
  eapply quiet_bind_lift; [done|]. quiet_step; [by apply quiet_ret|].
  quiet_step. quiet_step; [|by apply quiet_ret].
  eapply quiet_bind_lift; [by apply slice_all|]. apply quiet_ret.
  split; [done|]. split; [done|]. intros _ _. exists d, n.
  apply acd_size_test in H1; [by auto 10|done|done].
Qed.

Lemma quiet_set_data id size p u w :
  made_for id u → payload_ok id size p → quiet (SetUseCaseData size p u) (set_post u) w.
Proof.
  intros (u0&Hu&Hk&Hid&_) Hp. unfold SetUseCaseData. rewrite Hk.
  assert (∀ u', kind u' = kind u0 → kind u0 ≠ UC_ACD → ready u') as Hnr.
  { unfold ready. intros ? -> ??. done. }
  destruct (kind u0) eqn:Hk0.
  - apply quiet_set_acd; [done|]. intros d ->. destruct (Hp d u0 eq_refl Hu) as (?&?&?&Hm).
    by rewrite Hk0 in Hm.
  - unfold set_data_pcm. destruct p as [d|]; [|by apply quiet_ret].
    destruct (Hp d u0 eq_refl Hu) as (_&_&_&Hm). rewrite Hk0 in Hm.
    destruct Hm as [[p Hpv] [ty Hty]]. case_decide; [by apply quiet_ret|].
    apply (quiet_bind _ _ (λ u' l, l = [] ∧ same_usecase u u')).
    { case_decide; [eapply quiet_bind_lift; [done|]|]; by apply quiet_ret. }
    intros u' ? ? [-> Hsame] ??. eapply quiet_bind_lift; [done|]. quiet_step;
      apply quiet_ret; (split; [done|]); (split; [done|]); intros ?; [done|].
    apply Hnr; [|done]. destruct Hsame as (Hks&_). simpl. congruence.
  - apply quiet_ret. split; [done|]. split; [done|]. intros _. by apply Hnr.
  - unfold set_data_renderer. destruct p as [d|]; [|by apply quiet_ret].
    destruct (Hp d u0 eq_refl Hu) as (_&Hl&_&Hm). rewrite Hk0 in Hm.
    case_decide; [by apply quiet_ret|]. destruct Hm as (r&Hr&Hnn); [lia|].
    eapply quiet_bind_lift; [done|]. quiet_step; [by apply quiet_ret|].
    quiet_step; [by apply quiet_ret|]. pose proof (rendering_size Hok).
    destruct (slice_is_Some sizeof_rendering (num_channels r) d) as [chs Hc]; [lia..|].
    eapply quiet_bind_lift; [done|]. apply quiet_ret. split; [done|]. split; [done|].
    intros _. by apply Hnr.
  - apply quiet_ret. split; [done|]. split; [done|]. intros _. by apply Hnr.
  - unfold set_data_asr. destruct p as [d|]; [|by apply quiet_ret].
    destruct (Hp d u0 eq_refl Hu) as (_&_&_&Hm). rewrite Hk0 in Hm.
    case_decide; [by apply quiet_ret|]. destruct Hm as [a Ha']; [lia|].
    quiet_step. quiet_step; [|by apply quiet_ret].
    eapply quiet_bind_lift; [done|]. apply quiet_ret. split; [done|]. split; [done|].
    intros _. by apply Hnr.
Qed.

(** Calls that neither open nor close a stream. *)
Definition neutral {A} (_ : A) (l : list (PalCall * Z)) : Prop := idle_calls l.

Lemma quiet_configure u w : ready u → quiet (Configure u) neutral w.
Proof.
  intros Hr. unfold Configure. destruct (kind u) eqn:Hk; try by apply quiet_ret.
  - unfold configure_acd. destruct (Hr Hk) as (l&n&Hl&Hb&Hn&Hrange&Hsz).
    do 2 (eapply quiet_bind_lift; [done|]). quiet_step; [by apply quiet_ret|].
    quiet_step. quiet_step; [|by apply quiet_ret].
    destruct (slice_is_Some 0 (4 * u32 (1 + n)) l) as [b Hs].
    { lia. } { pose proof (u32_range (1 + n)). lia. }
    { destruct Hsz as [->|?]; [apply zlen_nonneg|].
      pose proof (Z.mod_le (1 + n) (2 ^ 32)). unfold u32. lia. }
    eapply quiet_bind_lift; [done|]. quiet_step. done.
  - unfold configure_pcm. quiet_step. quiet_step; [|by apply quiet_ret].
    quiet_step. quiet_step; [|by apply quiet_ret]. quiet_step. done.
  - unfold configure_sdz. quiet_step. quiet_step; [|by apply quiet_ret].
    quiet_step. quiet_step; [|by apply quiet_ret]. quiet_step. done.
  - unfold configure_asr.
    destruct (asr_reg_config u); [|by apply quiet_ret].
    destruct asr_platform as [[[b|] [[rd cfg]|]]|]; try by apply quiet_ret.
    quiet_step. quiet_step; [|by apply quiet_ret]. quiet_step; [by apply quiet_ret|].
    quiet_step. quiet_step; [by apply quiet_ret|]. quiet_step.
    quiet_step; [|by apply quiet_ret]. quiet_step. done.
Qed.

(** ** Acknowledgements *)

(** The module map: only tags asked for, none without a module. *)
Definition miids_ok (ts : list Z) (m : gmap Z (list Z)) : Prop :=
  ∀ t l, m !! t = Some l → t ∈ ts ∧ l ≠ [].

Lemma tag_walk_ok ts block n : ∀ pos acc m,
  miids_ok ts acc → tag_walk ts block n pos acc = Some m → miids_ok ts m.
Proof using.
  induction n as [|n IH]; intros pos acc m Hacc; simpl; [by intros [= <-]|].
  destruct (slice pos 1 block) as [[|[tag num] [|]]|]; try done. simpl.
  case_decide as Ht; [|by apply IH].
  destruct (slice (pos + 1) num block) as [mods|]; [|done]. simpl. apply IH.
  unfold add_miids. destruct (mods.*2) eqn:Hm; [done|]. intros t ms.
  rewrite lookup_insert_Some. intros [[<- <-]|[? Hl]]; [|by eapply Hacc].
  split; [done|]. by destruct (default [] (acc !! tag)).
Qed.

Lemma add_miids_lookup tag ms (m : gmap Z (list Z)) t :
  default [] (add_miids tag ms m !! t) =
  default [] (m !! t) ++ if decide (tag = t) then ms else [].
Proof using.
  unfold add_miids. destruct ms as [|x ms]; [by case_decide; rewrite app_nil_r|].
  case_decide as Ht; [subst; by rewrite lookup_insert_eq|].
  by rewrite lookup_insert_ne, app_nil_r.
Qed.

Lemma ack_miids_cons t ts (m : gmap Z (list Z)) :
  ack_miids (t :: ts) m = default [] (m !! t) ++ ack_miids ts m.
Proof. done. Qed.

Lemma ack_miids_other ts tag ms (m : gmap Z (list Z)) : tag ∉ ts →
  ack_miids ts (add_miids tag ms m) = ack_miids ts m.
Proof using.
  induction ts as [|t ts IH]; [done|]. intros [? ?]%not_elem_of_cons.
  by rewrite !ack_miids_cons, add_miids_lookup, decide_False, app_nil_r, IH.
Qed.

(** The block bounds the number of modules found. *)
Lemma ack_miids_add ts tag ms (m : gmap Z (list Z)) : NoDup ts →
  zlen (ack_miids ts (add_miids tag ms m)) ≤ zlen (ack_miids ts m) + zlen ms.
Proof using.
  pose proof (zlen_nonneg ms). induction 1 as [|t ts Hni _ IH]; [simpl; lia|].
  rewrite !ack_miids_cons, add_miids_lookup, !zlen_app. case_decide as Ht; [subst t|].
  - rewrite ack_miids_other by done. lia.
  - change (zlen []) with 0. lia.
Qed.

Lemma tag_walk_bound ts block n : NoDup ts → zlen block < 2 ^ 28 → ∀ pos acc m, 0 ≤ pos →
  tag_walk ts block n pos acc = Some m →
  zlen (ack_miids ts m) ≤ zlen (ack_miids ts acc) + Z.max 0 (zlen block - pos).
Proof using.
  intros Hts Hsmall.
  induction n as [|n IH]; intros pos acc m Hpos; simpl; [intros [= <-]; lia|].
  destruct (slice pos 1 block) as [[|[tag num] [|]]|]; try done. simpl.
  assert (0 ≤ u32 (8 + 8 * num) `div` 8) as Hstep by (apply Z.div_pos; [apply u32_range|lia]).
  case_decide as Ht; [|intros Hw; apply IH in Hw; lia].
  destruct (slice (pos + 1) num block) as [mods|] eqn:Hs; [|done]. simpl.
  pose proof (slice_length _ _ _ _ Hs) as Hlen. apply slice_Some in Hs as [Hfit _].
  intros Hw. apply IH in Hw; [|lia]. pose proof (ack_miids_add ts tag mods.*2 acc Hts) as Hadd.
  assert (zlen mods.*2 = num) as Hz by (unfold zlen in *; rewrite length_fmap; lia).
  rewrite u32_small in Hw by lia. replace (8 + 8 * num) with ((1 + num) * 8) in Hw by lia.
  rewrite Z.div_mul in Hw by done. lia.
Qed.

Lemma tag_block_length size entries : 4 ≤ size →
  zlen (tag_block size entries) = (size - 4) `div` 8.
Proof using.
  intros. assert (0 ≤ (size - 4) `div` 8) by (apply Z.div_pos; lia).
  unfold tag_block, zlen. rewrite length_take, length_app, length_replicate. lia.
Qed.

Lemma tag_walk_fits ts entries n m : NoDup ts →
  tag_walk ts (tag_block TAG_MODULE_DEFAULT_SIZE entries) n 0 ∅ = Some m →
  miids_ok ts m ∧ 4 * zlen (ack_miids ts m) ≤ ACKDATA_DEFAULT_SIZE.
Proof using.
  intros Hts Hw. split.
  { eapply tag_walk_ok; [|done]. intros ??. by rewrite lookup_empty. }
  assert (zlen (tag_block TAG_MODULE_DEFAULT_SIZE entries) < 2 ^ 28) as Hl
    by by rewrite tag_block_length.
  pose proof (tag_walk_bound ts _ n Hts Hl 0 ∅ m ltac:(lia) Hw) as Hb.
  rewrite tag_block_length in Hb by done.
  assert (ack_miids ts (∅ : gmap Z (list Z)) = []) as He'.
  { clear. induction ts as [|t ts IH]; [done|]. by rewrite ack_miids_cons, lookup_empty, IH. }
  rewrite He' in Hb. change (zlen []) with 0 in Hb.
  change ((TAG_MODULE_DEFAULT_SIZE - 4) `div` 8) with 127 in Hb. unfold ACKDATA_DEFAULT_SIZE. lia.
Qed.

Definition iids_post (u : Usecase) (p : Z * gmap Z (list Z)) (l : list (PalCall * Z)) : Prop :=
  idle_calls l ∧ (p.1 = 0 → p.2 ≠ ∅ ∧ miids_ok (tags u) p.2 ∧
    4 * zlen (ack_miids (tags u) p.2) ≤ ACKDATA_DEFAULT_SIZE).

(** The end of [GetModuleIIDs], after an answer in [w]. *)
Lemma quiet_iids_walk id u l0 rc w : made_for id u → idle_calls l0 →
  (rc = 0 → let '(num, entries, _) := tag_info (env w) in is_Some (
     tag_walk (tags u) (tag_block TAG_MODULE_DEFAULT_SIZE entries) (Z.to_nat num) 0 ∅)) →
  quiet (if decide (rc ≠ 0) then st_ret (rc, ∅)
    else
      p <-- st_gets (λ w, tag_info (env w));;
      let '(num_tags, entries, _) := p in
      m <-- st_lift (tag_walk (tags u) (tag_block TAG_MODULE_DEFAULT_SIZE entries)
                       (Z.to_nat num_tags) 0 ∅);;
      if decide (m = ∅) then st_ret (- ENODATA, m) else st_ret (0, m))%st
    (λ p l, iids_post u p (l0 ++ l)) w.
Proof.
  intros (u0&Hu&_&_&Ht) Hl0 Hfit. quiet_step.
  { apply quiet_ret. rewrite app_nil_r. done. }
  quiet_step. destruct (tag_info _) as [[num entries] sz]. destruct Hfit as [m Hm]; [lia|].
  eapply quiet_bind_lift; [done|].
  destruct (tag_walk_fits (tags u) entries (Z.to_nat num) m) as [? ?]; [|done|].
  { rewrite Ht. by eapply tags_distinct. }
  quiet_step; apply quiet_ret; rewrite app_nil_r; (split; [done|]); [done|]. simpl. auto.
Qed.

Lemma quiet_iids id u w : made_for id u → quiet (GetModuleIIDs u) (iids_post u) w.
Proof.
  intros Hmade. pose proof Hmade as (u0&Hu&_&_&Ht). unfold GetModuleIIDs.
  apply quiet_bind_pal. intros rc s Hrc.
  pose proof (tag_reply Hok _ _ _ _ _ ltac:(done) Hrc) as Hfit.
  rewrite completed_other by done. case_decide as Hno.
  - destruct (tag_info s) as [[num entries] sz] eqn:Hi. destruct Hfit as [Hsz _].
    specialize (Hsz Hno). apply quiet_bind_bind_gets. cbn [env answered_by]. rewrite Hi.
    rewrite decide_False by lia.
    apply quiet_bind_pal. intros rc2 s2 Hrc2.
    pose proof (tag_reply Hok _ _ _ _ _ Hsz Hrc2) as Hfit.
    rewrite completed_other by done.
    refine (quiet_iids_walk id u (_ :: _ :: nil) _ _ Hmade _ _); [done|]. simpl. intros ->.
    destruct (tag_info s2) as [[num2 entries2] sz2]. destruct Hfit as [_ Hf].
    rewrite Ht. by eapply Hf.
  - refine (quiet_iids_walk id u (_ :: nil) _ _ Hmade _ _); [done|]. simpl. intros ->.
    destruct (tag_info s) as [[num2 entries2] sz2]. destruct Hfit as [_ Hf].
    rewrite Ht. by eapply Hf.
Qed.

(** The size grows past the block only when the status is not [ENODATA]. *)
Definition ack_post (p : Z * Z * ack_data) (l : list (PalCall * Z)) : Prop :=
  idle_calls l ∧ (p.1.1 = ENODATA → p.1.2 = ACKDATA_DEFAULT_SIZE).

Lemma quiet_ack id u w :
  made_for id u → ready u →
  quiet (GetAckDataOnSuccessfullStart u ACKDATA_DEFAULT_SIZE) ack_post w.
Proof.
  intros Hu Hr. unfold GetAckDataOnSuccessfullStart.
  assert (quiet (ack_base u ACKDATA_DEFAULT_SIZE) ack_post w) as Hbase.
  { unfold ack_base. eapply quiet_bind; [by eapply quiet_iids|].
    intros [rc m] l w' [Hl Hm] _ _. cbn beta iota. simpl in Hm. quiet_step.
    - apply quiet_ret. split; [by rewrite app_nil_r|done].
    - destruct Hm as (_&_&?); [lia|]. rewrite decide_False by lia.
      apply quiet_ret. split; [by rewrite app_nil_r|]. simpl. done. }
  destruct (kind u) eqn:Hk; try done.
  unfold ack_acd. eapply quiet_bind; [by eapply quiet_iids|].
  intros [rc m] l w' [Hl Hm] _ _. cbn beta iota. simpl in Hm. quiet_step.
  { apply quiet_ret. split; [by rewrite app_nil_r|done]. }
  destruct Hm as (Hne&Hmi&_); [lia|].
  destruct (Hr Hk) as (d&n&Hd&Hb&Hn&Hrange&Hsz).
  do 2 (eapply quiet_bind_lift; [done|]). pose proof (ack_size Hok).
  quiet_step; [|by apply quiet_ret; split; [by rewrite app_nil_r|]].
  unfold ACKDATA_DEFAULT_SIZE in *. destruct Hsz as [->|Hsz]; [lia|].
  rewrite (acd_tags id u Hu Hk) in Hmi |- *.
  destruct (m !! CONTEXT_DETECTION_ENGINE) as [[|x ms]|] eqn:Hlk.
  - by destruct (Hmi _ _ Hlk).
  - destruct (words_at_ok (Z.to_nat n) 4 d) as (ctx&Hctx&_); [done|lia..|].
    eapply quiet_bind_lift; [by simpl; rewrite Hlk|].
    eapply quiet_bind_lift; [done|]. apply quiet_ret. split; [by rewrite app_nil_r|done].
  - destruct Hne. apply map_eq. intros t. rewrite lookup_empty.
    destruct (m !! t) as [l'|] eqn:Ht; [|done].
    destruct (Hmi _ _ Ht) as [->%list_elem_of_singleton _]. congruence.
Qed.

Lemma quiet_send msg size w (Q : _ → _ → Prop) :
  is_Some (proxy_stream w) → (∀ h rc, Q rc [(Send h msg size, rc)]) → quiet (send msg size) Q w.
Proof.
  intros [h Hh] HQ. unfold send. apply quiet_bind_gets.
  eapply quiet_bind_lift; [done|]. apply quiet_pal; [done|auto].
Qed.

(** [l] ends with a message that satisfies [P], answered with [rc]. *)
Definition ends_with (P : asps_msg → Prop) (rc : Z) (l : list (PalCall * Z)) : Prop :=
  ∃ l0 h msg size, l = l0 ++ [(Send h msg size, rc)] ∧ P msg.

Definition is_ack (see uc : Z) (m : asps_msg) : Prop :=
  match m with RegisterAck s u _ _ _ => s = see ∧ u = uc | _ => False end.

Lemma quiet_build_ack id u see w :
  made_for id u → ready u → is_Some (proxy_stream w) →
  quiet (build_and_send_register_ack u see id)
    (λ rc l, idle_calls l ∧ (rc = 0 → ends_with (is_ack see id) 0 l)) w.
Proof.
  intros Hu Hr Hp. unfold build_and_send_register_ack. quiet_step.
  quiet_step; [|by apply quiet_ret].
  eapply quiet_bind; [by eapply quiet_ack|]. intros [[rc size] d] l w1 [Hl Hsz] _ Hp1.
  simpl in Hsz. apply (quiet_bind _ _ (λ _ l, idle_calls l)).
  - case_decide; [|by apply quiet_ret]. rewrite Hsz by done. quiet_step.
    quiet_step; [|by apply quiet_ret]. eapply quiet_mono; [by eapply quiet_ack|].
    by intros ?? [? _].
  - intros [[rc2 size2] d2] l2 w2 Hl2 _ Hp2. cbn beta iota in Hl2 |- *. quiet_step.
    { apply quiet_ret. rewrite app_nil_r. split; [by apply idle_calls_app|done]. }
    quiet_step. quiet_step.
    + apply quiet_send; [by congruence|]. intros h rc3. rewrite app_assoc.
      split; [by repeat apply idle_calls_app|]. intros ->. by eexists _, _, _, _.
    + apply quiet_ret. rewrite app_nil_r. split; [by apply idle_calls_app|done].
Qed.

Definition is_nack (event rc see : Z) (m : asps_msg) : Prop :=
  match m with BasicAck e r s _ => e = event ∧ r = rc ∧ s = see | _ => False end.

Lemma quiet_nack rc event see w :
  is_Some (proxy_stream w) →
  quiet (send_asps_basic_response rc event see)
    (λ _ l, idle_calls l ∧
       ((∀ s, (alloc s).1 = true) → ∃ r, ends_with (is_nack event rc see) r l)) w.
Proof.
  intros Hp. unfold send_asps_basic_response.
  apply (quiet_bind _ _ (λ ok l, l = [] ∧ ((∀ s, (alloc s).1 = true) → ok = true))).
  { unfold quiet, st_wp, calloc. destruct (alloc (env w)) as [ok s] eqn:Hal.
    exists ok. eexists. split; [done|]. simpl. split; [done|split; [done|]].
    exists []. rewrite app_nil_r. split; [done|split; [done|]].
    intros Hall. specialize (Hall (env w)). by rewrite Hal in Hall. }
  intros ok ? w' [-> Hal] _ Hp'. simpl. quiet_step.
  - apply quiet_send; [by rewrite Hp'|]. intros h r. split; [done|]. intros _.
    exists r. by eexists [], _, _, _.
  - apply quiet_ret. split; [done|]. by intros ?%Hal.
Qed.

(** ** Use cases come and go *)

Lemma quiet_stop_close u w :
  quiet (StopAndClose u)
    (λ rc l, rc = 0 ∧ ∃ r1 r2, l = [(StreamStop (pal_stream u), r1);
                                    (StreamClose (pal_stream u), r2)]) w.
Proof.
  unfold StopAndClose. do 2 quiet_step. apply quiet_ret. eauto.
Qed.

(** What an attempt to run [u] gives: a running use case with the one stream that was
    opened for it, or no stream. *)
Definition launched (u : Usecase) (p : Z * Usecase) (l : list (PalCall * Z)) : Prop :=
  if decide (p.1 = 0)
  then ∃ h, p.2 = set_pal_stream h u ∧ ∀ M, open_after l M = M ⊎ {[+ h +]}
  else opens_none l.

Lemma quiet_open u w : quiet (Open u) (launched u) w.
Proof.
  unfold Open. apply quiet_bind_pal. intros rc s Hrc. quiet_step. apply quiet_ret.
  unfold launched. simpl. case_decide as Hz.
  - by exists (last_handle s).
  - intros M. unfold open_after. simpl. by case_decide.
Qed.

(** Closing the stream again undoes the opening. *)
Lemma launched_close h rc l l' r1 r2 u : rc ≠ 0 →
  (∀ M, open_after l M = M ⊎ {[+ h +]}) → idle_calls l' →
  launched u (rc, set_pal_stream h u) (l ++ l' ++ [(StreamStop h, r1); (StreamClose h, r2)]).
Proof.
  intros Hrc Hl Hl'. unfold launched. simpl. rewrite decide_False by done. intros M.
  rewrite !open_after_app, Hl, Hl'. simpl. multiset_solver.
Qed.

Lemma quiet_launch u w : ready u → quiet (launch_usecase u) (launched u) w.
Proof.
  intros Hr. unfold launch_usecase, Start. eapply quiet_bind; [apply quiet_open|].
  intros [rc u1] l1 w1 Hl1 _ _. cbn beta iota. unfold launched in Hl1. cbn [fst snd] in Hl1.
  destruct (decide (rc = 0)) as [->|Hrc].
  2: { rewrite decide_True by done. apply quiet_ret. rewrite app_nil_r. unfold launched.
       cbn [fst]. by rewrite decide_False. }
  rewrite decide_False by lia. destruct Hl1 as (h&->&Hl1).
  assert (ready (set_pal_stream h u)) as Hr' by done.
  eapply quiet_bind; [by apply quiet_configure|]. intros rc2 l2 w2 Hl2 _ _. quiet_step.
  - eapply quiet_bind; [apply quiet_stop_close|].
    intros ? l3 w3 (_&r1&r2&->) _ _. apply quiet_ret. rewrite app_nil_r.
    by apply launched_close.
  - quiet_step. quiet_step.
    + eapply quiet_bind; [apply quiet_stop_close|].
      intros ? l3 w3 (_&r1&r2&->) _ _. apply quiet_ret. rewrite app_nil_r.
      pose proof (launched_close h a l1 (l2 ++ [(StreamStart h, a)]) r1 r2 u) as Hcl.
      rewrite <- app_assoc in Hcl. apply Hcl; [done|done|]. by apply idle_calls_app.
    + apply quiet_ret. unfold launched. cbn [fst snd]. rewrite decide_True by done.
      exists h. split; [done|]. intros M. rewrite open_after_app, Hl1.
      change (open_after (l2 ++ [(StreamStart h, a)]) (M ⊎ {[+ h +]}) = M ⊎ {[+ h +]}).
      by rewrite open_after_app, Hl2.
Qed.

Definition client_ok (see : Z) (c : see_client) : Prop :=
  see_id c = see ∧ map_Forall made_for (usecases c).
Definition clients_ok (m : gmap Z see_client) : Prop := map_Forall client_ok m.

Definition lookup_usecase (m : gmap Z see_client) (see id : Z) : option Usecase :=
  c ← m !! see; usecases c !! id.

(** The sensors are well formed, the proxy stream is known, and every handle PAL has
    open, as often as it has it open, is that of the proxy or of a registered use
    case. *)
Definition cm_ok (w : W) : Prop :=
  clients_ok (see_clients w) ∧ is_Some (proxy_stream w) ∧
  open_after (log w) ∅ ⊆ {[+ proxy_stream w +]} ⊎ owned (see_clients w).

(** Every stream that is open beside [P] stays owned over the calls [l]. *)
Definition keeps_owned (o o' : gmultiset (option Z)) (l : list (PalCall * Z)) : Prop :=
  ∀ P M, M ⊆ P ⊎ o → open_after l M ⊆ P ⊎ o'.

Lemma keeps_owned_refl o l : opens_none l → keeps_owned o o l.
Proof. intros Hl P M HM. etrans; [apply Hl|done]. Qed.
Lemma keeps_owned_nil o : keeps_owned o o [].
Proof. by intros P M. Qed.
Lemma keeps_owned_open h o l :
  (∀ M, open_after l M = M ⊎ {[+ h +]}) → keeps_owned o ({[+ h +]} ⊎ o) l.
Proof. intros Hl P M HM. rewrite Hl. multiset_solver. Qed.
Lemma keeps_owned_close h o r1 r2 :
  keeps_owned ({[+ h +]} ⊎ o) o [(StreamStop h, r1); (StreamClose h, r2)].
Proof. intros P M HM. unfold open_after. simpl. multiset_solver. Qed.
Lemma keeps_owned_frame o o' r l : keeps_owned o o' l → keeps_owned (o ⊎ r) (o' ⊎ r) l.
Proof.
  intros Hl P M. replace (P ⊎ (o ⊎ r)) with ((P ⊎ r) ⊎ o) by multiset_solver.
  replace (P ⊎ (o' ⊎ r)) with ((P ⊎ r) ⊎ o') by multiset_solver. apply Hl.
Qed.
Lemma keeps_owned_trans o1 o2 o3 l1 l2 :
  keeps_owned o1 o2 l1 → keeps_owned o2 o3 l2 → keeps_owned o1 o3 (l1 ++ l2).
Proof. intros H1 H2 P M HM. rewrite open_after_app. by apply H2, H1. Qed.

Lemma alter_client_ok m see f c :
  m !! see = Some c → clients_ok m → client_ok see (f c) → clients_ok (alter f see m).
Proof.
  intros Hm Hok' Hf k c'. destruct (decide (k = see)) as [->|].
  - rewrite lookup_alter_eq, Hm. intros [= <-]. done.
  - rewrite lookup_alter_ne by done. apply Hok'.
Qed.

Lemma lookup_usecase_alter_ne m see f see' id id' :
  (see', id') ≠ (see, id) →
  (∀ c id', id' ≠ id → usecases (f c) !! id' = usecases c !! id') →
  lookup_usecase (alter f see m) see' id' = lookup_usecase m see' id'.
Proof.
  intros Hne Hf. unfold lookup_usecase. destruct (decide (see' = see)) as [->|].
  - rewrite lookup_alter_eq. destruct (m !! see) as [c|]; [|done]. simpl.
    apply Hf. congruence.
  - by rewrite lookup_alter_ne.
Qed.

(** From [w] to [w'] only the use case [id] of the sensor [see] may have changed, and
    the streams opened in between belong to it. *)
Definition step_ok (see id : Z) (w w' : W) (l : list (PalCall * Z)) : Prop :=
  clients_ok (see_clients w') ∧ proxy_stream w' = proxy_stream w ∧
  log w' = log w ++ l ∧
  keeps_owned (owned (see_clients w)) (owned (see_clients w')) l ∧
  ∀ see' id', (see', id') ≠ (see, id) →
    lookup_usecase (see_clients w') see' id' = lookup_usecase (see_clients w) see' id'.

Lemma step_quiet {A} see id (m : St W A) Q w :
  clients_ok (see_clients w) → quiet m (λ a l, opens_none l ∧ Q a l) w →
  st_wp m (λ a w', ∃ l, step_ok see id w w' l ∧ see_clients w' = see_clients w ∧ Q a l) w.
Proof.
  intros Hw Hm. eapply st_wp_mono; [apply Hm|]. intros a w' (Hs&Hp&l&Hl&Hb&HQ).
  exists l. split; [|done]. unfold step_ok. rewrite Hs.
  repeat (split; [done|]). split; [by apply keeps_owned_refl|done].
Qed.

Lemma step_trans see id w1 w2 w3 l1 l2 :
  step_ok see id w1 w2 l1 → step_ok see id w2 w3 l2 → step_ok see id w1 w3 (l1 ++ l2).
Proof.
  intros (_&Hp1&Hl1&Hb1&Hf1) (Hc&Hp2&Hl2&Hb2&Hf2). split; [done|]. split; [congruence|].
  split; [by rewrite Hl2, Hl1, app_assoc|]. split; [by eapply keeps_owned_trans|].
  intros ???. by rewrite Hf2, Hf1.
Qed.

Lemma step_create see w : clients_ok (see_clients w) →
  st_wp (SEE_Client_CreateIf_And_Get see)
    (λ c w', (∀ id, step_ok see id w w' []) ∧ see_clients w' !! see = Some c ∧
       ∀ id, lookup_usecase (see_clients w') see id = lookup_usecase (see_clients w) see id) w.
Proof.
  intros Hw. unfold SEE_Client_CreateIf_And_Get. apply st_wp_bind, st_wp_gets.
  destruct (see_clients w !! see) as [c|] eqn:Hc.
  - apply st_wp_ret. split; [|done]. intros id. unfold step_ok. rewrite app_nil_r.
    repeat (split; [done|]). split; [by apply keeps_owned_refl|done].
  - apply st_wp_bind, st_wp_modify, st_wp_ret. simpl. rewrite lookup_insert_eq.
    assert (∀ see' id, lookup_usecase (<[see:=mkClient see ∅]> (see_clients w)) see' id =
      lookup_usecase (see_clients w) see' id) as Hlk.
    { intros see' id. unfold lookup_usecase. destruct (decide (see' = see)) as [->|].
      - by rewrite lookup_insert_eq, Hc.
      - by rewrite lookup_insert_ne. }
    split; [|done]. intros id. unfold step_ok. simpl. rewrite app_nil_r.
    split; [apply map_Forall_insert_2; [|done]; split; [done|apply map_Forall_empty]|].
    split; [done|]. split; [done|]. split; [|auto].
    rewrite owned_insert by done. intros P M HM. simpl in *. multiset_solver.
Qed.

(** A quiet run followed by an update of the use case [id]. *)
Lemma step_alter see id f w1 w2 l c :
  clients_ok (see_clients w1) → see_clients w2 = see_clients w1 →
  proxy_stream w2 = proxy_stream w1 → log w2 = log w1 ++ l →
  see_clients w1 !! see = Some c → client_ok see (f c) →
  (∀ c id', id' ≠ id → usecases (f c) !! id' = usecases c !! id') →
  keeps_owned (list_to_set_disj (uc_handles (usecases c)))
    (list_to_set_disj (uc_handles (usecases (f c)))) l →
  step_ok see id w1 (set_clients (alter f see (see_clients w2)) w2) l ∧
  lookup_usecase (alter f see (see_clients w2)) see id = usecases (f c) !! id.
Proof.
  intros Hw Hs Hp Hl Hc Hfc Hf Hb. rewrite Hs. split.
  - split; [by eapply alter_client_ok|]. split; [done|]. split; [done|]. simpl.
    rewrite (owned_alter _ _ _ _ Hc), (owned_delete _ _ _ Hc). split.
    { by apply keeps_owned_frame. }
    intros see' id' Hne.
    by apply lookup_usecase_alter_ne with (id := id).
  - unfold lookup_usecase. by rewrite lookup_alter_eq, Hc.
Qed.

(** What the first half of a request leaves: the registered use case, if any. *)
Definition half_post (see id : Z) (w : W) (p : Z * option Usecase) (w' : W) : Prop :=
  (∃ l, step_ok see id w w' l) ∧
  match p.2 with
  | Some u => made_for id u ∧ (p.1 = 0 → ready u) ∧
      lookup_usecase (see_clients w') see id = Some u
  | None => p.1 ≠ 0
  end.

Lemma half_quiet see id w {A} (m : St W A) rc Q :
  clients_ok (see_clients w) → rc ≠ 0 → quiet m (λ a l, opens_none l ∧ Q a l) w →
  st_wp (st_bind m (λ _, st_ret (rc, None))) (half_post see id w) w.
Proof.
  intros Hw Hrc Hm. apply st_wp_bind. eapply st_wp_mono; [by eapply step_quiet|].
  intros a w' (l&Hl&_). apply st_wp_ret. split; [by exists l|done].
Qed.

Lemma step_refl see id w : clients_ok (see_clients w) → step_ok see id w w [].
Proof.
  intros. split; [done|split; [done|split; [by rewrite app_nil_r|]]].
  split; [by apply keeps_owned_refl|done].
Qed.

Lemma st_wp_quiet_bind {A B} (m : St W A) (k : A → St W B) R Q w :
  quiet m R w →
  (∀ a l w', R a l → see_clients w' = see_clients w → proxy_stream w' = proxy_stream w →
     log w' = log w ++ l → st_wp (k a) Q w') →
  st_wp (st_bind m k) Q w.
Proof.
  intros Hm Hk. apply st_wp_bind. eapply st_wp_mono; [apply Hm|].
  intros a w' (?&?&l&?&?). eauto.
Qed.

Lemma half_fail see id w w' l rc : rc ≠ 0 → clients_ok (see_clients w) →
  see_clients w' = see_clients w → proxy_stream w' = proxy_stream w → log w' = log w ++ l →
  opens_none l → half_post see id w (rc, None) w'.
Proof.
  intros ?? Hs ???. split; [|done]. exists l. unfold step_ok. rewrite Hs.
  repeat (split; [done|]). split; [by apply keeps_owned_refl|done].
Qed.

Lemma half_create see id size payload w c :
  clients_ok (see_clients w) → see_clients w !! see = Some c → usecases c !! id = None →
  payload_ok id size payload →
  st_wp (create_usecase see id size payload) (half_post see id w) w.
Proof.
  intros Hw Hc Hid Hpay. unfold create_usecase, UsecaseCreate.
  destruct (usecase_for id) as [u|] eqn:Hu.
  2: { apply st_wp_bind, st_wp_ret, st_wp_ret.
       apply (half_fail _ _ _ _ []); try done. by rewrite app_nil_r. }
  pose proof (made_for_new id u Hu) as Hmade.
  apply (st_wp_quiet_bind _ _ (λ o l, l = [] ∧ ∀ u', o = Some u' → u' = u)).
  { quiet_step. quiet_step; [|by apply quiet_ret]. quiet_step. apply quiet_ret.
    split; [done|]. by intros u' ?; split_cases. }
  intros o ? w1 [-> Ho] Hs1 Hp1 Hl1. destruct o as [u'|].
  2: { apply st_wp_ret. by apply (half_fail _ _ _ _ []). }
  rewrite (Ho u' eq_refl). clear u' Ho.
  eapply st_wp_quiet_bind; [by eapply quiet_set_data|].
  intros [rc u1] ? w2 (->&Hsame&Hready) Hs2 Hp2 Hl2. cbn beta iota. simpl in Hsame, Hready.
  rewrite !app_nil_r in *.
  case_decide.
  { apply st_wp_ret. apply (half_fail _ _ _ _ []); [done|done|congruence..| |done].
    by rewrite app_nil_r, Hl2. }
  assert (made_for id u1) as Hmade1.
  { destruct Hmade as (u0&?&?&?&?), Hsame as (?&?&?&?). exists u0.
    split; [done|]. split; [congruence|]. split; congruence. }
  eapply st_wp_quiet_bind; [apply quiet_launch, Hready; lia|].
  intros [rc2 u2] l w3 Hrun Hs3 Hp3 Hl3. cbn beta iota. unfold launched in Hrun.
  cbn [fst snd] in Hrun. destruct (decide (rc2 = 0)) as [->|Hrc2].
  2: { rewrite decide_True by done. apply st_wp_ret.
       apply (half_fail _ _ _ _ l); [done|done|congruence..|done]. }
  rewrite decide_False by lia. destruct Hrun as (h&Hu2&Hopen).
  assert (made_for id u2 ∧ ready u2) as [Hmade2 Hready2].
  { assert (ready u1) by (apply Hready; lia). by rewrite Hu2. }
  apply st_wp_bind, st_wp_modify, st_wp_ret.
  assert (usecases (Usecase_Add id u2 c) = <[id := u2]> (usecases c)) as Hadd.
  { unfold Usecase_Add. by rewrite Hid. }
  destruct (Hw see c Hc) as [Hsee Hucs].
  destruct (step_alter see id (Usecase_Add id u2) w w3 l c) as [Hstep Hlk];
    try done; try congruence.
  - split; [by unfold Usecase_Add; rewrite Hid|]. rewrite Hadd. by apply map_Forall_insert_2.
  - intros c' id' Hne. unfold Usecase_Add. destruct (usecases c' !! id); [done|].
    simpl. by rewrite lookup_insert_ne.
  - rewrite Hadd. rewrite (list_to_set_disj_perm _ _ (uc_handles_insert _ _ u2 Hid)).
    apply keeps_owned_open. by rewrite Hu2.
  - split; [by exists l|]. split; [done|]. split; [done|]. simpl.
    rewrite Hlk, Hadd. apply lookup_insert_eq.
Qed.

Lemma half_reconfigure see id size payload w c u :
  clients_ok (see_clients w) → see_clients w !! see = Some c → usecases c !! id = Some u →
  payload_ok id size payload →
  st_wp (reconfigure_usecase see id size payload u)
    (λ p w', half_post see id w (p.1, Some p.2) w') w.
Proof.
  intros Hw Hc Hid Hpay. unfold reconfigure_usecase.
  destruct (Hw see c Hc) as [Hsee Hucs]. pose proof (Hucs id u Hid) as Hmade.
  eapply st_wp_quiet_bind; [by eapply quiet_set_data|].
  intros [rc u1] ? w1 (->&Hsame&Hready) Hs1 Hp1 Hl1. cbn beta iota. simpl in Hsame, Hready.
  assert (made_for id u1) as Hmade1.
  { destruct Hmade as (u0&?&?&?&?), Hsame as (?&?&?&?). exists u0.
    split; [done|]. split; [congruence|]. split; congruence. }
  set (f := λ c, mkClient (see_id c) (<[id := u1]> (usecases c))).
  destruct (step_alter see id f w w1 [] c) as [Hstep Hlk]; try done.
  { split; [done|]. by apply map_Forall_insert_2. }
  { intros c' id' Hne. simpl. by rewrite lookup_insert_ne. }
  { pose proof (uc_handles_update _ _ u u1 Hid ltac:(apply Hsame)) as Hh.
    simpl. rewrite (list_to_set_disj_perm _ _ Hh).
    by apply keeps_owned_refl. }
  simpl in Hlk. rewrite lookup_insert_eq in Hlk.
  apply st_wp_bind, st_wp_modify. fold f.
  set (w2 := set_clients (alter f see (see_clients w1)) w1) in *.
  assert (clients_ok (see_clients w2)) as Hw2 by apply Hstep.
  assert (∀ rc l w3, (rc = 0 → ready u1) → see_clients w3 = see_clients w2 →
    proxy_stream w3 = proxy_stream w2 → log w3 = log w2 ++ l → opens_none l →
    half_post see id w (rc, Some u1) w3) as Hend.
  { intros rc' l w3 Hrd Hs3 Hp3 Hl3 Hb. split.
    - exists ([] ++ l). eapply step_trans; [exact Hstep|]. unfold step_ok. rewrite Hs3.
      repeat (split; [done|]). split; [by apply keeps_owned_refl|done].
    - split; [done|]. split; [done|]. by rewrite Hs3. }
  destruct (decide (rc = 0)) as [->|Hrc].
  2: { rewrite decide_True by done. apply st_wp_ret. apply (Hend rc []); try done.
       by rewrite app_nil_r. }
  rewrite decide_False by lia.
  eapply st_wp_quiet_bind; [by apply quiet_configure, Hready|].
  intros rc2 l2 w3 Hl2 Hs3 Hp3 Hl3. unfold neutral in Hl2. case_decide.
  - eapply st_wp_quiet_bind; [apply quiet_stop_close|].
    intros ? l3 w4 (_&r1&r2&->) Hs4 Hp4 Hl4. apply st_wp_ret.
    eapply (Hend rc2 (l2 ++ _)); [done|congruence|congruence|by rewrite Hl4, Hl3, app_assoc|].
    apply opens_none_app; [by apply idle_opens_none|apply opens_none_close].
  - apply st_wp_ret. apply (Hend 0 l2); [auto|done|done|done|by apply idle_opens_none].
Qed.

Definition answered (see id rc : Z) (l : list (PalCall * Z)) : Prop :=
  (∀ s, (alloc s).1 = true) →
  if decide (rc = 0) then ends_with (is_ack see id) 0 l
  else ∃ r, ends_with (is_nack EVENT_ID_ASPS_SENSOR_REGISTER_REQUEST rc see) r l.

Lemma ends_with_app P rc l l' : ends_with P rc l' → ends_with P rc (l ++ l').
Proof. intros (l0&h&msg&sz&->&?). exists (l ++ l0), h, msg, sz. by rewrite app_assoc. Qed.

Lemma register_spec see id size payload w :
  cm_ok w → payload_ok id size payload →
  st_wp (process_register_request see id size payload)
    (λ rc w', ∃ l, step_ok see id w w' l ∧ answered see id rc l ∧
       (rc = 0 → is_Some (lookup_usecase (see_clients w') see id))) w.
Proof.
  intros (Hw&Hp&_) Hpay. unfold process_register_request.
  apply st_wp_bind. eapply st_wp_mono; [by apply step_create|].
  intros c w1 (Hst1&Hc1&_). specialize (Hst1 id). pose proof (proj1 Hst1) as Hw1.
  apply st_wp_bind. apply (st_wp_mono _ (half_post see id w1)).
  { unfold Usecase_Get. destruct (usecases c !! id) as [u|] eqn:Hu; [|by eapply half_create].
    apply st_wp_bind. eapply st_wp_mono; [by eapply half_reconfigure|].
    intros p w2 Hp2. by apply st_wp_ret. }
  intros [rc o] w2 [[l2 Hst2] Ho]. cbn beta iota. cbn [fst snd] in Ho.
  pose proof (step_trans _ _ _ _ _ _ _ Hst1 Hst2) as Hst. simpl in Hst.
  assert (is_Some (proxy_stream w2)) as Hp2.
  { destruct Hst as (_&->&_). done. }
  apply st_wp_bind. apply (st_wp_mono _ (λ rc' w3, ∃ l3, step_ok see id w w3 l3 ∧
    (rc' = 0 → ends_with (is_ack see id) 0 l3 ∧
               is_Some (lookup_usecase (see_clients w3) see id)))).
  { pose proof (proj1 Hst) as Hw2. destruct o as [u|]; [|by apply st_wp_ret; exists l2].
    destruct Ho as (Hmade&Hready&Hlk). case_decide.
    - apply st_wp_ret. exists l2. split; [done|]. done.
    - eapply st_wp_mono; [eapply step_quiet; [done|]|].
      { eapply quiet_mono; [eapply quiet_build_ack; [done|apply Hready; lia|done]|].
        intros a l [Hb HQ]. split; [by apply idle_opens_none|exact HQ]. }
      intros a w3 (l3&Hst3&Hs3&HQ). exists (l2 ++ l3).
      split; [by eapply step_trans|]. intros Hz. rewrite Hs3, Hlk.
      split; [by apply ends_with_app, HQ|done]. }
  intros rc3 w3 (l3&Hst3&Hack).
  assert (is_Some (proxy_stream w3)) as Hp3.
  { destruct Hst3 as (_&->&_). done. }
  case_decide as Hrc3.
  - apply st_wp_bind. eapply st_wp_mono; [eapply step_quiet; [apply Hst3|]|].
    { eapply quiet_mono; [by apply (quiet_nack rc3)|]. intros ? l [Hb HQ].
      split; [by apply idle_opens_none|exact HQ]. }
    intros r w4 (l4&Hst4&_&HQ). apply st_wp_ret. exists (l3 ++ l4).
    split; [by eapply step_trans|]. split; [|done]. intros Hall.
    rewrite decide_False by done. destruct (HQ Hall) as [r' ?]. exists r'.
    by apply ends_with_app.
  - apply st_wp_ret. exists l3. split; [done|]. destruct Hack as [? ?]; [lia|].
    split; [|done]. intros _. rewrite decide_True by lia. done.
Qed.

(** ** Closing *)

Lemma map_keys_elem {A} (m : gmap Z A) k : k ∈ map_keys m ↔ is_Some (m !! k).
Proof.
  unfold map_keys. rewrite merge_sort_Permutation, elem_of_elements. apply elem_of_dom.
Qed.
Lemma map_keys_NoDup {A} (m : gmap Z A) : NoDup (map_keys m).
Proof. unfold map_keys. rewrite merge_sort_Permutation. apply NoDup_elements. Qed.
(** The handles of some use cases of a map, in the order of the identifiers. *)
Definition handles_at (m : gmap Z Usecase) (ids : list Z) : list (option Z) :=
  pal_stream <$> omap (m !!.) ids.

Lemma map_keys_perm {A} (m : gmap Z A) : map_keys m ≡ₚ (map_to_list m).*1.
Proof.
  apply NoDup_Permutation; [apply map_keys_NoDup|apply NoDup_fst_map_to_list|].
  intros k. rewrite map_keys_elem, list_elem_of_fmap. split.
  - intros [x Hx]. exists (k, x). by rewrite elem_of_map_to_list.
  - intros ([k' x]&->&Hx%elem_of_map_to_list). by exists x.
Qed.

Lemma handles_at_keys m : handles_at m (map_keys m) ≡ₚ uc_handles m.
Proof.
  unfold handles_at, uc_handles. apply fmap_Permutation. rewrite map_keys_perm.
  assert (∀ p, p ∈ map_to_list m → m !! p.1 = Some p.2) as Hin.
  { intros [k x]. by rewrite elem_of_map_to_list. }
  revert Hin. generalize (map_to_list m). clear. induction l as [|p l IH]; intros Hin; [done|].
  simpl. rewrite (Hin p) by set_solver. constructor. apply IH. set_solver.
Qed.

Lemma quiet_close_usecases m ids w :
  quiet (close_usecases m ids)
    (λ _ l, keeps_owned (list_to_set_disj (handles_at m ids)) ∅ l) w.
Proof.
  revert w. induction ids as [|id ids IH]; intros w; simpl.
  { apply quiet_ret. by apply keeps_owned_refl. }
  unfold handles_at. simpl. destruct (m !! id) as [u|]; [|apply IH].
  eapply quiet_bind; [apply quiet_stop_close|]. intros ? l w' (_&r1&r2&->) _ _.
  eapply quiet_mono; [apply IH|]. intros ? l Hl.
  eapply keeps_owned_trans; [|exact Hl]. apply keeps_owned_close.
Qed.

Definition closing_post (w w' : W) (l : list (PalCall * Z)) : Prop :=
  proxy_stream w' = proxy_stream w ∧ log w' = log w ++ l ∧
  keeps_owned (owned (see_clients w)) (owned (see_clients w')) l.

Lemma close_clients_spec m sees : NoDup sees → ∀ w,
  (∀ see, see ∈ sees → see_clients w !! see = m !! see) →
  st_wp (close_clients m sees) (λ _ w', (∃ l, closing_post w w' l) ∧
    ∀ k, see_clients w' !! k = if decide (k ∈ sees) then None else see_clients w !! k) w.
Proof.
  induction 1 as [|see sees Hni _ IH]; intros w Hm; cbn [close_clients].
  { apply st_wp_ret. split; [|intros k; by rewrite decide_False by set_solver].
    exists []. unfold closing_post. rewrite app_nil_r. split; [done|split; [done|]].
    by apply keeps_owned_refl. }
  pose proof (Hm see ltac:(set_solver)) as Hsee. destruct (m !! see) as [c|] eqn:Hc.
  - eapply st_wp_quiet_bind.
    { apply quiet_close_usecases. }
    intros [] l w1 Hl Hs1 Hp1 Hl1. rewrite (list_to_set_disj_perm _ _ (handles_at_keys _)) in Hl.
    apply st_wp_bind, st_wp_modify.
    eapply st_wp_mono; [apply IH|].
    { intros k Hk. simpl. rewrite lookup_delete_ne by congruence.
      rewrite Hs1. apply Hm. set_solver. }
    intros [] w2 [[l2 (Hp2&Hl2&Hb2)] Hlk2]. simpl in Hp2, Hl2, Hb2, Hlk2. split.
    + exists (l ++ l2). split; [congruence|]. split; [by rewrite Hl2, Hl1, app_assoc|].
      eapply keeps_owned_trans; [|exact Hb2]. rewrite Hs1, (owned_delete _ _ _ Hsee).
      rewrite <- (left_id_L ∅ (⊎) (owned (delete see (see_clients w)))) at 2.
      by apply keeps_owned_frame.
    + intros k. rewrite Hlk2, Hs1. destruct (decide (k = see)) as [->|].
      * rewrite lookup_delete_eq. by repeat case_decide; try set_solver.
      * rewrite lookup_delete_ne by done. repeat case_decide; set_solver.
  - eapply st_wp_mono; [apply IH; intros; apply Hm; set_solver|].
    intros [] w2 [Hp Hlk]. split; [done|]. intros k. rewrite Hlk.
    destruct (decide (k = see)) as [->|]; repeat case_decide; set_solver.
Qed.

Lemma close_all_spec w :
  st_wp CloseAll (λ _ w', see_clients w' = ∅ ∧ ∃ l, closing_post w w' l) w.
Proof.
  unfold CloseAll. apply st_wp_bind, st_wp_gets.
  eapply st_wp_mono; [apply close_clients_spec; [apply map_keys_NoDup|done]|].
  intros [] w' [Hl Hlk]. split; [|done]. apply map_eq. intros k.
  rewrite Hlk, lookup_empty. case_decide as Hk; [done|].
  rewrite map_keys_elem in Hk. by apply eq_None_not_Some.
Qed.

Lemma deregister_spec see id w : cm_ok w →
  st_wp (process_deregister_request see id)
    (λ rc w', ∃ l, step_ok see id w w' l ∧
       lookup_usecase (see_clients w') see id = None ∧
       match lookup_usecase (see_clients w) see id with
       | Some u => rc = 0 ∧ ∃ r1 r2, l = [(StreamStop (pal_stream u), r1);
                                          (StreamClose (pal_stream u), r2)]
       | None => rc ≠ 0 ∧ l = []
       end) w.
Proof.
  intros (Hw&Hp&_). unfold process_deregister_request.
  apply st_wp_bind. unfold SEE_Client_Get_Existing. apply st_wp_bind, st_wp_gets, st_wp_ret.
  unfold lookup_usecase at 2. destruct (see_clients w !! see) as [c|] eqn:Hc; simpl.
  2: { apply st_wp_ret. exists []. split; [by apply step_refl|].
       unfold lookup_usecase. by rewrite Hc. }
  unfold Usecase_Get. destruct (usecases c !! id) as [u|] eqn:Hu.
  2: { apply st_wp_ret. exists []. split; [by apply step_refl|].
       unfold lookup_usecase. rewrite Hc. simpl. by rewrite Hu. }
  eapply st_wp_quiet_bind; [apply quiet_stop_close|].
  intros ? l w1 (_&r1&r2&->) Hs1 Hp1 Hl1. apply st_wp_bind, st_wp_modify, st_wp_ret.
  set (f := λ c, (Usecase_Remove id c).2). destruct (Hw see c Hc) as [Hsee Hucs].
  assert (usecases (f c) = delete id (usecases c)) as Hf.
  { unfold f, Usecase_Remove. by rewrite Hu. }
  destruct (step_alter see id f w w1 _ c Hw Hs1 Hp1 Hl1 Hc) as [Hstep Hlk].
  - split; [by unfold f, Usecase_Remove; rewrite Hu|]. rewrite Hf. by apply map_Forall_delete.
  - intros c' id' Hne. unfold f, Usecase_Remove. destruct (usecases c' !! id); [|done].
    simpl. by rewrite lookup_delete_ne.
  - rewrite Hf, (list_to_set_disj_perm _ _ (uc_handles_delete _ _ u Hu)).
    apply keeps_owned_close.
  - eexists. split; [exact Hstep|]. split; [|by eauto]. simpl. rewrite Hlk, Hf.
    apply lookup_delete_eq.
Qed.

(** ** Commands *)

Definition command_ok (c : RequestCommand) : Prop :=
  match c with CommandRegister _ uc size p => payload_ok uc size p | _ => True end.

Lemma step_cm_ok see id w w' l : cm_ok w → step_ok see id w w' l → cm_ok w'.
Proof.
  intros (_&Hp&Hb) (Hw&Hp'&Hl&Hb'&_). split; [done|]. split; [by rewrite Hp'|].
  rewrite Hl, Hp', open_after_app. by apply Hb'.
Qed.

Lemma closing_cm_ok w w' l : cm_ok w → see_clients w' = ∅ → closing_post w w' l → cm_ok w'.
Proof.
  intros (_&Hp&Hb) Hs (Hp'&Hl&Hb'). split; [rewrite Hs; apply map_Forall_empty|].
  split; [by rewrite Hp'|]. rewrite Hl, Hp', open_after_app. by apply Hb'.
Qed.

Lemma process_spec c w : cm_ok w → command_ok c → st_wp (Process c) (λ _ w', cm_ok w') w.
Proof.
  intros Hw Hc. destruct c as [see uc size p|see uc|see|]; simpl.
  - eapply st_wp_mono; [by apply register_spec|].
    intros rc w' (l&?&_). by eapply step_cm_ok.
  - apply st_wp_bind. eapply st_wp_mono; [by apply deregister_spec|].
    intros rc w1 (l&Hst&_). apply st_wp_bind. pose proof (step_cm_ok _ _ _ _ _ Hw Hst) as Hw1.
    eapply st_wp_mono; [eapply (step_quiet see uc); [apply Hw1|]|].
    { eapply quiet_mono; [apply (quiet_nack rc); apply Hw1|]. intros ? l' [Hb HQ].
      split; [by apply idle_opens_none|exact HQ]. }
    intros r w2 (l2&Hst2&_). apply st_wp_ret. by eapply step_cm_ok.
  - eapply st_wp_mono; [eapply (step_quiet see 0 _ (λ _ _, True)); [apply Hw|]|].
    { unfold get_context_ids. quiet_step. quiet_step; [|by apply quiet_ret].
      apply quiet_send; [|]. { destruct Hw as (_&?&_). congruence. }
      intros h rc. done. }
    intros r w2 (l2&Hst2&_). by eapply step_cm_ok.
  - unfold process_close_all. apply st_wp_bind. eapply st_wp_mono; [apply close_all_spec|].
    intros [] w' (Hs&l&Hl). apply st_wp_ret. by eapply closing_cm_ok.
Qed.

Lemma process_all_spec l w :
  cm_ok w → Forall command_ok l → st_wp (process_all l) (λ _ w', cm_ok w') w.
Proof.
  intros Hw Hl. revert w Hw. induction Hl as [|c l Hc _ IH]; intros w Hw; simpl.
  { by apply st_wp_ret. }
  apply st_wp_bind. eapply st_wp_mono; [by apply process_spec|]. intros ? w' Hw'. by apply IH.
Qed.

(** ** The entries of the module map *)

(** How a response lists tags: each tag with its modules behind it. *)
Definition encode_tag (p : Z * list Z) : list (Z * Z) :=
  (p.1, zlen p.2) :: ((λ miid, (0, miid)) <$> p.2).

Definition miids_of (t : Z) (l : list (Z * list Z)) : list Z :=
  l ≫= λ p, if decide (p.1 = t) then p.2 else [].

Lemma encode_length p : length (encode_tag p) = S (length p.2).
Proof using. unfold encode_tag. simpl. by rewrite length_fmap. Qed.

Lemma tag_walk_encode ts tail l : ∀ pre acc,
  Forall (λ p, zlen p.2 < 2 ^ 28) l →
  ∃ m, tag_walk ts (pre ++ (l ≫= encode_tag) ++ tail) (length l) (zlen pre) acc = Some m ∧
    ∀ t, default [] (m !! t) =
         default [] (acc !! t) ++ if decide (t ∈ ts) then miids_of t l else [].
Proof using.
  induction l as [|[tag ms] l IH]; intros pre acc Hl.
  { exists acc. split; [done|]. intros t. by case_decide; rewrite app_nil_r. }
  apply Forall_cons in Hl as [Hms Hl]. cbn [fst snd] in Hms. cbn [length tag_walk].
  set (block := pre ++ (((tag, ms) :: l) ≫= encode_tag) ++ tail).
  assert (block = (pre ++ encode_tag (tag, ms)) ++ (l ≫= encode_tag) ++ tail) as Hblock.
  { unfold block. simpl. by rewrite <- !app_assoc. }
  assert (slice (zlen pre) 1 block = Some [(tag, zlen ms)]) as ->.
  { unfold slice, block. pose proof (zlen_nonneg pre). rewrite zlen_app.
    rewrite decide_True by (unfold zlen; simpl; lia).
    unfold zlen. rewrite Nat2Z.id, drop_app_length. done. }
  simpl.
  assert (slice (zlen pre + 1) (zlen ms) block = Some ((λ miid, (0, miid)) <$> ms)) as Hsl.
  { unfold slice. pose proof (zlen_nonneg pre). pose proof (zlen_nonneg ms).
    rewrite Hblock, !zlen_app. rewrite decide_True.
    2: { unfold zlen in *. rewrite encode_length. simpl. lia. }
    unfold encode_tag. cbn [fst snd].
    replace (Z.to_nat (zlen pre + 1)) with (length (pre ++ [(tag, zlen ms)]))
      by (rewrite length_app; unfold zlen; simpl; lia).
    replace ((pre ++ (tag, zlen ms) :: ((λ miid, (0, miid)) <$> ms)) ++ (l ≫= encode_tag) ++ tail)
      with ((pre ++ [(tag, zlen ms)]) ++ ((λ miid, (0, miid)) <$> ms) ++ (l ≫= encode_tag) ++ tail)
      by (by rewrite <- !app_assoc).
    rewrite drop_app_length. unfold zlen. rewrite Nat2Z.id.
    by rewrite take_app_length' by (by rewrite length_fmap). }
  assert (zlen pre + u32 (8 + 8 * zlen ms) `div` 8 = zlen (pre ++ encode_tag (tag, ms))) as Hpos.
  { pose proof (zlen_nonneg ms). rewrite zlen_app, u32_small by lia.
    replace (8 + 8 * zlen ms) with ((1 + zlen ms) * 8) by lia. rewrite Z.div_mul by lia.
    unfold zlen. rewrite encode_length. simpl. lia. }
  rewrite Hpos.
  set (acc' := if decide (tag ∈ ts) then add_miids tag ms acc else acc).
  assert ((if decide (tag ∈ ts)
           then mods ← slice (zlen pre + 1) (zlen ms) block; Some (add_miids tag mods.*2 acc)
           else Some acc) = Some acc') as ->.
  { unfold acc'. case_decide; [|done]. rewrite Hsl. simpl.
    rewrite <- list_fmap_compose. by rewrite list_fmap_id. }
  simpl. rewrite Hblock. destruct (IH (pre ++ encode_tag (tag, ms)) acc' Hl) as (m&->&Hm).
  exists m. split; [done|]. intros t. rewrite Hm. unfold acc', miids_of. simpl.
  destruct (decide (t ∈ ts)) as [Ht|Ht].
  - destruct (decide (tag ∈ ts)) as [Htag|Htag].
    + by rewrite add_miids_lookup, <- app_assoc.
    + rewrite decide_False by congruence. done.
  - destruct (decide (tag ∈ ts)) as [Htag|Htag]; [|done].
    rewrite add_miids_lookup, decide_False by congruence. by rewrite !app_nil_r.
Qed.

(** ** Exact answers *)

(** Allocations succeed. *)
Definition memory_ok : Prop := ∀ s, (alloc s).1 = true.

Lemma quiet_bind_calloc {B} (k : bool → St W B) Q w :
  memory_ok → (∀ w', see_clients w' = see_clients w → proxy_stream w' = proxy_stream w →
    quiet (k true) Q w') → quiet (st_bind calloc k) Q w.
Proof using.
  intros Hmem Hk. apply (quiet_bind _ _ (λ ok l, ok = true ∧ l = [])).
  - unfold quiet, st_wp, calloc. pose proof (Hmem (env w)) as Ht.
    destruct (alloc (env w)) as [ok s]. simpl in Ht. exists ok. eexists. split; [done|].
    simpl. split; [done|split; [done|]]. exists []. by rewrite app_nil_r.
  - intros ?? w' [-> ->] ??. by apply Hk.
Qed.

(** A call whose status is known. *)
Lemma quiet_pal_status c rc (Q : _ → _ → Prop) w :
  not_open c → (∀ s, (pal_api c s).1 = rc) → Q rc [(c, rc)] → quiet (pal c) Q w.
Proof.
  intros Hno Hc HQ. unfold quiet, st_wp, pal. pose proof (Hc (env w)) as Hrc.
  destruct (pal_api c (env w)) as [rc' s]. simpl in Hrc. subst rc'.
  exists rc. eexists. split; [done|]. rewrite completed_other by done. simpl. eauto 6.
Qed.

Definition refuses_params (e : Z) : Prop :=
  ∀ h id n p s, (pal_api (SetParam h id n p) s).1 = e.

Lemma quiet_sdz_refused e u w : memory_ok → refuses_params e → kind u = UC_SDZ →
  quiet (Configure u) (λ rc l, rc = e ∧ ∃ c, l = [(c, e)]) w.
Proof.
  intros Hmem He' Hk. unfold Configure. rewrite Hk. unfold configure_sdz.
  apply quiet_bind_calloc; [done|]. intros w1 _ _. cbn [negb].
  apply quiet_bind_calloc; [done|]. intros w2 _ _. cbn [negb].
  apply (quiet_pal_status _ e); [done|done|]. eauto.
Qed.

Lemma stale_reconfigure see id size payload e c u w :
  memory_ok → refuses_params e → e ≠ 0 →
  see_clients w !! see = Some c → usecases c !! id = Some u → kind u = UC_SDZ →
  st_wp (reconfigure_usecase see id size payload u)
    (λ p w', p = (e, u) ∧ lookup_usecase (see_clients w') see id = Some u ∧
       proxy_stream w' = proxy_stream w ∧
       ∃ l r, log w' = log w ++ l ∧ (StreamClose (pal_stream u), r) ∈ l) w.
Proof.
  intros Hmem He' Hne Hc Hu Hk. unfold reconfigure_usecase, SetUseCaseData. rewrite Hk.
  apply st_wp_bind, st_wp_ret. apply st_wp_bind, st_wp_modify. rewrite decide_False by lia.
  set (w1 := set_clients _ w).
  assert (lookup_usecase (see_clients w1) see id = Some u) as Hlk.
  { unfold w1, lookup_usecase. simpl. rewrite lookup_alter_eq, Hc. simpl.
    apply lookup_insert_eq. }
  eapply st_wp_quiet_bind; [by apply (quiet_sdz_refused e)|].
  intros rc l w2 [-> [cl ->]] Hs2 Hp2 Hl2. rewrite decide_True by done.
  eapply st_wp_quiet_bind; [apply quiet_stop_close|].
  intros ? l3 w3 (_&r1&r2&->) Hs3 Hp3 Hl3. apply st_wp_ret.
  split; [done|]. split; [by rewrite Hs3, Hs2|]. split; [by rewrite Hp3, Hp2|].
  eexists _, r2. split; [by rewrite Hl3, Hl2, <- app_assoc|]. set_solver.
Qed.

Lemma stale_request see id size e payload u w :
  is_Some (proxy_stream w) → memory_ok → refuses_params e → e ≠ 0 →
  lookup_usecase (see_clients w) see id = Some u → kind u = UC_SDZ →
  st_wp (process_register_request see id size payload)
    (λ rc w', rc = e ∧ lookup_usecase (see_clients w') see id = Some u ∧
       ∃ l r, log w' = log w ++ l ∧ (StreamClose (pal_stream u), r) ∈ l) w.
Proof.
  intros Hp Hmem He' Hne Hu Hk.
  destruct (see_clients w !! see) as [c|] eqn:Hc;
    [|by unfold lookup_usecase in Hu; rewrite Hc in Hu].
  assert (usecases c !! id = Some u) as Huc by (unfold lookup_usecase in Hu; by rewrite Hc in Hu).
  unfold process_register_request, SEE_Client_CreateIf_And_Get, Usecase_Get.
  apply st_wp_bind, st_wp_bind, st_wp_gets. rewrite Hc. apply st_wp_ret. rewrite Huc.
  apply st_wp_bind, st_wp_bind. eapply st_wp_mono; [by eapply (stale_reconfigure see id)|].
  intros p w1 (->&Hlk&Hp1&l&r&Hl&Hin). apply st_wp_ret. cbn [fst snd].
  apply st_wp_bind. rewrite decide_True by done. apply st_wp_ret. rewrite decide_True by done.
  eapply st_wp_quiet_bind; [by apply (quiet_nack e); rewrite Hp1|].
  intros rc2 l2 w2 _ Hs2 _ Hl2. apply st_wp_ret. split; [done|]. split; [by rewrite Hs2|].
  exists (l ++ l2), r. split; [by rewrite Hl2, Hl, app_assoc|]. set_solver.
Qed.

(** The tags of a use case are found. *)
Definition tags_found (u : Usecase) : Prop :=
  (∀ s size, (pal_api (GetTagInfo (pal_stream u) size) s).1 = 0) ∧
  ∀ s, let '(num, entries, _) := tag_info s in
    tag_walk (tags u) (tag_block TAG_MODULE_DEFAULT_SIZE entries) (Z.to_nat num) 0 ∅ ≠ Some ∅.

Lemma quiet_iids_found id u w : made_for id u → tags_found u →
  quiet (GetModuleIIDs u) (λ p _, p.1 = 0 ∧ p.2 ≠ ∅ ∧ miids_ok (tags u) p.2) w.
Proof.
  intros (u0&Hu&_&_&Ht) [Hrc Hne]. unfold GetModuleIIDs.
  apply quiet_bind_pal. intros rc s Hs.
  assert (rc = 0) as -> by (by rewrite <- (Hrc (env w) TAG_MODULE_DEFAULT_SIZE), Hs).
  pose proof (tag_reply Hok _ _ _ _ _ ltac:(done) Hs) as Hfit. rewrite decide_False by done.
  apply quiet_bind_ret. rewrite decide_False by lia. apply quiet_bind_gets.
  cbn [env answered_by]. specialize (Hne s). destruct (tag_info s) as [[num entries] sz].
  destruct Hfit as [_ Hfit]. destruct (Hfit eq_refl id u0 Hu) as [m Hm].
  rewrite <- Ht in Hm. eapply quiet_bind_lift; [done|].
  destruct (tag_walk_fits (tags u) entries (Z.to_nat num) m) as [? _]; [|done|].
  { rewrite Ht. by eapply tags_distinct. }
  rewrite decide_False by congruence. apply quiet_ret. split; [done|]. simpl.
  split; [congruence|done].
Qed.

(** A query of tags that is answered with [ENODATA] and a larger size is lost: the
    block moves, and the second query is given the old one. *)
Lemma larger_block_is_lost u s num entries sz (w : W) :
  pal_api (GetTagInfo (pal_stream u) TAG_MODULE_DEFAULT_SIZE) (env w) = (ENODATA, s) →
  tag_info s = (num, entries, sz) → TAG_MODULE_DEFAULT_SIZE < sz →
  GetModuleIIDs u w = None.
Proof using.
  intros Hs Hi Hsz. unfold GetModuleIIDs, st_bind, pal. rewrite Hs. simpl.
  rewrite Hi. rewrite decide_True by done. done.
Qed.

Lemma quiet_acd_ack id u n l size w :
  made_for id u → kind u = UC_ACD → requested_context_list u = Some l → bytes l →
  word_at 0 l = Some n → 0 ≤ n → 4 + 4 * n ≤ zlen l → tags_found u →
  quiet (GetAckDataOnSuccessfullStart u size)
    (λ p _, p.1.1 = if decide (sizeof_acd_ack + 4 * n ≤ size) then 0 else - ENODATA) w.
Proof.
  intros Hmade Hk Hl Hb Hn H0 Hlen Htags. unfold GetAckDataOnSuccessfullStart. rewrite Hk.
  unfold ack_acd. eapply quiet_bind; [by eapply quiet_iids_found|].
  intros [rc m] ? w1 (Hrc&Hne&Hmi) _ _. cbn [fst snd] in Hrc, Hne, Hmi. subst rc.
  cbn beta iota. rewrite decide_False by lia.
  do 2 (eapply quiet_bind_lift; [done|]). case_decide as Hsz; [|by apply quiet_ret].
  rewrite (acd_tags id u Hmade Hk) in Hmi |- *.
  destruct (m !! CONTEXT_DETECTION_ENGINE) as [[|x ms]|] eqn:Hlk.
  - by destruct (Hmi _ _ Hlk).
  - destruct (words_at_ok (Z.to_nat n) 4 l) as (ctx&Hctx&_); [done|lia..|].
    eapply quiet_bind_lift; [by simpl; rewrite Hlk|].
    eapply quiet_bind_lift; [done|]. by apply quiet_ret.
  - destruct Hne. apply map_eq. intros t. rewrite lookup_empty.
    destruct (m !! t) as [l'|] eqn:Ht; [|done].
    destruct (Hmi _ _ Ht) as [->%list_elem_of_singleton _]. congruence.
Qed.

(** *** The properties *)

(** C26: The manager never leaks a stream.  From a well-formed state, any sequence of
    commands is processed to its end (no null pointer, no access outside a block) and
    leaves every open stream owned: each handle PAL has open for the manager is, with
    its multiplicity, that of the proxy stream or of a registered use case.  When the
    sound card then fails, [ssrDownHandler] forgets all sensors and at most the proxy
    stream is left open.  Calls and allocations may fail at any point.  The payloads
    are blocks of the announced size that hold the structure the use case reads
    ([payload_ok]); PAL's answer about tags fits the 1024 bytes of the first query
    ([env_ok]): asked for more, the code writes to a freed block
    ([larger_block_is_lost]).  Commands run one at a time. *)
Theorem commands_keep_streams_owned (l : list RequestCommand) (w : W)
    (Hw : cm_ok w) (Hl : Forall command_ok l) :
  ∃ w' w2, process_all l w = Some (tt, w') ∧ cm_ok w' ∧
    ssrDownHandler w' = Some (0, w2) ∧ see_clients w2 = ∅ ∧ cm_ok w2 ∧
    open_after (log w2) ∅ ⊆ {[+ proxy_stream w2 +]}.
Proof.
  destruct (process_all_spec l w Hw Hl) as ([]&w'&Hrun&Hw').
  destruct (close_all_spec w') as ([]&w2&Hclose&Hs&l2&Hl2).
  exists w', w2. pose proof (closing_cm_ok _ _ _ Hw' Hs Hl2) as Hw2.
  unfold ssrDownHandler, st_bind. rewrite Hclose. repeat (split; [done|]).
  destruct Hw2 as (_&_&Hb). rewrite Hs, owned_empty in Hb. multiset_solver.
Qed.

(** C27: A register request is answered and has no other effect.  When allocations
    succeed, the payload is the block it says and PAL's answer about tags fits the
    1024 bytes of the first query, it returns 0 exactly with a registered use case and
    a register acknowledgement as its last message; otherwise the last message is the
    negative basic acknowledgement with the returned status.  No other use case of any
    sensor changes.  A deregister after success closes the stream of the use case and
    restores the registrations. *)
Theorem register_answered (see id size : Z) (payload : option (list Z)) (w : W)
    (Hw : cm_ok w) (Hpay : payload_ok id size payload) (Hmem : memory_ok) :
  ∃ rc w' l, process_register_request see id size payload w = Some (rc, w') ∧
    log w' = log w ++ l ∧
    (if decide (rc = 0) then ends_with (is_ack see id) 0 l
     else ∃ r, ends_with (is_nack EVENT_ID_ASPS_SENSOR_REGISTER_REQUEST rc see) r l) ∧
    (∀ see' id', (see', id') ≠ (see, id) →
       lookup_usecase (see_clients w') see' id' = lookup_usecase (see_clients w) see' id') ∧
    (rc = 0 → ∃ u w2 r1 r2, lookup_usecase (see_clients w') see id = Some u ∧
       process_deregister_request see id w' = Some (0, w2) ∧
       log w2 = log w' ++ [(StreamStop (pal_stream u), r1); (StreamClose (pal_stream u), r2)] ∧
       ∀ see' id', lookup_usecase (see_clients w2) see' id' =
         if decide ((see', id') = (see, id)) then None
         else lookup_usecase (see_clients w) see' id').
Proof.
  destruct (register_spec see id size payload w Hw Hpay) as (rc&w'&Hrun&l&Hst&Hans&Hreg).
  exists rc, w', l. split; [done|]. split; [apply Hst|]. split; [by apply Hans|].
  split; [apply Hst|]. intros Hrc. destruct (Hreg Hrc) as [u Hu].
  destruct (deregister_spec see id w') as (rc2&w2&Hrun2&l2&Hst2&Hnone&Hd).
  { by eapply step_cm_ok. }
  rewrite Hu in Hd. destruct Hd as (->&r1&r2&->). exists u, w2, r1, r2.
  split; [done|]. split; [done|]. split; [apply Hst2|]. intros see' id'.
  case_decide as Heq; [by injection Heq as -> ->|].
  destruct Hst as (_&_&_&_&Hf), Hst2 as (_&_&_&_&Hf2). by rewrite Hf2, Hf.
Qed.

(** A failed update leaves a closed use case registered.  When the new data of a
    registered use case are refused by its stream, the request fails and the stream
    is stopped and closed, but the use case stays registered with it; the deregister
    request that follows closes the same handle a second time and reports success. *)
Theorem failed_update_stays_registered (see id size e : Z) (payload : option (list Z))
    (u : Usecase) (w : W) (Hw : cm_ok w) (Hpay : payload_ok id size payload)
    (Hmem : memory_ok) (He' : refuses_params e)
    (Hne : e ≠ 0) (Hu : lookup_usecase (see_clients w) see id = Some u)
    (Hk : kind u = UC_SDZ) :
  ∃ w' w2 l l2 r r2, process_register_request see id size payload w = Some (e, w') ∧
    log w' = log w ++ l ∧ (StreamClose (pal_stream u), r) ∈ l ∧
    lookup_usecase (see_clients w') see id = Some u ∧
    process_deregister_request see id w' = Some (0, w2) ∧
    log w2 = log w' ++ l2 ∧ (StreamClose (pal_stream u), r2) ∈ l2.
Proof.
  destruct (stale_request see id size e payload u w (proj1 (proj2 Hw)) Hmem He' Hne Hu Hk)
    as (rc&w'&Hrun&->&Hlk&l&r&Hl&Hin).
  destruct (register_spec see id size payload w Hw Hpay) as (rc'&w''&Hrun'&l'&Hst&_).
  rewrite Hrun in Hrun'. injection Hrun' as <- <-.
  destruct (deregister_spec see id w') as (rc2&w2&Hrun2&l2&Hst2&_&Hd).
  { by eapply step_cm_ok. }
  rewrite Hlk in Hd. destruct Hd as (->&r1&r2&Heq). exists w', w2, l, l2, r, r2.
  repeat (split; [done|]). split; [apply Hst2|]. subst l2. set_solver.
Qed.

(** A context list too long for the first acknowledgement block (1024 bytes)
    is never acknowledged: the data query returns -ENODATA, the retry tests for
    +ENODATA, and the request fails although the use case runs; a block of the
    reported size would do. *)
Theorem long_context_list_not_acknowledged (see id n : Z) (u : Usecase) (l : list Z) (w : W)
    (Hmem : memory_ok) (Hmade : made_for id u) (Hk : kind u = UC_ACD)
    (Hl : requested_context_list u = Some l) (Hb : bytes l) (Hn : word_at 0 l = Some n)
    (H0 : 0 ≤ n) (Hlen : 4 + 4 * n ≤ zlen l) (Htags : tags_found u)
    (Hbig : ACKDATA_DEFAULT_SIZE < sizeof_acd_ack + 4 * n) :
  quiet (build_and_send_register_ack u see id) (λ rc _, rc = - ENODATA) w ∧
  quiet (GetAckDataOnSuccessfullStart u (sizeof_acd_ack + 4 * n)) (λ p _, p.1.1 = 0) w.
Proof.
  split.
  - unfold build_and_send_register_ack. apply quiet_bind_calloc; [done|].
    intros w1 _ _. cbn [negb]. eapply quiet_bind; [by eapply quiet_acd_ack|].
    intros [[rc size] d] l1 w2 Hrc _ _. cbn [fst] in Hrc.
    rewrite decide_False in Hrc by lia. subst rc. cbn beta iota.
    rewrite decide_False by done.
    eapply quiet_bind; [by apply (quiet_ret _ (λ p _, p.1.1 = - ENODATA))|].
    intros [[rc size'] d'] l2 w3 Hrc _ _. cbn [fst] in Hrc. subst rc. cbn beta iota.
    rewrite decide_True by done. by apply quiet_ret.
  - eapply quiet_mono; [by eapply quiet_acd_ack|]. intros p ? HP. rewrite decide_True in HP by done. done.
Qed.

(** The module map holds what the response lists: for a response that encodes
    [l] and fits the block, the walk ends and collects, for each tag of the use case
    and no other, the modules of all its entries in order. *)
Theorem module_map_decodes (ts : list Z) (l : list (Z * list Z))
    (Hl : Forall (λ p, zlen p.2 < 2 ^ 28) l)
    (Hfit : (length (l ≫= encode_tag) ≤ 127)%nat) :
  ∃ m, tag_walk ts (tag_block TAG_MODULE_DEFAULT_SIZE (l ≫= encode_tag)) (length l) 0 ∅
         = Some m ∧
    (∀ t, default [] (m !! t) = if decide (t ∈ ts) then miids_of t l else []) ∧
    ack_miids ts m = ts ≫= λ t, miids_of t l.
Proof using.
  clear Hok He Ha E.
  unfold tag_block. change (Z.to_nat ((TAG_MODULE_DEFAULT_SIZE - 4) / 8)) with 127%nat.
  rewrite take_app, (take_ge (l ≫= encode_tag)) by lia.
  destruct (tag_walk_encode ts (take (127 - length (l ≫= encode_tag)) (replicate 127 (0, 0)))
    l [] ∅ Hl) as (m&Hm&Hlk).
  exists m. split; [done|]. assert (∀ t, default [] (m !! t) =
    if decide (t ∈ ts) then miids_of t l else []) as Hlk'.
  { intros t. rewrite Hlk, lookup_empty. done. }
  split; [done|]. unfold ack_miids.
  assert (∀ ts', ts' ⊆ ts → ts' ≫= (λ t, default [] (m !! t)) = ts' ≫= λ t, miids_of t l)
    as Hts; [|by apply Hts].
  induction ts' as [|t ts' IH]; intros Hsub; [done|]. simpl. rewrite Hlk', decide_True.
  - f_equal. apply IH. set_solver.
  - set_solver.
Qed.

(** The data of a context detection use case are accepted exactly when they hold
    the contexts they announce, or announce 2^32 - 1: then the size test wraps, and
    the use case is configured with a message that announces these contexts and
    carries nothing. *)
Theorem acd_data_checked (size n : Z) (d : list Z) (u : Usecase) (w : W)
    (Hmem : memory_ok) (Hk : kind u = UC_ACD) (Hb : bytes d) (Hlen : zlen d = size)
    (Hsz : 4 ≤ size < 2 ^ 32) (Hn : word_at 0 d = Some n) :
  quiet (SetUseCaseData size (Some d) u)
    (λ p l, l = [] ∧ (p.1 = 0 ↔ n = 2 ^ 32 - 1 ∨ 4 + 4 * n ≤ size) ∧
       (p.1 = 0 → requested_context_list p.2 = Some d) ∧
       (p.1 ≠ 0 → p.1 = - EINVAL ∧ requested_context_list p.2 = None)) w ∧
  (n = 2 ^ 32 - 1 → ∀ w,
     quiet (Configure (set_contexts (Some d) u))
       (λ rc l, l = [(SetParam (pal_stream u) PAL_PARAM_ID_CONTEXT_LIST 8 [], rc)]) w).
Proof using.
  destruct (le_word_at_ok 0 d) as (n'&Hn'&Hr); [done|lia..|].
  assert (n' = n) as -> by congruence. split.
  - unfold SetUseCaseData. rewrite Hk. unfold set_data_acd. rewrite decide_False by lia.
    eapply quiet_bind_lift; [done|].
    pose proof (acd_size_test n size Hr ltac:(lia)) as Htest. case_decide as Hdec.
    + apply quiet_ret. split; [done|]. cbn [fst snd]. split; [|done].
      split; [done|]. intros ?%Htest. done.
    + apply quiet_bind_calloc; [done|]. intros w1 _ _. cbn [negb].
      eapply quiet_bind_lift; [rewrite <- Hlen; apply slice_all|]. apply quiet_ret.
      split; [done|]. cbn [fst snd]. split; [|done]. split; [|done]. intros _. by apply Htest.
  - intros -> w'. unfold Configure. cbn [kind set_contexts]. rewrite Hk. unfold configure_acd.
    do 2 (eapply quiet_bind_lift; [done|]). rewrite decide_False by done.
    apply quiet_bind_calloc; [done|]. intros w1 _ _. cbn [negb].
    eapply (quiet_bind_lift _ []).
    { unfold slice. rewrite decide_True; [done|].
      change (4 * u32 (1 + (2 ^ 32 - 1))) with 0. cbn [requested_context_list set_contexts].
      pose proof (zlen_nonneg d). lia. }
    quiet_step. done.
Qed.
End facts.

(** ** Instances *)

Module Examples.
#[local] Instance asps : Asps := {|
  ASPS_USECASE_ID_ACD := 1; ASPS_USECASE_ID_PCM_DATA := 2; ASPS_USECASE_ID_PCM_DATA_V2 := 3;
  ASPS_USECASE_ID_UPD := 4; ASPS_USECASE_ID_ULTRASOUND_RENDERING := 5;
  ASPS_USECASE_ID_SDZ := 6; ASPS_USECASE_ID_ASR := 7;
  EVENT_ID_ASPS_SENSOR_REGISTER_REQUEST := 101;
  EVENT_ID_ASPS_SENSOR_DEREGISTER_REQUEST := 102;
  EVENT_ID_ASPS_GET_SUPPORTED_CONTEXT_IDS := 103; EVENT_ID_ASPS_CLOSE_ALL := 104;
  CONTEXT_DETECTION_ENGINE := 11; RD_SHMEM_ENDPOINT := 12; TAG_STREAM_MFC := 13;
  STREAM_PCM_CONVERTER := 14; ULTRASOUND_DETECTION_MODULE := 15;
  TAG_TONE_RENDERER_MODULE := 16; TAG_MODULE_SDZ := 17; TAG_MODULE_ASR := 18;
  sizeof_acd_ack := 8; sizeof_rendering := 12; sizeof_asr := 12; sizeof_param_data := 16;
  sizeof_register_ack := 12; sizeof_basic_ack := 12; sizeof_supported_ids := 8;
  read_pcm_v2 d := b ← word_at 4 d; Some (mkV2 b 16 16000 1);
  read_stream_type := word_at 0;
  read_rendering d := r ← word_at 0 d; Some (mkRendering r 1 16);
  read_asr d := c ← word_at 0 d; Some (mkAsrPayload c true 20);
|}.

(** Handles count up; every tag query finds a module for the tags 11 and 17; [status]
    answers the calls. *)
Definition env_with (status : PalCall → Z) : PalEnv Z := {|
  pal_api c s := (status c, s + 1);
  last_handle := Some;
  tag_info s := (2, encode_tag (11, [77]) ++ encode_tag (17, [78; 79]), 64);
  alloc s := (true, s);
  sound_models := [[5; 6]; [7]];
  asr_platform := None;
|}.
Definition calm : PalEnv Z := env_with (λ _, 0).
Definition refusing : PalEnv Z :=
  env_with (λ c, match c with SetParam _ _ _ _ => - EINVAL | _ => 0 end).

Lemma env_with_ok status : env_ok (He := env_with status).
Proof.
  assert (∀ id u0, usecase_for id = Some u0 →
    tags u0 ∈ [[11]; [12; 13; 14]; [15]; [16]; [17]; [18; 17]]) as Ht.
  { intros id u0. unfold usecase_for. intros. split_cases; set_solver. }
  split; [done|done| |].
  - intros id u0 Hu%Ht. repeat (apply elem_of_cons in Hu as [->|Hu];
      [by apply (bool_decide_unpack _); vm_compute|]). by apply elem_of_nil in Hu.
  - intros h n s rc s' _ [= _ <-]. simpl. split; [done|]. intros _ id u0 Hu%Ht.
    repeat (apply elem_of_cons in Hu as [->|Hu]; [by eexists; vm_compute; reflexivity|]).
    by apply elem_of_nil in Hu.
Qed.

Definition idle : CM Z := mkCM ∅ (Some 0) 1 [].
Lemma idle_ok : cm_ok idle.
Proof. split; [apply map_Forall_empty|]. split; [by eexists|]. multiset_solver. Qed.

(** A sensor with a running speaker diarization. *)
Definition sdz : Usecase := set_pal_stream (Some 5) (UsecaseSDZ 6).
Definition running_sdz : CM Z := mkCM {[1 := mkClient 1 {[6 := sdz]}]} (Some 0) 6 [].
Lemma running_sdz_ok : cm_ok running_sdz.
Proof.
  split; [|split; [by eexists|multiset_solver]].
  apply map_Forall_singleton. split; [done|]. apply map_Forall_singleton.
  exists (UsecaseSDZ 6). done.
Qed.
Lemma no_payload id size : payload_ok id size None.
Proof. intros ???. done. Qed.

Definition contexts : list Z := [44; 1; 0; 0] ++ replicate 1200 0.
Definition acd : Usecase := set_contexts (Some contexts) (set_pal_stream (Some 5) (UsecaseACD 1)).
Lemma contexts_bytes : bytes contexts.
Proof. apply Forall_app. split; [by repeat constructor|]. by apply Forall_replicate. Qed.
End Examples.

Lemma commands_keep_streams_owned_witness :
  ∃ w' w2, process_all (H := Examples.asps) (PalEnv0 := Examples.calm)
      [CommandRegister 1 6 0 None; CommandGetContextIDs 1; CommandDeregister 1 6]
      Examples.idle = Some (tt, w') ∧ cm_ok (Ha := Examples.asps) w' ∧
    ssrDownHandler (PalEnv0 := Examples.calm) w' = Some (0, w2) ∧ see_clients w2 = ∅ ∧
    cm_ok (Ha := Examples.asps) w2 ∧ open_after (log w2) ∅ ⊆ {[+ proxy_stream w2 +]}.
Proof.
  apply (commands_keep_streams_owned (Ha := Examples.asps) (He := Examples.calm)
    (Examples.env_with_ok _) _ _ Examples.idle_ok).
  apply Forall_cons; split; [apply Examples.no_payload|by repeat constructor].
Defined.

Lemma register_answered_witness :
  ∃ rc w' l, process_register_request (H := Examples.asps) (PalEnv0 := Examples.calm)
      1 6 0 None Examples.idle = Some (rc, w') ∧
    log w' = [] ++ l ∧
    (if decide (rc = 0) then ends_with (is_ack 1 6) 0 l
     else ∃ r, ends_with (is_nack 101 rc 1) r l).
Proof.
  destruct (register_answered (Ha := Examples.asps) (He := Examples.calm)
    (Examples.env_with_ok _) 1 6 0 None _ Examples.idle_ok (Examples.no_payload _ _)
    (λ s, eq_refl)) as (rc&w'&l&Hrun&Hl&Hend&_).
  exists rc, w', l. split; [exact Hrun|]. split; [exact Hl|exact Hend].
Defined.

Lemma failed_update_stays_registered_witness :
  ∃ w' w2 l l2 r r2, process_register_request (H := Examples.asps)
      (PalEnv0 := Examples.refusing) 1 6 0 None Examples.running_sdz = Some (- EINVAL, w') ∧
    log w' = [] ++ l ∧ (StreamClose (Some 5), r) ∈ l ∧
    lookup_usecase (see_clients w') 1 6 = Some (Examples.sdz) ∧
    process_deregister_request (PalEnv0 := Examples.refusing) 1 6 w' = Some (0, w2) ∧
    log w2 = log w' ++ l2 ∧ (StreamClose (Some 5), r2) ∈ l2.
Proof.
  apply (failed_update_stays_registered (Ha := Examples.asps) (He := Examples.refusing)
    (Examples.env_with_ok _) 1 6 0 (- EINVAL) None Examples.sdz _ Examples.running_sdz_ok
    (Examples.no_payload _ _) (λ s, eq_refl)); done.
Defined.

Lemma long_context_list_not_acknowledged_witness :
  quiet (build_and_send_register_ack (H := Examples.asps) (PalEnv0 := Examples.calm)
           Examples.acd 1 1) (λ rc _, rc = - ENODATA) Examples.idle.
Proof.
  refine (proj1 (long_context_list_not_acknowledged (Ha := Examples.asps)
    (He := Examples.calm) (Examples.env_with_ok _) 1 1 300 Examples.acd Examples.contexts
    Examples.idle (λ s, eq_refl) _ eq_refl eq_refl Examples.contexts_bytes eq_refl _ _ _ _)).
  - exists (UsecaseACD (H := Examples.asps) 1). done.
  - lia.
  - vm_compute. discriminate.
  - split; [done|]. intros s. vm_compute. discriminate.
  - vm_compute. reflexivity.
Defined.

Lemma module_map_decodes_witness :
  ∃ m, tag_walk [17; 11] (tag_block TAG_MODULE_DEFAULT_SIZE
         ([(11, [77]); (17, [78; 79])] ≫= encode_tag)) 2 0 ∅ = Some m ∧
    ack_miids [17; 11] m = [78; 79; 77].
Proof.
  destruct (module_map_decodes [17; 11] [(11, [77]); (17, [78; 79])]) as (m&Hm&_&Ha).
  - repeat constructor.
  - vm_compute. lia.
  - exists m. split; [exact Hm|exact Ha].
Defined.

Lemma acd_data_checked_witness :
  quiet (Configure (H := Examples.asps) (PalEnv0 := Examples.calm)
    (set_contexts (Some [255; 255; 255; 255]) Examples.acd))
    (λ rc l, l = [(SetParam (Some 5) PAL_PARAM_ID_CONTEXT_LIST 8 [], rc)]) Examples.idle.
Proof.
  refine (proj2 (acd_data_checked (Ha := Examples.asps) (He := Examples.calm)
    4 (2 ^ 32 - 1) [255; 255; 255; 255] Examples.acd Examples.idle
    (λ s, eq_refl) eq_refl _ eq_refl _ eq_refl) eq_refl Examples.idle).
  - by repeat constructor.
  - lia.
Defined.
