(* ===== verification/CmdQueue.v ===== *)
(** * The command thread of the context manager (context_manager/src/ContextManager.cpp)

    Three parties share the queue of requests: the callback of the proxy stream
    pushes, the command thread waits, pops and processes, and the shutdown sets the
    exit flag, notifies and joins.  The relation [step] interleaves their atomic
    steps; [request_queue_mtx] is held by the command thread except while it waits
    (also while a command is processed), and the flag is an unprotected variable. *)

From S2P Require Import Prelude.

Section queue.
Context {C : Type}.

(** Where [CommandThreadRunner] is.  In all states but [RBegin], [RWaiting], [RWoken],
    [RExited] and [RCrashed] it holds the mutex. *)
Inductive runner :=
  | RBegin                      (* before lck is taken *)
  | RTest                       (* while (!exit_cmd_thread_) *)
  | REmptyTest                  (* if (request_cmd_queue.empty()) *)
  | RBeforeWait                 (* about to call wait *)
  | RWaiting
  | RWoken                      (* takes the mutex again *)
  | RAfterWait                  (* if (cm.exit_cmd_thread_) continue *)
  | RPop                        (* if (!request_cmd_queue.empty()) *)
  | RProcess (c : option C)     (* request_command->Process(cm) *)
  | RExited
  | RCrashed.                   (* a null command was used *)

(** Where [DestroyCommandProcessingThread] is. *)
Inductive destroyer := DIdle | DNotify | DJoin | DDone.

Record state := mkState {
  queue : list (option C);
  exit_cmd_thread : bool;
  run : runner;
  destroy : destroyer;
  processed : list C;
}.

Definition holds_lock (r : runner) : bool :=
  match r with
  | RTest | REmptyTest | RBeforeWait | RAfterWait | RPop | RProcess _ => true
  | _ => false
  end.

Definition wake (r : runner) : runner := match r with RWaiting => RWoken | _ => r end.

(** [StreamProxyCallback] pushes what [RequestCommandCreate] returned, a null pointer
    for an unknown event; [flush] is the loop of [ssrDownHandler]. *)
Inductive label := LRunner | LPush (c : option C) | LFlush | LDestroy | LSpurious.

Definition runner_next (s : state) : option state :=
  let at_ r := Some (mkState (queue s) (exit_cmd_thread s) r (destroy s) (processed s)) in
  match run s with
  | RBegin => at_ RTest
  | RWoken => at_ RAfterWait
  | RTest => at_ (if exit_cmd_thread s then RExited else REmptyTest)
  | REmptyTest => at_ (match queue s with [] => RBeforeWait | _ => RPop end)
  | RBeforeWait => at_ RWaiting
  | RAfterWait => at_ (if exit_cmd_thread s then RTest else RPop)
  | RPop =>
      match queue s with
      | [] => at_ RTest
      | c :: q => Some (mkState q (exit_cmd_thread s) (RProcess c) (destroy s) (processed s))
      end
  | RProcess None => at_ RCrashed
  | RProcess (Some c) =>
      Some (mkState (queue s) (exit_cmd_thread s) RTest (destroy s) (processed s ++ [c]))
  | RWaiting | RExited | RCrashed => None
  end.

Definition destroyer_next (s : state) : option state :=
  match destroy s with
  | DIdle => Some (mkState (queue s) true (run s) DNotify (processed s))
  | DNotify =>
      Some (mkState (queue s) (exit_cmd_thread s) (wake (run s)) DJoin (processed s))
  | DJoin =>
      match run s with
      | RExited => Some (mkState (queue s) (exit_cmd_thread s) (run s) DDone (processed s))
      | _ => None
      end
  | DDone => None
  end.

Definition next (l : label) (s : state) : option state :=
  match l with
  | LRunner => runner_next s
  | LPush c =>
      if holds_lock (run s) then None
      else Some (mkState (queue s ++ [c]) (exit_cmd_thread s) (wake (run s)) (destroy s)
                   (processed s))
  | LFlush =>
      if holds_lock (run s) then None
      else Some (mkState [] (exit_cmd_thread s) (run s) (destroy s) (processed s))
  | LDestroy => destroyer_next s
  | LSpurious =>
      match run s with
      | RWaiting =>
          Some (mkState (queue s) (exit_cmd_thread s) RWoken (destroy s) (processed s))
      | _ => None
      end
  end.

Inductive step : label → state → state → Prop :=
  step_next l s s' : next l s = Some s' → step l s s'.

(** Runs with their labels. *)
Inductive steps : list label → state → state → Prop :=
  | steps_nil s : steps [] s s
  | steps_cons l ls s1 s2 s3 : step l s1 s2 → steps ls s2 s3 → steps (l :: ls) s1 s3.

Fixpoint run_labels (ls : list label) (s : state) : option state :=
  match ls with [] => Some s | l :: ls => s' ← next l s; run_labels ls s' end.

(** [CreateCommandProcessingThread]. *)
Definition initial : state := mkState [] false RBegin DIdle [].
End queue.
Arguments state : clear implicits.
Arguments label : clear implicits.
Arguments runner : clear implicits.
