(* ===== verification/CmdQueueFacts.v ===== *)
(** * The command thread: order of processing, shutdown *)

From S2P Require Import Prelude CmdQueue.

Section facts.
Context {C : Type}.
Implicit Types s : state C.

Definition pushed (ls : list (label C)) : list (option C) :=
  ls ≫= λ l, match l with LPush c => [c] | _ => [] end.

(** A thread that crashed did so on a null command. *)
Definition in_process (r : runner C) : list (option C) :=
  match r with RProcess c => [c] | RCrashed => [None] | _ => [] end.

(** The commands that waited when the queue was flushed. *)
Fixpoint dropped (ls : list (label C)) (s : state C) : list (option C) :=
  match ls with
  | [] => []
  | l :: ls =>
      match l with LFlush => queue s | _ => [] end ++
      match next l s with Some s' => dropped ls s' | None => [] end
  end.

(** What the queue has seen, in order. *)
Definition seen s : list (option C) := (Some <$> processed s) ++ in_process (run s) ++ queue s.

Lemma in_process_wake (r : runner C) : in_process (wake r) = in_process r.
Proof. by destruct r. Qed.

Lemma holds_wake (r : runner C) : holds_lock (wake r) = holds_lock r.
Proof. by destruct r. Qed.

Lemma steps_run ls : ∀ s s', steps ls s s' ↔ run_labels ls s = Some s'.
Proof.
  induction ls as [|l ls IH]; intros s s'; simpl.
  - split; [by inversion 1|intros [= ->]; constructor].
  - split.
    + inversion 1 as [|????? Hl Hls]; subst. inversion Hl as [??? Hn]; subst.
      rewrite Hn. simpl. by apply IH.
    + destruct (next l s) as [s1|] eqn:Hn; [|done]. simpl. intros ?%IH.
      by econstructor; [constructor|].
Qed.

(** A step of the thread keeps what was seen. *)
Lemma runner_seen s s' : runner_next s = Some s' → seen s' = seen s.
Proof.
  unfold runner_next, seen. destruct s as [q e r d p]. simpl.
  destruct r as [| | | | | | | |[c|]| |]; intros H; simplify_eq/=; try done.
  - by destruct e.
  - by destruct q.
  - by destruct e.
  - destruct q; by simplify_eq/=.
  - by rewrite fmap_app, <- app_assoc.
Qed.

Lemma next_seen l s s' : next l s = Some s' → l ≠ LFlush → seen s' = seen s ++ pushed [l].
Proof.
  intros Hn Hf. destruct l as [|c| | |]; try done; unfold pushed; simpl;
    rewrite ?app_nil_r; simpl in Hn.
  - by apply runner_seen.
  - destruct (holds_lock (run s)) eqn:Hl; [done|]. injection Hn as <-. unfold seen. simpl.
    by rewrite in_process_wake, <- !app_assoc.
  - unfold destroyer_next, seen in *. destruct s as [q e r [] p]; simplify_eq/=; [done| |].
    + by rewrite in_process_wake.
    + by destruct r; simplify_eq/=.
  - unfold seen. destruct s as [q e r d p]. by destruct r; simplify_eq/=.
Qed.

(** A flush drops what waits. *)
Lemma flush_seen s s' : next LFlush s = Some s' → seen s = seen s' ++ queue s.
Proof.
  simpl. destruct (holds_lock (run s)); [done|]. intros [= <-]. unfold seen; simpl.
  by rewrite app_nil_r, <- app_assoc.
Qed.

Lemma steps_seen ls : ∀ s s', steps ls s s' →
  sublist (seen s') (seen s ++ pushed ls) ∧
  seen s ++ pushed ls ≡ₚ seen s' ++ dropped ls s.
Proof.
  induction ls as [|l ls IH]; intros s s'; inversion 1 as [|????? Hl Hls]; subst.
  { by rewrite !app_nil_r. }
  destruct (IH s2 s' Hls) as [Hsub Hperm]. inversion Hl as [??? Hn]; subst.
  assert (pushed (l :: ls) = pushed [l] ++ pushed ls) as ->
    by (unfold pushed; simpl; by rewrite app_nil_r).
  cbn [dropped]. rewrite Hn. assert (l = LFlush ∨ l ≠ LFlush) as [->|Hf] by (destruct l; auto).
  - rewrite (flush_seen s s2 Hn). simpl. rewrite <- app_assoc. split.
    + etrans; [exact Hsub|]. apply sublist_app; [done|]. by apply sublist_inserts_l.
    + rewrite (Permutation_app_comm (queue s)), app_assoc, Hperm, <- app_assoc.
      by rewrite (Permutation_app_comm (queue s)).
  - pose proof (next_seen l s s2 Hn Hf) as E. rewrite app_assoc, <- E.
    by destruct l.
Qed.

Lemma sublist_same_length {A} (l k : list A) : sublist l k → length l = length k → l = k.
Proof.
  induction 1 as [|x l k _ IH|x l k Hs _]; simpl; intros E; [done|f_equal; auto|].
  apply sublist_length in Hs. lia.
Qed.

(** C35: Requests are processed once each, in the order of their arrival, and lost only
    by a flush ([ssrDownHandler]).  In any run the commands processed, the one in process
    (or the null one a crash happened on) and those in the queue are in this order some
    of the commands pushed, in the order in which they were pushed; the pushed commands
    that are missing are exactly those that waited when the queue was flushed, so without
    a flush none is. *)
Theorem requests_in_order (ls : list (label C)) (s : state C) (Hs : steps ls initial s) :
  let l := (Some <$> processed s) ++ in_process (run s) ++ queue s in
  sublist l (pushed ls) ∧ pushed ls ≡ₚ l ++ dropped ls initial ∧
  (LFlush ∉ ls → l = pushed ls).
Proof.
  destruct (steps_seen ls initial s Hs) as [Hsub Hperm].
  split; [exact Hsub|]. split; [exact Hperm|]. intros Hf.
  apply sublist_same_length; [exact Hsub|].
  assert (∀ ls s, LFlush ∉ ls → dropped ls s = []) as Hd.
  { clear. induction ls as [|l ls IH]; intros s Hf; [done|]. simpl.
    destruct l; try (simpl; case_match; [apply IH; set_solver|done]). set_solver. }
  rewrite (Hd ls initial Hf), app_nil_r in Hperm. by rewrite Hperm.
Qed.

(** The thread does not read the flag again before it waits. *)
Definition hung s : Prop :=
  destroy s = DJoin ∧ exit_cmd_thread s = true ∧ run s = RWaiting.

(** The shutdown can hang.  The exit flag is set and signalled without the mutex:
    if this happens between the test of the loop and [wait], the signal is lost.  From
    the state reached then the thread waits, the shutdown waits for the thread, and no
    step is possible but a spurious wake-up or an event of the proxy stream, which is
    closed by then. *)
Theorem shutdown_can_hang :
  ∃ ls (s : state C), steps ls initial s ∧ hung s ∧
    ∀ l s', step l s s' → l = LSpurious ∨ l = LFlush ∨ ∃ c, l = LPush c.
Proof.
  exists [LRunner; LRunner; LRunner; LDestroy; LDestroy; LRunner].
  eexists. split; [by apply steps_run|]. split; [done|].
  intros l s' Hstep. inversion Hstep as [??? Hn]; subst.
  destruct l; simplify_eq/=; eauto.
Qed.

End facts.

Lemma requests_in_order_witness :
  let ls := [LPush (Some 6); LFlush; LPush (Some 7); LRunner; LRunner; LRunner; LRunner;
             LRunner; LDestroy; LDestroy; LRunner; LPush (Some 8)] in
  let s := mkState [Some 8] true RExited DJoin [7] in
  steps ls initial s ∧
  let l := (Some <$> processed s) ++ in_process (run s) ++ queue s in
  sublist l (pushed ls) ∧ pushed ls ≡ₚ l ++ dropped ls initial ∧
  (LFlush ∉ ls → l = pushed ls).
Proof.
  intros ls s. assert (steps ls initial s) as Hs by (apply steps_run; vm_compute; reflexivity).
  split; [exact Hs|exact (requests_in_order ls s Hs)].
Defined.
