(* ===== verification/EcRef.v ===== *)
(** * Echo cancellation references (resource_manager/src/ResourceManager.cpp)

    When a playback device starts, every capture stream that records next to it
    gets it as echo reference; the resource manager counts, for each capture
    device, playback device and capture stream, the playback streams that use the
    reference.  The reference itself is a path of the session of the capture
    stream ([SessionAlsaPcm::setECRef], session/SessionAlsaPcm).

    The calls are programs on the lists of the resource manager, the streams they
    reach and the mixer.  A device is the id of its only object, a stream its
    address.  [None] is a deadlock on [mResourceManagerMutex] or the use of a
    dangling stream.  The callers hold [mActiveStreamMutex], so no other call runs
    where [mResourceManagerMutex] is given up. *)

From S2P Require Import Prelude PalDefs.

(** ** State *)

Record usecase_info := mkUsecase {
  uc_type : Z;
  uc_ec_enable : bool;
  uc_config : list (string * bool);
}.

(** The fields of [deviceIn] that concern the references; the vectors of
    [ec_ref_count_map] pair a capture stream with its count. *)
Record deviceIn := mkDeviceIn {
  deviceId : Z;
  rx_dev_ids : list Z;
  ec_ref_count_map : gmap Z (list (positive * Z));
  di_isExternalECRefEnabled : bool;
  di_ec_enable : bool;
  di_usecase : list usecase_info;
}.

Record tx_ecinfo := mkTxEcInfo {
  tx_stream_type : Z;
  disabled_rx_streams : list Z;
}.

Definition set_ec_ref_count_map (m : gmap Z (list (positive * Z))) (d : deviceIn) : deviceIn :=
  mkDeviceIn (deviceId d) (rx_dev_ids d) m (di_isExternalECRefEnabled d)
    (di_ec_enable d) (di_usecase d).

Inductive EcSession :=
  | SessionAlsaPcm (ecRefDevId : Z) (pcmDevIds : list Z)
  | SessionAlsaVoice.

Record EcStream := mkEcStream {
  ec_attr : option pal_stream_attributes;
  ec_devices : list Z;
  ec_state : stream_state_t;
  ec_session : option EcSession;
}.

Definition set_ec_session (x : option EcSession) (s : EcStream) : EcStream :=
  mkEcStream (ec_attr s) (ec_devices s) (ec_state s) x.

(** [echoReference] holds the values of the mixer controls by PCM device;
    [mixer_calls] counts the accesses, [rm_locked] is [mResourceManagerMutex]. *)
Record EcWorld := mkEc {
  deviceInfo : list deviceIn;
  active_devices : list (Z * positive);
  mActiveStreams : list positive;
  activeStreamMap : gmap Z (list positive);
  ec_streams : gmap positive EcStream;
  echoReference : gmap Z string;
  mixer_calls : nat;
  rm_locked : bool;
}.

Definition set_deviceInfo (x : list deviceIn) (w : EcWorld) : EcWorld :=
  mkEc x (active_devices w) (mActiveStreams w) (activeStreamMap w) (ec_streams w)
    (echoReference w) (mixer_calls w) (rm_locked w).
Definition set_active_devices (x : list (Z * positive)) (w : EcWorld) : EcWorld :=
  mkEc (deviceInfo w) x (mActiveStreams w) (activeStreamMap w) (ec_streams w)
    (echoReference w) (mixer_calls w) (rm_locked w).
Definition set_ec_streams (x : gmap positive EcStream) (w : EcWorld) : EcWorld :=
  mkEc (deviceInfo w) (active_devices w) (mActiveStreams w) (activeStreamMap w) x
    (echoReference w) (mixer_calls w) (rm_locked w).
Definition set_echoReference (x : gmap Z string) (w : EcWorld) : EcWorld :=
  mkEc (deviceInfo w) (active_devices w) (mActiveStreams w) (activeStreamMap w)
    (ec_streams w) x (mixer_calls w) (rm_locked w).
Definition set_mixer_calls (x : nat) (w : EcWorld) : EcWorld :=
  mkEc (deviceInfo w) (active_devices w) (mActiveStreams w) (activeStreamMap w)
    (ec_streams w) (echoReference w) x (rm_locked w).
Definition set_rm_locked (x : bool) (w : EcWorld) : EcWorld :=
  mkEc (deviceInfo w) (active_devices w) (mActiveStreams w) (activeStreamMap w)
    (ec_streams w) (echoReference w) (mixer_calls w) x.

(** ** Environment

    The configuration files ([txEcInfo], [listAllBackEndIds]), the custom keys of
    the devices, the result of the [n]-th access to a mixer control, and the
    external echo reference of [SessionAR::checkAndSetExtEC]. *)
Class EcEnv := {
  txEcInfo : list tx_ecinfo;
  backend_name : Z → string;
  device_key : Z → string;
  mixer_result : nat → Z;
  checkAndSetExtEC : positive → bool → St EcWorld Z;
}.

(** ** The tables of the resource manager *)

(** The first entry of a vector with a property. *)
Definition first_with {A} (P : A → bool) (l : list A) : option A := snd <$> list_find P l.

(** The stream type is compared with every entry, the flag is never set again. *)
Definition getEcRefStatus `{EcEnv} (tx_streamtype rx_streamtype : Z) : bool :=
  if decide (tx_streamtype = PAL_STREAM_LOW_LATENCY) then false
  else bool_decide (Forall (λ e, tx_streamtype = tx_stream_type e →
                                 rx_streamtype ∉ disabled_rx_streams e) txEcInfo).

Definition isExternalECRefEnabled (rx_dev_id : Z) (l : list deviceIn) : bool :=
  match first_with (λ d, bool_decide (deviceId d = rx_dev_id)) l with
  | Some d => di_isExternalECRefEnabled d
  | None => false
  end.

(** [getDeviceInfo] keeps the flag of the last entry for the device. *)
Definition device_info_external (rx_dev_id : Z) (l : list deviceIn) : bool :=
  isExternalECRefEnabled rx_dev_id (reverse l).

Definition getECEnableSetting `{EcEnv} (tx_dev : Z) (stream_type : Z)
    (l : list deviceIn) : bool :=
  match first_with (λ d, bool_decide (deviceId d = tx_dev)) l with
  | None => true
  | Some d =>
      match first_with (λ u, bool_decide (uc_type u = stream_type)) (di_usecase d) with
      | None => di_ec_enable d
      | Some u =>
          match first_with (λ c, bool_decide (c.1 = device_key tx_dev)) (uc_config u) with
          | None => uc_ec_enable u
          | Some c => c.2
          end
      end
  end.

Definition checkECRef (rx_dev tx_dev : option Z) (l : list deviceIn) : bool :=
  match rx_dev, tx_dev with
  | Some rx, Some tx =>
      bool_decide (Exists (λ d, deviceId d = tx ∧ rx ∈ rx_dev_ids d) l)
  | _, _ => false
  end.

(** ** The counts *)

Definition counts_of (m : gmap Z (list (positive * Z))) (rx : Z) : list (positive * Z) :=
  default [] (m !! rx).

Definition find_stream (s : positive) (v : list (positive * Z)) : option (nat * (positive * Z)) :=
  list_find (λ p, p.1 = s) v.

Definition map_keys {A} (m : gmap Z A) : list Z := merge_sort Z.le (elements (dom m)).

(** The loop over the map when a capture stream stops: the last key visited,
    whether the stream was found, and the map. *)
Fixpoint txstop_loop (rx_dev : option Z) (tx_str : positive) (ks : list Z) (rx_dev_id : Z)
    (found : bool) (m : gmap Z (list (positive * Z))) :=
  match ks with
  | [] => (rx_dev_id, found, m)
  | k :: ks =>
      if bool_decide (is_Some rx_dev ∧ rx_dev ≠ Some k)
      then txstop_loop rx_dev tx_str ks k found m
      else
        let '(found, m) :=
          match find_stream tx_str (counts_of m k) with
          | Some (j, _) => (true, <[k := delete j (counts_of m k)]> m)
          | None => (found, m)
          end in
        if found && bool_decide (is_Some rx_dev) then (k, found, m)
        else txstop_loop rx_dev tx_str ks k found m
  end.

(** Counts are far below the range of [int]. *)
Definition update_counts (rx_dev : option Z) (tx_str : positive) (count : Z)
    (is_txstop : bool) (m : gmap Z (list (positive * Z))) : Z * gmap Z (list (positive * Z)) :=
  let '(rx_dev_id, ec_count, found, m) :=
    if is_txstop then
      let '(rx_dev_id, found, m) := txstop_loop rx_dev tx_str (map_keys m) 0 false m in
      (rx_dev_id, 0, found, m)
    else
      let rx := default 0 rx_dev in
      let v := counts_of m rx in
      let m := <[rx := v]> m in
      match find_stream tx_str v with
      | None => (rx, 0, false, m)
      | Some (j, (_, n)) =>
          if decide (0 < count) then
            (rx, n + count, true, <[rx := <[j := (tx_str, n + count)]> v]> m)
          else if decide (count = 0) then
            let n := if decide (0 < n) then n - 1 else n in
            (rx, n, true, <[rx := if decide (n = 0) then delete j v
                                  else <[j := (tx_str, n)]> v]> m)
          else (rx, 0, true, m)
      end in
  if found then (ec_count, m)
  else if decide (count = 0) then (- EINVAL, m)
  else if decide (0 < count) then
    (count, <[rx_dev_id := counts_of m rx_dev_id ++ [(tx_str, count)]]> m)
  else (ec_count, m).

Definition updateECDeviceMap (rx_dev tx_dev : option Z) (tx_str : positive) (count : Z)
    (is_txstop : bool) (l : list deviceIn) : Z * list deviceIn :=
  match tx_dev with
  | None => (- EINVAL, l)
  | Some tx =>
      if bool_decide (rx_dev = None) && negb is_txstop then (- EINVAL, l)
      else
        match list_find (λ d, deviceId d = tx) l with
        | None => (- EINVAL, l)
        | Some (i, d) =>
            let '(rc, m) := update_counts rx_dev tx_str count is_txstop (ec_ref_count_map d) in
            (rc, <[i := set_ec_ref_count_map m d]> l)
        end
  end.

(** ** Streams and sessions *)

Section calls.
Context `{EcEnv}.
Local Open Scope st_scope.

Abbreviation M := (St EcWorld).

Definition lock_rm : M unit := λ w,
  if rm_locked w then None else Some (tt, set_rm_locked true w).
Definition unlock_rm : M unit := λ w,
  if rm_locked w then Some (tt, set_rm_locked false w) else None.

Definition stream_of (s : positive) : M EcStream := λ w,
  st ← ec_streams w !! s; Some (st, w).

Definition put_session (s : positive) (x : EcSession) : M unit :=
  st_modify (λ w, set_ec_streams (alter (set_ec_session (Some x)) s (ec_streams w)) w).

Definition update_map (rx_dev tx_dev : option Z) (tx_str : positive) (count : Z)
    (is_txstop : bool) : M Z := λ w,
  let '(rc, l) := updateECDeviceMap rx_dev tx_dev tx_str count is_txstop (deviceInfo w) in
  Some (rc, set_deviceInfo l w).

Definition updateECDeviceMap_l (rx_dev tx_dev : option Z) (tx_str : positive) (count : Z)
    (is_txstop : bool) : M Z :=
  lock_rm;;;;
  status <-- update_map rx_dev tx_dev tx_str count is_txstop;;
  unlock_rm;;;;
  st_ret status.

(** The control takes the value when the access succeeds. *)
Definition setECRefPath (device : Z) (intf_name : string) : M Z := λ w,
  let ret := mixer_result (mixer_calls w) in
  Some (ret, set_mixer_calls (S (mixer_calls w))
               (if decide (ret = 0)
                then set_echoReference (<[device := intf_name]> (echoReference w)) w else w)).

Definition set_path (pcmDevIds : list Z) (intf_name : string) : M Z :=
  match pcmDevIds with
  | [] => st_ret (- EINVAL)
  | device :: _ => setECRefPath device intf_name
  end.

Fixpoint forget_reference (ec_rx_dev : Z) (tx_devs : list Z) (s : positive) : M unit :=
  match tx_devs with
  | [] => st_ret tt
  | d :: tx_devs =>
      updateECDeviceMap_l (Some ec_rx_dev) (Some d) s 0 true;;;;
      forget_reference ec_rx_dev tx_devs s
  end.

(** The body of [SessionAlsaPcm::setECRef] up to its label [exit]. *)
Definition pcm_disable (s : positive) (ecRefDevId : Z) (pcmDevIds : list Z)
    (rx_dev : option Z) (external : bool) : M Z :=
  if decide (ecRefDevId = PAL_DEVICE_OUT_MIN) then st_ret 0
  else if bool_decide (is_Some rx_dev ∧ rx_dev ≠ Some ecRefDevId) then st_ret (- EINVAL)
  else if external then checkAndSetExtEC s false
  else set_path pcmDevIds "ZERO".

Definition pcm_enable (s : positive) (ecRefDevId : Z) (pcmDevIds : list Z) (tx_devs : list Z)
    (rx_dev : Z) (external : bool) : M Z :=
  l <-- st_gets deviceInfo;;
  let in_use := bool_decide (ecRefDevId ≠ PAL_DEVICE_OUT_MIN) in
  if decide (ecRefDevId = rx_dev) then st_ret 0
  else if external then
    status <-- (if in_use && negb (isExternalECRefEnabled ecRefDevId l)
                then set_path pcmDevIds "ZERO" else st_ret 0);;
    if decide (status ≠ 0) then st_ret status else checkAndSetExtEC s true
  else if in_use && isExternalECRefEnabled ecRefDevId l then st_ret (- EINVAL)
  else
    status <-- (if in_use
                then forget_reference ecRefDevId tx_devs s;;;; set_path pcmDevIds "ZERO"
                else st_ret 0);;
    if decide (status ≠ 0) then st_ret status
    else set_path pcmDevIds (backend_name rx_dev).

Definition SessionAlsaPcm_setECRef (s : positive) (rx_dev : option Z) (is_enable : bool) : M Z :=
  st <-- stream_of s;;
  match ec_attr st, ec_session st with
  | Some sAttr, Some (SessionAlsaPcm ecRefDevId pcmDevIds) =>
      if decide (direction sAttr ≠ PAL_AUDIO_INPUT) then st_ret (- EINVAL)
      else
        let rx_dev :=
          if negb is_enable && bool_decide (rx_dev = None ∧ ecRefDevId ≠ PAL_DEVICE_OUT_MIN)
          then Some ecRefDevId else rx_dev in
        l <-- st_gets deviceInfo;;
        let external :=
          match rx_dev with Some d => device_info_external d l | None => false end in
        status <-- (match is_enable, rx_dev with
                    | false, _ => pcm_disable s ecRefDevId pcmDevIds rx_dev external
                    | true, Some rx =>
                        pcm_enable s ecRefDevId pcmDevIds (ec_devices st) rx external
                    | true, None => st_ret (- EINVAL)
                    end);;
        if decide (status ≠ 0) then st_ret status
        else
          st <-- stream_of s;;
          match ec_session st, is_enable, rx_dev with
          | Some (SessionAlsaPcm _ ids), true, Some d =>
              put_session s (SessionAlsaPcm d ids);;;; st_ret status
          | Some (SessionAlsaPcm now ids), _, _ =>
              if external && bool_decide (rx_dev ≠ Some now) then st_ret status
              else put_session s (SessionAlsaPcm PAL_DEVICE_OUT_MIN ids);;;; st_ret status
          | _, _, _ => st_lift None
          end
  | _, _ => st_ret (- EINVAL)
  end.

(** [StreamPCM::setECRef_l]; a capture stream of a class with a [setECRef_l] of its own
    ([StreamSoundTrigger], [StreamACD], [StreamASR], [StreamSensorPCMData],
    [StreamCompress], [StreamInCall]) is not modelled. *)
Definition setECRef_l (s : positive) (dev : option Z) (is_enable : bool) : M Z :=
  st <-- stream_of s;;
  match ec_session st with
  | None => st_ret (- EINVAL)
  | Some (SessionAlsaPcm _ _) => SessionAlsaPcm_setECRef s dev is_enable
  | Some SessionAlsaVoice => st_ret 0
  end.

(** ** Streams in use *)

Definition isDeviceActive_l (d : Z) (s : positive) (w : EcWorld) : bool :=
  bool_decide ((d, s) ∈ active_devices w).

Definition isStreamActive (s : positive) (w : EcWorld) : bool :=
  bool_decide (s ∈ mActiveStreams w).

Definition playing (st : EcStream) : bool :=
  bool_decide (ec_state st = STREAM_STARTED ∨ ec_state st = STREAM_PAUSED).

(** The streams of every type that are alive and use the device; a dangling
    pointer in a list is undefined behaviour. *)
Fixpoint getActiveStreams (d : Z) (sourcestreams : list positive) (w : EcWorld) :
    option (list positive) :=
  match sourcestreams with
  | [] => Some []
  | s :: l =>
      st ← ec_streams w !! s;
      r ← getActiveStreams d l w;
      Some (if bool_decide (d ∈ ec_devices st ∧ ec_state st ≠ STREAM_IDLE) then s :: r else r)
  end.

Definition getActiveStream_l (d : Z) (w : EcWorld) : option (list positive) :=
  getActiveStreams d
    (map_keys (activeStreamMap w) ≫= λ k, default [] (activeStreamMap w !! k)) w.

Definition out_device (d : Z) : option Z :=
  if decide (PAL_DEVICE_OUT_MIN < d < PAL_DEVICE_OUT_MAX) then Some d else None.
Definition in_device (d : Z) : option Z :=
  if decide (PAL_DEVICE_IN_MIN < d < PAL_DEVICE_IN_MAX) then Some d else None.

(** The loop over the devices of a playback stream. *)
Definition reference_of (rx_str : positive) (st : EcStream) (tx_devices : list Z)
    (w : EcWorld) : option Z :=
  first_with (λ d, isDeviceActive_l d rx_str w && playing st &&
    bool_decide (Exists (λ tx, checkECRef (out_device d) (Some tx) (deviceInfo w)) tx_devices))
    (ec_devices st).

Fixpoint first_reference (tx_type : Z) (tx_devices : list Z) (rx_strs : list positive)
    (w : EcWorld) : option (option Z) :=
  match rx_strs with
  | [] => Some None
  | s :: rx_strs =>
      st ← ec_streams w !! s;
      rx_attr ← ec_attr st;
      if bool_decide (direction rx_attr ≠ PAL_AUDIO_INPUT) && getEcRefStatus tx_type (type rx_attr)
      then match reference_of s st tx_devices w with
           | Some d => Some (Some d)
           | None => first_reference tx_type tx_devices rx_strs w
           end
      else first_reference tx_type tx_devices rx_strs w
  end.

Definition getActiveEchoReferenceRxDevices_l (tx_str : positive) (w : EcWorld) :
    option (option Z) :=
  st ← ec_streams w !! tx_str;
  match ec_attr st with
  | None => Some None
  | Some tx_attr =>
      if decide (direction tx_attr ≠ PAL_AUDIO_INPUT) then Some None
      else first_reference (type tx_attr) (ec_devices st) (mActiveStreams w) w
  end.

Fixpoint concurrent_tx (rx_type : Z) (rx_device : Z) (tx_strs : list positive)
    (w : EcWorld) : option (list positive) :=
  match tx_strs with
  | [] => Some []
  | s :: tx_strs =>
      st ← ec_streams w !! s;
      tx_attr ← ec_attr st;
      r ← concurrent_tx rx_type rx_device tx_strs w;
      Some (if bool_decide (type tx_attr ∉ [PAL_STREAM_PROXY; PAL_STREAM_ULTRA_LOW_LATENCY;
                                             PAL_STREAM_GENERIC]) &&
               bool_decide (direction tx_attr = PAL_AUDIO_INPUT) &&
               getEcRefStatus (type tx_attr) rx_type &&
               bool_decide (Exists (λ d, isDeviceActive_l d s w &&
                   checkECRef (Some rx_device) (in_device d) (deviceInfo w)) (ec_devices st))
            then s :: r else r)
  end.

Definition getConcurrentTxStream_l (rx_str : positive) (rx_device : Z) (w : EcWorld) :
    option (list positive) :=
  st ← ec_streams w !! rx_str;
  match ec_attr st with
  | None => Some []
  | Some rx_attr =>
      if bool_decide (direction rx_attr = PAL_AUDIO_OUTPUT ∨
                      direction rx_attr = PAL_AUDIO_INPUT_OUTPUT)
      then concurrent_tx (type rx_attr) rx_device (mActiveStreams w) w
      else Some []
  end.

(** ** References of capture streams *)

Definition attr_of (st : EcStream) : M pal_stream_attributes := st_lift (ec_attr st).

(** The playback streams of the loop of [checkandEnableECForTXStream_l]. *)
Fixpoint count_rx (tx_type : Z) (rx_dev : Z) (rx_strs : list positive) (w : EcWorld) : option Z :=
  match rx_strs with
  | [] => Some 0
  | s :: rx_strs =>
      st ← ec_streams w !! s;
      if isDeviceActive_l rx_dev s w && playing st then
        rx_attr ← ec_attr st;
        n ← count_rx tx_type rx_dev rx_strs w;
        Some (if bool_decide (direction rx_attr ≠ PAL_AUDIO_INPUT) &&
                 getEcRefStatus tx_type (type rx_attr) then 1 + n else n)
      else count_rx tx_type rx_dev rx_strs w
  end.

(** After the device and the count are known. *)
Definition apply_tx (rx_dev : option Z) (tx_dev : Z) (tx_stream : positive) (rxdevcount : Z)
    (ec_on : bool) : M Z :=
  rxdevcount <-- update_map rx_dev (Some tx_dev) tx_stream rxdevcount (negb ec_on);;
  if decide (rxdevcount ≤ 0 ∧ ec_on = true) then st_ret 0
  else
    unlock_rm;;;;
    status <-- setECRef_l tx_stream rx_dev ec_on;;
    lock_rm;;;;
    if decide (status = - ENODEV) then st_ret 0
    else if decide (status ≠ 0 ∧ ec_on = true) then
      update_map rx_dev (Some tx_dev) tx_stream 0 ec_on;;;; st_ret status
    else st_ret status.

Definition checkandEnableECForTXStream_l (tx_dev : Z) (tx_stream : positive) (ec_on : bool) : M Z :=
  st <-- stream_of tx_stream;;
  match ec_attr st with
  | None => st_ret (- EINVAL)
  | Some sAttr =>
      l <-- st_gets deviceInfo;;
      if negb (getECEnableSetting tx_dev (type sAttr) l) then st_ret 0
      else if negb ec_on then apply_tx None tx_dev tx_stream 0 ec_on
      else
        w <-- st_gets id;;
        rx_dev <-- st_lift (getActiveEchoReferenceRxDevices_l tx_stream w);;
        match rx_dev with
        | None => st_ret 0
        | Some rx =>
            activeStreams <-- st_lift (getActiveStream_l rx w);;
            rxdevcount <-- st_lift (count_rx (type sAttr) rx activeStreams w);;
            apply_tx rx_dev tx_dev tx_stream rxdevcount ec_on
        end
  end.

(** ** References for playback streams *)

(** The turn of one capture stream; the status is left as it was where the code
    continues before it assigns it. *)
Definition apply_rx (rx_dev : Z) (ec_on : bool) (tx_stream : positive) (status : Z) : M Z :=
  w <-- st_gets id;;
  if negb (isStreamActive tx_stream w) then st_ret status
  else
    st <-- stream_of tx_stream;;
    match ec_devices st, ec_attr st with
    | [], _ => st_ret status
    | _, None => st_ret (- EINVAL)
    | tx_dev :: _, Some sAttr =>
        if negb (getECEnableSetting tx_dev (type sAttr) (deviceInfo w)) then st_ret 0
        else
          let ec_map_rx_dev_count := if ec_on then 1 else 0 in
          rxdevcount <-- update_map (Some rx_dev) (Some tx_dev) tx_stream
                           ec_map_rx_dev_count false;;
          if decide (rxdevcount ≠ ec_map_rx_dev_count) then st_ret 0
          else
            unlock_rm;;;;
            status <-- setECRef_l tx_stream (Some rx_dev) ec_on;;
            lock_rm;;;;
            if decide (status ≠ 0 ∧ ec_on = true) then
              update_map (Some rx_dev) (Some tx_dev) tx_stream 0 false;;;;
              st_ret (if decide (status = - ENODEV) then 0 else status)
            else st_ret status
    end.

Fixpoint apply_all_rx (rx_dev : Z) (ec_on : bool) (tx_streams : list positive) (status : Z) : M Z :=
  match tx_streams with
  | [] => st_ret status
  | s :: tx_streams =>
      status <-- apply_rx rx_dev ec_on s status;;
      apply_all_rx rx_dev ec_on tx_streams status
  end.

Definition checkandEnableECForRXStream_l (rx_dev : Z) (rx_stream : positive) (ec_on : bool) : M Z :=
  st <-- stream_of rx_stream;;
  match ec_attr st with
  | None => st_ret (- EINVAL)
  | Some _ =>
      w <-- st_gets id;;
      tx_streams_list <-- st_lift (getConcurrentTxStream_l rx_stream rx_dev w);;
      apply_all_rx rx_dev ec_on tx_streams_list 0
  end.

(** ** Voice calls, and the entry point *)

Fixpoint update_voice (d : Z) (tx_devices : list Z) (s : positive) (enable : bool) : M unit :=
  match tx_devices with
  | [] => st_ret tt
  | tx :: tx_devices =>
      (if decide (PAL_DEVICE_IN_MIN < tx < PAL_DEVICE_IN_MAX)
       then update_map (Some d) (Some tx) s (if enable then 1 else 0) false
       else st_ret 0);;;;
      update_voice d tx_devices s enable
  end.

Definition checkandEnableEC_l (d : Z) (s : positive) (enable : bool) : M Z :=
  st <-- stream_of s;;
  match ec_attr st with
  | None => st_ret (- EINVAL)
  | Some sAttr =>
      if bool_decide (type sAttr = PAL_STREAM_PROXY ∨
          type sAttr ∈ [PAL_STREAM_ULTRA_LOW_LATENCY; PAL_STREAM_GENERIC] ∧
          direction sAttr = PAL_AUDIO_INPUT)
      then st_ret 0
      else if decide (direction sAttr = PAL_AUDIO_INPUT)
      then checkandEnableECForTXStream_l d s enable
      else if decide (direction sAttr = PAL_AUDIO_OUTPUT)
      then checkandEnableECForRXStream_l d s enable
      else if decide (direction sAttr = PAL_AUDIO_INPUT_OUTPUT ∧ d < PAL_DEVICE_OUT_MAX) then
        (if decide (type sAttr = PAL_STREAM_VOICE_CALL) then
           status <-- setECRef_l s (Some d) enable;;
           st <-- stream_of s;;
           if bool_decide (status ≠ 0 ∨ ec_devices st = []) then st_ret tt
           else update_voice d (ec_devices st) s enable
         else st_ret tt);;;;
        checkandEnableECForRXStream_l d s enable
      else st_ret 0
  end.

Definition registerDevice_l (d : Z) (s : positive) : M Z := λ w,
  if decide ((d, s) ∈ active_devices w) then Some (- EINVAL, w)
  else Some (0, set_active_devices (active_devices w ++ [(d, s)]) w).

Definition deregisterDevice_l (d : Z) (s : positive) : M Z := λ w,
  if decide ((d, s) ∈ active_devices w)
  then Some (0, set_active_devices (erase_first (d, s) (active_devices w)) w)
  else Some (- ENOENT, w).

(** The ultrasound gain, which both set at their end, is not modelled. *)
Definition registerDevice (d : Z) (s : positive) : M Z :=
  lock_rm;;;;
  ret <-- registerDevice_l d s;;
  (if decide (ret ≠ 0) then st_ret 0 else checkandEnableEC_l d s true);;;;
  unlock_rm;;;;
  st_ret 0.

Definition deregisterDevice (d : Z) (s : positive) : M Z :=
  lock_rm;;;;
  ret <-- deregisterDevice_l d s;;
  (if decide (ret ≠ 0) then st_ret 0 else checkandEnableEC_l d s false);;;;
  unlock_rm;;;;
  st_ret 0.
End calls.
