(* ===== verification/EcRefFacts.v ===== *)
(** * Facts about echo cancellation references

    The counts of [updateECDeviceMap] as counters, the invariant that a capture
    stream has at most one counted reference, which is the one its session uses,
    and the exact meaning of the counts while nothing fails. *)

From S2P Require Import Prelude PalDefs EcRef.

(** ** Vectors of counts *)

Definition vcount (s : positive) (v : list (positive * Z)) : Z :=
  match find_stream s v with Some (_, (_, n)) => n | None => 0 end.

Definition wf_vec (v : list (positive * Z)) : Prop :=
  NoDup v.*1 ∧ Forall (λ p, 0 < p.2) v.

Lemma find_stream_Some s v j p :
  find_stream s v = Some (j, p) →
  ∃ l k, v = l ++ p :: k ∧ length l = j ∧ p.1 = s ∧ s ∉ l.*1.
Proof.
  unfold find_stream. rewrite list_find_Some. intros (Hj&Hp&Hl).
  destruct (list_elem_of_split_length v j p Hj) as (l&k&->&Hlen).
  exists l, k. split; [done|]. split; [done|]. split; [done|].
  rewrite list_elem_of_fmap. intros (q&->&(i&Hi)%list_elem_of_lookup).
  eapply (Hl i q); [|subst; by eapply lookup_lt_Some|done].
  rewrite lookup_app_l; [done|by eapply lookup_lt_Some].
Qed.

Lemma find_stream_None s v : find_stream s v = None ↔ s ∉ v.*1.
Proof.
  unfold find_stream. rewrite list_find_None, Forall_forall, list_elem_of_fmap.
  split; [intros H (p&->&Hp); by eapply H|intros H p Hp <-; apply H; eauto].
Qed.

Lemma vcount_cons s p v : vcount s (p :: v) = if decide (p.1 = s) then p.2 else vcount s v.
Proof.
  unfold vcount, find_stream. simpl. case_decide; [by destruct p|].
  by destruct (list_find _ v) as [[? [??]]|].
Qed.

Lemma vcount_app s l k :
  vcount s (l ++ k) = if decide (s ∈ l.*1) then vcount s l else vcount s k.
Proof.
  induction l as [|p l IH]; simpl; [done|]. rewrite !vcount_cons, IH.
  repeat case_decide; set_solver.
Qed.

Lemma vcount_notin s v : s ∉ v.*1 → vcount s v = 0.
Proof. intros Hs%find_stream_None. unfold vcount. by rewrite Hs. Qed.

Lemma vcount_nonneg s v : wf_vec v → 0 ≤ vcount s v.
Proof.
  intros [_ H]. induction H as [|p v ? _ IH]; [done|]. rewrite vcount_cons.
  case_decide; lia.
Qed.

Lemma vcount_find s v j s' n :
  wf_vec v → find_stream s v = Some (j, (s', n)) → vcount s v = n ∧ 0 < n.
Proof.
  intros [_ Hpos] H. split; [unfold vcount; by rewrite H|].
  apply find_stream_Some in H as (l&k&->&_). apply Forall_app in Hpos as [_ Hpos].
  by inversion_clear Hpos.
Qed.

(** The three updates of a vector. *)
Lemma vcount_delete s v j p :
  wf_vec v → find_stream s v = Some (j, p) →
  wf_vec (delete j v) ∧ ∀ s', vcount s' (delete j v) = if decide (s' = s) then 0 else vcount s' v.
Proof.
  intros [Hnd Hpos] (l&k&->&<-&<-&Hl)%find_stream_Some. rewrite delete_middle.
  rewrite fmap_app, fmap_cons in Hnd. apply Forall_app in Hpos as [??]. split.
  - split; [|apply Forall_app; by (split; [|eapply Forall_inv_tail])].
    rewrite fmap_app. apply NoDup_app in Hnd as (?&?&?%NoDup_cons_1_2).
    apply NoDup_app; set_solver.
  - intros s'. rewrite !vcount_app, vcount_cons. apply NoDup_app in Hnd as (?&?&Hk).
    apply NoDup_cons in Hk as [Hk _].
    destruct (decide (s' = p.1)) as [->|]; repeat case_decide; try done; by apply vcount_notin.
Qed.

Lemma vcount_insert s v j p n :
  0 < n → wf_vec v → find_stream s v = Some (j, p) →
  wf_vec (<[j := (s, n)]> v) ∧
  ∀ s', vcount s' (<[j := (s, n)]> v) = if decide (s' = s) then n else vcount s' v.
Proof.
  intros Hn [Hnd Hpos] (l&k&->&<-&<-&Hl)%find_stream_Some.
  rewrite insert_app_r_alt, Nat.sub_diag by lia. simpl.
  rewrite fmap_app, fmap_cons in Hnd. apply Forall_app in Hpos as [? Hpos].
  inversion_clear Hpos. split.
  - split; [by rewrite fmap_app, fmap_cons|]. apply Forall_app; by (split; [|constructor]).
  - intros s'. rewrite !vcount_app, !vcount_cons. simpl.
    destruct (decide (s' = p.1)) as [->|]; repeat case_decide; congruence.
Qed.

Lemma vcount_snoc s v n :
  0 < n → wf_vec v → s ∉ v.*1 →
  wf_vec (v ++ [(s, n)]) ∧
  ∀ s', vcount s' (v ++ [(s, n)]) = if decide (s' = s) then n else vcount s' v.
Proof.
  intros Hn [Hnd Hpos] Hs. split.
  - split; [|apply Forall_app; repeat constructor; done].
    rewrite fmap_app. apply NoDup_app. split; [done|]. split; [set_solver|apply NoDup_singleton].
  - intros s'. rewrite vcount_app, vcount_cons. simpl.
    destruct (decide (s' = s)) as [->|]; repeat case_decide; try congruence.
    by rewrite (vcount_notin s' v).
Qed.

(** ** Maps of counts *)

Definition mcount (m : gmap Z (list (positive * Z))) (k : Z) (s : positive) : Z :=
  vcount s (counts_of m k).

Definition wf_map (m : gmap Z (list (positive * Z))) : Prop := ∀ k, wf_vec (counts_of m k).

Lemma counts_of_insert m k v k' :
  counts_of (<[k := v]> m) k' = if decide (k = k') then v else counts_of m k'.
Proof. unfold counts_of. rewrite lookup_insert. by case_decide. Qed.

Lemma wf_map_insert m k v : wf_map m → wf_vec v → wf_map (<[k := v]> m).
Proof. intros Hm Hv k'. rewrite counts_of_insert. by case_decide. Qed.

Lemma mcount_insert m k v k' s :
  mcount (<[k := v]> m) k' s = if decide (k = k') then vcount s v else mcount m k' s.
Proof. unfold mcount. rewrite counts_of_insert. by case_decide. Qed.

Lemma elem_of_map_keys {A} (m : gmap Z A) k : k ∈ map_keys m ↔ is_Some (m !! k).
Proof.
  unfold map_keys. rewrite merge_sort_Permutation, elem_of_elements. apply elem_of_dom.
Qed.

Lemma NoDup_map_keys {A} (m : gmap Z A) : NoDup (map_keys m).
Proof. unfold map_keys. rewrite merge_sort_Permutation. apply NoDup_elements. Qed.

Lemma mcount_no_key m k s : k ∉ map_keys m → mcount m k s = 0.
Proof.
  rewrite elem_of_map_keys. intros Hk. unfold mcount, counts_of.
  destruct (m !! k) eqn:E; [by destruct Hk|done].
Qed.

(** The keys a stopping capture stream concerns. *)
Definition targets (rx_dev : option Z) (k : Z) : Prop := rx_dev = None ∨ rx_dev = Some k.
#[export] Instance targets_dec rx_dev k : Decision (targets rx_dev k).
Proof. unfold targets. apply _. Defined.

Lemma mcount_delete m k s j p :
  wf_map m → find_stream s (counts_of m k) = Some (j, p) →
  let m' := <[k := delete j (counts_of m k)]> m in
  wf_map m' ∧
  (∀ k' s', mcount m' k' s' = if decide (s' = s ∧ k' = k) then 0 else mcount m k' s') ∧
  0 < mcount m k s.
Proof.
  intros Hm Hfind m'. destruct (vcount_delete _ _ _ _ (Hm k) Hfind) as [Hwf Hdel].
  destruct p as [s1 n]. destruct (vcount_find _ _ _ _ _ (Hm k) Hfind) as [Hn Hpos].
  split; [by apply wf_map_insert|]. split; [|unfold mcount; by rewrite Hn].
  intros k' s'. unfold m'. rewrite mcount_insert.
  destruct (decide (k = k')) as [<-|]; [rewrite Hdel|]; repeat case_decide; naive_solver.
Qed.

(** The counters after a visit of the keys [ks], and whether the stream had one. *)
Definition loop_result (rx : option Z) (s : positive) (ks : list Z) (found : bool)
    (m : gmap Z (list (positive * Z))) (found' : bool) (m' : gmap Z (list (positive * Z))) : Prop :=
  wf_map m' ∧
  (∀ k s', mcount m' k s' =
     if decide (s' = s ∧ targets rx k ∧ k ∈ ks) then 0 else mcount m k s') ∧
  (found' = true ↔ found = true ∨ ∃ k, k ∈ ks ∧ targets rx k ∧ mcount m k s ≠ 0).

Lemma loop_result_skip rx s k ks found m found' m' :
  ¬ (targets rx k ∧ mcount m k s ≠ 0) →
  loop_result rx s ks found m found' m' → loop_result rx s (k :: ks) found m found' m'.
Proof.
  intros Hk (Hm&Hc&Hf). split; [done|]. split.
  - intros k' s'. rewrite Hc. destruct (decide (k' = k ∧ s' = s)) as [[-> ->]|Hne].
    + destruct (decide (targets rx k)).
      * rewrite (decide_True (P := _ ∧ _ ∧ k ∈ k :: _)) by (rewrite elem_of_cons; auto).
        case_decide; [done|]. destruct (decide (mcount m k s = 0)); tauto.
      * by rewrite !decide_False by tauto.
    + apply decide_ext. rewrite elem_of_cons. naive_solver.
  - rewrite Hf. setoid_rewrite elem_of_cons. split; [intros [?|(k'&?&?)]; eauto 6|].
    intros [?|(k'&[->|?]&?&?)]; [by left|tauto|eauto 6].
Qed.

Lemma loop_result_hit rx s k ks found m m1 found' m' :
  targets rx k → mcount m k s ≠ 0 →
  (∀ k' s', mcount m1 k' s' = if decide (s' = s ∧ k' = k) then 0 else mcount m k' s') →
  loop_result rx s ks true m1 found' m' → loop_result rx s (k :: ks) found m found' m'.
Proof.
  intros Ht Hne H1 (Hm&Hc&Hf). split; [done|]. split.
  - intros k' s'. rewrite Hc, H1. destruct (decide (k' = k ∧ s' = s)) as [[-> ->]|Hk].
    + rewrite (decide_True (P := s = s ∧ k = k)) by done.
      rewrite (decide_True (P := _ ∧ _ ∧ k ∈ k :: _)) by (rewrite elem_of_cons; auto).
      by case_decide.
    + rewrite (decide_False (P := s' = s ∧ k' = k)) by tauto.
      apply decide_ext. rewrite elem_of_cons. naive_solver.
  - rewrite Hf. split; [intros _; right|by left]. exists k. rewrite elem_of_cons. auto.
Qed.

Lemma loop_result_done rx s k ks found m m1 :
  rx = Some k → k ∉ ks → wf_map m1 → mcount m k s ≠ 0 →
  (∀ k' s', mcount m1 k' s' = if decide (s' = s ∧ k' = k) then 0 else mcount m k' s') →
  loop_result rx s (k :: ks) found m true m1.
Proof.
  intros -> Hk ? Hne H1. eapply loop_result_hit; [by right|done|done|].
  split; [done|]. split; [|by split; auto]. intros k' s'. rewrite decide_False; [done|].
  intros (_&[|[= ->]]&?); done.
Qed.

Lemma txstop_loop_spec rx s ks k0 found m :
  NoDup ks → wf_map m → (found = true → rx = None) →
  let r := txstop_loop rx s ks k0 found m in loop_result rx s ks found m r.1.2 r.2.
Proof.
  revert k0 found m. induction ks as [|k ks IH]; intros k0 found m Hnd Hm Hf; simpl.
  { split; [done|]. split; [intros; rewrite decide_False; [done|by intros (_&_&?%not_elem_of_nil)]|].
    split; [auto|by intros [|(?&?%not_elem_of_nil&_)]]. }
  apply NoDup_cons in Hnd as [Hk Hnd]. case_bool_decide as Hskip.
  { apply loop_result_skip; [|by apply IH]. intros [[->| ->] _]; [by destruct Hskip as [[] _]|tauto]. }
  assert (Ht : targets rx k).
  { destruct rx as [x|]; [right|by left]. destruct (decide (x = k)); [by subst|].
    destruct Hskip. split; [by eexists|congruence]. }
  destruct (find_stream s (counts_of m k)) as [[j p]|] eqn:Hfind.
  - destruct (mcount_delete _ _ _ _ _ Hm Hfind) as (Hm'&Hc'&Hpos). simpl.
    case_bool_decide as Hrx.
    + destruct Hrx as [x ->]. destruct Ht as [|[= ->]]; [done|].
      apply loop_result_done; [done|done|done|lia|done].
    + eapply loop_result_hit; [done|lia|done|]. apply IH; [done|done|].
      intros _. destruct rx; [by destruct Hrx|done].
  - apply find_stream_None, vcount_notin in Hfind.
    destruct (found && bool_decide (is_Some rx)) eqn:Hb.
    { apply andb_true_iff in Hb as [Hft Hrx%bool_decide_eq_true].
      rewrite Hf in Hrx by done. by destruct Hrx. }
    apply loop_result_skip; [by intros [_ []]|by apply IH].
Qed.

(** A capture stream stops. *)
Lemma update_counts_stop rx s m :
  wf_map m →
  let r := update_counts rx s 0 true m in
  wf_map r.2 ∧
  (∀ k s', mcount r.2 k s' = if decide (s' = s ∧ targets rx k) then 0 else mcount m k s') ∧
  (r.1 = 0 ∧ (∃ k, targets rx k ∧ mcount m k s ≠ 0) ∨
   r.1 = - EINVAL ∧ ∀ k, targets rx k → mcount m k s = 0).
Proof.
  intros Hm. unfold update_counts.
  destruct (txstop_loop_spec rx s (map_keys m) 0 false m) as (Hwf&Hc&Hf);
    [apply NoDup_map_keys|done|done|].
  destruct (txstop_loop rx s (map_keys m) 0 false m) as [[k0 found] m']. simpl in Hwf, Hc, Hf.
  assert (Hc' : ∀ k s', mcount m' k s' =
    if decide (s' = s ∧ targets rx k) then 0 else mcount m k s').
  { intros k s'. rewrite Hc. do 2 case_decide; try tauto.
    destruct (decide (k ∈ map_keys m)); [tauto|by apply mcount_no_key]. }
  destruct found; simpl; (split; [done|]); (split; [done|]).
  - left. split; [done|]. destruct Hf as [Hf _]. destruct (Hf eq_refl) as [|(k&?&?&?)]; [done|eauto].
  - right. split; [done|]. intros k Ht. destruct (decide (mcount m k s = 0)) as [|Hne]; [done|].
    destruct Hf as [_ Hf]. assert (false = true); [|done]. apply Hf. right. exists k.
    split; [|done]. destruct (decide (k ∈ map_keys m)); [done|].
    by destruct Hne; apply mcount_no_key.
Qed.

(** A playback stream starts ([count > 0]) or stops; the vector of the device. *)
Definition next_count (count n : Z) : Z := if decide (0 < count) then n + count else n - 1.

Lemma update_counts_vector k s count m :
  wf_map m → 0 ≤ count →
  ∃ v, (update_counts (Some k) s count false m).2 = <[k := v]> (<[k := counts_of m k]> m) ∧
    wf_vec v ∧
    (∀ s', vcount s' v = if decide (s' = s ∧ (0 < count ∨ mcount m k s ≠ 0))
                         then next_count count (mcount m k s) else mcount m k s') ∧
    (update_counts (Some k) s count false m).1 =
      if decide (count = 0 ∧ mcount m k s = 0) then - EINVAL
      else next_count count (mcount m k s).
Proof.
  intros Hm Hcount. unfold update_counts, mcount, next_count. simpl.
  set (v := counts_of m k). pose proof (Hm k : wf_vec v) as Hv.
  destruct (find_stream s v) as [[j [s1 n]]|] eqn:Hfind.
  - destruct (vcount_find _ _ _ _ _ Hv Hfind) as [Hn Hpos]. rewrite Hn.
    destruct (decide (0 < count)).
    + destruct (vcount_insert s v j _ (n + count) ltac:(lia) Hv Hfind) as [? Hi].
      eexists. split; [done|]. split; [done|]. split; [|by rewrite decide_False by lia].
      intros s'. rewrite Hi. do 2 case_decide; first [done|lia].
    + rewrite (decide_True (P := count = 0)), (decide_True (P := 0 < n)) by lia.
      case_decide as Hone; simpl.
      * destruct (vcount_delete s v j _ Hv Hfind) as [? Hd].
        eexists. split; [done|]. split; [done|]. split; [|rewrite decide_False; lia].
        intros s'. rewrite Hd. do 2 case_decide; first [done|lia].
      * destruct (vcount_insert s v j _ (n - 1) ltac:(lia) Hv Hfind) as [? Hi].
        eexists. split; [done|]. split; [done|]. split; [|rewrite decide_False; lia].
        intros s'. rewrite Hi. do 2 case_decide; first [done|lia].
  - apply find_stream_None in Hfind. rewrite (vcount_notin s v) by done.
    destruct (decide (count = 0)) as [->|]; simpl.
    + exists v. rewrite insert_insert_eq. split; [done|]. split; [done|]. split; [|done].
      intros s'. rewrite decide_False; [done|lia].
    + rewrite (decide_True (P := 0 < count)) by lia. simpl. rewrite counts_of_insert, decide_True by done.
      destruct (vcount_snoc s v count) as [? Hi]; [lia|done..|].
      eexists. split; [done|]. split; [done|]. rewrite (decide_False (P := count = 0 ∧ _)) by lia.
      rewrite decide_True by lia. split; [|lia]. intros s'. rewrite Hi.
      case_decide; [by rewrite decide_True by lia|]. rewrite decide_False; tauto.
Qed.

Lemma update_counts_play k s count m :
  wf_map m → 0 ≤ count →
  let r := update_counts (Some k) s count false m in
  wf_map r.2 ∧
  (∀ k' s', mcount r.2 k' s' =
     if decide (s' = s ∧ k' = k ∧ (0 < count ∨ mcount m k s ≠ 0))
     then next_count count (mcount m k s) else mcount m k' s') ∧
  r.1 = if decide (count = 0 ∧ mcount m k s = 0) then - EINVAL
        else next_count count (mcount m k s).
Proof.
  intros Hm Hcount. destruct (update_counts_vector k s count m) as (v&Hv&?&Hc&Hr); [done..|].
  cbn zeta. rewrite Hv, Hr. split; [|split; [|done]].
  - apply wf_map_insert; [by apply wf_map_insert|done].
  - intros k' s'. rewrite !mcount_insert. destruct (decide (k = k')) as [<-|].
    + rewrite Hc. apply decide_ext. naive_solver.
    + rewrite decide_False; [done|]. naive_solver.
Qed.

(** ** Counters of the resource manager *)

Definition find_device (t : Z) (l : list deviceIn) : option (nat * deviceIn) :=
  list_find (λ d, deviceId d = t) l.

Definition ec_count (l : list deviceIn) (t k : Z) (s : positive) : Z :=
  match find_device t l with Some (_, d) => mcount (ec_ref_count_map d) k s | None => 0 end.

Definition ec_wf (l : list deviceIn) : Prop := Forall (λ d, wf_map (ec_ref_count_map d)) l.

Definition config_of (l : list deviceIn) : list deviceIn := set_ec_ref_count_map ∅ <$> l.

Lemma find_device_elem t l i d : find_device t l = Some (i, d) → d ∈ l ∧ deviceId d = t.
Proof. intros (?&?&_)%list_find_Some. split; [by eapply list_elem_of_lookup_2|done]. Qed.

Lemma ec_wf_find t l i d : ec_wf l → find_device t l = Some (i, d) → wf_map (ec_ref_count_map d).
Proof. intros Hl [??]%find_device_elem. by eapply Forall_forall in Hl. Qed.

Lemma ec_count_nonneg l t k s : ec_wf l → 0 ≤ ec_count l t k s.
Proof.
  intros Hl. unfold ec_count. destruct (find_device t l) as [[i d]|] eqn:E; [|done].
  eapply vcount_nonneg, ec_wf_find; done.
Qed.

Lemma ec_count_update t l i d m t' k s :
  find_device t l = Some (i, d) →
  ec_count (<[i := set_ec_ref_count_map m d]> l) t' k s =
    if decide (t' = t) then mcount m k s else ec_count l t' k s.
Proof.
  unfold ec_count, find_device. revert i.
  induction l as [|d' l IH]; intros i; simpl; [done|]. destruct (decide (deviceId d' = t)) as [Ht|Ht].
  - intros [= <- <-]. simpl. destruct (decide (t' = t)) as [->|]; [by rewrite decide_True|].
    by rewrite !decide_False by congruence.
  - destruct (list_find _ l) as [[j d1]|]; [|done]. intros [= <- <-]. simpl.
    specialize (IH j eq_refl). destruct (decide (t' = t)) as [->|].
    + rewrite decide_False by done. by destruct (list_find _ (<[j:=_]> l)) as [[]|].
    + case_decide; [done|]. destruct (list_find _ (<[j:=_]> l)) as [[]|];
        by destruct (list_find _ l) as [[]|].
Qed.

Lemma config_of_update t l i d m :
  find_device t l = Some (i, d) → config_of (<[i := set_ec_ref_count_map m d]> l) = config_of l.
Proof.
  intros (Hi&_)%list_find_Some. unfold config_of. rewrite list_fmap_insert.
  apply list_insert_id. rewrite list_lookup_fmap, Hi. by destruct d.
Qed.

Lemma ec_wf_update t l i d m :
  ec_wf l → find_device t l = Some (i, d) → wf_map m →
  ec_wf (<[i := set_ec_ref_count_map m d]> l).
Proof. intros. by apply Forall_insert. Qed.

(** The references a call concerns. *)
Definition concerned (rx_dev : option Z) (is_txstop : bool) (k : Z) : Prop :=
  rx_dev = Some k ∨ rx_dev = None ∧ is_txstop = true.
#[export] Instance concerned_dec rx_dev stop k : Decision (concerned rx_dev stop k).
Proof. unfold concerned. apply _. Defined.

(** A capture stream stops: its counts go. *)
Lemma update_stop rx t s l :
  ec_wf l →
  let r := updateECDeviceMap rx (Some t) s 0 true l in
  ec_wf r.2 ∧ config_of r.2 = config_of l ∧
  (∀ t' k s', ec_count r.2 t' k s' =
     if decide (t' = t ∧ s' = s ∧ targets rx k) then 0 else ec_count l t' k s') ∧
  (r.1 = 0 ∧ (∃ k, targets rx k ∧ ec_count l t k s ≠ 0) ∨
   r.1 = - EINVAL ∧ ∀ k, targets rx k → ec_count l t k s = 0).
Proof.
  intros Hl. unfold updateECDeviceMap. rewrite andb_false_r.
  change (list_find _ l) with (find_device t l).
  destruct (find_device t l) as [[i d]|] eqn:E.
  - destruct (update_counts_stop rx s (ec_ref_count_map d)) as (Hwf&Hc&Hr);
      [by eapply ec_wf_find|].
    destruct (update_counts rx s 0 true (ec_ref_count_map d)) as [rc m]. simpl in *.
    assert (Ht : ∀ k, ec_count l t k s = mcount (ec_ref_count_map d) k s)
      by (intros k; unfold ec_count; by rewrite E).
    split; [by eapply ec_wf_update|]. split; [by eapply config_of_update|]. split.
    + intros t' k s'. erewrite ec_count_update by done.
      destruct (decide (t' = t)) as [->|]; [|rewrite decide_False; naive_solver].
      rewrite Hc. unfold ec_count. rewrite E. apply decide_ext. tauto.
    + by setoid_rewrite Ht.
  - assert (Ht : ∀ k s, ec_count l t k s = 0) by (intros; unfold ec_count; by rewrite E).
    split; [done|]. split; [done|]. split; [|right; by split].
    intros t' k s'. case_decide as Hd; [|done]. destruct Hd as (->&_). apply Ht.
Qed.

(** A playback stream starts or stops. *)
Lemma update_play k t s count l :
  ec_wf l → 0 ≤ count → is_Some (find_device t l) →
  let r := updateECDeviceMap (Some k) (Some t) s count false l in
  ec_wf r.2 ∧ config_of r.2 = config_of l ∧
  (∀ t' k' s', ec_count r.2 t' k' s' =
     if decide (t' = t ∧ s' = s ∧ k' = k ∧ (0 < count ∨ ec_count l t k s ≠ 0))
     then next_count count (ec_count l t k s) else ec_count l t' k' s') ∧
  r.1 = if decide (count = 0 ∧ ec_count l t k s = 0) then - EINVAL
        else next_count count (ec_count l t k s).
Proof.
  intros Hl Hcount [[i d] E]. unfold updateECDeviceMap. rewrite bool_decide_eq_false_2 by done.
  change (list_find _ l) with (find_device t l). rewrite E. cbn [andb].
  destruct (update_counts_play k s count (ec_ref_count_map d)) as (Hwf&Hc&Hr);
    [by eapply ec_wf_find|done|].
  destruct (update_counts (Some k) s count false (ec_ref_count_map d)) as [rc m]. simpl in *.
  assert (Ht : ec_count l t k s = mcount (ec_ref_count_map d) k s)
    by (unfold ec_count; by rewrite E).
  rewrite Ht. split; [by eapply ec_wf_update|]. split; [by eapply config_of_update|].
  split; [|done]. intros t' k' s'. erewrite ec_count_update by done.
  destruct (decide (t' = t)) as [->|]; [|rewrite decide_False; naive_solver].
  rewrite Hc. unfold ec_count. rewrite E. apply decide_ext. tauto.
Qed.

(** A call without a known capture device, or without a playback device. *)
Lemma update_refused rx tx s count stop l :
  tx = None ∨ (rx = None ∧ stop = false) ∨ (∃ t, tx = Some t ∧ find_device t l = None) →
  updateECDeviceMap rx tx s count stop l = (- EINVAL, l).
Proof.
  unfold updateECDeviceMap. destruct tx as [t|]; [|done].
  intros [|[[-> ->]|(t'&[= <-]&Hf)]]; [done|done|]. destruct (_ && _); [done|].
  unfold find_device in Hf. by rewrite Hf.
Qed.

(** C29: The reference counts are counters.  On a well-formed table (every stream at most
    once per vector, counts positive), [updateECDeviceMap] keeps the table well formed and
    its configuration, and changes exactly the counter of the capture device, playback
    device and stream it is called for: a start adds, a stop subtracts one, the stop of a
    capture stream zeroes its counters (all of them when no playback device is given).  It
    returns the new count, 0 for a stopped capture stream, or [-EINVAL] when the devices are
    missing or unknown or there is no count to reset. *)
Theorem updateECDeviceMap_counters rx tx s count stop l
    (Hl : ec_wf l) (Hcount : 0 ≤ count) (Hstop : stop = true → count = 0) :
  let r := updateECDeviceMap rx tx s count stop l in
  ec_wf r.2 ∧ config_of r.2 = config_of l ∧
  (∀ t k s', ec_count r.2 t k s' =
     if decide (tx = Some t ∧ is_Some (find_device t l) ∧ concerned rx stop k ∧ s' = s)
     then if stop then 0 else if decide (0 < count) then ec_count l t k s + count
          else Z.max 0 (ec_count l t k s - 1)
     else ec_count l t k s') ∧
  (r.1 = - EINVAL ∧
     (∀ t k, tx = Some t → is_Some (find_device t l) → concerned rx stop k →
        count = 0 ∧ ec_count l t k s = 0) ∨
   ∃ t k, tx = Some t ∧ concerned rx stop k ∧ r.1 = ec_count r.2 t k s ∧
     (0 < count ∨ ec_count l t k s ≠ 0)).
Proof.
  cbn zeta. destruct tx as [t|].
  2: { rewrite update_refused by auto. split; [done|]. split; [done|].
       split; [|left; split; naive_solver]. intros. rewrite decide_False; naive_solver. }
  destruct (find_device t l) as [[i d]|] eqn:E.
  2: { rewrite update_refused by eauto. split; [done|]. split; [done|]. split.
       - intros. rewrite decide_False; [done|]. intros ([= <-]&[? ?]&_). congruence.
       - left. split; [done|]. intros t' k [= <-] [? ?]. congruence. }
  destruct stop.
  - rewrite Hstop by done. destruct (update_stop rx t s l Hl) as (?&?&Hc&Hr).
    assert (Ht : ∀ k, concerned rx true k ↔ targets rx k) by (unfold concerned, targets; naive_solver).
    split; [done|]. split; [done|]. split.
    + intros t' k s'. rewrite Hc. do 2 case_decide; try done; exfalso; naive_solver.
    + destruct Hr as [(->&k&?&?)|[-> Hz]].
      * right. exists t, k. rewrite Hc, decide_True by done. naive_solver.
      * left. split; [done|]. intros t' k [= <-] _ ?%Ht. naive_solver.
  - destruct rx as [k|].
    2: { rewrite update_refused by auto. split; [done|]. split; [done|].
         split; [|left; split; [done|]; intros ? ? _ _ [|[_ ]]; done].
         intros. rewrite decide_False; [done|]. intros (_&_&[|[_ ]]&_); done. }
    destruct (update_play k t s count l Hl Hcount) as (?&?&Hc&Hr); [by eexists|].
    assert (Ht : ∀ k', concerned (Some k) false k' ↔ k' = k) by (unfold concerned; naive_solver).
    pose proof (ec_count_nonneg l t k s Hl).
    split; [done|]. split; [done|]. split.
    + intros t' k' s'. rewrite Hc. unfold next_count.
      destruct (decide (t' = t ∧ s' = s ∧ k' = k)) as [(->&->&->)|].
      * rewrite (decide_True (P := Some t = Some t ∧ _)) by (rewrite E; naive_solver).
        repeat case_decide; naive_solver lia.
      * rewrite !decide_False; [done| |]; naive_solver.
    + rewrite Hr. case_decide as Hd.
      * left. split; [done|]. intros t' k' [= <-] _ ->%Ht. done.
      * right. exists t, k. rewrite Hc, decide_True by naive_solver lia. naive_solver lia.
Qed.

(** ** Worlds *)

#[local] Arguments updateECDeviceMap : simpl never.

Definition capture (st : EcStream) : Prop :=
  ∃ a, ec_attr st = Some a ∧ direction a = PAL_AUDIO_INPUT.

Definition ec_ref_of (st : EcStream) : option Z :=
  match ec_session st with Some (SessionAlsaPcm d _) => Some d | _ => None end.

Definition pcm_of (st : EcStream) : option Z :=
  match ec_session st with Some (SessionAlsaPcm _ ids) => head ids | _ => None end.

(** What the calls about references leave as it is. *)
Definition static (w : EcWorld) :=
  (config_of (deviceInfo w), active_devices w, mActiveStreams w, activeStreamMap w,
   set_ec_session None <$> ec_streams w, pcm_of <$> ec_streams w).

Definition internal (l : list deviceIn) : Prop :=
  Forall (λ d, di_isExternalECRefEnabled d = false) l.

Lemma internal_config l l' : config_of l = config_of l' → internal l → internal l'.
Proof.
  unfold config_of, internal. revert l'. induction l as [|d l IH]; intros [|d' l']; try done.
  simpl. intros [= ????? Hl] [? ?]%Forall_cons. constructor; [congruence|by apply IH].
Qed.

Lemma internal_not_external k l : internal l → isExternalECRefEnabled k l = false.
Proof.
  intros Hl. unfold isExternalECRefEnabled, first_with.
  destruct (list_find _ l) as [[i d]|] eqn:E; simpl; [|done].
  apply list_find_Some in E as (Hd&_). eapply Forall_lookup_1 in Hl; [|done]. done.
Qed.

Lemma internal_info k l : internal l → device_info_external k l = false.
Proof. intros. apply internal_not_external. by apply Forall_reverse. Qed.

Section references.
Context `{EcEnv}.

Definition no_failure : Prop := ∀ n, mixer_result n = 0.

(** The mixer control of the session's PCM device carries the session's reference. *)
Definition path_ok (w : EcWorld) (s : positive) : Prop :=
  ∀ st d p, ec_streams w !! s = Some st → ec_ref_of st = Some d → pcm_of st = Some p →
    if decide (d = PAL_DEVICE_OUT_MIN)
    then echoReference w !! p ∈ [None; Some "ZERO"]
    else echoReference w !! p = Some (backend_name d).

Lemma set_path_wp ids name w :
  (∀ n, mixer_result n ≠ - ENODEV) →
  st_wp (set_path ids name) (λ rc w', ∃ n e, w' = set_mixer_calls n (set_echoReference e w) ∧
    rc ≠ - ENODEV ∧
    (∀ p, head ids ≠ Some p → e !! p = echoReference w !! p) ∧
    (rc = 0 → ∀ p, head ids = Some p → e !! p = Some name) ∧
    (no_failure → is_Some (head ids) → rc = 0)) w.
Proof.
  intros Hdev. destruct ids as [|p ids]; simpl.
  - apply st_wp_ret. exists (mixer_calls w), (echoReference w). split; [by destruct w|].
    split; [done|]. split; [done|]. split; [done|]. by intros _ [].
  - unfold st_wp, setECRefPath. destruct (decide (mixer_result (mixer_calls w) = 0)) as [E|E].
    + do 2 eexists. split; [done|]. do 2 eexists. split; [done|]. split; [done|]. split.
      * intros p' ?. by rewrite lookup_insert_ne by congruence.
      * split; [|done]. intros _ p' [= <-]. by rewrite lookup_insert_eq.
    + do 2 eexists. split; [done|]. exists (S (mixer_calls w)), (echoReference w).
      split; [by destruct w|]. split; [done|]. split; [done|]. split; [done|].
      intros Hnf. by rewrite Hnf in E.
Qed.

Lemma st_wp_update_map rx tx s count stop (Q : Z → EcWorld → Prop) w :
  (let r := updateECDeviceMap rx tx s count stop (deviceInfo w) in
   Q r.1 (set_deviceInfo r.2 w)) →
  st_wp (update_map rx tx s count stop) Q w.
Proof.
  intros HQ. unfold st_wp, update_map. destruct (updateECDeviceMap _ _ _ _ _ _) as [rc l].
  eauto.
Qed.

Lemma st_wp_lock (Q : unit → EcWorld → Prop) w :
  rm_locked w = false → Q tt (set_rm_locked true w) → st_wp lock_rm Q w.
Proof. intros Hl ?. unfold st_wp, lock_rm. rewrite Hl. eauto. Qed.

Lemma st_wp_unlock (Q : unit → EcWorld → Prop) w :
  rm_locked w = true → Q tt (set_rm_locked false w) → st_wp unlock_rm Q w.
Proof. intros Hl ?. unfold st_wp, unlock_rm. rewrite Hl. eauto. Qed.

Lemma st_wp_stream_of s st (Q : EcStream → EcWorld → Prop) w :
  ec_streams w !! s = Some st → Q st w → st_wp (stream_of s) Q w.
Proof. intros Hs ?. unfold st_wp, stream_of. rewrite Hs. eauto. Qed.

(** ** The session of a capture stream *)

(** A call about the reference of one stream: the counts, the stream's session and
    the mixer may change. *)
Definition moved (w : EcWorld) (l : list deviceIn) (str : gmap positive EcStream)
    (e : gmap Z string) (n : nat) : EcWorld :=
  mkEc l (active_devices w) (mActiveStreams w) (activeStreamMap w) str e n (rm_locked w).

(** The counts after a capture stream of device [t] gave up its former reference. *)
Definition forgotten (st : EcStream) (t k : Z) (s : positive) (l : list deviceIn) :=
  match ec_ref_of st with
  | Some old =>
      if decide (old ≠ PAL_DEVICE_OUT_MIN ∧ old ≠ k)
      then (updateECDeviceMap (Some old) (Some t) s 0 true l).2 else l
  | None => l
  end.

Context (Hdev : ∀ n, mixer_result n ≠ - ENODEV).

Lemma pcm_enable_wp s old ids t k w :
  internal (deviceInfo w) → rm_locked w = false →
  st_wp (pcm_enable s old ids [t] k false) (λ rc w', ∃ n e,
    w' = moved w (if decide (old ≠ PAL_DEVICE_OUT_MIN ∧ old ≠ k)
                  then (updateECDeviceMap (Some old) (Some t) s 0 true (deviceInfo w)).2
                  else deviceInfo w) (ec_streams w) e n ∧
    rc ≠ - ENODEV ∧
    (∀ p, head ids ≠ Some p → e !! p = echoReference w !! p) ∧
    (rc = 0 → (old = k ∧ e = echoReference w) ∨ ∀ p, head ids = Some p → e !! p = Some (backend_name k)) ∧
    (no_failure → is_Some (head ids) → rc = 0)) w.
Proof using Hdev.
  intros Hint Hlock. unfold pcm_enable. apply st_wp_bind, st_wp_gets.
  destruct (decide (old = k)) as [->|Hk].
  { apply st_wp_ret. exists (mixer_calls w), (echoReference w).
    rewrite decide_False by tauto. split; [by destruct w|]. repeat split; auto. }
  rewrite internal_not_external, andb_false_r by done.
  case_bool_decide as Hold.
  - rewrite decide_True by done. apply st_wp_bind. unfold forget_reference, updateECDeviceMap_l.
    do 3 apply st_wp_bind. apply st_wp_lock; [done|]. apply st_wp_bind, st_wp_update_map.
    cbn zeta. change (deviceInfo (set_rm_locked true w)) with (deviceInfo w).
    generalize (updateECDeviceMap (Some old) (Some t) s 0 true (deviceInfo w)). intros [rc l]. simpl.
    apply st_wp_bind, st_wp_unlock; [done|]. do 2 apply st_wp_ret.
    eapply st_wp_mono; [by apply set_path_wp|]. simpl.
    intros rc1 w1 (n1&e1&->&Hrc1&He1&Hz1&Hnf1). destruct (decide (rc1 = 0)) as [->|Hne];
      [simpl|rewrite (decide_True (P := rc1 ≠ 0)) by done].
    + eapply st_wp_mono; [by apply set_path_wp|]. simpl.
      intros rc2 w2 (n2&e2&->&Hrc2&He2&Hz2&Hnf2). exists n2, e2.
      split; [unfold moved; by rewrite Hlock|]. split; [done|]. split; [|split; auto].
      intros p Hp. by rewrite He2, He1.
    + apply st_wp_ret. exists n1, e1. split; [unfold moved; by rewrite Hlock|].
      split; [done|]. split; [done|]. split; [done|]. intros Hnf Hh. by destruct Hne; auto.
  - rewrite decide_False by tauto. apply st_wp_bind, st_wp_ret. simpl.
    eapply st_wp_mono; [by apply set_path_wp|]. simpl.
    intros rc1 w1 (n1&e1&->&Hrc1&He1&Hz1&Hnf1). exists n1, e1. split; [by destruct w|]. repeat split; auto.
Qed.

Lemma alter_insert_at (f : EcStream → EcStream) s (m : gmap positive EcStream) st :
  m !! s = Some st → alter f s m = <[s := f st]> m.
Proof.
  intros Hs. apply map_eq. intros s'. destruct (decide (s' = s)) as [->|].
  - by rewrite lookup_alter_eq, lookup_insert_eq, Hs.
  - by rewrite lookup_alter_ne, lookup_insert_ne.
Qed.

(** [setECRef_l] on: the former reference is forgotten; on success the session has the new
    one, else the one before. *)
Lemma setECRef_enable_wp s st t k w :
  ec_streams w !! s = Some st → capture st → ec_session st ≠ Some SessionAlsaVoice →
  ec_devices st = [t] → internal (deviceInfo w) → rm_locked w = false →
  st_wp (setECRef_l s (Some k) true) (λ rc w', ∃ n e o,
    w' = moved w (forgotten st t k s (deviceInfo w))
           (<[s := set_ec_session o st]> (ec_streams w)) e n ∧
    o ≠ Some SessionAlsaVoice ∧
    rc ≠ - ENODEV ∧ pcm_of (set_ec_session o st) = pcm_of st ∧
    ec_ref_of (set_ec_session o st) = (if decide (rc = 0) then Some k else ec_ref_of st) ∧
    (∀ p, pcm_of st ≠ Some p → e !! p = echoReference w !! p) ∧
    (rc = 0 → (ec_ref_of st = Some k ∧ e = echoReference w) ∨
      ∀ p, pcm_of st = Some p → e !! p = Some (backend_name k)) ∧
    (no_failure → is_Some (pcm_of st) → rc = 0)) w.
Proof using Hdev.
  intros Hs (a&Ha&Hdir) Hv Hdevs Hint Hlock. unfold setECRef_l, forgotten, pcm_of, ec_ref_of.
  apply st_wp_bind. eapply st_wp_stream_of; [done|].
  assert (Hid : ∀ l : gmap positive EcStream, <[s := set_ec_session (ec_session st) st]> l = <[s := st]> l)
    by (intros; by destruct st).
  destruct (ec_session st) as [[old ids|]|] eqn:E; [|done|].
  2: { apply st_wp_ret. exists (mixer_calls w), (echoReference w), None. simpl.
       rewrite Hid, insert_id by done. split; [by destruct w|]. split; [done|]. split; [done|]. split; [done|].
       split; [done|]. split; [done|]. split; [done|]. by intros _ []. }
  unfold SessionAlsaPcm_setECRef. apply st_wp_bind. eapply st_wp_stream_of; [done|].
  rewrite Ha, E, decide_False by congruence. cbn [negb andb].
  apply st_wp_bind, st_wp_gets. rewrite internal_info by done. apply st_wp_bind.
  rewrite Hdevs. eapply st_wp_mono; [by apply pcm_enable_wp|]. simpl.
  intros rc w' (n&e&->&Hrc&He&Hz&Hnf). destruct (decide (rc = 0)) as [->|Hne];
    [simpl|rewrite (decide_True (P := rc ≠ 0)) by done].
  - apply st_wp_bind. eapply st_wp_stream_of; [done|]. rewrite E.
    apply st_wp_bind, st_wp_modify, st_wp_ret.
    exists n, e, (Some (SessionAlsaPcm k ids)). simpl. split.
    { unfold set_ec_streams, moved. simpl. by rewrite (alter_insert_at _ _ _ _ Hs). }
    split; [done|]. split; [done|]. split; [done|]. split; [done|]. split; [done|]. split; [|done].
    intros ?. destruct Hz as [[-> ?]|?]; auto.
  - apply st_wp_ret. exists n, e, (Some (SessionAlsaPcm old ids)). simpl.
    rewrite Hid, insert_id by done. split; [done|]. split; [done|]. split; [done|]. split; [done|].
    split; [by rewrite decide_False|]. split; [done|]. split; [done|done].
Qed.

(** [setECRef_l] off, which leaves the counts to its callers. *)
Lemma setECRef_disable_wp s st dev w :
  ec_streams w !! s = Some st → capture st → ec_session st ≠ Some SessionAlsaVoice →
  internal (deviceInfo w) →
  st_wp (setECRef_l s dev false) (λ rc w', ∃ n e o,
    w' = moved w (deviceInfo w) (<[s := set_ec_session o st]> (ec_streams w)) e n ∧
    o ≠ Some SessionAlsaVoice ∧
    pcm_of (set_ec_session o st) = pcm_of st ∧
    ec_ref_of (set_ec_session o st) =
      (if decide (rc = 0) then Some PAL_DEVICE_OUT_MIN else ec_ref_of st) ∧
    (∀ p, pcm_of st ≠ Some p → e !! p = echoReference w !! p) ∧
    (rc = 0 → (ec_ref_of st = Some PAL_DEVICE_OUT_MIN ∧ e = echoReference w) ∨
      ∀ p, pcm_of st = Some p → e !! p = Some "ZERO") ∧
    (no_failure → is_Some (pcm_of st) → dev = None ∨ dev = ec_ref_of st → rc = 0)) w.
Proof using Hdev.
  intros Hs (a&Ha&Hdir) Hv Hint. unfold setECRef_l, pcm_of, ec_ref_of.
  apply st_wp_bind. eapply st_wp_stream_of; [done|].
  assert (Hid : ∀ l : gmap positive EcStream,
    <[s := set_ec_session (ec_session st) st]> l = <[s := st]> l) by (intros; by destruct st).
  destruct (ec_session st) as [[old ids|]|] eqn:E; [|done|].
  2: { apply st_wp_ret. exists (mixer_calls w), (echoReference w), None. simpl.
       rewrite Hid, insert_id by done. split; [by destruct w|]. split; [done|]. split; [done|]. split; [done|].
       split; [done|]. split; [done|]. by intros _ []. }
  unfold SessionAlsaPcm_setECRef. apply st_wp_bind. eapply st_wp_stream_of; [done|].
  rewrite Ha, E, decide_False by congruence. cbn [negb andb].
  apply st_wp_bind, st_wp_gets.
  match goal with |- context [pcm_disable s old ids ?d _] => set (rx := d) end.
  match goal with |- context [pcm_disable s old ids rx ?b] => replace b with false end.
  2: { destruct rx; [by rewrite internal_info|done]. }
  apply st_wp_bind. eapply (st_wp_mono _ (λ rc w', ∃ n e,
    w' = moved w (deviceInfo w) (ec_streams w) e n ∧
    (∀ p, head ids ≠ Some p → e !! p = echoReference w !! p) ∧
    (rc = 0 → (old = PAL_DEVICE_OUT_MIN ∧ e = echoReference w) ∨
      ∀ p, head ids = Some p → e !! p = Some "ZERO") ∧
    (no_failure → is_Some (head ids) → dev = None ∨ dev = Some old → rc = 0))).
  { unfold pcm_disable. destruct (decide (old = _)) as [->|Hold].
    { apply st_wp_ret. exists (mixer_calls w), (echoReference w).
      split; [by destruct w|]. repeat split; auto. }
    case_bool_decide as Hrx.
    { apply st_wp_ret. exists (mixer_calls w), (echoReference w). split; [by destruct w|].
      split; [done|]. split; [done|]. intros _ _ Hd. destruct Hrx as [_ []]. unfold rx.
      destruct Hd as [->| ->]; [by rewrite bool_decide_eq_true_2|].
      by rewrite bool_decide_eq_false_2 by (by intros [? ?]). }
    eapply st_wp_mono; [by apply set_path_wp|]. simpl.
    intros rc w' (n&e&->&?&He&Hz&Hnf). exists n, e. split; [by destruct w|].
    repeat split; auto. }
  simpl. intros rc w' (n&e&->&He&Hz&Hnf). destruct (decide (rc = 0)) as [->|Hne];
    [simpl|rewrite (decide_True (P := rc ≠ 0)) by done].
  - apply st_wp_bind. eapply st_wp_stream_of; [done|]. rewrite E.
    apply st_wp_bind, st_wp_modify, st_wp_ret.
    exists n, e, (Some (SessionAlsaPcm PAL_DEVICE_OUT_MIN ids)). simpl. split.
    { unfold set_ec_streams, moved. simpl. by rewrite (alter_insert_at _ _ _ _ Hs). }
    split; [done|]. split; [done|]. split; [done|]. split; [done|]. split; [|naive_solver].
    intros ?. destruct Hz as [[-> ?]|?]; auto.
  - apply st_wp_ret. exists n, e, (Some (SessionAlsaPcm old ids)). simpl.
    rewrite Hid, insert_id by done. split; [done|]. split; [done|]. split; [done|].
    split; [by rewrite decide_False|]. split; [done|]. split; [done|naive_solver].
Qed.
End references.

(** ** The invariant *)

Section invariant.
Context `{EcEnv} (Hdev : ∀ n, mixer_result n ≠ - ENODEV).

(** A capture stream whose device is configured for echo references. *)
Definition eligible (l : list deviceIn) (t : Z) (st : EcStream) : Prop :=
  ∃ a, ec_attr st = Some a ∧
    type a ∉ [PAL_STREAM_PROXY; PAL_STREAM_ULTRA_LOW_LATENCY; PAL_STREAM_GENERIC] ∧
    getECEnableSetting t (type a) l = true.

(** What a counted reference of a capture stream means. *)
Definition holds_reference (w : EcWorld) (t k : Z) (s : positive) (st : EcStream) : Prop :=
  (t, s) ∈ active_devices w ∧ ec_ref_of st = Some k ∧ k ≠ PAL_DEVICE_OUT_MIN ∧
  eligible (deviceInfo w) t st.

(** The invariant, with the counts of the streams in [P]. *)
Record ec_ok_for (P : positive → Prop) (w : EcWorld) : Prop := {
  ok_wf : ec_wf (deviceInfo w);
  ok_internal : internal (deviceInfo w);
  ok_streams : ∀ s st, ec_streams w !! s = Some st →
    is_Some (ec_attr st) ∧ (capture st → ec_session st ≠ Some SessionAlsaVoice);
  ok_listed : ∀ s, s ∈ mActiveStreams w ∨ (∃ k, s ∈ default [] (activeStreamMap w !! k)) →
    is_Some (ec_streams w !! s);
  ok_nodup : NoDup (active_devices w);
  ok_active : ∀ d s, (d, s) ∈ active_devices w → ∃ st, ec_streams w !! s = Some st ∧
    (capture st → ec_devices st = [d]);
  ok_counted : ∀ t k s st, P s → 0 < ec_count (deviceInfo w) t k s →
    ec_streams w !! s = Some st → capture st → holds_reference w t k s st;
}.

Definition ec_ok : EcWorld → Prop := ec_ok_for (λ _, True).

Lemma setting_config l l' t ty :
  config_of l = config_of l' → getECEnableSetting t ty l = getECEnableSetting t ty l'.
Proof.
  assert (Hc : ∀ l, getECEnableSetting t ty l = getECEnableSetting t ty (config_of l)).
  { clear. intros l. unfold getECEnableSetting, first_with, config_of.
    rewrite list_find_fmap. by destruct (list_find _ l) as [[i d]|]. }
  intros E. by rewrite Hc, E, <- Hc.
Qed.

Lemma known_config l l' t :
  config_of l = config_of l' → is_Some (find_device t l) → is_Some (find_device t l').
Proof.
  assert (Hc : ∀ l, is_Some (find_device t l) ↔ is_Some (find_device t (config_of l))).
  { clear. intros l. unfold find_device, config_of. rewrite list_find_fmap.
    by rewrite fmap_is_Some. }
  intros E. by rewrite Hc, E, <- Hc.
Qed.

Lemma eligible_config l l' t st : config_of l = config_of l' → eligible l t st → eligible l' t st.
Proof. intros E (a&?&?&?). exists a. by rewrite <- (setting_config l l'). Qed.

Lemma ok_locked P w b : ec_ok_for P w → ec_ok_for P (set_rm_locked b w).
Proof. intros []. by constructor. Qed.

Lemma ok_weaken (P P' : positive → Prop) w : (∀ s, P' s → P s) → ec_ok_for P w → ec_ok_for P' w.
Proof. intros HP []. constructor; naive_solver. Qed.

Lemma capture_session o st : capture (set_ec_session o st) ↔ capture st.
Proof. by destruct st. Qed.

Lemma static_moved w l s st o e n :
  ec_streams w !! s = Some st → pcm_of (set_ec_session o st) = pcm_of st →
  config_of l = config_of (deviceInfo w) →
  static (moved w l (<[s := set_ec_session o st]> (ec_streams w)) e n) = static w.
Proof.
  intros Hs Hp Hc. unfold static, moved. simpl. rewrite Hc, !fmap_insert, Hp.
  rewrite !insert_id; [done| |]; by rewrite lookup_fmap, Hs; destruct st.
Qed.

Lemma ok_moved (P P' : positive → Prop) w l s st o e n :
  ec_ok_for P w → ec_streams w !! s = Some st → capture st → o ≠ Some SessionAlsaVoice →
  ec_wf l → config_of l = config_of (deviceInfo w) →
  (∀ t k s', s' ≠ s → ec_count l t k s' = ec_count (deviceInfo w) t k s') →
  (∀ s', P' s' → s' ≠ s → P s') →
  (P' s → ∀ t k, 0 < ec_count l t k s → holds_reference w t k s (set_ec_session o st)) →
  ec_ok_for P' (moved w l (<[s := set_ec_session o st]> (ec_streams w)) e n).
Proof.
  intros [] Hs Hcap Ho Hl Hc Hother HP Hself. constructor; simpl.
  - done.
  - by eapply internal_config.
  - intros s' st' [[<- <-]|[Hne Hs']]%lookup_insert_Some; [|naive_solver].
    split; [|done]. by destruct (ok_streams0 _ _ Hs) as [? _].
  - intros s' Hin%ok_listed0. rewrite lookup_insert_is_Some'. by right.
  - done.
  - intros d s' Hin. destruct (ok_active0 _ _ Hin) as (st'&Hs'&Hd).
    destruct (decide (s' = s)) as [->|].
    + exists (set_ec_session o st). rewrite lookup_insert_eq. split; [done|].
      replace st' with st in * by congruence. done.
    + exists st'. by rewrite lookup_insert_ne.
  - intros t k s' st' HP' Hcount Hs' Hcap'. apply lookup_insert_Some in Hs' as [[<- <-]|[Hne Hs']].
    + destruct (Hself HP' t k Hcount) as (?&?&?&?). split; [done|]. split; [done|].
      split; [done|]. by eapply eligible_config.
    + rewrite Hother in Hcount by done.
      destruct (ok_counted0 t k s' st') as (?&?&?&?); auto.
      split; [done|]. split; [done|]. split; [done|]. by eapply eligible_config.
Qed.

Lemma ok_update (P P' : positive → Prop) w l s st :
  ec_ok_for P w → ec_streams w !! s = Some st → capture st →
  ec_wf l → config_of l = config_of (deviceInfo w) →
  (∀ t k s', s' ≠ s → ec_count l t k s' = ec_count (deviceInfo w) t k s') →
  (∀ s', P' s' → s' ≠ s → P s') →
  (P' s → ∀ t k, 0 < ec_count l t k s → holds_reference w t k s st) →
  ec_ok_for P' (set_deviceInfo l w).
Proof.
  intros Hok Hs Hcap ???? Hself.
  assert (E : <[s := set_ec_session (ec_session st) st]> (ec_streams w) = ec_streams w).
  { rewrite insert_id; [done|]. rewrite Hs. by destruct st. }
  replace (set_deviceInfo l w) with (moved w l (<[s := set_ec_session (ec_session st) st]>
    (ec_streams w)) (echoReference w) (mixer_calls w)); [|rewrite E; by destruct w].
  eapply ok_moved; try done.
  destruct (ok_streams _ _ Hok _ _ Hs) as [_ ?]; auto.
Qed.

Lemma static_deviceInfo l w :
  config_of l = config_of (deviceInfo w) → static (set_deviceInfo l w) = static w.
Proof. unfold static. simpl. by intros ->. Qed.

Lemma static_stream w w' s st :
  static w' = static w → ec_streams w !! s = Some st →
  ∃ st', ec_streams w' !! s = Some st' ∧ ec_attr st' = ec_attr st ∧
    ec_devices st' = ec_devices st ∧ ec_state st' = ec_state st ∧ pcm_of st' = pcm_of st.
Proof.
  unfold static. intros [= _ _ _ _ E1 E2] Hs.
  assert (Hl1 := f_equal (lookup s) E1). assert (Hl2 := f_equal (lookup s) E2).
  rewrite !lookup_fmap, Hs in Hl1. rewrite !lookup_fmap, Hs in Hl2.
  destruct (ec_streams w' !! s) as [st'|]; [|done].
  exists st'. simpl in *. unfold set_ec_session in Hl1. by simplify_eq.
Qed.

(** A capture stream that can be given a reference. *)
Definition tx_ready (w : EcWorld) (s : positive) (t : Z) (st : EcStream) : Prop :=
  ec_streams w !! s = Some st ∧ capture st ∧ ec_devices st = [t] ∧
  (t, s) ∈ active_devices w ∧ is_Some (find_device t (deviceInfo w)).

Lemma tx_ready_static w w' s t st :
  static w' = static w → tx_ready w s t st →
  ∃ st', tx_ready w' s t st' ∧ ec_attr st' = ec_attr st ∧ pcm_of st' = pcm_of st.
Proof.
  intros E (Hs&(a&Ha&?)&Hd&Hact&Hk).
  destruct (static_stream _ _ _ _ E Hs) as (st'&?&Ha'&Hd'&_&?).
  exists st'. split; [|done]. split; [done|]. split; [exists a; by rewrite Ha'|].
  split; [by rewrite Hd'|]. unfold static in E. injection E as Hc Hac _ _ _ _.
  rewrite Hac. split; [done|]. by eapply known_config.
Qed.

Lemma own_counts w s st t t' k' :
  ec_ok w → tx_ready w s t st → 0 < ec_count (deviceInfo w) t' k' s →
  t' = t ∧ holds_reference w t k' s st.
Proof.
  intros Hok (Hs&Hcap&Hd&_) Hc.
  destruct (ok_counted _ _ Hok t' k' s st) as (Hact&?&?&?); [done..|].
  destruct (ok_active _ _ Hok _ _ Hact) as (st1&Hs1&Hd1).
  replace st1 with st in * by congruence. specialize (Hd1 Hcap).
  assert (t' = t) as -> by congruence. done.
Qed.

(** The counters after the former reference is forgotten. *)
Lemma forgotten_spec st t k s l :
  ec_wf l →
  ec_wf (forgotten st t k s l) ∧ config_of (forgotten st t k s l) = config_of l ∧
  (∀ t' k' s', ec_count (forgotten st t k s l) t' k' s' =
     if decide (s' = s ∧ t' = t ∧ ec_ref_of st = Some k' ∧ k' ≠ PAL_DEVICE_OUT_MIN ∧ k' ≠ k)
     then 0 else ec_count l t' k' s').
Proof.
  intros Hl. unfold forgotten. destruct (ec_ref_of st) as [old|].
  2: { split; [done|]. split; [done|]. intros. by rewrite decide_False by naive_solver. }
  case_decide as Hold.
  - destruct (update_stop (Some old) t s l Hl) as (?&?&Hc&_).
    split; [done|]. split; [done|]. intros t' k' s'. rewrite Hc.
    apply decide_ext. unfold targets. naive_solver.
  - split; [done|]. split; [done|]. intros. rewrite decide_False; [done|naive_solver].
Qed.

Lemma enable_ok s st t k w :
  ec_ok_for (.≠ s) w → tx_ready w s t st → eligible (deviceInfo w) t st →
  k ≠ PAL_DEVICE_OUT_MIN → rm_locked w = false →
  (∀ t' k', 0 < ec_count (deviceInfo w) t' k' s →
     t' = t ∧ (k' = k ∨ ec_ref_of st = Some k' ∧ k' ≠ PAL_DEVICE_OUT_MIN)) →
  st_wp (setECRef_l s (Some k) true) (λ rc w', rc ≠ - ENODEV ∧ static w' = static w ∧
    rm_locked w' = false ∧ ec_ok_for (.≠ s) w' ∧ (rc = 0 → ec_ok w') ∧
    (∀ t' k', 0 < ec_count (deviceInfo w') t' k' s → t' = t ∧ k' = k) ∧
    ec_count (deviceInfo w') t k s = ec_count (deviceInfo w) t k s) w.
Proof using Hdev.
  intros Hok Hready Hel Hk Hlock Hcounts. pose proof Hready as (Hs&Hcap&Hd&Hact&_).
  pose proof (ok_wf _ _ Hok) as Hwf.
  eapply st_wp_mono.
  { eapply setECRef_enable_wp; try done; [by eapply ok_streams|by eapply ok_internal]. }
  simpl. intros rc w' (n&e&o&->&Ho&Hrc&Hpcm&Href&_).
  destruct (forgotten_spec st t k s (deviceInfo w) Hwf) as (Hwf'&Hc'&Hf).
  assert (Honly : ∀ t' k', 0 < ec_count (forgotten st t k s (deviceInfo w)) t' k' s →
    t' = t ∧ k' = k).
  { intros t' k'. rewrite Hf. destruct (decide (s = s ∧ _)) as [?|Hdec]; [intros ?; lia|].
    intros [-> Hk']%Hcounts.
    split; [done|]. destruct (decide (k' = k)); [done|]. destruct Hk' as [|[??]]; [done|].
    by destruct Hdec. }
  assert (Hother : ∀ t' k' s', s' ≠ s → ec_count (forgotten st t k s (deviceInfo w)) t' k' s' =
    ec_count (deviceInfo w) t' k' s').
  { intros. rewrite Hf, decide_False; [done|]. naive_solver. }
  split; [done|]. split; [by apply static_moved|]. split; [done|].
  split; [by eapply ok_moved|]. split; [|split; [done|]].
  2: { simpl. rewrite Hf. apply decide_False. tauto. }
  intros ->. eapply ok_moved; try done.
  intros _ t' k' [-> ->]%Honly. split; [done|]. split; [by rewrite Href|]. split; [done|].
  destruct Hel as (a&?&?). exists a. by destruct st.
Qed.

Lemma disable_ok s st t dev w :
  ec_ok_for (.≠ s) w → tx_ready w s t st ∨ (ec_streams w !! s = Some st ∧ capture st) →
  (∀ t' k', ec_count (deviceInfo w) t' k' s ≤ 0) →
  st_wp (setECRef_l s dev false) (λ rc w', static w' = static w ∧
    rm_locked w' = rm_locked w ∧ ec_ok w') w.
Proof using Hdev.
  intros Hok Hready Hcounts.
  assert (ec_streams w !! s = Some st ∧ capture st) as [Hs Hcap]
    by (destruct Hready as [(?&?&_)|]; auto).
  eapply st_wp_mono.
  { eapply setECRef_disable_wp; try done; [by eapply ok_streams|by eapply ok_internal]. }
  simpl. intros rc w' (n&e&o&->&Ho&Hpcm&_). split; [by apply static_moved|]. split; [done|].
  eapply ok_moved; try done; [by eapply ok_wf|]. intros _ t' k' ?.
  specialize (Hcounts t' k'). lia.
Qed.

(** Counts that only shrink. *)
Lemma shrink_ok w s t st l :
  ec_ok w → tx_ready w s t st → ec_wf l → config_of l = config_of (deviceInfo w) →
  (∀ t' k' s', s' ≠ s → ec_count l t' k' s' = ec_count (deviceInfo w) t' k' s') →
  (∀ t' k', 0 < ec_count l t' k' s → 0 < ec_count (deviceInfo w) t' k' s) →
  ec_ok (set_deviceInfo l w).
Proof.
  intros Hok Hready Hwf Hc Ho Hs. pose proof Hready as (?&?&_).
  eapply ok_update; try done. intros _ t' k' Hc'%Hs.
  by edestruct own_counts as [-> ?].
Qed.

(** The state in which the calls about references leave the resource manager. *)
Definition settled (w w' : EcWorld) : Prop :=
  ec_ok w' ∧ static w' = static w ∧ rm_locked w' = true.

Lemma settled_trans w w1 w2 : settled w w1 → settled w1 w2 → settled w w2.
Proof. intros (_&E&_) (?&?&?). split; [done|]. split; [congruence|done]. Qed.

Lemma settled_locked w w' :
  ec_ok w' → static w' = static w → settled w (set_rm_locked true w').
Proof. intros ? E. split; [by apply ok_locked|]. by split. Qed.

(** A playback device stops. *)
Lemma apply_rx_off k s status w t st :
  ec_ok w → rm_locked w = true → tx_ready w s t st →
  st_wp (apply_rx k false s status) (λ _, settled w) w.
Proof using Hdev.
  intros Hok Hlock Hready. pose proof Hready as (Hs&(a&Ha&Hdir)&Hd&Hact&Hknown).
  assert (Hdone : settled w w) by done.
  unfold apply_rx. apply st_wp_bind, st_wp_gets. destruct (negb _); [by apply st_wp_ret|].
  apply st_wp_bind. eapply st_wp_stream_of; [done|]. rewrite Hd, Ha.
  destruct (negb _); [by apply st_wp_ret|]. apply st_wp_bind, st_wp_update_map.
  destruct (update_play k t s 0 (deviceInfo w)) as (Hwf&Hc&Hcount&Hr);
    [by apply Hok|done|done|].
  change (deviceInfo (id w)) with (deviceInfo w).
  destruct (updateECDeviceMap (Some k) (Some t) s 0 false (deviceInfo w)) as [rc l]. simpl in *.
  unfold next_count in Hcount, Hr. simpl in Hcount, Hr.
  assert (Hother : ∀ t' k' s', s' ≠ s → ec_count l t' k' s' = ec_count (deviceInfo w) t' k' s').
  { intros. rewrite Hcount. by rewrite decide_False by naive_solver. }
  pose proof (ec_count_nonneg (deviceInfo w) t k s (ok_wf _ _ Hok)) as Hnn.
  assert (Hok1 : ec_ok (set_deviceInfo l w)).
  { eapply shrink_ok; try done. intros t' k'. rewrite Hcount.
    destruct (decide (t' = t ∧ _)) as [(->&_&->&_)|]; [intros ?; lia|done]. }
  assert (Hst1 : static (set_deviceInfo l w) = static w) by by apply static_deviceInfo.
  destruct (decide (rc ≠ 0)) as [|Hrc]; [by apply st_wp_ret|].
  apply dec_stable in Hrc as ->.
  apply st_wp_bind, st_wp_unlock; [done|]. apply st_wp_bind.
  eapply st_wp_mono.
  { apply (disable_ok _ st t); [by apply ok_locked, (ok_weaken (λ _, True))|right; split; [done|by exists a]|].
    intros t' k'. simpl. destruct (decide (0 < ec_count l t' k' s)) as [Hpos|]; [|lia]. exfalso.
    assert (Hold : 0 < ec_count (deviceInfo w) t' k' s).
    { revert Hpos. rewrite Hcount.
      destruct (decide (t' = t ∧ _)) as [(->&_&->&_)|]; [intros ?; lia|done]. }
    destruct (decide (0 = 0 ∧ ec_count (deviceInfo w) t k s = 0)) as [|Hne]; [done|].
    assert (Hk : 0 < ec_count (deviceInfo w) t k s) by lia.
    destruct (own_counts _ _ _ _ _ _ Hok Hready Hold) as [-> (_&E1&_)].
    destruct (own_counts _ _ _ _ _ _ Hok Hready Hk) as [_ (_&E2&_)].
    assert (k' = k) as -> by congruence. rewrite Hcount, decide_True in Hpos; [lia|].
    repeat split; auto. }
  simpl. intros rc w2 (Hst2&Hl2&Hok2). apply st_wp_bind, st_wp_lock; [done|].
  rewrite decide_False by naive_solver. apply st_wp_ret. apply settled_locked; [done|].
  by rewrite Hst2.
Qed.

(** A first count of [k] for [s] is recorded, before its session has the reference. *)
Lemma recorded_ok w s t st k l :
  ec_ok w → tx_ready w s t st → ec_wf l → config_of l = config_of (deviceInfo w) →
  (∀ t' k' s', (s' ≠ s ∨ t' ≠ t ∨ k' ≠ k) → ec_count l t' k' s' = ec_count (deviceInfo w) t' k' s') →
  ec_ok_for (.≠ s) (set_deviceInfo l w) ∧ tx_ready (set_deviceInfo l w) s t st ∧
  (∀ t' k', 0 < ec_count l t' k' s →
     t' = t ∧ (k' = k ∨ ec_ref_of st = Some k' ∧ k' ≠ PAL_DEVICE_OUT_MIN)).
Proof.
  intros Hok Hready Hwf Hc Hother. pose proof Hready as (Hs&Hcap&Hd&Hact&Hk). split; [|split].
  - eapply ok_update; try done. intros. apply Hother. auto.
  - repeat (split; [done|]). by eapply known_config.
  - intros t' k' Hpos. destruct (decide (t' = t ∧ k' = k)) as [[-> ->]|Hne]; [auto|].
    assert (Hor : s ≠ s ∨ t' ≠ t ∨ k' ≠ k) by (destruct (decide (t' = t)); tauto).
    rewrite (Hother _ _ _ Hor) in Hpos.
    destruct (own_counts _ _ _ _ _ _ Hok Hready Hpos) as [-> (_&?&?&_)]. auto.
Qed.

(** The count is taken back when the session did not take the reference. *)
Lemma taken_back_ok w s t k l :
  ec_ok_for (.≠ s) w → (∃ st, ec_streams w !! s = Some st ∧ capture st) →
  (∀ t' k', 0 < ec_count (deviceInfo w) t' k' s → t' = t ∧ k' = k) →
  ec_wf l → config_of l = config_of (deviceInfo w) →
  (∀ t' k' s', (s' ≠ s ∨ t' ≠ t ∨ k' ≠ k) → ec_count l t' k' s' = ec_count (deviceInfo w) t' k' s') →
  ec_count l t k s = 0 → ec_ok (set_deviceInfo l w).
Proof.
  intros Hok (st&Hs&Hcap) Honly Hwf Hc Hother H0. eapply ok_update; try done.
  - intros. apply Hother. auto.
  - intros _ t' k' Hpos. exfalso. destruct (decide (t' = t ∧ k' = k)) as [[-> ->]|Hne]; [lia|].
    assert (Hor : s ≠ s ∨ t' ≠ t ∨ k' ≠ k) by (destruct (decide (t' = t)); tauto).
    rewrite (Hother _ _ _ Hor) in Hpos. by apply Hne, Honly.
Qed.

(** A playback device starts. *)
Lemma apply_rx_on k s status w t st :
  ec_ok w → rm_locked w = true → tx_ready w s t st → k ≠ PAL_DEVICE_OUT_MIN →
  (∀ a, ec_attr st = Some a →
     type a ∉ [PAL_STREAM_PROXY; PAL_STREAM_ULTRA_LOW_LATENCY; PAL_STREAM_GENERIC]) →
  st_wp (apply_rx k true s status) (λ _, settled w) w.
Proof using Hdev.
  intros Hok Hlock Hready Hk0 Htype. pose proof Hready as (Hs&(a&Ha&Hdir)&Hd&Hact&Hknown).
  assert (Hdone : settled w w) by done.
  unfold apply_rx. apply st_wp_bind, st_wp_gets. destruct (negb _); [by apply st_wp_ret|].
  apply st_wp_bind. eapply st_wp_stream_of; [done|]. rewrite Hd, Ha.
  destruct (getECEnableSetting _ _ _) eqn:Hset; [|by apply st_wp_ret]. cbn [negb].
  apply st_wp_bind, st_wp_update_map.
  destruct (update_play k t s 1 (deviceInfo w)) as (Hwf&Hc&Hcount&Hr);
    [by apply Hok|done|done|].
  change (deviceInfo (id w)) with (deviceInfo w) in *.
  destruct (updateECDeviceMap (Some k) (Some t) s 1 false (deviceInfo w)) as [rc l]. simpl in *.
  unfold next_count in Hcount, Hr. simpl in Hcount, Hr.
  pose proof (ec_count_nonneg (deviceInfo w) t k s (ok_wf _ _ Hok)) as Hnn.
  assert (Hother : ∀ t' k' s', (s' ≠ s ∨ t' ≠ t ∨ k' ≠ k) →
    ec_count l t' k' s' = ec_count (deviceInfo w) t' k' s').
  { intros. rewrite Hcount. by rewrite decide_False by naive_solver. }
  assert (Hst1 : static (set_deviceInfo l w) = static w) by by apply static_deviceInfo.
  destruct (decide (rc ≠ 1)) as [Hne|Hrc].
  { apply st_wp_ret. split; [|done]. eapply shrink_ok; try done; [intros; apply Hother; auto|].
    intros t' k'. rewrite Hcount. destruct (decide (t' = t ∧ _)) as [(->&_&->&_)|]; [lia|done]. }
  assert (Hone : ec_count l t k s = 1).
  { apply dec_stable in Hrc as ->. rewrite Hcount.
    rewrite decide_True; [lia|]. repeat (split; [done|]). left. lia. }
  apply st_wp_bind, st_wp_unlock; [done|]. apply st_wp_bind.
  destruct (recorded_ok w s t st k l) as (Hok1&Hready1&Hc1); try done.
  assert (Hel : eligible l t st).
  { exists a. split; [done|]. split; [by apply Htype|]. by rewrite (setting_config _ _ _ _ Hc). }
  eapply st_wp_mono; [by apply enable_ok with (t := t) (st := st); [apply ok_locked|..]|].
  simpl. intros rc2 w2 (Hrc2&Hst2&Hl2&Hbut2&Hok2&Honly2&Hsame2).
  apply st_wp_bind, st_wp_lock; [done|].
  assert (Hst2' : static w2 = static w) by by rewrite Hst2.
  destruct (decide (rc2 ≠ 0 ∧ _)) as [|Hz].
  2: { apply st_wp_ret, settled_locked; [|done]. apply Hok2.
       destruct (decide (rc2 = 0)); tauto. }
  destruct (tx_ready_static _ w2 _ _ _ Hst2' Hready) as (st2&(Hs2&Hcap2&_&_&Hk2)&_).
  apply st_wp_bind, st_wp_update_map. apply st_wp_ret. cbn zeta.
  change (deviceInfo (set_rm_locked true w2)) with (deviceInfo w2).
  destruct (update_play k t s 0 (deviceInfo w2)) as (Hwf3&Hc3&Hcount3&_);
    [by apply Hbut2|done|done|].
  destruct (updateECDeviceMap (Some k) (Some t) s 0 false (deviceInfo w2)) as [rc3 l3].
  simpl in *. split; [|split; [|done]].
  - apply taken_back_ok with (s := s) (t := t) (k := k); simpl; [by apply ok_locked|eauto|done..| |].
    + intros. rewrite Hcount3. by rewrite decide_False by naive_solver.
    + by rewrite Hcount3, Hsame2, Hone, decide_True by auto.
  - rewrite static_deviceInfo; [done|done].
Qed.

(** ** The loops over capture streams *)

Lemma checkECRef_known rx t l : checkECRef rx (Some t) l = true → is_Some (find_device t l).
Proof.
  unfold checkECRef. destruct rx as [k|]; [|done].
  intros (d&Hd&<-&_)%bool_decide_eq_true%Exists_exists. unfold find_device.
  destruct (list_find _ l) eqn:E; [by eexists|].
  eapply list_find_None, Forall_forall in E; [|done]. done.
Qed.

(** The capture streams a playback device concerns. *)
Lemma concurrent_tx_ready rx_type k l w r :
  ec_ok w → concurrent_tx rx_type k l w = Some r →
  Forall (λ s, ∃ t st a, tx_ready w s t st ∧ ec_attr st = Some a ∧
    type a ∉ [PAL_STREAM_PROXY; PAL_STREAM_ULTRA_LOW_LATENCY; PAL_STREAM_GENERIC]) r.
Proof.
  intros Hok. revert r. induction l as [|s l IH]; simpl; intros r; [by intros [= <-]|].
  destruct (ec_streams w !! s) as [st|] eqn:Hs; simpl; [|done].
  destruct (ec_attr st) as [a|] eqn:Ha; simpl; [|done].
  destruct (concurrent_tx rx_type k l w) as [r'|]; simpl; [|done]. intros [= <-].
  specialize (IH _ eq_refl). destruct (_ && _) eqn:E; [|done]. constructor; [|done].
  rewrite !andb_true_iff, !bool_decide_eq_true, Exists_exists in E.
  destruct E as (((Ht&Hdir)&_)&d&Hd&Hact). apply andb_prop_elim in Hact as [Hact Hck].
  apply Is_true_true, bool_decide_eq_true in Hact. apply Is_true_true in Hck.
  assert (Hcap : capture st) by by exists a.
  destruct (ok_active _ _ Hok _ _ Hact) as (st1&Hs1&Hd1).
  replace st1 with st in * by congruence.
  exists d, st, a. split; [|done]. do 2 (split; [done|]). split; [by apply Hd1|]. split; [done|].
  unfold in_device in Hck. case_decide; [|done]. by apply (checkECRef_known (Some k)).
Qed.

Lemma concurrent_tx_total rx_type k l w :
  ec_ok w → (∀ s, s ∈ l → is_Some (ec_streams w !! s)) → is_Some (concurrent_tx rx_type k l w).
Proof.
  intros Hok. induction l as [|s l IH]; intros Hl; simpl; [by eexists|].
  destruct (Hl s) as [st Hs]; [by left|]. rewrite Hs. simpl.
  destruct (ok_streams _ _ Hok _ _ Hs) as [[a Ha] _]. rewrite Ha. simpl.
  destruct IH as [r ->]; [intros; apply Hl; by right|]. by eexists.
Qed.

Lemma apply_all_rx_ok k on l status w :
  ec_ok w → rm_locked w = true → k ≠ PAL_DEVICE_OUT_MIN →
  Forall (λ s, ∃ t st a, tx_ready w s t st ∧ ec_attr st = Some a ∧
    type a ∉ [PAL_STREAM_PROXY; PAL_STREAM_ULTRA_LOW_LATENCY; PAL_STREAM_GENERIC]) l →
  st_wp (apply_all_rx k on l status) (λ _, settled w) w.
Proof using Hdev.
  intros Hok Hlock Hk. revert status w Hok Hlock.
  induction l as [|s l IH]; intros status w Hok Hlock Hl; simpl; [by apply st_wp_ret|].
  apply Forall_cons in Hl as [(t&st&a&Hready&Ha&Htype) Hl].
  apply st_wp_bind. eapply st_wp_mono.
  { instantiate (1 := λ _, settled w). destruct on.
    - eapply apply_rx_on; try done. intros a' Ha'. by replace a' with a by congruence.
    - by eapply apply_rx_off. }
  simpl. intros status' w1 (Hok1&Hst1&Hl1). eapply st_wp_mono.
  - apply IH; [done|done|]. eapply Forall_impl; [exact Hl|].
    intros s' (t'&st'&a'&Hr'&Ha'&?). destruct (tx_ready_static _ w1 _ _ _ Hst1 Hr') as (st2&?&E&_).
    exists t', st2, a'. by rewrite E.
  - simpl. intros rc2 w2 ?. eapply settled_trans; [|done]. by split.
Qed.

Lemma rx_stream_ok k s on w :
  ec_ok w → rm_locked w = true → k ≠ PAL_DEVICE_OUT_MIN → is_Some (ec_streams w !! s) →
  st_wp (checkandEnableECForRXStream_l k s on) (λ _, settled w) w.
Proof using Hdev.
  intros Hok Hlock Hk [st Hs]. unfold checkandEnableECForRXStream_l.
  apply st_wp_bind. eapply st_wp_stream_of; [done|].
  destruct (ec_attr st) as [a|] eqn:Ha; [|by apply st_wp_ret].
  apply st_wp_bind, st_wp_gets, st_wp_bind. unfold getConcurrentTxStream_l, id.
  rewrite Hs. cbn [mbind option_bind]. rewrite Ha.
  case_bool_decide.
  - destruct (concurrent_tx_total (type a) k (mActiveStreams w) w) as [r Hr];
      [done|intros; apply (ok_listed _ _ Hok); by left|].
    eapply st_wp_lift; [done|]. apply apply_all_rx_ok; try done. by eapply concurrent_tx_ready.
  - eapply st_wp_lift; [done|]. by apply st_wp_ret.
Qed.

(** ** Capture streams *)

Lemma first_with_Some {A} (P : A → bool) l x :
  first_with P l = Some x → x ∈ l ∧ P x = true.
Proof.
  unfold first_with. destruct (list_find P l) as [[i y]|] eqn:E; simpl; [|done]. intros [= <-].
  apply list_find_Some in E as (Hi&Hp&_). split; [by eapply list_elem_of_lookup_2|].
  by apply Is_true_true.
Qed.

Lemma first_reference_spec ty txs l w :
  ec_ok w → (∀ s, s ∈ l → is_Some (ec_streams w !! s)) →
  ∃ r, first_reference ty txs l w = Some r ∧
    ∀ k, r = Some k → k ≠ PAL_DEVICE_OUT_MIN ∧
      ∃ t, t ∈ txs ∧ is_Some (find_device t (deviceInfo w)).
Proof.
  intros Hok. induction l as [|s l IH]; intros Hl; simpl; [by eexists|].
  destruct (Hl s) as [st Hs]; [by left|]. rewrite Hs. simpl.
  destruct (ok_streams _ _ Hok _ _ Hs) as [[a Ha] _]. rewrite Ha. simpl.
  specialize (IH (λ s' Hs', Hl s' (list_elem_of_further _ _ _ Hs'))).
  destruct (_ && _); [|done]. destruct (reference_of s st txs w) as [d|] eqn:E; [|done].
  exists (Some d). split; [done|]. intros k [= <-]. apply first_with_Some in E as [_ E].
  apply andb_true_iff in E as [_ (t&Ht&Hck)%bool_decide_eq_true%Exists_exists].
  apply Is_true_true in Hck. unfold out_device in Hck. case_decide as Hd; [|done].
  split; [unfold PAL_DEVICE_OUT_MIN in *; lia|]. exists t. split; [done|].
  by eapply (checkECRef_known (Some d)).
Qed.

Lemma getActiveStreams_total d l w :
  (∀ s, s ∈ l → is_Some (ec_streams w !! s)) →
  ∃ r, getActiveStreams d l w = Some r ∧ ∀ s, s ∈ r → s ∈ l.
Proof.
  induction l as [|s l IH]; intros Hl; simpl; [by eexists|].
  destruct (Hl s) as [st Hs]; [by left|]. rewrite Hs. simpl.
  destruct IH as (r&->&Hr); [intros; apply Hl; by right|]. simpl.
  eexists. split; [done|]. intros s'. case_bool_decide; rewrite ?elem_of_cons; naive_solver.
Qed.

Lemma getActiveStream_total d w :
  ec_ok w → ∃ r, getActiveStream_l d w = Some r ∧ ∀ s, s ∈ r → is_Some (ec_streams w !! s).
Proof.
  intros Hok. unfold getActiveStream_l.
  assert (Hl : ∀ s, s ∈ (map_keys (activeStreamMap w) ≫= λ k, default [] (activeStreamMap w !! k)) →
    is_Some (ec_streams w !! s)).
  { intros s (k&?&_)%list_elem_of_bind. apply (ok_listed _ _ Hok). right. by exists k. }
  destruct (getActiveStreams_total d _ w Hl) as (r&->&Hr). exists r. split; [done|]. auto.
Qed.

Lemma count_rx_total ty k l w :
  ec_ok w → (∀ s, s ∈ l → is_Some (ec_streams w !! s)) →
  ∃ n, count_rx ty k l w = Some n ∧ 0 ≤ n.
Proof.
  intros Hok. induction l as [|s l IH]; intros Hl; simpl; [by eexists|].
  destruct (Hl s) as [st Hs]; [by left|]. rewrite Hs. simpl.
  destruct (ok_streams _ _ Hok _ _ Hs) as [[a Ha] _]. rewrite Ha. simpl.
  destruct IH as (n&->&?); [intros; apply Hl; by right|]. simpl.
  destruct (_ && _); [|by eexists]. eexists. split; [done|]. destruct (_ && _); lia.
Qed.

(** The capture stream gets the reference [k], counted [n] times. *)
Lemma apply_tx_on k t s n w st :
  ec_ok w → rm_locked w = true → tx_ready w s t st → eligible (deviceInfo w) t st →
  k ≠ PAL_DEVICE_OUT_MIN → 0 ≤ n → (∀ t' k', ec_count (deviceInfo w) t' k' s ≤ 0) →
  st_wp (apply_tx (Some k) t s n true) (λ _, settled w) w.
Proof using Hdev.
  intros Hok Hlock Hready Hel Hk0 Hn Hnone. pose proof Hready as (Hs&Hcap&Hd&Hact&Hknown).
  unfold apply_tx. apply st_wp_bind, st_wp_update_map. cbn [negb].
  destruct (update_play k t s n (deviceInfo w)) as (Hwf&Hc&Hcount&Hr); [by apply Hok|done|done|].
  destruct (updateECDeviceMap (Some k) (Some t) s n false (deviceInfo w)) as [rc l]. simpl in *.
  pose proof (ec_count_nonneg (deviceInfo w) t k s (ok_wf _ _ Hok)) as Hnn.
  assert (Hz : ec_count (deviceInfo w) t k s = 0) by (specialize (Hnone t k); lia).
  rewrite Hz in Hcount, Hr. unfold next_count in Hcount, Hr. simpl in Hcount, Hr.
  assert (Hother : ∀ t' k' s', (s' ≠ s ∨ t' ≠ t ∨ k' ≠ k) →
    ec_count l t' k' s' = ec_count (deviceInfo w) t' k' s').
  { intros. rewrite Hcount. by rewrite decide_False by naive_solver. }
  assert (Hst1 : static (set_deviceInfo l w) = static w) by by apply static_deviceInfo.
  destruct (decide (rc ≤ 0 ∧ _)) as [Hle|Hrc].
  { apply st_wp_ret. split; [|done]. eapply shrink_ok; try done; [intros; apply Hother; auto|].
    intros t' k'. rewrite Hcount. destruct (decide (t' = t ∧ _)) as [(->&_&->&Hpos)|]; [|done].
    rewrite decide_False in Hr by lia. rewrite decide_True in Hr by lia. lia. }
  apply st_wp_bind, st_wp_unlock; [done|]. apply st_wp_bind.
  destruct (recorded_ok w s t st k l) as (Hok1&Hready1&Hc1); try done.
  eapply st_wp_mono.
  { apply enable_ok with (t := t) (st := st); try done; [by apply ok_locked|].
    by eapply eligible_config. }
  simpl. intros rc2 w2 (Hrc2&Hst2&Hl2&Hbut2&Hok2&Honly2&Hsame2).
  apply st_wp_bind, st_wp_lock; [done|]. rewrite decide_False by done.
  assert (Hst2' : static w2 = static w) by by rewrite Hst2.
  destruct (decide (rc2 ≠ 0 ∧ _)) as [|Hz2].
  2: { apply st_wp_ret, settled_locked; [|done]. apply Hok2.
       destruct (decide (rc2 = 0)); tauto. }
  destruct (tx_ready_static _ w2 _ _ _ Hst2' Hready) as (st2&(Hs2&Hcap2&_&_&Hk2)&_).
  apply st_wp_bind, st_wp_update_map. apply st_wp_ret. cbn zeta.
  change (deviceInfo (set_rm_locked true w2)) with (deviceInfo w2).
  destruct (update_stop (Some k) t s (deviceInfo w2)) as (Hwf3&Hc3&Hcount3&_); [by apply Hbut2|].
  destruct (updateECDeviceMap (Some k) (Some t) s 0 true (deviceInfo w2)) as [rc3 l3].
  simpl in *. split; [|split; [|done]].
  - apply taken_back_ok with (s := s) (t := t) (k := k); simpl; [by apply ok_locked|eauto|done..| |].
    + intros. rewrite Hcount3. rewrite decide_False; [done|]. unfold targets. naive_solver.
    + rewrite Hcount3, decide_True; [done|]. unfold targets. auto.
  - rewrite static_deviceInfo; [done|done].
Qed.

(** The capture stream gives up every reference. *)
Lemma apply_tx_off t s w st :
  ec_ok_for (.≠ s) w → rm_locked w = true → ec_streams w !! s = Some st → capture st →
  (∀ t' k', 0 < ec_count (deviceInfo w) t' k' s → t' = t) →
  st_wp (apply_tx None t s 0 false) (λ _, settled w) w.
Proof using Hdev.
  intros Hok Hlock Hs Hcap Honly. unfold apply_tx. apply st_wp_bind, st_wp_update_map. cbn [negb].
  destruct (update_stop None t s (deviceInfo w)) as (Hwf&Hc&Hcount&_); [by apply Hok|].
  destruct (updateECDeviceMap None (Some t) s 0 true (deviceInfo w)) as [rc l]. simpl in *.
  rewrite decide_False by naive_solver.
  assert (Hst1 : static (set_deviceInfo l w) = static w) by by apply static_deviceInfo.
  apply st_wp_bind, st_wp_unlock; [done|]. apply st_wp_bind. eapply st_wp_mono.
  { apply (disable_ok s st t); [| |].
    - apply ok_locked. eapply ok_update; try done.
      intros t' k' s' Hne. rewrite Hcount. apply decide_False. tauto.
    - by right.
    - intros t' k'. simpl. rewrite Hcount. case_decide as Hd; [done|].
      destruct (decide (0 < ec_count (deviceInfo w) t' k' s)) as [Hp|]; [|lia].
      destruct Hd. split; [by eapply Honly|]. split; [done|]. by left. }
  simpl. intros rc2 w2 (Hst2&Hl2&Hok2). apply st_wp_bind, st_wp_lock; [done|].
  assert (settled w (set_rm_locked true w2)) by (apply settled_locked; [done|by rewrite Hst2]).
  case_decide; [by apply st_wp_ret|]. rewrite decide_False by naive_solver. by apply st_wp_ret.
Qed.

Lemma tx_stream_on d s w st :
  ec_ok w → rm_locked w = true → ec_streams w !! s = Some st → capture st →
  ec_devices st = [d] → (d, s) ∈ active_devices w →
  (∀ a, ec_attr st = Some a →
     type a ∉ [PAL_STREAM_PROXY; PAL_STREAM_ULTRA_LOW_LATENCY; PAL_STREAM_GENERIC]) →
  (∀ t' k', ec_count (deviceInfo w) t' k' s ≤ 0) →
  st_wp (checkandEnableECForTXStream_l d s true) (λ _, settled w) w.
Proof using Hdev.
  intros Hok Hlock Hs (a&Ha&Hdir) Hd Hact Htype Hnone.
  assert (Hdone : settled w w) by done.
  unfold checkandEnableECForTXStream_l. apply st_wp_bind. eapply st_wp_stream_of; [done|].
  rewrite Ha. apply st_wp_bind, st_wp_gets.
  destruct (getECEnableSetting _ _ _) eqn:Hset; [|by apply st_wp_ret]. cbn [negb].
  apply st_wp_bind, st_wp_gets, st_wp_bind. unfold id, getActiveEchoReferenceRxDevices_l.
  rewrite Hs. cbn [mbind option_bind]. rewrite Ha, decide_False by congruence.
  destruct (first_reference_spec (type a) (ec_devices st) (mActiveStreams w) w Hok) as (r&->&Hr);
    [intros; apply (ok_listed _ _ Hok); by left|].
  eapply st_wp_lift; [done|]. destruct r as [k|]; [|by apply st_wp_ret].
  destruct (Hr k eq_refl) as (Hk&t&Ht&Hknown). rewrite Hd in Ht.
  apply list_elem_of_singleton in Ht as ->.
  apply st_wp_bind. destruct (getActiveStream_total k w Hok) as (l&Hl&Hin).
  eapply st_wp_lift; [done|]. apply st_wp_bind.
  destruct (count_rx_total (type a) k l w Hok Hin) as (n&Hcn&Hn).
  eapply st_wp_lift; [done|]. eapply apply_tx_on with (st := st); try done.
  - split; [done|]. split; [by exists a|]. done.
  - exists a. split; [done|]. split; [by apply Htype|done].
Qed.

Lemma tx_stream_off d s w st :
  ec_ok_for (.≠ s) w → rm_locked w = true → ec_streams w !! s = Some st → capture st →
  (∀ t' k', 0 < ec_count (deviceInfo w) t' k' s → t' = d ∧ eligible (deviceInfo w) d st) →
  st_wp (checkandEnableECForTXStream_l d s false) (λ _, settled w) w.
Proof using Hdev.
  intros Hok Hlock Hs Hcap Honly. pose proof Hcap as (a&Ha&Hdir).
  unfold checkandEnableECForTXStream_l. apply st_wp_bind. eapply st_wp_stream_of; [done|].
  rewrite Ha. apply st_wp_bind, st_wp_gets.
  destruct (getECEnableSetting _ _ _) eqn:Hset; cbn [negb].
  - eapply apply_tx_off; try done. intros t' k' Hc. by apply (Honly t' k').
  - apply st_wp_ret. split; [|done].
    replace w with (set_deviceInfo (deviceInfo w) w) by (by destruct w).
    eapply ok_update; try done; [by apply Hok|].
    intros _ t' k' Hc. destruct (Honly t' k' Hc) as [_ (a'&?&_&?)]. congruence.
Qed.

(** ** Voice calls *)

Lemma ok_update_other w l s st :
  ec_ok w → ec_streams w !! s = Some st → ¬ capture st →
  ec_wf l → config_of l = config_of (deviceInfo w) →
  (∀ t k s', s' ≠ s → ec_count l t k s' = ec_count (deviceInfo w) t k s') →
  ec_ok (set_deviceInfo l w).
Proof.
  intros [] Hs Hcap Hl Hc Hother. constructor; simpl; try done.
  - by eapply internal_config.
  - intros t k s' st' _ Hcount Hs' Hcap'.
    assert (s' ≠ s) by (intros ->; by simplify_eq). rewrite Hother in Hcount by done.
    destruct (ok_counted0 t k s' st') as (?&?&?&?); auto.
    split; [done|]. split; [done|]. split; [done|]. by eapply eligible_config.
Qed.

Lemma update_voice_ok d l s on w st :
  ec_ok w → rm_locked w = true → ec_streams w !! s = Some st → ¬ capture st →
  st_wp (update_voice d l s on) (λ _, settled w) w.
Proof.
  revert w st. induction l as [|tx l IH]; intros w st Hok Hlock Hs Hcap; simpl;
    [by apply st_wp_ret|].
  apply st_wp_bind. eapply st_wp_mono.
  { instantiate (1 := λ _, settled w). case_decide; [|by apply st_wp_ret].
    apply st_wp_update_map. set (n := if on then 1 else 0).
    destruct (find_device tx (deviceInfo w)) as [x|] eqn:E.
    2: { rewrite update_refused by eauto. simpl. split; [|by destruct w].
         by replace (set_deviceInfo (deviceInfo w) w) with w by (by destruct w). }
    destruct (update_play d tx s n (deviceInfo w)) as (Hwf&Hc&Hcount&_);
      [by apply Hok|by destruct on|by eexists|].
    destruct (updateECDeviceMap (Some d) (Some tx) s n false (deviceInfo w)) as [rc l1].
    simpl in *. split; [|split; [by apply static_deviceInfo|done]].
    eapply ok_update_other; try done. intros. rewrite Hcount. apply decide_False. tauto. }
  simpl. intros _ w1 (Hok1&Hst1&Hl1).
  destruct (static_stream _ _ _ _ Hst1 Hs) as (st1&Hs1&Ha1&_).
  eapply st_wp_mono; [eapply IH; try done; intros (a&Ha&?); apply Hcap; exists a; split; congruence|].
  simpl. intros rc w2 ?. eapply settled_trans; [|done]. by split.
Qed.

Lemma setECRef_voice s st dev on w :
  ec_streams w !! s = Some st → ¬ capture st → is_Some (ec_attr st) →
  st_wp (setECRef_l s dev on) (λ _ w', w' = w) w.
Proof.
  intros Hs Hcap [a Ha]. unfold setECRef_l. apply st_wp_bind. eapply st_wp_stream_of; [done|].
  destruct (ec_session st) as [[old ids|]|] eqn:E; [|by apply st_wp_ret..].
  unfold SessionAlsaPcm_setECRef. apply st_wp_bind. eapply st_wp_stream_of; [done|].
  rewrite Ha, E. rewrite decide_True; [by apply st_wp_ret|].
  intros ?. apply Hcap. by exists a.
Qed.

(** ** Devices start and stop *)

(** A capture stream uses one device; playback devices have an id. *)
Definition proper_pair (w : EcWorld) (d : Z) (s : positive) : Prop :=
  ∃ st, ec_streams w !! s = Some st ∧
    (capture st → ec_devices st = [d]) ∧ (¬ capture st → d ≠ PAL_DEVICE_OUT_MIN).

Lemma playback_ok d s on w st :
  ec_ok w → rm_locked w = true → ec_streams w !! s = Some st → ¬ capture st →
  d ≠ PAL_DEVICE_OUT_MIN →
  st_wp (checkandEnableEC_l d s on) (λ _, settled w) w.
Proof using Hdev.
  intros Hok Hlock Hs Hcap Hd. assert (Hdone : settled w w) by done.
  destruct (ok_streams _ _ Hok _ _ Hs) as [[a Ha] _].
  assert (Hdir : direction a ≠ PAL_AUDIO_INPUT) by (intros ?; apply Hcap; by exists a).
  unfold checkandEnableEC_l. apply st_wp_bind. eapply st_wp_stream_of; [done|]. rewrite Ha.
  case_bool_decide; [by apply st_wp_ret|]. rewrite decide_False by done.
  case_decide; [by apply rx_stream_ok|]. case_decide; [|by apply st_wp_ret].
  apply st_wp_bind. eapply st_wp_mono.
  { instantiate (1 := λ _, settled w). case_decide; [|by apply st_wp_ret].
    apply st_wp_bind. eapply st_wp_mono; [by eapply setECRef_voice|]. simpl. intros rc w' ->.
    apply st_wp_bind. eapply st_wp_stream_of; [done|].
    case_bool_decide; [by apply st_wp_ret|]. by eapply update_voice_ok. }
  simpl. intros _ w1 (Hok1&Hst1&Hl1).
  destruct (static_stream _ _ _ _ Hst1 Hs) as (st1&Hs1&_).
  eapply st_wp_mono; [by apply rx_stream_ok|]. simpl. intros rc w2 ?.
  eapply settled_trans; [|done]. by split.
Qed.

Lemma capture_dec st : {capture st} + {¬ capture st}.
Proof.
  unfold capture. destruct (ec_attr st) as [a|]; [|by right; intros (?&?&?)].
  destruct (decide (direction a = PAL_AUDIO_INPUT)); [left; by exists a|].
  right. by intros (?&[= ->]&?).
Qed.

Lemma skipped_type (a : pal_stream_attributes) :
  direction a = PAL_AUDIO_INPUT →
  (type a = PAL_STREAM_PROXY ∨
    type a ∈ [PAL_STREAM_ULTRA_LOW_LATENCY; PAL_STREAM_GENERIC] ∧ direction a = PAL_AUDIO_INPUT) ↔
  type a ∈ [PAL_STREAM_PROXY; PAL_STREAM_ULTRA_LOW_LATENCY; PAL_STREAM_GENERIC].
Proof. rewrite !elem_of_cons. tauto. Qed.

Lemma enable_ec_ok d s w st :
  ec_ok w → rm_locked w = true → ec_streams w !! s = Some st → (d, s) ∈ active_devices w →
  (capture st → ec_devices st = [d] ∧ ∀ t' k', ec_count (deviceInfo w) t' k' s ≤ 0) →
  (¬ capture st → d ≠ PAL_DEVICE_OUT_MIN) →
  st_wp (checkandEnableEC_l d s true) (λ _, settled w) w.
Proof using Hdev.
  intros Hok Hlock Hs Hact Hcap Hplay. destruct (capture_dec st) as [Hc|Hc].
  2: { eapply playback_ok; try done. by apply Hplay. }
  destruct (Hcap Hc) as [Hd Hnone]. pose proof Hc as (a&Ha&Hdir).
  unfold checkandEnableEC_l. apply st_wp_bind. eapply st_wp_stream_of; [done|]. rewrite Ha.
  case_bool_decide as Ht; [by apply st_wp_ret|]. rewrite decide_True by done.
  rewrite skipped_type in Ht by done. eapply tx_stream_on; try done.
  intros a' Ha'. by replace a' with a by congruence.
Qed.

Lemma disable_ec_ok d s w st :
  ec_ok_for (λ s', s' ≠ s ∨ ¬ capture st) w → rm_locked w = true →
  ec_streams w !! s = Some st →
  (∀ t' k', capture st → 0 < ec_count (deviceInfo w) t' k' s →
     t' = d ∧ eligible (deviceInfo w) d st) →
  (¬ capture st → d ≠ PAL_DEVICE_OUT_MIN) →
  st_wp (checkandEnableEC_l d s false) (λ _, settled w) w.
Proof using Hdev.
  intros Hok Hlock Hs Hcap Hplay. destruct (capture_dec st) as [Hc|Hc].
  2: { eapply playback_ok; try done; [|by apply Hplay].
       eapply ok_weaken; [|exact Hok]. by right. }
  assert (Hok' : ec_ok_for (.≠ s) w) by (eapply ok_weaken; [|exact Hok]; by left).
  pose proof Hc as (a&Ha&Hdir).
  unfold checkandEnableEC_l. apply st_wp_bind. eapply st_wp_stream_of; [done|]. rewrite Ha.
  case_bool_decide as Ht.
  - rewrite skipped_type in Ht by done. apply st_wp_ret. split; [|done].
    replace w with (set_deviceInfo (deviceInfo w) w) by (by destruct w).
    eapply ok_update; try done; [by apply Hok|].
    intros _ t' k' Hcount. destruct (Hcap _ _ Hc Hcount) as [_ (a'&?&Hn&_)].
    replace a' with a in Hn by congruence. done.
  - rewrite decide_True by done. eapply tx_stream_off; try done. intros t' k'. by apply Hcap.
Qed.

Lemma registered_ok w d s st :
  ec_ok w → ec_streams w !! s = Some st → (capture st → ec_devices st = [d]) →
  (d, s) ∉ active_devices w →
  ec_ok (set_active_devices (active_devices w ++ [(d, s)]) w) ∧
  (capture st → ∀ t' k', ec_count (deviceInfo w) t' k' s ≤ 0).
Proof.
  intros Hok Hs Hd Hnew. split.
  - destruct Hok. constructor; simpl; try done.
    + apply NoDup_app. split; [done|]. split; [|apply NoDup_singleton].
      intros p ? ->%list_elem_of_singleton. done.
    + intros d' s' [?|[= -> ->]%list_elem_of_singleton]%elem_of_app; [auto|by exists st].
    + intros t k s' st' ? Hc Hs' Hcap. destruct (ok_counted0 t k s' st') as (?&?); [done..|].
      split; [|done]. simpl. rewrite elem_of_app. by left.
  - intros Hcap t' k'. destruct (decide (0 < ec_count (deviceInfo w) t' k' s)) as [Hc|]; [|lia].
    destruct (ok_counted _ _ Hok t' k' s st) as (Hact&_); [done..|].
    destruct (ok_active _ _ Hok _ _ Hact) as (st1&Hs1&Hd1).
    replace st1 with st in * by congruence. specialize (Hd Hcap). specialize (Hd1 Hcap).
    assert (t' = d) as -> by congruence. done.
Qed.

Lemma deregistered_ok w d s st :
  ec_ok w → ec_streams w !! s = Some st → (capture st → ec_devices st = [d]) →
  ec_ok_for (λ s', s' ≠ s ∨ ¬ capture st)
    (set_active_devices (erase_first (d, s) (active_devices w)) w) ∧
  (∀ t' k', capture st → 0 < ec_count (deviceInfo w) t' k' s →
     t' = d ∧ eligible (deviceInfo w) d st).
Proof.
  intros Hok Hs Hd. split.
  - destruct Hok. constructor; simpl; try done.
    + by apply erase_first_NoDup.
    + intros d' s' [??]%erase_first_elem; auto.
    + intros t k s' st' Hor Hc Hs' Hcap. destruct (ok_counted0 t k s' st') as (?&?); [done..|].
      split; [|done]. simpl. apply erase_first_elem; [done|]. split; [done|].
      intros [= -> ->]. destruct Hor as [|[]]; [done|]. congruence.
  - intros t' k' Hcap Hc. destruct (ok_counted _ _ Hok t' k' s st) as (Hact&_&_&?); [done..|].
    destruct (ok_active _ _ Hok _ _ Hact) as (st1&Hs1&Hd1).
    replace st1 with st in * by congruence. specialize (Hd Hcap). specialize (Hd1 Hcap).
    assert (t' = d) as -> by congruence. done.
Qed.

Lemma registerDevice_ok d s w :
  ec_ok w → rm_locked w = false → proper_pair w d s →
  st_wp (registerDevice d s) (λ rc w', rc = 0 ∧ ec_ok w' ∧ rm_locked w' = false) w.
Proof using Hdev.
  intros Hok Hlock (st&Hs&Hcap&Hplay). unfold registerDevice.
  apply st_wp_bind, st_wp_lock; [done|]. apply st_wp_bind. unfold registerDevice_l, st_wp at 1.
  change (active_devices (set_rm_locked true w)) with (active_devices w).
  assert (Hok1 : ec_ok (set_rm_locked true w)) by by apply ok_locked.
  destruct (decide ((d, s) ∈ active_devices w)) as [Hin|Hnew].
  { do 2 eexists. split; [done|]. cbn. apply st_wp_bind, st_wp_ret, st_wp_bind.
    apply st_wp_unlock; [done|]. apply st_wp_ret. split; [done|]. split; [|done].
    by apply ok_locked. }
  do 2 eexists. split; [done|]. cbn. apply st_wp_bind.
  destruct (registered_ok (set_rm_locked true w) d s st) as [Hok2 Hnone]; [done..|].
  eapply st_wp_mono.
  { eapply enable_ec_ok; [exact Hok2|done|exact Hs| |auto|done].
    simpl. rewrite elem_of_app, list_elem_of_singleton. by right. }
  simpl. intros rc w2 (Hok3&_&Hl3). apply st_wp_bind, st_wp_unlock; [done|].
  apply st_wp_ret. split; [done|]. split; [by apply ok_locked|done].
Qed.

Lemma deregisterDevice_ok d s w :
  ec_ok w → rm_locked w = false → proper_pair w d s →
  st_wp (deregisterDevice d s) (λ rc w', rc = 0 ∧ ec_ok w' ∧ rm_locked w' = false) w.
Proof using Hdev.
  intros Hok Hlock (st&Hs&Hcap&Hplay). unfold deregisterDevice.
  apply st_wp_bind, st_wp_lock; [done|]. apply st_wp_bind. unfold deregisterDevice_l, st_wp at 1.
  change (active_devices (set_rm_locked true w)) with (active_devices w).
  assert (Hok1 : ec_ok (set_rm_locked true w)) by by apply ok_locked.
  destruct (decide ((d, s) ∈ active_devices w)) as [Hin|Hnew].
  2: { do 2 eexists. split; [done|]. cbn. apply st_wp_bind, st_wp_ret, st_wp_bind.
       apply st_wp_unlock; [done|]. apply st_wp_ret. split; [done|]. split; [|done].
       by apply ok_locked. }
  do 2 eexists. split; [done|]. cbn. apply st_wp_bind.
  destruct (deregistered_ok (set_rm_locked true w) d s st) as [Hok2 Hown]; [done..|].
  eapply st_wp_mono.
  { eapply disable_ec_ok; [exact Hok2|done|exact Hs|exact Hown|exact Hplay]. }
  simpl. intros rc w2 (Hok3&_&Hl3). apply st_wp_bind, st_wp_unlock; [done|].
  apply st_wp_ret. split; [done|]. split; [by apply ok_locked|done].
Qed.

(** ** Histories *)

Definition opened (s : positive) (st : EcStream) (k : Z) (w : EcWorld) : EcWorld :=
  mkEc (deviceInfo w) (active_devices w) (mActiveStreams w ++ [s])
    (<[k := default [] (activeStreamMap w !! k) ++ [s]]> (activeStreamMap w))
    (<[s := st]> (ec_streams w)) (echoReference w) (mixer_calls w) (rm_locked w).

Definition closed (s : positive) (w : EcWorld) : EcWorld :=
  mkEc (deviceInfo w) (active_devices w) (filter (.≠ s) (mActiveStreams w))
    (filter (.≠ s) <$> activeStreamMap w)
    (delete s (ec_streams w)) (echoReference w) (mixer_calls w) (rm_locked w).

(** What happens between the calls: streams are opened at addresses the tables do not know,
    change their state, closed once their devices are deregistered; a capture stream keeps
    its device while it is registered. *)
Inductive ec_step (w : EcWorld) : EcWorld → Prop :=
  | step_register d s rc w' :
      proper_pair w d s → registerDevice d s w = Some (rc, w') → ec_step w w'
  | step_deregister d s rc w' :
      proper_pair w d s → deregisterDevice d s w = Some (rc, w') → ec_step w w'
  | step_change s st st' :
      ec_streams w !! s = Some st → ec_attr st' = ec_attr st → ec_session st' = ec_session st →
      (∀ d, (d, s) ∈ active_devices w → capture st → ec_devices st' = ec_devices st) →
      ec_step w (set_ec_streams (<[s := st']> (ec_streams w)) w)
  | step_open s st k :
      ec_streams w !! s = None → is_Some (ec_attr st) →
      (capture st → ec_session st ≠ Some SessionAlsaVoice) →
      (∀ t k, ec_count (deviceInfo w) t k s ≤ 0) → ec_step w (opened s st k w)
  | step_close s :
      (∀ d, (d, s) ∉ active_devices w) → ec_step w (closed s w).

Lemma change_ok w s st st' :
  ec_ok w → ec_streams w !! s = Some st → ec_attr st' = ec_attr st →
  ec_session st' = ec_session st →
  (∀ d, (d, s) ∈ active_devices w → capture st → ec_devices st' = ec_devices st) →
  ec_ok (set_ec_streams (<[s := st']> (ec_streams w)) w).
Proof.
  intros [] Hs Ha Hse Hd.
  assert (Hcap : capture st' ↔ capture st) by (unfold capture; by rewrite Ha).
  constructor; simpl; try done.
  - intros s' st1 [[<- <-]|[??]]%lookup_insert_Some; [|by eapply ok_streams0].
    rewrite Ha, Hse, Hcap. by apply ok_streams0 with s.
  - intros s' ?%ok_listed0. rewrite lookup_insert_is_Some'. by right.
  - intros d s' Hin. destruct (ok_active0 _ _ Hin) as (st1&Hs1&Hd1).
    destruct (decide (s' = s)) as [->|].
    + exists st'. rewrite lookup_insert_eq. split; [done|]. intros Hc%Hcap.
      replace st1 with st in * by congruence. rewrite (Hd d); auto.
    + exists st1. by rewrite lookup_insert_ne.
  - intros t k s' st1 _ Hc [[<- <-]|[??]]%lookup_insert_Some Hcap1.
    + destruct (ok_counted0 t k s st) as (?&Href&?&a&?&?&?); [done..|by apply Hcap|].
      split; [done|]. unfold ec_ref_of in *. rewrite Hse. split; [done|]. split; [done|].
      exists a. by rewrite Ha.
    + destruct (ok_counted0 t k s' st1) as (?&?); done.
Qed.

Lemma ec_opened_ok w s st k :
  ec_ok w → ec_streams w !! s = None → is_Some (ec_attr st) →
  (capture st → ec_session st ≠ Some SessionAlsaVoice) →
  (∀ t k, ec_count (deviceInfo w) t k s ≤ 0) → ec_ok (opened s st k w).
Proof.
  intros [] Hs Ha Hv Hc. constructor; simpl; try done.
  - intros s' st1 [[<- <-]|[??]]%lookup_insert_Some; [done|by eapply ok_streams0].
  - intros s' Hin. rewrite lookup_insert_is_Some'.
    destruct (decide (s = s')) as [|Hne]; [by left|right]. apply ok_listed0.
    destruct Hin as [[?| ->%list_elem_of_singleton]%elem_of_app|[k' Hin]]; [by left|done|right].
    destruct (decide (k = k')) as [<-|]; [|exists k'; by rewrite lookup_insert_ne in Hin].
    rewrite lookup_insert_eq in Hin. simpl in Hin. exists k.
    apply elem_of_app in Hin as [?| ->%list_elem_of_singleton]; done.
  - intros d s' Hin. destruct (ok_active0 _ _ Hin) as (st1&Hs1&?). exists st1.
    rewrite lookup_insert_ne; [done|congruence].
  - intros t k' s' st1 _ Hc1 [[<- <-]|[??]]%lookup_insert_Some Hcap1;
      [specialize (Hc t k'); lia|]. by apply (ok_counted0 t k' s' st1).
Qed.

Lemma ec_closed_ok w s : ec_ok w → (∀ d, (d, s) ∉ active_devices w) → ec_ok (closed s w).
Proof.
  intros [] Hno. constructor; simpl; try done.
  - intros s' st1 [??]%lookup_delete_Some. by eapply ok_streams0.
  - intros s' Hin. assert (s' ≠ s ∧ is_Some (ec_streams w !! s')) as [Hne ?].
    { destruct Hin as [[? ?]%list_elem_of_filter|[k Hin]]; [by auto|].
      rewrite lookup_fmap in Hin. destruct (activeStreamMap w !! k) eqn:E; simpl in Hin;
        [|by apply not_elem_of_nil in Hin].
      apply list_elem_of_filter in Hin as [??]. split; [done|]. apply ok_listed0. right. exists k.
      by rewrite E. }
    by rewrite lookup_delete_ne.
  - intros d s' Hin. destruct (ok_active0 _ _ Hin) as (st1&Hs1&?). exists st1.
    rewrite lookup_delete_ne; [done|]. intros <-. by apply (Hno d).
  - intros t k' s' st1 _ Hc1 [??]%lookup_delete_Some Hcap1. by apply (ok_counted0 t k' s' st1).
Qed.

Lemma ec_step_ok w w' :
  ec_ok w ∧ rm_locked w = false → ec_step w w' → ec_ok w' ∧ rm_locked w' = false.
Proof using Hdev.
  intros [Hok Hl] Hstep. destruct Hstep as [d s rc w' Hp Hrun|d s rc w' Hp Hrun| | |].
  - destruct (registerDevice_ok d s w Hok Hl Hp) as (rc'&w1&Hrun'&_&?&?). by simplify_eq.
  - destruct (deregisterDevice_ok d s w Hok Hl Hp) as (rc'&w1&Hrun'&_&?&?). by simplify_eq.
  - split; [by eapply change_ok|done].
  - split; [by apply ec_opened_ok|done].
  - split; [by apply ec_closed_ok|done].
Qed.

End invariant.

(** ** Examples *)

Module EcExamples.

Definition attrs (ty dir : Z) : pal_stream_attributes :=
  mkAttr ty (opt_stream_info (mkStreamInfo 0 0 0 false false 0 0 0 0 false)) 0 dir
    (mkMedia 48000 16 1 (mkChannels 1 [1])) (mkMedia 48000 16 1 (mkChannels 1 [1])) None.

(** One capture device with two playback devices as possible references. *)
Definition devices : list deviceIn :=
  [mkDeviceIn PAL_DEVICE_OUT_SPEAKER [] ∅ false true [];
   mkDeviceIn PAL_DEVICE_OUT_WIRED_HEADSET [] ∅ false true [];
   mkDeviceIn PAL_DEVICE_IN_SPEAKER_MIC
     [PAL_DEVICE_OUT_SPEAKER; PAL_DEVICE_OUT_WIRED_HEADSET] ∅ false true []].

Definition recorder : EcStream :=
  mkEcStream (Some (attrs PAL_STREAM_VOIP_TX PAL_AUDIO_INPUT)) [PAL_DEVICE_IN_SPEAKER_MIC]
    STREAM_STARTED (Some (SessionAlsaPcm PAL_DEVICE_OUT_MIN [100])).
Definition player (d : Z) : EcStream :=
  mkEcStream (Some (attrs PAL_STREAM_DEEP_BUFFER PAL_AUDIO_OUTPUT)) [d] STREAM_STARTED None.

Definition streams : gmap positive EcStream :=
  {[1%positive := recorder; 2%positive := player PAL_DEVICE_OUT_SPEAKER;
    3%positive := player PAL_DEVICE_OUT_WIRED_HEADSET]}.

Definition idle : EcWorld :=
  mkEc devices [] [1%positive; 2%positive; 3%positive]
    {[PAL_STREAM_VOIP_TX := [1%positive]; PAL_STREAM_DEEP_BUFFER := [2%positive; 3%positive]]}
    streams ∅ 0 false.

(** The mixer returns [r n] for its [n]-th access. *)
Definition env (r : nat → Z) : EcEnv := {|
  txEcInfo := [];
  backend_name := λ d, if decide (d = PAL_DEVICE_OUT_SPEAKER) then "SPK"%string else "HS"%string;
  device_key := λ _, ""%string;
  mixer_result := r;
  checkAndSetExtEC := λ _ _, st_ret 0;
|}.

Fixpoint calls `{EcEnv} (l : list (bool * Z * positive)) (w : EcWorld) : option EcWorld :=
  match l with
  | [] => Some w
  | (on, d, s) :: l =>
      r ← (if on : bool then registerDevice d s w else deregisterDevice d s w);
      calls l r.2
  end.

(** The count and the reference of the recording stream, and its mixer control. *)
Definition view (w : option EcWorld) : option (Z * Z * option Z * option string) :=
  w ← w; st ← ec_streams w !! 1%positive;
  Some (ec_count (deviceInfo w) PAL_DEVICE_IN_SPEAKER_MIC PAL_DEVICE_OUT_SPEAKER 1,
        ec_count (deviceInfo w) PAL_DEVICE_IN_SPEAKER_MIC PAL_DEVICE_OUT_WIRED_HEADSET 1,
        ec_ref_of st, echoReference w !! 100).

Definition rec_on := (true, PAL_DEVICE_IN_SPEAKER_MIC, 1%positive).
Definition spk_on := (true, PAL_DEVICE_OUT_SPEAKER, 2%positive).
Definition hs_on := (true, PAL_DEVICE_OUT_WIRED_HEADSET, 3%positive).
Definition spk_off := (false, PAL_DEVICE_OUT_SPEAKER, 2%positive).
Definition hs_off := (false, PAL_DEVICE_OUT_WIRED_HEADSET, 3%positive).

Lemma ec_idle_ok `{EcEnv} : ec_ok idle.
Proof.
  assert (H0 : ∀ t k s, ec_count devices t k s = 0).
  { intros t k s. unfold ec_count, find_device, devices. simpl.
    repeat (case_decide; [done|]; simpl). done. }
  constructor.
  - repeat constructor; simpl; intros k; split; unfold counts_of; rewrite lookup_empty; constructor.
  - repeat constructor.
  - intros s st. unfold idle, streams. simpl. rewrite !lookup_insert_Some, lookup_singleton_Some.
    intros [[_ <-]|[_ [[_ <-]|[_ [_ <-]]]]]; by split; [eexists|].
  - assert (Hs : Forall (λ s, is_Some (streams !! s)) [1%positive; 2%positive; 3%positive])
      by (repeat constructor; vm_compute; by eexists).
    rewrite Forall_forall in Hs. intros s [Hin|[k Hin]]; [by apply Hs|]. apply Hs.
    unfold idle in Hin. simpl in Hin. revert Hin. rewrite lookup_insert.
    case_decide; simpl; [set_solver|]. rewrite lookup_singleton. case_decide; set_solver.
  - constructor.
  - by intros d s ?%not_elem_of_nil.
  - intros t k s st _ Hc. simpl in Hc. rewrite H0 in Hc. lia.
Qed.
End EcExamples.
Import EcExamples.

(** A reference is lost when a second playback device stops.  The counts are documented as
    the number of playback streams on the device, but a capture stream that moves to the
    reference of a second device forgets the count of the first: when the second stops, the
    stream on the first device still plays and the capture stream has no reference. *)
Theorem second_device_loses_reference :
  let calls := @calls (env (λ _, 0)) in
  view (calls [rec_on; spk_on] idle) = Some (1, 0, Some 3, Some "SPK"%string) ∧
  view (calls [rec_on; spk_on; hs_on] idle) = Some (0, 1, Some 4, Some "HS"%string) ∧
  view (calls [rec_on; spk_on; hs_on; hs_off] idle) =
    Some (0, 0, Some 0, Some "ZERO"%string).
Proof. vm_compute. auto. Qed.

(** A mixer that refuses the new path after the old one is cleared leaves the session with a
    reference its path does not carry; starting that device again does not set the path. *)
Lemma failed_switch_leaves_stale_reference :
  let calls := @calls (env (λ n, if decide (n = 2%nat) then - EIO else 0)) in
  view (calls [rec_on; spk_on; hs_on] idle) =
    Some (0, 0, Some 3, Some "ZERO"%string) ∧
  view (calls [rec_on; spk_on; hs_on; spk_off; spk_on] idle) =
    Some (1, 0, Some 3, Some "ZERO"%string).
Proof. vm_compute. auto. Qed.

(** [-ENODEV] when a capture stream starts is reported as success and leaves the count. *)
Lemma unsupported_reference_stays_counted :
  view (@calls (env (λ _, - ENODEV)) [spk_on; rec_on] idle) =
    Some (1, 0, Some 0, None).
Proof. vm_compute. auto. Qed.

(** ** Instances *)

Lemma updateECDeviceMap_counters_witness :
  let r := updateECDeviceMap (Some 3) (Some 32) 1 2 false EcExamples.devices in
  ec_wf r.2 ∧ ec_count r.2 32 3 1 = 2.
Proof.
  destruct (updateECDeviceMap_counters (Some 3) (Some 32) 1 2 false EcExamples.devices)
    as (Hwf&_&Hc&_).
  - exact (ok_wf _ _ (EcExamples.ec_idle_ok (H := env (λ _, 0)))).
  - lia.
  - done.
  - split; [exact Hwf|]. cbn zeta in Hc. rewrite Hc. reflexivity.
Defined.

Definition after (l : list (bool * Z * positive)) : EcWorld :=
  default idle (@calls (env (λ _, 0)) l idle).

