(* ===== verification/CaptureProfile.v ===== *)
(** * Capture profiles and vendor UUIDs (utils/src/SoundTriggerPlatformInfo.cpp)

    The capture profile of a sound trigger stream and the comparison by which the
    streams agree on the configuration of a shared back end; the UUIDs that key the
    configurations of the vendors' sound models.  The readers of the platform XML
    file are not modelled: a profile is what they filled in. *)

From S2P Require Import Prelude.

(** ** Capture profiles *)

(** [cp_ptr] is the identity of the shared profile. *)
Record CaptureProfile := mkCapProf {
  cp_ptr : Z;
  cp_name : string;
  cp_dev_id : Z;
  cp_sample_rate : Z;
  cp_bit_width : Z;
  cp_channels : Z;
  cp_snd_name : string;
  cp_ec_req : bool;
  cp_backend : string;
}.

#[export] Instance CaptureProfile_eq_dec : EqDecision CaptureProfile.
Proof. solve_decision. Defined.

Definition CAPTURE_PROFILE_PRIORITY_HIGH : Z := 1.

(** [priority_check++] or [priority_check--] for an attribute that differs. *)
Definition attribute_vote (mine theirs : Z) : Z :=
  if decide (mine ≠ theirs) then (if decide (mine > theirs) then 1 else -1) else 0.

Definition ComparePriority (cap : CaptureProfile) (cap_prof : option CaptureProfile) : Z :=
  match cap_prof with
  | None => CAPTURE_PROFILE_PRIORITY_HIGH
  | Some other =>
      if decide (cp_backend cap ≠ cp_backend other) then - EINVAL
      else attribute_vote (cp_channels cap) (cp_channels other)
           + attribute_vote (cp_sample_rate cap) (cp_sample_rate other)
           + attribute_vote (cp_bit_width cap) (cp_bit_width other)
  end.

(** ** UUIDs *)

(** [node] is an array of six bytes. *)
Record SoundTriggerUUID := mkUuid {
  timeLow : Z;
  timeMid : Z;
  timeHiAndVersion : Z;
  clockSeq : Z;
  node : list Z;
}.

#[export] Instance SoundTriggerUUID_eq_dec : EqDecision SoundTriggerUUID.
Proof. solve_decision. Defined.

Definition uuid_wf (u : SoundTriggerUUID) : Prop := length (node u) = 6%nat.

(** The loop over [node] in [operator<]. *)
Fixpoint node_lt (n : nat) (mine theirs : list Z) : bool :=
  match n, mine, theirs with
  | S n, x :: mine, y :: theirs =>
      if decide (x > y) then false else if decide (x < y) then true
      else node_lt n mine theirs
  | _, _, _ => false
  end.

(** [SoundTriggerUUID::operator<], the order of the configuration maps. *)
Definition uuid_lt (u rhs : SoundTriggerUUID) : bool :=
  if decide (timeLow u > timeLow rhs) then false
  else if decide (timeLow u < timeLow rhs) then true
  else if decide (timeMid u > timeMid rhs) then false
  else if decide (timeMid u < timeMid rhs) then true
  else if decide (timeHiAndVersion u > timeHiAndVersion rhs) then false
  else if decide (timeHiAndVersion u < timeHiAndVersion rhs) then true
  else if decide (clockSeq u > clockSeq rhs) then false
  else if decide (clockSeq u < clockSeq rhs) then true
  else node_lt 6 (node u) (node rhs).

Fixpoint node_eq (n : nat) (mine theirs : list Z) : bool :=
  match n, mine, theirs with
  | S n, x :: mine, y :: theirs => if decide (y ≠ x) then false else node_eq n mine theirs
  | _, _, _ => true
  end.

Definition CompareUUID (u uuid : SoundTriggerUUID) : bool :=
  if decide (timeLow uuid ≠ timeLow u ∨ timeMid uuid ≠ timeMid u ∨
             timeHiAndVersion uuid ≠ timeHiAndVersion u ∨ clockSeq uuid ≠ clockSeq u)
  then false else node_eq 6 (node u) (node uuid).
