(* ===== verification/CaptureProfileFacts.v ===== *)
(** * Capture profiles and UUIDs: what the comparisons decide

    [operator<] of UUIDs is the lexicographic order, a strict total order, so it may
    key a map.  [ComparePriority] is a majority vote over three attributes: it is
    antisymmetric but not transitive. *)

From S2P Require Import Prelude CaptureProfile.

(** ** UUIDs *)

Fixpoint lex_lt (l k : list Z) : Prop :=
  match l, k with
  | x :: l, y :: k => x < y ∨ x = y ∧ lex_lt l k
  | _, _ => False
  end.

Lemma lex_lt_irrefl l : ¬ lex_lt l l.
Proof. induction l; simpl; [tauto|]. intros [?|[_ ?]]; [lia|auto]. Qed.

Lemma lex_lt_trans l k m : lex_lt l k → lex_lt k m → lex_lt l m.
Proof.
  revert k m. induction l as [|x l IH]; intros [|y k] [|z m]; simpl; try tauto.
  intros [?|[-> ?]] [?|[-> ?]]; eauto with lia.
Qed.

Lemma lex_lt_total l k :
  length l = length k → lex_lt l k ∨ l = k ∨ lex_lt k l.
Proof.
  revert k. induction l as [|x l IH]; intros [|y k] [=]; simpl; [by auto|].
  destruct (Z.lt_total x y) as [?|[->|?]]; [by auto| |by auto].
  destruct (IH k) as [?|[->|?]]; auto.
Qed.

Definition uuid_fields (u : SoundTriggerUUID) : list Z :=
  timeLow u :: timeMid u :: timeHiAndVersion u :: clockSeq u :: node u.

Lemma uuid_fields_inj u v : uuid_fields u = uuid_fields v → u = v.
Proof. destruct u, v. unfold uuid_fields. simpl. congruence. Qed.

Lemma node_lt_lex n l k :
  length l = n → length k = n → node_lt n l k = true ↔ lex_lt l k.
Proof.
  revert l k. induction n as [|n IH]; intros [|x l] [|y k]; simpl; try (by intuition congruence).
  intros [= Hl] [= Hk]. repeat case_decide; try (intuition (congruence || lia)).
  rewrite IH by done. intuition lia.
Qed.

Lemma uuid_lt_lex u v :
  uuid_wf u → uuid_wf v → uuid_lt u v = true ↔ lex_lt (uuid_fields u) (uuid_fields v).
Proof.
  intros Hu Hv. unfold uuid_lt, uuid_fields. cbn [lex_lt].
  rewrite <-(node_lt_lex 6) by done.
  repeat case_decide; intuition (congruence || lia).
Qed.

Lemma node_eq_spec n l k :
  length l = n → length k = n → node_eq n l k = true ↔ l = k.
Proof.
  revert l k. induction n as [|n IH]; intros [|x l] [|y k]; simpl; try (by intuition congruence).
  intros [= Hl] [= Hk]. case_decide; [intuition congruence|].
  rewrite IH by done. intuition congruence.
Qed.

Lemma CompareUUID_spec u v : uuid_wf u → uuid_wf v → CompareUUID u v = true ↔ u = v.
Proof.
  intros Hu Hv. unfold CompareUUID. case_decide.
  - split; [done|intros ->; intuition].
  - rewrite node_eq_spec by done. destruct u, v; simpl in *.
    split; [intros ->; f_equal; lia|congruence].
Qed.

(** [operator<] of UUIDs is a strict total order on well-formed UUIDs, and
    [CompareUUID] answers true exactly when neither is less: equal keys of a map are
    equal UUIDs. *)
Theorem uuid_order :
  (∀ u, uuid_wf u → uuid_lt u u = false) ∧
  (∀ u v w, uuid_wf u → uuid_wf v → uuid_wf w →
     uuid_lt u v = true → uuid_lt v w = true → uuid_lt u w = true) ∧
  (∀ u v, uuid_wf u → uuid_wf v →
     (CompareUUID u v = true ↔ u = v) ∧
     (uuid_lt u v = false ∧ uuid_lt v u = false ↔ u = v)).
Proof.
  split_and!.
  - intros u ?. apply not_true_is_false. rewrite uuid_lt_lex by done. apply lex_lt_irrefl.
  - intros u v w ???. rewrite !uuid_lt_lex by done. apply lex_lt_trans.
  - intros u v ??. split; [by apply CompareUUID_spec|].
    rewrite <-!not_true_iff_false, !uuid_lt_lex by done. split.
    + intros [??]. apply uuid_fields_inj.
      destruct (lex_lt_total (uuid_fields u) (uuid_fields v)) as [?|[?|?]]; [|done..|done].
      unfold uuid_fields, uuid_wf in *. simpl. congruence.
    + intros ->. split; apply lex_lt_irrefl.
Qed.

Lemma uuid_order_witness :
  let u := mkUuid 1757235520 59488 4579 38383 [0; 2; 165; 213; 197; 27] in
  uuid_wf u ∧ uuid_lt u u = false.
Proof.
  intros u. assert (uuid_wf u) as Hu by reflexivity.
  split; [exact Hu|]. exact (proj1 uuid_order u Hu).
Defined.

(** ** Capture profiles *)

Lemma attribute_vote_opp x y : attribute_vote x y = - attribute_vote y x.
Proof. unfold attribute_vote. repeat case_decide; lia. Qed.

Lemma attribute_vote_range x y : -1 ≤ attribute_vote x y ≤ 1.
Proof. unfold attribute_vote. repeat case_decide; lia. Qed.

Lemma attribute_vote_ge x y : y ≤ x → 0 ≤ attribute_vote x y.
Proof. unfold attribute_vote. repeat case_decide; lia. Qed.

Lemma ComparePriority_opp p q :
  cp_backend p = cp_backend q →
  ComparePriority p (Some q) = - ComparePriority q (Some p).
Proof.
  intros E. unfold ComparePriority. rewrite !decide_False by congruence.
  rewrite (attribute_vote_opp (cp_channels p)), (attribute_vote_opp (cp_sample_rate p)),
    (attribute_vote_opp (cp_bit_width p)). lia.
Qed.

(** A profile that is at least as good in every attribute. *)
Definition dominates (p q : CaptureProfile) : Prop :=
  cp_backend p = cp_backend q ∧ cp_channels q ≤ cp_channels p ∧
  cp_sample_rate q ≤ cp_sample_rate p ∧ cp_bit_width q ≤ cp_bit_width p.

Lemma dominates_priority p q : dominates p q → 0 ≤ ComparePriority p (Some q).
Proof.
  intros (E&?&?&?). unfold ComparePriority. rewrite decide_False by congruence.
  pose proof (attribute_vote_ge (cp_channels p) (cp_channels q)).
  pose proof (attribute_vote_ge (cp_sample_rate p) (cp_sample_rate q)).
  pose proof (attribute_vote_ge (cp_bit_width p) (cp_bit_width q)). lia.
Qed.

#[export] Instance dominates_preorder : PreOrder dominates.
Proof.
  split.
  - intros p. unfold dominates. intuition lia.
  - intros p q r (?&?&?&?) (?&?&?&?). unfold dominates. intuition (congruence || lia).
Qed.

(** Equal in all that the comparison looks at. *)
Lemma dominates_same p q :
  dominates p q → ComparePriority p (Some q) = 0 → dominates q p.
Proof.
  intros (E&?&?&?). unfold ComparePriority, dominates, attribute_vote.
  repeat case_decide; intuition (congruence || lia).
Qed.
