(* ===== verification/SoundTriggerState.v ===== *)
(** * Sound trigger streams: the state and the environment

    The data of stream/StreamSoundTrigger/inc/StreamSoundTrigger.h: the states and
    events of the state machine, the structures a client passes in (inc/PalDefs.h),
    the platform configuration a stream reads (utils/inc), the object itself, and
    the interface [StEnv] to what the stream drives: detection engines, devices, the
    voice UI plug-in, the resource manager and the ring buffer's readers.

    Every call out is logged with its result.  Pointers that may be null are
    options; engines, readers, plug-in interfaces are named by integers, a device by
    its id.  Log messages are not modelled; their arguments count as evaluated in
    error messages only. *)

From S2P Require Import Prelude PalDefs.
From S2P Require Export CaptureProfile.

(** ** States and events *)

Inductive st_state_id_t :=
  | ST_STATE_NONE | ST_STATE_IDLE | ST_STATE_LOADED | ST_STATE_ACTIVE
  | ST_STATE_DETECTED | ST_STATE_BUFFERING | ST_STATE_SSR.

#[export] Instance st_state_id_eq_dec : EqDecision st_state_id_t.
Proof. solve_decision. Defined.

Definition ENGINE_IDLE : Z := 0.
Definition GMM_DETECTED : Z := 1.
Definition KEYWORD_DETECTION_SUCCESS : Z := 2.
Definition KEYWORD_DETECTION_REJECT : Z := 4.
Definition USER_VERIFICATION_SUCCESS : Z := 8.
Definition USER_VERIFICATION_REJECT : Z := 16.
Definition DETECTION_TYPE_SS : Z := 30.
Definition DETECTION_TYPE_ALL : Z := 287.
Definition THRESHOLD_REACHED : Z := 256.

Definition PAL_RECOGNITION_STATUS_SUCCESS : Z := 0.
Definition PAL_RECOGNITION_STATUS_ABORT : Z := 1.
Definition PAL_RECOGNITION_STATUS_FAILURE : Z := 2.

Definition ST_SM_ID_SVA_F_STAGE_GMM : Z := 1.
Definition ST_SM_ID_SVA_S_STAGE_USER : Z := 4.
Definition ST_SM_ID_SVA_S_STAGE_KWD : Z := 74.
Definition ST_SM_ID_SVA_S_STAGE_CTIUV : Z := 128.

Definition ST_MODULE_TYPE_GMM : Z := 3.
Definition ST_MODULE_TYPE_PDK5 : Z := 5.
Definition ST_MODULE_TYPE_PDK6 : Z := 6.
Definition ST_MODULE_TYPE_MFCN : Z := 8.
Definition ST_MODULE_TYPE_HIST_CAP : Z := 300.

Definition IS_MODULE_TYPE_PDK (t : Z) : bool :=
  bool_decide (t = ST_MODULE_TYPE_PDK5 ∨ t = ST_MODULE_TYPE_PDK6 ∨ t = ST_MODULE_TYPE_MFCN).

Definition RESTART_IGNORED : Z := 1.
Definition ST_MODEL_TYPE_SHIFT : Z := 16.
Definition HIST_BUF_INBUF_COUNT : Z := 1920.
Definition BITS_PER_BYTE : Z := 8.
Definition MS_PER_SEC : Z := 1000.
Definition INSTANCE_1 : Z := 1.

(** ** Sound models and recognition configurations *)

Definition PAL_SOUND_MODEL_TYPE_KEYPHRASE : Z := 0.
Definition PAL_SOUND_MODEL_TYPE_GENERIC : Z := 1.

(** Sizes of the structures (LP64, [aligned (8)] on the first two). *)
Definition sizeof_pal_st_sound_model : Z := 48.
Definition sizeof_pal_st_phrase_sound_model : Z := 1296.
Definition sizeof_pal_st_recognition_config : Z := 1000.

(** [sm_num_phrases] and [sm_recognition_mode] (of the first phrase) belong to the
    key phrase variant; [sm_data] is the [data_size] bytes at [data_offset]. *)
Record pal_st_sound_model := mkSoundModel {
  sm_type : Z;
  vendor_uuid : Z;
  sm_data_size : Z;
  sm_data_offset : Z;
  sm_num_phrases : Z;
  sm_recognition_mode : Z;
  sm_data : list Z;
}.

Record pal_st_confidence_level := mkLevel { user_id : Z; level : Z }.

Record pal_st_phrase_recognition_extra := mkPhrase {
  ph_id : Z;
  recognition_modes : Z;
  confidence_level : Z;
  num_levels : Z;
  levels : list pal_st_confidence_level;
}.

(** [rc_data] is the [data_size] bytes at [data_offset]. *)
Record pal_st_recognition_config := mkRecCfg {
  capture_handle : Z;
  capture_device : Z;
  capture_requested : bool;
  num_phrases : Z;
  phrases : list pal_st_phrase_recognition_extra;
  data_size : Z;
  data_offset : Z;
  rc_data : list Z;
}.

#[export] Instance pal_st_sound_model_eq_dec : EqDecision pal_st_sound_model.
Proof. solve_decision. Defined.
#[export] Instance pal_st_confidence_level_eq_dec : EqDecision pal_st_confidence_level.
Proof. solve_decision. Defined.
#[export] Instance pal_st_phrase_eq_dec : EqDecision pal_st_phrase_recognition_extra.
Proof. solve_decision. Defined.
#[export] Instance pal_st_recognition_config_eq_dec : EqDecision pal_st_recognition_config.
Proof. solve_decision. Defined.

(** A model the voice UI plug-in split off the client's one. *)
Record sound_model_data_t := mkSmData { smd_ptr : Z; smd_type : Z }.

(** ** Platform configuration *)

Inductive StOperatingModes :=
  | ST_OPERATING_MODE_LOW_POWER | ST_OPERATING_MODE_HIGH_PERF
  | ST_OPERATING_MODE_HIGH_PERF_AND_CHARGING.
Inductive StInputModes := ST_INPUT_MODE_HANDSET | ST_INPUT_MODE_HEADSET.

(** The getters of a stream's configuration; [GetVUIFirstStageConfig] gives the
    LPI support of the first stage of a module type, if there is one. *)
Record VUIStreamConfig := mkVUI {
  GetStreamLPIFlag : bool;
  GetVUIFirstStageConfig : Z → option bool;
  GetCaptureProfile : StOperatingModes → StInputModes → option CaptureProfile;
  GetVUIModuleType : Z;
  GetVUIModuleName : string;
  GetVUIModuleName_of : Z → string;
  isQCVAUUID : bool;
  GetMergeFirstStageSoundModels : bool;
  GetSupportedEngineCount : Z;
  isSingleInstanceStage1 : bool;
  GetDetectionPropertyList : list Z;
  IsDetPropSupported_KEYWORD_BUFFER : bool;
  GetEnableLPILabEC : Z → bool;
  GetKwDuration : Z;
  GetPreRollDuration : Z;
  GetCaptureReadDelay : Z;
  GetSampleRate : Z;
  GetBitWidth : Z;
  GetOutChannels : Z;
  GetMmapEnable : bool;
  GetMmapBufferDuration : Z;
  GetMmapFrameLength : Z;
}.

(** ** Events *)

Inductive StEventConfig :=
  | StLoadEventConfig (data : pal_st_sound_model)
  | StUnloadEventConfig
  | StRecognitionCfgEventConfig (data : option pal_st_recognition_config)
  | StStartRecognitionEventConfig (restart : bool)
  | StStopRecognitionEventConfig (deferred : bool)
  | StDetectedEventConfig (det_type : Z)
  | StReadBufferEventConfig (size : Z)
  | StStopBufferingEventConfig
  | StPauseEventConfig
  | StResumeEventConfig
  | StDeviceConnectedEventConfig (dev_id : Z)
  | StDeviceDisconnectedEventConfig (dev_id : Z)
  | StSSROfflineConfig
  | StSSROnlineConfig
  | StConcurrentStreamEventConfig (is_active : bool)
  | StECRefEventConfig (dev : option Z) (is_enable : bool)
  | StInternalPauseEventConfig
  | StInternalResumeEventConfig
  | StForceRecognitionConfig
  | StFstageLoadConfig
  | StFstageUnloadConfig.

(** ** The stream *)

Inductive vote_type_t := LPI_VOTE | NLPI_VOTE.

Record StreamSoundTrigger := mkST {
  cur_state_ : st_state_id_t;
  prev_state_ : st_state_id_t;
  state_for_restore_ : st_state_id_t;
  currentState : stream_state_t;
  paused_ : bool;
  device_opened_ : bool;
  pending_stop_ : bool;
  timer_stop_waiting_ : bool;
  capture_requested_ : bool;
  rejection_notified_ : bool;
  mutex_unlocked_after_cb_ : bool;
  common_cp_update_disable_ : bool;
  second_stage_processing_ : bool;
  is_backend_shared_ : bool;
  is_abort_event_notifying_ : bool;
  batchModeReadDone_ : bool;
  conc_notified_ : bool;
  force_nlpi_vote : bool;
  skipSSRHandling : bool;
  callback_ : bool;
  sm_config_ : option pal_st_sound_model;
  rec_config_ : option pal_st_recognition_config;
  sm_cfg_ : option VUIStreamConfig;
  cap_prof_ : option CaptureProfile;
  dattr_specified_ : option pal_device;
  gsl_engine_model_ : option Z;
  gsl_engine_ : option Z;
  vui_intf_ : option Z;
  vui_intf_handle_ : option Z;
  engines_ : list (Z * Z);
  mDevices : list Z;
  mPalDevices : list Z;
  reader_ : option Z;
  reader_list_ : list Z;
  ec_rx_dev_ : option Z;
  model_type_ : Z;
  model_id_ : Z;
  mInstanceID : Z;
  recognition_mode_ : Z;
  sound_model_type_ : Z;
  detection_state_ : Z;
  notification_state_ : Z;
  hist_buf_duration_ : Z;
  pre_roll_duration_ : Z;
  inBufSize : Z;
  inBufCount : Z;
  vote_type_ : vote_type_t;
  mDevPPSelector : string;
  mStreamSelector : string;
  mStreamAttr : pal_stream_attributes;
}.

Definition st_eta (s : StreamSoundTrigger) : StreamSoundTrigger :=
  mkST
    (cur_state_ s) (prev_state_ s) (state_for_restore_ s) (currentState s) (paused_ s)
    (device_opened_ s) (pending_stop_ s) (timer_stop_waiting_ s) (capture_requested_ s)
    (rejection_notified_ s) (mutex_unlocked_after_cb_ s) (common_cp_update_disable_ s)
    (second_stage_processing_ s) (is_backend_shared_ s) (is_abort_event_notifying_ s)
    (batchModeReadDone_ s) (conc_notified_ s) (force_nlpi_vote s) (skipSSRHandling s)
    (callback_ s) (sm_config_ s) (rec_config_ s) (sm_cfg_ s) (cap_prof_ s)
    (dattr_specified_ s) (gsl_engine_model_ s) (gsl_engine_ s) (vui_intf_ s)
    (vui_intf_handle_ s) (engines_ s) (mDevices s) (mPalDevices s) (reader_ s)
    (reader_list_ s) (ec_rx_dev_ s) (model_type_ s) (model_id_ s) (mInstanceID s)
    (recognition_mode_ s) (sound_model_type_ s) (detection_state_ s)
    (notification_state_ s) (hist_buf_duration_ s) (pre_roll_duration_ s) (inBufSize s)
    (inBufCount s) (vote_type_ s) (mDevPPSelector s) (mStreamSelector s) (mStreamAttr s).

(** The function that replaces one field. *)
Ltac field_setter field := record_setter st_eta field.

Definition set_cur_state_ : st_state_id_t → StreamSoundTrigger → StreamSoundTrigger :=
  ltac:(field_setter cur_state_).
Definition set_prev_state_ : st_state_id_t → StreamSoundTrigger → StreamSoundTrigger :=
  ltac:(field_setter prev_state_).
Definition set_state_for_restore_ : st_state_id_t → StreamSoundTrigger → StreamSoundTrigger :=
  ltac:(field_setter state_for_restore_).
Definition set_currentState : stream_state_t → StreamSoundTrigger → StreamSoundTrigger :=
  ltac:(field_setter currentState).
Definition set_paused_ : bool → StreamSoundTrigger → StreamSoundTrigger :=
  ltac:(field_setter paused_).
Definition set_device_opened_ : bool → StreamSoundTrigger → StreamSoundTrigger :=
  ltac:(field_setter device_opened_).
Definition set_pending_stop_ : bool → StreamSoundTrigger → StreamSoundTrigger :=
  ltac:(field_setter pending_stop_).
Definition set_timer_stop_waiting_ : bool → StreamSoundTrigger → StreamSoundTrigger :=
  ltac:(field_setter timer_stop_waiting_).
Definition set_capture_requested_ : bool → StreamSoundTrigger → StreamSoundTrigger :=
  ltac:(field_setter capture_requested_).
Definition set_rejection_notified_ : bool → StreamSoundTrigger → StreamSoundTrigger :=
  ltac:(field_setter rejection_notified_).
Definition set_mutex_unlocked_after_cb_ : bool → StreamSoundTrigger → StreamSoundTrigger :=
  ltac:(field_setter mutex_unlocked_after_cb_).
Definition set_common_cp_update_disable_ : bool → StreamSoundTrigger → StreamSoundTrigger :=
  ltac:(field_setter common_cp_update_disable_).
Definition set_second_stage_processing_ : bool → StreamSoundTrigger → StreamSoundTrigger :=
  ltac:(field_setter second_stage_processing_).
Definition set_is_backend_shared_ : bool → StreamSoundTrigger → StreamSoundTrigger :=
  ltac:(field_setter is_backend_shared_).
Definition set_is_abort_event_notifying_ : bool → StreamSoundTrigger → StreamSoundTrigger :=
  ltac:(field_setter is_abort_event_notifying_).
Definition set_batchModeReadDone_ : bool → StreamSoundTrigger → StreamSoundTrigger :=
  ltac:(field_setter batchModeReadDone_).
Definition set_conc_notified_ : bool → StreamSoundTrigger → StreamSoundTrigger :=
  ltac:(field_setter conc_notified_).
Definition set_force_nlpi_vote : bool → StreamSoundTrigger → StreamSoundTrigger :=
  ltac:(field_setter force_nlpi_vote).
Definition set_skipSSRHandling : bool → StreamSoundTrigger → StreamSoundTrigger :=
  ltac:(field_setter skipSSRHandling).
Definition set_callback_ : bool → StreamSoundTrigger → StreamSoundTrigger :=
  ltac:(field_setter callback_).
Definition set_sm_config_ : (option pal_st_sound_model) → StreamSoundTrigger → StreamSoundTrigger :=
  ltac:(field_setter sm_config_).
Definition set_rec_config_ : (option pal_st_recognition_config) → StreamSoundTrigger → StreamSoundTrigger :=
  ltac:(field_setter rec_config_).
Definition set_sm_cfg_ : (option VUIStreamConfig) → StreamSoundTrigger → StreamSoundTrigger :=
  ltac:(field_setter sm_cfg_).
Definition set_cap_prof_ : (option CaptureProfile) → StreamSoundTrigger → StreamSoundTrigger :=
  ltac:(field_setter cap_prof_).
Definition set_dattr_specified_ : (option pal_device) → StreamSoundTrigger → StreamSoundTrigger :=
  ltac:(field_setter dattr_specified_).
Definition set_gsl_engine_model_ : (option Z) → StreamSoundTrigger → StreamSoundTrigger :=
  ltac:(field_setter gsl_engine_model_).
Definition set_gsl_engine_ : (option Z) → StreamSoundTrigger → StreamSoundTrigger :=
  ltac:(field_setter gsl_engine_).
Definition set_vui_intf_ : (option Z) → StreamSoundTrigger → StreamSoundTrigger :=
  ltac:(field_setter vui_intf_).
Definition set_vui_intf_handle_ : (option Z) → StreamSoundTrigger → StreamSoundTrigger :=
  ltac:(field_setter vui_intf_handle_).
Definition set_engines_ : (list (Z * Z)) → StreamSoundTrigger → StreamSoundTrigger :=
  ltac:(field_setter engines_).
Definition set_mDevices : (list Z) → StreamSoundTrigger → StreamSoundTrigger :=
  ltac:(field_setter mDevices).
Definition set_mPalDevices : (list Z) → StreamSoundTrigger → StreamSoundTrigger :=
  ltac:(field_setter mPalDevices).
Definition set_reader_ : (option Z) → StreamSoundTrigger → StreamSoundTrigger :=
  ltac:(field_setter reader_).
Definition set_reader_list_ : (list Z) → StreamSoundTrigger → StreamSoundTrigger :=
  ltac:(field_setter reader_list_).
Definition set_ec_rx_dev_ : (option Z) → StreamSoundTrigger → StreamSoundTrigger :=
  ltac:(field_setter ec_rx_dev_).
Definition set_model_type_ : Z → StreamSoundTrigger → StreamSoundTrigger :=
  ltac:(field_setter model_type_).
Definition set_model_id_ : Z → StreamSoundTrigger → StreamSoundTrigger :=
  ltac:(field_setter model_id_).
Definition set_mInstanceID : Z → StreamSoundTrigger → StreamSoundTrigger :=
  ltac:(field_setter mInstanceID).
Definition set_recognition_mode_ : Z → StreamSoundTrigger → StreamSoundTrigger :=
  ltac:(field_setter recognition_mode_).
Definition set_sound_model_type_ : Z → StreamSoundTrigger → StreamSoundTrigger :=
  ltac:(field_setter sound_model_type_).
Definition set_detection_state_ : Z → StreamSoundTrigger → StreamSoundTrigger :=
  ltac:(field_setter detection_state_).
Definition set_notification_state_ : Z → StreamSoundTrigger → StreamSoundTrigger :=
  ltac:(field_setter notification_state_).
Definition set_hist_buf_duration_ : Z → StreamSoundTrigger → StreamSoundTrigger :=
  ltac:(field_setter hist_buf_duration_).
Definition set_pre_roll_duration_ : Z → StreamSoundTrigger → StreamSoundTrigger :=
  ltac:(field_setter pre_roll_duration_).
Definition set_inBufSize : Z → StreamSoundTrigger → StreamSoundTrigger :=
  ltac:(field_setter inBufSize).
Definition set_inBufCount : Z → StreamSoundTrigger → StreamSoundTrigger :=
  ltac:(field_setter inBufCount).
Definition set_vote_type_ : vote_type_t → StreamSoundTrigger → StreamSoundTrigger :=
  ltac:(field_setter vote_type_).
Definition set_mDevPPSelector : string → StreamSoundTrigger → StreamSoundTrigger :=
  ltac:(field_setter mDevPPSelector).
Definition set_mStreamSelector : string → StreamSoundTrigger → StreamSoundTrigger :=
  ltac:(field_setter mStreamSelector).
Definition set_mStreamAttr : pal_stream_attributes → StreamSoundTrigger → StreamSoundTrigger :=
  ltac:(field_setter mStreamAttr).

(** Reduces fields of updated streams. *)
Tactic Notation "st_cbv" :=
  cbv beta iota delta [
    set_cur_state_ set_prev_state_ set_state_for_restore_ set_currentState set_paused_
    set_device_opened_ set_pending_stop_ set_timer_stop_waiting_ set_capture_requested_
    set_rejection_notified_ set_mutex_unlocked_after_cb_ set_common_cp_update_disable_
    set_second_stage_processing_ set_is_backend_shared_ set_is_abort_event_notifying_
    set_batchModeReadDone_ set_conc_notified_ set_force_nlpi_vote set_skipSSRHandling
    set_callback_ set_sm_config_ set_rec_config_ set_sm_cfg_ set_cap_prof_
    set_dattr_specified_ set_gsl_engine_model_ set_gsl_engine_ set_vui_intf_
    set_vui_intf_handle_ set_engines_ set_mDevices set_mPalDevices set_reader_
    set_reader_list_ set_ec_rx_dev_ set_model_type_ set_model_id_ set_mInstanceID
    set_recognition_mode_ set_sound_model_type_ set_detection_state_
    set_notification_state_ set_hist_buf_duration_ set_pre_roll_duration_ set_inBufSize
    set_inBufCount set_vote_type_ set_mDevPPSelector set_mStreamSelector set_mStreamAttr
    cur_state_ prev_state_ state_for_restore_ currentState paused_ device_opened_
    pending_stop_ timer_stop_waiting_ capture_requested_ rejection_notified_
    mutex_unlocked_after_cb_ common_cp_update_disable_ second_stage_processing_
    is_backend_shared_ is_abort_event_notifying_ batchModeReadDone_ conc_notified_
    force_nlpi_vote skipSSRHandling callback_ sm_config_ rec_config_ sm_cfg_ cap_prof_
    dattr_specified_ gsl_engine_model_ gsl_engine_ vui_intf_ vui_intf_handle_ engines_
    mDevices mPalDevices reader_ reader_list_ ec_rx_dev_ model_type_ model_id_
    mInstanceID recognition_mode_ sound_model_type_ detection_state_ notification_state_
    hist_buf_duration_ pre_roll_duration_ inBufSize inBufCount vote_type_ mDevPPSelector
    mStreamSelector mStreamAttr].
Tactic Notation "st_cbv" "in" hyp(H) :=
  cbv beta iota delta [
    set_cur_state_ set_prev_state_ set_state_for_restore_ set_currentState set_paused_
    set_device_opened_ set_pending_stop_ set_timer_stop_waiting_ set_capture_requested_
    set_rejection_notified_ set_mutex_unlocked_after_cb_ set_common_cp_update_disable_
    set_second_stage_processing_ set_is_backend_shared_ set_is_abort_event_notifying_
    set_batchModeReadDone_ set_conc_notified_ set_force_nlpi_vote set_skipSSRHandling
    set_callback_ set_sm_config_ set_rec_config_ set_sm_cfg_ set_cap_prof_
    set_dattr_specified_ set_gsl_engine_model_ set_gsl_engine_ set_vui_intf_
    set_vui_intf_handle_ set_engines_ set_mDevices set_mPalDevices set_reader_
    set_reader_list_ set_ec_rx_dev_ set_model_type_ set_model_id_ set_mInstanceID
    set_recognition_mode_ set_sound_model_type_ set_detection_state_
    set_notification_state_ set_hist_buf_duration_ set_pre_roll_duration_ set_inBufSize
    set_inBufCount set_vote_type_ set_mDevPPSelector set_mStreamSelector set_mStreamAttr
    cur_state_ prev_state_ state_for_restore_ currentState paused_ device_opened_
    pending_stop_ timer_stop_waiting_ capture_requested_ rejection_notified_
    mutex_unlocked_after_cb_ common_cp_update_disable_ second_stage_processing_
    is_backend_shared_ is_abort_event_notifying_ batchModeReadDone_ conc_notified_
    force_nlpi_vote skipSSRHandling callback_ sm_config_ rec_config_ sm_cfg_ cap_prof_
    dattr_specified_ gsl_engine_model_ gsl_engine_ vui_intf_ vui_intf_handle_ engines_
    mDevices mPalDevices reader_ reader_list_ ec_rx_dev_ model_type_ model_id_
    mInstanceID recognition_mode_ sound_model_type_ detection_state_ notification_state_
    hist_buf_duration_ pre_roll_duration_ inBufSize inBufCount vote_type_ mDevPPSelector
    mStreamSelector mStreamAttr] in H.

(** ** Calls to the other components *)

Inductive VuiParam :=
  | PARAM_FSTAGE_SOUND_MODEL_TYPE | PARAM_DETECTION_PROP_LIST | PARAM_STREAM_ATTRIBUTES
  | PARAM_FSTAGE_SOUND_MODEL_ID (id : Z) | PARAM_RECOGNITION_MODE (mode : Z)
  | PARAM_SOUND_MODEL_LIST | PARAM_DEFAULT_BUFFER_CONFIG (hist pre_roll : Z)
  | PARAM_RECOGNITION_CONFIG | PARAM_FSTAGE_BUFFERING_CONFIG | PARAM_KEYWORD_INDEX
  | PARAM_FTRT_DATA (size : Z) | PARAM_DETECTION_RESULT (detection : Z)
  | PARAM_DETECTION_EVENT | PARAM_LAB_READ_OFFSET.

Inductive reader_state := READER_PREPARED | READER_DISABLED.

Inductive StCall :=
  (* devices *)
  | DevOpen (d : Z) | DevClose (d : Z) | DevStart (d : Z) | DevStop (d : Z)
  | DevSetAttributes (d : Z) (sample_rate bit_width channels : Z) (snd_name : string)
  | DevSetSpecified (d : Z)
  | DevInsertStreamAttr (d : Z) | DevRemoveStreamAttr (d : Z)
  (* engines *)
  | EngCreate (type module : Z) | EngLoad (e : Z) (model : Z) | EngUnload (e : Z)
  | EngStart (e : Z) | EngStop (e : Z) | EngRestart (e : Z) | EngCheckStart (e : Z)
  | EngReconfigure (e : Z) | EngForce (e : Z) | EngReadIfBatch (e : Z)
  | EngSetDetected (e : Z) (det_type : Z)
  | EngSetup (e d : Z) | EngConnect (e d : Z) | EngDisconnect (e d : Z) (switch : bool)
  | EngSetECRef (e : Z) (dev : option Z) (is_enable setup : bool)
  | EngUpdateBufConfig (e : Z) (hist pre_roll : Z)
  | EngCreateBuffer (e : Z) (size engines : Z) | EngSetBufferReader (e reader : Z)
  | EngSetCaptureRequested (e : Z) (requested : bool) | EngResetBufferReaders (e : Z)
  | EngSetVoiceUIInterface (e vui : Z) | EngFillMmapBufInfo (e : Z)
  | EngGetMmapPosition (e : Z) | EngGetParameters (e param_id : Z)
  (* the voice UI plug-in *)
  | VuiGetInterface (module : Z) | VuiReleaseInterface | VuiDetachStream (v : Z)
  | VuiSetParameter (v : Z) (p : VuiParam) | VuiGetParameter (v : Z) (p : VuiParam)
  | VuiProcessLabData (v : Z) (size : Z)
  (* the resource manager *)
  | RegisterDevice (d : Z) | DeregisterDevice (d : Z)
  | VoteSleepMonitor (vote force_nlpi : bool)
  | GetStreamInstanceID | ResetStreamInstanceID (id : Z)
  | UpdateSoundTriggerCaptureProfile (is_active : bool)
  | StopOtherDetectionStreams | StartOtherDetectionStreams
  | ConcurrentStreamStatus (active : bool) | UpdateDeferredSTStreams (add : bool)
  | HandleDeferredSwitch | RegisterSTCaptureHandle (handle : Z) (start : bool)
  (* readers *)
  | ReaderReset (r : Z) | ReaderUpdateState (r : Z) (s : reader_state)
  | ReaderRead (r size : Z) | ReaderAdvance (r offset : Z) | ReaderGetKwData (r size : Z)
  | ReaderDelete (r : Z)
  (* the client *)
  | ClientCallback (status : Z).

(** The stream and what it sees of the system: the count of wake locks, the two
    mutexes as the calling thread holds them, the state [ext] of the other
    components, and the calls made so far with their results. *)
Record World (X : Type) := mkWorld {
  strm : StreamSoundTrigger;
  wake_lock_cnt : Z;
  lk_stream : bool;
  lk_active : bool;
  ext : X;
  log : list (StCall * Z);
}.
Arguments mkWorld {X}.
Arguments strm {X}.
Arguments wake_lock_cnt {X}.
Arguments lk_stream {X}.
Arguments lk_active {X}.
Arguments ext {X}.
Arguments log {X}.

(** [st_op] is a call with its result: a status, a pointer (0 for null), a count
    or a flag.  The other members are what the stream reads from its surroundings.
    [others] is what other threads do while this one waits for, or has given up, the
    stream's mutex: the states at which it tries the mutex, and whether it was free;
    after the last one the mutex is free. *)
Class StEnv (X : Type) := {
  st_op : StCall → X → Z * X;
  GetStreamConfig : X → Z → option VUIStreamConfig;
  GetSupportDevSwitch : bool;
  GetNotifySecondStageFailure : bool;
  wake_lock_fd : Z;
  wake_unlock_fd : Z;
  isDeviceAvailable : X → Z → bool;
  CheckForForcedTransitToNonLPI : X → bool;
  getLPIUsage : X → bool;
  deferred_LPI_NLPI : X → bool;
  isTxConcurrencyActive : X → bool;
  isStreamSSRDownFeasibile : X → bool;
  GetSoundTriggerCaptureProfile : X → option CaptureProfile;
  GetPalDevice : X → Z → option Z;
  Device_getInstance : X → Z → option Z;
  getTopPriorityDevice : X → Z → Z;
  checkECRef : X → Z → Z → bool;
  vui_handle : X → option Z;
  sound_model_list : X → list sound_model_data_t;
  eng_interface : X → Z → option Z;
  IsBatchMode : X → Z → bool;
  buffering_config : X → Z * Z;
  GetUpdatedBufConfig : X → Z → Z * Z;
  created_readers : X → list Z;
  keyword_end_index : X → Z;
  lab_read_offset : X → Z;
  getBufferSize : X → Z → Z;
  getUnreadSize : X → Z → Z;
  detection_event : X → bool;
  others : World X → list (World X * bool);
}.
