(* ===== verification/SoundTrigger.v ===== *)
(** * Sound trigger streams (stream/StreamSoundTrigger/src/StreamSoundTrigger.cpp)

    The methods of the stream as programs on [World]; [None] is undefined
    behaviour: a null pointer, an access outside a block, a division by zero, a
    mutex locked twice or unlocked by a thread that does not hold it.  Each case of
    each state's [ProcessEvent] is a definition of its own, named after the state and
    the event.  [ProcessInternalEvent] re-enters the machine, so [ProcessEvent]
    counts the levels of re-entry; two are enough (SoundTriggerFacts). *)

From S2P Require Import Prelude PalDefs SoundTriggerState.

Local Open Scope st_scope.

Section sound_trigger.
Context {X : Type} `{!StEnv X}.
Local Abbreviation M A := (St (World X) A).
Local Abbreviation ret := st_ret.

(** ** Primitives *)

Definition get {A} (f : StreamSoundTrigger → A) : M A := st_gets (λ w, f (strm w)).
Definition ask {A} (f : X → A) : M A := st_gets (λ w, f (ext w)).
Definition upd (f : StreamSoundTrigger → StreamSoundTrigger) : M unit :=
  st_modify (λ w, mkWorld (f (strm w)) (wake_lock_cnt w) (lk_stream w) (lk_active w)
                    (ext w) (log w)).
Definition call (c : StCall) : M Z := λ w,
  let '(r, x) := st_op c (ext w) in
  Some (r, mkWorld (strm w) (wake_lock_cnt w) (lk_stream w) (lk_active w) x (log w ++ [(c, r)])).
Definition call_ (c : StCall) : M unit := call c ;;;; ret tt.

(** A pointer that is dereferenced. *)
Definition deref {A} (p : option A) : M A := st_lift p.
Definition getp {A} (f : StreamSoundTrigger → option A) : M A := p <-- get f ;; deref p.

Definition when (b : bool) (m : M unit) : M unit := if b then m else ret tt.
Definition for_ {A} (f : A → M unit) : list A → M unit :=
  fix go l := match l with [] => ret tt | x :: l => f x ;;;; go l end.

Definition lock : M unit := λ w,
  if lk_stream w then None
  else Some (tt, mkWorld (strm w) (wake_lock_cnt w) true (lk_active w) (ext w) (log w)).
Definition unlock : M unit := λ w,
  if lk_stream w
  then Some (tt, mkWorld (strm w) (wake_lock_cnt w) false (lk_active w) (ext w) (log w))
  else None.
Definition lockActiveStream : M unit := λ w,
  if lk_active w then None
  else Some (tt, mkWorld (strm w) (wake_lock_cnt w) (lk_stream w) true (ext w) (log w)).
Definition unlockActiveStream : M unit := λ w,
  if lk_active w
  then Some (tt, mkWorld (strm w) (wake_lock_cnt w) (lk_stream w) false (ext w) (log w))
  else None.

(** Other threads bring the system to [w']; this one keeps its locks. *)
Definition adopt (w' : World X) : M unit := st_modify (λ w,
  mkWorld (strm w') (wake_lock_cnt w') (lk_stream w) (lk_active w) (ext w') (log w')).

(** [do { try_lock } while (!locked && keep state)]: whether the mutex was taken. *)
Fixpoint try_lock_while (keep : st_state_id_t → bool) (obs : list (World X * bool)) : M bool :=
  match obs with
  | [] => lock ;;;; ret true
  | (w', free) :: obs =>
      adopt w' ;;;;
      if free then lock ;;;; ret true
      else if keep (cur_state_ (strm w')) then try_lock_while keep obs
      else ret false
  end.

(** The other threads run until they leave the mutex free. *)
Definition preempt : M unit :=
  obs <-- st_gets others ;; for_ (λ o, adopt o.1) obs.

Definition acquireWakeLock : M unit := st_modify (λ w,
  if decide (wake_lock_fd < 0) then w
  else mkWorld (strm w) (s32 (wake_lock_cnt w + 1)) (lk_stream w) (lk_active w) (ext w) (log w)).
Definition releaseWakeLock : M unit := st_modify (λ w,
  if decide (wake_unlock_fd < 0) then w
  else if decide (0 < wake_lock_cnt w)
  then mkWorld (strm w) (wake_lock_cnt w - 1) (lk_stream w) (lk_active w) (ext w) (log w)
  else w).

(** ** States *)

Definition GetCurrentStateId : M st_state_id_t := get cur_state_.

(** Every state but [ST_STATE_NONE] is in the map of states. *)
Definition TransitTo (state_id : st_state_id_t) : M unit :=
  when (bool_decide (state_id ≠ ST_STATE_NONE))
    (upd (λ s, set_cur_state_ state_id (set_prev_state_ (cur_state_ s) s))).

Definition isActive (s : StreamSoundTrigger) : bool :=
  bool_decide (currentState s = STREAM_STARTED ∨ cur_state_ s = ST_STATE_BUFFERING ∨
    cur_state_ s = ST_STATE_DETECTED).

(** ** The delayed stop *)

Definition PostDelayedStop : M unit :=
  upd (set_pending_stop_ true) ;;;; upd (set_timer_stop_waiting_ false).
Definition CancelDelayedStop : M unit :=
  upd (set_pending_stop_ false) ;;;; upd (set_timer_stop_waiting_ true).

(** ** Capture profile and device *)

Definition GetAvailCaptureDevice : M Z :=
  avail <-- ask (λ x, isDeviceAvailable x PAL_DEVICE_IN_WIRED_HEADSET) ;;
  ret (if GetSupportDevSwitch && avail
       then PAL_DEVICE_IN_HEADSET_VA_MIC else PAL_DEVICE_IN_HANDSET_VA_MIC).

Definition ConfigSupportLPI (s : StreamSoundTrigger) : bool :=
  match sm_cfg_ s with
  | None => true
  | Some cfg =>
      let config_support_lpi :=
        match GetVUIFirstStageConfig cfg (model_type_ s) with Some b => b | None => true end in
      config_support_lpi && GetStreamLPIFlag cfg
  end.

Definition GetCurrentCaptureProfile : M (option CaptureProfile) :=
  s <-- get id ;;
  match sm_cfg_ s with
  | None => ret None
  | Some cfg =>
      use_headset_profile <--
        match dattr_specified_ s with
        | Some a => ret (bool_decide (dev_id a = PAL_DEVICE_IN_WIRED_HEADSET))
        | None => d <-- GetAvailCaptureDevice ;;
                  ret (bool_decide (d = PAL_DEVICE_IN_HEADSET_VA_MIC))
        end ;;
      is_transit_to_nlpi <-- ask CheckForForcedTransitToNonLPI ;;
      lpi <-- ask getLPIUsage ;;
      let mode :=
        if is_transit_to_nlpi : bool then ST_OPERATING_MODE_HIGH_PERF_AND_CHARGING
        else if ConfigSupportLPI s && lpi then ST_OPERATING_MODE_LOW_POWER
        else ST_OPERATING_MODE_HIGH_PERF in
      let input :=
        if use_headset_profile : bool then ST_INPUT_MODE_HEADSET else ST_INPUT_MODE_HANDSET in
      ret (GetCaptureProfile cfg mode input)
  end.

Definition PAL_CHMAP_CHANNEL_FL : Z := 1.
Definition PAL_CHMAP_CHANNEL_FR : Z := 2.

Definition updateStreamAttributes : M unit :=
  cap_prof <-- getp cap_prof_ ;;
  cfg <-- getp sm_cfg_ ;;
  attr <-- get mStreamAttr ;;
  let m := in_media_config attr in
  let n := if decide (cp_channels cap_prof = 1 ∧ 1 < GetOutChannels cfg) then 1
           else GetOutChannels cfg in
  let map :=
    if decide (n = 2)
    then <[1%nat := PAL_CHMAP_CHANNEL_FR]> (<[0%nat := PAL_CHMAP_CHANNEL_FL]> (ch_map (ch_info m)))
    else <[0%nat := PAL_CHMAP_CHANNEL_FL]> (ch_map (ch_info m)) in
  upd (set_mStreamAttr
    (mkAttr (type attr) (info attr) (flags attr) (direction attr)
       (mkMedia (GetSampleRate cfg) (GetBitWidth cfg) (aud_fmt_id m) (mkChannels n map))
       (out_media_config attr) (address attr))) ;;;;
  v <-- getp vui_intf_ ;;
  call_ (VuiSetParameter v PARAM_STREAM_ATTRIBUTES).

Definition set_device (dev : option Z) : M Z :=
  match dev with
  | None => ret (- EINVAL)
  | Some d => upd (λ s, set_mDevices (mDevices s ++ [d]) s) ;;;; ret 0
  end.

Definition UpdateDeviceConfig : M Z :=
  p <-- GetCurrentCaptureProfile ;;
  upd (set_cap_prof_ p) ;;;;
  match p with
  | None => ret 0
  | Some cap_prof =>
      let shared := bool_decide (cp_dev_id cap_prof ∈
        [PAL_DEVICE_IN_HANDSET_MIC; PAL_DEVICE_IN_SPEAKER_MIC; PAL_DEVICE_IN_WIRED_HEADSET]) in
      upd (set_is_backend_shared_ shared) ;;;;
      upd (set_mDevPPSelector (cp_name cap_prof)) ;;;;
      devices <-- get mDevices ;;
      if decide (devices ≠ []) then ret 0
      else if negb shared then
        dev_id <-- GetAvailCaptureDevice ;;
        dev <-- ask (λ x, GetPalDevice x dev_id) ;;
        set_device dev
      else
        spec <-- get dattr_specified_ ;;
        match spec with
        | Some a =>
            dev <-- ask (λ x, Device_getInstance x (PalDefs.dev_id a)) ;;
            d <-- deref dev ;;
            call_ (DevSetSpecified d) ;;;;
            set_device (Some d)
        | None =>
            dev <-- ask (λ x, Device_getInstance x (cp_dev_id cap_prof)) ;;
            match dev with
            | None => ret (- EINVAL)
            | Some d =>
                call_ (DevInsertStreamAttr d) ;;;;
                upd (set_mPalDevices [d]) ;;;;
                top <-- ask (λ x, getTopPriorityDevice x d) ;;
                dev <-- ask (λ x, Device_getInstance x top) ;;
                d' <-- deref dev ;;
                call_ (DevSetSpecified d') ;;;;
                set_device (Some d')
            end
        end
  end.

Definition IsSameDeviceType (s : StreamSoundTrigger) (dev_id curr_dev_id : Z) : bool :=
  let handset d := bool_decide (d ∈ [PAL_DEVICE_IN_HANDSET_VA_MIC; PAL_DEVICE_IN_SPEAKER_MIC;
                                     PAL_DEVICE_IN_HANDSET_MIC]) in
  let headset d := bool_decide (d ∈ [PAL_DEVICE_IN_HEADSET_VA_MIC; PAL_DEVICE_IN_WIRED_HEADSET]) in
  if is_backend_shared_ s
  then bool_decide (dev_id = curr_dev_id) || handset dev_id && handset curr_dev_id
       || headset dev_id && headset curr_dev_id
  else bool_decide (dev_id = curr_dev_id).

Definition release_pal_devices : M unit :=
  pal <-- get mPalDevices ;;
  for_ (λ d, call_ (DevRemoveStreamAttr d)) pal ;;;;
  upd (set_mPalDevices []).

(** Opening the device with the sleep monitor voted. *)
Definition open_device (d : Z) : M Z :=
  call_ (VoteSleepMonitor true false) ;;;;
  status <-- call (DevOpen d) ;;
  call_ (VoteSleepMonitor false false) ;;;;
  ret status.

(** ** Sound models *)

(** Two copies into a block of [sm_size] bytes: the structure, then the opaque data
    at its offset.  [calloc] of a negative size fails. *)
Definition copy_sound_model (sizeof_struct : Z) (m : pal_st_sound_model) :
    M (option pal_st_sound_model) :=
  let sm_size := s32 (sizeof_struct + sm_data_size m) in
  if decide (sm_size < 0) then ret None
  else
    deref (splice 0 (replicate (Z.to_nat sizeof_struct) 0) (replicate (Z.to_nat sm_size) 0)) ;;;;
    deref (splice (sm_data_offset m) (sm_data m) (replicate (Z.to_nat sm_size) 0)) ;;;;
    ret (Some m).

Definition UpdateSoundModel (sound_model : pal_st_sound_model) : M Z :=
  upd (set_sound_model_type_ (sm_type sound_model)) ;;;;
  let m := sound_model in
  let cached (sizeof_struct mode : Z) : M Z :=
    upd (set_sm_config_ None) ;;;;
    c <-- copy_sound_model sizeof_struct m ;;
    match c with
    | None => ret (- ENOMEM)
    | Some c =>
        upd (set_sm_config_ (Some c)) ;;;;
        upd (set_recognition_mode_ mode) ;;;;
        cfg <-- ask (λ x, GetStreamConfig x (vendor_uuid m)) ;;
        upd (set_sm_cfg_ cfg) ;;;;
        ret (if decide (cfg = None) then - EINVAL else 0)
    end in
  if decide (sm_type m = PAL_SOUND_MODEL_TYPE_KEYPHRASE) then
    if decide (sm_data_offset m < sizeof_pal_st_phrase_sound_model ∨ sm_data_size m = 0 ∨
               sm_num_phrases m = 0) then ret (- EINVAL)
    else cached sizeof_pal_st_phrase_sound_model (sm_recognition_mode m)
  else if decide (sm_type m = PAL_SOUND_MODEL_TYPE_GENERIC) then
    if decide (sm_data_size m = 0 ∨ sm_data_offset m < sizeof_pal_st_sound_model)
    then ret (- EINVAL)
    else cached sizeof_pal_st_sound_model 1
  else ret (- EINVAL).

Definition UpdateModelId (t : Z) : M unit :=
  id <-- get mInstanceID ;;
  when (IS_MODULE_TYPE_PDK t && bool_decide (id ≠ 0))
    (upd (set_model_id_ (u32 (u32 (t * 2 ^ ST_MODEL_TYPE_SHIFT) + id)))).

(** The engine that has loaded the model, if it has. *)
Definition HandleEngineLoad (sm_data : sound_model_data_t) (module_type : Z) : M (option Z) :=
  let t := smd_type sm_data in
  engine <-- call (EngCreate t module_type) ;;
  if decide (engine = 0) then ret None
  else
    vui <-- get vui_intf_ ;;
    intf <-- ask (λ x, eng_interface x engine) ;;
    mismatch <--
      (if decide (t = ST_SM_ID_SVA_F_STAGE_GMM) then
        upd (set_gsl_engine_model_ (Some (smd_ptr sm_data))) ;;;;
        if decide (intf ≠ None ∧ intf ≠ vui) then ret true
        else
          UpdateModelId module_type ;;;;
          v <-- deref vui ;;
          id <-- get model_id_ ;;
          call_ (VuiSetParameter v (PARAM_FSTAGE_SOUND_MODEL_ID id)) ;;;;
          mode <-- get recognition_mode_ ;;
          call_ (VuiSetParameter v (PARAM_RECOGNITION_MODE mode)) ;;;;
          ret false
      else ret false) ;;
    if mismatch : bool then ret None
    else
      when (bool_decide (intf = None))
        (v <-- deref vui ;; call_ (EngSetVoiceUIInterface engine v)) ;;;;
      status <-- call (EngLoad engine (smd_ptr sm_data)) ;;
      if decide (status ≠ 0) then ret None else ret (Some engine).

(** The models of the list in order; [None] when one does not load. *)
Fixpoint load_engines (sm_list : list sound_model_data_t) (module_type : Z) : M (option unit) :=
  match sm_list with
  | [] => ret (Some tt)
  | sm_data :: sm_list =>
      engine <-- HandleEngineLoad sm_data module_type ;;
      match engine with
      | None => ret None
      | Some e =>
          let t := smd_type sm_data in
          upd (λ s, set_engines_ (engines_ s ++ [(t, e)]) s) ;;;;
          (if decide (t = ST_SM_ID_SVA_F_STAGE_GMM) then upd (set_gsl_engine_ (Some e))
           else if decide (Z.land t ST_SM_ID_SVA_S_STAGE_KWD ≠ 0) then
             upd (λ s, set_notification_state_
                         (Z.lor (notification_state_ s) KEYWORD_DETECTION_SUCCESS) s)
           else when (bool_decide (t = ST_SM_ID_SVA_S_STAGE_USER ∨ t = ST_SM_ID_SVA_S_STAGE_CTIUV))
             (upd (λ s, set_notification_state_
                          (Z.lor (notification_state_ s) USER_VERIFICATION_SUCCESS) s))) ;;;;
          load_engines sm_list module_type
      end
  end.

Definition LoadSoundModel_error_exit : M unit :=
  engines <-- get engines_ ;;
  for_ (λ eng, call_ (EngUnload eng.2)) engines ;;;;
  upd (set_engines_ []) ;;;;
  upd (set_gsl_engine_ None) ;;;;
  v <-- get vui_intf_ ;;
  match v with
  | Some v => call_ (VuiDetachStream v) ;;;; upd (set_vui_intf_ None)
  | None => ret tt
  end.

(** Attaching the plug-in: whether to go on, and the status. *)
Definition init_vui_interface (cfg : VUIStreamConfig) : M (bool * Z) :=
  model_type <-- get model_type_ ;;
  status <-- call (VuiGetInterface model_type) ;;
  handle <-- ask vui_handle ;;
  upd (set_vui_intf_handle_ handle) ;;;;
  match handle with
  | Some v =>
      if decide (status ≠ 0) then ret (false, status)
      else
        upd (set_vui_intf_ (Some v)) ;;;;
        status <-- call (VuiGetParameter v PARAM_FSTAGE_SOUND_MODEL_TYPE) ;;
        if decide (status ≠ 0) then ret (false, status)
        else if decide (GetDetectionPropertyList cfg ≠ []) then
          status <-- call (VuiSetParameter v PARAM_DETECTION_PROP_LIST) ;;
          ret (bool_decide (status = 0), status)
        else ret (true, 0)
  | None => ret (false, status)
  end.

Definition LoadSoundModel (sound_model : pal_st_sound_model) : M Z :=
  let error_exit status := LoadSoundModel_error_exit ;;;; ret status in
  status <--
    (status <-- UpdateSoundModel sound_model ;;
     if decide (status ≠ 0) then error_exit status
     else
       cfg <-- getp sm_cfg_ ;;
       upd (set_model_type_ (GetVUIModuleType cfg)) ;;;;
       r <-- init_vui_interface cfg ;;
       if negb r.1 then error_exit r.2
       else
         updateStreamAttributes ;;;;
         model_type <-- get model_type_ ;;
         upd (set_mStreamSelector
           (if isQCVAUUID cfg then GetVUIModuleName_of cfg model_type
            else GetVUIModuleName cfg)) ;;;;
         id <-- call GetStreamInstanceID ;;
         upd (set_mInstanceID id) ;;;;
         v <-- getp vui_intf_ ;;
         status <-- call (VuiGetParameter v PARAM_SOUND_MODEL_LIST) ;;
         sm_list <-- ask sound_model_list ;;
         loaded <-- load_engines sm_list model_type ;;
         match loaded with
         | None => error_exit (- EINVAL)
         | Some _ => ret status
         end) ;;
  upd (set_sm_config_ None) ;;;;
  ret status.

Fixpoint unload_engines (engines : list (Z * Z)) (status : Z) : M Z :=
  match engines with
  | [] => ret status
  | eng :: engines => status <-- call (EngUnload eng.2) ;; unload_engines engines status
  end.

(** Closing the device if it is open; [status] otherwise. *)
Definition close_if_open (status : Z) : M Z :=
  opened <-- get device_opened_ ;;
  devices <-- get mDevices ;;
  match devices with
  | d :: _ =>
      if opened : bool then
        status <-- call (DevClose d) ;;
        upd (set_device_opened_ false) ;;;;
        ret status
      else ret status
  | [] => ret status
  end.

Definition UnloadSoundModel : M Z :=
  engines <-- get engines_ ;;
  status <-- unload_engines engines 0 ;;
  release_pal_devices ;;;;
  status <-- close_if_open status ;;
  upd (set_mDevices []) ;;;;
  upd (set_engines_ []) ;;;;
  g <-- get gsl_engine_ ;;
  match g with
  | Some e => call_ (EngResetBufferReaders e) ;;;; upd (set_gsl_engine_ None)
  | None => ret tt
  end ;;;;
  v <-- get vui_intf_ ;;
  match v with
  | Some v => call_ (VuiDetachStream v) ;;;; upd (set_vui_intf_ None)
  | None => ret tt
  end ;;;;
  h <-- get vui_intf_handle_ ;;
  when (bool_decide (h ≠ None)) (call_ VuiReleaseInterface) ;;;;
  upd (set_vui_intf_handle_ None) ;;;;
  r <-- get reader_ ;;
  match r with
  | Some r => call_ (ReaderDelete r) ;;;; upd (set_reader_ None)
  | None => ret tt
  end ;;;;
  upd (set_reader_list_ []) ;;;;
  id <-- get mInstanceID ;;
  call_ (ResetStreamInstanceID id) ;;;;
  upd (set_mInstanceID 0) ;;;;
  upd (set_notification_state_ ENGINE_IDLE) ;;;;
  ret status.

Definition FstageLoad : M Z :=
  status <-- UpdateDeviceConfig ;;
  if decide (status ≠ 0) then ret status
  else
    updateStreamAttributes ;;;;
    e <-- getp gsl_engine_ ;;
    model <-- get gsl_engine_model_ ;;
    call (EngLoad e (default 0 model)).

Definition FstageUnload : M Z :=
  close_if_open 0 ;;;;
  upd (set_mDevices []) ;;;;
  shared <-- get is_backend_shared_ ;;
  when shared release_pal_devices ;;;;
  e <-- getp gsl_engine_ ;;
  call (EngReconfigure e).

(** ** Recognition configurations *)

(** [for (j = 0; j < num_levels; j++)] from [j] with [k] levels left. *)
Fixpoint levels_match (c n : pal_st_phrase_recognition_extra) (k j : nat) : option bool :=
  match k with
  | O => Some true
  | S k =>
      a ← levels c !! j;
      b ← levels n !! j;
      if decide (user_id a ≠ user_id b ∨ level a ≠ level b) then Some false
      else levels_match c n k (S j)
  end.

Definition phrase_matches (c n : pal_st_phrase_recognition_extra) : option bool :=
  if decide (ph_id c ≠ ph_id n ∨ recognition_modes c ≠ recognition_modes n ∨
             confidence_level c ≠ confidence_level n ∨ num_levels c ≠ num_levels n)
  then Some false
  else levels_match c n (Z.to_nat (num_levels c)) O.

(** [for (i = 0; i < num_phrases; i++)] from [i] with [k] phrases left. *)
Fixpoint phrases_match (c n : pal_st_recognition_config) (k i : nat) : option bool :=
  match k with
  | O => Some true
  | S k =>
      a ← phrases c !! i;
      b ← phrases n !! i;
      same ← phrase_matches a b;
      if same : bool then phrases_match c n k (S i) else Some false
  end.

Definition compareRecognitionConfig (current_config new_config : option pal_st_recognition_config) :
    option bool :=
  match current_config, new_config with
  | Some c, Some n =>
      if decide (capture_handle c ≠ capture_handle n ∨ capture_device c ≠ capture_device n ∨
                 capture_requested c ≠ capture_requested n ∨ num_phrases c ≠ num_phrases n ∨
                 data_size c ≠ data_size n ∨ data_offset c ≠ data_offset n ∨
                 rc_data c ≠ rc_data n)
      then Some false
      else phrases_match c n (Z.to_nat (num_phrases c)) O
  | _, _ => Some false
  end.

(** The copy into a block of the structure and the opaque data.  The bytes go to
    the offset they have in the client's block, so an offset inside the structure
    changes nothing. *)
Definition UpdateRecognitionConfig (config : option pal_st_recognition_config) : M Z :=
  match config with
  | None => ret (- EINVAL)
  | Some c =>
      let size := sizeof_pal_st_recognition_config + data_size c in
      deref (splice (data_offset c) (rc_data c) (replicate (Z.to_nat size) 0)) ;;;;
      upd (set_rec_config_ (Some c)) ;;;;
      ret 0
  end.

(** The buffers of a stream that maps the engine's memory. *)
Definition update_mmap_size (cfg : VUIStreamConfig) (hist_buffer_duration : Z) : M Z :=
  model_type <-- get model_type_ ;;
  attr <-- get mStreamAttr ;;
  let m := in_media_config attr in
  if decide (model_type = ST_MODULE_TYPE_HIST_CAP) then
    let len := u32 (u32 (u32 (GetMmapBufferDuration cfg / MS_PER_SEC * sample_rate m)
                         * bit_width m) * channels (ch_info m)) / BITS_PER_BYTE in
    let rem := len mod HIST_BUF_INBUF_COUNT in
    let len := if decide (0 < rem) then u32 (len + (HIST_BUF_INBUF_COUNT - rem)) else len in
    upd (set_inBufCount HIST_BUF_INBUF_COUNT) ;;;;
    upd (set_inBufSize (len / HIST_BUF_INBUF_COUNT)) ;;;;
    ret 0
  else
    let len := GetMmapBufferDuration cfg in
    let frame := GetMmapFrameLength cfg in
    periods <-- deref (if decide (len = 0) then None
                       else Some (u32 (u32 (hist_buffer_duration + len) - 1) / len)) ;;
    let size := u32 (u32 (u32 (u32 (frame * periods) * GetSampleRate cfg) * GetBitWidth cfg)
                     * GetOutChannels cfg) / (MS_PER_SEC * BITS_PER_BYTE) in
    upd (set_inBufSize size) ;;;;
    if decide (size = 0) then ret (- EINVAL)
    else
      upd (set_inBufCount (u32 (u32 (len + frame) - 1) / frame)) ;;;;
      ret 0.

(** The size of the ring buffer, in bytes. *)
Definition ring_buffer_size (cfg : VUIStreamConfig) (hist pre_roll : Z) : Z :=
  let ring_buffer_len := u32 (u32 (hist + pre_roll) + GetCaptureReadDelay cfg) in
  u32 (u32 (u32 (ring_buffer_len / MS_PER_SEC * GetSampleRate cfg) * GetBitWidth cfg)
       * GetOutChannels cfg) / BITS_PER_BYTE.

(** Readers for the engines, in the order of the engines. *)
Fixpoint assign_readers (engines : list (Z * Z)) (readers : list Z) (status : Z) : M Z :=
  match engines with
  | [] => ret status
  | (engine_id, e) :: engines =>
      r <-- deref (head readers) ;;
      if decide (engine_id = ST_SM_ID_SVA_F_STAGE_GMM) then
        upd (set_reader_ (Some r)) ;;;; assign_readers engines (tail readers) status
      else
        status <-- call (EngSetBufferReader e r) ;;
        if decide (status ≠ 0) then ret status else assign_readers engines (tail readers) status
  end.

(** The parts of [SendRecognitionConfig] up to a non-zero status. *)
Definition andThen (m k : M Z) : M Z :=
  status <-- m ;; if decide (status ≠ 0) then ret status else k.

Definition SendRecognitionConfig (config : option pal_st_recognition_config) : M Z :=
  vui <-- get vui_intf_ ;;
  match vui with
  | None => ret (- EINVAL)
  | Some v =>
      status <--
        andThen (UpdateRecognitionConfig config) (
        cfg <-- getp sm_cfg_ ;;
        c <-- deref config ;;
        andThen (call (VuiSetParameter v
          (PARAM_DEFAULT_BUFFER_CONFIG (GetKwDuration cfg) (GetPreRollDuration cfg)))) (
        andThen (call (VuiSetParameter v PARAM_RECOGNITION_CONFIG)) (
        andThen (call (VuiGetParameter v PARAM_FSTAGE_BUFFERING_CONFIG)) (
        b <-- ask buffering_config ;;
        upd (set_hist_buf_duration_ b.1) ;;;;
        let pre := if decide (b.2 = 0) then GetPreRollDuration cfg else b.2 in
        upd (set_pre_roll_duration_ pre) ;;;;
        e <-- getp gsl_engine_ ;;
        andThen (call (EngUpdateBufConfig e
          (if decide (b.1 = 0) then GetKwDuration cfg else b.1) pre)) (
        ub <-- ask (λ x, GetUpdatedBufConfig x e) ;;
        andThen (if GetMmapEnable cfg then update_mmap_size cfg ub.1 else ret 0) (
        engines <-- get engines_ ;;
        status <-- call (EngCreateBuffer e (ring_buffer_size cfg ub.1 ub.2) (zlen engines)) ;;
        readers <-- ask created_readers ;;
        upd (set_reader_list_ readers) ;;;;
        andThen (ret status) (
        andThen (assign_readers engines readers 0) (
        let requested := capture_requested c || bool_decide (length engines ≠ 1%nat) in
        upd (set_capture_requested_ requested) ;;;;
        call_ (EngSetCaptureRequested e requested) ;;;;
        ret 0)))))))) ;;
      when (bool_decide (status ≠ 0)) (upd (set_rec_config_ None)) ;;;;
      ret status
  end.

(** ** Notifying the client *)

Definition in_detection (st : st_state_id_t) : bool :=
  bool_decide (st = ST_STATE_DETECTED ∨ st = ST_STATE_BUFFERING).

(** The abort event: the client runs without the two mutexes. *)
Definition notify_abort : M Z :=
  sm <-- get sm_config_ ;;
  let allocated :=
    match sm with
    | Some m => bool_decide (sm_type m = PAL_SOUND_MODEL_TYPE_KEYPHRASE ∨
                             sm_type m = PAL_SOUND_MODEL_TYPE_GENERIC)
    | None => false
    end in
  if negb allocated then ret (- ENOMEM)
  else
    cb <-- get callback_ ;;
    when cb (
      upd (set_currentState STREAM_STOPPED) ;;;;
      upd (set_is_abort_event_notifying_ true) ;;;;
      unlock ;;;; unlockActiveStream ;;;;
      call_ (ClientCallback PAL_RECOGNITION_STATUS_ABORT) ;;;;
      preempt ;;;;
      lockActiveStream ;;;; lock ;;;;
      upd (set_is_abort_event_notifying_ false)) ;;;;
    ret 0.

(** The audio up to the end of the keyword, for the plug-in. *)
Definition send_keyword_data (v : Z) : M unit :=
  c <-- getp rec_config_ ;;
  engines <-- get engines_ ;;
  when (capture_requested c || bool_decide (1 < zlen engines)) (
    call_ (VuiGetParameter v PARAM_KEYWORD_INDEX) ;;;;
    end_index <-- ask keyword_end_index ;;
    r <-- getp reader_ ;;
    size <-- ask (λ x, getBufferSize x r) ;;
    unread <-- ask (λ x, getUnreadSize x r) ;;
    ftrt_size <-- deref (if decide (end_index ≠ 0 ∧ end_index < size) then Some end_index
                         else umod unread size) ;;
    n <-- call (ReaderGetKwData r ftrt_size) ;;
    when (bool_decide (0 < n)) (call_ (VuiSetParameter v (PARAM_FTRT_DATA n)))).

(** The client runs without the mutex, which this thread takes back unless the
    client stops the stream meanwhile. *)
Definition call_client (detection : Z) : M unit :=
  cb <-- get callback_ ;;
  when cb (
    upd (set_currentState STREAM_STOPPED) ;;;;
    getp gsl_engine_ ;;;;
    unlock ;;;;
    call_ (ClientCallback detection) ;;;;
    obs <-- st_gets others ;;
    lock_status <-- try_lock_while in_detection obs ;;
    when (negb lock_status) (upd (set_mutex_unlocked_after_cb_ true))).

Definition notifyClient (detection : Z) : M Z :=
  if decide (detection = PAL_RECOGNITION_STATUS_ABORT) then notify_abort
  else
    PostDelayedStop ;;;;
    cfg <-- getp sm_cfg_ ;;
    v <-- getp vui_intf_ ;;
    when (IsDetPropSupported_KEYWORD_BUFFER cfg) (send_keyword_data v) ;;;;
    status <-- call (VuiSetParameter v (PARAM_DETECTION_RESULT detection)) ;;
    if decide (status ≠ 0) then ret status
    else
      status <-- call (VuiGetParameter v PARAM_DETECTION_EVENT) ;;
      rec_event <-- ask detection_event ;;
      if negb (bool_decide (status = 0) && rec_event) then ret status
      else call_client detection ;;;; ret status.

Definition SetDetectedToEngines : M unit :=
  engines <-- get engines_ ;;
  for_ (λ eng, when (bool_decide (eng.1 ≠ ST_SM_ID_SVA_F_STAGE_GMM))
                 (call_ (EngSetDetected eng.2 GMM_DETECTED))) engines.

(** ** Starting and stopping *)

Definition reset_reader : M unit :=
  r <-- get reader_ ;;
  match r with Some r => call_ (ReaderReset r) | None => ret tt end.

Definition deregister_device : M unit :=
  devices <-- get mDevices ;;
  match devices with d :: _ => call_ (DeregisterDevice d) | [] => ret tt end.

(** Every engine is stopped; the status of the last one. *)
Fixpoint stop_engines (engines : list (Z * Z)) (status : Z) : M Z :=
  match engines with
  | [] => ret status
  | eng :: engines => status <-- call (EngStop eng.2) ;; stop_engines engines status
  end.

(** Engines are started up to the first failure: the status, and those started. *)
Fixpoint start_engines (engines tmp_engines : list (Z * Z)) (status : Z) :
    M (Z * list (Z * Z)) :=
  match engines with
  | [] => ret (status, tmp_engines)
  | eng :: engines =>
      status <-- call (EngStart eng.2) ;;
      if decide (status ≠ 0) then ret (status, tmp_engines)
      else start_engines engines (tmp_engines ++ [eng]) status
  end.

(** Engines are restarted up to the first failure; one that was not active is
    started instead. *)
Fixpoint restart_engines (engines : list (Z * Z)) (status : Z) : M Z :=
  match engines with
  | [] => ret status
  | eng :: engines =>
      status <-- call (EngRestart eng.2) ;;
      if decide (status = RESTART_IGNORED) then
        status <-- call (EngStart eng.2) ;;
        if decide (status ≠ 0) then ret status else restart_engines engines status
      else if decide (status ≠ 0) then ret status
      else restart_engines engines status
  end.

Definition stop_close_device (status : Z) : M Z :=
  devices <-- get mDevices ;;
  match devices with
  | [] => ret status
  | d :: _ =>
      call (DevStop d) ;;;;
      status <-- call (DevClose d) ;;
      upd (set_device_opened_ false) ;;;;
      ret status
  end.

(** The [err_exit] of a failed start: nothing is left of it. *)
Definition undo_start (tmp_engines : list (Z * Z)) : M unit :=
  for_ (λ eng, call_ (EngStop eng.2)) tmp_engines ;;;;
  devices <-- get mDevices ;;
  match devices with
  | [] => ret tt
  | d :: _ =>
      call_ (DeregisterDevice d) ;;;;
      call_ (DevStop d) ;;;;
      call_ (DevClose d) ;;;;
      upd (set_device_opened_ false)
  end.

(** Giving up the vote against low power while a client reads. *)
Definition drop_nlpi_vote : M unit :=
  forced <-- get force_nlpi_vote ;;
  when forced (call_ (VoteSleepMonitor false true) ;;;; upd (set_force_nlpi_vote false)).

(** ** Device connection *)

(** From the test of [mDevices] to the open device: the device, or the status. *)
Definition connect_open : M (option Z * Z) :=
  devices <-- get mDevices ;;
  if decide (devices ≠ []) then ret (None, - EINVAL)
  else
    status <-- UpdateDeviceConfig ;;
    devices <-- get mDevices ;;
    match devices with
    | [] => ret (None, status)
    | d :: _ =>
        if decide (status ≠ 0) then ret (None, status)
        else
          updateStreamAttributes ;;;;
          e <-- getp gsl_engine_ ;;
          status <-- call (EngSetup e d) ;;
          if decide (status ≠ 0) then
            upd (λ s, set_mDevices (removelast (mDevices s)) s) ;;;; ret (None, status)
          else
            opened <-- get device_opened_ ;;
            if opened : bool then ret (Some d, 0)
            else
              status <-- open_device d ;;
              if decide (status ≠ 0) then ret (None, status)
              else upd (set_device_opened_ true) ;;;; ret (Some d, 0)
    end.

(** Starting the device; a failure closes it. *)
Definition connect_start (d : Z) : M Z :=
  status <-- call (DevStart d) ;;
  when (bool_decide (status ≠ 0)) (call_ (DevClose d) ;;;; upd (set_device_opened_ false)) ;;;;
  ret status.

(** Connecting the device to the graph; a failure gives the device up. *)
Definition connect_session (d : Z) : M Z :=
  e <-- getp gsl_engine_ ;;
  status <-- call (EngConnect e d) ;;
  when (bool_decide (status ≠ 0)) (
    upd (λ s, set_mDevices (removelast (mDevices s)) s) ;;;;
    call_ (DevClose d) ;;;; upd (set_device_opened_ false)) ;;;;
  ret status.

(** Stop, then close, of every device; a failure does not stop the loop. *)
Fixpoint disconnect_devices (devices : list Z) (switched : option bool) (status : Z) : M Z :=
  match devices with
  | [] => ret status
  | d :: devices =>
      call_ (DeregisterDevice d) ;;;;
      match switched with
      | Some b => e <-- getp gsl_engine_ ;; call_ (EngDisconnect e d b)
      | None => ret tt
      end ;;;;
      call_ (DevStop d) ;;;;
      status <-- call (DevClose d) ;;
      upd (set_device_opened_ false) ;;;;
      disconnect_devices devices switched status
  end.

(** [is_device_event]: whether the event is [ST_EV_DEVICE_DISCONNECTED]. *)
Definition DisconnectEvent (is_device_event device_switch_event : bool) : M Z :=
  devices <-- get mDevices ;;
  if decide (devices = []) then ret 0
  else
    CancelDelayedStop ;;;;
    engines <-- get engines_ ;;
    status <-- stop_engines engines 0 ;;
    status <-- disconnect_devices devices
                 (if is_device_event then Some device_switch_event else None) status ;;
    upd (set_mDevices []) ;;;;
    ret status.

(** From the open device on. *)
Definition ConnectEvent_start (d : Z) : M Z :=
  andThen (connect_start d) (
  andThen (connect_session d) (
  call_ (RegisterDevice d) ;;;;
  st <-- GetCurrentStateId ;;
  processing <-- get second_stage_processing_ ;;
  engines <-- get engines_ ;;
  if decide (st = ST_STATE_BUFFERING ∧ processing = true) then
    r <-- start_engines engines [] 0 ;;
    if decide (r.1 ≠ 0) then undo_start r.2 ;;;; ret r.1
    else reset_reader ;;;; ret r.1
  else
    when (bool_decide (st ≠ ST_STATE_BUFFERING)) (upd (set_second_stage_processing_ false)) ;;;;
    reset_reader ;;;; ret 0)).

Definition ConnectEvent : M Z :=
  r <-- connect_open ;;
  match r.1 with
  | None => ret r.2
  | Some d => ConnectEvent_start d
  end.

(** ** The idle state *)

Definition EBUSY : Z := 16.

Definition StIdle_LOAD_SOUND_MODEL (pal_st_sm : pal_st_sound_model) : M Z :=
  cfg <-- ask (λ x, GetStreamConfig x (vendor_uuid pal_st_sm)) ;;
  upd (set_sm_cfg_ cfg) ;;;;
  if decide (cfg = None) then ret (- EINVAL)
  else
    andThen UpdateDeviceConfig (
    andThen (LoadSoundModel pal_st_sm) (
    TransitTo ST_STATE_LOADED ;;;; ret 0)).

Definition StIdle_UNLOAD_SOUND_MODEL : M Z :=
  id <-- get mInstanceID ;;
  if decide (id = 0) then ret 0 else UnloadSoundModel.

Definition StIdle_DEVICE_DISCONNECTED (device_id : Z) : M Z :=
  s <-- get id ;;
  match mDevices s with
  | [] => ret 0
  | curr_device :: _ =>
      when (IsSameDeviceType s device_id curr_device) (upd (set_mDevices [])) ;;;;
      ret 0
  end.

Definition StIdle_DEVICE_CONNECTED : M Z :=
  s <-- get id ;;
  if decide (mDevices s ≠ []) then ret (- EINVAL)
  else if decide (sm_cfg_ s = None) then ret 0
  else UpdateDeviceConfig.

Definition StIdle_CONCURRENT_STREAM (rec : StEventConfig → M Z) (active : bool) : M Z :=
  model <-- get gsl_engine_model_ ;;
  if decide (model = None) then ret 0
  else
    new_cap_prof <-- GetCurrentCaptureProfile ;;
    if decide (new_cap_prof = None) then ret (- EINVAL)
    else if negb active then ret 0
    else
      andThen FstageLoad (
      TransitTo ST_STATE_LOADED ;;;;
      s <-- get id ;;
      if isActive s then rec (StStartRecognitionEventConfig false) else ret 0).

Definition StIdle_SSR_OFFLINE : M Z :=
  upd (λ s, if decide (state_for_restore_ s = ST_STATE_NONE)
            then set_state_for_restore_ ST_STATE_IDLE s else s) ;;;;
  TransitTo ST_STATE_SSR ;;;; ret 0.

Definition StIdle_FSTAGE_LOAD : M Z :=
  andThen FstageLoad (TransitTo ST_STATE_LOADED ;;;; ret 0).

Definition StIdle_ProcessEvent (rec : StEventConfig → M Z) (ev : StEventConfig) : M Z :=
  match ev with
  | StLoadEventConfig m => StIdle_LOAD_SOUND_MODEL m
  | StUnloadEventConfig => StIdle_UNLOAD_SOUND_MODEL
  | StPauseEventConfig | StInternalPauseEventConfig => upd (set_paused_ true) ;;;; ret 0
  | StResumeEventConfig | StInternalResumeEventConfig => upd (set_paused_ false) ;;;; ret 0
  | StReadBufferEventConfig _ => ret (- EIO)
  | StDeviceDisconnectedEventConfig d => StIdle_DEVICE_DISCONNECTED d
  | StDeviceConnectedEventConfig _ => StIdle_DEVICE_CONNECTED
  | StConcurrentStreamEventConfig active => StIdle_CONCURRENT_STREAM rec active
  | StSSROfflineConfig => StIdle_SSR_OFFLINE
  | StFstageLoadConfig => StIdle_FSTAGE_LOAD
  | _ => ret 0
  end.

(** ** The loaded state *)

(** A step of a handler with [break] and [goto err_exit]. *)
Inductive flow := fl_next | fl_break (status : Z) | fl_err (status : Z).

(** The common capture profile of all streams changes with the set of started ones;
    the other streams stop and start again.  Whether it has changed. *)
Definition update_backend (ev : StEventConfig) : M bool :=
  s <-- get id ;;
  common <-- ask GetSoundTriggerCaptureProfile ;;
  let may_start :=
    match ev with
    | StStartRecognitionEventConfig _ => true
    | StResumeEventConfig => bool_decide (common = None)
    | _ => false
    end in
  if negb (is_backend_shared_ s) && negb (common_cp_update_disable_ s) && may_start then
    r <-- call (UpdateSoundTriggerCaptureProfile true) ;; ret (bool_decide (r ≠ 0))
  else ret false.

Definition has_lpi (snd_name : string) : bool :=
  match String.index 0 "lpi" snd_name with Some _ => true | None => false end.

(** The device of a start: opened with the common capture profile, started,
    registered. *)
Definition start_device (d : Z) (status : Z) : M flow :=
  shared <-- get is_backend_shared_ ;;
  cap_prof <-- (if shared : bool then ret None else ask GetSoundTriggerCaptureProfile) ;;
  if decide (shared = false ∧ cap_prof = None) then ret (fl_err status)
  else
    when (negb shared)
      (p <-- deref cap_prof ;;
       call_ (DevSetAttributes d (cp_sample_rate p) (cp_bit_width p) (cp_channels p)
                (cp_snd_name p))) ;;;;
    p <-- deref cap_prof ;;
    upd (set_vote_type_ (if has_lpi (cp_snd_name p) then LPI_VOTE else NLPI_VOTE)) ;;;;
    opened <-- get device_opened_ ;;
    status <-- (if opened : bool then ret 0 else open_device d) ;;
    if decide (status ≠ 0) then ret (fl_break status)
    else
      upd (set_device_opened_ true) ;;;;
      status <-- call (DevStart d) ;;
      if decide (status ≠ 0) then
        call_ (DevClose d) ;;;; upd (set_device_opened_ false) ;;;; ret (fl_break status)
      else call_ (RegisterDevice d) ;;;; ret fl_next.

(** The engines of a start, all or none. *)
Definition start_all_engines (status : Z) : M Z :=
  engines <-- get engines_ ;;
  r <-- start_engines engines [] status ;;
  if decide (r.1 ≠ 0 ∧ engines ≠ []) then undo_start r.2 ;;;; ret r.1
  else reset_reader ;;;; TransitTo ST_STATE_ACTIVE ;;;; ret r.1.

Definition start_streaming (status : Z) : M Z :=
  devices <-- get mDevices ;;
  match devices with
  | [] => start_all_engines status
  | d :: _ =>
      f <-- start_device d status ;;
      match f with
      | fl_break status => ret status
      | fl_err status => undo_start [] ;;;; ret status
      | fl_next => start_all_engines 0
      end
  end.

Definition StLoaded_START_RECOGNITION (ev : StEventConfig) : M Z :=
  paused <-- get paused_ ;;
  if paused : bool then ret (- EBUSY)
  else
    rec_config <-- get rec_config_ ;;
    if decide (rec_config = None) then
      match ev with
      | StStartRecognitionEventConfig _ => ret (- EINVAL)
      | _ => deref None
      end
    else
      backend_update <-- update_backend ev ;;
      status <-- (if backend_update : bool
                  then call_ StopOtherDetectionStreams ;;;; call StartOtherDetectionStreams
                  else ret 0) ;;
      start_streaming status.

Definition StLoaded_INTERNAL_RESUME : M Z :=
  upd (set_paused_ false) ;;;;
  s <-- get id ;;
  if negb (isActive s) then ret 0
  else
    andThen (match rec_config_ s with
             | Some c => SendRecognitionConfig (Some c)
             | None => ret 0
             end)
      (StLoaded_START_RECOGNITION StInternalResumeEventConfig).

Fixpoint loaded_disconnect (devices : list Z) (status : Z) : M Z :=
  match devices with
  | [] => ret status
  | d :: devices =>
      e <-- getp gsl_engine_ ;;
      call_ (EngDisconnect e d false) ;;;;
      opened <-- get device_opened_ ;;
      status <-- (if opened : bool then
                    status <-- call (DevClose d) ;; upd (set_device_opened_ false) ;;;; ret status
                  else ret status) ;;
      loaded_disconnect devices status
  end.

Definition StLoaded_DEVICE_DISCONNECTED (device_id : Z) : M Z :=
  s <-- get id ;;
  match mDevices s with
  | [] => ret 0
  | curr_device :: _ =>
      if IsSameDeviceType s device_id curr_device then
        status <-- loaded_disconnect (mDevices s) 0 ;;
        upd (set_mDevices []) ;;;;
        ret status
      else ret 0
  end.

(** The engines after a device is connected: the first stage may start, the others
    start when the stream is started. *)
Fixpoint connect_engines (started : bool) (engines tmp_engines : list (Z * Z)) (status : Z) :
    M (Z * list (Z * Z)) :=
  match engines with
  | [] => ret (status, tmp_engines)
  | eng :: engines =>
      status <-- (if decide (eng.1 = ST_SM_ID_SVA_F_STAGE_GMM) then call (EngCheckStart eng.2)
                  else if started then call (EngStart eng.2) else ret status) ;;
      if decide (status ≠ 0) then ret (status, tmp_engines)
      else connect_engines started engines (tmp_engines ++ [eng]) status
  end.

Definition StLoaded_DEVICE_CONNECTED : M Z :=
  r <-- connect_open ;;
  match r.1 with
  | None => ret r.2
  | Some d =>
      s <-- get id ;;
      let started := isActive s && negb (paused_ s) in
      andThen (if started then connect_start d else ret 0) (
      andThen (connect_session d) (
      when started (call_ (RegisterDevice d)) ;;;;
      engines <-- get engines_ ;;
      r <-- connect_engines started engines [] 0 ;;
      if decide (r.1 ≠ 0) then undo_start r.2 ;;;; ret r.1
      else
        reset_reader ;;;;
        upd (set_second_stage_processing_ false) ;;;;
        when started (TransitTo ST_STATE_ACTIVE) ;;;;
        ret r.1))
  end.

Definition StLoaded_CONCURRENT_STREAM (active : bool) : M Z :=
  new_cap_prof <-- GetCurrentCaptureProfile ;;
  if decide (new_cap_prof = None) then ret (- EINVAL)
  else if active then ret (- EINVAL)
  else andThen FstageUnload (TransitTo ST_STATE_IDLE ;;;; ret 0).

Definition StLoaded_SSR_OFFLINE (rec : StEventConfig → M Z) : M Z :=
  upd (λ s, if decide (state_for_restore_ s = ST_STATE_NONE)
            then set_state_for_restore_ ST_STATE_LOADED s else s) ;;;;
  status <-- rec StFstageUnloadConfig ;;
  TransitTo ST_STATE_SSR ;;;; ret status.

(** The same in every state that handles the event. *)
Definition set_engine_ECRef (dev : option Z) (is_enable : bool) : M Z :=
  e <-- getp gsl_engine_ ;;
  ec <-- get ec_rx_dev_ ;;
  call (EngSetECRef e dev is_enable (bool_decide (ec = None))).

Definition StLoaded_FSTAGE_UNLOAD : M Z :=
  status <-- FstageUnload ;; TransitTo ST_STATE_IDLE ;;;; ret status.

Definition StLoaded_ProcessEvent (rec : StEventConfig → M Z) (ev : StEventConfig) : M Z :=
  match ev with
  | StUnloadEventConfig => status <-- UnloadSoundModel ;; TransitTo ST_STATE_IDLE ;;;; ret status
  | StRecognitionCfgEventConfig c => SendRecognitionConfig c
  | StResumeEventConfig => upd (set_paused_ false) ;;;; ret 0
  | StInternalResumeEventConfig => StLoaded_INTERNAL_RESUME
  | StStartRecognitionEventConfig _ => StLoaded_START_RECOGNITION ev
  | StPauseEventConfig | StInternalPauseEventConfig => upd (set_paused_ true) ;;;; ret 0
  | StReadBufferEventConfig _ => ret (- EIO)
  | StDeviceDisconnectedEventConfig d => StLoaded_DEVICE_DISCONNECTED d
  | StDeviceConnectedEventConfig _ => StLoaded_DEVICE_CONNECTED
  | StConcurrentStreamEventConfig active => StLoaded_CONCURRENT_STREAM active
  | StSSROfflineConfig => StLoaded_SSR_OFFLINE rec
  | StECRefEventConfig dev en => set_engine_ECRef dev en
  | StDetectedEventConfig _ => engines <-- get engines_ ;; stop_engines engines 0
  | StFstageUnloadConfig => StLoaded_FSTAGE_UNLOAD
  | _ => ret 0
  end.

(** ** The active state *)

Definition StActive_DETECTED (det_type : Z) : M Z :=
  if decide (det_type ≠ GMM_DETECTED ∧ det_type ≠ THRESHOLD_REACHED) then ret 0
  else
    engines <-- get engines_ ;;
    (if decide (det_type = THRESHOLD_REACHED) then
       upd (set_batchModeReadDone_ false) ;;;; TransitTo ST_STATE_BUFFERING
     else
       c <-- getp rec_config_ ;;
       if decide (capture_requested c = false ∧ length engines = 1%nat)
       then TransitTo ST_STATE_DETECTED
       else
         when (bool_decide (1 < length engines)%nat) (upd (set_second_stage_processing_ true)) ;;;;
         TransitTo ST_STATE_BUFFERING ;;;;
         SetDetectedToEngines) ;;;;
    when (bool_decide (length engines = 1%nat))
      (notifyClient PAL_RECOGNITION_STATUS_SUCCESS ;;;; ret tt) ;;;;
    ret 0.

(** What is left of pausing, unloading and stopping in the loaded state. *)
Definition after_stop (rec : StEventConfig → M Z) (ev : StEventConfig) (status : Z) : M Z :=
  TransitTo ST_STATE_LOADED ;;;;
  match ev with
  | StUnloadEventConfig => rec ev
  | StPauseEventConfig => notifyClient PAL_RECOGNITION_STATUS_ABORT
  | _ => ret status
  end.

Definition StActive_STOP_RECOGNITION (rec : StEventConfig → M Z) (ev : StEventConfig) : M Z :=
  s <-- get id ;;
  let may_update :=
    match ev with
    | StStopRecognitionEventConfig _ | StUnloadEventConfig => true
    | _ => false
    end in
  backend_update <--
    (if negb (is_backend_shared_ s) && negb (common_cp_update_disable_ s) && may_update
     then r <-- call (UpdateSoundTriggerCaptureProfile false) ;; ret (bool_decide (r ≠ 0))
     else ret false) ;;
  status <-- (if backend_update : bool then call StopOtherDetectionStreams else ret 0) ;;
  deregister_device ;;;;
  engines <-- get engines_ ;;
  status <-- stop_engines engines status ;;
  status <-- stop_close_device status ;;
  status <-- (if backend_update : bool then call StartOtherDetectionStreams else ret status) ;;
  after_stop rec ev status.

(** A configuration that differs stops the stream and is handled as loaded. *)
Definition with_new_config (c : option pal_st_recognition_config) (m : M Z) : M Z :=
  current <-- get rec_config_ ;;
  same <-- deref (compareRecognitionConfig current c) ;;
  if same : bool then ret 0 else m.

Definition StActive_RECOGNITION_CONFIG (rec : StEventConfig → M Z)
    (c : option pal_st_recognition_config) : M Z :=
  with_new_config c (
    deregister_device ;;;;
    engines <-- get engines_ ;;
    status <-- stop_engines engines 0 ;;
    stop_close_device status ;;;;
    TransitTo ST_STATE_LOADED ;;;;
    rec (StRecognitionCfgEventConfig c)).

(** A device that does not stop is not closed, and the loop ends. *)
Fixpoint active_disconnect (devices : list Z) (status : Z) : M Z :=
  match devices with
  | [] => ret status
  | d :: devices =>
      call_ (DeregisterDevice d) ;;;;
      e <-- getp gsl_engine_ ;;
      call_ (EngDisconnect e d false) ;;;;
      status <-- call (DevStop d) ;;
      if decide (status ≠ 0) then ret status
      else
        status <-- call (DevClose d) ;;
        upd (set_device_opened_ false) ;;;;
        if decide (status ≠ 0) then ret status else active_disconnect devices status
  end.

Definition StActive_DEVICE_DISCONNECTED (device_id : Z) : M Z :=
  s <-- get id ;;
  match mDevices s with
  | [] => ret 0
  | curr_device :: _ =>
      if IsSameDeviceType s device_id curr_device then
        status <-- active_disconnect (mDevices s) 0 ;;
        upd (set_mDevices []) ;;;;
        ret status
      else ret 0
  end.

Definition StActive_DEVICE_CONNECTED : M Z :=
  r <-- connect_open ;;
  match r.1 with
  | None => ret r.2
  | Some d =>
      andThen (connect_start d) (
      andThen (connect_session d) (
      call_ (RegisterDevice d) ;;;; ret 0))
  end.

Definition StActive_CONCURRENT_STREAM (rec : StEventConfig → M Z) (active : bool) : M Z :=
  new_cap_prof <-- GetCurrentCaptureProfile ;;
  if decide (new_cap_prof = None) then ret (- EINVAL)
  else if active then ret (- EINVAL)
  else
    andThen (rec (StStopRecognitionEventConfig false))
            (rec (StConcurrentStreamEventConfig active)).

(** The card is lost: the state to restore, then stop and unload. *)
Definition offline_stop (rec : StEventConfig → M Z) (restore : st_state_id_t) : M Z :=
  upd (λ s, if decide (state_for_restore_ s = ST_STATE_NONE)
            then set_state_for_restore_ restore s else s) ;;;;
  rec (StStopRecognitionEventConfig false) ;;;;
  status <-- rec StFstageUnloadConfig ;;
  TransitTo ST_STATE_SSR ;;;; ret status.

Definition StActive_FORCE_RECOGNITION : M Z :=
  e <-- getp gsl_engine_ ;; call (EngForce e).

Definition StActive_ProcessEvent (rec : StEventConfig → M Z) (ev : StEventConfig) : M Z :=
  match ev with
  | StDetectedEventConfig t => StActive_DETECTED t
  | StPauseEventConfig | StInternalPauseEventConfig =>
      upd (set_paused_ true) ;;;; StActive_STOP_RECOGNITION rec ev
  | StUnloadEventConfig | StStopRecognitionEventConfig _ => StActive_STOP_RECOGNITION rec ev
  | StRecognitionCfgEventConfig c => StActive_RECOGNITION_CONFIG rec c
  | StECRefEventConfig dev en => set_engine_ECRef dev en
  | StReadBufferEventConfig _ => ret (- EIO)
  | StDeviceDisconnectedEventConfig d => StActive_DEVICE_DISCONNECTED d
  | StDeviceConnectedEventConfig _ => StActive_DEVICE_CONNECTED
  | StConcurrentStreamEventConfig active => StActive_CONCURRENT_STREAM rec active
  | StSSROfflineConfig => offline_stop rec ST_STATE_ACTIVE
  | StForceRecognitionConfig => StActive_FORCE_RECOGNITION
  | _ => ret 0
  end.

(** ** The detected state *)

Definition StDetected_START_RECOGNITION : M Z :=
  CancelDelayedStop ;;;;
  engines <-- get engines_ ;;
  status <-- restart_engines engines 0 ;;
  reset_reader ;;;;
  TransitTo (if decide (status = 0) then ST_STATE_ACTIVE else ST_STATE_LOADED) ;;;;
  releaseWakeLock ;;;;
  ret status.

Definition StDetected_STOP_RECOGNITION (rec : StEventConfig → M Z) (ev : StEventConfig) : M Z :=
  deregister_device ;;;;
  CancelDelayedStop ;;;;
  engines <-- get engines_ ;;
  status <-- stop_engines engines 0 ;;
  status <-- stop_close_device status ;;
  status <-- after_stop rec ev status ;;
  releaseWakeLock ;;;;
  ret status.

Definition StDetected_RECOGNITION_CONFIG (rec : StEventConfig → M Z)
    (c : option pal_st_recognition_config) : M Z :=
  with_new_config c (
    deregister_device ;;;;
    CancelDelayedStop ;;;;
    engines <-- get engines_ ;;
    status <-- stop_engines engines 0 ;;
    stop_close_device status ;;;;
    TransitTo ST_STATE_LOADED ;;;;
    status <-- rec (StRecognitionCfgEventConfig c) ;;
    releaseWakeLock ;;;;
    ret status).

Definition StDetected_CONCURRENT_STREAM (rec : StEventConfig → M Z) (active : bool) : M Z :=
  DisconnectEvent false false ;;;;
  TransitTo ST_STATE_LOADED ;;;;
  status <-- rec (StConcurrentStreamEventConfig active) ;;
  releaseWakeLock ;;;;
  ret status.

Definition StDetected_ProcessEvent (rec : StEventConfig → M Z) (ev : StEventConfig) : M Z :=
  match ev with
  | StStartRecognitionEventConfig _ => StDetected_START_RECOGNITION
  | StPauseEventConfig | StInternalPauseEventConfig =>
      CancelDelayedStop ;;;; upd (set_paused_ true) ;;;; StDetected_STOP_RECOGNITION rec ev
  | StUnloadEventConfig | StStopRecognitionEventConfig _ => StDetected_STOP_RECOGNITION rec ev
  | StRecognitionCfgEventConfig c => StDetected_RECOGNITION_CONFIG rec c
  | StResumeEventConfig | StInternalResumeEventConfig => upd (set_paused_ false) ;;;; ret 0
  | StConcurrentStreamEventConfig active => StDetected_CONCURRENT_STREAM rec active
  | StDeviceDisconnectedEventConfig _ => DisconnectEvent true false
  | StDeviceConnectedEventConfig _ => ConnectEvent
  | StSSROfflineConfig => offline_stop rec ST_STATE_LOADED
  | StECRefEventConfig dev en => set_engine_ECRef dev en
  | _ => ret 0
  end.

(** ** The buffering state *)

Definition StBuffering_READ_BUFFER (size : Z) : M Z :=
  r <-- get reader_ ;;
  match r with
  | None => ret (- EINVAL)
  | Some r =>
      batch_done <-- get batchModeReadDone_ ;;
      when (negb batch_done) (e <-- getp gsl_engine_ ;; call_ (EngReadIfBatch e)) ;;;;
      upd (set_batchModeReadDone_ true) ;;;;
      call (ReaderRead r size)
  end.

Definition StBuffering_STOP_BUFFERING : M Z :=
  drop_nlpi_vote ;;;;
  r <-- get reader_ ;;
  match r with
  | Some r => call_ (ReaderUpdateState r READER_DISABLED)
  | None => ret tt
  end ;;;;
  upd (set_batchModeReadDone_ false) ;;;;
  PostDelayedStop ;;;;
  ret 0.

Definition StBuffering_START_RECOGNITION : M Z :=
  drop_nlpi_vote ;;;;
  CancelDelayedStop ;;;;
  engines <-- get engines_ ;;
  status <-- restart_engines engines 0 ;;
  reset_reader ;;;;
  TransitTo (if decide (status = 0) then ST_STATE_ACTIVE else ST_STATE_LOADED) ;;;;
  releaseWakeLock ;;;;
  ret status.

Definition StBuffering_RECOGNITION_CONFIG (rec : StEventConfig → M Z)
    (c : option pal_st_recognition_config) : M Z :=
  with_new_config c (
    deregister_device ;;;;
    drop_nlpi_vote ;;;;
    CancelDelayedStop ;;;;
    engines <-- get engines_ ;;
    status <-- stop_engines engines 0 ;;
    reset_reader ;;;;
    stop_close_device status ;;;;
    TransitTo ST_STATE_LOADED ;;;;
    status <-- rec (StRecognitionCfgEventConfig c) ;;
    releaseWakeLock ;;;;
    ret status).

Definition StBuffering_STOP_RECOGNITION (rec : StEventConfig → M Z) (ev : StEventConfig) : M Z :=
  deregister_device ;;;;
  drop_nlpi_vote ;;;;
  CancelDelayedStop ;;;;
  engines <-- get engines_ ;;
  status <-- stop_engines engines 0 ;;
  reset_reader ;;;;
  status <-- stop_close_device status ;;
  status <-- after_stop rec ev status ;;
  releaseWakeLock ;;;;
  ret status.

(** Engines of the other kind than the one that rejected. *)
Definition rejected_engine (det_type : Z) (eng : Z * Z) : bool :=
  bool_decide (det_type = USER_VERIFICATION_REJECT) &&
  bool_decide (Z.land eng.1 ST_SM_ID_SVA_S_STAGE_KWD ≠ 0) ||
  bool_decide (det_type = KEYWORD_DETECTION_REJECT) &&
  (bool_decide (Z.land eng.1 ST_SM_ID_SVA_S_STAGE_USER ≠ 0) ||
   bool_decide (Z.land eng.1 ST_SM_ID_SVA_S_STAGE_CTIUV ≠ 0)).

(** Engines are restarted up to the first failure. *)
Fixpoint restart_all (engines : list (Z * Z)) (status : Z) : M Z :=
  match engines with
  | [] => ret status
  | eng :: engines =>
      status <-- call (EngRestart eng.2) ;;
      if decide (status ≠ 0) then ret status else restart_all engines status
  end.

(** The second stage has rejected the detection. *)
Definition StBuffering_REJECTED (det_type : Z) : M Z :=
  notified <-- get rejection_notified_ ;;
  if notified : bool then ret 0
  else
    engines <-- get engines_ ;;
    status <-- stop_engines (filter (λ eng, rejected_engine det_type eng = true) engines) 0 ;;
    upd (set_second_stage_processing_ false) ;;;;
    upd (set_detection_state_ ENGINE_IDLE) ;;;;
    status <--
      (if GetNotifySecondStageFailure then
         upd (set_rejection_notified_ true) ;;;;
         notifyClient PAL_RECOGNITION_STATUS_FAILURE ;;;;
         reset_reader ;;;;
         ret status
       else
         reset_reader ;;;;
         status <-- restart_all engines status ;;
         TransitTo (if decide (status = 0) then ST_STATE_ACTIVE else ST_STATE_LOADED) ;;;;
         ret status) ;;
    releaseWakeLock ;;;;
    ret status.

Definition StBuffering_DETECTED (det_type : Z) : M Z :=
  if decide (det_type = GMM_DETECTED) then ret 0
  else if decide (det_type = KEYWORD_DETECTION_REJECT ∨ det_type = USER_VERIFICATION_REJECT)
  then StBuffering_REJECTED det_type
  else
    when (bool_decide (det_type = KEYWORD_DETECTION_SUCCESS ∨
                       det_type = USER_VERIFICATION_SUCCESS))
      (upd (λ s, set_detection_state_ (Z.lor (detection_state_ s) det_type) s)) ;;;;
    s <-- get id ;;
    when (bool_decide (detection_state_ s = notification_state_ s)) (
      upd (set_second_stage_processing_ false) ;;;;
      upd (set_detection_state_ ENGINE_IDLE) ;;;;
      c <-- getp rec_config_ ;;
      when (negb (capture_requested c)) (TransitTo ST_STATE_DETECTED) ;;;;
      notifyClient PAL_RECOGNITION_STATUS_SUCCESS ;;;; ret tt) ;;;;
    ret 0.

Definition StBuffering_CONCURRENT_STREAM (rec : StEventConfig → M Z) (active : bool) : M Z :=
  drop_nlpi_vote ;;;;
  DisconnectEvent false false ;;;;
  reset_reader ;;;;
  TransitTo ST_STATE_LOADED ;;;;
  status <-- rec (StConcurrentStreamEventConfig active) ;;
  releaseWakeLock ;;;;
  ret status.

Definition StBuffering_DEVICE_DISCONNECTED : M Z :=
  drop_nlpi_vote ;;;;
  processing <-- get second_stage_processing_ ;;
  status <-- DisconnectEvent true processing ;;
  reset_reader ;;;;
  ret status.

Definition StBuffering_DEVICE_CONNECTED : M Z :=
  status <-- ConnectEvent ;;
  processing <-- get second_stage_processing_ ;;
  when (bool_decide (status = 0) && processing)
    (TransitTo ST_STATE_ACTIVE ;;;; upd (set_second_stage_processing_ false)) ;;;;
  ret status.

Definition StBuffering_SSR_OFFLINE (rec : StEventConfig → M Z) : M Z :=
  processing <-- get second_stage_processing_ ;;
  offline_stop rec (if processing : bool then ST_STATE_ACTIVE else ST_STATE_LOADED).

Definition StBuffering_FORCE_RECOGNITION : M Z :=
  e <-- getp gsl_engine_ ;;
  batch <-- ask (λ x, IsBatchMode x e) ;;
  when batch (call_ (EngForce e)) ;;;;
  ret 0.

Definition StBuffering_ProcessEvent (rec : StEventConfig → M Z) (ev : StEventConfig) : M Z :=
  match ev with
  | StReadBufferEventConfig size => StBuffering_READ_BUFFER size
  | StStopBufferingEventConfig => StBuffering_STOP_BUFFERING
  | StStartRecognitionEventConfig _ => StBuffering_START_RECOGNITION
  | StRecognitionCfgEventConfig c => StBuffering_RECOGNITION_CONFIG rec c
  | StPauseEventConfig | StInternalPauseEventConfig =>
      upd (set_paused_ true) ;;;; StBuffering_STOP_RECOGNITION rec ev
  | StUnloadEventConfig | StStopRecognitionEventConfig _ => StBuffering_STOP_RECOGNITION rec ev
  | StDetectedEventConfig t => StBuffering_DETECTED t
  | StConcurrentStreamEventConfig active => StBuffering_CONCURRENT_STREAM rec active
  | StDeviceDisconnectedEventConfig _ => StBuffering_DEVICE_DISCONNECTED
  | StDeviceConnectedEventConfig _ => StBuffering_DEVICE_CONNECTED
  | StSSROfflineConfig => StBuffering_SSR_OFFLINE rec
  | StECRefEventConfig dev en => set_engine_ECRef dev en
  | StForceRecognitionConfig => StBuffering_FORCE_RECOGNITION
  | _ => ret 0
  end.

(** ** Failures of the sound card *)

Definition is_restored (st : st_state_id_t) : bool :=
  bool_decide (st = ST_STATE_LOADED ∨ st = ST_STATE_ACTIVE).

Definition StSSR_SSR_ONLINE (rec : StEventConfig → M Z) : M Z :=
  TransitTo ST_STATE_IDLE ;;;;
  model <-- get gsl_engine_model_ ;;
  if decide (model = None) then ret 0
  else
    upd (λ s,
      if decide (state_for_restore_ s = ST_STATE_IDLE) then
        if decide (currentState s = STREAM_STARTED) then set_state_for_restore_ ST_STATE_ACTIVE s
        else if decide (currentState s = STREAM_OPENED ∨ currentState s = STREAM_STOPPED)
        then set_state_for_restore_ ST_STATE_LOADED s else s
      else s) ;;;;
    restore <-- get state_for_restore_ ;;
    andThen
      (if is_restored restore then
         andThen (rec StFstageLoadConfig) (
         c <-- get rec_config_ ;;
         match c with
         | Some c => SendRecognitionConfig (Some c)
         | None => ret 0
         end)
       else ret 0) (
    restore <-- get state_for_restore_ ;;
    andThen (if decide (restore = ST_STATE_ACTIVE)
             then rec (StStartRecognitionEventConfig false) else ret 0) (
    upd (set_state_for_restore_ ST_STATE_NONE) ;;;; ret 0)).

(** A request of the client while the card is down changes the state to restore. *)
Definition offline_request (required restore : st_state_id_t) (m : M Z) : M Z :=
  st <-- get state_for_restore_ ;;
  if decide (st ≠ required) then ret (- EINVAL)
  else andThen m (upd (set_state_for_restore_ restore) ;;;; ret 0).

Definition StSSR_START_RECOGNITION : M Z :=
  offline_request ST_STATE_LOADED ST_STATE_ACTIVE (
    c <-- get rec_config_ ;;
    ret (if decide (c = None) then - EINVAL else 0)).

Definition StSSR_RESUME : M Z :=
  s <-- get id ;;
  when (paused_ s) (
    when (bool_decide (currentState s = STREAM_STARTED))
      (upd (set_state_for_restore_ ST_STATE_ACTIVE)) ;;;;
    upd (set_paused_ false)) ;;;;
  ret 0.

Definition StSSR_ProcessEvent (rec : StEventConfig → M Z) (ev : StEventConfig) : M Z :=
  match ev with
  | StSSROnlineConfig => StSSR_SSR_ONLINE rec
  | StLoadEventConfig m => offline_request ST_STATE_IDLE ST_STATE_LOADED (UpdateSoundModel m)
  | StUnloadEventConfig => offline_request ST_STATE_LOADED ST_STATE_IDLE (ret 0)
  | StRecognitionCfgEventConfig c =>
      offline_request ST_STATE_LOADED ST_STATE_LOADED (UpdateRecognitionConfig c)
  | StStartRecognitionEventConfig _ => StSSR_START_RECOGNITION
  | StStopRecognitionEventConfig _ => offline_request ST_STATE_ACTIVE ST_STATE_LOADED (ret 0)
  | StPauseEventConfig => upd (set_paused_ true) ;;;; notifyClient PAL_RECOGNITION_STATUS_ABORT
  | StInternalPauseEventConfig => upd (set_paused_ true) ;;;; ret 0
  | StResumeEventConfig | StInternalResumeEventConfig => StSSR_RESUME
  | StReadBufferEventConfig _ => ret (- EIO)
  | _ => ret 0
  end.

(** ** The state machine *)

(** [fuel] bounds the depth of [ProcessInternalEvent]. *)
Fixpoint ProcessEvent (fuel : nat) (ev : StEventConfig) : M Z :=
  match fuel with
  | O => λ _, None
  | S fuel =>
      let rec := ProcessEvent fuel in
      st <-- GetCurrentStateId ;;
      match st with
      | ST_STATE_IDLE => StIdle_ProcessEvent rec ev
      | ST_STATE_LOADED => StLoaded_ProcessEvent rec ev
      | ST_STATE_ACTIVE => StActive_ProcessEvent rec ev
      | ST_STATE_DETECTED => StDetected_ProcessEvent rec ev
      | ST_STATE_BUFFERING => StBuffering_ProcessEvent rec ev
      | ST_STATE_SSR => StSSR_ProcessEvent rec ev
      | ST_STATE_NONE => λ _, None
      end
  end.

Definition process (ev : StEventConfig) : M Z := ProcessEvent 2 ev.

(** ** The calls of clients and of the resource manager *)

Definition close : M Z :=
  lock ;;;;
  waiting <-- get is_abort_event_notifying_ ;;
  when waiting (unlock ;;;; preempt ;;;; lock) ;;;;
  status <-- process StUnloadEventConfig ;;
  upd (set_sm_config_ None) ;;;;
  upd (set_currentState STREAM_IDLE) ;;;;
  unlock ;;;;
  upd (set_currentState STREAM_IDLE) ;;;;
  notified <-- get conc_notified_ ;;
  when notified (call_ (ConcurrentStreamStatus false) ;;;; upd (set_conc_notified_ false)) ;;;;
  ret status.

Definition UpdateCaptureHandleInfo (start : bool) : M unit :=
  c <-- getp rec_config_ ;;
  when (capture_requested c) (call_ (RegisterSTCaptureHandle (capture_handle c) start)).

Definition start_l : M Z :=
  prev_state <-- get currentState ;;
  upd (set_currentState STREAM_STARTED) ;;;;
  upd (set_rejection_notified_ false) ;;;;
  status <-- process (StStartRecognitionEventConfig false) ;;
  (if decide (status ≠ 0) then upd (set_currentState prev_state)
   else UpdateCaptureHandleInfo true) ;;;;
  ret status.

Definition start : M Z :=
  cfg <-- getp sm_cfg_ ;;
  deferred <-- ask deferred_LPI_NLPI ;;
  if negb (GetStreamLPIFlag cfg) && deferred then
    call_ (UpdateDeferredSTStreams true) ;;;; ret 0
  else
    lockActiveStream ;;;; lock ;;;;
    status <-- start_l ;;
    unlockActiveStream ;;;; unlock ;;;;
    ret status.

Definition stop : M Z :=
  cfg <-- getp sm_cfg_ ;;
  if negb (GetStreamLPIFlag cfg) then
    call_ (UpdateDeferredSTStreams false) ;;;; ret 0
  else
    lockActiveStream ;;;; lock ;;;;
    UpdateCaptureHandleInfo false ;;;;
    upd (set_currentState STREAM_STOPPED) ;;;;
    status <-- process (StStopRecognitionEventConfig false) ;;
    unlockActiveStream ;;;; unlock ;;;;
    ret status.

(** [read] of [size] bytes; [None] for a null buffer. *)
Definition read (buf : option Z) : M Z :=
  match buf with
  | None => ret (- EINVAL)
  | Some buf_size =>
      lock ;;;;
      s <-- get id ;;
      when (bool_decide (cur_state_ s = ST_STATE_BUFFERING) && negb (force_nlpi_vote s)) (
        CancelDelayedStop ;;;;
        call_ (VoteSleepMonitor true true) ;;;;
        upd (set_force_nlpi_vote true) ;;;;
        v <-- getp vui_intf_ ;;
        call_ (VuiGetParameter v PARAM_LAB_READ_OFFSET) ;;;;
        offset <-- ask lab_read_offset ;;
        when (bool_decide (offset ≠ 0)) (
          r <-- getp reader_ ;;
          call_ (ReaderAdvance r offset) ;;;;
          call_ (VuiSetParameter v PARAM_LAB_READ_OFFSET))) ;;;;
      size <-- process (StReadBufferEventConfig buf_size) ;;
      when (bool_decide (0 < size))
        (v <-- getp vui_intf_ ;; call_ (VuiProcessLabData v size)) ;;;;
      sleep <--
        (if decide (size ≤ 0) then ret true
         else r <-- getp reader_ ;;
              unread <-- ask (λ x, getUnreadSize x r) ;;
              ret (bool_decide (unread < buf_size))) ;;
      when sleep (
        cfg <-- getp sm_cfg_ ;;
        deref (umod (u32 (u32 (buf_size * BITS_PER_BYTE) * MS_PER_SEC))
                 (u32 (u32 (GetSampleRate cfg * GetBitWidth cfg) * GetOutChannels cfg))) ;;;;
        ret tt) ;;;;
      unlock ;;;;
      ret size
  end.

(** The parameters of [setParameters] with their payloads. *)
Inductive st_param :=
  | PAL_PARAM_ID_LOAD_SOUND_MODEL (m : pal_st_sound_model)
  | PAL_PARAM_ID_RECOGNITION_CONFIG (c : pal_st_recognition_config)
  | PAL_PARAM_ID_STOP_BUFFERING
  | PAL_PARAM_ID_FORCE_RECOGNITION
  | unsupported_param.

Definition setParameters (param : st_param) : M Z :=
  lock ;;;;
  status <--
    match param with
    | PAL_PARAM_ID_LOAD_SOUND_MODEL m =>
        status <-- process (StLoadEventConfig m) ;;
        when (bool_decide (status = 0)) (upd (set_currentState STREAM_OPENED)) ;;;;
        ret status
    | PAL_PARAM_ID_RECOGNITION_CONFIG c =>
        reset_reader ;;;;
        process (StRecognitionCfgEventConfig (Some c))
    | PAL_PARAM_ID_STOP_BUFFERING => process StStopBufferingEventConfig
    | PAL_PARAM_ID_FORCE_RECOGNITION => process StForceRecognitionConfig
    | unsupported_param => ret (- EINVAL)
    end ;;
  unlock ;;;;
  match param with
  | PAL_PARAM_ID_LOAD_SOUND_MODEL _ =>
      when (bool_decide (status = 0))
        (call_ (ConcurrentStreamStatus true) ;;;; upd (set_conc_notified_ true))
  | _ => ret tt
  end ;;;;
  ret status.

(** The mutex is taken by the call with [active] false and given back by the one
    with [active] true. *)
Definition HandleConcurrentStream (active : bool) : M Z :=
  when (negb active) (lock ;;;; upd (set_common_cp_update_disable_ true)) ;;;;
  new_cap_prof <-- GetCurrentCaptureProfile ;;
  s <-- get id ;;
  status <--
    (if decide (cap_prof_ s = new_cap_prof) then ret 0
     else if decide (model_type_ s ≠ ST_MODULE_TYPE_HIST_CAP)
     then process (StConcurrentStreamEventConfig active)
     else if active then
       p <-- deref new_cap_prof ;; process (StDeviceConnectedEventConfig (cp_dev_id p))
     else
       p <-- getp cap_prof_ ;; process (StDeviceDisconnectedEventConfig (cp_dev_id p))) ;;
  when active (upd (set_common_cp_update_disable_ false) ;;;; unlock) ;;;;
  ret status.

Definition setECRef_l (dev : option Z) (is_enable : bool) : M Z :=
  s <-- get id ;;
  required <--
    match cap_prof_ s with
    | None => ret false
    | Some p => if cp_ec_req p then ret true
                else cfg <-- deref (sm_cfg_ s) ;; ret (GetEnableLPILabEC cfg (model_type_ s))
    end ;;
  if negb required then ret 0
  else
    matching <--
      match dev with
      | None => ret true
      | Some d => m <-- deref (head (mDevices s)) ;; ask (λ x, checkECRef x d m)
      end ;;
    if negb matching then ret 0
    else
      andThen (process (StECRefEventConfig dev is_enable)) (
      (if is_enable then upd (set_ec_rx_dev_ dev)
       else when (bool_decide (ec_rx_dev_ s = dev ∨ dev = None)) (upd (set_ec_rx_dev_ None))) ;;;;
      ret 0).

Definition setECRef (dev : option Z) (is_enable : bool) : M Z :=
  lock ;;;;
  s <-- get id ;;
  lpi <-- ask getLPIUsage ;;
  in_switch <--
    (if lpi && ConfigSupportLPI s then
       cfg <-- deref (sm_cfg_ s) ;; ret (negb (GetEnableLPILabEC cfg (model_type_ s)))
     else ret false) ;;
  status <-- (if in_switch : bool then ret 0 else setECRef_l dev is_enable) ;;
  unlock ;;;;
  ret status.

(** The mutex stays locked until [ConnectDevice]. *)
Definition DisconnectDevice (device_id : Z) : M Z :=
  lock ;;;;
  shared <-- get is_backend_shared_ ;;
  when shared release_pal_devices ;;;;
  tx <-- ask isTxConcurrencyActive ;;
  if shared && tx then ret 0 else process (StDeviceDisconnectedEventConfig device_id).

Definition ConnectDevice (device_id : Z) : M Z :=
  shared <-- get is_backend_shared_ ;;
  tx <-- ask isTxConcurrencyActive ;;
  status <-- (if shared && tx then ret 0 else process (StDeviceConnectedEventConfig device_id)) ;;
  unlock ;;;;
  ret status.

Definition disconnectStreamDevice_l (dev_id : Z) : M Z :=
  process (StDeviceDisconnectedEventConfig dev_id).

Definition connectStreamDevice_l (dattr : option pal_device) : M Z :=
  match dattr with
  | None => ret (- EINVAL)
  | Some a =>
      upd (set_dattr_specified_ (Some a)) ;;;;
      status <-- process (StDeviceConnectedEventConfig (PalDefs.dev_id a)) ;;
      upd (set_dattr_specified_ None) ;;;;
      ret status
  end.

(** [Resume] gives back the mutex an internal [Pause] has kept. *)
Definition Resume (is_internal : bool) : M Z :=
  when (negb is_internal) lock ;;;;
  process StFstageLoadConfig ;;;;
  status <-- process (if is_internal then StInternalResumeEventConfig else StResumeEventConfig) ;;
  unlock ;;;;
  ret status.

Definition Pause (is_internal : bool) : M Z :=
  lock ;;;;
  process (if is_internal then StInternalPauseEventConfig else StPauseEventConfig) ;;;;
  status <-- process StFstageUnloadConfig ;;
  when (negb is_internal) unlock ;;;;
  ret status.

Definition engine_may_report (st : st_state_id_t) : bool :=
  bool_decide (st = ST_STATE_ACTIVE ∨ st = ST_STATE_BUFFERING).

Definition first_stage (det_type : Z) : bool :=
  bool_decide (det_type = GMM_DETECTED ∨ det_type = THRESHOLD_REACHED).

(** A detection of an engine. *)
Definition SetEngineDetectionState (det_type : Z) : M Z :=
  if decide (Z.land det_type DETECTION_TYPE_ALL = 0) then ret (- EINVAL)
  else
    obs <-- st_gets others ;;
    lock_status <-- try_lock_while engine_may_report obs ;;
    st <-- GetCurrentStateId ;;
    if decide (first_stage det_type = true ∧ st ≠ ST_STATE_ACTIVE ∨
               Z.land det_type DETECTION_TYPE_SS ≠ 0 ∧ st ≠ ST_STATE_BUFFERING)
    then when lock_status unlock ;;;; ret (- EINVAL)
    else
      when (first_stage det_type) (
        acquireWakeLock ;;;;
        r <-- get reader_ ;;
        match r with
        | Some r => call_ (ReaderUpdateState r READER_PREPARED)
        | None => ret tt
        end) ;;;;
      when (bool_decide (det_type = KEYWORD_DETECTION_SUCCESS ∨
                         det_type = KEYWORD_DETECTION_REJECT)) (
        engines <-- get engines_ ;;
        for_ (λ eng, when (bool_decide (Z.land eng.1 ST_SM_ID_SVA_S_STAGE_USER ≠ 0))
                       (call_ (EngSetDetected eng.2 det_type))) engines) ;;;;
      status <-- process (StDetectedEventConfig det_type) ;;
      unlocked <-- get mutex_unlocked_after_cb_ ;;
      (if unlocked : bool then upd (set_mutex_unlocked_after_cb_ false) else unlock) ;;;;
      when (bool_decide (det_type = USER_VERIFICATION_REJECT ∨
                         det_type = KEYWORD_DETECTION_REJECT)) (call_ HandleDeferredSwitch) ;;;;
      ret status.

(** What the timer thread does when the delay has passed. *)
Definition InternalStopRecognition : M Z :=
  lock ;;;;
  pending <-- get pending_stop_ ;;
  status <-- (if pending : bool then process (StStopRecognitionEventConfig true) else ret 0) ;;
  unlock ;;;;
  ret status.

Definition ssrDownHandler : M Z :=
  lock ;;;;
  feasible <-- ask isStreamSSRDownFeasibile ;;
  status <--
    (if feasible : bool then
       upd (set_common_cp_update_disable_ true) ;;;;
       status <-- process StSSROfflineConfig ;;
       upd (set_common_cp_update_disable_ false) ;;;;
       ret status
     else upd (set_skipSSRHandling true) ;;;; ret 0) ;;
  unlock ;;;;
  ret status.

Definition ssrUpHandler : M Z :=
  lock ;;;;
  skip <-- get skipSSRHandling ;;
  status <--
    (if skip : bool then upd (set_skipSSRHandling false) ;;;; ret 0
     else
       upd (set_common_cp_update_disable_ true) ;;;;
       status <-- process StSSROnlineConfig ;;
       upd (set_common_cp_update_disable_ false) ;;;;
       ret status) ;;
  unlock ;;;;
  ret status.

Definition createMmapBuffer (fill : Z → StCall) : M Z :=
  lock ;;;;
  s <-- get id ;;
  status <--
    (if decide (cur_state_ s ≠ ST_STATE_BUFFERING) then ret (- EINVAL)
     else match gsl_engine_ s with
          | Some e => status <-- call (fill e) ;; ret (if decide (status ≠ 0) then - EINVAL else 0)
          | None => ret (- EINVAL)
          end) ;;
  unlock ;;;;
  ret status.

Definition GetMmapPosition : M Z := createMmapBuffer EngGetMmapPosition.

End sound_trigger.

(** ** The object *)

(** The constructor, with a card that may be offline and a concurrent stream that
    may have disabled detection. *)
Definition StreamSoundTrigger_new (attr : pal_stream_attributes) (offline disabled : bool) :
    StreamSoundTrigger :=
  mkST
    (if offline then ST_STATE_SSR else ST_STATE_IDLE) ST_STATE_NONE
    (if offline then ST_STATE_IDLE else ST_STATE_NONE) STREAM_IDLE
    disabled false false false false false false false false false false false false false
    false false
    None None None None None None None None None
    [] [] [] None [] None
    0 0 0 0 0 ENGINE_IDLE ENGINE_IDLE 0 0 0 0 LPI_VOTE EmptyString EmptyString attr.

Definition getInstanceId (s : StreamSoundTrigger) (cfg : VUIStreamConfig) : Z :=
  if IS_MODULE_TYPE_PDK (model_type_ s) && isSingleInstanceStage1 cfg ||
     bool_decide (model_type_ s = ST_MODULE_TYPE_GMM) && GetMergeFirstStageSoundModels cfg
  then INSTANCE_1
  else if IS_MODULE_TYPE_PDK (model_type_ s) then
    if decide (mInstanceID s < GetSupportedEngineCount cfg) then mInstanceID s
    else GetSupportedEngineCount cfg
  else mInstanceID s.
