(* ===== verification/SoundTriggerFacts.v ===== *)
(** * Facts about sound trigger streams

    Most facts do not depend on what the other components compute: they hold
    whatever the calls return.  [vwp] is the weakest precondition on the part of the
    world they speak of (the stream, the count of wake locks, the locks held), with
    every result of a call and every answer of the environment universally
    quantified. *)

From S2P Require Import Prelude PalDefs SoundTriggerState SoundTrigger.

(** ** Views and weakest preconditions *)

Record View := mkView { vs : StreamSoundTrigger; vn : Z; vl : bool; va : bool }.

Section logic.
Context {X : Type} `{!StEnv X}.
Implicit Types s : StreamSoundTrigger.

Definition view (w : World X) : View :=
  mkView (strm w) (wake_lock_cnt w) (lk_stream w) (lk_active w).

(** From every world with view [v], [m] has a result, which satisfies [Q]. *)
Definition vwp {A} (m : St (World X) A) (Q : A → View → Prop) (v : View) : Prop :=
  ∀ w, view w = v → ∃ a w', m w = Some (a, w') ∧ Q a (view w').

Lemma vwp_run {A} (m : St (World X) A) Q w :
  vwp m Q (view w) → ∃ a w', m w = Some (a, w') ∧ Q a (view w').
Proof. intros H. by apply H. Qed.
Lemma vwp_intro {A} (m : St (World X) A) (Q : A → View → Prop) v :
  (∀ w, view w = v → ∃ a w', m w = Some (a, w') ∧ Q a (view w')) → vwp m Q v.
Proof. done. Qed.
Lemma vwp_ret {A} (x : A) Q v : Q x v → vwp (st_ret x) Q v.
Proof. intros ? w <-. by exists x, w. Qed.
Lemma vwp_bind {A B} (m : St (World X) A) (k : A → St (World X) B) Q v :
  vwp m (λ a, vwp (k a) Q) v → vwp (st_bind m k) Q v.
Proof.
  intros Hm w Hw. destruct (Hm w Hw) as (a&w'&E&Hk).
  destruct (Hk w' eq_refl) as (b&w2&E2&?). exists b, w2. unfold st_bind. by rewrite E.
Qed.
Lemma vwp_mono {A} (m : St (World X) A) (Q Q' : A → View → Prop) v :
  vwp m Q v → (∀ a v', Q a v' → Q' a v') → vwp m Q' v.
Proof. intros Hm HQ w Hw. destruct (Hm w Hw) as (a&w'&?&?). exists a, w'. auto. Qed.
Lemma vwp_get {A} (f : StreamSoundTrigger → A) Q s n l a :
  Q (f s) (mkView s n l a) → vwp (get f) Q (mkView s n l a).
Proof. intros ? w Hw. exists (f s), w. rewrite Hw. injection Hw as <- _ _ _. done. Qed.
Lemma vwp_ask {A} (f : X → A) Q v : (∀ x, Q (f x) v) → vwp (ask f) Q v.
Proof. intros H w <-. by exists (f (ext w)), w. Qed.
Lemma vwp_upd f Q s n l a :
  Q tt (mkView (f s) n l a) → vwp (upd f) Q (mkView s n l a).
Proof. intros H w [= <- <- <- <-]. eexists tt, _. split; [done|exact H]. Qed.
Lemma vwp_deref {A} (x : A) Q v : Q x v → vwp (deref (Some x)) Q v.
Proof. intros ? w <-. by exists x, w. Qed.
Lemma vwp_adopt w' Q s n l a :
  Q tt (mkView (strm w') (wake_lock_cnt w') l a) → vwp (adopt w') Q (mkView s n l a).
Proof. intros H w [= <- <- <- <-]. eexists tt, _. split; [done|exact H]. Qed.
Lemma vwp_lock Q s n a : Q tt (mkView s n true a) → vwp lock Q (mkView s n false a).
Proof. intros H w [= <- <- Hl <-]. eexists tt, _. unfold lock. rewrite Hl. split; [done|exact H]. Qed.
Lemma vwp_unlock Q s n a : Q tt (mkView s n false a) → vwp unlock Q (mkView s n true a).
Proof. intros H w [= <- <- Hl <-]. eexists tt, _. unfold unlock. rewrite Hl. split; [done|exact H]. Qed.

Lemma vwp_get_eq {A} (f : StreamSoundTrigger → A) x Q s n l a :
  f s = x → Q x (mkView s n l a) → vwp (get f) Q (mkView s n l a).
Proof. intros <-. apply vwp_get. Qed.
Lemma vwp_getp {A} (f : StreamSoundTrigger → option A) x Q s n l a :
  f s = Some x → Q x (mkView s n l a) → vwp (getp f) Q (mkView s n l a).
Proof. intros E ?. apply vwp_bind, vwp_get. rewrite E. by apply vwp_deref. Qed.
Lemma vwp_getp' {A} (f : StreamSoundTrigger → option A) Q s n l a :
  f s ≠ None → (∀ x, f s = Some x → Q x (mkView s n l a)) → vwp (getp f) Q (mkView s n l a).
Proof. intros Hn H. destruct (f s) as [x|] eqn:E; [|done]. eapply vwp_getp; eauto. Qed.

(** [R] holds of every result of a call. *)
Context (R : Z → Prop) (HR : ∀ c x, R (st_op c x).1) (R0 : R 0).

Lemma vwp_call c Q v : (∀ r, R r → Q r v) → vwp (call c) Q v.
Proof.
  intros H w <-. unfold call. pose proof (HR c (ext w)) as Hr.
  destruct (st_op c (ext w)) as [r x]. eexists r, _. split; [done|]. by apply H.
Qed.
Lemma vwp_call_ c Q v : Q tt v → vwp (call_ c) Q v.
Proof. intros. apply vwp_bind, vwp_call. intros r _. by apply vwp_ret. Qed.

Lemma vwp_for {A} (f : A → St (World X) unit) l Q v :
  (∀ x Q, Q tt v → vwp (f x) Q v) → Q tt v → vwp (for_ f l) Q v.
Proof.
  intros Hf HQ. induction l as [|x l IH]; simpl; [by apply vwp_ret|].
  apply vwp_bind, Hf, IH.
Qed.

Lemma vwp_acquire Q s n l a :
  0 ≤ wake_lock_fd → 0 ≤ n < 2 ^ 31 - 1 →
  Q tt (mkView s (n + 1) l a) → vwp acquireWakeLock Q (mkView s n l a).
Proof.
  intros Hfd Hn H w [= <- <- <- <-]. unfold acquireWakeLock.
  eexists tt, _. split; [done|]. rewrite decide_False by lia. unfold view. simpl.
  by rewrite s32_small by lia.
Qed.
Lemma vwp_release Q s n l a :
  0 ≤ wake_unlock_fd → 0 ≤ n →
  Q tt (mkView s n l a) → vwp releaseWakeLock Q (mkView s (n + 1) l a).
Proof.
  intros Hfd Hn H w [= <- Hw <- <-]. unfold releaseWakeLock.
  eexists tt, _. split; [done|]. rewrite decide_False by lia.
  rewrite decide_True by lia. unfold view. simpl.
  replace (wake_lock_cnt w - 1) with n by lia. done.
Qed.

(** *** Loops of calls keep the view *)

Lemma vwp_stop_engines l status Q v :
  R status → (∀ r, R r → Q r v) → vwp (stop_engines l status) Q v.
Proof.
  revert status. induction l as [|e l IH]; intros status ? H; simpl; [by apply vwp_ret, H|].
  apply vwp_bind, vwp_call. intros r ?. by apply IH.
Qed.
Lemma vwp_unload_engines l status Q v :
  R status → (∀ r, R r → Q r v) → vwp (unload_engines l status) Q v.
Proof.
  revert status. induction l as [|e l IH]; intros status ? H; simpl; [by apply vwp_ret, H|].
  apply vwp_bind, vwp_call. intros r ?. by apply IH.
Qed.
Lemma vwp_restart_all l status Q v :
  R status → (∀ r, R r → Q r v) → vwp (restart_all l status) Q v.
Proof.
  revert status. induction l as [|e l IH]; intros status ? H; simpl; [by apply vwp_ret, H|].
  apply vwp_bind, vwp_call. intros r ?. case_decide; [apply vwp_ret|]; auto.
Qed.
Lemma vwp_restart_engines l status Q v :
  R status → (∀ r, R r → Q r v) → vwp (restart_engines l status) Q v.
Proof.
  revert status. induction l as [|e l IH]; intros status ? H; simpl; [by apply vwp_ret, H|].
  apply vwp_bind, vwp_call. intros r ?. case_decide.
  - apply vwp_bind, vwp_call. intros r' ?. case_decide; [apply vwp_ret|]; auto.
  - case_decide; [apply vwp_ret|]; auto.
Qed.
Lemma vwp_start_engines l tmp status Q v :
  R status → (∀ r, R r.1 → Q r v) → vwp (start_engines l tmp status) Q v.
Proof.
  revert tmp status. induction l as [|e l IH]; intros tmp status ? H; simpl; [by apply vwp_ret, H|].
  apply vwp_bind, vwp_call. intros r ?. case_decide; [apply vwp_ret|]; auto.
Qed.
Lemma vwp_connect_engines b l tmp status Q v :
  R status → (∀ r, R r.1 → Q r v) → vwp (connect_engines b l tmp status) Q v.
Proof.
  revert tmp status. induction l as [|e l IH]; intros tmp status ? H; simpl; [by apply vwp_ret, H|].
  apply vwp_bind. case_decide.
  - apply vwp_call. intros r ?. case_decide; [apply vwp_ret|]; auto.
  - destruct b.
    + apply vwp_call. intros r ?. case_decide; [apply vwp_ret|]; auto.
    + apply vwp_ret. case_decide; [apply vwp_ret|]; auto.
Qed.

Lemma vwp_assign_readers l readers status Q s n lk a :
  R status → (length l ≤ length readers)%nat →
  (∀ r rd, R r → Q r (mkView (set_reader_ rd s) n lk a)) →
  vwp (assign_readers l readers status) Q (mkView s n lk a).
Proof.
  revert readers status s. induction l as [|[i e] l IH]; intros readers status s ? Hl H; simpl.
  - apply vwp_ret. specialize (H status (reader_ s)). destruct s. by apply H.
  - destruct readers as [|r readers]; simpl in *; [lia|].
    apply vwp_bind, vwp_deref. case_decide.
    + apply vwp_bind, vwp_upd, IH; [done|lia|]. intros r' rd ?. by apply H.
    + apply vwp_bind, vwp_call. intros r' ?. case_decide.
      * apply vwp_ret. specialize (H r' (reader_ s)). destruct s. by apply H.
      * apply IH; [done|lia|auto].
Qed.
End logic.

#[global] Opaque vwp.

Ltac term_head t := match t with ?f _ => term_head f | _ => t end.

(** One step of a program: the rule of its first action, or the unfolding of its
    definition; conditions are case distinctions. *)
Ltac vstep :=
  lazymatch goal with
  | |- vwp (st_bind _ _) _ _ => apply vwp_bind
  | |- vwp (st_ret _) _ _ => apply vwp_ret; cbn beta
  | |- vwp (get _) _ _ => eapply vwp_get_eq; [cbn; reflexivity|]; cbn beta
  | |- vwp (getp _) _ _ => apply vwp_getp'; [cbn; try done|let H := fresh "Hp" in intros ? H; cbn in H; simplify_eq; cbn beta]
  | |- vwp (ask _) _ _ => apply vwp_ask; intros ?; cbn beta
  | |- vwp (upd _) _ _ => apply vwp_upd; cbn beta
  | |- vwp (deref (Some _)) _ _ => apply vwp_deref; cbn beta
  | |- vwp lock _ _ => apply vwp_lock; cbn beta
  | |- vwp unlock _ _ => apply vwp_unlock; cbn beta
  | |- vwp (call _) _ _ => eapply vwp_call; [eassumption|]; intros ? ?; cbn beta
  | |- vwp (call_ _) _ _ => eapply vwp_call_; [eassumption|]; cbn beta
  | |- vwp (if decide ?P then _ else _) _ _ => destruct (decide P); try (exfalso; lia)
  | |- vwp (if ?b then _ else _) _ _ => destruct b eqn:?; try discriminate
  | |- vwp (match ?x with _ => _ end) _ _ => destruct x eqn:?; try discriminate; simplify_eq
  | |- vwp (when (bool_decide ?P) _) _ _ =>
      unfold when at 1; case_bool_decide; try (exfalso; lia); try done
  | |- vwp (when ?b _) _ _ => unfold when at 1; destruct b eqn:?; try discriminate
  | |- vwp (for_ _ _) _ _ => apply vwp_for; [intros ? ? ?|]; cbn beta
  | |- vwp ?m _ _ => let h := term_head m in unfold h; cbn beta iota
  end.

(** ** Laws and invariant *)

(** The devices whose back end voice UI shares with other streams. *)
Definition shared_backend (d : Z) : bool :=
  bool_decide (d ∈ [PAL_DEVICE_IN_HANDSET_MIC; PAL_DEVICE_IN_SPEAKER_MIC;
                    PAL_DEVICE_IN_WIRED_HEADSET]).

(** A usable configuration: a profile for every mode, on a device of voice UI's own;
    non-zero lengths where the code divides. *)
Definition cfg_ok (cfg : VUIStreamConfig) : Prop :=
  (∀ mode input, ∃ p, GetCaptureProfile cfg mode input = Some p ∧
                      shared_backend (cp_dev_id p) = false) ∧
  GetMmapBufferDuration cfg ≠ 0.

(** A recognition configuration whose data start no later than the structure ends,
    with arrays of the declared lengths. *)
Definition rc_ok (c : pal_st_recognition_config) : Prop :=
  (zlen (rc_data c) = data_size c ∧ 0 ≤ data_offset c ≤ sizeof_pal_st_recognition_config) ∧
  (length (phrases c) = 10%nat ∧ 0 ≤ num_phrases c ≤ 10) ∧
  Forall (λ p, length (levels p) = 10%nat ∧ 0 ≤ num_levels p ≤ 10) (phrases c).

(** The platform as the stream relies on it. *)
Class StLaws (X : Type) `{!StEnv X} : Prop := {
  law_cfg : ∀ x id cfg, GetStreamConfig x id = Some cfg → cfg_ok cfg;
  law_vui : ∀ m x x', st_op (VuiGetInterface m) x = (0, x') → vui_handle x' ≠ None;
  law_models : ∀ x, ST_SM_ID_SVA_F_STAGE_GMM ∈ smd_type <$> sound_model_list x;
  law_readers : ∀ e size k x x', 0 ≤ k → st_op (EngCreateBuffer e size k) x = (0, x') →
    zlen (created_readers x') = k;
  law_buffer : ∀ x r, getBufferSize x r ≠ 0;
  law_wake : 0 ≤ wake_lock_fd ∧ 0 ≤ wake_unlock_fd;
}.

(** The stream holds its engine, its plug-in and its configuration. *)
Definition attached (s : StreamSoundTrigger) : Prop :=
  gsl_engine_ s ≠ None ∧ vui_intf_ s ≠ None ∧ sm_cfg_ s ≠ None.

Definition loaded (st : st_state_id_t) : bool :=
  bool_decide (st = ST_STATE_LOADED ∨ st = ST_STATE_ACTIVE ∨ st = ST_STATE_DETECTED ∨
               st = ST_STATE_BUFFERING).
Definition running (st : st_state_id_t) : bool :=
  bool_decide (st = ST_STATE_ACTIVE ∨ st = ST_STATE_DETECTED ∨ st = ST_STATE_BUFFERING).

Record st_inv (s : StreamSoundTrigger) : Prop := {
  inv_state : cur_state_ s ≠ ST_STATE_NONE;
  inv_attached : loaded (cur_state_ s) = true → attached s;
  inv_rec : running (cur_state_ s) = true → rec_config_ s ≠ None;
  inv_cfg : ∀ cfg, sm_cfg_ s = Some cfg → cfg_ok cfg;
  inv_rc : ∀ c, rec_config_ s = Some c → rc_ok c;
  inv_backend : is_backend_shared_ s = false;
  inv_model : sm_config_ s = None;
}.

(** The wake lock is held while a detection is handled; [n] locks belong to others. *)
Definition wake_of (st : st_state_id_t) : Z := if in_detection st then 1 else 0.
Definition good (n : Z) (v : View) : Prop :=
  st_inv (vs v) ∧ vn v = n + wake_of (cur_state_ (vs v)).

(** The other threads keep the stream in order and give the mutex back. *)
Class StRely (X : Type) `{!StEnv X} (n : Z) : Prop := {
  rely_bound : 0 ≤ n < 2 ^ 31 - 1;
  rely_others : ∀ w : World X, lk_stream w = false → good n (view w) →
    mutex_unlocked_after_cb_ (strm w) = false →
    Forall (λ o, good n (view o.1) ∧ mutex_unlocked_after_cb_ (strm o.1) = false) (others w);
}.

Section helpers.
Context {X : Type} `{!StEnv X, !StLaws X} (R : Z → Prop) (HR : ∀ c x, R (st_op c x).1) (R0 : R 0)
  (HD : ∀ x d, GetPalDevice x d = None → R (- EINVAL)).
Implicit Types s : StreamSoundTrigger.

Lemma vwp_GetCurrentCaptureProfile Q s n l a :
  (∀ cfg, sm_cfg_ s = Some cfg → cfg_ok cfg) →
  (sm_cfg_ s = None → Q None (mkView s n l a)) →
  (∀ p, sm_cfg_ s ≠ None → shared_backend (cp_dev_id p) = false →
        Q (Some p) (mkView s n l a)) →
  vwp GetCurrentCaptureProfile Q (mkView s n l a).
Proof.
  intros Hok HN HS. unfold GetCurrentCaptureProfile.
  apply vwp_bind, vwp_get. simpl. destruct (sm_cfg_ s) as [cfg|] eqn:E; [|by apply vwp_ret, HN].
  destruct (Hok cfg eq_refl) as [Hp _].
  apply vwp_bind. apply vwp_mono with (Q := λ _ v, v = mkView s n l a).
  { destruct (dattr_specified_ s); [by apply vwp_ret|].
    apply vwp_bind. unfold GetAvailCaptureDevice.
    apply vwp_bind, vwp_ask. intros x. by apply vwp_ret, vwp_ret. }
  intros h v' ->. apply vwp_bind, vwp_ask. intros x. apply vwp_bind, vwp_ask. intros x'.
  apply vwp_ret. edestruct Hp as (p&->&?). by apply HS.
Qed.

Lemma vwp_UpdateDeviceConfig Q s n l a :
  (∀ cfg, sm_cfg_ s = Some cfg → cfg_ok cfg) → sm_cfg_ s ≠ None → is_backend_shared_ s = false →
  (∀ r p nm ds, R r → (r = 0 → ds ≠ []) →
     Q r (mkView (set_mDevices ds (set_mDevPPSelector nm (set_cap_prof_ (Some p) s))) n l a)) →
  vwp UpdateDeviceConfig Q (mkView s n l a).
Proof using Type*.
  intros Hok HS Hsh HQ. unfold UpdateDeviceConfig.
  apply vwp_bind, vwp_GetCurrentCaptureProfile; [done|done|].
  intros p _ Hp. apply vwp_bind, vwp_upd. change (bool_decide _) with (shared_backend (cp_dev_id p)).
  rewrite Hp. do 2 (apply vwp_bind, vwp_upd). apply vwp_bind, vwp_get. simpl.
  assert (Hid : set_is_backend_shared_ false s = s) by (destruct s; simpl in *; by subst).
  case_decide.
  - apply vwp_ret. specialize (HQ 0 p (cp_name p) (mDevices s)).
    destruct s; simpl in *; subst. by apply HQ.
  - apply vwp_bind. unfold GetAvailCaptureDevice.
    apply vwp_bind, vwp_ask. intros x. apply vwp_ret, vwp_bind, vwp_ask. intros x'.
    assert (Hd : mDevices s = []) by (destruct (mDevices s); naive_solver).
    destruct (GetPalDevice x' _) as [d|] eqn:E; simpl.
    + apply vwp_bind, vwp_upd, vwp_ret. simpl.
      specialize (HQ 0 p (cp_name p) [d]). destruct s; simpl in *; subst. by apply HQ.
    + apply vwp_ret. specialize (HQ (- EINVAL) p (cp_name p) []).
      destruct s; simpl in *; subst. apply HQ; [by eapply HD|done].
Qed.

Lemma vwp_updateStreamAttributes Q s n l a :
  cap_prof_ s ≠ None → sm_cfg_ s ≠ None → vui_intf_ s ≠ None →
  (∀ at', Q tt (mkView (set_mStreamAttr at' s) n l a)) →
  vwp updateStreamAttributes Q (mkView s n l a).
Proof using Type*.
  intros Hc Hs Hv HQ. repeat vstep. all: auto.
Qed.

Lemma vwp_FstageLoad Q s n l a :
  (∀ cfg, sm_cfg_ s = Some cfg → cfg_ok cfg) → attached s → is_backend_shared_ s = false →
  (∀ r p nm ds at', R r →
     Q r (mkView (set_mStreamAttr at' (set_mDevices ds (set_mDevPPSelector nm
            (set_cap_prof_ (Some p) s)))) n l a)) →
  vwp FstageLoad Q (mkView s n l a).
Proof using Type*.
  intros Hok (Hg&Hv&Hc) Hb HQ. unfold FstageLoad.
  apply vwp_bind, vwp_UpdateDeviceConfig; [done..|]. intros r p nm ds Hr _. case_decide.
  { apply vwp_ret. specialize (HQ r p nm ds (mStreamAttr s) Hr). by destruct s. }
  apply vwp_bind, vwp_updateStreamAttributes; [done..|].
  intros at'. repeat vstep. by apply HQ.
Qed.

Lemma vwp_close_if_open r Q s n l a :
  R r → (∀ r' b, R r' → Q r' (mkView (set_device_opened_ b s) n l a)) →
  vwp (close_if_open r) Q (mkView s n l a).
Proof using Type*.
  intros Hr HQ. destruct s. unfold close_if_open. repeat vstep. all: by apply HQ.
Qed.

Lemma vwp_release_pal_devices Q s n l a :
  Q tt (mkView (set_mPalDevices [] s) n l a) → vwp release_pal_devices Q (mkView s n l a).
Proof using Type*.
  intros HQ. unfold release_pal_devices. vstep. vstep. vstep. vstep; [by vstep|]. by vstep.
Qed.

Lemma vwp_FstageUnload Q s n l a :
  gsl_engine_ s ≠ None → is_backend_shared_ s = false →
  (∀ r b, R r → Q r (mkView (set_mDevices [] (set_device_opened_ b s)) n l a)) →
  vwp FstageUnload Q (mkView s n l a).
Proof using Type*.
  intros Hg Hb HQ. unfold FstageUnload. vstep. apply vwp_close_if_open; [done|].
  intros r' b _. do 3 vstep. eapply vwp_get_eq; [cbn; exact Hb|]. cbn beta.
  repeat vstep. by apply HQ.
Qed.

(** Unloading leaves nothing attached. *)
Definition unloaded (b : bool) (s : StreamSoundTrigger) : StreamSoundTrigger :=
  set_notification_state_ ENGINE_IDLE (set_mInstanceID 0 (set_reader_list_ []
  (set_reader_ None (set_vui_intf_handle_ None (set_vui_intf_ None (set_gsl_engine_ None
  (set_engines_ [] (set_mDevices [] (set_device_opened_ b (set_mPalDevices [] s)))))))))).

Lemma vwp_UnloadSoundModel Q s n l a :
  (∀ r b, R r → Q r (mkView (unloaded b s) n l a)) →
  vwp UnloadSoundModel Q (mkView s n l a).
Proof using Type*.
  intros HQ. unfold UnloadSoundModel. vstep. vstep. vstep.
  eapply vwp_unload_engines; [done|done|]. intros r Hr.
  vstep. apply vwp_release_pal_devices. vstep. apply vwp_close_if_open; [done|].
  intros r' b Hr'. pose proof (HQ r' b Hr') as HQ'. clear HQ. destruct s.
  unfold unloaded in HQ'. cbn in HQ'.
  repeat vstep; simpl in *; simplify_eq/=; exact HQ'.
Qed.

(** A created buffer has a reader per engine. *)
Lemma vwp_create_buffer {B} e size k (f : Z → list Z → St (World X) B) Q v :
  0 ≤ k → (∀ r readers, R r → (r = 0 → zlen readers = k) → vwp (f r readers) Q v) →
  vwp (st_bind (call (EngCreateBuffer e size k)) (λ r, st_bind (ask created_readers) (f r))) Q v.
Proof using Type*.
  intros Hk H. apply vwp_intro. intros w <-. unfold st_bind, call.
  pose proof (HR (EngCreateBuffer e size k) (ext w)) as Hr.
  destruct (st_op (EngCreateBuffer e size k) (ext w)) as [r x] eqn:E.
  unfold ask, st_gets. simpl. refine (vwp_run _ _ (mkWorld _ _ _ _ _ _) (H r (created_readers x) Hr _)).
  intros ->. by eapply law_readers.
Qed.

Lemma splice_fits (c : pal_st_recognition_config) :
  rc_ok c → ∃ b, splice (data_offset c) (rc_data c)
    (replicate (Z.to_nat (sizeof_pal_st_recognition_config + data_size c)) 0) = Some b.
Proof.
  intros [[E ?] _]. pose proof (zlen_nonneg (rc_data c)).
  apply splice_is_Some; [lia|]. unfold zlen. rewrite length_replicate. unfold zlen in *. lia.
Qed.

Lemma vwp_UpdateRecognitionConfig config Q s n l a :
  (∀ c, config = Some c → rc_ok c) →
  (config = None → Q (- EINVAL) (mkView s n l a)) →
  (∀ c, config = Some c → Q 0 (mkView (set_rec_config_ (Some c) s) n l a)) →
  vwp (X := X) (UpdateRecognitionConfig config) Q (mkView s n l a).
Proof using Type*.
  intros Hok HN HS. unfold UpdateRecognitionConfig. destruct config as [c|]; [|by apply vwp_ret, HN].
  destruct (splice_fits c (Hok c eq_refl)) as [b ->]. repeat vstep. by apply HS.
Qed.

Definition configured (h p isz ic : Z) (rl : list Z) (rd : option Z) (cr : bool)
    (rec : option pal_st_recognition_config) (s : StreamSoundTrigger) : StreamSoundTrigger :=
  set_rec_config_ rec (set_capture_requested_ cr (set_reader_ rd (set_reader_list_ rl
  (set_inBufCount ic (set_inBufSize isz (set_pre_roll_duration_ p
  (set_hist_buf_duration_ h s))))))).

Lemma vwp_update_mmap_size cfg h Q s n l a :
  cfg_ok cfg →
  (∀ r isz ic, (R r ∨ r = - EINVAL) →
     Q r (mkView (set_inBufCount ic (set_inBufSize isz s)) n l a)) →
  vwp (X := X) (update_mmap_size cfg h) Q (mkView s n l a).
Proof using Type*.
  intros [_ Hm] HQ. destruct s. unfold update_mmap_size.
  rewrite (decide_False (P := GetMmapBufferDuration cfg = 0)) by done.
  st_cbv in HQ. repeat vstep; st_cbv; apply HQ; auto.
Qed.

Lemma vwp_SendRecognitionConfig config Q s n l a :
  (∀ c, config = Some c → rc_ok c) →
  (∀ cfg, sm_cfg_ s = Some cfg → cfg_ok cfg) → attached s →
  (∀ r h p isz ic rl rd cr rec,
     (r = 0 → rec = config ∧ config ≠ None) → (r ≠ 0 → rec = None) →
     (config ≠ None → (∀ cfg, sm_cfg_ s = Some cfg → GetMmapEnable cfg = false) → R r) →
     Q r (mkView (configured h p isz ic rl rd cr rec s) n l a)) →
  vwp (SendRecognitionConfig config) Q (mkView s n l a).
Proof using Type*.
  intros Hrc Hok (Hg&Hv&Hc) HQ. destruct s. unfold configured in HQ.
  st_cbv in HQ. st_cbv in Hok. st_cbv in Hg. st_cbv in Hv. st_cbv in Hc.
  destruct sm_cfg_ as [cfg|]; [|done]. specialize (Hok cfg eq_refl).
  destruct vui_intf_ as [v|]; [|done]. destruct gsl_engine_ as [e|]; [|done].
  unfold SendRecognitionConfig, andThen.
  do 5 vstep. apply vwp_UpdateRecognitionConfig; [done| |].
  - intros ->. repeat vstep; st_cbv; apply HQ; done.
  - intros c ->. rewrite (decide_False (P := 0 ≠ 0)) by lia.
    repeat (lazymatch goal with
            | |- vwp (st_bind (call (EngCreateBuffer _ _ _)) _) _ _ => fail
            | |- vwp (update_mmap_size _ _) _ _ =>
                apply vwp_update_mmap_size; [done|intros ? ? ? _]
            | _ => vstep
            end).
    all: try by st_cbv; apply HQ; try done; intros _ Hmm; rewrite (Hmm _ eq_refl) in *.
    all: apply vwp_create_buffer; [apply zlen_nonneg|]; intros ? readers ? Hlen; vstep; vstep; vstep; vstep.
    all: vstep; [by repeat vstep; st_cbv; apply HQ|].
    all: vstep; apply (vwp_assign_readers R HR); [done|unfold zlen in Hlen; lia|].
    all: intros; repeat vstep; st_cbv; by apply HQ.
Qed.

(** A sound model whose data start no later than its structure ends. *)
Definition sizeof_model (m : pal_st_sound_model) : Z :=
  if decide (sm_type m = PAL_SOUND_MODEL_TYPE_KEYPHRASE)
  then sizeof_pal_st_phrase_sound_model else sizeof_pal_st_sound_model.
Definition sm_ok (m : pal_st_sound_model) : Prop :=
  zlen (sm_data m) = sm_data_size m ∧ 0 ≤ sm_data_offset m ≤ sizeof_model m ∧
  sizeof_model m + sm_data_size m < 2 ^ 31.

Lemma vwp_copy_sound_model m Q v :
  sm_ok m → Q (Some m) v → vwp (X := X) (copy_sound_model (sizeof_model m) m) Q v.
Proof using Type*.
  intros (E&?&?) HQ. unfold copy_sound_model. pose proof (zlen_nonneg (sm_data m)).
  assert (0 < sizeof_model m) by (unfold sizeof_model; case_decide; reflexivity).
  rewrite s32_small by lia. rewrite decide_False by lia.
  set (blk := replicate (Z.to_nat (sizeof_model m + sm_data_size m)) 0).
  assert (zlen blk = sizeof_model m + sm_data_size m)
    by (unfold zlen, blk; rewrite length_replicate; lia).
  destruct (splice_is_Some 0 (replicate (Z.to_nat (sizeof_model m)) 0) blk) as [b1 ->];
    [lia|unfold zlen at 1; rewrite length_replicate; lia|].
  destruct (splice_is_Some (sm_data_offset m) (sm_data m) blk) as [b2 ->]; [lia|lia|].
  by repeat vstep.
Qed.

Definition model_updated (t md : Z) (smc : option pal_st_sound_model)
    (cfg : option VUIStreamConfig) (s : StreamSoundTrigger) : StreamSoundTrigger :=
  set_sm_cfg_ cfg (set_recognition_mode_ md (set_sm_config_ smc (set_sound_model_type_ t s))).

Lemma vwp_UpdateSoundModel m Q s n l a :
  sm_ok m → (∀ cfg, sm_cfg_ s = Some cfg → cfg_ok cfg) →
  (∀ r t md smc cfg, (r = 0 → cfg ≠ None) → (∀ c, cfg = Some c → cfg_ok c) →
     Q r (mkView (model_updated t md smc cfg s) n l a)) →
  vwp (UpdateSoundModel m) Q (mkView s n l a).
Proof using Type*.
  intros Hm Hok HQ. destruct s. unfold model_updated in HQ. st_cbv in HQ. st_cbv in Hok.
  pose proof (vwp_copy_sound_model m) as Hcopy. unfold sizeof_model in Hcopy.
  unfold UpdateSoundModel. vstep. vstep.
  repeat (lazymatch goal with
          | |- vwp (copy_sound_model _ _) _ _ =>
              apply Hcopy; [done|]; cbn beta
          | _ => vstep
          end).
  all: st_cbv; apply HQ; try done; try lia.
  all: try (intros ? E; by eapply law_cfg).
  all: try (case_decide; [done|by intros _]).
Qed.

Lemma vwp_HandleEngineLoad sm t Q s n l a :
  vui_intf_ s ≠ None →
  (∀ r gm mid, Q r (mkView (set_model_id_ mid (set_gsl_engine_model_ gm s)) n l a)) →
  vwp (HandleEngineLoad sm t) Q (mkView s n l a).
Proof using Type*.
  intros Hv HQ. destruct s. st_cbv in HQ. st_cbv in Hv. destruct vui_intf_ as [v|]; [|done].
  unfold HandleEngineLoad. repeat vstep. all: st_cbv; by apply HQ.
Qed.

Definition engines_loaded (gm : option Z) (mid : Z) (es : list (Z * Z)) (g : option Z) (ns : Z)
    (s : StreamSoundTrigger) : StreamSoundTrigger :=
  set_notification_state_ ns (set_gsl_engine_ g (set_engines_ es
  (set_model_id_ mid (set_gsl_engine_model_ gm s)))).

Lemma vwp_load_engines sms t Q s n l a :
  vui_intf_ s ≠ None →
  (∀ r gm mid es g ns,
     (r = Some tt → ST_SM_ID_SVA_F_STAGE_GMM ∈ smd_type <$> sms ∨ gsl_engine_ s ≠ None →
      g ≠ None) →
     Q r (mkView (engines_loaded gm mid es g ns s) n l a)) →
  vwp (load_engines sms t) Q (mkView s n l a).
Proof using Type*.
  revert s. induction sms as [|sm sms IH]; intros s Hv HQ; simpl.
  - vstep. destruct s. unfold engines_loaded in HQ. st_cbv in HQ. apply HQ.
    intros _ [H|H]; [by apply elem_of_nil in H|done].
  - vstep. apply vwp_HandleEngineLoad; [done|]. intros [e|] gm mid.
    + vstep. vstep. vstep.
      assert (Hgo : ∀ ns g, (smd_type sm = ST_SM_ID_SVA_F_STAGE_GMM ∨ gsl_engine_ s ≠ None → g ≠ None) →
        vwp (load_engines sms t) Q (mkView (engines_loaded gm mid
          (engines_ s ++ [(smd_type sm, e)]) g ns s) n l a)).
      { intros ns g Hg. apply IH; [done|]. intros r gm' mid' es g' ns' Hr.
        specialize (HQ r gm' mid' es g' ns'). unfold engines_loaded in *. destruct s.
        st_cbv in HQ. st_cbv in Hr. st_cbv in Hg. st_cbv. apply HQ. intros ->. 
        rewrite fmap_cons, elem_of_cons. intros [[E|?]|?]; apply Hr; auto. }
      destruct s. unfold engines_loaded in Hgo. st_cbv in Hgo. st_cbv in HQ.
      repeat vstep. all: st_cbv; apply Hgo; first [done|intros [?|?]; done|idtac].
    + vstep. destruct s. unfold engines_loaded in HQ. st_cbv in HQ. st_cbv. by apply HQ.
Qed.

(** An attached plug-in has an interface. *)
Lemma vwp_get_interface {B} t (f : Z → option Z → St (World X) B) Q v :
  (∀ r h, R r → (r = 0 → h ≠ None) → vwp (f r h) Q v) →
  vwp (st_bind (call (VuiGetInterface t)) (λ r, st_bind (ask vui_handle) (f r))) Q v.
Proof using Type*.
  intros H. apply vwp_intro. intros w <-. unfold st_bind, call.
  pose proof (HR (VuiGetInterface t) (ext w)) as Hr.
  destruct (st_op (VuiGetInterface t) (ext w)) as [r x] eqn:E.
  unfold ask, st_gets. simpl.
  refine (vwp_run _ _ (mkWorld _ _ _ _ _ _) (H r (vui_handle x) Hr _)).
  intros ->. by eapply law_vui.
Qed.

Lemma vwp_init_vui_interface cfg Q s n l a :
  (∀ r h v, (r.1 = false → r.2 ≠ 0) → (r.1 = true → v ≠ None) →
     Q r (mkView (set_vui_intf_ v (set_vui_intf_handle_ h s)) n l a)) →
  vwp (init_vui_interface cfg) Q (mkView s n l a).
Proof using Type*.
  intros HQ. destruct s. st_cbv in HQ. unfold init_vui_interface. do 2 vstep.
  apply vwp_get_interface. intros r h _ Hh. repeat vstep.
  all: st_cbv; apply HQ; simpl; try done.
  all: first [case_bool_decide; done|intros _ ->; by apply Hh].
Qed.

Lemma vwp_error_exit Q s n l a :
  Q tt (mkView (set_vui_intf_ None (set_gsl_engine_ None (set_engines_ [] s))) n l a) →
  vwp LoadSoundModel_error_exit Q (mkView s n l a).
Proof using Type*.
  intros HQ. destruct s. st_cbv in HQ. unfold LoadSoundModel_error_exit.
  do 3 vstep. vstep; [by vstep|]. repeat vstep; simplify_eq/=; st_cbv; done.
Qed.

(** The fields a load may change. *)
Definition model_loaded (t md : Z) cfg mt vh v at' sel id gm mid es g ns
    (s : StreamSoundTrigger) : StreamSoundTrigger :=
  set_sm_config_ None (engines_loaded gm mid es g ns (set_mInstanceID id
  (set_mStreamSelector sel (set_mStreamAttr at' (set_vui_intf_ v (set_vui_intf_handle_ vh
  (set_model_type_ mt (model_updated t md None cfg s)))))))).

Lemma vwp_LoadSoundModel m Q s n l a :
  sm_ok m → (∀ cfg, sm_cfg_ s = Some cfg → cfg_ok cfg) → cap_prof_ s ≠ None →
  (∀ r t md cfg mt vh v at' sel id gm mid es g ns,
     (r = 0 → attached (model_loaded t md cfg mt vh v at' sel id gm mid es g ns s)) →
     (∀ c, cfg = Some c → cfg_ok c) →
     Q r (mkView (model_loaded t md cfg mt vh v at' sel id gm mid es g ns s) n l a)) →
  vwp (LoadSoundModel m) Q (mkView s n l a).
Proof using Type*.
  intros Hm Hok Hcap HQ. destruct s.
  unfold attached, model_loaded, engines_loaded, model_updated in HQ.
  st_cbv in HQ. st_cbv in Hok. st_cbv in Hcap.
  unfold LoadSoundModel. do 2 vstep.
  apply vwp_UpdateSoundModel; [done..|]. unfold model_updated. intros r t md smc cfg Hr Hc.
  vstep.
  - vstep. apply vwp_error_exit. repeat vstep. st_cbv. apply HQ; done.
  - destruct cfg as [cfg|]; [|exfalso; by apply Hr; [lia|]].
    vstep. vstep. do 2 vstep. vstep. apply vwp_init_vui_interface. intros [go r'] h v Hf Ht.
    simpl. destruct go; simpl.
    + specialize (Ht eq_refl). vstep. apply vwp_updateStreamAttributes; [done..|]. intros at'.
      repeat lazymatch goal with
             | |- vwp (load_engines _ _) _ _ => fail
             | _ => vstep
             end.
      apply vwp_load_engines; [done|]. unfold engines_loaded.
      intros [[]|] gm mid es g ns Hg; cbn beta iota.
      * repeat vstep. st_cbv. apply HQ; [|done]. intros _. repeat split; [|done..].
        apply Hg; [done|]. left. apply law_models.
      * vstep. vstep. apply vwp_error_exit. repeat vstep. st_cbv. by apply HQ.
    + vstep. vstep. apply vwp_error_exit. repeat vstep. st_cbv. apply HQ; [|done].
      intros ->. exfalso. by apply Hf.
Qed.

(** *** Starting *)

Lemma vwp_open_device d Q v : (∀ r, R r → Q r v) → vwp (open_device d) Q v.
Proof using Type*. intros HQ. repeat vstep. by apply HQ. Qed.

Lemma vwp_undo_start es Q s n l a :
  (∀ b, Q tt (mkView (set_device_opened_ b s) n l a)) →
  vwp (undo_start es) Q (mkView s n l a).
Proof using Type*.
  intros HQ. unfold undo_start. vstep. vstep; [by vstep|]. destruct s. st_cbv in HQ.
  repeat vstep. all: st_cbv; by apply HQ.
Qed.

Lemma vwp_reset_reader Q s n l a :
  Q tt (mkView s n l a) → vwp reset_reader Q (mkView s n l a).
Proof using Type*. intros HQ. repeat vstep. all: done. Qed.

Lemma vwp_deregister_device Q s n l a :
  Q tt (mkView s n l a) → vwp deregister_device Q (mkView s n l a).
Proof using Type*. intros HQ. repeat vstep. all: done. Qed.

Lemma vwp_stop_close_device r Q s n l a :
  R r → (∀ r' b, R r' → Q r' (mkView (set_device_opened_ b s) n l a)) →
  vwp (stop_close_device r) Q (mkView s n l a).
Proof using Type*.
  intros Hr HQ. destruct s. st_cbv in HQ. repeat vstep. all: st_cbv; by apply HQ.
Qed.

Lemma vwp_drop_nlpi_vote Q s n l a :
  Q tt (mkView (set_force_nlpi_vote false s) n l a) → vwp drop_nlpi_vote Q (mkView s n l a).
Proof using Type*.
  intros HQ. destruct s. st_cbv in HQ. repeat vstep. all: st_cbv; subst; done.
Qed.

(** What is left of a start: the device open or not, and the state. *)
Definition started (c p : st_state_id_t) (b : bool) (vt : vote_type_t) (s : StreamSoundTrigger) :
    StreamSoundTrigger :=
  set_cur_state_ c (set_prev_state_ p (set_device_opened_ b (set_vote_type_ vt s))).

Lemma vwp_update_backend ev Q s n l a :
  (∀ b, Q b (mkView s n l a)) → vwp (update_backend ev) Q (mkView s n l a).
Proof using Type*. intros HQ. repeat vstep. all: by apply HQ. Qed.

Lemma vwp_start_device d r Q s n l a :
  R r → is_backend_shared_ s = false →
  (∀ f vt b, match f with fl_next => True | fl_break r | fl_err r => R r end →
     Q f (mkView (set_device_opened_ b (set_vote_type_ vt s)) n l a)) →
  vwp (start_device d r) Q (mkView s n l a).
Proof using Type*.
  intros Hr Hb HQ. destruct s. st_cbv in HQ. st_cbv in Hb. subst. unfold start_device.
  do 3 vstep. vstep. vstep.
  - vstep. st_cbv. by apply HQ.
  - destruct (GetSoundTriggerCaptureProfile x) as [p|] eqn:E; [|exfalso; naive_solver].
    repeat vstep. all: st_cbv; by apply HQ.
Qed.

Lemma vwp_start_all_engines r Q s n l a :
  R r → (∀ r c p b, R r → (c = cur_state_ s ∨ c = ST_STATE_ACTIVE) →
     Q r (mkView (set_cur_state_ c (set_prev_state_ p (set_device_opened_ b s))) n l a)) →
  vwp (start_all_engines r) Q (mkView s n l a).
Proof using Type*.
  intros Hr HQ. destruct s. st_cbv in HQ. unfold start_all_engines. do 3 vstep.
  apply (vwp_start_engines R HR); [done|]. intros [r' tmp] Hr'. cbn beta iota. vstep.
  - vstep. apply vwp_undo_start. intros b'. vstep. st_cbv. apply HQ; auto.
  - vstep. apply vwp_reset_reader. repeat vstep. st_cbv. apply HQ; auto.
Qed.

Lemma vwp_start_streaming r Q s n l a :
  R r → is_backend_shared_ s = false →
  (∀ r c p b vt, R r → (c = cur_state_ s ∨ c = ST_STATE_ACTIVE) →
     Q r (mkView (started c p b vt s) n l a)) →
  vwp (start_streaming r) Q (mkView s n l a).
Proof using Type*.
  intros Hr Hb HQ. destruct s. unfold started in HQ. st_cbv in HQ. st_cbv in Hb.
  unfold start_streaming. do 2 vstep. vstep.
  - apply vwp_start_all_engines; [done|]. intros. st_cbv. by apply HQ.
  - vstep. apply vwp_start_device; [done..|]. intros [|r'|r'] vt b Hf.
    + apply vwp_start_all_engines; [done|]. intros. st_cbv. by apply HQ.
    + vstep. st_cbv. apply HQ; auto.
    + vstep. apply vwp_undo_start. intros b'. vstep. st_cbv. apply HQ; auto.
Qed.

Lemma vwp_StLoaded_START ev Q s n l a :
  is_backend_shared_ s = false →
  (rec_config_ s = None → paused_ s = false →
   match ev with StStartRecognitionEventConfig _ => True | _ => False end) →
  (∀ r c p b vt, (R r ∨ r = - EBUSY ∨ r = - EINVAL) →
     (c = cur_state_ s ∨ c = ST_STATE_ACTIVE ∧ rec_config_ s ≠ None) →
     Q r (mkView (started c p b vt s) n l a)) →
  vwp (StLoaded_START_RECOGNITION ev) Q (mkView s n l a).
Proof using Type*.
  intros Hb Hev HQ. destruct s. unfold started in HQ. st_cbv in HQ.
  st_cbv in Hb. st_cbv in Hev. unfold StLoaded_START_RECOGNITION.
  vstep. vstep. vstep; [vstep; apply HQ; auto|]. do 2 vstep. vstep.
  { subst. destruct ev; try (exfalso; by apply Hev); vstep; apply HQ; auto. }
  vstep. apply vwp_update_backend. intros upd. vstep.
  destruct upd; repeat lazymatch goal with
    | |- vwp (start_streaming _) _ _ => fail | _ => vstep end.
  all: apply vwp_start_streaming; [done|exact Hb|].
  all: intros r' c p b vt ? [-> | ->]; unfold started; st_cbv; apply HQ; auto.
Qed.

(** *** Stopping *)

(** Steps of a program, with the rules of the functions above. *)
Ltac vlem :=
  lazymatch goal with
  | |- vwp deregister_device _ _ => apply vwp_deregister_device
  | |- vwp reset_reader _ _ => apply vwp_reset_reader
  | |- vwp drop_nlpi_vote _ _ => apply vwp_drop_nlpi_vote
  | |- vwp (stop_engines _ _) _ _ => apply (vwp_stop_engines R HR); [done|intros ? ?]
  | |- vwp (stop_close_device _) _ _ => apply vwp_stop_close_device; [done|intros ? ? ?]
  | |- vwp (undo_start _) _ _ => apply vwp_undo_start; intros ?
  | |- vwp (start_engines _ _ _) _ _ => apply (vwp_start_engines R HR); [done|intros [? ?] ?]
  | |- vwp (connect_engines _ _ _ _) _ _ =>
      apply (vwp_connect_engines R HR); [done|intros [? ?] ?]
  | |- vwp (restart_engines _ _) _ _ => apply (vwp_restart_engines R HR); [done|intros ? ?]
  | |- vwp (open_device _) _ _ => apply vwp_open_device; intros ? ?
  | |- vwp release_pal_devices _ _ => apply vwp_release_pal_devices
  end.
Ltac vgo := repeat (first [vlem; cbn beta iota | vstep]).

(** A stopped stream, before what follows in the loaded state. *)
Definition halted (p : st_state_id_t) (b ps tw fv : bool) (s : StreamSoundTrigger) :
    StreamSoundTrigger :=
  set_cur_state_ ST_STATE_LOADED (set_prev_state_ p (set_device_opened_ b
  (set_pending_stop_ ps (set_timer_stop_waiting_ tw (set_force_nlpi_vote fv s))))).

Definition follow_up (rec : StEventConfig → St (World X) Z) (ev : StEventConfig) (r : Z) :
    St (World X) Z :=
  match ev with
  | StUnloadEventConfig => rec ev
  | StPauseEventConfig => notifyClient PAL_RECOGNITION_STATUS_ABORT
  | _ => st_ret r
  end.

Lemma vwp_after_stop rec ev r Q s n l a :
  R r →
  (∀ p, vwp (follow_up rec ev r) Q (mkView (set_cur_state_ ST_STATE_LOADED (set_prev_state_ p s)) n l a)) →
  vwp (after_stop rec ev r) Q (mkView s n l a).
Proof using Type*.
  intros Hr HQ. unfold after_stop. do 2 vstep. unfold when. rewrite bool_decide_true by done.
  vstep. apply HQ.
Qed.

Lemma vwp_StActive_STOP rec ev Q s n l a :
  (∀ r p b ps tw fv, R r →
     vwp (follow_up rec ev r) Q (mkView (halted p b ps tw fv s) n l a)) →
  vwp (StActive_STOP_RECOGNITION rec ev) Q (mkView s n l a).
Proof using Type*.
  intros HQ. destruct s. unfold halted in HQ. st_cbv in HQ. unfold StActive_STOP_RECOGNITION.
  repeat lazymatch goal with
         | |- vwp (after_stop _ _ _) _ _ => fail
         | _ => first [vlem | vstep]
         end.
  all: apply vwp_after_stop; [done|]; intros p; st_cbv; by apply HQ.
Qed.

Lemma vwp_StDetected_STOP rec ev Q s n l a :
  (∀ r p b ps tw fv, R r →
     vwp (follow_up rec ev r) (λ r, vwp (releaseWakeLock ;;;; st_ret r)%st Q)
       (mkView (halted p b ps tw fv s) n l a)) →
  vwp (StDetected_STOP_RECOGNITION rec ev) Q (mkView s n l a).
Proof using Type*.
  intros HQ. destruct s. unfold halted in HQ. st_cbv in HQ. unfold StDetected_STOP_RECOGNITION.
  repeat lazymatch goal with
         | |- vwp (after_stop _ _ _) _ _ => fail
         | _ => first [vlem | vstep]
         end.
  all: apply vwp_after_stop; [done|]; intros p; st_cbv; by apply HQ.
Qed.

Lemma vwp_StBuffering_STOP rec ev Q s n l a :
  (∀ r p b ps tw fv, R r →
     vwp (follow_up rec ev r) (λ r, vwp (releaseWakeLock ;;;; st_ret r)%st Q)
       (mkView (halted p b ps tw fv s) n l a)) →
  vwp (StBuffering_STOP_RECOGNITION rec ev) Q (mkView s n l a).
Proof using Type*.
  intros HQ. destruct s. unfold halted in HQ. st_cbv in HQ. unfold StBuffering_STOP_RECOGNITION.
  repeat lazymatch goal with
         | |- vwp (after_stop _ _ _) _ _ => fail
         | _ => first [vlem | vstep]
         end.
  all: apply vwp_after_stop; [done|]; intros p; st_cbv; by apply HQ.
Qed.

Lemma vwp_notify_abort Q s n l a :
  sm_config_ s = None → Q (- ENOMEM) (mkView s n l a) →
  vwp (notifyClient PAL_RECOGNITION_STATUS_ABORT) Q (mkView s n l a).
Proof using Type*.
  intros Hs HQ. unfold notifyClient. rewrite decide_True by done. unfold notify_abort.
  vstep. eapply vwp_get_eq; [exact Hs|]. cbn beta. simpl. by vstep.
Qed.

(** *** Devices coming and going *)

Definition reconnected (cp : option CaptureProfile) (nm : string) (ds : list Z)
    (at' : pal_stream_attributes) (b sp : bool) (s : StreamSoundTrigger) : StreamSoundTrigger :=
  set_second_stage_processing_ sp (set_device_opened_ b (set_mStreamAttr at' (set_mDevices ds
  (set_mDevPPSelector nm (set_cap_prof_ cp s))))).

Lemma vwp_connect_open Q s n l a :
  (∀ cfg, sm_cfg_ s = Some cfg → cfg_ok cfg) → attached s → is_backend_shared_ s = false →
  (∀ r cp nm ds at' b, (r.1 ≠ None → r.2 = 0) →
     Q r (mkView (reconnected cp nm ds at' b (second_stage_processing_ s) s) n l a)) →
  vwp connect_open Q (mkView s n l a).
Proof using Type*.
  intros Hok (Hg&Hv&Hc) Hb HQ. unfold connect_open. do 2 vstep. vstep.
  - vstep. specialize (HQ (None, - EINVAL) (cap_prof_ s) (mDevPPSelector s) (mDevices s)
      (mStreamAttr s) (device_opened_ s)). destruct s. by apply HQ.
  - vstep. apply vwp_UpdateDeviceConfig; [done..|]. intros r p nm ds Hr Hne. do 2 vstep.
    assert (Hfail : Q (None, r) (mkView (set_mDevices ds (set_mDevPPSelector nm
      (set_cap_prof_ (Some p) s))) n l a)).
    { specialize (HQ (None, r) (Some p) nm ds (mStreamAttr s) (device_opened_ s)).
      destruct s. by apply HQ. }
    destruct ds as [|d ds]; [by apply vwp_ret|]. case_decide; [by apply vwp_ret|].
    vstep. apply vwp_updateStreamAttributes; [done..|]. intros at'.
    destruct s. unfold reconnected in HQ. st_cbv in HQ. st_cbv in Hg.
    vgo.
    all: st_cbv; by apply HQ.
Qed.

Lemma vwp_connect_start d Q s n l a :
  (∀ r b, R r → Q r (mkView (set_device_opened_ b s) n l a)) →
  vwp (connect_start d) Q (mkView s n l a).
Proof using Type*.
  intros HQ. destruct s. st_cbv in HQ. repeat vstep. all: st_cbv; by apply HQ.
Qed.

Lemma vwp_connect_session d Q s n l a :
  gsl_engine_ s ≠ None →
  (∀ r ds b, R r → Q r (mkView (set_device_opened_ b (set_mDevices ds s)) n l a)) →
  vwp (connect_session d) Q (mkView s n l a).
Proof using Type*.
  intros Hg HQ. destruct s. st_cbv in HQ. st_cbv in Hg. repeat vstep. all: st_cbv; by apply HQ.
Qed.

Lemma vwp_ConnectEvent_start d Q s n l a :
  gsl_engine_ s ≠ None →
  (∀ r ds b sp, (cur_state_ s = ST_STATE_BUFFERING → sp = second_stage_processing_ s) →
     Q r (mkView (set_second_stage_processing_ sp (set_device_opened_ b (set_mDevices ds s))) n l a)) →
  vwp (ConnectEvent_start d) Q (mkView s n l a).
Proof using Type*.
  intros Hg HQ. unfold ConnectEvent_start, andThen. destruct s. st_cbv in HQ. st_cbv in Hg.
  vstep. apply vwp_connect_start. intros r1 b1 _. vstep; [vstep; st_cbv; by apply HQ|].
  vstep. apply vwp_connect_session; [done|]. intros r2 ds2 b2 _.
  vstep; [vstep; st_cbv; by apply HQ|].
  vgo. all: st_cbv; apply HQ; first [done|intros ?; congruence].
Qed.

Lemma vwp_ConnectEvent Q s n l a :
  (∀ cfg, sm_cfg_ s = Some cfg → cfg_ok cfg) → attached s → is_backend_shared_ s = false →
  (∀ r cp nm ds at' b sp, (cur_state_ s = ST_STATE_BUFFERING → sp = second_stage_processing_ s) →
     Q r (mkView (reconnected cp nm ds at' b sp s) n l a)) →
  vwp ConnectEvent Q (mkView s n l a).
Proof using Type*.
  intros Hok Ha Hb HQ. unfold ConnectEvent. vstep. apply vwp_connect_open; [done..|].
  intros [[d|] r] cp nm ds at' b Hr; cbn [fst snd]; [|vstep; by apply HQ].
  apply vwp_ConnectEvent_start; [apply Ha|]. intros r2 ds2 b2 sp Hsp.
  specialize (HQ r2 cp nm ds2 at' b2 sp Hsp). by destruct s.
Qed.

Lemma vwp_disconnect_devices ds sw r Q s n l a :
  gsl_engine_ s ≠ None → R r →
  (∀ r b, R r → Q r (mkView (set_device_opened_ b s) n l a)) →
  vwp (disconnect_devices ds sw r) Q (mkView s n l a).
Proof using Type*.
  revert r s. induction ds as [|d ds IH]; intros r s Hg Hr HQ; simpl.
  - vstep. specialize (HQ r (device_opened_ s) Hr). by destruct s.
  - assert (Hgo : ∀ r, R r → vwp (upd (set_device_opened_ false) ;;;;
        disconnect_devices ds sw r)%st Q (mkView s n l a)).
    { intros r' Hr'. vstep. vstep. apply IH; [done..|]. intros r2 b ?.
      destruct s. by apply HQ. }
    destruct sw; repeat lazymatch goal with
      | |- vwp (st_bind (upd (set_device_opened_ false)) _) _ _ => fail | _ => vstep end.
    all: by apply Hgo.
Qed.

Lemma vwp_loaded_disconnect ds r Q s n l a :
  gsl_engine_ s ≠ None →
  (∀ r b, Q r (mkView (set_device_opened_ b s) n l a)) →
  vwp (loaded_disconnect ds r) Q (mkView s n l a).
Proof using Type*.
  revert r s. induction ds as [|d ds IH]; intros r s Hg HQ; simpl.
  - vstep. specialize (HQ r (device_opened_ s)). by destruct s.
  - repeat lazymatch goal with |- vwp (loaded_disconnect _ _) _ _ => fail | _ => vstep end.
    all: apply IH; [done|]; intros r2 b; destruct s; by apply HQ.
Qed.

Lemma vwp_active_disconnect ds r Q s n l a :
  gsl_engine_ s ≠ None →
  (∀ r b, Q r (mkView (set_device_opened_ b s) n l a)) →
  vwp (active_disconnect ds r) Q (mkView s n l a).
Proof using Type*.
  revert r s. induction ds as [|d ds IH]; intros r s Hg HQ; simpl.
  - vstep. specialize (HQ r (device_opened_ s)). by destruct s.
  - repeat lazymatch goal with |- vwp (active_disconnect _ _) _ _ => fail | _ => vstep end.
    + specialize (HQ r0 (device_opened_ s)). by destruct s.
    + apply HQ.
    + apply IH; [done|]; intros r2 b; destruct s; by apply HQ.
Qed.

Definition disconnected (ds : list Z) (b ps tw : bool) (s : StreamSoundTrigger) :
    StreamSoundTrigger :=
  set_mDevices ds (set_device_opened_ b (set_pending_stop_ ps (set_timer_stop_waiting_ tw s))).

Lemma vwp_DisconnectEvent dev sw Q s n l a :
  gsl_engine_ s ≠ None →
  (∀ r ds b ps tw, R r → Q r (mkView (disconnected ds b ps tw s) n l a)) →
  vwp (DisconnectEvent dev sw) Q (mkView s n l a).
Proof using Type*.
  intros Hg HQ. destruct s. unfold disconnected in HQ. st_cbv in HQ. st_cbv in Hg.
  unfold DisconnectEvent. do 2 vstep. vstep; [vstep; by apply HQ|].
  do 8 vstep. apply (vwp_stop_engines R HR); [done|]. intros r Hr. vstep.
  apply vwp_disconnect_devices; [done..|]. intros r2 b Hr2. repeat vstep.
  st_cbv. by apply HQ.
Qed.
End helpers.

