(* ===== verification/SoundTriggerConfig.v ===== *)
(** * Comparison of recognition configurations

    The nested loops of [compareRecognitionConfig] against a reference: the same
    fields, the same phrases up to the declared count, and in each the same levels up
    to the declared count.  With the declared counts in range the loops read nothing
    out of the arrays. *)

From S2P Require Import Prelude PalDefs SoundTriggerState SoundTrigger SoundTriggerFacts.

(** What two phrases that agree have in common. *)
Definition same_phrase (a b : pal_st_phrase_recognition_extra) : Prop :=
  (ph_id a = ph_id b ∧ recognition_modes a = recognition_modes b) ∧
  (confidence_level a = confidence_level b ∧ num_levels a = num_levels b) ∧
  take (Z.to_nat (num_levels a)) (levels a) = take (Z.to_nat (num_levels a)) (levels b).

Definition same_config (c n : pal_st_recognition_config) : Prop :=
  (capture_handle c = capture_handle n ∧ capture_device c = capture_device n ∧
   capture_requested c = capture_requested n) ∧
  (data_size c = data_size n ∧ data_offset c = data_offset n ∧ rc_data c = rc_data n) ∧
  num_phrases c = num_phrases n ∧
  Forall2 same_phrase (take (Z.to_nat (num_phrases c)) (phrases c))
    (take (Z.to_nat (num_phrases c)) (phrases n)).

Lemma levels_match_spec a b k j :
  (j + k ≤ length (levels a))%nat → (j + k ≤ length (levels b))%nat →
  ∃ r, levels_match a b k j = Some r ∧
       (r = true ↔ take k (drop j (levels a)) = take k (drop j (levels b))).
Proof.
  revert j. induction k as [|k IH]; intros j Ha Hb; simpl; [by exists true|].
  destruct (lookup_lt_is_Some_2 (levels a) j) as [x Hx]; [lia|].
  destruct (lookup_lt_is_Some_2 (levels b) j) as [y Hy]; [lia|].
  rewrite Hx, Hy, (drop_S _ _ _ Hx), (drop_S _ _ _ Hy). simpl.
  case_decide as D.
  - exists false. split; [done|]. split; [done|]. intros [= -> _]. naive_solver.
  - destruct (IH (S j)) as (r&->&Hr); [lia..|]. exists r. split; [done|]. rewrite Hr.
    destruct x, y; simpl in *. split; [intros ->; f_equal; f_equal; lia|by intros [= _ _ ->]].
Qed.

Lemma phrase_matches_spec a b :
  (length (levels a) = 10%nat ∧ 0 ≤ num_levels a ≤ 10) → length (levels b) = 10%nat →
  ∃ r, phrase_matches a b = Some r ∧ (r = true ↔ same_phrase a b).
Proof.
  intros [Ha Hn] Hb. unfold phrase_matches, same_phrase. case_decide as D.
  - exists false. split; [done|]. split; [done|]. naive_solver.
  - destruct (levels_match_spec a b (Z.to_nat (num_levels a)) 0) as (r&->&Hr); [lia..|].
    exists r. split; [done|]. rewrite Hr, !drop_0. split; [|naive_solver].
    intros E. repeat split; [lia..|exact E].
Qed.

Lemma phrases_match_spec c n k i :
  (i + k ≤ length (phrases c))%nat → (i + k ≤ length (phrases n))%nat →
  Forall (λ p, length (levels p) = 10%nat ∧ 0 ≤ num_levels p ≤ 10) (phrases c) →
  Forall (λ p, length (levels p) = 10%nat ∧ 0 ≤ num_levels p ≤ 10) (phrases n) →
  ∃ r, phrases_match c n k i = Some r ∧
       (r = true ↔ Forall2 same_phrase (take k (drop i (phrases c)))
                     (take k (drop i (phrases n)))).
Proof.
  intros Hc Hn Fc Fn. revert i Hc Hn.
  induction k as [|k IH]; intros i Hc Hn; simpl; [by exists true; rewrite !firstn_O|].
  destruct (lookup_lt_is_Some_2 (phrases c) i) as [x Hx]; [lia|].
  destruct (lookup_lt_is_Some_2 (phrases n) i) as [y Hy]; [lia|].
  rewrite Hx, Hy, (drop_S _ _ _ Hx), (drop_S _ _ _ Hy). simpl.
  pose proof (Forall_lookup_1 _ _ _ _ Fc Hx) as Lx.
  pose proof (Forall_lookup_1 _ _ _ _ Fn Hy) as [Ly _].
  destruct (phrase_matches_spec x y Lx Ly) as (r&->&Hr). simpl.
  destruct r.
  - destruct (IH (S i)) as (r'&->&Hr'); [lia..|]. exists r'. split; [done|].
    rewrite Hr', Forall2_cons. naive_solver.
  - exists false. split; [done|]. rewrite Forall2_cons. naive_solver.
Qed.

Lemma compare_configs c n :
  rc_ok c → rc_ok n →
  ∃ r, compareRecognitionConfig (Some c) (Some n) = Some r ∧ (r = true ↔ same_config c n).
Proof.
  intros (_&[Lc Nc]&Fc) (_&[Ln Nn]&Fn). unfold compareRecognitionConfig, same_config.
  case_decide as D.
  - exists false. split; [done|]. split; [done|]. naive_solver.
  - destruct (phrases_match_spec c n (Z.to_nat (num_phrases c)) 0) as (r&->&Hr); [lia..|done|done|].
    exists r. split; [done|]. rewrite Hr, !drop_0. split; [|naive_solver].
    intros F. assert (rc_data c = rc_data n) by (destruct (decide (rc_data c = rc_data n)); naive_solver).
    assert (capture_requested c = capture_requested n)
      by (destruct (decide (capture_requested c = capture_requested n)); naive_solver).
    repeat split; first [exact F|done|lia].
Qed.

(** The comparison is defined: nothing outside the arrays is read. *)
Lemma compare_defined c n :
  (∀ c', c = Some c' → rc_ok c') → (∀ n', n = Some n' → rc_ok n') →
  is_Some (compareRecognitionConfig c n).
Proof.
  intros Hc Hn. destruct c as [c|], n as [n|]; simpl; eauto.
  destruct (compare_configs c n) as (r&E&_); [auto..|]. simpl in E. rewrite E. eauto.
Qed.

(** C31: With the declared counts at most 10, the size of the arrays, and opaque data of
    the declared size (the code checks neither), the nested loops read inside the arrays
    and decide whether the configurations agree: in the scalar fields, the opaque data,
    and the declared phrases up to their declared levels. *)
Theorem compareRecognitionConfig_decides c n :
  rc_ok c → rc_ok n →
  ∃ r, compareRecognitionConfig (Some c) (Some n) = Some r ∧ (r = true ↔ same_config c n).
Proof. apply compare_configs. Qed.

(** Levels beyond the declared count do not matter. *)
Definition config_with (spare : Z) : pal_st_recognition_config :=
  mkRecCfg 1 2 true 1
    (replicate 10 (mkPhrase 3 1 50 1 (mkLevel 0 80 :: replicate 9 (mkLevel 0 spare)))) 1 1000 [7].

Lemma compareRecognitionConfig_decides_witness :
  ∃ r, compareRecognitionConfig (Some (config_with 5)) (Some (config_with 6)) = Some r ∧
       (r = true ↔ same_config (config_with 5) (config_with 6)).
Proof.
  apply compareRecognitionConfig_decides.
  all: split; [split; [reflexivity|vm_compute; split; discriminate]|].
  all: split; [split; [reflexivity|vm_compute; split; discriminate]|].
  all: simpl; repeat (apply Forall_cons; split; [split; [reflexivity|split; discriminate]|]).
  all: constructor.
Defined.
