(* ===== verification/SoundTriggerMachine.v ===== *)
(** * The state machine of the sound trigger stream

    The invariant of [st_inv] through every event: the states an event may lead to,
    the wake lock, the mutex.  The rules of SoundTriggerFacts are applied to a state
    that is a variable, of which only the fields that matter are remembered. *)

From S2P Require Import Prelude PalDefs SoundTriggerState SoundTrigger SoundTriggerFacts.
From S2P Require Import SoundTriggerConfig.

(** ** Rules for a state that is a variable *)

Section rules.
Context {X : Type} `{!StEnv X, !StLaws X} (R : Z → Prop) (HR : ∀ c x, R (st_op c x).1) (R0 : R 0)
  (HD : ∀ x d, GetPalDevice x d = None → R (- EINVAL)).
Implicit Types s : StreamSoundTrigger.

Lemma ProcessEvent_at st f ev Q s k l a :
  cur_state_ s = st →
  vwp (match st with
       | ST_STATE_IDLE => StIdle_ProcessEvent (ProcessEvent f) ev
       | ST_STATE_LOADED => StLoaded_ProcessEvent (ProcessEvent f) ev
       | ST_STATE_ACTIVE => StActive_ProcessEvent (ProcessEvent f) ev
       | ST_STATE_DETECTED => StDetected_ProcessEvent (ProcessEvent f) ev
       | ST_STATE_BUFFERING => StBuffering_ProcessEvent (ProcessEvent f) ev
       | ST_STATE_SSR => StSSR_ProcessEvent (ProcessEvent f) ev
       | ST_STATE_NONE => λ _, None
       end) Q (mkView s k l a) →
  vwp (ProcessEvent (S f) ev) Q (mkView s k l a).
Proof using Type.
  intros Hs HQ. simpl. vstep. unfold GetCurrentStateId. by eapply vwp_get_eq; [exact Hs|].
Qed.

(** What loading a model keeps. *)
Definition load_kept s s' : Prop :=
  (cur_state_ s' = cur_state_ s ∧ rec_config_ s' = rec_config_ s) ∧
  is_backend_shared_ s' = is_backend_shared_ s ∧
  mutex_unlocked_after_cb_ s' = mutex_unlocked_after_cb_ s.

Lemma vwp_load m Q s k l a :
  sm_ok m → (∀ cfg, sm_cfg_ s = Some cfg → cfg_ok cfg) → cap_prof_ s ≠ None →
  (∀ r s', load_kept s s' → (r = 0 → attached s') → (∀ cfg, sm_cfg_ s' = Some cfg → cfg_ok cfg) →
     sm_config_ s' = None → Q r (mkView s' k l a)) →
  vwp (LoadSoundModel m) Q (mkView s k l a).
Proof using Type*.
  intros Hm Hok Hcap HQ. apply (vwp_LoadSoundModel R HR R0 HD); [done..|].
  intros r t md cfg mt vh v at' sel id gm mid es g ns Ha Hc. apply HQ.
  - by repeat split.
  - exact Ha.
  - exact Hc.
  - done.
Qed.

End rules.

Ltac unfold_results :=
  unfold model_loaded, engines_loaded, model_updated, unloaded, started, halted, reconnected,
    disconnected, configured, attached in *.
Ltac elem_tac := repeat (first [by left | right]).
(** Replace what is known of the fields of a state that is a variable. *)
Ltac kept := repeat match goal with
  | E : ?f ?s = _ |- context [?f ?s] => is_var s; rewrite E
  end.
(** Replace the state by a variable, and keep what its fields are. *)
Ltac field_of S f := let v := eval cbn in (f S) in assert (f S = v) by reflexivity.
Ltac forget := try
  match goal with
  | |- context [mkView ?S _ _ _] =>
      assert_fails (is_var S);
      field_of S cur_state_; field_of S gsl_engine_; field_of S vui_intf_; field_of S sm_cfg_;
      field_of S rec_config_; field_of S is_backend_shared_; field_of S sm_config_;
      field_of S mutex_unlocked_after_cb_; field_of S cap_prof_; field_of S mDevices;
      field_of S second_stage_processing_; field_of S reader_; field_of S callback_;
      field_of S rejection_notified_; field_of S gsl_engine_model_; field_of S paused_;
      field_of S currentState; field_of S state_for_restore_;
      let s' := fresh "s" in generalize dependent S; intro s'; intros
  end.
Ltac inv_tac Hcur :=
  constructor; unfold_results; cbn; kept;
  first [done | by intros; discriminate | by intros; congruence | by intros; eauto | by intros ? ->
        | by intros ? [= <-]; match goal with
            H : ∀ c, rec_config_ _ = Some c → _ |- _ => eapply H; eassumption end
        | by intros ? E; eapply law_cfg; exact E
        | by intros _; match goal with H : ?r = 0 → _ |- _ => apply H; lia end | idtac].
Ltac wake_tac := kept; repeat match goal with
  | |- context [wake_of ?st] =>
      let v := eval vm_compute in (wake_of st) in change (wake_of st) with v
  end; try lia.
(** The rules of the helpers, with any results. *)
Ltac side :=
  unfold attached; cbn; kept; first [done | by intros ? E; eapply law_cfg; exact E | by intros ? -> | by eauto | by intros ? [= <-]; eauto | by congruence
    | by match goal with H : attached _ |- _ => destruct H as (?&?&?) end
    | match goal with |- gsl_engine_ ?s ≠ None ∧ _ => change (attached s); by eauto end
    | idtac].
Ltac rule R HR R0 HD :=
  lazymatch goal with
  | |- vwp GetCurrentCaptureProfile _ _ =>
      apply vwp_GetCurrentCaptureProfile; [side|intros ?|intros ? ? ?]
  | |- vwp UpdateDeviceConfig _ _ =>
      apply (vwp_UpdateDeviceConfig R HR R0 HD); [side..|intros ? ? ? ? ? ?]
  | |- vwp (LoadSoundModel _) _ _ =>
      apply (vwp_load R HR R0 HD);
      [side..|let H := fresh in intros ? ? H ? ? ?; destruct H as [[? ?] [? ?]]; cbn in * |-]
  | |- vwp UnloadSoundModel _ _ => apply (vwp_UnloadSoundModel R HR R0 HD); intros ? ? ?
  | |- vwp FstageLoad _ _ =>
      apply (vwp_FstageLoad R HR R0 HD); [side..|intros ? ? ? ? ? ?]
  | |- vwp FstageUnload _ _ => apply (vwp_FstageUnload R HR R0 HD); [side..|intros ? ? ?]
  | |- vwp (SendRecognitionConfig _) _ _ =>
      apply (vwp_SendRecognitionConfig R HR R0 HD);
      [side..|let r := fresh "r" in let cf := fresh "cf" in let E1 := fresh in
        let E2 := fresh in intros r ? ? ? ? ? ? ? cf E1 E2 ?;
        destruct (decide (r = 0)) as [Hz|Hz];
        [destruct (E1 Hz) as [-> ?]|specialize (E2 Hz); subst cf]]
  | |- vwp (UpdateRecognitionConfig _) _ _ =>
      apply (vwp_UpdateRecognitionConfig R HR R0 HD); [side|intros ->|intros ? ->]
  | |- vwp (StLoaded_START_RECOGNITION _) _ _ =>
      apply (vwp_StLoaded_START R HR R0 HD);
      [side..|let Hc := fresh in intros ? ? ? ? ? ? Hc; destruct Hc as [->|[-> ?]]]
  | |- vwp (ProcessEvent (S _) _) _ _ =>
      eapply ProcessEvent_at; [cbn; kept; reflexivity|]
  | |- vwp deregister_device _ _ => apply (vwp_deregister_device R HR R0 HD)
  | |- vwp reset_reader _ _ => apply (vwp_reset_reader R HR R0 HD)
  | |- vwp drop_nlpi_vote _ _ => apply (vwp_drop_nlpi_vote R HR R0 HD)
  | |- vwp (stop_engines _ _) _ _ => apply (vwp_stop_engines R HR); [done|intros ? ?]
  | |- vwp (stop_close_device _) _ _ =>
      apply (vwp_stop_close_device R HR R0 HD); [done|intros ? ? ?]
  | |- vwp (undo_start _) _ _ => apply (vwp_undo_start R HR R0 HD); intros ?
  | |- vwp (connect_engines _ _ _ _) _ _ =>
      apply (vwp_connect_engines R HR); [done|intros [? ?] ?]
  | |- vwp (restart_engines _ _) _ _ => apply (vwp_restart_engines R HR); [done|intros ? ?]
  | |- vwp (restart_all _ _) _ _ => apply (vwp_restart_all R HR); [done|intros ? ?]
  | |- vwp release_pal_devices _ _ => apply (vwp_release_pal_devices R HR R0 HD)
  | |- vwp connect_open _ _ =>
      apply (vwp_connect_open R HR R0 HD); [side..|intros [[?|] ?] ? ? ? ? ? ?; cbn [fst snd]]
  | |- vwp (connect_start _) _ _ => apply (vwp_connect_start R HR R0 HD); intros ? ? ?
  | |- vwp (connect_session _) _ _ =>
      apply (vwp_connect_session R HR R0 HD); [side..|intros ? ? ? ?]
  | |- vwp ConnectEvent _ _ =>
      apply (vwp_ConnectEvent R HR R0 HD); [side..|intros ? ? ? ? ? ? ? ?]
  | |- vwp (DisconnectEvent _ _) _ _ =>
      apply (vwp_DisconnectEvent R HR R0 HD); [side..|intros ? ? ? ? ? ?]
  | |- vwp (loaded_disconnect _ _) _ _ =>
      apply (vwp_loaded_disconnect R HR R0 HD); [side|intros ? ?]
  | |- vwp (active_disconnect _ _) _ _ =>
      apply (vwp_active_disconnect R HR R0 HD); [side|intros ? ?]
  | |- vwp (StActive_STOP_RECOGNITION _ _) _ _ =>
      apply (vwp_StActive_STOP R HR R0 HD); intros ? ? ? ? ? ? ?; unfold follow_up
  | |- vwp (StDetected_STOP_RECOGNITION _ _) _ _ =>
      apply (vwp_StDetected_STOP R HR R0 HD); intros ? ? ? ? ? ? ?; unfold follow_up
  | |- vwp (StBuffering_STOP_RECOGNITION _ _) _ _ =>
      apply (vwp_StBuffering_STOP R HR R0 HD); intros ? ? ? ? ? ? ?; unfold follow_up
  | |- vwp (notifyClient PAL_RECOGNITION_STATUS_ABORT) _ _ =>
      apply (vwp_notify_abort R HR R0 HD); [side|]
  | |- vwp releaseWakeLock _ (mkView _ (_ + 1) _ _) =>
      apply vwp_release; [apply law_wake|first [apply rely_bound|lia]|]
  | |- vwp (deref (compareRecognitionConfig ?c ?n)) _ _ =>
      let E := fresh in let b := fresh "same" in
      destruct (compare_defined c n) as [b E]; [side|side|rewrite E; apply vwp_deref]
  end; cbn beta iota; forget.
Ltac mlem :=
  lazymatch goal with
  | HR : ∀ c x, ?R (st_op c x).1, R0 : ?R 0,
    HD : ∀ x d, GetPalDevice x d = None → ?R (- EINVAL) |- _ => rule R HR R0 HD
  end.
Ltac mstep :=
  lazymatch goal with
  | |- vwp (notifyClient _) _ _ => fail
  | |- vwp (TransitTo (if decide ?P then _ else _)) _ _ => destruct (decide P)
  | |- vwp _ _ (mkView (if decide ?P then _ else _) _ _ _) => destruct (decide P)
  | |- vwp (get _) _ _ => eapply vwp_get_eq; [cbn; kept; reflexivity|]; cbn beta
  | |- vwp (getp _) _ _ => apply vwp_getp'; [side|let H := fresh "Hp" in intros ? H; cbn in H; simplify_eq; cbn beta]
  | |- _ => vstep
  end.
Ltac mgo := repeat (lazymatch goal with
  | |- vwp _ _ (mkView (if _ then _ else _) _ _ _) => mstep
  | _ => first [mlem | mstep]
  end).


(** ** The state machine *)

(** The states an event may lead to. *)
Definition next_states (st : st_state_id_t) (ev : StEventConfig) : list st_state_id_t :=
  match st, ev with
  | ST_STATE_IDLE, (StLoadEventConfig _ | StFstageLoadConfig) => [ST_STATE_IDLE; ST_STATE_LOADED]
  | ST_STATE_IDLE, StConcurrentStreamEventConfig _ =>
      [ST_STATE_IDLE; ST_STATE_LOADED; ST_STATE_ACTIVE]
  | ST_STATE_LOADED, (StUnloadEventConfig | StFstageUnloadConfig) => [ST_STATE_IDLE]
  | ST_STATE_LOADED, (StStartRecognitionEventConfig _ | StInternalResumeEventConfig |
                      StDeviceConnectedEventConfig _) => [ST_STATE_LOADED; ST_STATE_ACTIVE]
  | ST_STATE_LOADED, StConcurrentStreamEventConfig _ => [ST_STATE_LOADED; ST_STATE_IDLE]
  | ST_STATE_ACTIVE, StDetectedEventConfig t =>
      if first_stage t then [ST_STATE_DETECTED; ST_STATE_BUFFERING] else [ST_STATE_ACTIVE]
  | ST_STATE_ACTIVE, StConcurrentStreamEventConfig _ =>
      [ST_STATE_ACTIVE; ST_STATE_LOADED; ST_STATE_IDLE]
  | ST_STATE_DETECTED, StStartRecognitionEventConfig _ => [ST_STATE_ACTIVE; ST_STATE_LOADED]
  | ST_STATE_BUFFERING, StStartRecognitionEventConfig _ => [ST_STATE_ACTIVE; ST_STATE_LOADED]
  | ST_STATE_BUFFERING, StDetectedEventConfig _ =>
      [ST_STATE_BUFFERING; ST_STATE_DETECTED; ST_STATE_ACTIVE; ST_STATE_LOADED]
  | (ST_STATE_DETECTED | ST_STATE_BUFFERING), StConcurrentStreamEventConfig _ =>
      [ST_STATE_LOADED; ST_STATE_IDLE]
  | (ST_STATE_ACTIVE | ST_STATE_DETECTED | ST_STATE_BUFFERING),
    (StPauseEventConfig | StInternalPauseEventConfig | StStopRecognitionEventConfig _) =>
      [ST_STATE_LOADED]
  | (ST_STATE_ACTIVE | ST_STATE_DETECTED | ST_STATE_BUFFERING), StUnloadEventConfig =>
      [ST_STATE_IDLE]
  | (ST_STATE_ACTIVE | ST_STATE_DETECTED | ST_STATE_BUFFERING), StRecognitionCfgEventConfig _ =>
      [st; ST_STATE_LOADED]
  | ST_STATE_SSR, StSSROnlineConfig => [ST_STATE_IDLE; ST_STATE_LOADED; ST_STATE_ACTIVE]
  | (ST_STATE_IDLE | ST_STATE_LOADED | ST_STATE_ACTIVE | ST_STATE_DETECTED | ST_STATE_BUFFERING),
    StSSROfflineConfig => [ST_STATE_SSR]
  | _, _ => [st]
  end.

Definition is_reject (t : Z) : bool :=
  bool_decide (t = KEYWORD_DETECTION_REJECT ∨ t = USER_VERIFICATION_REJECT).

(** What an event needs: well-formed data of the client; a model for the first stage
    to be loaded from; a reader for the keyword data.  The last line of [DETECTED] and
    [DEVICE_CONNECTED] exclude the two cases in which the wake lock goes wrong. *)
Definition event_ok `{!StEnv X} (s : StreamSoundTrigger) (ev : StEventConfig) : Prop :=
  let st := cur_state_ s in
  match ev with
  | StLoadEventConfig m => sm_ok m ∧ st ≠ ST_STATE_SSR
  | StRecognitionCfgEventConfig (Some c) => rc_ok c
  | StFstageLoadConfig => st = ST_STATE_IDLE → attached s
  | StConcurrentStreamEventConfig true =>
      st = ST_STATE_IDLE → gsl_engine_model_ s ≠ None → attached s
  | StSSROnlineConfig => st = ST_STATE_SSR → gsl_engine_model_ s ≠ None → attached s
  | StInternalResumeEventConfig =>
      st = ST_STATE_LOADED → isActive s = true → rec_config_ s ≠ None
  | StDetectedEventConfig t =>
      (∀ cfg, sm_cfg_ s = Some cfg → IsDetPropSupported_KEYWORD_BUFFER cfg = true →
        reader_ s ≠ None) ∧
      (st = ST_STATE_BUFFERING → is_reject t = true →
        GetNotifySecondStageFailure = false ∧ rejection_notified_ s = false)
  | StDeviceConnectedEventConfig _ =>
      (st = ST_STATE_BUFFERING → second_stage_processing_ s = false) ∧
      (st = ST_STATE_LOADED → isActive s = true → rec_config_ s ≠ None)
  | _ => True
  end.

(** An engine has taken the wake lock before it reports the first stage. *)
Definition wake_before (s : StreamSoundTrigger) (ev : StEventConfig) : Z :=
  match ev with
  | StDetectedEventConfig t =>
      if decide (cur_state_ s = ST_STATE_ACTIVE ∧ first_stage t = true) then 1
      else wake_of (cur_state_ s)
  | _ => wake_of (cur_state_ s)
  end.

Definition is_detected (ev : StEventConfig) : bool :=
  match ev with StDetectedEventConfig _ => true | _ => false end.

Definition outcome (n : Z) (ev : StEventConfig) (s : StreamSoundTrigger) (a : bool)
    (r : Z) (v : View) : Prop :=
  good n v ∧ (vl v = negb (mutex_unlocked_after_cb_ (vs v)) ∧ va v = a) ∧
  (is_detected ev = false ∨ callback_ s = false →
   cur_state_ (vs v) ∈ next_states (cur_state_ s) ev).

(** A result of a call: any. *)
Definition T (r : Z) : Prop := True.

Section machine.
Context {X : Type} `{!StEnv X, !StLaws X} (n : Z) `{!StRely X n}.
Implicit Types s : StreamSoundTrigger.

Let HR (c : StCall) (x : X) : T (st_op c x).1 := I.
Let R0 : T 0 := I.
Let HD (x : X) (d : Z) (_ : GetPalDevice x d = None) : T (- EINVAL) := I.

Lemma vwp_adopted (keep : st_state_id_t → bool) obs Q s k a :
  Forall (λ o : World X * bool, good n (view o.1) ∧
            mutex_unlocked_after_cb_ (strm o.1) = false) obs →
  good n (mkView s k false a) → mutex_unlocked_after_cb_ s = false →
  (∀ b s' k', good n (mkView s' k' b a) → mutex_unlocked_after_cb_ s' = false →
     Q b (mkView s' k' b a)) →
  vwp (try_lock_while keep obs) Q (mkView s k false a).
Proof using Type*.
  revert s k. induction obs as [|[w' free] obs IH]; intros s k Ho Hg Hm HQ; simpl.
  - vstep. vstep. vstep. by apply HQ.
  - apply Forall_cons in Ho as [[Hg' Hm'] Ho].
    vstep. apply vwp_adopt. vstep; [repeat vstep; by apply HQ|].
    vstep; [by apply IH|]. vstep. by apply HQ.
Qed.

Lemma vwp_others Q v : (∀ w : World X, view w = v → Q (others w) v) → vwp (st_gets others) Q v.
Proof using Type. intros H. apply vwp_intro. intros w <-. exists (others w), w. auto. Qed.

(** What the invariant depends on. *)
Definition core s :=
  (cur_state_ s, gsl_engine_ s, vui_intf_ s, sm_cfg_ s, rec_config_ s, is_backend_shared_ s,
   sm_config_ s).

Lemma inv_core s s' : core s' = core s → st_inv s → st_inv s'.
Proof using Type.
  intros [= E1 E2 E3 E4 E5 E6 E7] [].
  constructor; unfold attached in *; rewrite ?E1, ?E2, ?E3, ?E4, ?E5, ?E6, ?E7; done.
Qed.

Lemma good_core s s' k l l' a a' :
  core s' = core s → good n (mkView s k l a) → good n (mkView s' k l' a').
Proof using Type.
  intros E [Hi Hw]. split; [by eapply inv_core|]. simpl in *. injection E as E _ _ _ _ _ _.
  by rewrite E.
Qed.

Lemma vwp_call_client det Q s k a :
  good n (mkView s k true a) → mutex_unlocked_after_cb_ s = false → gsl_engine_ s ≠ None →
  (∀ s' k' l, good n (mkView s' k' l a) → l = negb (mutex_unlocked_after_cb_ s') →
     (callback_ s = false → cur_state_ s' = cur_state_ s) → Q tt (mkView s' k' l a)) →
  vwp (call_client det) Q (mkView s k true a).
Proof using Type*.
  intros Hg Hm He HQ. unfold call_client. vstep. vstep. vstep.
  - do 9 vstep. apply vwp_others. intros w Hw.
    assert (Hgw : good n (view w)) by (rewrite Hw; by eapply good_core; [|exact Hg]).
    injection Hw as Hs Hk Hl Ha.
    vstep. apply vwp_adopted.
    + apply rely_others; [done..|]. by rewrite Hs.
    + by eapply good_core; [|exact Hg].
    + done.
    + intros b s' k' Hg' Hm'. destruct b; simpl; repeat vstep; apply HQ; try done.
      * by rewrite Hm'.
      * by eapply good_core; [|exact Hg'].
  - vstep. apply HQ; [done|by rewrite Hm|done].
Qed.

Lemma vwp_send_keyword_data v Q s k l a :
  rec_config_ s ≠ None → reader_ s ≠ None → Q tt (mkView s k l a) →
  vwp (send_keyword_data v) Q (mkView s k l a).
Proof using Type*.
  intros Hrc Hrd HQ. unfold send_keyword_data.
  assert (Hlen : ∀ (i b u : Z) (x : X) r, b = getBufferSize x r → ∃ sz,
    (if decide (i ≠ 0 ∧ i < b) then Some i else umod u b) = Some sz).
  { intros i b u x r ->. case_decide; [eauto|]. unfold umod.
    rewrite decide_False by apply law_buffer. eauto. }
  repeat lazymatch goal with
         | |- vwp (deref (if _ then Some ?i else umod ?u (getBufferSize ?x ?r))) _ _ =>
             destruct (Hlen i _ u x r eq_refl) as [? ->]
         | _ => vstep
         end.
  all: done.
Qed.

Lemma vwp_notifyClient det Q s k a :
  det ≠ PAL_RECOGNITION_STATUS_ABORT →
  good n (mkView s k true a) → mutex_unlocked_after_cb_ s = false →
  attached s → rec_config_ s ≠ None →
  (∀ cfg, sm_cfg_ s = Some cfg → IsDetPropSupported_KEYWORD_BUFFER cfg = true →
    reader_ s ≠ None) →
  (∀ r s' k' l, good n (mkView s' k' l a) → l = negb (mutex_unlocked_after_cb_ s') →
     (callback_ s = false → cur_state_ s' = cur_state_ s) → Q r (mkView s' k' l a)) →
  vwp (notifyClient det) Q (mkView s k true a).
Proof using Type*.
  intros Hd Hg Hm (He&Hv&Hc) Hrc Hkw HQ. unfold notifyClient. rewrite decide_False by done.
  do 10 vstep.
  set (s1 := set_timer_stop_waiting_ false (set_pending_stop_ true s)).
  assert (Hg1 : good n (mkView s1 k true a)) by (by eapply good_core; [|exact Hg]).
  assert (Hm1 : mutex_unlocked_after_cb_ s1 = false) by exact Hm.
  assert (Hrest : ∀ v, vwp (status <-- call (VuiSetParameter v (PARAM_DETECTION_RESULT det)) ;;
    if decide (status ≠ 0) then st_ret status
    else
      status <-- call (VuiGetParameter v PARAM_DETECTION_EVENT) ;;
      rec_event <-- ask detection_event ;;
      if negb (bool_decide (status = 0) && rec_event) then st_ret status
      else call_client det ;;;; st_ret status)%st Q (mkView s1 k true a)).
  { intros v. repeat lazymatch goal with
      | |- vwp (call_client _) _ _ => apply vwp_call_client; [done..|]; intros s' k' l ???
      | _ => vstep
      end; repeat vstep; apply HQ; first [done|by rewrite Hm1]. }
  vstep; [apply vwp_send_keyword_data; [done|by eapply Hkw|apply Hrest]|vstep; apply Hrest].
Qed.

(** *** One event *)

Lemma outcome_intro ev s a r s' k :
  st_inv s' → k = n + wake_of (cur_state_ s') → mutex_unlocked_after_cb_ s' = false →
  cur_state_ s' ∈ next_states (cur_state_ s) ev →
  outcome n ev s a r (mkView s' k true a).
Proof using Type. intros ? Hk Hm ?. split; [by split|]. simpl. rewrite Hm. auto. Qed.

(** A notification ends the event. *)
Lemma vwp_notify ev s0 det Q s k a :
  det ≠ PAL_RECOGNITION_STATUS_ABORT → is_detected ev = true →
  st_inv s → k = n + wake_of (cur_state_ s) → mutex_unlocked_after_cb_ s = false →
  running (cur_state_ s) = true → callback_ s = callback_ s0 →
  (∀ cfg, sm_cfg_ s = Some cfg → IsDetPropSupported_KEYWORD_BUFFER cfg = true →
    reader_ s ≠ None) →
  cur_state_ s ∈ next_states (cur_state_ s0) ev →
  (∀ r v, outcome n ev s0 a r v → Q r v) →
  vwp (notifyClient det) Q (mkView s k true a).
Proof using Type*.
  intros Hd Hev Hi -> Hm Hrun Hcb Hkw Hin HQ.
  apply vwp_notifyClient; [done|by split|done| |by apply inv_rec|done|].
  { apply inv_attached; [done|]. revert Hrun. by destruct (cur_state_ s). }
  intros r s' k' l Hg Hl Hs. apply HQ. split; [done|]. split; [done|].
  rewrite Hev. intros [|E]; [done|]. simpl. by rewrite Hs by congruence.
Qed.

Lemma inv_attached' s : st_inv s → loaded (cur_state_ s) = true →
  gsl_engine_ s ≠ None ∧ vui_intf_ s ≠ None ∧ sm_cfg_ s ≠ None.
Proof using Type. intros Hi ?. by apply (inv_attached s Hi). Qed.

Ltac outcome_tac Hcur :=
  apply outcome_intro;
  [inv_tac Hcur | unfold_results; cbn; wake_tac
  | unfold_results; cbn; kept; try done
  | unfold_results; cbn; kept; cbn; try elem_tac].

Lemma isActive_eq s s' :
  cur_state_ s' = cur_state_ s → currentState s' = currentState s → isActive s' = isActive s.
Proof using Type. unfold isActive. by intros -> ->. Qed.

Lemma StIdle_LOAD_event m s a :
  st_inv s → cur_state_ s = ST_STATE_IDLE → mutex_unlocked_after_cb_ s = false → sm_ok m →
  vwp (StIdle_LOAD_SOUND_MODEL m) (outcome n (StLoadEventConfig m) s a)
    (mkView s (n + wake_of ST_STATE_IDLE) true a).
Proof using Type*.
  intros [Hst Hatt Hrec Hcfg Hrc Hb Hsm] Hcur Hm Hok.
  unfold StIdle_LOAD_SOUND_MODEL, andThen. mgo.
  all: outcome_tac Hcur.
Qed.
Lemma idle_event f ev s a :
  st_inv s → cur_state_ s = ST_STATE_IDLE → mutex_unlocked_after_cb_ s = false →
  event_ok s ev →
  vwp (StIdle_ProcessEvent (ProcessEvent (S f)) ev) (outcome n ev s a)
    (mkView s (n + wake_of (cur_state_ s)) true a).
Proof using Type*.
  intros Hinv Hcur Hm Hev. pose proof Hinv as [Hst Hatt Hrec Hcfg Hrc Hb Hsm].
  rewrite Hcur. unfold event_ok in Hev. cbn zeta in Hev. rewrite Hcur in Hev.
  destruct ev; unfold StIdle_ProcessEvent;
    lazymatch goal with
    | |- vwp (StIdle_LOAD_SOUND_MODEL _) _ _ => destruct Hev; by apply StIdle_LOAD_event
    | |- vwp StIdle_UNLOAD_SOUND_MODEL _ _ => mgo; outcome_tac Hcur
    | |- vwp StIdle_DEVICE_CONNECTED _ _ => mgo; outcome_tac Hcur
    | |- vwp StIdle_SSR_OFFLINE _ _ => mgo; repeat case_decide; outcome_tac Hcur
    | |- vwp (StIdle_CONCURRENT_STREAM _ ?b) _ _ =>
        destruct b; unfold StIdle_CONCURRENT_STREAM, andThen; mgo; outcome_tac Hcur
    | |- vwp StIdle_FSTAGE_LOAD _ _ =>
        specialize (Hev eq_refl); unfold StIdle_FSTAGE_LOAD, andThen; mgo; outcome_tac Hcur
    | _ => repeat vstep; outcome_tac Hcur
    end.
Qed.

Lemma loaded_event f ev s a :
  st_inv s → cur_state_ s = ST_STATE_LOADED → mutex_unlocked_after_cb_ s = false →
  event_ok s ev →
  vwp (StLoaded_ProcessEvent (ProcessEvent (S f)) ev) (outcome n ev s a)
    (mkView s (n + wake_of (cur_state_ s)) true a).
Proof using Type*.
  intros Hinv Hcur Hm Hev. pose proof Hinv as [Hst Hatt Hrec Hcfg Hrc Hb Hsm].
  rewrite Hcur. unfold event_ok in Hev. cbn zeta in Hev. rewrite Hcur in Hev, Hatt.
  specialize (Hatt eq_refl).
  destruct ev; unfold StLoaded_ProcessEvent;
    lazymatch goal with
    | |- vwp (st_ret _) _ _ => repeat vstep; outcome_tac Hcur
    | |- vwp (st_bind _ _) _ _ => mgo; outcome_tac Hcur
    | |- _ => idtac
    end.
  - mgo; outcome_tac Hcur.
  - mgo; outcome_tac Hcur.
  - destruct Hev as [_ Hev]. unfold StLoaded_DEVICE_CONNECTED, andThen.
    mgo; outcome_tac Hcur.
    all: intros _; apply Hev; [done|].
    all: match goal with E : isActive ?s0 && _ = true |- _ =>
           apply andb_true_iff in E as [E _]; by rewrite <-E; symmetry; apply isActive_eq end.
  - unfold StLoaded_DEVICE_DISCONNECTED. mgo; outcome_tac Hcur.
  - unfold StLoaded_SSR_OFFLINE. mgo; outcome_tac Hcur.
  - unfold StLoaded_CONCURRENT_STREAM, andThen. mgo; outcome_tac Hcur.
  - unfold set_engine_ECRef. mgo; outcome_tac Hcur.
  - unfold StLoaded_INTERNAL_RESUME, andThen. mgo.
    all: try lazymatch goal with |- _ → false = false → False => intros Hn; exfalso; apply Hev; [done| |exact Hn];
         match goal with E : negb _ = false |- _ => by apply negb_false_iff in E end end.
    all: outcome_tac Hcur.
  - unfold StLoaded_FSTAGE_UNLOAD. mgo; outcome_tac Hcur.
Qed.
Ltac notify_tac ev s Hcur :=
  forget; apply (vwp_notify ev s);
  [done|done|inv_tac Hcur|kept; try done..|intros; repeat vstep; done].

Lemma StActive_DETECTED_event det s a :
  st_inv s → cur_state_ s = ST_STATE_ACTIVE → mutex_unlocked_after_cb_ s = false →
  event_ok s (StDetectedEventConfig det) →
  vwp (StActive_DETECTED det) (outcome n (StDetectedEventConfig det) s a)
    (mkView s (n + wake_before s (StDetectedEventConfig det)) true a).
Proof using Type*.
  intros Hinv Hcur Hm [Hkw _]. pose proof Hinv as [Hst Hatt Hrec Hcfg Hrc Hb Hsm].
  unfold wake_before. rewrite Hcur in *. specialize (Hatt eq_refl). specialize (Hrec eq_refl).
  unfold StActive_DETECTED. vstep.
  - rewrite decide_False by (unfold first_stage; intros [_ E]; apply bool_decide_eq_true in E; lia).
    vstep. apply outcome_intro; [done|by rewrite Hcur|done|]. rewrite Hcur. simpl.
    unfold first_stage. rewrite bool_decide_eq_false_2 by lia. by left.
  - assert (Hf : first_stage det = true) by (unfold first_stage; apply bool_decide_eq_true; lia).
    rewrite decide_True by done. mgo; try assumption.
    all: assert (Hn : ∀ st, st = ST_STATE_DETECTED ∨ st = ST_STATE_BUFFERING →
      st ∈ next_states ST_STATE_ACTIVE (StDetectedEventConfig det))
      by (intros st Hs; simpl; rewrite Hf; destruct Hs as [-> | ->]; elem_tac).
    all: try lazymatch goal with |- vwp (notifyClient _) _ _ =>
      notify_tac (StDetectedEventConfig det) s Hcur end.
    all: try (apply Hn; auto).
    all: apply outcome_intro; cbn; kept; [inv_tac Hcur|done|done|apply Hn; auto].
Qed.

Lemma active_event f ev s a :
  st_inv s → cur_state_ s = ST_STATE_ACTIVE → mutex_unlocked_after_cb_ s = false →
  event_ok s ev →
  vwp (StActive_ProcessEvent (ProcessEvent (S f)) ev) (outcome n ev s a)
    (mkView s (n + wake_before s ev) true a).
Proof using Type*.
  intros Hinv Hcur Hm Hev. pose proof Hinv as [Hst Hatt Hrec Hcfg Hrc Hb Hsm].
  rewrite Hcur in Hatt, Hrec. specialize (Hatt eq_refl). specialize (Hrec eq_refl).
  destruct ev; unfold StActive_ProcessEvent;
    lazymatch goal with
    | |- vwp (StActive_DETECTED _) _ _ => by apply StActive_DETECTED_event
    | |- _ => unfold wake_before; unfold event_ok in Hev; cbn zeta in Hev; rewrite Hcur in *
    end;
    lazymatch goal with
    | |- vwp (st_ret _) _ _ => repeat vstep; outcome_tac Hcur
    | |- vwp (StActive_STOP_RECOGNITION _ _) _ _ => mgo; outcome_tac Hcur
    | |- vwp (st_bind _ _) _ _ => mgo; outcome_tac Hcur
    | |- _ => idtac
    end.
  - unfold StActive_RECOGNITION_CONFIG, with_new_config. mgo. all: outcome_tac Hcur.
  - unfold StActive_DEVICE_CONNECTED, andThen. mgo; outcome_tac Hcur.
  - unfold StActive_DEVICE_DISCONNECTED, andThen. mgo; outcome_tac Hcur.
  - unfold offline_stop. mgo; outcome_tac Hcur.
  - unfold StActive_CONCURRENT_STREAM, andThen. mgo; outcome_tac Hcur.
  - unfold set_engine_ECRef. mgo; outcome_tac Hcur.
  - unfold StActive_FORCE_RECOGNITION. mgo; outcome_tac Hcur.
Qed.

Lemma detected_event f ev s a :
  st_inv s → cur_state_ s = ST_STATE_DETECTED → mutex_unlocked_after_cb_ s = false →
  event_ok s ev →
  vwp (StDetected_ProcessEvent (ProcessEvent (S f)) ev) (outcome n ev s a)
    (mkView s (n + 1) true a).
Proof using Type*.
  intros Hinv Hcur Hm Hev. pose proof Hinv as [Hst Hatt Hrec Hcfg Hrc Hb Hsm].
  unfold event_ok in Hev. cbn zeta in Hev. rewrite Hcur in *.
  specialize (Hatt eq_refl). specialize (Hrec eq_refl).
  destruct ev; unfold StDetected_ProcessEvent;
    lazymatch goal with
    | |- vwp (st_ret _) _ _ => repeat vstep; outcome_tac Hcur
    | |- vwp (StDetected_STOP_RECOGNITION _ _) _ _ => mgo; outcome_tac Hcur
    | |- vwp (st_bind _ _) _ _ => mgo; outcome_tac Hcur
    | |- _ => idtac
    end.
  - unfold StDetected_RECOGNITION_CONFIG, with_new_config. mgo; outcome_tac Hcur.
  - unfold StDetected_START_RECOGNITION. mgo; repeat case_decide; outcome_tac Hcur.
  - mgo; outcome_tac Hcur.
  - mgo; outcome_tac Hcur.
  - unfold offline_stop. mgo; outcome_tac Hcur.
  - unfold StDetected_CONCURRENT_STREAM. mgo; outcome_tac Hcur.
  - unfold set_engine_ECRef. mgo; outcome_tac Hcur.
Qed.

Lemma StBuffering_DETECTED_event det s a :
  st_inv s → cur_state_ s = ST_STATE_BUFFERING → mutex_unlocked_after_cb_ s = false →
  event_ok s (StDetectedEventConfig det) →
  vwp (StBuffering_DETECTED det) (outcome n (StDetectedEventConfig det) s a)
    (mkView s (n + 1) true a).
Proof using Type*.
  intros Hinv Hcur Hm [Hkw Hrej]. pose proof Hinv as [Hst Hatt Hrec Hcfg Hrc Hb Hsm].
  rewrite Hcur in Hatt, Hrec. specialize (Hatt eq_refl). specialize (Hrec eq_refl).
  unfold StBuffering_DETECTED. vstep; [vstep; outcome_tac Hcur|]. vstep.
  - destruct Hrej as [Hn Hr]; [done|by apply bool_decide_eq_true|].
    unfold StBuffering_REJECTED. rewrite Hn. vstep. eapply vwp_get_eq; [exact Hr|]. cbn iota.
    mgo; outcome_tac Hcur.
  - clear Hrej. mgo.
    all: try lazymatch goal with |- vwp (notifyClient _) _ _ =>
      notify_tac (StDetectedEventConfig det) s Hcur; elem_tac end.
    all: outcome_tac Hcur.
Qed.

Lemma buffering_event f ev s a :
  st_inv s → cur_state_ s = ST_STATE_BUFFERING → mutex_unlocked_after_cb_ s = false →
  event_ok s ev →
  vwp (StBuffering_ProcessEvent (ProcessEvent (S f)) ev) (outcome n ev s a)
    (mkView s (n + 1) true a).
Proof using Type*.
  intros Hinv Hcur Hm Hev. pose proof Hinv as [Hst Hatt Hrec Hcfg Hrc Hb Hsm].
  rewrite Hcur in Hatt, Hrec. specialize (Hatt eq_refl). specialize (Hrec eq_refl).
  destruct ev; unfold StBuffering_ProcessEvent;
    lazymatch goal with
    | |- vwp (StBuffering_DETECTED _) _ _ => by apply StBuffering_DETECTED_event
    | |- _ => unfold event_ok in Hev; cbn zeta in Hev; rewrite Hcur in *
    end;
    lazymatch goal with
    | |- vwp (st_ret _) _ _ => repeat vstep; outcome_tac Hcur
    | |- vwp (StBuffering_STOP_RECOGNITION _ _) _ _ => mgo; outcome_tac Hcur
    | |- vwp (st_bind _ _) _ _ => mgo; outcome_tac Hcur
    | |- _ => idtac
    end.
  - unfold StBuffering_RECOGNITION_CONFIG, with_new_config. mgo; outcome_tac Hcur.
  - unfold StBuffering_START_RECOGNITION. mgo; outcome_tac Hcur.
  - unfold StBuffering_READ_BUFFER. mgo; outcome_tac Hcur.
  - unfold StBuffering_STOP_BUFFERING. mgo; outcome_tac Hcur.
  - destruct Hev as [Hev _]. specialize (Hev eq_refl). unfold StBuffering_DEVICE_CONNECTED.
    mgo; outcome_tac Hcur.
    all: match goal with
      E : true && ?sp = true, H : ?P → ?sp = _, Hc : ?P, Hs : _ = false |- _ =>
        exfalso; simpl in E; rewrite (H Hc), Hs in E; discriminate end.
  - unfold StBuffering_DEVICE_DISCONNECTED. mgo; outcome_tac Hcur.
  - unfold StBuffering_SSR_OFFLINE, offline_stop. mgo; outcome_tac Hcur.
  - unfold StBuffering_CONCURRENT_STREAM. mgo; outcome_tac Hcur.
  - unfold set_engine_ECRef. mgo; outcome_tac Hcur.
  - unfold StBuffering_FORCE_RECOGNITION. mgo; outcome_tac Hcur.
Qed.

Lemma ssr_event f ev s a :
  st_inv s → cur_state_ s = ST_STATE_SSR → mutex_unlocked_after_cb_ s = false →
  event_ok s ev →
  vwp (StSSR_ProcessEvent (ProcessEvent (S f)) ev) (outcome n ev s a)
    (mkView s (n + wake_of (cur_state_ s)) true a).
Proof using Type*.
  intros Hinv Hcur Hm Hev. pose proof Hinv as [Hst Hatt Hrec Hcfg Hrc Hb Hsm].
  unfold event_ok in Hev. cbn zeta in Hev. rewrite Hcur in *.
  destruct ev; unfold StSSR_ProcessEvent;
    lazymatch goal with
    | |- vwp (st_ret _) _ _ => repeat vstep; outcome_tac Hcur
    | |- vwp (st_bind _ _) _ _ => mgo; outcome_tac Hcur
    | |- _ => idtac
    end.
  - by destruct Hev.
  - unfold offline_request, andThen. mgo; outcome_tac Hcur.
  - unfold offline_request, andThen. mgo; outcome_tac Hcur.
  - unfold StSSR_START_RECOGNITION, offline_request, andThen. mgo; outcome_tac Hcur.
  - unfold offline_request, andThen. mgo; outcome_tac Hcur.
  - unfold StSSR_RESUME. mgo; outcome_tac Hcur.
  - specialize (Hev eq_refl). unfold StSSR_SSR_ONLINE, andThen. mgo; outcome_tac Hcur.
  - unfold StSSR_RESUME. mgo; outcome_tac Hcur.
Qed.

(** Any event, at any depth of re-entry from two on. *)
Lemma event_outcome f ev s a :
  st_inv s → mutex_unlocked_after_cb_ s = false → event_ok s ev →
  vwp (ProcessEvent (S (S f)) ev) (outcome n ev s a) (mkView s (n + wake_before s ev) true a).
Proof using Type*.
  intros Hinv Hm Hev. eapply ProcessEvent_at; [reflexivity|].
  assert (Hw : cur_state_ s ≠ ST_STATE_ACTIVE → wake_before s ev = wake_of (cur_state_ s)).
  { intros Hne. destruct ev; simpl; try done. rewrite decide_False; [done|]. naive_solver. }
  destruct (cur_state_ s) eqn:Hcur.
  - by destruct (inv_state s Hinv).
  - rewrite Hw, <-Hcur by done. by apply idle_event.
  - rewrite Hw, <-Hcur by done. by apply loaded_event.
  - by apply active_event.
  - rewrite Hw by done. by apply detected_event.
  - rewrite Hw by done. by apply buffering_event.
  - rewrite Hw, <-Hcur by done. by apply ssr_event.
Qed.
End machine.
