(* ===== verification/SoundTriggerSpec.v ===== *)
(** * What the sound trigger stream promises

    The theorems about the state machine and the calls that drive it, on the worlds
    themselves; a concrete platform on which they apply and on which the excluded
    cases go wrong. *)

From S2P Require Import Prelude PalDefs SoundTriggerState SoundTrigger SoundTriggerFacts.
From S2P Require Import SoundTriggerConfig SoundTriggerMachine.

Local Open Scope st_scope.

(** ** Fuel *)

Section fuel.
Context {X : Type} `{!StEnv X}.

(** [m'] does what [m] does where [m] is defined. *)
Definition extends {A} (m m' : St (World X) A) : Prop := ∀ w r, m w = Some r → m' w = Some r.

#[local] Instance extends_refl {A} : Reflexive (@extends A).
Proof. by intros m w r. Qed.

Lemma extends_bind {A B} (m m' : St (World X) A) (k k' : A → St (World X) B) :
  extends m m' → (∀ x, extends (k x) (k' x)) → extends (st_bind m k) (st_bind m' k').
Proof.
  intros Hm Hk w r. unfold st_bind. destruct (m w) as [[x w']|] eqn:E; [|done].
  rewrite (Hm _ _ E). apply Hk.
Qed.

Ltac extends_tac :=
  repeat first
    [ assumption
    | lazymatch goal with
      | H : ∀ ev, extends (?r ev) _ |- extends (?r _) _ => apply H
      | |- extends (st_bind _ _) (st_bind _ _) => apply extends_bind; [|intros ?]
      | |- extends (match ?x with _ => _ end) _ => destruct x
      | |- extends (if ?x then _ else _) _ => destruct x
      end
    | reflexivity ].

Lemma extends_rec (rec rec' : StEventConfig → St (World X) Z) ev :
  (∀ ev, extends (rec ev) (rec' ev)) →
  (extends (StIdle_ProcessEvent rec ev) (StIdle_ProcessEvent rec' ev) ∧
   extends (StLoaded_ProcessEvent rec ev) (StLoaded_ProcessEvent rec' ev)) ∧
  (extends (StActive_ProcessEvent rec ev) (StActive_ProcessEvent rec' ev) ∧
   extends (StDetected_ProcessEvent rec ev) (StDetected_ProcessEvent rec' ev)) ∧
  extends (StBuffering_ProcessEvent rec ev) (StBuffering_ProcessEvent rec' ev) ∧
  extends (StSSR_ProcessEvent rec ev) (StSSR_ProcessEvent rec' ev).
Proof.
  intros Hrec. split_and!; destruct ev; simpl; try reflexivity.
  all: unfold StIdle_CONCURRENT_STREAM, StLoaded_SSR_OFFLINE, StActive_STOP_RECOGNITION,
    StActive_RECOGNITION_CONFIG, StActive_CONCURRENT_STREAM, StBuffering_SSR_OFFLINE,
    StDetected_STOP_RECOGNITION, StDetected_RECOGNITION_CONFIG, StDetected_CONCURRENT_STREAM,
    StBuffering_STOP_RECOGNITION, StBuffering_RECOGNITION_CONFIG, StBuffering_CONCURRENT_STREAM,
    StSSR_SSR_ONLINE, offline_stop, after_stop, with_new_config, andThen.
  all: extends_tac.
Qed.

Lemma extends_S f ev : extends (ProcessEvent f ev) (ProcessEvent (S f) ev).
Proof.
  revert ev. induction f as [|f IH]; intros ev; [done|].
  change (ProcessEvent (S (S f)) ev) with
    (st <-- GetCurrentStateId ;;
     match st with
     | ST_STATE_IDLE => StIdle_ProcessEvent (ProcessEvent (S f)) ev
     | ST_STATE_LOADED => StLoaded_ProcessEvent (ProcessEvent (S f)) ev
     | ST_STATE_ACTIVE => StActive_ProcessEvent (ProcessEvent (S f)) ev
     | ST_STATE_DETECTED => StDetected_ProcessEvent (ProcessEvent (S f)) ev
     | ST_STATE_BUFFERING => StBuffering_ProcessEvent (ProcessEvent (S f)) ev
     | ST_STATE_SSR => StSSR_ProcessEvent (ProcessEvent (S f)) ev
     | ST_STATE_NONE => λ _, None
     end).
  simpl. apply extends_bind; [done|]. intros st.
  destruct (extends_rec (ProcessEvent f) (ProcessEvent (S f)) ev IH) as [[? ?] [[? ?] [? ?]]].
  by destruct st.
Qed.

Lemma extends_more f g ev : (f ≤ g)%nat → extends (ProcessEvent f ev) (ProcessEvent g ev).
Proof.
  induction 1 as [|g _ IH]; [reflexivity|]. intros w r E. by apply extends_S, IH.
Qed.
End fuel.

(** ** The state machine *)

Section events.
Context {X : Type} `{!StEnv X, !StLaws X} (n : Z) `{!StRely X n}.


(** two levels of re-entry are enough: more fuel changes nothing. *)
Theorem reentry_depth_two (w : World X) ev fuel :
  st_inv (strm w) → mutex_unlocked_after_cb_ (strm w) = false → lk_stream w = true →
  event_ok (strm w) ev → (2 ≤ fuel)%nat → wake_lock_cnt w = n + wake_before (strm w) ev →
  is_Some (process ev w) ∧ ProcessEvent fuel ev w = process ev w.
Proof.
  intros Hi Hm Hl Hev Hf Hw.
  destruct (vwp_run (process ev) (outcome n ev (strm w) (lk_active w)) w) as (r&w'&E&_).
  { unfold view. rewrite Hl, Hw. by apply event_outcome. }
  split; [by eexists|]. rewrite E. by apply (extends_more 2).
Qed.

(** ** Detections of an engine *)

(** The other threads leave the stream as they should. *)
Definition rely_ok det (o : World X * bool) : Prop :=
  good n (view o.1) ∧ mutex_unlocked_after_cb_ (strm o.1) = false ∧
  event_ok (strm o.1) (StDetectedEventConfig det).

(** The mutex is taken, or the stream has left the states that wait for it. *)
Lemma vwp_try_lock det keep (obs : list (World X * bool)) Q s k a :
  Forall (rely_ok det) obs →
  good n (mkView s k false a) → mutex_unlocked_after_cb_ s = false →
  event_ok s (StDetectedEventConfig det) →
  (∀ b s' k', good n (mkView s' k' b a) → mutex_unlocked_after_cb_ s' = false →
     event_ok s' (StDetectedEventConfig det) → (b = false → keep (cur_state_ s') = false) →
     Q b (mkView s' k' b a)) →
  vwp (try_lock_while keep obs) Q (mkView s k false a).
Proof using Type*.
  revert s k. induction obs as [|[w' free] obs IH]; intros s k Ho Hg Hm Hev HQ; simpl.
  - vstep. vstep. vstep. by apply HQ.
  - apply Forall_cons in Ho as [(Hg'&Hm'&Hev') Ho].
    vstep. apply vwp_adopt. destruct free; [do 3 vstep; by apply HQ|].
    destruct (keep _) eqn:Hk; [by apply IH|]. vstep. by apply HQ.
Qed.

(** A detection that is not dropped, with the mutex taken. *)
Lemma vwp_report det (K : Z → St (World X) Z) Q s k a :
  first_stage det = true ∧ cur_state_ s = ST_STATE_ACTIVE ∨
    first_stage det = false ∧ cur_state_ s = ST_STATE_BUFFERING →
  good n (mkView s k true a) → mutex_unlocked_after_cb_ s = false →
  event_ok s (StDetectedEventConfig det) →
  (∀ r v, outcome n (StDetectedEventConfig det) s a r v → vwp (K r) Q v) →
  vwp (when (first_stage det) (
         acquireWakeLock ;;;;
         r <-- get reader_ ;;
         match r with
         | Some r => call_ (ReaderUpdateState r READER_PREPARED)
         | None => st_ret tt
         end) ;;;;
       when (bool_decide (det = KEYWORD_DETECTION_SUCCESS ∨ det = KEYWORD_DETECTION_REJECT)) (
         engines <-- get engines_ ;;
         for_ (λ eng, when (bool_decide (Z.land eng.1 ST_SM_ID_SVA_S_STAGE_USER ≠ 0))
                        (call_ (EngSetDetected eng.2 det))) engines) ;;;;
       r <-- process (StDetectedEventConfig det) ;; K r) Q (mkView s k true a).
Proof using Type*.
  intros Hc [Hi Hk] Hm Hev HQ. simpl in Hk.
  assert (HR : ∀ c x, T (st_op c x).1) by done.
  assert (Hgo : ∀ Q', Q' tt (mkView s (n + wake_before s (StDetectedEventConfig det)) true a) →
    vwp (when (first_stage det) (
         acquireWakeLock ;;;;
         r <-- get reader_ ;;
         match r with
         | Some r => call_ (ReaderUpdateState r READER_PREPARED)
         | None => st_ret tt
         end)) Q' (mkView s k true a)).
  { intros Q' HQ'. simpl in HQ'. rewrite Hk in *. destruct Hc as [[Hf Hc]|[Hf Hc]]; rewrite Hf in *.
    - rewrite decide_True in HQ' by done. rewrite Hc.
      change (wake_of ST_STATE_ACTIVE) with 0. rewrite Z.add_0_r. do 2 vstep.
      apply vwp_acquire; [apply law_wake| |].
      + apply rely_bound.
      + repeat vstep; done.
    - rewrite decide_False in HQ' by naive_solver. rewrite Hc in *. unfold when. by vstep. }
  apply vwp_bind, Hgo. apply vwp_bind.
  assert (Hfor : ∀ Q' v, Q' tt v → vwp (for_ (λ eng, when (bool_decide (Z.land eng.1 ST_SM_ID_SVA_S_STAGE_USER ≠ 0)) (call_ (EngSetDetected eng.2 det))) (engines_ s)) Q' v).
  { intros. vstep; [|done]. repeat vstep; done. }
  vstep; [do 2 vstep; apply Hfor|vstep].
  all: vstep; eapply vwp_mono; [by apply event_outcome|exact HQ].
Qed.

(** C17: On the platform of [StLaws], a detection reported by an engine, with the other
    threads running while it waits for the mutex and while the client is called (they
    keep the stream in order and give the mutex back: [StRely], [rely_ok]), ends with
    the mutex free and the wake lock held exactly while a detection is handled, also
    when it comes too late and is dropped.  Excluded by [event_ok]: a keyword to deliver
    without a reader, and a rejection during buffering with
    [GetNotifySecondStageFailure], which releases the wake lock twice. *)
Theorem detection_balanced (w : World X) det :
  first_stage det = true ∨ Z.land det DETECTION_TYPE_SS ≠ 0 →
  lk_stream w = false → mutex_unlocked_after_cb_ (strm w) = false → good n (view w) →
  event_ok (strm w) (StDetectedEventConfig det) → Forall (rely_ok det) (others w) →
  ∃ r w', SetEngineDetectionState det w = Some (r, w') ∧
    (good n (view w') ∧ lk_stream w' = false) ∧ mutex_unlocked_after_cb_ (strm w') = false.
Proof.
  intros Hdet Hl Hm Hg Hev Ho. assert (HR : ∀ c x, T (st_op c x).1) by done.
  unfold SetEngineDetectionState.
  case_decide; [by exists (- EINVAL), w|].
  apply (vwp_run (lock_status <-- try_lock_while engine_may_report (others w) ;; _)
    (λ r v, (good n v ∧ vl v = false) ∧ mutex_unlocked_after_cb_ (vs v) = false) w).
  unfold view at 1. rewrite Hl. vstep.
  eapply vwp_try_lock; [exact Ho| |done|exact Hev|]; [by unfold view in Hg; rewrite Hl in Hg|].
  intros b s k Hgs Hms Hevs Hb. unfold GetCurrentStateId. 
  do 3 vstep.
  { destruct b; repeat vstep; (split; [split; [|done]|done]); done. }
  assert (b = true) as ->.
  { destruct b; [done|]. specialize (Hb eq_refl). unfold engine_may_report in Hb.
    apply bool_decide_eq_false in Hb. tauto. }
  apply vwp_report; [|done..|].
  { destruct (decide (cur_state_ s = ST_STATE_ACTIVE)), (first_stage det);
      destruct (decide (cur_state_ s = ST_STATE_BUFFERING)); naive_solver congruence. }
  intros r [s' k' l' a'] (Hg'&[Hl' _]&_). simpl in Hl'. subst l'.
  vstep. vstep. vstep. destruct (mutex_unlocked_after_cb_ s') eqn:Hm'; simpl.
  all: repeat vstep; (split; [split; [|done]|done]); by eapply good_core; [|exact Hg'].
Qed.
End events.

(** ** Pausing for another stream *)

Section pause.
Context {X : Type} `{!StEnv X, !StLaws X}.
Let HR (c : StCall) (x : X) : T (st_op c x).1 := I.
Let R0 : T 0 := I.
Let HD (x : X) (d : Z) (_ : GetPalDevice x d = None) : T (- EINVAL) := I.

(** the sound model is freed once it is loaded, and the abort event is built from
    it: a pause of a running stream ends with -ENOMEM, the stream stops, and the state
    the client sees does not change, since it is not told. *)
Theorem pause_is_not_notified (w : World X) :
  st_inv (strm w) ∧ running (cur_state_ (strm w)) = true →
  wake_of (cur_state_ (strm w)) ≤ wake_lock_cnt w → lk_stream w = true →
  ∃ w', process StPauseEventConfig w = Some (- ENOMEM, w') ∧
    (cur_state_ (strm w') = ST_STATE_LOADED ∧ paused_ (strm w') = true) ∧
    currentState (strm w') = currentState (strm w) ∧
    wake_lock_cnt w' = wake_lock_cnt w - wake_of (cur_state_ (strm w)).
Proof using Type*.
  intros [[_ _ _ _ _ Hb Hsm] Hrun] Hk Hl. set (s := strm w) in *.
  set (k := wake_lock_cnt w - wake_of (cur_state_ s)) in *.
  assert (0 ≤ k) by lia.
  destruct (vwp_run (process StPauseEventConfig) (λ r v, r = - ENOMEM ∧
    (cur_state_ (vs v) = ST_STATE_LOADED ∧ paused_ (vs v) = true) ∧
    currentState (vs v) = currentState s ∧ vn v = k) w) as (r&w'&E&->&H1&H2&H3).
  - unfold view. rewrite Hl. replace (wake_lock_cnt w) with (k + wake_of (cur_state_ s)) by lia.
    fold s. clearbody k. clearbody s. unfold process. eapply ProcessEvent_at; [reflexivity|].
    destruct (cur_state_ s) eqn:Hcur; try discriminate.
    + change (wake_of ST_STATE_ACTIVE) with 0. rewrite Z.add_0_r.
      unfold StActive_ProcessEvent. mgo. kept. done.
    + change (wake_of ST_STATE_DETECTED) with 1.
      unfold StDetected_ProcessEvent. mgo. kept. done.
    + change (wake_of ST_STATE_BUFFERING) with 1.
      unfold StBuffering_ProcessEvent. mgo. kept. done.
  - by exists w'.
Qed.
End pause.

(** ** The calls of a stop *)

Section calls.
Context {X : Type} `{!StEnv X}.

(** [m] has a result from [w], which satisfies [P]. *)
Definition exec {A} (m : St (World X) A) (P : A → World X → Prop) (w : World X) : Prop :=
  ∃ r w', m w = Some (r, w') ∧ P r w'.
Definition calls (w : World X) : list StCall := (log w).*1.

Lemma exec_ret {A} (x : A) P w : P x w → exec (st_ret x) P w.
Proof. intros ?. by exists x, w. Qed.
Lemma exec_bind {A B} (m : St (World X) A) (k : A → St (World X) B) P w :
  exec m (λ x, exec (k x) P) w → exec (st_bind m k) P w.
Proof.
  intros (x&w1&E&r&w2&E2&?). exists r, w2. unfold st_bind. by rewrite E.
Qed.
Lemma exec_get {A} (f : StreamSoundTrigger → A) P w : P (f (strm w)) w → exec (get f) P w.
Proof. intros ?. by exists (f (strm w)), w. Qed.
Lemma exec_upd f P w :
  (∀ w', strm w' = f (strm w) → log w' = log w → P tt w') → exec (upd f) P w.
Proof. intros H. eexists tt, _. split; [done|]. by apply H. Qed.
Lemma exec_call c P w :
  (∀ r w', strm w' = strm w → log w' = log w ++ [(c, r)] → P r w') → exec (call c) P w.
Proof.
  intros H. unfold exec, call. destruct (st_op c (ext w)) as [r x]. eexists r, _.
  split; [done|]. by apply H.
Qed.
Lemma exec_stop_engines es st P w :
  (∀ r w', strm w' = strm w → calls w' = calls w ++ ((λ e, EngStop e.2) <$> es) → P r w') →
  exec (stop_engines es st) P w.
Proof.
  revert st w. induction es as [|e es IH]; intros st w H; simpl.
  - apply exec_ret, H; [done|]. by rewrite app_nil_r.
  - apply exec_bind, exec_call. intros r w1 Hs Hl. apply IH. intros r2 w2 Hs2 Hl2.
    apply H; [congruence|]. rewrite Hl2. unfold calls. rewrite Hl, fmap_app, <-app_assoc. done.
Qed.

(** C32: An internal pause of an active stream with a device deregisters the device,
    stops every engine even when one fails, then stops and closes the device even when
    it does not stop; its result is that of the close alone. *)
Theorem internal_pause_releases (w : World X) d ds :
  cur_state_ (strm w) = ST_STATE_ACTIVE → mDevices (strm w) = d :: ds →
  ∃ r w', process StInternalPauseEventConfig w = Some (r, w') ∧
    calls w' = calls w ++ [DeregisterDevice d] ++
      ((λ e, EngStop e.2) <$> engines_ (strm w)) ++ [DevStop d; DevClose d] ∧
    last (log w') = Some (DevClose d, r) ∧
    (cur_state_ (strm w') = ST_STATE_LOADED ∧ paused_ (strm w') = true) ∧
    device_opened_ (strm w') = false.
Proof.
  intros Hcur Hd. change (exec (process StInternalPauseEventConfig) (λ r w',
    calls w' = calls w ++ [DeregisterDevice d] ++
      ((λ e, EngStop e.2) <$> engines_ (strm w)) ++ [DevStop d; DevClose d] ∧
    last (log w') = Some (DevClose d, r) ∧
    (cur_state_ (strm w') = ST_STATE_LOADED ∧ paused_ (strm w') = true) ∧
    device_opened_ (strm w') = false) w).
  unfold process. simpl. apply exec_bind, exec_get. rewrite Hcur. simpl.
  apply exec_bind, exec_upd. intros w1 S1 L1. unfold StActive_STOP_RECOGNITION.
  apply exec_bind, exec_get. rewrite andb_false_r. apply exec_bind, exec_ret.
  apply exec_bind, exec_ret. unfold deregister_device. apply exec_bind, exec_bind, exec_get.
  rewrite S1. cbn [mDevices set_paused_]. rewrite Hd. unfold call_.
  apply exec_bind, exec_call. intros r2 w2 S2 L2. apply exec_ret.
  apply exec_bind, exec_get. apply exec_bind, exec_stop_engines. intros r3 w3 S3 L3.
  unfold stop_close_device. apply exec_bind, exec_bind, exec_get.
  rewrite S3, S2, S1. cbn [mDevices set_paused_]. rewrite Hd.
  apply exec_bind, exec_call. intros r4 w4 S4 L4.
  apply exec_bind, exec_call. intros r5 w5 S5 L5.
  apply exec_bind, exec_upd. intros w6 S6 L6. apply exec_ret.
  apply exec_bind, exec_ret. unfold after_stop, TransitTo, when. rewrite bool_decide_true by done.
  apply exec_bind, exec_upd. intros w7 S7 L7. apply exec_ret.
  rewrite L7, S7, L6, S6. cbn. rewrite S5, S4, S3, S2, S1. cbn. split; [|split; [|done]].
  - unfold calls in *. rewrite L7, L6, L5, L4, !fmap_app, L3, L2, L1, !fmap_app, S2, S1. cbn.
    by rewrite <-!app_assoc.
  - rewrite L5. by rewrite last_snoc.
Qed.
End calls.

(** ** Sound models of the client *)

Section models.
Context {X : Type} `{!StEnv X}.

Lemma is_Some_bind {A B} (m : St (World X) A) (k : A → St (World X) B) w :
  (∀ x w, is_Some (k x w)) → (is_Some (st_bind m k w) ↔ is_Some (m w)).
Proof.
  intros Hk. unfold st_bind. destruct (m w) as [[x w']|]; [|done].
  split; [by eexists|intros _; apply Hk].
Qed.

Lemma copy_sound_model_defined (m : pal_st_sound_model) size (w : World X) :
  zlen (sm_data m) = sm_data_size m → 0 < size → size + sm_data_size m < 2 ^ 31 →
  0 ≤ sm_data_offset m →
  (is_Some (copy_sound_model size m w) ↔ sm_data_offset m ≤ size).
Proof.
  intros E Hs Hb Ho. unfold copy_sound_model. pose proof (zlen_nonneg (sm_data m)).
  rewrite s32_small by lia. rewrite decide_False by lia.
  set (blk := replicate (Z.to_nat (size + sm_data_size m)) 0).
  assert (Hblk : zlen blk = size + sm_data_size m)
    by (unfold zlen, blk; rewrite length_replicate; lia).
  destruct (splice_is_Some 0 (replicate (Z.to_nat size) 0) blk) as [b1 ->];
    [lia|unfold zlen at 1; rewrite length_replicate; lia|].
  unfold st_bind, deref, st_lift. unfold splice. case_decide as D.
  - split; [lia|]. by eexists.
  - split; [by intros [? ?]|lia].
Qed.

(** a model whose declared data lie behind its structure, as the check demands, is
    copied inside the new block exactly when they start right behind it: a larger
    offset passes the check and writes past the block. *)
Theorem model_copy_in_bounds (m : pal_st_sound_model) (w : World X) :
  sm_type m = PAL_SOUND_MODEL_TYPE_GENERIC ∨
    sm_type m = PAL_SOUND_MODEL_TYPE_KEYPHRASE ∧ sm_num_phrases m ≠ 0 →
  zlen (sm_data m) = sm_data_size m → sm_data_size m ≠ 0 →
  sizeof_model m + sm_data_size m < 2 ^ 31 → sizeof_model m ≤ sm_data_offset m →
  (is_Some (UpdateSoundModel m w) ↔ sm_data_offset m = sizeof_model m).
Proof.
  intros Ht E Hz Hb Ho.
  assert (0 < sizeof_model m) by (unfold sizeof_model; case_decide; reflexivity).
  set (w1 := mkWorld (set_sm_config_ None (set_sound_model_type_ (sm_type m) (strm w)))
               (wake_lock_cnt w) (lk_stream w) (lk_active w) (ext w) (log w)).
  assert (Hd := copy_sound_model_defined m (sizeof_model m) w1 E). 
  transitivity (is_Some (copy_sound_model (sizeof_model m) m w1)); [|rewrite Hd by lia; lia].
  clear Hd. unfold UpdateSoundModel. unfold st_bind at 1, upd at 1, st_modify.
  destruct Ht as [Ht|[Ht Hn]].
  - assert (Hs : sizeof_model m = sizeof_pal_st_sound_model) by (unfold sizeof_model; by rewrite Ht).
    rewrite Hs in *. unfold w1. rewrite Ht. rewrite decide_False by done.
    rewrite decide_True by done. rewrite decide_False by lia.
    apply (is_Some_bind (copy_sound_model _ m)). intros [c|] w2; by eexists.
  - assert (Hs : sizeof_model m = sizeof_pal_st_phrase_sound_model)
      by (unfold sizeof_model; by rewrite Ht).
    rewrite Hs in *. unfold w1. rewrite Ht. rewrite decide_True by done.
    rewrite decide_False by lia.
    apply (is_Some_bind (copy_sound_model _ m)). intros [c|] w2; by eexists.
Qed.
End models.

(** ** Recovery of the sound card *)

(** The state in which a stream is to come back. *)
Definition restore_of (s : StreamSoundTrigger) : st_state_id_t :=
  match cur_state_ s with
  | ST_STATE_ACTIVE => ST_STATE_ACTIVE
  | ST_STATE_BUFFERING => if second_stage_processing_ s then ST_STATE_ACTIVE else ST_STATE_LOADED
  | _ => ST_STATE_LOADED
  end.

(** What a stream keeps while the card is down. *)
Definition setup (s : StreamSoundTrigger) :=
  (gsl_engine_ s, vui_intf_ s, sm_cfg_ s, rec_config_ s, gsl_engine_model_ s, paused_ s,
   is_backend_shared_ s).

Section recovery.
Context {X : Type} `{!StEnv X, !StLaws X}.
Implicit Types s : StreamSoundTrigger.

(** Every call succeeds. *)
Definition ok (r : Z) : Prop := r = 0.
Context (HR : ∀ c x, ok (st_op c x).1) (Hcommon : ∀ x, GetSoundTriggerCaptureProfile x ≠ None).
Context (Hdev : ∀ x d, GetPalDevice x d ≠ None).
Let R0 : ok 0 := eq_refl.
Let HD x d (E : GetPalDevice x d = None) : ok (- EINVAL) := False_ind _ (Hdev x d E).

Ltac zero := repeat match goal with
  | H : ok ?r |- _ => is_var r; unfold ok in H; subst r
  | H : Some _ ≠ None → (∀ cfg, sm_cfg_ _ = Some cfg → _) → ok ?r |- _ =>
      let E := fresh in assert (E : ok r) by (apply H; [done|cbn; kept; assumption]); clear H
  end; try congruence; rewrite ?decide_False by lia.
Ltac zgo := repeat (zero; lazymatch goal with
  | |- vwp (ProcessEvent _ (StStartRecognitionEventConfig _)) _ _ => fail
  | |- vwp (start_all_engines _) _ _ => fail
  | |- vwp (start_streaming _) _ _ => fail
  | |- vwp _ _ (mkView (if _ then _ else _) _ _ _) => mstep
  | _ => first [mlem | mstep]
  end); zero.

Lemma vwp_start_ok b Q s k l a :
  is_backend_shared_ s = false → paused_ s = false → rec_config_ s ≠ None →
  (∀ p o vt, Q 0 (mkView (started ST_STATE_ACTIVE p o vt s) k l a)) →
  vwp (StLoaded_START_RECOGNITION (StStartRecognitionEventConfig b)) Q (mkView s k l a).
Proof using Type*.
  intros Hb Hp Hrc HQ. unfold StLoaded_START_RECOGNITION.
  vstep. eapply vwp_get_eq; [exact Hp|]. cbn iota. do 2 vstep.
  rewrite (decide_False (P := rec_config_ s = None)) by done.
  assert (Hall : ∀ o vt, vwp (start_all_engines 0) Q
            (mkView (set_device_opened_ o (set_vote_type_ vt s)) k l a)).
  { intros o vt. unfold start_all_engines. do 3 vstep. apply (vwp_start_engines ok HR); [done|].
    intros [r' tmp] Hr'. unfold ok in Hr'. simpl in Hr'. subst r'. simpl. vstep.
    apply (vwp_reset_reader ok HR R0 HD). repeat vstep. apply HQ. }
  assert (Hstart : vwp (start_streaming 0) Q (mkView s k l a)).
  { unfold start_streaming. do 2 vstep. vstep.
    - specialize (Hall (device_opened_ s) (vote_type_ s)). by destruct s.
    - unfold start_device. do 3 vstep. rewrite Hb. do 2 vstep.
      destruct (GetSoundTriggerCaptureProfile x) as [p|] eqn:E; [|by apply Hcommon in E].
      rewrite decide_False by (by intros [_ ?]).
      zgo; apply Hall. }
  zgo; apply Hstart.
Qed.
Ltac parked_tac HQ := apply HQ; unfold setup; cbn; kept; done.

Lemma vwp_offline Q s k a :
  st_inv s → loaded (cur_state_ s) = true → state_for_restore_ s = ST_STATE_NONE → 0 ≤ k →
  (∀ s', setup s' = setup s → cur_state_ s' = ST_STATE_SSR →
     state_for_restore_ s' = restore_of s → Q 0 (mkView s' k true a)) →
  vwp (process StSSROfflineConfig) Q (mkView s (k + wake_of (cur_state_ s)) true a).
Proof using Type*.
  intros [_ Hatt _ Hcfg Hrc Hb Hsm] Hl Hn Hk HQ. specialize (Hatt Hl). unfold process.
  eapply ProcessEvent_at; [reflexivity|]. unfold restore_of in HQ.
  destruct (cur_state_ s) eqn:Hcur; try discriminate.
  - change (wake_of ST_STATE_LOADED) with 0. rewrite Z.add_0_r.
    unfold StLoaded_ProcessEvent, StLoaded_SSR_OFFLINE. mgo; zero; parked_tac HQ.
  - change (wake_of ST_STATE_ACTIVE) with 0. rewrite Z.add_0_r.
    unfold StActive_ProcessEvent, offline_stop. mgo; zero; parked_tac HQ.
  - change (wake_of ST_STATE_DETECTED) with 1.
    unfold StDetected_ProcessEvent, offline_stop. mgo; zero; parked_tac HQ.
  - change (wake_of ST_STATE_BUFFERING) with 1.
    unfold StBuffering_ProcessEvent, StBuffering_SSR_OFFLINE, offline_stop.
    mgo; zero; parked_tac HQ.
Qed.

Lemma vwp_online Q s k a :
  attached s → (∀ cfg, sm_cfg_ s = Some cfg → cfg_ok cfg ∧ GetMmapEnable cfg = false) →
  (∀ c, rec_config_ s = Some c → rc_ok c) → is_backend_shared_ s = false →
  gsl_engine_model_ s ≠ None → paused_ s = false → cur_state_ s = ST_STATE_SSR →
  state_for_restore_ s = ST_STATE_LOADED ∨
    state_for_restore_ s = ST_STATE_ACTIVE ∧ rec_config_ s ≠ None →
  (∀ s', cur_state_ s' = state_for_restore_ s → state_for_restore_ s' = ST_STATE_NONE →
     rec_config_ s' = rec_config_ s → Q 0 (mkView s' k true a)) →
  vwp (process StSSROnlineConfig) Q (mkView s k true a).
Proof using Type*.
  intros Hatt Hcm Hrc Hb Hg Hp Hcur Hre HQ.
  assert (Hcfg : ∀ cfg, sm_cfg_ s = Some cfg → cfg_ok cfg) by (intros; by apply Hcm).
  assert (Hmm : ∀ cfg, sm_cfg_ s = Some cfg → GetMmapEnable cfg = false)
    by (intros; by apply Hcm).
  unfold process. eapply ProcessEvent_at; [exact Hcur|].
  unfold StSSR_ProcessEvent, StSSR_SSR_ONLINE, andThen.
  do 6 vstep. rewrite (decide_False (P := gsl_engine_model_ s = None)) by done.
  vstep. vstep. rewrite decide_False by (cbn; destruct Hre as [-> | [-> _]]; done). forget.
  vstep. vstep. 
  replace (is_restored (state_for_restore_ s0)) with true
    by (kept; destruct Hre as [-> | [-> _]]; done).
  assert (Hsend : ∀ s', sm_cfg_ s' = sm_cfg_ s0 → ∀ cfg, sm_cfg_ s' = Some cfg → GetMmapEnable cfg = false)
    by (intros s' ->; kept; exact Hmm).
  zgo.
  all: try (lazymatch goal with |- vwp _ _ _ => idtac end;
    eapply ProcessEvent_at; [cbn; kept; reflexivity|]; unfold StLoaded_ProcessEvent;
    apply vwp_start_ok; [cbn; kept; try congruence..|];
    [..|intros; rewrite decide_False by lia; repeat vstep]).
  all: first [apply HQ; unfold started; cbn; kept|idtac].
  all: first [done|destruct Hre as [?|[? ?]]; congruence].
Qed.

(** C30: The card fails and comes back, every call succeeds and every device and the
    common capture profile exist: a stream that had a model, was not paused, does not
    use mmap buffers, has its first-stage model and no back end shared with other
    streams is parked, then is in the state it had, with its recognition configuration;
    one that was handling a detection comes back loaded, or active when its second
    stage had not finished. *)
Theorem ssr_restores_state (w : World X) :
  st_inv (strm w) ∧ loaded (cur_state_ (strm w)) = true →
  state_for_restore_ (strm w) = ST_STATE_NONE → paused_ (strm w) = false →
  gsl_engine_model_ (strm w) ≠ None →
  (∀ cfg, sm_cfg_ (strm w) = Some cfg → GetMmapEnable cfg = false) →
  wake_of (cur_state_ (strm w)) ≤ wake_lock_cnt w → lk_stream w = true →
  ∃ w1 w2, process StSSROfflineConfig w = Some (0, w1) ∧
    cur_state_ (strm w1) = ST_STATE_SSR ∧
    process StSSROnlineConfig w1 = Some (0, w2) ∧
    cur_state_ (strm w2) = restore_of (strm w) ∧
    rec_config_ (strm w2) = rec_config_ (strm w) ∧
    state_for_restore_ (strm w2) = ST_STATE_NONE.
Proof using Type*.
  intros [Hi Hl] Hn Hp Hg Hmm Hk Hlk. set (s := strm w) in *.
  destruct (vwp_run (process StSSROfflineConfig) (λ r v, r = 0 ∧
    (setup (vs v) = setup s ∧ cur_state_ (vs v) = ST_STATE_SSR ∧
     state_for_restore_ (vs v) = restore_of s) ∧ vl v = true) w) as (r1&w1&E1&->&(Hs&Hc&Hr)&Hl1).
  { unfold view. rewrite Hlk.
    replace (wake_lock_cnt w) with (wake_lock_cnt w - wake_of (cur_state_ s) + wake_of (cur_state_ s)) by lia.
    apply vwp_offline; [done..|lia|]. intros s' H1 H2 H3. done. }
  injection Hs as Hs1 Hs2 Hs3 Hs4 Hs5 Hs6 Hs7. cbn in *.
  destruct (vwp_run (process StSSROnlineConfig) (λ r v, r = 0 ∧
    cur_state_ (vs v) = state_for_restore_ (strm w1) ∧ state_for_restore_ (vs v) = ST_STATE_NONE ∧
    rec_config_ (vs v) = rec_config_ (strm w1)) w1) as (r2&w2&E2&->&H1&H2&H3).
  { unfold view. rewrite Hl1. destruct Hi as [_ Hatt Hrec Hcfg Hrc Hb _].
    apply vwp_online; [| | | | |congruence|done| |done].
    - unfold attached. rewrite Hs1, Hs2, Hs3. by apply Hatt.
    - rewrite Hs3. eauto.
    - by rewrite Hs4.
    - congruence.
    - congruence.
    - rewrite Hr, Hs4. unfold restore_of. destruct (cur_state_ s) eqn:E; try discriminate; auto.
      destruct second_stage_processing_; auto. }
  exists w1, w2. cbn in *. rewrite H1, H3. done.
Qed.
End recovery.

(** ** A platform *)

(** One capture profile on the handset microphone of voice UI, one engine, calls that
    succeed; the state is what the last buffer was created with, and [more] is what
    the other threads do. *)
Definition demo_profile : CaptureProfile :=
  mkCapProf 1 "handset" PAL_DEVICE_IN_HANDSET_VA_MIC 16000 16 1 "va-mic" false "va_macro".
Definition demo_cfg : VUIStreamConfig :=
  mkVUI true (λ _, None) (λ _ _, Some demo_profile) ST_MODULE_TYPE_GMM "GMM" (λ _, "GMM")
    false false 1 true [] false (λ _, false) 2000 500 100 16000 16 1 false 80 20.

#[export] Instance demo_env : StEnv (list Z) := {|
  st_op c x :=
    match c with
    | EngCreateBuffer _ _ k => (0, replicate (Z.to_nat k) 7)
    | _ => (0, x)
    end;
  GetStreamConfig _ _ := Some demo_cfg;
  GetSupportDevSwitch := false;
  GetNotifySecondStageFailure := false;
  wake_lock_fd := 3;
  wake_unlock_fd := 4;
  isDeviceAvailable _ _ := false;
  CheckForForcedTransitToNonLPI _ := false;
  getLPIUsage _ := true;
  deferred_LPI_NLPI _ := false;
  isTxConcurrencyActive _ := false;
  isStreamSSRDownFeasibile _ := true;
  GetSoundTriggerCaptureProfile _ := Some demo_profile;
  GetPalDevice _ d := Some d;
  Device_getInstance _ d := Some d;
  getTopPriorityDevice _ d := d;
  checkECRef _ _ _ := false;
  vui_handle _ := Some 5;
  sound_model_list _ := [mkSmData 6 ST_SM_ID_SVA_F_STAGE_GMM];
  eng_interface _ e := Some e;
  IsBatchMode _ _ := false;
  buffering_config _ := (0, 0);
  GetUpdatedBufConfig _ _ := (2000, 500);
  created_readers x := x;
  keyword_end_index _ := 0;
  lab_read_offset _ := 0;
  getBufferSize _ _ := 1000;
  getUnreadSize _ _ := 0;
  detection_event _ := true;
  others w := [];
|}.

#[export] Instance demo_laws : StLaws (list Z).
Proof.
  constructor.
  - intros x id cfg [= <-]. split; [|done]. intros. by exists demo_profile.
  - done.
  - intros x. simpl. left.
  - intros e size k x x' Hk [= <-]. simpl. unfold zlen. rewrite length_replicate. lia.
  - done.
  - simpl. lia.
Qed.

#[export] Instance demo_rely : StRely (list Z) 0.
Proof. split; [lia|]. intros. constructor. Qed.

Definition demo_media : pal_media_config := mkMedia 16000 16 1 (mkChannels 1 [1]).
Definition demo_attr : pal_stream_attributes :=
  mkAttr PAL_STREAM_VOICE_UI (hpcm_stream_info 0) 0 PAL_AUDIO_INPUT demo_media demo_media None.
Definition demo_rc : pal_st_recognition_config :=
  mkRecCfg 1 2 true 0 (replicate 10 (mkPhrase 0 0 0 0 (replicate 10 (mkLevel 0 0)))) 2 1000 [8; 9].

(** A stream with its model loaded, in the state [st], with two stages. *)
Definition demo_stream (st : st_state_id_t) : StreamSoundTrigger :=
  set_cur_state_ st (set_gsl_engine_ (Some 9) (set_vui_intf_ (Some 5)
  (set_sm_cfg_ (Some demo_cfg) (set_cap_prof_ (Some demo_profile)
  (set_rec_config_ (Some demo_rc) (set_gsl_engine_model_ (Some 6)
  (set_engines_ [(ST_SM_ID_SVA_F_STAGE_GMM, 9); (ST_SM_ID_SVA_S_STAGE_KWD, 10)]
  (set_reader_ (Some 7) (set_mDevices [PAL_DEVICE_IN_HANDSET_VA_MIC]
  (set_currentState STREAM_STARTED (set_callback_ true
  (StreamSoundTrigger_new demo_attr false false)))))))))))).
Definition demo_world (s : StreamSoundTrigger) (wake : Z) (locked : bool) : World (list Z) :=
  mkWorld s wake locked false [] [].

Lemma demo_rc_ok : rc_ok demo_rc.
Proof.
  split; [split; [done|vm_compute; by split]|]. split; [by split|].
  simpl. repeat (apply Forall_cons; split; [by split|]). by constructor.
Qed.

Lemma demo_inv st : st ≠ ST_STATE_NONE → st_inv (demo_stream st).
Proof.
  intros Hst. constructor; try done.
  - intros cfg [= <-]. exact (law_cfg (X := list Z) [] 0 demo_cfg eq_refl).
  - intros c [= <-]. apply demo_rc_ok.
Qed.


Lemma demo_event_ok st det :
  det ≠ KEYWORD_DETECTION_REJECT → det ≠ USER_VERIFICATION_REJECT →
  event_ok (demo_stream st) (StDetectedEventConfig det).
Proof.
  intros Hk Hu. split; [done|]. intros _ Hr. unfold is_reject in Hr.
  apply bool_decide_eq_true in Hr. lia.
Qed.


Lemma reentry_depth_two_witness :
  is_Some (process StSSROfflineConfig (demo_world (demo_stream ST_STATE_ACTIVE) 0 true)) ∧
  ProcessEvent 7 StSSROfflineConfig (demo_world (demo_stream ST_STATE_ACTIVE) 0 true) =
  process StSSROfflineConfig (demo_world (demo_stream ST_STATE_ACTIVE) 0 true).
Proof.
  apply (reentry_depth_two 0 (demo_world (demo_stream ST_STATE_ACTIVE) 0 true)).
  - by apply demo_inv.
  - reflexivity.
  - reflexivity.
  - exact I.
  - lia.
  - vm_compute. reflexivity.
Defined.

Lemma detection_balanced_witness :
  ∃ r w', SetEngineDetectionState GMM_DETECTED
            (demo_world (demo_stream ST_STATE_ACTIVE) 0 false) = Some (r, w') ∧
    (good 0 (view w') ∧ lk_stream w' = false) ∧ mutex_unlocked_after_cb_ (strm w') = false.
Proof.
  apply (detection_balanced 0 (demo_world (demo_stream ST_STATE_ACTIVE) 0 false)).
  - left. reflexivity.
  - reflexivity.
  - reflexivity.
  - split; [by apply demo_inv|vm_compute; reflexivity].
  - by apply demo_event_ok.
  - constructor.
Defined.

Lemma pause_is_not_notified_witness :
  ∃ w', process StPauseEventConfig (demo_world (demo_stream ST_STATE_DETECTED) 1 true) =
      Some (- ENOMEM, w') ∧
    (cur_state_ (strm w') = ST_STATE_LOADED ∧ paused_ (strm w') = true) ∧
    currentState (strm w') = STREAM_STARTED ∧ wake_lock_cnt w' = 0.
Proof.
  apply (pause_is_not_notified (demo_world (demo_stream ST_STATE_DETECTED) 1 true)).
  - split; [by apply demo_inv|reflexivity].
  - vm_compute. discriminate.
  - reflexivity.
Defined.

Lemma internal_pause_releases_witness :
  ∃ r w', process StInternalPauseEventConfig
            (demo_world (demo_stream ST_STATE_ACTIVE) 0 true) = Some (r, w') ∧
    calls w' = [DeregisterDevice PAL_DEVICE_IN_HANDSET_VA_MIC; EngStop 9; EngStop 10;
                DevStop PAL_DEVICE_IN_HANDSET_VA_MIC; DevClose PAL_DEVICE_IN_HANDSET_VA_MIC] ∧
    last (log w') = Some (DevClose PAL_DEVICE_IN_HANDSET_VA_MIC, r) ∧
    (cur_state_ (strm w') = ST_STATE_LOADED ∧ paused_ (strm w') = true) ∧
    device_opened_ (strm w') = false.
Proof.
  apply (internal_pause_releases (demo_world (demo_stream ST_STATE_ACTIVE) 0 true) _ []).
  - reflexivity.
  - reflexivity.
Defined.

Lemma model_copy_in_bounds_witness :
  is_Some (UpdateSoundModel (mkSoundModel PAL_SOUND_MODEL_TYPE_GENERIC 0 2 56 0 0 [1; 2])
             (demo_world (demo_stream ST_STATE_IDLE) 0 true)) ↔ 56 = 48.
Proof.
  apply (model_copy_in_bounds
           (mkSoundModel PAL_SOUND_MODEL_TYPE_GENERIC 0 2 56 0 0 [1; 2])).
  - left. reflexivity.
  - reflexivity.
  - discriminate.
  - vm_compute. reflexivity.
  - vm_compute. discriminate.
Defined.

Lemma ssr_restores_state_witness :
  ∃ w1 w2, process StSSROfflineConfig (demo_world (demo_stream ST_STATE_ACTIVE) 0 true) =
      Some (0, w1) ∧
    cur_state_ (strm w1) = ST_STATE_SSR ∧
    process StSSROnlineConfig w1 = Some (0, w2) ∧
    cur_state_ (strm w2) = ST_STATE_ACTIVE ∧
    rec_config_ (strm w2) = Some demo_rc ∧
    state_for_restore_ (strm w2) = ST_STATE_NONE.
Proof.
  apply (ssr_restores_state (X := list Z)) with (w := demo_world (demo_stream ST_STATE_ACTIVE) 0 true).
  - intros c x. destruct c; reflexivity.
  - intros x. discriminate.
  - intros x d. discriminate.
  - split; [by apply demo_inv|reflexivity].
  - reflexivity.
  - reflexivity.
  - discriminate.
  - intros cfg H. injection H as <-. reflexivity.
  - vm_compute. discriminate.
  - reflexivity.
Defined.

(** ** Where the wake lock goes wrong *)

(** the case the state machine theorem excludes: the device is switched while the
    second stage still looks at a detection.  The stream goes back to listening and
    the wake lock of the detection is not given up: it is still held when the stream
    has stopped. *)
Theorem device_switch_leaks_wake_lock :
  ∃ w', (process (StDeviceDisconnectedEventConfig PAL_DEVICE_IN_HANDSET_VA_MIC) ;;;;
         process (StDeviceConnectedEventConfig PAL_DEVICE_IN_HANDSET_VA_MIC) ;;;;
         process StInternalPauseEventConfig)
          (demo_world (set_second_stage_processing_ true (demo_stream ST_STATE_BUFFERING)) 1 true) =
      Some (0, w') ∧
    cur_state_ (strm w') = ST_STATE_LOADED ∧ wake_lock_cnt w' = 1.
Proof. eexists. split; [vm_compute; reflexivity|]. split; reflexivity. Qed.
