(* ===== verification/STUtils.v ===== *)
(** * LPI policy of the sound trigger streams (utils/src/STUtils.cpp)

    The sound trigger streams (voice UI, ACD, ASR, sensor PCM) run in low power
    (LPI) or, next to a stream that needs the echo reference or on a charger, in
    normal power (NLPI).  This file models the variables of STUtils.cpp, the
    switches between the modes and their deferral, the counts by which streams are
    paused next to a stream they may not run with, the common capture profiles, and
    the parameters.  The registry of streams is the model of the resource manager
    (Users).  A function that runs under [mActiveStreamMutex] is one step;
    [active_stream_locked] shows where it is taken twice.  The counters are [int]s
    far from overflow.  The deferred switch thread is in STUtilsThread.

    A stream is known by what this file asks of it; its handling of a call is the
    interface [StuEnv], through which handlers may come back to this file, as those of
    speech recognition and sensor streams do (STUtilsSpec, [CallBack]).  Whether a stream
    supports low power is fixed from its creation, as its configuration is.  [None] is a
    deadlock, the use of a dangling stream or of a null pointer. *)

From S2P Require Import Prelude PalDefs Users CaptureProfile.

(** ** State *)

Inductive defer_switch_state_t := NO_DEFER | DEFER_LPI_NLPI_SWITCH | DEFER_NLPI_LPI_SWITCH.

#[export] Instance defer_switch_state_eq_dec : EqDecision defer_switch_state_t.
Proof. solve_decision. Defined.

(** The attributes of a stream, [isActive], [IsStreamInBuffering] and
    [ConfigSupportLPI]. *)
Record StStream := mkStStream {
  ss_type : Z;
  ss_direction : Z;
  ss_active : bool;
  ss_buffering : bool;
  ss_support_lpi : bool;
}.

(** The calls a stream receives. *)
Inductive SuCall :=
  | Pause (is_internal : bool) | Resume (is_internal : bool)
  | HandleConcurrentStream (active : bool)
  | DisconnectDevice (d : Z) | ConnectDevice (d : Z)
  | lockStreamMutex | start_l | unlockStreamMutex
  | ssrDownHandler | ssrUpHandler.

#[export] Instance SuCall_eq_dec : EqDecision SuCall.
Proof. solve_decision. Defined.

(** What the functions do to the outside, in order: calls of streams, call backs of
    the framework with their cookie, wake-ups of the deferred switch thread. *)
Inductive SuEvent :=
  | EvCall (s : positive) (c : SuCall)
  | EvResourceAvailable (callback cookie : Z)
  | EvNotifySwitch.

#[export] Instance SuEvent_eq_dec : EqDecision SuEvent.
Proof. solve_decision. Defined.

(** A stream handle is its address; [su_streams] are the streams that exist. *)
Record StUtils := mkSu {
  TxconcurrencyEnableCount : Z;
  concurrencyDisableCount : Z;
  ACDConcurrencyDisableCount : Z;
  ASRConcurrencyDisableCount : Z;
  SNSPCMDataConcurrencyDisableCount : Z;
  deferredSwitchState : defer_switch_state_t;
  deferred_switch_cnt_ : Z;
  SoundTriggerCaptureProfile : option CaptureProfile;
  TXMacroCaptureProfile : option CaptureProfile;
  mStCaptureInfo : gmap Z Z;
  mNLPIStreams : gset positive;
  mStartDeferredStreams : list positive;
  onResourceAvailCbList : list (Z * Z);
  use_lpi_ : bool;
  charging_state_ : bool;
  su_users : UserState;
  active_stream_locked : bool;
  cardState : card_status_t;
  isCRSCallEnabled : bool;
  su_streams : gmap positive StStream;
  su_log : list SuEvent;
}.

Definition su_eta (w : StUtils) : StUtils :=
  mkSu
    (TxconcurrencyEnableCount w) (concurrencyDisableCount w)
    (ACDConcurrencyDisableCount w) (ASRConcurrencyDisableCount w)
    (SNSPCMDataConcurrencyDisableCount w) (deferredSwitchState w)
    (deferred_switch_cnt_ w) (SoundTriggerCaptureProfile w) (TXMacroCaptureProfile w)
    (mStCaptureInfo w) (mNLPIStreams w) (mStartDeferredStreams w)
    (onResourceAvailCbList w) (use_lpi_ w) (charging_state_ w) (su_users w)
    (active_stream_locked w) (cardState w) (isCRSCallEnabled w) (su_streams w)
    (su_log w).

Definition set_TxconcurrencyEnableCount : Z → StUtils → StUtils :=
  ltac:(record_setter su_eta TxconcurrencyEnableCount).
Definition set_concurrencyDisableCount : Z → StUtils → StUtils :=
  ltac:(record_setter su_eta concurrencyDisableCount).
Definition set_ACDConcurrencyDisableCount : Z → StUtils → StUtils :=
  ltac:(record_setter su_eta ACDConcurrencyDisableCount).
Definition set_ASRConcurrencyDisableCount : Z → StUtils → StUtils :=
  ltac:(record_setter su_eta ASRConcurrencyDisableCount).
Definition set_SNSPCMDataConcurrencyDisableCount : Z → StUtils → StUtils :=
  ltac:(record_setter su_eta SNSPCMDataConcurrencyDisableCount).
Definition set_deferredSwitchState : defer_switch_state_t → StUtils → StUtils :=
  ltac:(record_setter su_eta deferredSwitchState).
Definition set_deferred_switch_cnt_ : Z → StUtils → StUtils :=
  ltac:(record_setter su_eta deferred_switch_cnt_).
Definition set_SoundTriggerCaptureProfile : (option CaptureProfile) → StUtils → StUtils :=
  ltac:(record_setter su_eta SoundTriggerCaptureProfile).
Definition set_TXMacroCaptureProfile : (option CaptureProfile) → StUtils → StUtils :=
  ltac:(record_setter su_eta TXMacroCaptureProfile).
Definition set_mStCaptureInfo : (gmap Z Z) → StUtils → StUtils :=
  ltac:(record_setter su_eta mStCaptureInfo).
Definition set_mNLPIStreams : (gset positive) → StUtils → StUtils :=
  ltac:(record_setter su_eta mNLPIStreams).
Definition set_mStartDeferredStreams : (list positive) → StUtils → StUtils :=
  ltac:(record_setter su_eta mStartDeferredStreams).
Definition set_onResourceAvailCbList : (list (Z * Z)) → StUtils → StUtils :=
  ltac:(record_setter su_eta onResourceAvailCbList).
Definition set_use_lpi_ : bool → StUtils → StUtils :=
  ltac:(record_setter su_eta use_lpi_).
Definition set_charging_state_ : bool → StUtils → StUtils :=
  ltac:(record_setter su_eta charging_state_).
Definition set_su_users : UserState → StUtils → StUtils :=
  ltac:(record_setter su_eta su_users).
Definition set_active_stream_locked : bool → StUtils → StUtils :=
  ltac:(record_setter su_eta active_stream_locked).
Definition set_cardState : card_status_t → StUtils → StUtils :=
  ltac:(record_setter su_eta cardState).
Definition set_isCRSCallEnabled : bool → StUtils → StUtils :=
  ltac:(record_setter su_eta isCRSCallEnabled).
Definition set_su_streams : (gmap positive StStream) → StUtils → StUtils :=
  ltac:(record_setter su_eta su_streams).
Definition set_su_log : (list SuEvent) → StUtils → StUtils :=
  ltac:(record_setter su_eta su_log).

(** Reduces fields of updated states. *)
Tactic Notation "su_cbv" :=
  cbv beta iota delta [
    set_TxconcurrencyEnableCount set_concurrencyDisableCount
    set_ACDConcurrencyDisableCount set_ASRConcurrencyDisableCount
    set_SNSPCMDataConcurrencyDisableCount set_deferredSwitchState
    set_deferred_switch_cnt_ set_SoundTriggerCaptureProfile set_TXMacroCaptureProfile
    set_mStCaptureInfo set_mNLPIStreams set_mStartDeferredStreams
    set_onResourceAvailCbList set_use_lpi_ set_charging_state_ set_su_users
    set_active_stream_locked set_cardState set_isCRSCallEnabled set_su_streams
    set_su_log TxconcurrencyEnableCount concurrencyDisableCount
    ACDConcurrencyDisableCount ASRConcurrencyDisableCount
    SNSPCMDataConcurrencyDisableCount deferredSwitchState deferred_switch_cnt_
    SoundTriggerCaptureProfile TXMacroCaptureProfile mStCaptureInfo mNLPIStreams
    mStartDeferredStreams onResourceAvailCbList use_lpi_ charging_state_ su_users
    active_stream_locked cardState isCRSCallEnabled su_streams su_log].
Tactic Notation "su_cbv" "in" "*" :=
  cbv beta iota delta [
    set_TxconcurrencyEnableCount set_concurrencyDisableCount
    set_ACDConcurrencyDisableCount set_ASRConcurrencyDisableCount
    set_SNSPCMDataConcurrencyDisableCount set_deferredSwitchState
    set_deferred_switch_cnt_ set_SoundTriggerCaptureProfile set_TXMacroCaptureProfile
    set_mStCaptureInfo set_mNLPIStreams set_mStartDeferredStreams
    set_onResourceAvailCbList set_use_lpi_ set_charging_state_ set_su_users
    set_active_stream_locked set_cardState set_isCRSCallEnabled set_su_streams
    set_su_log TxconcurrencyEnableCount concurrencyDisableCount
    ACDConcurrencyDisableCount ASRConcurrencyDisableCount
    SNSPCMDataConcurrencyDisableCount deferredSwitchState deferred_switch_cnt_
    SoundTriggerCaptureProfile TXMacroCaptureProfile mStCaptureInfo mNLPIStreams
    mStartDeferredStreams onResourceAvailCbList use_lpi_ charging_state_ su_users
    active_stream_locked cardState isCRSCallEnabled su_streams su_log] in *.

(** ** Environment

    [stream_call] is a stream's handling of a call (it may run the functions of this
    file that streams use), [stream_profile] is [GetCurrentCaptureProfile],
    [vendor_uuid] is [getParameters] for PAL_PARAM_ID_VENDOR_UUID with the block it
    fills, [device_available] whether [Device::getInstance] returns a device.  The
    rest is the configuration of the platform. *)
Class StuEnv := {
  stream_call : positive → SuCall → St StUtils Z;
  stream_profile : positive → St StUtils (option CaptureProfile);
  vendor_uuid : positive → StUtils → Z * list Z;
  device_available : Z → bool;
  support_nlpi_switch_ : bool;
  support_device_switch_ : bool;
  concurrent_capture_ : bool;
  concurrent_voice_call_ : bool;
  concurrent_voip_call_ : bool;
  low_latency_bargein_enable_ : bool;
  transit_to_non_lpi_on_charging_ : bool;
}.

(** The data of [HandleDetectionStreamAction] by action: the stream to leave out, the
    flag, or the device. *)
Inductive st_action :=
  | ST_PAUSE (data : option positive) | ST_RESUME (data : option positive)
  | ST_HANDLE_CONCURRENT_STREAM (enable : bool)
  | ST_HANDLE_DISCONNECT_DEVICE (d : Z) | ST_HANDLE_CONNECT_DEVICE (d : Z)
  | ST_INTERNAL_PAUSE (data : option positive) | ST_INTERNAL_RESUME (data : option positive).

(** The parameters of [setSTParameter]; a charging state comes with whether its
    payload has the expected size, a call back with its cookie. *)
Inductive st_param :=
  | PARAM_CHARGING_STATE (size_ok state : bool)
  | PARAM_RESOURCES_AVAILABLE (payload : option (Z * Z))
  | PARAM_UNKNOWN.

Section stutils.
Context `{StuEnv}.
Local Open Scope st_scope.

Local Abbreviation M := (St StUtils).
Local Abbreviation ret := (@st_ret StUtils _).
Local Abbreviation gets := (@st_gets StUtils _).
Local Abbreviation upd := (@st_modify StUtils).

(** ** The resource manager *)

Definition log (e : SuEvent) : M unit := upd (λ w, set_su_log (su_log w ++ [e]) w).

Definition lockActiveStream : M unit := λ w,
  if active_stream_locked w then None else Some (tt, set_active_stream_locked true w).
Definition unlockActiveStream : M unit := upd (set_active_stream_locked false).

Definition getActiveStreamByType_l (type : Z) : M (list positive) :=
  gets (λ w, default [] (activeStreamMap (su_users w) !! type)).

Definition active_type (type : Z) : M bool :=
  gets (λ w, bool_decide (is_Some (activeStreamMap (su_users w) !! type))).

Definition has_active (type : Z) : M bool :=
  l <-- getActiveStreamByType_l type ;; ret (bool_decide (l ≠ [])).

(** The use of a stream that does not exist is undefined. *)
Definition stream (str : positive) : M StStream := λ w,
  match su_streams w !! str with Some o => Some (o, w) | None => None end.

Definition call (str : positive) (c : SuCall) : M Z :=
  stream str ;;;; log (EvCall str c) ;;;; stream_call str c.

(** [isAnyStreamBuffering] over the given streams. *)
Fixpoint any_buffering (l : list positive) : M bool :=
  match l with
  | [] => ret false
  | str :: l => o <-- stream str ;; if ss_buffering o then ret true else any_buffering l
  end.
Definition isAnyStreamBuffering : M bool :=
  l <-- gets (λ w, mActiveStreams (su_users w)) ;; any_buffering l.

Definition IsVoiceCallConcurrencySupported (w : StUtils) : bool :=
  isCRSCallEnabled w || concurrent_voice_call_.

(** ** Capture profiles *)

(** A candidate of the given back end that beats the best one so far. *)
Definition better_profile (backend : string) (cap : CaptureProfile)
    (cap_prof_priority : option CaptureProfile) : option CaptureProfile :=
  if decide (cp_backend cap ≠ backend) then cap_prof_priority
  else if decide (CAPTURE_PROFILE_PRIORITY_HIGH ≤ ComparePriority cap cap_prof_priority)
  then Some cap else cap_prof_priority.

(** The loop over the active streams but [s]: [check] is whether only streams with
    [isActive] count, [skip] which profiles are passed over. *)
Fixpoint profile_loop (check : bool) (skip : CaptureProfile → bool) (s : option positive)
    (backend : string) (l : list positive) (cap_prof_priority : option CaptureProfile)
    : M (option CaptureProfile) :=
  match l with
  | [] => ret cap_prof_priority
  | str :: l =>
      let next := profile_loop check skip s backend l in
      if decide (Some str = s) then next cap_prof_priority
      else
        o <-- stream str ;;
        if check && negb (ss_active o) then next cap_prof_priority
        else
          cap_prof <-- stream_profile str ;;
          match cap_prof with
          | None => next cap_prof_priority
          | Some cap =>
              if skip cap then next cap_prof_priority
              else next (better_profile backend cap cap_prof_priority)
          end
  end.

Definition GetSVACaptureProfileByPriority (s : option positive)
    (cap_prof_priority : option CaptureProfile) (backend : string)
    : M (option CaptureProfile) :=
  l <-- getActiveStreamByType_l PAL_STREAM_VOICE_UI ;;
  profile_loop true
    (λ cap, bool_decide (cp_dev_id cap ∈ [PAL_DEVICE_IN_HANDSET_MIC;
       PAL_DEVICE_IN_SPEAKER_MIC; PAL_DEVICE_IN_WIRED_HEADSET]))
    s backend l cap_prof_priority.

Definition GetACDCaptureProfileByPriority (s : option positive)
    (cap_prof_priority : option CaptureProfile) (backend : string)
    : M (option CaptureProfile) :=
  l <-- getActiveStreamByType_l PAL_STREAM_ACD ;;
  profile_loop true (λ _, false) s backend l cap_prof_priority.

Definition GetSPDCaptureProfileByPriority (s : option positive)
    (cap_prof_priority : option CaptureProfile) (backend : string)
    : M (option CaptureProfile) :=
  l <-- getActiveStreamByType_l PAL_STREAM_SENSOR_PCM_DATA ;;
  profile_loop false (λ _, false) s backend l cap_prof_priority.

Definition GetASRCaptureProfileByPriority (s : option positive)
    (cap_prof_priority : option CaptureProfile) (backend : string)
    : M (option CaptureProfile) :=
  l <-- getActiveStreamByType_l PAL_STREAM_ASR ;;
  profile_loop true (λ _, false) s backend l cap_prof_priority.

Definition GetCaptureProfileByPriority (s : option positive) (backend : string)
    : M (option CaptureProfile) :=
  p <-- GetSVACaptureProfileByPriority s None backend ;;
  p <-- GetACDCaptureProfileByPriority s p backend ;;
  p <-- GetSPDCaptureProfileByPriority s p backend ;;
  GetASRCaptureProfileByPriority s p backend.

(** The common profile after the best one of the active streams is known, and
    whether it was replaced. *)
Definition update_common (prio common : option CaptureProfile)
    : option CaptureProfile * bool :=
  match prio with
  | None => (None, false)
  | Some p =>
      if decide (CAPTURE_PROFILE_PRIORITY_HIGH ≤ ComparePriority p common)
      then (Some p, true) else (common, false)
  end.

(** The same steps in [UpdateSoundTriggerCaptureProfile], [handleConcurrentStreamSwitch]
    and [SwitchSoundTriggerDevices]. *)
Definition store_common (st_prio tx_prio : option CaptureProfile) : M bool :=
  st <-- gets SoundTriggerCaptureProfile ;;
  tx <-- gets TXMacroCaptureProfile ;;
  let '(st', b) := update_common st_prio st in
  let '(tx', b') := update_common tx_prio tx in
  upd (set_SoundTriggerCaptureProfile st') ;;;;
  upd (set_TXMacroCaptureProfile tx') ;;;;
  ret (b || b').

Definition st_stream_types : list Z :=
  [PAL_STREAM_VOICE_UI; PAL_STREAM_ACD; PAL_STREAM_SENSOR_PCM_DATA; PAL_STREAM_ASR].

Definition UpdateSoundTriggerCaptureProfile (s : option positive) (is_active : bool)
    : M bool :=
  match s with
  | None => ret false
  | Some str =>
      o <-- stream str ;;
      if decide (ss_type o ∉ st_stream_types) then ret false
      else if is_active then
        cap_prof <-- stream_profile str ;;
        match cap_prof with
        | None => ret false
        | Some cap =>
            let va := bool_decide (cp_backend cap ≠ "tx_macro"%string) in
            common <-- gets (if va then SoundTriggerCaptureProfile
                             else TXMacroCaptureProfile) ;;
            let store p := upd (if va then set_SoundTriggerCaptureProfile p
                                else set_TXMacroCaptureProfile p) in
            match common with
            | None => store (Some cap) ;;;; ret false
            | Some c =>
                if decide (CAPTURE_PROFILE_PRIORITY_HIGH ≤ ComparePriority cap (Some c))
                then store (Some cap) ;;;; ret true
                else store (Some c) ;;;; ret false
            end
        end
      else
        st_prio <-- GetCaptureProfileByPriority s "va_macro" ;;
        tx_prio <-- GetCaptureProfileByPriority s "tx_macro" ;;
        store_common st_prio tx_prio
  end.

Definition updateCaptureProfiles : M unit :=
  st_prio <-- GetCaptureProfileByPriority None "va_macro" ;;
  tx_prio <-- GetCaptureProfileByPriority None "tx_macro" ;;
  upd (set_SoundTriggerCaptureProfile st_prio) ;;;;
  upd (set_TXMacroCaptureProfile tx_prio).

(** The profile the device of a stream is configured with; the caller asks the
    device for it.  With neither a profile of its own nor one of its back end the
    code uses a null pointer. *)
Definition GetPalDevice (streamHandle : option positive) (dev_id : Z)
    : M (option (Z * CaptureProfile)) :=
  match streamHandle with
  | None => ret None
  | Some str =>
      stream str ;;;;
      cap_prof <-- stream_profile str ;;
      st <-- gets SoundTriggerCaptureProfile ;;
      tx <-- gets TXMacroCaptureProfile ;;
      if decide (cap_prof = None ∧ st = None ∧ tx = None) then ret None
      else
        let common := if decide (dev_id = PAL_DEVICE_IN_ULTRASOUND_MIC) then tx else st in
        let cap_prof := match common with
          | None => cap_prof
          | Some c =>
              match cap_prof with
              | None => Some c
              | Some p =>
                  if decide (CAPTURE_PROFILE_PRIORITY_HIGH ≤ ComparePriority c (Some p))
                  then Some c else Some p
              end
          end in
        p <-- st_lift cap_prof ;;
        ret (if device_available dev_id then Some (dev_id, p) else None)
  end.

(** ** Actions on all streams of a type *)

(** One iteration of the loop; the status of the last call is kept. *)
Definition stream_action (action : st_action) (str : positive) (status : Z) : M Z :=
  let unless data c := if decide (Some str = data) then ret status else call str c in
  match action with
  | ST_PAUSE data => unless data (Pause false)
  | ST_RESUME data => unless data (Resume false)
  | ST_HANDLE_CONCURRENT_STREAM enable => call str (HandleConcurrentStream enable)
  | ST_HANDLE_DISCONNECT_DEVICE d => call str (DisconnectDevice d)
  | ST_HANDLE_CONNECT_DEVICE d => call str (ConnectDevice d)
  | ST_INTERNAL_PAUSE data => unless data (Pause true)
  | ST_INTERNAL_RESUME data => unless data (Resume true)
  end.

(** The loop runs over a copy of the list and skips streams that left meanwhile. *)
Fixpoint action_loop (type : Z) (action : st_action) (l : list positive) (status : Z)
    : M Z :=
  match l with
  | [] => ret status
  | str :: l =>
      active <-- gets (λ w, isStreamActive str (su_users w)) ;;
      if negb active then action_loop type action l status
      else
        o <-- stream str ;;
        if decide (ss_type o ≠ type) then action_loop type action l status
        else
          status <-- stream_action action str status ;;
          action_loop type action l status
  end.

Definition HandleDetectionStreamAction (type : Z) (action : st_action) : M Z :=
  present <-- active_type type ;;
  if bool_decide (type ∈ st_stream_types) && negb present then ret 0
  else
    l <-- gets (λ w, mActiveStreams (su_users w)) ;;
    action_loop type action l 0.

Definition StopOtherDetectionStreams (st : option positive) : M Z :=
  HandleDetectionStreamAction PAL_STREAM_VOICE_UI (ST_INTERNAL_PAUSE st) ;;;;
  HandleDetectionStreamAction PAL_STREAM_ACD (ST_PAUSE st) ;;;;
  HandleDetectionStreamAction PAL_STREAM_ASR (ST_INTERNAL_PAUSE st) ;;;;
  HandleDetectionStreamAction PAL_STREAM_SENSOR_PCM_DATA (ST_PAUSE st) ;;;;
  ret 0.

Definition StartOtherDetectionStreams (st : option positive) : M Z :=
  HandleDetectionStreamAction PAL_STREAM_VOICE_UI (ST_INTERNAL_RESUME st) ;;;;
  HandleDetectionStreamAction PAL_STREAM_ACD (ST_RESUME st) ;;;;
  HandleDetectionStreamAction PAL_STREAM_ASR (ST_INTERNAL_RESUME st) ;;;;
  HandleDetectionStreamAction PAL_STREAM_SENSOR_PCM_DATA (ST_RESUME st) ;;;;
  ret 0.

(** ** Pausing streams that may not run *)

(** The counter of a type, as a pair of reading and writing it. *)
Definition disable_count (type : Z) : option ((StUtils → Z) * (Z → StUtils → StUtils)) :=
  if decide (type = PAL_STREAM_ACD) then
    Some (ACDConcurrencyDisableCount, set_ACDConcurrencyDisableCount)
  else if decide (type = PAL_STREAM_VOICE_UI) then
    Some (concurrencyDisableCount, set_concurrencyDisableCount)
  else if decide (type = PAL_STREAM_ASR) then
    Some (ASRConcurrencyDisableCount, set_ASRConcurrencyDisableCount)
  else if decide (type = PAL_STREAM_SENSOR_PCM_DATA) then
    Some (SNSPCMDataConcurrencyDisableCount, set_SNSPCMDataConcurrencyDisableCount)
  else None.

(** [None] leaves the caller's variable as it was. *)
Definition GetSTDisableConcurrencyCount_l (type : Z) : M (option Z) :=
  match disable_count type with
  | Some (get, _) => n <-- gets get ;; ret (Some n)
  | None => ret None
  end.

Definition GetSTDisableConcurrencyCount (type : Z) : M (option Z) :=
  lockActiveStream ;;;;
  n <-- GetSTDisableConcurrencyCount_l type ;;
  unlockActiveStream ;;;;
  ret n.

Definition HandleStreamPauseResume (st_type : Z) (active : bool) : M unit :=
  match disable_count st_type with
  | None => ret tt
  | Some (get, set) =>
      n <-- gets get ;;
      if active then
        upd (set (n + 1)) ;;;;
        if decide (n + 1 = 1) then
          HandleDetectionStreamAction st_type (ST_PAUSE None) ;;;; ret tt
        else ret tt
      else if decide (n < 0) then upd (set 0)
      else if decide (n > 0) then
        upd (set (n - 1)) ;;;;
        if decide (n - 1 = 0) then
          HandleDetectionStreamAction st_type (ST_RESUME None) ;;;; ret tt
        else ret tt
      else ret tt
  end.

(** ** The switch between LPI and NLPI *)

(** [true]: the switch is deferred or a deferred one was cancelled. *)
Definition checkAndUpdateDeferSwitchState (stream_active : bool) : M bool :=
  d <-- gets deferredSwitchState ;;
  let forget_count : M unit :=
    if low_latency_bargein_enable_ then upd (set_deferred_switch_cnt_ (-1)) else ret tt in
  if negb stream_active then
    if decide (d = DEFER_LPI_NLPI_SWITCH) then
      upd (set_deferredSwitchState NO_DEFER) ;;;;
      forget_count ;;;; ret true
    else
      any <-- has_active PAL_STREAM_VOICE_UI ;;
      if low_latency_bargein_enable_ && any then
        upd (set_deferredSwitchState DEFER_NLPI_LPI_SWITCH) ;;;;
        upd (set_deferred_switch_cnt_ 5) ;;;;
        log EvNotifySwitch ;;;; ret true
      else
        b <-- isAnyStreamBuffering ;;
        if b then upd (set_deferredSwitchState DEFER_NLPI_LPI_SWITCH) ;;;; ret true
        else ret false
  else
    if decide (d = DEFER_NLPI_LPI_SWITCH) then
      upd (set_deferredSwitchState NO_DEFER) ;;;;
      forget_count ;;;; ret true
    else
      b <-- isAnyStreamBuffering ;;
      if b then upd (set_deferredSwitchState DEFER_LPI_NLPI_SWITCH) ;;;; ret true
      else ret false.

Definition handleConcurrentStreamSwitch (st_streams : list Z) : M unit :=
  (if decide (st_streams = []) then ret tt
   else
     upd (set_SoundTriggerCaptureProfile None) ;;;;
     st_prio <-- GetCaptureProfileByPriority None "va_macro" ;;
     upd (set_TXMacroCaptureProfile None) ;;;;
     tx_prio <-- GetCaptureProfileByPriority None "tx_macro" ;;
     store_common st_prio tx_prio ;;;; ret tt) ;;;;
  st_for st_streams (λ t,
    HandleDetectionStreamAction t (ST_HANDLE_CONCURRENT_STREAM false) ;;;; ret tt) ;;;;
  st_for st_streams (λ t,
    HandleDetectionStreamAction t (ST_HANDLE_CONCURRENT_STREAM true) ;;;; ret tt).

(** The mode the streams will be in once a deferred switch is done. *)
Definition use_lpi_temp (w : StUtils) : bool :=
  match deferredSwitchState w with
  | DEFER_LPI_NLPI_SWITCH => false
  | DEFER_NLPI_LPI_SWITCH => true
  | NO_DEFER => use_lpi_ w
  end.

Definition registerNLPIStream (s : positive) : M unit :=
  upd (λ w, set_mNLPIStreams ({[s]} ∪ mNLPIStreams w) w).
Definition deregisterNLPIStream (s : positive) : M unit :=
  upd (λ w, set_mNLPIStreams (mNLPIStreams w ∖ {[s]}) w).

(** The types of the list with an active stream. *)
Fixpoint types_with_streams (l : list Z) : M (list Z) :=
  match l with
  | [] => ret []
  | t :: l =>
      b <-- has_active t ;;
      l <-- types_with_streams l ;;
      ret (if b then t :: l else l)
  end.

(** What a stream asks for next to the sound trigger streams: [rx_conc], [tx_conc],
    [conc_en] as the code leaves them from [false, false, true]. *)
Definition concurrency_info (type direction : Z) (support_lpi voice_conc_enable : bool)
    : bool * bool * bool :=
  let rx := bool_decide (direction = PAL_AUDIO_OUTPUT) &&
    negb (bool_decide (type = PAL_STREAM_LOW_LATENCY) && negb low_latency_bargein_enable_) &&
    negb (bool_decide (type = PAL_STREAM_SENSOR_PCM_RENDERER)) &&
    negb (bool_decide (type = PAL_STREAM_HAPTICS)) in
  if decide (type = PAL_STREAM_VOICE_CALL) then
    (true, true, concurrent_capture_ && voice_conc_enable)
  else if decide (type = PAL_STREAM_VOIP_TX) then
    (rx, true, concurrent_capture_ && concurrent_voip_call_)
  else if decide (type = PAL_STREAM_ACD ∨ type = PAL_STREAM_SENSOR_PCM_DATA ∨
                  type = PAL_STREAM_VOICE_UI ∨ type = PAL_STREAM_ASR) then
    (rx, negb support_lpi, true)
  else if decide (direction = PAL_AUDIO_INPUT ∧ type ≠ PAL_STREAM_CONTEXT_PROXY) then
    (rx, true, concurrent_capture_ || bool_decide (type = PAL_STREAM_PROXY))
  else if decide (type = PAL_STREAM_LOOPBACK) then
    (true, true, concurrent_capture_)
  else (rx, false, true).

Definition GetConcurrencyInfo (s : positive) : M (bool * bool * bool) :=
  v <-- gets IsVoiceCallConcurrencySupported ;;
  o <-- stream s ;;
  ret (concurrency_info (ss_type o) (ss_direction o) (ss_support_lpi o) v).

(** Under [mActiveStreamMutex]. *)
Definition onChargingStateChange : M unit :=
  temp <-- gets use_lpi_temp ;;
  any <-- has_active PAL_STREAM_VOICE_UI ;;
  if negb any then ret tt
  else
    charging <-- gets charging_state_ ;;
    nlpi <-- gets mNLPIStreams ;;
    let need : option bool :=
      if charging && temp then Some false
      else if negb charging && negb temp then
        (if decide (nlpi = ∅) then Some true else None)
      else None in
    match need with
    | None => ret tt
    | Some temp =>
        st_streams <-- types_with_streams [PAL_STREAM_VOICE_UI; PAL_STREAM_ACD;
          PAL_STREAM_ASR; PAL_STREAM_SENSOR_PCM_DATA] ;;
        b <-- checkAndUpdateDeferSwitchState (negb temp) ;;
        if b then ret tt
        else upd (set_use_lpi_ temp) ;;;; handleConcurrentStreamSwitch st_streams
    end.

Definition onVUIStreamRegistered : M unit :=
  lockActiveStream ;;;;
  charging <-- gets charging_state_ ;;
  if negb charging || negb transit_to_non_lpi_on_charging_ then unlockActiveStream
  else
    st_streams <-- types_with_streams [PAL_STREAM_ACD; PAL_STREAM_SENSOR_PCM_DATA] ;;
    lpi <-- gets use_lpi_ ;;
    (if (lpi : bool) then upd (set_use_lpi_ false) ;;;; handleConcurrentStreamSwitch st_streams
     else ret tt) ;;;;
    unlockActiveStream.

Definition onVUIStreamDeregistered : M unit :=
  lockActiveStream ;;;;
  charging <-- gets charging_state_ ;;
  if negb charging || negb transit_to_non_lpi_on_charging_ then unlockActiveStream
  else
    st_streams <-- types_with_streams [PAL_STREAM_ACD; PAL_STREAM_SENSOR_PCM_DATA] ;;
    lpi <-- gets use_lpi_ ;;
    nlpi <-- gets mNLPIStreams ;;
    (if negb lpi && bool_decide (nlpi = ∅) then
       upd (set_use_lpi_ true) ;;;; handleConcurrentStreamSwitch st_streams
     else ret tt) ;;;;
    unlockActiveStream.

Definition SwitchSoundTriggerDevices (connect_state : bool) (st_device : Z) : M unit :=
  if negb support_device_switch_ then ret tt
  else
    upd (set_SoundTriggerCaptureProfile None) ;;;;
    st_prio <-- GetCaptureProfileByPriority None "va_macro" ;;
    upd (set_TXMacroCaptureProfile None) ;;;;
    tx_prio <-- GetCaptureProfileByPriority None "tx_macro" ;;
    store_common st_prio tx_prio ;;;;
    let '(device_to_connect, device_to_disconnect) :=
      if connect_state then (st_device, PAL_DEVICE_IN_HANDSET_VA_MIC)
      else (PAL_DEVICE_IN_HANDSET_VA_MIC, st_device) in
    lockActiveStream ;;;;
    st_streams <-- types_with_streams [PAL_STREAM_VOICE_UI; PAL_STREAM_ACD;
      PAL_STREAM_ASR; PAL_STREAM_SENSOR_PCM_DATA] ;;
    st_for st_streams (λ t,
      HandleDetectionStreamAction t (ST_HANDLE_DISCONNECT_DEVICE device_to_disconnect) ;;;;
      ret tt) ;;;;
    st_for st_streams (λ t,
      HandleDetectionStreamAction t (ST_HANDLE_CONNECT_DEVICE device_to_connect) ;;;;
      ret tt) ;;;;
    unlockActiveStream.

(** The types of the list that are keys of the map of active streams. *)
Fixpoint types_in_map (l : list Z) : M (list Z) :=
  match l with
  | [] => ret []
  | t :: l =>
      b <-- active_type t ;;
      l <-- types_in_map l ;;
      ret (if b then t :: l else l)
  end.

Definition forceSwitchSoundTriggerStreams (active : bool) : M unit :=
  card <-- gets cardState ;;
  if PAL_CARD_STATUS_DOWN card then ret tt
  else
    lockActiveStream ;;;;
    st_streams <-- types_in_map [PAL_STREAM_VOICE_UI; PAL_STREAM_ACD;
      PAL_STREAM_SENSOR_PCM_DATA] ;;
    b <-- checkAndUpdateDeferSwitchState active ;;
    (if (b : bool) then ret tt else handleConcurrentStreamSwitch st_streams) ;;;;
    unlockActiveStream.

(** The loop on [try_lock] ends without the mutex when the card goes down; a caller
    that holds the mutex itself would spin. *)
Definition stHandleDeferredSwitch : M unit :=
  card <-- gets cardState ;;
  if decide (card ≠ CARD_STATUS_ONLINE) then ret tt
  else
    lockActiveStream ;;;;
    buffering <-- isAnyStreamBuffering ;;
    d <-- gets deferredSwitchState ;;
    (if negb buffering && negb (bool_decide (d = NO_DEFER)) then
       let switch_to_nlpi := bool_decide (d = DEFER_LPI_NLPI_SWITCH) in
       upd (set_use_lpi_ (negb switch_to_nlpi)) ;;;;
       st_streams <-- types_in_map [PAL_STREAM_VOICE_UI; PAL_STREAM_ACD; PAL_STREAM_ASR;
         PAL_STREAM_SENSOR_PCM_DATA] ;;
       handleConcurrentStreamSwitch st_streams ;;;;
       upd (set_deferredSwitchState NO_DEFER) ;;;;
       if switch_to_nlpi then
         l <-- gets mStartDeferredStreams ;;
         st_for l (λ s,
           call s lockStreamMutex ;;;; call s start_l ;;;; call s unlockStreamMutex ;;;;
           ret tt) ;;;;
         upd (set_mStartDeferredStreams [])
       else ret tt
     else ret tt) ;;;;
    unlockActiveStream.

(** The types whose streams are stopped or switched next to another stream. *)
Definition conc_types : list Z :=
  [PAL_STREAM_VOICE_UI; PAL_STREAM_ACD; PAL_STREAM_ASR; PAL_STREAM_SENSOR_PCM_DATA].

(** Whether the streams are to be switched, and to which mode. *)
Definition nlpi_decision (s : positive) (active : bool) : M (option bool) :=
  temp <-- gets use_lpi_temp ;;
  if active then
    registerNLPIStream s ;;;;
    nlpi <-- gets mNLPIStreams ;;
    ret (if bool_decide (nlpi ≠ ∅) && temp then Some false else None)
  else
    deregisterNLPIStream s ;;;;
    nlpi <-- gets mNLPIStreams ;;
    vui <-- active_type PAL_STREAM_VOICE_UI ;;
    charging <-- gets charging_state_ ;;
    ret (if bool_decide (nlpi = ∅) &&
            negb (vui && charging && transit_to_non_lpi_on_charging_)
         then Some true else None).

(** Behind [ResourceManager::ConcurrentStreamStatus]. *)
Definition HandleConcurrencyForSoundTriggerStreams (s : positive) (active : bool) : M unit :=
  lockActiveStream ;;;;
  info <-- GetConcurrencyInfo s ;;
  let '(rx_conc, tx_conc, conc_en) := info in
  (if (tx_conc : bool) then
     n <-- gets TxconcurrencyEnableCount ;;
     if active then upd (set_TxconcurrencyEnableCount (n + 1))
     else if decide (n > 0) then upd (set_TxconcurrencyEnableCount (n - 1)) else ret tt
   else ret tt) ;;;;
  switch <-- (if conc_en && (rx_conc || tx_conc) && support_nlpi_switch_
              then nlpi_decision s active else ret None) ;;
  n <-- gets concurrencyDisableCount ;;
  let notify_resources_available :=
    negb conc_en && negb active && bool_decide (n = 1) in
  (if (conc_en : bool) then ret tt
   else st_for conc_types (λ t, HandleStreamPauseResume t active)) ;;;;
  match switch with
  | None => ret tt
  | Some temp =>
      b <-- checkAndUpdateDeferSwitchState active ;;
      if (b : bool) then ret tt
      else upd (set_use_lpi_ temp) ;;;; handleConcurrentStreamSwitch conc_types
  end ;;;;
  unlockActiveStream ;;;;
  cbs <-- gets onResourceAvailCbList ;;
  if notify_resources_available then st_for cbs (λ '(cb, cookie), log (EvResourceAvailable cb cookie))
  else ret tt.

(** ** Small operations *)

Definition CheckForForcedTransitToNonLPI : M bool :=
  gets (λ w, transit_to_non_lpi_on_charging_ && charging_state_ w).

Definition isTxConcurrencyActive : M bool :=
  gets (λ w, bool_decide (0 < TxconcurrencyEnableCount w)).

Definition getLPIUsage : M bool := gets use_lpi_.

Definition getSTDeferedSwitchState : M defer_switch_state_t :=
  lockActiveStream ;;;; d <-- gets deferredSwitchState ;; unlockActiveStream ;;;; ret d.

Definition updateDeferredSTStreams (s : positive) (active : bool) : M unit :=
  lockActiveStream ;;;;
  upd (λ w, set_mStartDeferredStreams
    (if active then mStartDeferredStreams w ++ [s]
     else filter (λ x, x ≠ s) (mStartDeferredStreams w)) w) ;;;;
  unlockActiveStream.

Definition RegisterSTCaptureHandle (capture_handle pal_handle : Z) (start : bool) : M unit :=
  upd (λ w, set_mStCaptureInfo
    (if start then <[capture_handle := pal_handle]> (mStCaptureInfo w)
     else delete capture_handle (mStCaptureInfo w)) w).

(** [getSTParameter] for PAL_PARAM_ID_ST_CAPTURE_INFO: the handle written back, if
    there is one. *)
Definition getSTCaptureInfo (capture_handle : Z) : M (option Z) :=
  gets (λ w, mStCaptureInfo w !! capture_handle).

Definition setSTParameter (param : st_param) : M Z :=
  match param with
  | PARAM_CHARGING_STATE size_ok state =>
      if negb transit_to_non_lpi_on_charging_ then ret 0
      else if negb size_ok then ret (- EINVAL)
      else
        charging <-- gets charging_state_ ;;
        if bool_decide (charging = state) then ret 0
        else
          upd (set_charging_state_ state) ;;;;
          lockActiveStream ;;;; onChargingStateChange ;;;; unlockActiveStream ;;;;
          ret 0
  | PARAM_RESOURCES_AVAILABLE None => ret (- EINVAL)
  | PARAM_RESOURCES_AVAILABLE (Some cb) =>
      l <-- gets onResourceAvailCbList ;;
      (if decide (cb ∈ l) then ret tt else upd (set_onResourceAvailCbList (l ++ [cb]))) ;;;;
      ret 0
  | PARAM_UNKNOWN => ret (- ENOENT)
  end.

(** ** Restart requests of the voice UI manager *)

(** [getMatchingStreams]: the streams of the list with the UUID; a stream that
    does not answer is passed over. *)
Fixpoint getMatchingStreams (l : list positive) (uuid : list Z) : M (list positive) :=
  match l with
  | [] => ret []
  | s :: l =>
      stream s ;;;;
      r <-- gets (vendor_uuid s) ;;
      rest <-- getMatchingStreams l uuid ;;
      ret (if decide (r.1 = 0 ∧ r.2 = uuid) then s :: rest else rest)
  end.

(** The list of active streams is not cleared between two use cases. *)
Fixpoint matching_usecases (ucs : list (Z * list Z)) (activeStreams streams : list positive)
    : M (list positive) :=
  match ucs with
  | [] => ret streams
  | (type, uuid) :: ucs =>
      lockActiveStream ;;;;
      l <-- getActiveStreamByType_l type ;;
      unlockActiveStream ;;;;
      let activeStreams := activeStreams ++ l in
      if decide (activeStreams = []) then ret streams
      else
        m <-- getMatchingStreams activeStreams uuid ;;
        matching_usecases ucs activeStreams (streams ++ m)
  end.

Fixpoint restart_streams (l : list positive) (status : Z) : M Z :=
  match l with
  | [] => ret status
  | s :: l =>
      call s ssrDownHandler ;;;;
      status <-- call s ssrUpHandler ;;
      restart_streams l status
  end.

Definition voiceuiDmgrRestartUseCases (usecases : list (Z * list Z)) : M Z :=
  streams <-- matching_usecases usecases [] [] ;;
  restart_streams streams 0.

(** ** Life of a stream, as far as this file is concerned

    Creation and destruction register a stream and, for the first and last voice UI
    stream, switch the mode on a charger
    ([StreamSoundTrigger::StreamSoundTrigger], [~StreamSoundTrigger]). *)

Definition create_stream (s : positive) (o : StStream) : M unit :=
  upd (λ w, set_su_streams (<[s := o]> (su_streams w)) w) ;;;;
  upd (λ w, set_su_users (registerStream s (Some (ss_type o)) (su_users w)).2 w) ;;;;
  if decide (ss_type o = PAL_STREAM_VOICE_UI) then
    l <-- getActiveStreamByType_l PAL_STREAM_VOICE_UI ;;
    if decide (length l = 1%nat) then onVUIStreamRegistered else ret tt
  else ret tt.

Definition destroy_stream (s : positive) : M unit :=
  o <-- stream s ;;
  upd (λ w, set_su_users (deregisterStream s (Some (ss_type o)) (su_users w)).2 w) ;;;;
  (if decide (ss_type o = PAL_STREAM_VOICE_UI) then
     l <-- getActiveStreamByType_l PAL_STREAM_VOICE_UI ;;
     if decide (l = []) then onVUIStreamDeregistered else ret tt
   else ret tt) ;;;;
  upd (λ w, set_su_streams (delete s (su_streams w)) w).
End stutils.

(** The variables as they are initialised; the resource manager has no stream. *)
Definition su_init : StUtils :=
  mkSu 0 0 0 0 0 NO_DEFER (-1) None None ∅ ∅ [] [] true false users_init false
    CARD_STATUS_ONLINE false ∅ [].

(** ** Histories

    The calls of other components, one after the other; [OpStreamState] is a stream
    that changes its state of its own, [OpRegisterNLPI], [OpDeregisterNLPI] and
    [OpForceSwitch] are the calls of speech recognition streams
    ([StreamASR::GetCurrentCaptureProfile], [SetRecognitionConfig] and the stop in
    [ASRActive::ProcessEvent]), [OpCard] and [OpCRS] are the resource manager's
    ([setCRSCallEnabled]). *)
Inductive su_op :=
  | OpCreate (s : positive) (o : StStream)
  | OpDestroy (s : positive)
  | OpConcurrency (s : positive) (active : bool)
  | OpParameter (p : st_param)
  | OpDeferredSwitch
  | OpDeferStart (s : positive) (active : bool)
  | OpStreamState (s : positive) (active buffering : bool)
  | OpRegisterNLPI (s : positive)
  | OpDeregisterNLPI (s : positive)
  | OpForceSwitch (active : bool)
  | OpCard (c : card_status_t)
  | OpCRS (enabled : bool).

Definition su_step `{StuEnv} (op : su_op) : St StUtils unit :=
  match op with
  | OpCreate s o => create_stream s o
  | OpDestroy s => destroy_stream s
  | OpConcurrency s active => HandleConcurrencyForSoundTriggerStreams s active
  | OpParameter p => st_bind (setSTParameter p) (λ _, st_ret tt)
  | OpDeferredSwitch => stHandleDeferredSwitch
  | OpDeferStart s active => updateDeferredSTStreams s active
  | OpStreamState s active buffering => st_modify (λ w, set_su_streams
      (alter (λ o, mkStStream (ss_type o) (ss_direction o) active buffering (ss_support_lpi o))
         s (su_streams w)) w)
  | OpRegisterNLPI s => registerNLPIStream s
  | OpDeregisterNLPI s => deregisterNLPIStream s
  | OpForceSwitch active => forceSwitchSoundTriggerStreams active
  | OpCard c => st_modify (set_cardState c)
  | OpCRS enabled => st_modify (set_isCRSCallEnabled enabled)
  end.

Definition su_history `{StuEnv} (ops : list su_op) : St StUtils unit := st_for ops su_step.
