(* ===== verification/STUtilsFacts.v ===== *)
(** * LPI policy of the sound trigger streams: lemmas

    What quiet streams may change while they handle a call ([StuLaws]), the calls an
    action makes, and that the registry of streams stays well formed. *)

From S2P Require Import Prelude PalDefs Users CaptureProfile STUtils.

(** ** What a call of a stream may change *)

(** The part of a stream that is fixed while it exists. *)
Definition core (o : StStream) : Z * Z * bool :=
  (ss_type o, ss_direction o, ss_support_lpi o).

Definition same_streams (m m' : gmap positive StStream) : Prop :=
  ∀ s, core <$> m !! s = core <$> m' !! s.

Definition is_call (e : SuEvent) : Prop := match e with EvCall _ _ => True | _ => False end.

(** The log of a sequence of calls: a stream that handles one may call others meanwhile
    ([StreamSoundTrigger], [StreamACD] and [StreamSensorPCMData] stop and start the other
    detection streams when the common capture profile changes); those calls stand between
    the call and the next one of the sequence. *)
Inductive with_nested : list SuEvent → list SuEvent → Prop :=
  | wn_nil : with_nested [] []
  | wn_cons e nested evs log :
      Forall is_call nested → with_nested evs log → with_nested (e :: evs) (e :: nested ++ log).

(** The events [evs] were logged, with the calls their handlers made; besides, only
    capture profiles and the changing part of streams differ. *)
Definition touched (evs : list SuEvent) (w w' : StUtils) : Prop :=
  ∃ st tx m log, same_streams (su_streams w) m ∧ with_nested evs log ∧
    w' = set_su_log (su_log w ++ log) (set_su_streams m
           (set_TXMacroCaptureProfile tx (set_SoundTriggerCaptureProfile st w))).

(** The streams that do not use the switching functions when they are called: not a
    speech recognition stream, which (de)registers itself in [mNLPIStreams] and forces a
    switch, and not a sensor stream in normal power, whose [Pause] ends in
    [updateDeferredSTStreams]. *)
Definition quiet (o : StStream) : Prop :=
  ss_type o ≠ PAL_STREAM_ASR ∧
  (ss_type o = PAL_STREAM_SENSOR_PCM_DATA → ss_support_lpi o = true).

Definition all_quiet (w : StUtils) : Prop := ∀ s o, su_streams w !! s = Some o → quiet o.

(** When all streams are quiet, a stream's handling of a call ends and, apart from calls of
    other streams, only changes capture profiles and states of streams; so it does not
    (de)register streams, and while it has released [mActiveStreamMutex] for a call back
    of its client nothing else runs. A stream asked for its profile calls nobody. *)
Class StuLaws `{StuEnv} : Prop := {
  stream_call_touched : ∀ s c w, all_quiet w →
    ∃ r w' st tx m nested, stream_call s c w = Some (r, w') ∧
      same_streams (su_streams w) m ∧ Forall is_call nested ∧
      w' = set_su_log (su_log w ++ nested) (set_su_streams m
             (set_TXMacroCaptureProfile tx (set_SoundTriggerCaptureProfile st w)));
  stream_profile_touched : ∀ s w, all_quiet w →
    ∃ r w', stream_profile s w = Some (r, w') ∧ touched [] w w';
}.

#[export] Instance same_streams_refl : Reflexive same_streams.
Proof. by intros m s. Qed.
#[export] Instance same_streams_trans : Transitive same_streams.
Proof. intros m1 m2 m3 H1 H2 s. by rewrite H1. Qed.

Lemma with_nested_app e1 e2 l1 l2 :
  with_nested e1 l1 → with_nested e2 l2 → with_nested (e1 ++ e2) (l1 ++ l2).
Proof.
  induction 1 as [|e n evs log Hn _ IH]; intros H2; [done|].
  simpl. rewrite <-app_assoc. constructor; auto.
Qed.

Lemma with_nested_nil_inv l : with_nested [] l → l = [].
Proof. by inversion 1. Qed.

Lemma touched_refl w : touched [] w w.
Proof.
  exists (SoundTriggerCaptureProfile w), (TXMacroCaptureProfile w), (su_streams w), [].
  split; [done|]. split; [constructor|]. destruct w; su_cbv. by rewrite app_nil_r.
Qed.

Lemma touched_trans e1 e2 w1 w2 w3 :
  touched e1 w1 w2 → touched e2 w2 w3 → touched (e1 ++ e2) w1 w3.
Proof.
  intros (st1&tx1&m1&l1&H1&Hl1&->) (st2&tx2&m2&l2&H2&Hl2&->).
  exists st2, tx2, m2, (l1 ++ l2). destruct w1; su_cbv in *.
  split; [by etrans|]. split; [by apply with_nested_app|]. by rewrite app_assoc.
Qed.

Lemma touched_trans_nil_r e w1 w2 w3 :
  touched e w1 w2 → touched [] w2 w3 → touched e w1 w3.
Proof. intros H1 H2. rewrite <-(app_nil_r e). by eapply touched_trans. Qed.
Lemma touched_trans_nil_l e w1 w2 w3 :
  touched [] w1 w2 → touched e w2 w3 → touched e w1 w3.
Proof. exact (touched_trans [] e w1 w2 w3). Qed.

Lemma touched_fields e w w' :
  touched e w w' →
  su_users w' = su_users w ∧ active_stream_locked w' = active_stream_locked w ∧
  (∃ l, with_nested e l ∧ su_log w' = su_log w ++ l) ∧
  same_streams (su_streams w) (su_streams w').
Proof. intros (?&?&?&l&?&?&->). destruct w. split; [done|]. split; [done|]. split; [by exists l|done]. Qed.

Lemma same_streams_quiet w w' :
  same_streams (su_streams w) (su_streams w') → all_quiet w → all_quiet w'.
Proof.
  intros Hs Hq s o' Ho'. specialize (Hs s). rewrite Ho' in Hs.
  destruct (su_streams w !! s) as [o|] eqn:Ho; [|discriminate].
  specialize (Hq s o Ho). unfold quiet, core in *. simpl in Hs.
  injection Hs as E1 _ E3. by rewrite <-E1, <-E3.
Qed.

Lemma touched_users e w w' : touched e w w' → su_users w' = su_users w.
Proof. intros H%touched_fields. apply H. Qed.
Lemma touched_streams e w w' : touched e w w' → same_streams (su_streams w) (su_streams w').
Proof. intros H%touched_fields. apply H. Qed.

(** ** The registry *)

Definition type_of (w : StUtils) (s : positive) : option Z := ss_type <$> su_streams w !! s.

(** The active streams of a type, in the order of their registration. *)
Definition streams_of (t : Z) (w : StUtils) : list positive :=
  filter (λ s, type_of w s = Some t) (mActiveStreams (su_users w)).

Record reg_wf (w : StUtils) : Prop := {
  reg_nodup : NoDup (mActiveStreams (su_users w));
  reg_alive : ∀ s, s ∈ mActiveStreams (su_users w) → is_Some (su_streams w !! s);
  reg_map : ∀ t, activeStreamMap (su_users w) !! t =
    if decide (streams_of t w = []) then None else Some (streams_of t w);
}.

(** The registry is well formed and all streams are quiet. *)
Record reg_ok (w : StUtils) : Prop := {
  reg_ok_wf :> reg_wf w;
  reg_quiet : all_quiet w;
}.

Lemma same_streams_type m m' s :
  same_streams m m' → ss_type <$> m !! s = ss_type <$> m' !! s.
Proof.
  intros H. specialize (H s). destruct (m !! s), (m' !! s); simpl in *; try discriminate; [|done].
  injection H as H _ _. by rewrite H.
Qed.

Lemma touched_type e w w' s : touched e w w' → type_of w' s = type_of w s.
Proof. intros H%touched_streams. symmetry. by apply same_streams_type. Qed.

Lemma touched_streams_of e w w' t : touched e w w' → streams_of t w' = streams_of t w.
Proof.
  intros H. unfold streams_of. rewrite (touched_users _ _ _ H).
  apply list_filter_iff. intros s. by rewrite (touched_type _ _ _ _ H).
Qed.

Lemma touched_reg_ok e w w' : touched e w w' → reg_ok w → reg_ok w'.
Proof.
  intros H [[Hn Ha Hm] Hq].
  split; [|by eapply same_streams_quiet, Hq; eapply touched_streams].
  split; rewrite ?(touched_users _ _ _ H); [done| |].
  - intros s Hs. destruct (Ha s Hs) as [o Ho].
    pose proof (touched_streams _ _ _ H s) as E. rewrite Ho in E. simpl in E.
    destruct (su_streams w' !! s); [eauto|discriminate].
  - intros t. by rewrite Hm, (touched_streams_of _ _ _ _ H).
Qed.

Lemma elem_of_streams_of t w s :
  s ∈ streams_of t w ↔ s ∈ mActiveStreams (su_users w) ∧ type_of w s = Some t.
Proof. unfold streams_of. rewrite list_elem_of_filter. tauto. Qed.

(** ** The calls of an action *)

Definition action_call (a : st_action) : SuCall :=
  match a with
  | ST_PAUSE _ => Pause false | ST_RESUME _ => Resume false
  | ST_HANDLE_CONCURRENT_STREAM enable => HandleConcurrentStream enable
  | ST_HANDLE_DISCONNECT_DEVICE d => DisconnectDevice d
  | ST_HANDLE_CONNECT_DEVICE d => ConnectDevice d
  | ST_INTERNAL_PAUSE _ => Pause true | ST_INTERNAL_RESUME _ => Resume true
  end.

Definition action_skip (a : st_action) : option positive :=
  match a with
  | ST_PAUSE d | ST_RESUME d | ST_INTERNAL_PAUSE d | ST_INTERNAL_RESUME d => d
  | _ => None
  end.

(** One call for each stream of the list but the one left out. *)
Definition action_events (a : st_action) (l : list positive) : list SuEvent :=
  (λ s, EvCall s (action_call a)) <$> filter (λ s, Some s ≠ action_skip a) l.

Lemma action_events_cons a s l :
  action_events a (s :: l) = action_events a [s] ++ action_events a l.
Proof. unfold action_events. rewrite !filter_cons, filter_nil. by case_decide. Qed.

Section laws.
Context `{StuLaws}.

Lemma wp_call s c w :
  all_quiet w → is_Some (su_streams w !! s) →
  st_wp (call s c) (λ _ w', touched [EvCall s c] w w') w.
Proof.
  intros Hq [o Ho]. unfold call. apply st_wp_bind. exists o, w. split.
  { unfold stream. by rewrite Ho. }
  apply st_wp_bind, st_wp_modify.
  destruct (stream_call_touched s c (set_su_log (su_log w ++ [EvCall s c]) w))
    as (r&w'&st&tx&m&l&E&Hm&Hl&->); [exact Hq|].
  exists r; eexists. split; [exact E|]. exists st, tx, m, (EvCall s c :: l).
  split; [exact Hm|]. split.
  - rewrite <-(app_nil_r l). by repeat constructor.
  - destruct w; su_cbv. by rewrite <-app_assoc.
Qed.

Lemma stream_action_eq a s n :
  stream_action a s n =
    if decide (Some s = action_skip a) then st_ret n else call s (action_call a).
Proof. by destruct a. Qed.

Lemma wp_stream_action a s n w :
  all_quiet w → is_Some (su_streams w !! s) →
  st_wp (stream_action a s n) (λ _ w', touched (action_events a [s]) w w') w.
Proof.
  intros Hq Hs. rewrite stream_action_eq. unfold action_events. rewrite filter_cons, filter_nil.
  case_decide; [rewrite decide_False by tauto|rewrite decide_True by done].
  - apply st_wp_ret, touched_refl.
  - by apply wp_call.
Qed.

Lemma touched_exists e w w' s :
  touched e w w' → is_Some (su_streams w !! s) → is_Some (su_streams w' !! s).
Proof.
  intros Ht [o Ho]. pose proof (touched_streams _ _ _ Ht s) as E. rewrite Ho in E.
  destruct (su_streams w' !! s); [eauto|discriminate].
Qed.

Lemma wp_action_loop t a l n w :
  reg_ok w → (∀ s, s ∈ l → s ∈ mActiveStreams (su_users w)) →
  st_wp (action_loop t a l n)
    (λ _ w', touched (action_events a (filter (λ s, type_of w s = Some t) l)) w w') w.
Proof.
  revert n w. induction l as [|s l IH]; intros n w Hreg Hl; simpl.
  { apply st_wp_ret, touched_refl. }
  apply st_wp_bind, st_wp_gets. unfold isStreamActive.
  rewrite bool_decide_eq_true_2 by (apply Hl; set_solver). cbn [negb].
  destruct (reg_alive w Hreg s) as [o Ho]; [apply Hl; set_solver|].
  apply st_wp_bind. exists o, w. split; [unfold stream; by rewrite Ho|].
  assert (type_of w s = Some (ss_type o)) as Hty by (unfold type_of; by rewrite Ho).
  rewrite filter_cons.
  destruct (decide (ss_type o = t)) as [<-|Ht].
  - rewrite decide_False by tauto. rewrite decide_True by done. rewrite action_events_cons.
    apply st_wp_bind. eapply st_wp_mono; [apply wp_stream_action; [exact (reg_quiet w Hreg)|eauto]|].
    intros r w1 Ht1. cbn beta in Ht1. eapply st_wp_mono.
    + apply IH; [by eapply touched_reg_ok|].
      intros x Hx. rewrite (touched_users _ _ _ Ht1). set_solver.
    + intros r2 w2 Ht2. simpl in *. eapply touched_trans; [done|].
      replace (filter (λ s, type_of w s = Some (ss_type o)) l)
        with (filter (λ s, type_of w1 s = Some (ss_type o)) l); [done|].
      apply list_filter_iff. intros x. by rewrite (touched_type _ _ _ _ Ht1).
  - rewrite decide_True by done. rewrite decide_False by congruence. apply IH; [done|set_solver].
Qed.

Lemma wp_HandleDetectionStreamAction t a w :
  reg_ok w →
  st_wp (HandleDetectionStreamAction t a)
    (λ _ w', touched (action_events a (streams_of t w)) w w') w.
Proof.
  intros Hreg. unfold HandleDetectionStreamAction, active_type.
  apply st_wp_bind, st_wp_gets. rewrite (reg_map w Hreg).
  case_match eqn:E.
  - apply st_wp_ret. apply andb_prop in E as [_ E].
    case_decide as Hnil; [|by rewrite bool_decide_eq_true_2 in E by eauto].
    rewrite Hnil. apply touched_refl.
  - apply st_wp_bind, st_wp_gets. by apply wp_action_loop.
Qed.

(** ** Programs that only look at streams *)

Lemma wp_stream s w (Q : StStream → StUtils → Prop) :
  is_Some (su_streams w !! s) → (∀ o, su_streams w !! s = Some o → Q o w) →
  st_wp (stream s) Q w.
Proof. intros [o Ho] HQ. exists o, w. split; [unfold stream; by rewrite Ho|by apply HQ]. Qed.

(** Every stream the registry knows exists. *)
Definition alive (w : StUtils) (l : list positive) : Prop :=
  ∀ s, s ∈ l → is_Some (su_streams w !! s).

Lemma alive_cons w s l : alive w (s :: l) → is_Some (su_streams w !! s) ∧ alive w l.
Proof. intros Ha. split; [apply Ha; set_solver|intros x ?; apply Ha; set_solver]. Qed.

Lemma touched_all_exist e w w' l : touched e w w' → alive w l → alive w' l.
Proof. intros ? Ha s Hs. eapply touched_exists; eauto. Qed.

Lemma reg_ok_alive w : reg_ok w → alive w (mActiveStreams (su_users w)).
Proof. intros Hreg s. apply Hreg. Qed.

Lemma reg_ok_alive_type w t :
  reg_ok w → alive w (default [] (activeStreamMap (su_users w) !! t)).
Proof.
  intros Hreg s. rewrite (reg_map w Hreg). case_decide; simpl; [set_solver|].
  rewrite elem_of_streams_of. intros [? _]. by apply Hreg.
Qed.

Lemma wp_any_buffering l w :
  alive w l → st_wp (any_buffering l) (λ _ w', w' = w) w.
Proof.
  induction l as [|s l IH]; simpl; [by intros; apply st_wp_ret|].
  intros [Hs Hl]%alive_cons. apply st_wp_bind, wp_stream; [done|].
  intros o _. destruct (ss_buffering o); [by apply st_wp_ret|by apply IH].
Qed.

Lemma wp_isAnyStreamBuffering w :
  reg_ok w → st_wp isAnyStreamBuffering (λ _ w', w' = w) w.
Proof.
  intros Hreg. apply st_wp_bind, st_wp_gets. by apply wp_any_buffering, reg_ok_alive.
Qed.

Lemma wp_profile_loop check skip s backend l p w :
  all_quiet w → alive w l →
  st_wp (profile_loop check skip s backend l p) (λ _ w', touched [] w w') w.
Proof.
  revert p w. induction l as [|str l IH]; intros p w; cbn [profile_loop].
  { intros _ _. apply st_wp_ret, touched_refl. }
  intros Hq [Hs Hl]%alive_cons. case_decide; [by apply IH|].
  apply st_wp_bind, wp_stream; [done|]. intros o _.
  destruct (check && negb (ss_active o)); [by apply IH|].
  destruct (stream_profile_touched str w Hq) as (r&w1&E&Ht).
  apply st_wp_bind. exists r, w1. split; [done|].
  assert (∀ q, st_wp (profile_loop check skip s backend l q) (λ _ w', touched [] w w') w1).
  { intros q. eapply st_wp_mono; [eapply IH; [|by eapply touched_all_exist]|].
    { by eapply same_streams_quiet, Hq; eapply touched_streams. }
    intros ? w2 ?. by eapply touched_trans_nil_l. }
  destruct r as [cap|]; [|done]. by destruct (skip cap).
Qed.

Lemma wp_profile_by_type t check skip s backend p w :
  reg_ok w →
  st_wp (st_bind (getActiveStreamByType_l t) (λ l, profile_loop check skip s backend l p))
    (λ _ w', touched [] w w') w.
Proof.
  intros Hreg. apply st_wp_bind, st_wp_gets.
  apply wp_profile_loop; [exact (reg_quiet w Hreg)|by apply reg_ok_alive_type].
Qed.

Lemma wp_seq_touched {A B} (m : St StUtils A) (k : A → St StUtils B) e w
    (Q : B → StUtils → Prop) :
  reg_ok w →
  st_wp m (λ _ w', touched e w w') w →
  (∀ a w', reg_ok w' → touched e w w' → st_wp (k a) Q w') →
  st_wp (st_bind m k) Q w.
Proof.
  intros Hreg Hm Hk. apply st_wp_bind. eapply st_wp_mono; [done|].
  intros a w' Ht. cbn beta in Ht. apply Hk; [by eapply touched_reg_ok|done].
Qed.

Lemma wp_GetCaptureProfileByPriority s backend w :
  reg_ok w →
  st_wp (GetCaptureProfileByPriority s backend) (λ _ w', touched [] w w') w.
Proof.
  intros Hreg.
  eapply wp_seq_touched; [done|by apply wp_profile_by_type|intros p1 w1 Hr1 Ht1].
  eapply wp_seq_touched; [done|by apply wp_profile_by_type|intros p2 w2 Hr2 Ht2].
  eapply wp_seq_touched; [done|by apply wp_profile_by_type|intros p3 w3 Hr3 Ht3].
  eapply st_wp_mono; [by apply wp_profile_by_type|intros p4 w4 Ht4].
  do 3 (eapply touched_trans_nil_l; [done|]). done.
Qed.

Lemma wp_upd f w (Q : unit → StUtils → Prop) : Q tt (f w) → st_wp (st_modify f) Q w.
Proof. apply st_wp_modify. Qed.

Lemma touched_profiles st tx w :
  touched [] w (set_TXMacroCaptureProfile tx (set_SoundTriggerCaptureProfile st w)).
Proof.
  exists st, tx, (su_streams w), []. split; [done|]. split; [constructor|].
  destruct w; su_cbv. by rewrite app_nil_r.
Qed.
Lemma touched_st_profile st w : touched [] w (set_SoundTriggerCaptureProfile st w).
Proof. pose proof (touched_profiles st (TXMacroCaptureProfile w) w) as Hp. by destruct w. Qed.
Lemma touched_tx_profile tx w : touched [] w (set_TXMacroCaptureProfile tx w).
Proof. pose proof (touched_profiles (SoundTriggerCaptureProfile w) tx w) as Hp. by destruct w. Qed.

Lemma wp_store_common p q w : st_wp (store_common p q) (λ _ w', touched [] w w') w.
Proof.
  apply st_wp_bind, st_wp_gets, st_wp_bind, st_wp_gets.
  destruct (update_common p _) as [st b], (update_common q _) as [tx b'].
  apply st_wp_bind, st_wp_modify, st_wp_bind, st_wp_modify, st_wp_ret.
  apply touched_profiles.
Qed.

(** Recomputing the common profiles, as three functions do it. *)
Lemma wp_recompute_profiles {A} (k : bool → St StUtils A) (Q : A → StUtils → Prop) w :
  reg_ok w →
  (∀ b w', reg_ok w' → touched [] w w' → st_wp (k b) Q w') →
  st_wp (st_bind (st_modify (set_SoundTriggerCaptureProfile None)) (λ _,
         st_bind (GetCaptureProfileByPriority None "va_macro") (λ st_prio,
         st_bind (st_modify (set_TXMacroCaptureProfile None)) (λ _,
         st_bind (GetCaptureProfileByPriority None "tx_macro") (λ tx_prio,
         st_bind (store_common st_prio tx_prio) k))))) Q w.
Proof.
  intros Hreg Hk.
  eapply wp_seq_touched; [done|apply st_wp_modify, touched_st_profile|intros _ w1 Hr1 Ht1].
  eapply wp_seq_touched; [done|by apply wp_GetCaptureProfileByPriority|intros p w2 Hr2 Ht2].
  eapply wp_seq_touched; [done|apply st_wp_modify, touched_tx_profile|intros _ w3 Hr3 Ht3].
  eapply wp_seq_touched; [done|by apply wp_GetCaptureProfileByPriority|intros q w4 Hr4 Ht4].
  eapply wp_seq_touched; [done|apply wp_store_common|intros b w5 Hr5 Ht5].
  apply Hk; [done|]. do 4 (eapply touched_trans_nil_l; [done|]). done.
Qed.

(** ** The switch *)

(** An action over the streams of several types. *)
Lemma wp_for_types types a w :
  reg_ok w →
  st_wp (st_for types (λ t, st_bind (HandleDetectionStreamAction t a) (λ _, st_ret tt)))
    (λ _ w', touched (flat_map (λ t, action_events a (streams_of t w)) types) w w') w.
Proof.
  revert w. induction types as [|t types IH]; intros w Hreg; simpl.
  { apply st_wp_ret, touched_refl. }
  apply st_wp_bind. eapply wp_seq_touched; [done|by apply wp_HandleDetectionStreamAction|].
  intros _ w1 Hr1 Ht1. apply st_wp_ret.
  eapply st_wp_mono; [by apply IH|]. intros ? w2 Ht2. simpl in Ht2.
  eapply touched_trans; [done|]. erewrite flat_map_ext; [done|].
  intros t'. simpl. by rewrite (touched_streams_of _ _ _ _ Ht1).
Qed.

(** The calls of a switch: every stream of the types stops, then every one starts. *)
Definition switch_events (types : list Z) (w : StUtils) : list SuEvent :=
  flat_map (λ t, action_events (ST_HANDLE_CONCURRENT_STREAM false) (streams_of t w)) types ++
  flat_map (λ t, action_events (ST_HANDLE_CONCURRENT_STREAM true) (streams_of t w)) types.

Lemma wp_handleConcurrentStreamSwitch types w :
  reg_ok w →
  st_wp (handleConcurrentStreamSwitch types)
    (λ _ w', touched (switch_events types w) w w') w.
Proof.
  intros Hreg. unfold handleConcurrentStreamSwitch.
  eapply (wp_seq_touched _ _ []); [done| |intros _ w1 Hr1 Ht1].
  { case_decide; [apply st_wp_ret, touched_refl|].
    apply wp_recompute_profiles; [done|]. intros b w' _ Ht. by apply st_wp_ret. }
  eapply wp_seq_touched; [done|by apply wp_for_types|intros _ w2 Hr2 Ht2].
  eapply st_wp_mono; [by apply wp_for_types|]. intros ? w3 Ht3. simpl in Ht3.
  eapply touched_trans_nil_l; [done|]. unfold switch_events.
  assert (∀ a, flat_map (λ t, action_events a (streams_of t w1)) types =
               flat_map (λ t, action_events a (streams_of t w)) types) as E1.
  { intros b. apply flat_map_ext. intros t. by rewrite (touched_streams_of _ _ _ _ Ht1). }
  assert (∀ a, flat_map (λ t, action_events a (streams_of t w2)) types =
               flat_map (λ t, action_events a (streams_of t w1)) types) as E2.
  { intros b. apply flat_map_ext. intros t. by rewrite (touched_streams_of _ _ _ _ Ht2). }
  rewrite <-!E1. rewrite E2 in Ht3. by eapply touched_trans.
Qed.

(** ** The mode and its deferral *)

(** What no switch changes. *)
Definition kept (w w' : StUtils) : Prop :=
  su_users w' = su_users w ∧ active_stream_locked w' = active_stream_locked w ∧
  mNLPIStreams w' = mNLPIStreams w ∧ charging_state_ w' = charging_state_ w ∧
  mStartDeferredStreams w' = mStartDeferredStreams w ∧
  same_streams (su_streams w) (su_streams w').

Definition same_mode (w w' : StUtils) : Prop :=
  deferredSwitchState w' = deferredSwitchState w ∧ use_lpi_ w' = use_lpi_ w.

Lemma kept_refl w : kept w w.
Proof. by split_and!. Qed.
Lemma kept_trans w1 w2 w3 : kept w1 w2 → kept w2 w3 → kept w1 w3.
Proof. intros (?&?&?&?&?&?) (?&?&?&?&?&?). split_and!; first [congruence|by etrans]. Qed.

Lemma touched_kept e w w' : touched e w w' → kept w w' ∧ same_mode w w'.
Proof. intros (?&?&?&?&?&_&->). destruct w. by split_and!. Qed.

Lemma kept_type w w' s : kept w w' → type_of w' s = type_of w s.
Proof. intros (_&_&_&_&_&Hs). symmetry. by apply same_streams_type. Qed.

Lemma kept_streams_of w w' t : kept w w' → streams_of t w' = streams_of t w.
Proof.
  intros Hk. unfold streams_of. rewrite (proj1 Hk).
  apply list_filter_iff. intros s. by rewrite (kept_type _ _ _ Hk).
Qed.

Lemma kept_alive w w' l : kept w w' → alive w l → alive w' l.
Proof.
  intros (_&_&_&_&_&Hs) Ha s Hl. destruct (Ha s Hl) as [o Ho]. specialize (Hs s).
  rewrite Ho in Hs. destruct (su_streams w' !! s); [eauto|discriminate].
Qed.

Lemma kept_reg_ok w w' : kept w w' → reg_ok w → reg_ok w'.
Proof.
  intros Hk Hreg. split; [split|]; rewrite ?(proj1 Hk).
  - apply Hreg.
  - by eapply kept_alive, reg_ok_alive.
  - intros t. by rewrite (reg_map w Hreg), (kept_streams_of _ _ _ Hk).
  - eapply same_streams_quiet; [apply Hk|exact (reg_quiet w Hreg)].
Qed.

(** The registry depends on two fields. *)
Lemma reg_ok_ext w w' :
  su_users w' = su_users w → su_streams w' = su_streams w → reg_ok w → reg_ok w'.
Proof.
  intros E1 E2 Hreg.
  destruct Hreg as [[H1 H2 H3] H4]. split; [split|]; unfold streams_of, type_of, all_quiet in *;
    by rewrite ?E1, ?E2.
Qed.

(** A deferral is a switch away from the current mode. *)
Definition consistent (w : StUtils) : Prop :=
  match deferredSwitchState w with
  | NO_DEFER => True
  | DEFER_LPI_NLPI_SWITCH => use_lpi_ w = true
  | DEFER_NLPI_LPI_SWITCH => use_lpi_ w = false
  end.

Definition cancelled_by (active : bool) : defer_switch_state_t :=
  if active then DEFER_NLPI_LPI_SWITCH else DEFER_LPI_NLPI_SWITCH.
Definition deferred_by (active : bool) : defer_switch_state_t :=
  if active then DEFER_LPI_NLPI_SWITCH else DEFER_NLPI_LPI_SWITCH.

Lemma active_type_spec w t (Q : bool → StUtils → Prop) :
  reg_ok w → Q (bool_decide (streams_of t w ≠ [])) w → st_wp (active_type t) Q w.
Proof.
  intros Hreg HQ. apply st_wp_gets. rewrite (reg_map w Hreg).
  replace (bool_decide _) with (bool_decide (streams_of t w ≠ [])); [done|].
  apply bool_decide_ext. case_decide; [|naive_solver].
  split; [done|]. by intros [? [=]].
Qed.

Lemma has_active_spec w t (Q : bool → StUtils → Prop) :
  reg_ok w → Q (bool_decide (streams_of t w ≠ [])) w → st_wp (has_active t) Q w.
Proof.
  intros Hreg HQ. apply st_wp_bind, st_wp_gets, st_wp_ret. rewrite (reg_map w Hreg).
  case_decide as Hd; [by rewrite Hd in HQ|done].
Qed.

Lemma kept_log_defer d n evs w :
  kept w (set_su_log evs (set_deferred_switch_cnt_ n (set_deferredSwitchState d w))).
Proof. destruct w. by split_and!. Qed.

(** Closes a goal about fields of an updated state. *)
Ltac su_leaf :=
  match goal with w : StUtils |- _ => destruct w end; su_cbv in *; simpl in *; subst;
  try case_decide; split_and!; try done; try congruence.

(** Nothing happens ([false]), or a pending switch is cancelled or a new one is left
    pending. *)
Lemma wp_checkAndUpdateDeferSwitchState active w :
  reg_ok w →
  st_wp (checkAndUpdateDeferSwitchState active)
    (λ b w', kept w w' ∧ use_lpi_ w' = use_lpi_ w ∧
       deferredSwitchState w' =
         (if b then (if decide (deferredSwitchState w = cancelled_by active) then NO_DEFER
                     else deferred_by active)
          else deferredSwitchState w) ∧
       (b = false → deferredSwitchState w ≠ cancelled_by active)) w.
Proof.
  intros Hreg. unfold checkAndUpdateDeferSwitchState.
  apply st_wp_bind, st_wp_gets.
  destruct active; simpl negb; cbv iota; (case_decide as Hd;
    [apply st_wp_bind, st_wp_modify, st_wp_bind;
     destruct low_latency_bargein_enable_;
     [apply st_wp_modify|apply st_wp_ret]; apply st_wp_ret; su_leaf|]).
  - apply st_wp_bind. eapply st_wp_mono; [by apply wp_isAnyStreamBuffering|].
    intros b w' ->. destruct b; [apply st_wp_bind, st_wp_modify|]; apply st_wp_ret; su_leaf.
  - apply st_wp_bind, has_active_spec; [done|]. case_match.
    { apply st_wp_bind, st_wp_modify, st_wp_bind, st_wp_modify, st_wp_bind, st_wp_modify,
        st_wp_ret. su_leaf. }
    apply st_wp_bind. eapply st_wp_mono; [by apply wp_isAnyStreamBuffering|].
    intros b w' ->. destruct b; [apply st_wp_bind, st_wp_modify|]; apply st_wp_ret; su_leaf.
Qed.

(** The tail of the functions that switch: away from the mode [active] unless the
    switch is deferred or was pending. *)
Lemma wp_switch active types w :
  reg_ok w → consistent w → use_lpi_temp w = active →
  st_wp (st_bind (checkAndUpdateDeferSwitchState active) (λ b : bool,
           if b then st_ret tt
           else st_bind (st_modify (set_use_lpi_ (negb active))) (λ _,
                  handleConcurrentStreamSwitch types)))
    (λ _ w', kept w w' ∧ consistent w' ∧ use_lpi_temp w' = negb active) w.
Proof.
  intros Hreg Hc Htemp. apply st_wp_bind.
  eapply st_wp_mono; [by apply wp_checkAndUpdateDeferSwitchState|].
  intros b w1 (Hk&Hl&Hd&Hb). unfold consistent, use_lpi_temp in *.
  destruct b.
  - apply st_wp_ret. split; [done|]. rewrite Hd, Hl. clear Hd Hb.
    destruct active, (deferredSwitchState w); simpl in *; split; congruence || done.
  - specialize (Hb eq_refl). apply st_wp_bind, st_wp_modify.
    assert (reg_ok (set_use_lpi_ (negb active) w1)) as Hr1.
    { eapply (kept_reg_ok w1); [by destruct w1; split_and!|by eapply kept_reg_ok]. }
    eapply st_wp_mono; [by apply wp_handleConcurrentStreamSwitch|].
    intros a w2 [Hk2 [Hd2 Hl2]]%touched_kept. split.
    + eapply kept_trans; [exact Hk|]. eapply kept_trans; [|exact Hk2]. by destruct w1; split_and!.
    + rewrite Hd2, Hl2.
      change (deferredSwitchState (set_use_lpi_ _ w1)) with (deferredSwitchState w1).
      change (use_lpi_ (set_use_lpi_ ?b w1)) with b. rewrite Hd. clear Hk Hk2 Hd2 Hl2 Hr1 Hd.
      destruct active, (deferredSwitchState w); simpl in *; split; congruence || done.
Qed.

(** ** The policy *)

(** The streams are to run in normal power: a stream that needs it is open, or there
    is a voice UI stream on a charger. *)
Definition wants_nlpi (w : StUtils) : bool :=
  negb (bool_decide (mNLPIStreams w = ∅)) ||
  (charging_state_ w && transit_to_non_lpi_on_charging_ &&
   bool_decide (streams_of PAL_STREAM_VOICE_UI w ≠ [])).

Record policy_ok (w : StUtils) : Prop := {
  pol_mode : use_lpi_temp w = negb (wants_nlpi w);
  pol_consistent : consistent w;
}.

Record su_inv (w : StUtils) : Prop := {
  inv_reg : reg_ok w;
  inv_unlocked : active_stream_locked w = false;
  inv_deferred : alive w (mStartDeferredStreams w);
  inv_policy : policy_ok w;
}.

Lemma kept_wants w w' : kept w w' → wants_nlpi w' = wants_nlpi w.
Proof.
  intros Hk. unfold wants_nlpi. rewrite (kept_streams_of _ _ _ Hk).
  by destruct Hk as (_&_&->&->&_).
Qed.

Lemma wp_lock w (Q : unit → StUtils → Prop) :
  active_stream_locked w = false → Q tt (set_active_stream_locked true w) →
  st_wp lockActiveStream Q w.
Proof. intros Hl HQ. exists tt, (set_active_stream_locked true w). split; [|done].
  unfold lockActiveStream. by rewrite Hl. Qed.

(** What holds inside a critical section: the lock is the caller's. *)
Record cs_inv (w : StUtils) : Prop := {
  cs_reg : reg_ok w;
  cs_deferred : alive w (mStartDeferredStreams w);
  cs_policy : policy_ok w;
}.

Lemma set_locked_reg b w : reg_ok (set_active_stream_locked b w) ↔ reg_ok w.
Proof. split; by apply reg_ok_ext. Qed.
Lemma set_locked_cs b w : cs_inv (set_active_stream_locked b w) ↔ cs_inv w.
Proof.
  split; intros [Hr Hd [H1 H2]]; split; [| |split| | |split];
    first [by eapply set_locked_reg|exact Hd|exact H1|exact H2].
Qed.
Lemma su_inv_cs w : su_inv w ↔ active_stream_locked w = false ∧ cs_inv w.
Proof. split; [intros [????]; split; [done|by split]|intros [? [???]]; by split]. Qed.

(** A critical section that keeps the invariant. *)
Lemma wp_critical {A} (m : St StUtils A) w :
  su_inv w →
  st_wp m (λ _ w', cs_inv w' ∧ active_stream_locked w' = true)
    (set_active_stream_locked true w) →
  st_wp (st_bind lockActiveStream (λ _, st_bind m (λ a, st_bind unlockActiveStream (λ _, st_ret a))))
    (λ _ w', su_inv w') w.
Proof.
  intros [Hl Hcs]%su_inv_cs Hm. apply st_wp_bind, wp_lock; [done|].
  apply st_wp_bind. eapply st_wp_mono; [exact Hm|]. intros a w' [Hcs' _].
  apply st_wp_bind, st_wp_modify, st_wp_ret. apply su_inv_cs.
  split; [by destruct w'|by apply set_locked_cs].
Qed.

Lemma kept_cs w w' : kept w w' → consistent w' → use_lpi_temp w' = negb (wants_nlpi w) →
  cs_inv w → cs_inv w'.
Proof.
  intros Hk Hc Ht [Hr Hd _]. split.
  - by eapply kept_reg_ok.
  - eapply kept_alive; [done|]. by destruct Hk as (_&_&_&_&->&_).
  - split; [|done]. by rewrite (kept_wants _ _ Hk).
Qed.

(** ** Programs that change neither the mode nor what the policy depends on *)

Definition still (w w' : StUtils) : Prop := kept w w' ∧ same_mode w w'.

Lemma still_refl w : still w w.
Proof. by repeat split. Qed.
Lemma still_trans w1 w2 w3 : still w1 w2 → still w2 w3 → still w1 w3.
Proof. intros [? [??]] [? [??]]. split; [by eapply kept_trans|split; congruence]. Qed.
Lemma touched_still e w w' : touched e w w' → still w w'.
Proof. apply touched_kept. Qed.

Lemma still_temp w w' : still w w' → use_lpi_temp w' = use_lpi_temp w.
Proof. intros [_ [Hd Hl]]. unfold use_lpi_temp. by rewrite Hd, Hl. Qed.
Lemma still_consistent w w' : still w w' → consistent w → consistent w'.
Proof. intros [_ [Hd Hl]]. unfold consistent. by rewrite Hd, Hl. Qed.
Lemma still_reg_ok w w' : still w w' → reg_ok w → reg_ok w'.
Proof. intros [? _]. by apply kept_reg_ok. Qed.

Lemma still_cs w w' : still w w' → cs_inv w → cs_inv w'.
Proof.
  intros Hs Hcs. eapply kept_cs; [apply Hs| | |done].
  - eapply still_consistent; [done|apply Hcs].
  - rewrite (still_temp _ _ Hs). apply Hcs.
Qed.

Lemma wp_seq_still {A B} (m : St StUtils A) (k : A → St StUtils B) w
    (Q : B → StUtils → Prop) :
  reg_ok w → st_wp m (λ _ w', still w w') w →
  (∀ a w', reg_ok w' → still w w' → st_wp (k a) Q w') → st_wp (st_bind m k) Q w.
Proof.
  intros Hreg Hm Hk. apply st_wp_bind. eapply st_wp_mono; [done|].
  intros a w' Hs. cbn beta in Hs. apply Hk; [by eapply still_reg_ok|done].
Qed.

Lemma wp_for_still {A} (l : list A) (body : A → St StUtils unit) w :
  reg_ok w → (∀ x w, reg_ok w → st_wp (body x) (λ _ w', still w w') w) →
  st_wp (st_for l body) (λ _ w', still w w') w.
Proof.
  intros Hreg Hb. revert w Hreg. induction l as [|x l IH]; intros w Hreg; simpl.
  { apply st_wp_ret, still_refl. }
  eapply wp_seq_still; [done|by apply Hb|]. intros _ w1 Hr1 Hs1.
  eapply st_wp_mono; [by apply IH|]. intros ? w2 ?. by eapply still_trans.
Qed.

Lemma disable_count_still t get set n w :
  disable_count t = Some (get, set) → still w (set n w).
Proof.
  unfold disable_count. intros E. repeat case_decide; simplify_eq; destruct w; by repeat split.
Qed.

Lemma wp_HandleStreamPauseResume_still t active w :
  reg_ok w → st_wp (HandleStreamPauseResume t active) (λ _ w', still w w') w.
Proof.
  intros Hreg. unfold HandleStreamPauseResume.
  destruct (disable_count t) as [[get set]|] eqn:E; [|apply st_wp_ret, still_refl].
  assert (∀ n, still w (set n w)) as Hset by (intros n; by eapply disable_count_still).
  assert (∀ n a, st_wp (st_bind (HandleDetectionStreamAction t a) (λ _, st_ret tt))
    (λ _ w', still w w') (set n w)) as Hact.
  { intros n a. apply st_wp_bind. eapply st_wp_mono.
    - apply wp_HandleDetectionStreamAction. by eapply still_reg_ok, Hreg.
    - intros r w' Ht. apply st_wp_ret. eapply still_trans; [apply Hset|].
      exact (touched_still _ _ _ Ht). }
  apply st_wp_bind, st_wp_gets. destruct active.
  - apply st_wp_bind, st_wp_modify. case_decide; [apply Hact|by apply st_wp_ret].
  - case_decide; [by apply st_wp_modify|]. case_decide; [|apply st_wp_ret, still_refl].
    apply st_wp_bind, st_wp_modify. case_decide; [apply Hact|by apply st_wp_ret].
Qed.

(** The four counts and the log of a state are free for [still]. *)
Lemma still_log e w : still w (set_su_log (su_log w ++ e) w).
Proof. destruct w. by repeat split. Qed.
Lemma still_tx n w : still w (set_TxconcurrencyEnableCount n w).
Proof. destruct w. by repeat split. Qed.

(** ** Opening and closing a stream next to the sound trigger streams *)

(** The stream takes part in the choice of the mode. *)
Definition counts_for_mode (s : positive) (w : StUtils) : bool :=
  match su_streams w !! s with
  | None => false
  | Some o =>
      let '(rx, tx, en) := concurrency_info (ss_type o) (ss_direction o) (ss_support_lpi o)
                             (IsVoiceCallConcurrencySupported w) in
      en && (rx || tx) && support_nlpi_switch_
  end.

Lemma wp_nlpi_decision s active w :
  cs_inv w → (active = false → s ∈ mNLPIStreams w) →
  st_wp (nlpi_decision s active)
    (λ r w', reg_ok w' ∧ alive w' (mStartDeferredStreams w') ∧ consistent w' ∧
       active_stream_locked w' = active_stream_locked w ∧
       match r with
       | None => use_lpi_temp w' = negb (wants_nlpi w')
       | Some t => t = negb active ∧ use_lpi_temp w' = active ∧ wants_nlpi w' = active
       end) w.
Proof.
  intros [Hr Hd [Hm Hc]] Hs. unfold nlpi_decision.
  apply st_wp_bind, st_wp_gets.
  assert (∀ x, reg_ok (set_mNLPIStreams x w)) as Hrx
    by (intros x; by apply (reg_ok_ext w)).
  destruct active.
  - apply st_wp_bind, st_wp_modify, st_wp_bind, st_wp_gets, st_wp_ret.
    set (w1 := set_mNLPIStreams _ w).
    assert (mNLPIStreams w1 ≠ ∅) as Hne by (change (mNLPIStreams w1) with ({[s]} ∪ mNLPIStreams w); set_solver).
    assert (wants_nlpi w1 = true) as Hw by (unfold wants_nlpi; by rewrite bool_decide_eq_false_2).
    assert (use_lpi_temp w1 = use_lpi_temp w) as Ht by done.
    split_and!; [apply Hrx|exact Hd|exact Hc|done|].
    rewrite bool_decide_eq_true_2 by done. simpl. destruct (use_lpi_temp w) eqn:Et.
    + by rewrite Ht.
    + by rewrite Ht, Hw.
  - specialize (Hs eq_refl).
    apply st_wp_bind, st_wp_modify, st_wp_bind, st_wp_gets, st_wp_bind.
    set (w1 := set_mNLPIStreams _ w).
    apply active_type_spec; [apply Hrx|]. apply st_wp_bind, st_wp_gets, st_wp_ret.
    assert (wants_nlpi w = true) as Hw.
    { unfold wants_nlpi. by rewrite bool_decide_eq_false_2 by set_solver. }
    assert (use_lpi_temp w1 = false) as Ht.
    { change (use_lpi_temp w1) with (use_lpi_temp w). by rewrite Hm, Hw. }
    split_and!; [apply Hrx|exact Hd|exact Hc|done|]. rewrite Ht. unfold wants_nlpi.
    destruct (bool_decide (mNLPIStreams w1 = ∅)), (charging_state_ w1),
      transit_to_non_lpi_on_charging_, (bool_decide (streams_of PAL_STREAM_VOICE_UI w1 ≠ []));
      by simpl.
Qed.

(** Leaving a critical section. *)
Lemma su_inv_unlock w : cs_inv w → su_inv (set_active_stream_locked false w).
Proof. intros. apply su_inv_cs. split; [done|by apply set_locked_cs]. Qed.

Lemma su_inv_lock w : su_inv w → cs_inv (set_active_stream_locked true w).
Proof. intros [_ ?]%su_inv_cs. by apply set_locked_cs. Qed.

Lemma still_su_inv w w' : still w w' → su_inv w → su_inv w'.
Proof.
  intros Hs [Hl Hcs]%su_inv_cs. apply su_inv_cs. split; [|by eapply still_cs].
  destruct Hs as [(_&->&_) _]. done.
Qed.

Lemma switch_cs active w w' :
  kept w w' → consistent w' → use_lpi_temp w' = negb active →
  alive w (mStartDeferredStreams w) → reg_ok w → wants_nlpi w = active → cs_inv w'.
Proof.
  intros Hk Hc Ht Ha Hr Hw. split.
  - by eapply kept_reg_ok.
  - eapply kept_alive; [done|]. by destruct Hk as (_&_&_&_&->&_).
  - split; [|done]. by rewrite (kept_wants _ _ Hk), Hw.
Qed.

Lemma wp_concurrency s active w :
  su_inv w → is_Some (su_streams w !! s) →
  (active = false → counts_for_mode s w = true → s ∈ mNLPIStreams w) →
  st_wp (HandleConcurrencyForSoundTriggerStreams s active) (λ _ w', su_inv w') w.
Proof.
  intros Hinv [o Ho] Hs. unfold HandleConcurrencyForSoundTriggerStreams.
  apply st_wp_bind, wp_lock; [apply Hinv|].
  apply su_inv_lock in Hinv. set (w0 := set_active_stream_locked true w) in *.
  apply st_wp_bind, st_wp_bind, st_wp_gets, st_wp_bind.
  apply wp_stream; [by exists o|]. intros o' [= ->]%(eq_trans (eq_sym Ho)).
  apply st_wp_ret. unfold counts_for_mode in Hs. rewrite Ho in Hs.
  change (IsVoiceCallConcurrencySupported w) with (IsVoiceCallConcurrencySupported w0) in Hs.
  destruct (concurrency_info _ _ _ _) as [[rx tx] en].
  apply (wp_seq_still _ _ w0); [apply Hinv| |intros _ w1 Hr1 Hs1].
  { destruct tx; [|apply st_wp_ret, still_refl]. apply st_wp_bind, st_wp_gets.
    destruct active; [apply st_wp_modify, still_tx|].
    case_decide; [apply st_wp_modify, still_tx|apply st_wp_ret, still_refl]. }
  apply st_wp_bind.
  assert (cs_inv w1) as Hcs by by eapply still_cs.
  eapply (st_wp_mono _ (λ r w', reg_ok w' ∧ alive w' (mStartDeferredStreams w') ∧
    consistent w' ∧ active_stream_locked w' = active_stream_locked w1 ∧
    match r with
    | None => use_lpi_temp w' = negb (wants_nlpi w')
    | Some t => t = negb active ∧ use_lpi_temp w' = active ∧ wants_nlpi w' = active
    end)).
  { destruct (en && (rx || tx) && support_nlpi_switch_).
    - apply wp_nlpi_decision; [done|]. intros Ha. destruct Hs1 as [(_&_&->&_) _]. by apply Hs.
    - apply st_wp_ret. destruct Hcs as [? ? []]. by split_and!. }
  clear Hcs Hs1 Hr1. intros r w2 (Hr2&Ha2&Hc2&_&Hm2).
  apply st_wp_bind, st_wp_gets.
  apply (wp_seq_still _ _ w2); [done| |intros _ w3 Hr3 Hs3].
  { destruct en; [apply st_wp_ret, still_refl|].
    apply wp_for_still; [done|]. intros. by apply wp_HandleStreamPauseResume_still. }
  assert (wants_nlpi w3 = wants_nlpi w2) as Hw3 by apply kept_wants, Hs3.
  assert (alive w3 (mStartDeferredStreams w3)) as Ha3.
  { destruct Hs3 as [Hk _]. eapply kept_alive; [exact Hk|]. by destruct Hk as (_&_&_&_&->&_). }
  apply st_wp_bind. apply (st_wp_mono _ (λ _ w', cs_inv w')).
  { rewrite <-Hw3, <-(still_temp _ _ Hs3) in Hm2.
    apply (still_consistent _ _ Hs3) in Hc2. destruct r as [t|].
    - destruct Hm2 as (->&Ht&Hw). eapply st_wp_mono; [by apply wp_switch|].
      intros a w4 (Hk&Hc&Ht4). by eapply switch_cs.
    - apply st_wp_ret. by split. }
  intros _ w4 Hcs. apply su_inv_unlock in Hcs.
  apply st_wp_bind, st_wp_modify, st_wp_bind, st_wp_gets.
  match goal with |- st_wp (if ?b then _ else _) _ _ => destruct b end; [|by apply st_wp_ret].
  eapply st_wp_mono.
  - apply (wp_for_still _ _ (set_active_stream_locked false w4)); [apply Hcs|].
    intros [cb cookie] w5 _. apply st_wp_modify, still_log.
  - intros a w5 Hs5. exact (still_su_inv _ _ Hs5 Hcs).
Qed.

(** ** The charger *)

Lemma wp_types_with_streams l w :
  reg_ok w → st_wp (types_with_streams l) (λ _ w', w' = w) w.
Proof.
  intros Hreg. induction l as [|t l IH]; simpl; [by apply st_wp_ret|].
  apply st_wp_bind, has_active_spec; [done|]. apply st_wp_bind.
  eapply st_wp_mono; [exact IH|]. intros r w' ->. by apply st_wp_ret.
Qed.

Lemma wp_types_in_map l w :
  reg_ok w → st_wp (types_in_map l) (λ _ w', w' = w) w.
Proof.
  intros Hreg. induction l as [|t l IH]; simpl; [by apply st_wp_ret|].
  apply st_wp_bind, active_type_spec; [done|]. apply st_wp_bind.
  eapply st_wp_mono; [exact IH|]. intros r w' ->. by apply st_wp_ret.
Qed.

(** After the charging state changed, the mode is still the one of the former state. *)
Lemma wp_onChargingStateChange w :
  reg_ok w → alive w (mStartDeferredStreams w) → consistent w →
  transit_to_non_lpi_on_charging_ = true →
  use_lpi_temp w = negb (wants_nlpi (set_charging_state_ (negb (charging_state_ w)) w)) →
  st_wp onChargingStateChange (λ _ w', cs_inv w') w.
Proof.
  intros Hr Ha Hc Htr Hm. unfold onChargingStateChange.
  apply st_wp_bind, st_wp_gets, st_wp_bind, has_active_spec; [done|].
  unfold wants_nlpi in Hm. rewrite Htr in Hm.
  change (mNLPIStreams (set_charging_state_ _ w)) with (mNLPIStreams w) in Hm.
  change (charging_state_ (set_charging_state_ ?b w)) with b in Hm.
  change (streams_of _ (set_charging_state_ _ w)) with (streams_of PAL_STREAM_VOICE_UI w) in Hm.
  assert (wants_nlpi w = negb (bool_decide (mNLPIStreams w = ∅)) ||
    (charging_state_ w && bool_decide (streams_of PAL_STREAM_VOICE_UI w ≠ []))) as Hw
    by (unfold wants_nlpi; by rewrite Htr, andb_true_r).
  destruct (bool_decide (streams_of PAL_STREAM_VOICE_UI w ≠ [])); simpl negb; cbv iota.
  2:{ apply st_wp_ret. split; [done..|]. split; [|done].
      rewrite Hw, Hm, !andb_false_r. done. }
  apply st_wp_bind, st_wp_gets, st_wp_bind, st_wp_gets.
  assert (∀ active, use_lpi_temp w = active → wants_nlpi w = active →
    st_wp (st_bind (types_with_streams [PAL_STREAM_VOICE_UI; PAL_STREAM_ACD;
        PAL_STREAM_ASR; PAL_STREAM_SENSOR_PCM_DATA]) (λ st_streams,
      st_bind (checkAndUpdateDeferSwitchState (negb (negb active))) (λ b : bool,
        if b then st_ret tt
        else st_bind (st_modify (set_use_lpi_ (negb active))) (λ _,
               handleConcurrentStreamSwitch st_streams)))) (λ _ w', cs_inv w') w) as Hsw.
  { intros active Ht Hwa. apply st_wp_bind.
    eapply st_wp_mono; [by apply wp_types_with_streams|]. intros l w' ->.
    rewrite negb_involutive. eapply st_wp_mono; [by apply wp_switch|].
    intros a w' (Hk&Hc'&Ht'). by eapply switch_cs. }
  assert (∀ b, use_lpi_temp w = negb b → wants_nlpi w = b → cs_inv w) as Hstay.
  { intros b Ht <-. by split. }
  destruct (charging_state_ w), (use_lpi_temp w) eqn:Ht; simpl in *.
  - apply (Hsw true); [done|]. by rewrite Hw, orb_true_r.
  - apply st_wp_ret, (Hstay true); [done|]. by rewrite Hw, orb_true_r.
  - by rewrite orb_true_r in Hm.
  - case_decide as Hn.
    + apply (Hsw false); [done|]. by rewrite Hw, bool_decide_eq_true_2.
    + apply st_wp_ret, (Hstay true); [done|]. by rewrite Hw, bool_decide_eq_false_2.
Qed.

Lemma wp_setSTParameter p w :
  su_inv w → st_wp (setSTParameter p) (λ _ w', su_inv w') w.
Proof.
  intros Hinv. destruct p as [size_ok state|[cb|]|]; simpl; [|..|by apply st_wp_ret];
    [| |by apply st_wp_ret].
  - destruct transit_to_non_lpi_on_charging_ eqn:Htr; simpl; [|by apply st_wp_ret].
    destruct size_ok; simpl; [|by apply st_wp_ret].
    apply st_wp_bind, st_wp_gets. case_bool_decide as Hne; [by apply st_wp_ret|].
    apply st_wp_bind, st_wp_modify, st_wp_bind, wp_lock; [apply Hinv|].
    destruct Hinv as [Hr _ Ha [Hm Hc]].
    apply st_wp_bind. eapply st_wp_mono.
    + apply wp_onChargingStateChange; [by apply (reg_ok_ext w)|exact Ha|exact Hc|done|].
      etrans; [exact Hm|]. f_equal. unfold wants_nlpi.
      change (charging_state_ (set_charging_state_ ?b _)) with b.
      change (charging_state_ (set_active_stream_locked true _)) with state.
      replace (charging_state_ w) with (negb state); [done|].
      by destruct (charging_state_ w), state.
    + intros a w' Hcs. apply st_wp_bind, st_wp_modify, st_wp_ret. by apply su_inv_unlock.
  - apply st_wp_bind, st_wp_gets, st_wp_bind.
    assert (∀ l, still w (set_onResourceAvailCbList l w)) as Hl
      by (intros; destruct w; by repeat split).
    case_decide; [by apply st_wp_ret, st_wp_ret|].
    apply st_wp_modify, st_wp_ret. by eapply still_su_inv.
Qed.

(** ** The deferred switch *)

Lemma wp_seq_call {B} s c (k : Z → St StUtils B) w (Q : B → StUtils → Prop) :
  all_quiet w → is_Some (su_streams w !! s) →
  (∀ r w', all_quiet w' → is_Some (su_streams w' !! s) → still w w' → st_wp (k r) Q w') →
  st_wp (st_bind (call s c) k) Q w.
Proof.
  intros Hq Hs Hk. apply st_wp_bind. eapply st_wp_mono; [by apply wp_call|].
  intros r w' Ht. apply Hk; [exact (same_streams_quiet _ _ (touched_streams _ _ _ Ht) Hq)|exact (touched_exists _ _ _ _ Ht Hs)|exact (touched_still _ _ _ Ht)].
Qed.

Lemma wp_start_deferred l w :
  reg_ok w → alive w l →
  st_wp (st_for l (λ s, st_bind (call s lockStreamMutex) (λ _,
           st_bind (call s start_l) (λ _, st_bind (call s unlockStreamMutex) (λ _, st_ret tt)))))
    (λ _ w', still w w') w.
Proof.
  revert w. induction l as [|s l IH]; intros w Hr; simpl.
  { intros _. apply st_wp_ret, still_refl. }
  intros [Hs Hl]%alive_cons. apply st_wp_bind.
  apply wp_seq_call; [exact (reg_quiet w Hr)|done|intros _ w1 Hq1 ? Hs1].
  apply wp_seq_call; [done..|intros _ w2 Hq2 ? Hs2].
  apply wp_seq_call; [done..|intros _ w3 _ ? Hs3']. apply st_wp_ret.
  assert (still w w3) as Hs3 by (do 2 (eapply still_trans; [done|]); done).
  eapply st_wp_mono; [apply IH|].
  - by eapply still_reg_ok.
  - eapply kept_alive; [apply Hs3|done].
  - intros ? w4 ?. by eapply still_trans.
Qed.

Lemma wp_stHandleDeferredSwitch w :
  su_inv w → st_wp stHandleDeferredSwitch (λ _ w', su_inv w') w.
Proof.
  intros Hinv. unfold stHandleDeferredSwitch. apply st_wp_bind, st_wp_gets.
  case_decide; [by apply st_wp_ret|].
  apply st_wp_bind, wp_lock; [apply Hinv|]. apply su_inv_lock in Hinv.
  set (w0 := set_active_stream_locked true w) in *. clearbody w0.
  destruct Hinv as [Hr Ha [Hm Hc]].
  apply st_wp_bind. eapply st_wp_mono; [by apply wp_isAnyStreamBuffering|].
  intros b w1 ->. apply st_wp_bind, st_wp_gets, st_wp_bind.
  apply (st_wp_mono _ (λ _ w', cs_inv w')).
  2:{ intros ? w2 Hcs. apply st_wp_modify. by apply su_inv_unlock. }
  destruct (negb b && negb (bool_decide (deferredSwitchState w0 = NO_DEFER))) eqn:Eb;
    [|by apply st_wp_ret].
  apply andb_prop in Eb as [_ Eb]. apply negb_true_iff, bool_decide_eq_false in Eb.
  set (n := bool_decide (deferredSwitchState w0 = DEFER_LPI_NLPI_SWITCH)).
  apply st_wp_bind, st_wp_modify. set (w1 := set_use_lpi_ (negb n) w0).
  assert (reg_ok w1) as Hr1 by by apply (reg_ok_ext w0).
  assert (use_lpi_ w1 = negb (wants_nlpi w1)) as Hm1.
  { change (wants_nlpi w1) with (wants_nlpi w0). rewrite <-Hm.
    change (use_lpi_ w1) with (negb n). unfold use_lpi_temp, n.
    by destruct (deferredSwitchState w0). }
  apply st_wp_bind. eapply st_wp_mono; [by apply wp_types_in_map|]. intros l w' ->.
  apply st_wp_bind. eapply st_wp_mono; [by apply wp_handleConcurrentStreamSwitch|].
  intros a w2 [Hk [_ Hl]]%touched_kept. apply st_wp_bind, st_wp_modify.
  set (w3 := set_deferredSwitchState NO_DEFER w2).
  assert (kept w1 w3) as Hk3 by (destruct Hk as (?&?&?&?&?&?); by split_and!).
  assert (alive w3 (mStartDeferredStreams w3)) as Ha3.
  { eapply kept_alive; [exact Hk3|]. destruct Hk3 as (_&_&_&_&->&_). exact Ha. }
  assert (cs_inv w3) as Hcs3.
  { split; [by eapply kept_reg_ok|done|]. split; [|done].
    rewrite (kept_wants _ _ Hk3), <-Hm1. exact Hl. }
  destruct n; [|by apply st_wp_ret].
  apply st_wp_bind, st_wp_gets, st_wp_bind.
  eapply st_wp_mono; [apply wp_start_deferred; [apply Hcs3|done]|].
  intros ? w4 Hs4. apply st_wp_modify. apply (still_cs _ _ Hs4) in Hcs3.
  destruct Hcs3 as [Hr4 _ [R4 R5]].
  split; [by apply (reg_ok_ext w4)| |by split].
  intros s Hx. by apply not_elem_of_nil in Hx.
Qed.

Lemma wp_updateDeferredSTStreams s active w :
  su_inv w → (active = true → is_Some (su_streams w !! s)) →
  st_wp (updateDeferredSTStreams s active) (λ _ w', su_inv w') w.
Proof.
  intros Hinv Hs. unfold updateDeferredSTStreams.
  apply st_wp_bind, wp_lock; [apply Hinv|].
  apply st_wp_bind, st_wp_modify, st_wp_modify. destruct Hinv as [Hr R4 Ha [R5 R6]].
  split; [by apply (reg_ok_ext w)|done| |by split].
  intros x Hx. destruct active.
  - apply elem_of_app in Hx as [Hx|Hx]; [by apply Ha|].
    apply list_elem_of_singleton in Hx as ->. by apply Hs.
  - apply list_elem_of_filter in Hx as [_ Hx]. by apply Ha.
Qed.

(** ** Creation and destruction of streams *)

Lemma filter_erase_first (P : positive → Prop) `{∀ x, Decision (P x)} s l :
  filter P (erase_first s l) = erase_first s (filter P l).
Proof.
  induction l as [|x l IH]; [done|]. simpl erase_first. rewrite (filter_cons P x l).
  case_decide as Hs; [subst x|rewrite filter_cons]; case_decide; simpl.
  - by rewrite decide_True.
  - rewrite erase_first_notin; [done|]. rewrite list_elem_of_filter. tauto.
  - by rewrite decide_False, IH.
  - done.
Qed.

Lemma filter_iff_in (P Q : positive → Prop) `{∀ x, Decision (P x)} `{∀ x, Decision (Q x)}
    (l : list positive) :
  (∀ x, x ∈ l → P x ↔ Q x) → filter P l = filter Q l.
Proof.
  induction l as [|x l IH]; intros Hl; [done|]. rewrite !filter_cons.
  rewrite IH by (intros; apply Hl; set_solver).
  specialize (Hl x). repeat case_decide; set_solver.
Qed.

(** [create_stream] up to the choice of the mode. *)
Definition registered (s : positive) (o : StStream) (w : StUtils) : StUtils :=
  set_su_users (registerStream s (Some (ss_type o)) (su_users w)).2
    (set_su_streams (<[s := o]> (su_streams w)) w).

Lemma registered_streams_of s o w t :
  reg_ok w → su_streams w !! s = None →
  streams_of t (registered s o w) =
    streams_of t w ++ if decide (ss_type o = t) then [s] else [].
Proof.
  intros Hr Hf. unfold streams_of at 1.
  change (mActiveStreams (su_users (registered s o w)))
    with (mActiveStreams (su_users w) ++ [s]).
  rewrite filter_app. f_equal.
  - apply filter_iff_in. intros x Hx. unfold type_of, registered; su_cbv.
    rewrite lookup_insert_ne; [done|]. intros ->. destruct (reg_alive w Hr x Hx). congruence.
  - rewrite filter_cons, filter_nil. unfold type_of, registered; su_cbv.
    rewrite lookup_insert_eq. simpl. repeat case_decide; congruence.
Qed.

Lemma registered_alive s o w l : alive w l → alive (registered s o w) l.
Proof.
  intros Ha x Hx. unfold registered; su_cbv. destruct (decide (x = s)) as [->|].
  - rewrite lookup_insert_eq. eauto.
  - rewrite lookup_insert_ne by done. by apply Ha.
Qed.

Lemma registered_reg_ok s o w :
  reg_ok w → su_streams w !! s = None → quiet o → reg_ok (registered s o w).
Proof.
  intros Hr Hf Hqo.
  assert (s ∉ mActiveStreams (su_users w)) as Hs.
  { intros Hs. destruct (reg_alive w Hr s Hs). congruence. }
  split; [split|].
  - change (NoDup (mActiveStreams (su_users w) ++ [s])). apply NoDup_app.
    split_and!; [apply Hr| |apply NoDup_singleton]. set_solver.
  - change (mActiveStreams (su_users (registered s o w)))
      with (mActiveStreams (su_users w) ++ [s]).
    intros x [Hx|Hx]%elem_of_app.
    + by apply registered_alive with (l := mActiveStreams (su_users w)), Hx; apply reg_ok_alive.
    + apply list_elem_of_singleton in Hx as ->. unfold registered; su_cbv.
      rewrite lookup_insert_eq. eauto.
  - intros t. rewrite registered_streams_of by done.
    change (activeStreamMap (su_users (registered s o w))) with
      (<[ss_type o := match activeStreamMap (su_users w) !! ss_type o with
                      | Some l => l ++ [s] | None => [s] end]> (activeStreamMap (su_users w))).
    destruct (decide (ss_type o = t)) as [<-|].
    + rewrite lookup_insert_eq, (reg_map w Hr).
      rewrite (decide_False (P := _ ++ [s] = [])) by (by destruct (streams_of (ss_type o) w)).
      case_decide as Hn; [by rewrite Hn|done].
    + rewrite lookup_insert_ne by done. by rewrite app_nil_r, (reg_map w Hr).
  - intros x o'. unfold registered; su_cbv. destruct (decide (x = s)) as [->|].
    + rewrite lookup_insert_eq. by intros [= <-].
    + rewrite lookup_insert_ne by done. apply (reg_quiet w Hr).
Qed.

(** [destroy_stream] up to the choice of the mode. *)
Definition deregistered (s : positive) (o : StStream) (w : StUtils) : StUtils :=
  set_su_users (deregisterStream s (Some (ss_type o)) (su_users w)).2 w.

Lemma deregistered_active s o w :
  mActiveStreams (su_users (deregistered s o w)) = erase_first s (mActiveStreams (su_users w)).
Proof. unfold deregistered, deregisterStream; su_cbv. by case_match. Qed.

Lemma deregistered_streams_of s o w t :
  streams_of t (deregistered s o w) = erase_first s (streams_of t w).
Proof.
  unfold streams_of. rewrite deregistered_active.
  change (type_of (deregistered s o w)) with (type_of w). apply filter_erase_first.
Qed.

Lemma deregistered_reg_ok s o w :
  reg_ok w → su_streams w !! s = Some o → reg_ok (deregistered s o w).
Proof.
  intros Hr Ho. split; [split|exact (reg_quiet w Hr)]; rewrite ?deregistered_active.
  - apply erase_first_NoDup, Hr.
  - intros x Hx. apply erase_first_elem in Hx as [Hx _]; [|apply Hr]. by apply Hr.
  - assert (type_of w s = Some (ss_type o)) as Hty by (unfold type_of; by rewrite Ho).
    intros t. rewrite deregistered_streams_of.
    change (su_users (deregistered s o w))
      with (deregisterStream s (Some (ss_type o)) (su_users w)).2.
    unfold deregisterStream. rewrite (reg_map w Hr (ss_type o)).
    destruct (decide (ss_type o = t)) as [<-|Hne].
    + case_decide as Hn; simpl.
      { by rewrite (reg_map w Hr), Hn. }
      destruct (decide (s ∈ streams_of (ss_type o) w)) as [Hin|Hin]; simpl.
      * case_decide; [by rewrite lookup_delete_eq|by rewrite lookup_insert_eq].
      * rewrite (reg_map w Hr), erase_first_notin by done. done.
    + rewrite (erase_first_notin s (streams_of t w)).
      2:{ intros [_ E]%elem_of_streams_of. congruence. }
      case_decide; simpl; [apply Hr|]. case_decide; simpl; [|apply Hr].
      case_decide; [rewrite lookup_delete_ne by done|rewrite lookup_insert_ne by done]; apply Hr.
Qed.

(** A switch is pending while the charger decides the mode. *)
Definition charger_pending (w : StUtils) : bool :=
  charging_state_ w && transit_to_non_lpi_on_charging_ &&
  negb (bool_decide (deferredSwitchState w = NO_DEFER)).

Lemma wants_ext w w' :
  mNLPIStreams w' = mNLPIStreams w → charging_state_ w' = charging_state_ w →
  (charging_state_ w && transit_to_non_lpi_on_charging_ = true →
   streams_of PAL_STREAM_VOICE_UI w' = [] ↔ streams_of PAL_STREAM_VOICE_UI w = []) →
  wants_nlpi w' = wants_nlpi w.
Proof.
  intros E1 E2 E3. unfold wants_nlpi. rewrite E1, E2. f_equal.
  destruct (charging_state_ w && transit_to_non_lpi_on_charging_); simpl; [|done].
  apply bool_decide_ext. tauto.
Qed.

(** Inside the critical section of [onVUIStreamRegistered] and its counterpart: the
    mode [nlpi] is set without a look at a deferral. *)
Lemma wp_set_mode lpi types w :
  reg_ok w → alive w (mStartDeferredStreams w) → deferredSwitchState w = NO_DEFER →
  wants_nlpi w = negb lpi →
  st_wp (st_bind (st_modify (set_use_lpi_ lpi)) (λ _, handleConcurrentStreamSwitch types))
    (λ _ w', cs_inv w' ∧ kept w w') w.
Proof.
  intros Hr Ha Hd Hw. apply st_wp_bind, st_wp_modify. set (w1 := set_use_lpi_ lpi w).
  assert (kept w w1) as Hk1 by by split_and!.
  eapply st_wp_mono; [apply wp_handleConcurrentStreamSwitch; by eapply kept_reg_ok|].
  intros a w2 [Hk [Hd2 Hl]]%touched_kept.
  assert (kept w w2) as Hk2 by by eapply kept_trans.
  split; [|done]. apply (switch_cs (negb lpi) w); [done| | |done..].
  - unfold consistent. rewrite Hd2. change (deferredSwitchState w1) with (deferredSwitchState w).
    by rewrite Hd.
  - unfold use_lpi_temp. rewrite Hd2.
    change (deferredSwitchState w1) with (deferredSwitchState w). rewrite Hd, Hl.
    by rewrite negb_involutive.
Qed.

Lemma wp_onVUIStreamRegistered w :
  reg_ok w → active_stream_locked w = false → alive w (mStartDeferredStreams w) →
  consistent w → use_lpi_temp w = bool_decide (mNLPIStreams w = ∅) →
  streams_of PAL_STREAM_VOICE_UI w ≠ [] → charger_pending w = false →
  st_wp onVUIStreamRegistered (λ _ w', su_inv w') w.
Proof.
  intros Hr Hl Ha Hc Hm Hv Hp. unfold onVUIStreamRegistered.
  apply st_wp_bind, wp_lock; [done|]. set (w0 := set_active_stream_locked true w).
  assert (reg_ok w0) as Hr0 by by apply set_locked_reg.
  apply st_wp_bind, st_wp_gets. change (charging_state_ w0) with (charging_state_ w).
  rewrite <-negb_andb. unfold charger_pending in Hp.
  destruct (charging_state_ w && transit_to_non_lpi_on_charging_) eqn:Ech; cbn [andb negb] in *.
  2:{ apply st_wp_modify, su_inv_unlock. split; [done|done|]. split; [|done].
      change (use_lpi_temp w0) with (use_lpi_temp w). rewrite Hm. unfold wants_nlpi.
      change (charging_state_ w0) with (charging_state_ w). rewrite Ech. simpl.
      by rewrite orb_false_r, negb_involutive. }
  apply negb_false_iff, bool_decide_eq_true in Hp.
  assert (wants_nlpi w0 = true) as Hw.
  { unfold wants_nlpi. change (charging_state_ w0) with (charging_state_ w). rewrite Ech.
    change (streams_of _ w0) with (streams_of PAL_STREAM_VOICE_UI w).
    rewrite (bool_decide_eq_true_2 (streams_of _ w ≠ [])) by done. apply orb_true_r. }
  apply st_wp_bind. eapply st_wp_mono; [by apply wp_types_with_streams|]. intros l w' ->.
  apply st_wp_bind, st_wp_gets, st_wp_bind. apply (st_wp_mono _ (λ _ w', cs_inv w')).
  - destruct (use_lpi_ w0) eqn:El.
    { eapply st_wp_mono; [by apply wp_set_mode|]. by intros a w' []. }
    apply st_wp_ret. split; [done|done|]. split; [|done]. rewrite Hw.
    unfold use_lpi_temp. change (deferredSwitchState w0) with (deferredSwitchState w).
    by rewrite Hp.
  - intros a w2 Hcs. apply st_wp_modify. by apply su_inv_unlock.
Qed.

Lemma wp_onVUIStreamDeregistered w :
  reg_ok w → active_stream_locked w = false → alive w (mStartDeferredStreams w) →
  consistent w →
  use_lpi_temp w = negb (negb (bool_decide (mNLPIStreams w = ∅)) ||
                         (charging_state_ w && transit_to_non_lpi_on_charging_)) →
  streams_of PAL_STREAM_VOICE_UI w = [] → charger_pending w = false →
  st_wp onVUIStreamDeregistered
    (λ _ w', su_inv w' ∧ su_users w' = su_users w ∧
       mStartDeferredStreams w' = mStartDeferredStreams w) w.
Proof.
  intros Hr Hl Ha Hc Hm Hv Hp. unfold onVUIStreamDeregistered.
  apply st_wp_bind, wp_lock; [done|]. set (w0 := set_active_stream_locked true w).
  assert (reg_ok w0) as Hr0 by by apply set_locked_reg.
  assert (wants_nlpi w0 = negb (bool_decide (mNLPIStreams w = ∅))) as Hw.
  { unfold wants_nlpi. change (streams_of _ w0) with (streams_of PAL_STREAM_VOICE_UI w).
    by rewrite Hv, andb_false_r, orb_false_r. }
  apply st_wp_bind, st_wp_gets. change (charging_state_ w0) with (charging_state_ w).
  rewrite <-negb_andb. unfold charger_pending in Hp.
  destruct (charging_state_ w && transit_to_non_lpi_on_charging_) eqn:Ech; cbn [andb negb] in *.
  2:{ apply st_wp_modify. split; [|done]. apply su_inv_unlock. split; [done|done|]. split; [|done].
      change (use_lpi_temp w0) with (use_lpi_temp w). by rewrite Hm, Hw, orb_false_r. }
  apply negb_false_iff, bool_decide_eq_true in Hp.
  rewrite orb_true_r in Hm. unfold use_lpi_temp in Hm. rewrite Hp in Hm.
  apply st_wp_bind. eapply st_wp_mono; [by apply wp_types_with_streams|]. intros l w' ->.
  apply st_wp_bind, st_wp_gets, st_wp_bind, st_wp_gets, st_wp_bind.
  change (use_lpi_ w0) with (use_lpi_ w). change (mNLPIStreams w0) with (mNLPIStreams w).
  rewrite Hm. simpl. apply (st_wp_mono _ (λ _ w', cs_inv w' ∧ kept w0 w')).
  - destruct (bool_decide (mNLPIStreams w = ∅)); [by apply wp_set_mode|].
    apply st_wp_ret. split; [|apply kept_refl]. split; [done|done|]. split; [|done]. rewrite Hw.
    unfold use_lpi_temp. change (deferredSwitchState w0) with (deferredSwitchState w).
    by rewrite Hp.
  - intros a w2 [Hcs (Hu&_&_&_&Hs&_)]. apply st_wp_modify. split; [by apply su_inv_unlock|].
    split; [exact Hu|exact Hs].
Qed.

Lemma wp_create_stream s o w :
  su_inv w → su_streams w !! s = None → quiet o →
  (ss_type o = PAL_STREAM_VOICE_UI → streams_of PAL_STREAM_VOICE_UI w = [] →
   charger_pending w = false) →
  st_wp (create_stream s o) (λ _ w', su_inv w') w.
Proof.
  intros [Hr Hl Ha [Hm Hc]] Hf Hqo Hp. unfold create_stream.
  apply st_wp_bind, st_wp_modify, st_wp_bind, st_wp_modify.
  change (set_su_users _ _) with (registered s o w).
  pose proof (registered_reg_ok s o w Hr Hf Hqo) as Hr1.
  pose proof (registered_alive s o w _ Ha) as Ha1.
  pose proof (registered_streams_of s o w PAL_STREAM_VOICE_UI Hr Hf) as Hs1.
  set (w1 := registered s o w) in *.
  assert ((ss_type o = PAL_STREAM_VOICE_UI → streams_of PAL_STREAM_VOICE_UI w ≠ []) →
    su_inv w1) as Hsame.
  { intros Hne. split; [done|done|done|]. split; [|done].
    change (use_lpi_temp w1) with (use_lpi_temp w). rewrite Hm. f_equal. symmetry.
    apply wants_ext; [done|done|]. intros _. rewrite Hs1. case_decide as Ht.
    - specialize (Hne Ht). by destruct (streams_of PAL_STREAM_VOICE_UI w).
    - by rewrite app_nil_r. }
  case_decide as Ht; [|apply st_wp_ret, Hsame; by intros ?].
  apply st_wp_bind, st_wp_gets. rewrite (reg_map w1 Hr1).
  rewrite Hs1.
  rewrite (decide_False (P := _ ++ [s] = [])) by (by destruct (streams_of PAL_STREAM_VOICE_UI w)).
  change (default [] (Some ?l)) with l. rewrite length_app. change (length [s]) with 1%nat.
  case_decide as Hlen; [|apply st_wp_ret, Hsame; intros _ E; rewrite E in Hlen; done].
  assert (streams_of PAL_STREAM_VOICE_UI w = []) as Hnil
    by (destruct (streams_of PAL_STREAM_VOICE_UI w); simpl in Hlen; [done|lia]).
  apply wp_onVUIStreamRegistered; [exact Hr1|exact Hl|exact Ha1|exact Hc| | |exact (Hp Ht Hnil)].
  - change (use_lpi_temp w1) with (use_lpi_temp w). rewrite Hm. unfold wants_nlpi.
    rewrite Hnil, andb_false_r, orb_false_r, negb_involutive. done.
  - by rewrite Hs1, Hnil.
Qed.

Lemma delete_su_inv s w :
  su_inv w → s ∉ mActiveStreams (su_users w) → s ∉ mStartDeferredStreams w →
  su_inv (set_su_streams (delete s (su_streams w)) w).
Proof.
  intros [Hr Hl Ha [Hm Hc]] Hs Hd. set (w' := set_su_streams _ w).
  assert (∀ t, streams_of t w' = streams_of t w) as Hso.
  { intros t. apply filter_iff_in. intros x Hx. unfold type_of, w'; su_cbv.
    rewrite lookup_delete_ne; [done|]. by intros ->. }
  assert (∀ l, s ∉ l → alive w l → alive w' l) as Hal.
  { intros l Hn Hl' x Hx. unfold w'; su_cbv. rewrite lookup_delete_ne; [by apply Hl'|].
    by intros ->. }
  split; [split; [split|]|done|by apply Hal|split; [|done]].
  - apply Hr.
  - apply (Hal (mActiveStreams (su_users w))); [done|by apply reg_ok_alive].
  - intros t. rewrite Hso. apply Hr.
  - intros x o. unfold w'; su_cbv. intros [_ Hx]%lookup_delete_Some. by eapply reg_quiet.
  - change (use_lpi_temp w') with (use_lpi_temp w). rewrite Hm. f_equal. symmetry.
    apply wants_ext; [done|done|]. by rewrite Hso.
Qed.

Lemma erase_first_nil (x : positive) l : erase_first x l = [] → l = [] ∨ l = [x].
Proof. destruct l as [|y l]; simpl; [by left|]. case_decide; [|done]. subst. intros ->. by right. Qed.

Lemma wp_destroy_stream s w :
  su_inv w → s ∈ mActiveStreams (su_users w) → s ∉ mStartDeferredStreams w →
  (streams_of PAL_STREAM_VOICE_UI w = [s] → charger_pending w = false) →
  st_wp (destroy_stream s) (λ _ w', su_inv w') w.
Proof.
  intros [Hr Hl Ha [Hm Hc]] Hin Hd Hp. unfold destroy_stream.
  destruct (reg_alive w Hr s Hin) as [o Ho].
  apply st_wp_bind, wp_stream; [by exists o|]. intros o' [= ->]%(eq_trans (eq_sym Ho)).
  apply st_wp_bind, st_wp_modify. change (set_su_users _ w) with (deregistered s o' w).
  pose proof (deregistered_reg_ok s o' w Hr Ho) as Hr1.
  pose proof (deregistered_active s o' w) as Ha1.
  pose proof (λ t, deregistered_streams_of s o' w t) as Hs1.
  set (w1 := deregistered s o' w) in *.
  assert (s ∉ mActiveStreams (su_users w1)) as Hn1.
  { rewrite Ha1. intros Hin'. apply erase_first_elem in Hin' as [_ ?]; [done|apply Hr]. }
  assert (type_of w s = Some (ss_type o')) as Hty by (unfold type_of; by rewrite Ho).
  assert ((erase_first s (streams_of PAL_STREAM_VOICE_UI w) = [] →
           streams_of PAL_STREAM_VOICE_UI w = []) → su_inv w1) as Hsame.
  { intros Hne. split; [done|done|done|]. split; [|done].
    change (use_lpi_temp w1) with (use_lpi_temp w). rewrite Hm. f_equal. symmetry.
    apply wants_ext; [done|done|]. intros _. rewrite Hs1.
    split; [done|]. by intros ->. }
  apply st_wp_bind. apply (st_wp_mono _ (λ _ w', su_inv w' ∧ su_users w' = su_users w1 ∧
    mStartDeferredStreams w' = mStartDeferredStreams w1)).
  2:{ intros a w2 (Hi&Hu&Hst). apply st_wp_modify. apply delete_su_inv; [done| |].
      - by rewrite Hu.
      - by rewrite Hst. }
  case_decide as Ht.
  2:{ apply st_wp_ret. split; [|done]. apply Hsame. rewrite erase_first_notin; [done|].
      intros [_ E]%elem_of_streams_of. congruence. }
  assert (s ∈ streams_of PAL_STREAM_VOICE_UI w) as Hv
    by (rewrite elem_of_streams_of, Hty, Ht; done).
  apply st_wp_bind, st_wp_gets.
  assert (default [] (activeStreamMap (su_users w1) !! PAL_STREAM_VOICE_UI) =
          erase_first s (streams_of PAL_STREAM_VOICE_UI w)) as ->.
  { rewrite (reg_map w1 Hr1), Hs1. by case_decide as E; [rewrite E|]. }
  case_decide as Hnil; [|apply st_wp_ret; split; [by apply Hsame|done]].
  apply erase_first_nil in Hnil as [Hnil|Hnil];
    [rewrite Hnil in Hv; by apply not_elem_of_nil in Hv|].
  apply wp_onVUIStreamDeregistered; [exact Hr1|exact Hl|exact Ha|exact Hc| | |exact (Hp Hnil)].
  - change (use_lpi_temp w1) with (use_lpi_temp w). rewrite Hm. unfold wants_nlpi.
    rewrite Hnil. by rewrite (bool_decide_eq_true_2 ([s] ≠ [])), andb_true_r by done.
  - rewrite Hs1, Hnil. simpl. by rewrite decide_True.
Qed.

(** ** Histories *)

(** The calls for which the policy holds: only quiet streams are created, at fresh
    addresses, so the calls of speech recognition streams do not occur; streams are
    destroyed when registered and not waiting to be started; a stream that is closed
    next to the sound trigger streams was opened next to them; voice UI streams do not
    come first or leave last on a charger while a switch is pending. *)
Definition op_ok (op : su_op) (w : StUtils) : Prop :=
  match op with
  | OpCreate s o =>
      su_streams w !! s = None ∧ quiet o ∧
      (ss_type o = PAL_STREAM_VOICE_UI → streams_of PAL_STREAM_VOICE_UI w = [] →
       charger_pending w = false)
  | OpDestroy s =>
      s ∈ mActiveStreams (su_users w) ∧ s ∉ mStartDeferredStreams w ∧
      (streams_of PAL_STREAM_VOICE_UI w = [s] → charger_pending w = false)
  | OpConcurrency s active =>
      is_Some (su_streams w !! s) ∧
      (active = false → counts_for_mode s w = true → s ∈ mNLPIStreams w)
  | OpDeferStart s active => active = true → is_Some (su_streams w !! s)
  | OpRegisterNLPI _ | OpDeregisterNLPI _ | OpForceSwitch _ => False
  | OpParameter _ | OpDeferredSwitch | OpStreamState _ _ _ | OpCard _ | OpCRS _ => True
  end.

Lemma wp_su_step op w :
  su_inv w → op_ok op w → st_wp (su_step op) (λ _ w', su_inv w') w.
Proof.
  intros Hinv Hok. destruct op as [s o|s|s active|p| |s active|s a b|s|s|a|c|b]; cbn [su_step op_ok] in *;
    destruct_and? Hok.
  - by apply wp_create_stream.
  - by apply wp_destroy_stream.
  - by apply wp_concurrency.
  - apply st_wp_bind. eapply st_wp_mono; [by apply wp_setSTParameter|].
    intros r w' ?. by apply st_wp_ret.
  - by apply wp_stHandleDeferredSwitch.
  - by apply wp_updateDeferredSTStreams.
  - apply st_wp_modify. eapply still_su_inv; [|done]. repeat split; [done..|].
    intros x. su_cbv. destruct (decide (x = s)) as [->|].
    + rewrite lookup_alter_eq. by destruct (_ !! s).
    + by rewrite lookup_alter_ne.
  - done.
  - done.
  - done.
  - apply st_wp_modify. eapply still_su_inv; [|done]. by repeat split.
  - apply st_wp_modify. eapply still_su_inv; [|done]. by repeat split.
Qed.
End laws.

Lemma su_init_inv `{StuEnv} : su_inv su_init.
Proof.
  split; [split; [split|]|done| |split; [|done]].
  - apply NoDup_nil_2.
  - intros s Hs. by apply not_elem_of_nil in Hs.
  - done.
  - by intros s o.
  - intros s Hs. by apply not_elem_of_nil in Hs.
  - done.
Qed.
