(* ===== verification/STUtilsSpec.v ===== *)
(** * LPI policy of the sound trigger streams: what it guarantees

    The mode follows the policy through any history of well-behaved calls; a switch
    stops and starts every stream exactly once; pausing counts streams; the best capture
    profile is chosen.  The last sections run histories in which the calls are not well
    behaved or the handlers of streams come back to STUtils.cpp. *)

From S2P Require Import Prelude PalDefs Users CaptureProfile CaptureProfileFacts.
From S2P Require Import STUtils STUtilsFacts.

(** ** A platform for examples

    Everything is supported but recording next to a voice call; streams answer 0, two
    of them have a capture profile. *)
Module Demo.
Definition profile_at (rate width channels : Z) : CaptureProfile :=
  mkCapProf rate "profile" PAL_DEVICE_IN_HANDSET_VA_MIC rate width channels "va-mic" false
    "va_macro".

Definition prof (s : positive) : option CaptureProfile :=
  match s with
  | 1%positive => Some (profile_at 16000 16 1)
  | 2%positive => Some (profile_at 48000 32 4)
  | _ => None
  end.

#[export] Instance env : StuEnv := {
  stream_call := λ _ _ w, Some (0, w);
  stream_profile := λ s w, Some (prof s, w);
  vendor_uuid := λ _ _, (0, []);
  device_available := λ _, true;
  support_nlpi_switch_ := true;
  support_device_switch_ := true;
  concurrent_capture_ := true;
  concurrent_voice_call_ := false;
  concurrent_voip_call_ := true;
  low_latency_bargein_enable_ := true;
  transit_to_non_lpi_on_charging_ := true;
}.
#[export] Instance laws : StuLaws.
Proof.
  split; intros s; [intros c w _|intros w _]; eexists _, w.
  - exists (SoundTriggerCaptureProfile w), (TXMacroCaptureProfile w), (su_streams w), [].
    split_and!; [reflexivity|done|constructor|]. destruct w; su_cbv. by rewrite app_nil_r.
  - split; [reflexivity|apply touched_refl].
Qed.

Definition voice_ui : StStream := mkStStream PAL_STREAM_VOICE_UI PAL_AUDIO_INPUT true false true.
Definition playback : StStream :=
  mkStStream PAL_STREAM_DEEP_BUFFER PAL_AUDIO_OUTPUT false false false.
Definition voice_call : StStream :=
  mkStStream PAL_STREAM_VOICE_CALL PAL_AUDIO_INPUT_OUTPUT false false false.
End Demo.

(** ** The policy *)

Section spec.
Context `{StuEnv}.

(** Every call of the history meets [op_ok] where it happens. *)
Fixpoint ops_ok (ops : list su_op) (w : StUtils) : Prop :=
  match ops with
  | [] => True
  | op :: ops => op_ok op w ∧ ∀ w', su_step op w = Some (tt, w') → ops_ok ops w'
  end.

Lemma history_inv `{!StuLaws} ops w :
  su_inv w → ops_ok ops w → st_wp (su_history ops) (λ _ w', su_inv w') w.
Proof.
  revert w. induction ops as [|op ops IH]; intros w Hinv; simpl.
  { intros _. by apply st_wp_ret. }
  intros [Hop Hops]. apply st_wp_bind.
  destruct (wp_su_step op w Hinv Hop) as ([]&w1&E&Hinv1).
  exists tt, w1. split; [done|]. by apply IH, Hops.
Qed.

Lemma ops_ok_cons op ops w w' :
  op_ok op w → su_step op w = Some (tt, w') → ops_ok ops w' → ops_ok (op :: ops) w.
Proof. intros Hop E Hops. split; [done|]. intros w1. rewrite E. by intros [= <-]. Qed.
End spec.


#[local] Existing Instance Demo.env.
#[local] Existing Instance Demo.laws.

(** Runs the calls of a concrete history; their conditions remain. *)
Ltac run_ops :=
  lazymatch goal with
  | |- ops_ok [] _ => exact I
  | |- ops_ok (_ :: _) _ => eapply ops_ok_cons; [|vm_compute; reflexivity|run_ops]
  end.

(** A playback next to a voice UI stream that buffers: the switch is deferred, then
    done; then a charger takes over. *)
Definition demo_history : list su_op :=
  [ OpCreate 1 Demo.voice_ui; OpStreamState 1 true true;
    OpCreate 2 Demo.playback; OpConcurrency 2 true;
    OpStreamState 1 true false; OpDeferredSwitch;
    OpParameter (PARAM_CHARGING_STATE true true);
    OpConcurrency 2 false; OpDestroy 2 ].


(** ** A switch stops and starts every stream once *)

Lemma action_events_all a l :
  action_skip a = None → action_events a l = (λ s, EvCall s (action_call a)) <$> l.
Proof.
  intros E. unfold action_events. rewrite E. f_equal.
  induction l as [|s l IH]; [done|]. rewrite filter_cons, decide_True by done. by rewrite IH.
Qed.

Lemma flat_map_events {A} (f : A → SuEvent) (g : Z → list A) types :
  flat_map (λ t, f <$> g t) types = f <$> flat_map g types.
Proof. induction types as [|t types IH]; simpl; [done|]. by rewrite fmap_app, IH. Qed.

Lemma flat_map_NoDup w types :
  reg_ok w → NoDup types → NoDup (flat_map (λ t, streams_of t w) types).
Proof.
  intros Hreg. induction 1 as [|t types Ht Hn IH]; simpl; [apply NoDup_nil_2|].
  apply NoDup_app. split_and!; [apply NoDup_filter, Hreg| |done].
  intros s [_ Hs]%elem_of_streams_of Hin. apply Ht.
  apply list_elem_of_In, in_flat_map in Hin as (t'&Ht'&Hs').
  apply list_elem_of_In, elem_of_streams_of in Hs' as [_ Hs']. apply list_elem_of_In in Ht'.
  congruence.
Qed.

(** A switch between the modes calls [HandleConcurrentStream] with [false] on every
    active stream of the given types and then with [true] on the same streams in the
    same order, each exactly once: a stream's mutex, which the first call takes and the
    second gives back, is never left locked or unlocked twice. Between these calls stand
    only calls that their handlers make. *)
Theorem switch_pairs `{StuLaws} types w :
  reg_ok w → NoDup types →
  ∃ w' l log, handleConcurrentStreamSwitch types w = Some (tt, w') ∧
    NoDup l ∧
    (∀ s, s ∈ l ↔ s ∈ mActiveStreams (su_users w) ∧ ∃ t, t ∈ types ∧ type_of w s = Some t) ∧
    su_log w' = su_log w ++ log ∧
    with_nested (((λ s, EvCall s (HandleConcurrentStream false)) <$> l) ++
                 ((λ s, EvCall s (HandleConcurrentStream true)) <$> l)) log.
Proof.
  intros Hreg Hn.
  destruct (wp_handleConcurrentStreamSwitch types w Hreg) as ([]&w'&E&Ht).
  apply touched_fields in Ht as (_&_&(log&Hlog&Elog)&_).
  exists w', (flat_map (λ t, streams_of t w) types), log. split; [done|]. split; [|split; [|split]].
  - by apply flat_map_NoDup.
  - intros s. rewrite list_elem_of_In, in_flat_map. split.
    + intros (t&Ht'&Hs). apply list_elem_of_In, elem_of_streams_of in Hs as [??].
      apply list_elem_of_In in Ht'. eauto.
    + intros (Hs&t&Ht'&Hty). exists t. rewrite <-!list_elem_of_In, elem_of_streams_of. done.
  - done.
  - rewrite <-!flat_map_events. unfold switch_events in Hlog.
    assert (∀ b, flat_map (λ t, action_events (ST_HANDLE_CONCURRENT_STREAM b) (streams_of t w)) types =
      flat_map (λ t, (λ s, EvCall s (HandleConcurrentStream b)) <$> streams_of t w) types) as E1.
    { intros b. apply flat_map_ext. intros t. by apply action_events_all. }
    by rewrite !E1 in Hlog.
Qed.

Lemma switch_pairs_witness :
  let w := registered 2 Demo.voice_ui (registered 1 Demo.voice_ui su_init) in
  reg_ok w ∧ NoDup [PAL_STREAM_VOICE_UI] ∧
  ∃ w' l log, handleConcurrentStreamSwitch [PAL_STREAM_VOICE_UI] w = Some (tt, w') ∧
    NoDup l ∧
    (∀ s, s ∈ l ↔ s ∈ mActiveStreams (su_users w) ∧
       ∃ t, t ∈ [PAL_STREAM_VOICE_UI] ∧ type_of w s = Some t) ∧
    su_log w' = su_log w ++ log ∧
    with_nested (((λ s, EvCall s (HandleConcurrentStream false)) <$> l) ++
                 ((λ s, EvCall s (HandleConcurrentStream true)) <$> l)) log.
Proof.
  intros w.
  assert (reg_ok w) as Hr.
  { apply registered_reg_ok; [|done|done]. apply registered_reg_ok; [apply su_init_inv|done..]. }
  assert (NoDup [PAL_STREAM_VOICE_UI]) as Hn by apply NoDup_singleton.
  split; [exact Hr|]. split; [exact Hn|]. exact (switch_pairs _ w Hr Hn).
Defined.

(** ** Streams that may not run next to each other *)

Definition disable_counts (w : StUtils) : list Z :=
  [concurrencyDisableCount w; ACDConcurrencyDisableCount w; ASRConcurrencyDisableCount w;
   SNSPCMDataConcurrencyDisableCount w].

(** All sound trigger streams, in the order in which they are paused. *)
Definition st_streams (w : StUtils) : list positive :=
  flat_map (λ t, streams_of t w) conc_types.

Section pause.
Context `{StuLaws}.

(** The counter of the type takes the value [n]; the log grows by [e]. *)
Lemma wp_pause_resume t active get set w :
  reg_ok w → disable_count t = Some (get, set) → 0 ≤ get w → (∀ n, get (set n w) = n) →
  st_wp (HandleStreamPauseResume t active)
    (λ _ w', touched
       (if active then if decide (get w = 0) then action_events (ST_PAUSE None) (streams_of t w) else []
        else if decide (get w = 1) then action_events (ST_RESUME None) (streams_of t w) else [])
       (set (if active then get w + 1 else if decide (0 < get w) then get w - 1 else get w) w) w') w.
Proof.
  intros Hreg E Hn Hset. unfold HandleStreamPauseResume. rewrite E.
  assert (∀ n, reg_ok (set n w) ∧ streams_of t (set n w) = streams_of t w) as Hk.
  { intros n. pose proof (disable_count_still t get set n w E) as Hs.
    split; [by eapply still_reg_ok|apply kept_streams_of, Hs]. }
  assert (∀ n a, st_wp (st_bind (HandleDetectionStreamAction t a) (λ _, st_ret tt))
    (λ _ w', touched (action_events a (streams_of t w)) (set n w) w') (set n w)) as Hact.
  { intros n a. destruct (Hk n) as [Hr <-]. apply st_wp_bind.
    eapply st_wp_mono; [by apply wp_HandleDetectionStreamAction|].
    intros r w' Ht. by apply st_wp_ret. }
  apply st_wp_bind, st_wp_gets. destruct active.
  - apply st_wp_bind, st_wp_modify.
    destruct (decide (get w = 0)); [rewrite decide_True by lia; apply Hact|].
    rewrite decide_False by lia. apply st_wp_ret, touched_refl.
  - rewrite decide_False by lia. destruct (decide (get w > 0)).
    + apply st_wp_bind, st_wp_modify. rewrite (decide_True (P := 0 < get w)) by lia.
      destruct (decide (get w = 1)); [rewrite decide_True by lia; apply Hact|].
      rewrite decide_False by lia. apply st_wp_ret, touched_refl.
    + rewrite (decide_False (P := 0 < get w)), (decide_False (P := get w = 1)) by lia.
      apply st_wp_ret. replace (set (get w) w) with w; [apply touched_refl|].
      unfold disable_count in E. repeat case_decide; simplify_eq; by destruct w.
Qed.

(** [still], and the call backs are the same. *)
Definition steady (w w' : StUtils) : Prop :=
  still w w' ∧ onResourceAvailCbList w' = onResourceAvailCbList w.

Lemma steady_trans w1 w2 w3 : steady w1 w2 → steady w2 w3 → steady w1 w3.
Proof. intros [? E1] [? E2]. split; [by eapply still_trans|by rewrite E2]. Qed.

(** The count of a type after a stream opened or closed, and what it calls. *)
Definition next_count (active : bool) (n : Z) : Z :=
  if active then n + 1 else if decide (0 < n) then n - 1 else n.

Definition pause_events (active : bool) (n : Z) (l : list positive) : list SuEvent :=
  if active then if decide (n = 0) then (λ s, EvCall s (Pause false)) <$> l else []
  else if decide (n = 1) then (λ s, EvCall s (Resume false)) <$> l else [].

(** The calls were logged, with those their handlers made. *)
Definition logged (evs : list SuEvent) (w w' : StUtils) : Prop :=
  ∃ log, su_log w' = su_log w ++ log ∧ with_nested evs log.

Lemma logged_nil w w' : su_log w' = su_log w → logged [] w w'.
Proof. intros E. exists []. split; [by rewrite E, app_nil_r|constructor]. Qed.

Lemma logged_trans e1 e2 w1 w2 w3 :
  logged e1 w1 w2 → logged e2 w2 w3 → logged (e1 ++ e2) w1 w3.
Proof.
  intros (l1&E1&H1) (l2&E2&H2). exists (l1 ++ l2).
  split; [by rewrite E2, E1, app_assoc|by apply with_nested_app].
Qed.

Lemma wp_pause_step i t active n w :
  reg_ok w → conc_types !! i = Some t → disable_counts w !! i = Some n → 0 ≤ n →
  st_wp (HandleStreamPauseResume t active)
    (λ _ w', disable_counts w' = <[i := next_count active n]> (disable_counts w) ∧
       logged (pause_events active n (streams_of t w)) w w' ∧ steady w w') w.
Proof.
  intros Hreg Ht Hn Hp.
  assert (∃ get set, disable_count t = Some (get, set) ∧ get w = n ∧
    (∀ n, get (set n w) = n) ∧
    ∀ n, disable_counts (set n w) = <[i := n]> (disable_counts w)) as (get&set&E&Hg&Hgs&Hd).
  { destruct i as [|[|[|[|i]]]]; simplify_eq/=; eexists _, _; (split; [reflexivity|]);
      split_and!; try reflexivity; intros; reflexivity. }
  subst n. eapply st_wp_mono; [by eapply wp_pause_resume|].
  intros r w' Ht'. cbn beta in Ht'.
  pose proof (disable_count_still t get set (next_count active (get w)) w E) as Hst.
  fold (next_count active (get w)) in Ht'. split_and!.
  - rewrite <-Hd. by destruct Ht' as (?&?&?&?&_&_&->).
  - apply touched_fields in Ht' as (_&_&(log&Hlog&Elog)&_). exists log. split.
    + rewrite Elog. f_equal.
      unfold disable_count in E; repeat case_decide; simplify_eq; reflexivity.
    + unfold pause_events. destruct active; case_decide; by rewrite ?action_events_all in Hlog.
  - split; [eapply still_trans; [exact Hst|by eapply touched_still]|].
    destruct Ht' as (?&?&?&?&_&_&->).
    unfold disable_count in E; repeat case_decide; simplify_eq; reflexivity.
Qed.

Lemma wp_pause_all active n w :
  reg_ok w → disable_counts w = replicate 4 n → 0 ≤ n →
  st_wp (st_for conc_types (λ t, HandleStreamPauseResume t active))
    (λ _ w', disable_counts w' = replicate 4 (next_count active n) ∧
       logged (pause_events active n (st_streams w)) w w' ∧ steady w w') w.
Proof.
  intros Hreg Hd Hn.
  assert (∀ k l w1, drop k conc_types = l → (k ≤ 4)%nat → reg_ok w1 → steady w w1 →
    disable_counts w1 = replicate k (next_count active n) ++ replicate (4 - k) n →
    st_wp (st_for l (λ t, HandleStreamPauseResume t active))
      (λ _ w', disable_counts w' = replicate 4 (next_count active n) ∧
         logged (pause_events active n (flat_map (λ t, streams_of t w) l)) w1 w' ∧
         steady w w') w1) as Hgen.
  { intros k l. revert k. induction l as [|t l IH]; intros k w1 Hl Hk Hr1 Hs1 Hd1.
    { apply st_wp_ret. split_and!; [|by destruct active; simpl; case_decide; apply logged_nil|done].
      destruct k as [|[|[|[|[|k]]]]]; simpl in *; (done || lia). }
    simpl. apply st_wp_bind.
    assert (k < 4)%nat as Hk4 by (destruct k as [|[|[|[|[|k]]]]]; simpl in *; (done || lia)).
    eapply st_wp_mono; [apply (wp_pause_step k t active n)|].
    - done.
    - rewrite <-(Nat.add_0_r k), <-lookup_drop, Hl. done.
    - rewrite Hd1, lookup_app_r, length_replicate, Nat.sub_diag by (by rewrite length_replicate).
      destruct k as [|[|[|[|k]]]]; simpl; (done || lia).
    - done.
    - intros r w2 (Hd2&Hlog&Hs2).
      assert (steady w w2) as Hs12 by by eapply steady_trans.
      eapply st_wp_mono; [apply (IH (S k) w2)|].
      + rewrite <-Nat.add_1_r, <-drop_drop, Hl. done.
      + lia.
      + eapply still_reg_ok; [apply Hs12|done].
      + done.
      + rewrite Hd2, Hd1. destruct k as [|[|[|[|k]]]]; simpl; (done || lia).
      + intros ? w3 (->&Hlog3&?). split_and!; [done| |done].
        rewrite (kept_streams_of w w1) in Hlog by apply Hs1.
        pose proof (logged_trans _ _ _ _ _ Hlog Hlog3) as Hl3.
        unfold pause_events in *. destruct active; case_decide; by rewrite ?fmap_app. }
  apply (Hgen 0%nat); [done|lia|done|split; [apply still_refl|done]|by rewrite Hd].
Qed.
End pause.

(** The concurrency flag a stream gets in a state. *)
Definition conc_en `{StuEnv} (o : StStream) (w : StUtils) : bool :=
  (concurrency_info (ss_type o) (ss_direction o) (ss_support_lpi o)
     (IsVoiceCallConcurrencySupported w)).2.

(** A loop that only logs. *)
Lemma wp_for_log (l : list (Z * Z)) w :
  st_wp (st_for l (λ '(cb, cookie), log (EvResourceAvailable cb cookie)))
    (λ _ w', w' = set_su_log (su_log w ++ ((λ '(cb, cookie), EvResourceAvailable cb cookie) <$> l)) w) w.
Proof.
  revert w. induction l as [|[cb cookie] l IH]; intros w; simpl.
  { apply st_wp_ret. rewrite app_nil_r. by destruct w. }
  apply st_wp_bind, st_wp_modify. eapply st_wp_mono; [apply IH|].
  intros a w' ->. destruct w; su_cbv. by rewrite <-app_assoc.
Qed.

(** C19: Opening or closing a stream next to which the sound trigger streams may not
    run, when there is neither a speech recognition stream nor a sensor stream in normal
    power and the streams keep [StuLaws]: the four counts stay equal and count such
    streams, the first one opened pauses every active sound trigger stream once, the last
    one closed resumes every one and then calls the registered call backs; the others call
    nothing, and the mode does not change. Any other call in the log was made by the
    handler of the stream called before it. *)
Theorem pauses_counted `{StuLaws} s o active n w :
  reg_ok w → active_stream_locked w = false → su_streams w !! s = Some o →
  conc_en o w = false → disable_counts w = replicate 4 n → 0 ≤ n →
  ∃ w' log, HandleConcurrencyForSoundTriggerStreams s active w = Some (tt, w') ∧
    disable_counts w' = replicate 4 (next_count active n) ∧
    with_nested (pause_events active n (st_streams w)) log ∧
    su_log w' = su_log w ++ log ++
      (if decide (active = false ∧ n = 1) then
         (λ '(cb, cookie), EvResourceAvailable cb cookie) <$> onResourceAvailCbList w
       else []) ∧
    same_mode w w'.
Proof.
  intros Hreg Hl Ho Hen Hd Hn.
  enough (st_wp (HandleConcurrencyForSoundTriggerStreams s active)
    (λ _ w', ∃ log, disable_counts w' = replicate 4 (next_count active n) ∧
       with_nested (pause_events active n (st_streams w)) log ∧
       su_log w' = su_log w ++ log ++
         (if decide (active = false ∧ n = 1) then
            (λ '(cb, cookie), EvResourceAvailable cb cookie) <$> onResourceAvailCbList w
          else []) ∧ same_mode w w') w) as ([]&w'&E&log&HQ)
    by (exists w', log; exact (conj E HQ)).
  apply st_wp_bind, wp_lock; [done|]. set (w0 := set_active_stream_locked true w).
  assert (reg_ok w0) as Hr0 by by apply set_locked_reg.
  apply st_wp_bind, st_wp_bind, st_wp_gets, st_wp_bind.
  apply wp_stream; [by exists o|]. intros o' [= ->]%(eq_trans (eq_sym Ho)).
  apply st_wp_ret. unfold conc_en in Hen.
  change (IsVoiceCallConcurrencySupported w0) with (IsVoiceCallConcurrencySupported w).
  destruct (concurrency_info _ _ _ _) as [[rx tx] en]. simpl in Hen. subst en.
  apply st_wp_bind.
  apply (st_wp_mono _ (λ _ w', ∃ m, w' = set_TxconcurrencyEnableCount m w0)).
  { destruct tx; [|by apply st_wp_ret; exists (TxconcurrencyEnableCount w0); destruct w].
    apply st_wp_bind, st_wp_gets.
    destruct active; [by apply st_wp_modify; eexists|].
    case_decide; [by apply st_wp_modify; eexists|].
    by apply st_wp_ret; exists (TxconcurrencyEnableCount w0); destruct w. }
  intros _ w1 [m ->]. set (w1 := set_TxconcurrencyEnableCount m w0).
  assert (still w0 w1) as Hs1 by apply still_tx.
  assert (reg_ok w1) as Hr1 by by eapply still_reg_ok.
  apply st_wp_bind, st_wp_ret, st_wp_bind, st_wp_gets, st_wp_bind.
  change (concurrencyDisableCount w1) with (concurrencyDisableCount w).
  assert (concurrencyDisableCount w = n) as -> by (unfold disable_counts in Hd; by simplify_eq/=).
  eapply st_wp_mono; [by apply (wp_pause_all active n w1)|].
  intros ? w2 (Hd2&(log&Hlog2&Hnest)&Hs2&Hcb2).
  apply st_wp_bind, st_wp_ret, st_wp_bind, st_wp_modify, st_wp_bind, st_wp_gets.
  change (onResourceAvailCbList (set_active_stream_locked false w2))
    with (onResourceAvailCbList w2). rewrite Hcb2.
  assert (same_mode w w2) as Hm2 by (destruct Hs2 as [_ [Hm1 Hm2]]; by split).
  change (st_streams w1) with (st_streams w) in Hnest.
  change (su_log w1) with (su_log w) in Hlog2.
  change (onResourceAvailCbList w1) with (onResourceAvailCbList w).
  replace (negb false && negb active && bool_decide (n = 1))
    with (bool_decide (active = false ∧ n = 1))
    by (destruct active; [apply bool_decide_eq_false; naive_solver|apply bool_decide_ext; naive_solver]).
  destruct (decide (active = false ∧ n = 1)) as [Hlast|Hlast].
  - rewrite bool_decide_eq_true_2 by done.
    eapply st_wp_mono; [apply wp_for_log|]. intros ? w3 ->. exists log.
    split; [exact Hd2|]. split; [exact Hnest|]. split; [|exact Hm2].
    change (su_log w2 ++ ((λ '(cb, cookie), EvResourceAvailable cb cookie) <$>
            onResourceAvailCbList w) = su_log w ++ log ++
            ((λ '(cb, cookie), EvResourceAvailable cb cookie) <$> onResourceAvailCbList w)).
    by rewrite Hlog2, <-app_assoc.
  - rewrite bool_decide_eq_false_2 by done. apply st_wp_ret. exists log.
    split; [exact Hd2|]. split; [exact Hnest|]. split; [|exact Hm2].
    rewrite app_nil_r. exact Hlog2.
Qed.

Lemma pauses_counted_witness :
  let w := registered 2 Demo.voice_call (registered 1 Demo.voice_ui su_init) in
  reg_ok w ∧ active_stream_locked w = false ∧ su_streams w !! 2%positive = Some Demo.voice_call ∧
  conc_en Demo.voice_call w = false ∧ disable_counts w = replicate 4 0 ∧ 0 ≤ 0 ∧
  ∃ w' log, HandleConcurrencyForSoundTriggerStreams 2 true w = Some (tt, w') ∧
    disable_counts w' = replicate 4 (next_count true 0) ∧
    with_nested (pause_events true 0 (st_streams w)) log ∧
    su_log w' = su_log w ++ log ++
      (if decide (true = false ∧ 0 = 1) then
         (λ '(cb, cookie), EvResourceAvailable cb cookie) <$> onResourceAvailCbList w
       else []) ∧
    same_mode w w'.
Proof.
  intros w.
  assert (reg_ok w) as Hr.
  { apply registered_reg_ok; [|done|done]. apply registered_reg_ok; [apply su_init_inv|done..]. }
  assert (su_streams w !! 2%positive = Some Demo.voice_call) as Hs by reflexivity.
  assert (conc_en Demo.voice_call w = false) as He by reflexivity.
  assert (0 ≤ 0) as Hz by lia.
  split; [exact Hr|]. split; [reflexivity|]. split; [exact Hs|]. split; [exact He|].
  split; [reflexivity|]. split; [exact Hz|].
  exact (pauses_counted 2 _ true 0 w Hr eq_refl Hs He eq_refl Hz).
Defined.

(** ** The common capture profile *)

(** The profiles that count, in the order of the loops. *)
Definition candidates (prof : positive → option CaptureProfile) (check : bool)
    (skip : CaptureProfile → bool) (s : option positive) (w : StUtils) (l : list positive)
    : list CaptureProfile :=
  omap (λ str, o ← su_streams w !! str;
          cap ← prof str;
          if decide (Some str = s ∨ (check = true ∧ ss_active o = false) ∨ skip cap = true)
          then None else Some cap) l.

Definition handset_skip (cap : CaptureProfile) : bool :=
  bool_decide (cp_dev_id cap ∈ [PAL_DEVICE_IN_HANDSET_MIC; PAL_DEVICE_IN_SPEAKER_MIC;
    PAL_DEVICE_IN_WIRED_HEADSET]).

Definition all_candidates (prof : positive → option CaptureProfile) (s : option positive)
    (w : StUtils) : list CaptureProfile :=
  candidates prof true handset_skip s w (streams_of PAL_STREAM_VOICE_UI w) ++
  candidates prof true (λ _, false) s w (streams_of PAL_STREAM_ACD w) ++
  candidates prof false (λ _, false) s w (streams_of PAL_STREAM_SENSOR_PCM_DATA w) ++
  candidates prof true (λ _, false) s w (streams_of PAL_STREAM_ASR w).

Definition select (backend : string) (p : option CaptureProfile) (l : list CaptureProfile)
    : option CaptureProfile :=
  foldl (λ p cap, better_profile backend cap p) p l.

Lemma better_profile_cases backend cap p :
  better_profile backend cap p = p ∨
  better_profile backend cap p = Some cap ∧ cp_backend cap = backend.
Proof.
  unfold better_profile. case_decide as Hb; [by left|]. case_decide; [|by left].
  by right.
Qed.

Lemma select_in backend p l c :
  select backend p l = Some c → p = Some c ∨ (c ∈ l ∧ cp_backend c = backend).
Proof.
  revert p. induction l as [|x l IH]; intros p; simpl; [by left|].
  intros [E|[? ?]]%IH; [|right; set_solver].
  destruct (better_profile_cases backend x p) as [Hp|[Hp ?]]; rewrite Hp in E; [by left|].
  simplify_eq. right. set_solver.
Qed.

Lemma select_is_Some backend p l :
  is_Some p ∨ (∃ x, x ∈ l ∧ cp_backend x = backend) → is_Some (select backend p l).
Proof.
  revert p. induction l as [|x l IH]; intros p; simpl.
  { intros [?|(?&Hin&_)]; [done|]. by apply not_elem_of_nil in Hin. }
  intros Hp. apply IH.
  assert (is_Some p ∨ cp_backend x = backend → is_Some (better_profile backend x p)) as Hb.
  { unfold better_profile. intros Hx. case_decide; [by destruct Hx|].
    case_decide as Hc; [done|]. destruct p; [done|].
    exfalso. apply Hc. simpl. unfold CAPTURE_PROFILE_PRIORITY_HIGH. lia. }
  destruct Hp as [Hp|(y&[->|Hy]%elem_of_cons&E)]; [left|left|right]; eauto.
Qed.

(** On candidates that are comparable, the selected one is the best. *)
Lemma select_dominates backend l p c :
  (∀ x y, x ∈ l ∨ p = Some x → y ∈ l ∨ p = Some y →
     cp_backend x = backend → cp_backend y = backend → dominates x y ∨ dominates y x) →
  (∀ x, p = Some x → cp_backend x = backend) →
  select backend p l = Some c →
  ∀ x, p = Some x ∨ (x ∈ l ∧ cp_backend x = backend) → dominates c x.
Proof.
  revert p. induction l as [|y l IH]; intros p Hch Hp; simpl.
  { intros -> x [[= ->]|[Hx _]]; [done|by apply not_elem_of_nil in Hx]. }
  intros E x Hx.
  assert (∀ q, better_profile backend y p = Some q → p = Some q ∨
            (q = y ∧ cp_backend y = backend)) as Hq.
  { intros q Eq. destruct (better_profile_cases backend y p) as [Hb|[Hb ?]];
      rewrite Hb in Eq; [by left|]. simplify_eq. by right. }
  assert (∀ z, better_profile backend y p = Some z ∨ (z ∈ l ∧ cp_backend z = backend) →
            dominates c z) as HIH.
  { intros z Hz. eapply IH; [| |exact E|exact Hz].
    - intros a b Ha Hb. apply Hch.
      + destruct Ha as [Ha|Ha]; [set_solver|]. apply Hq in Ha as [?|[-> _]]; set_solver.
      + destruct Hb as [Hb|Hb]; [set_solver|]. apply Hq in Hb as [?|[-> _]]; set_solver.
    - intros a Ha. apply Hq in Ha as [?|[-> ?]]; [by apply Hp|done]. }
  (* what the comparison of [y] with [p] decided *)
  unfold better_profile in HIH.
  destruct (decide (cp_backend y ≠ backend)) as [Hy|Hy].
  { apply HIH. destruct Hx as [?|[Hx ?]]; [by left|]. right. set_solver. }
  apply dec_stable in Hy. destruct p as [q|].
  2:{ rewrite decide_True in HIH by (simpl; unfold CAPTURE_PROFILE_PRIORITY_HIGH; lia).
      destruct Hx as [?|[[->|?]%elem_of_cons ?]]; [done|apply HIH; by left|apply HIH; by right]. }
  pose proof (Hp q eq_refl) as Hqb.
  assert (dominates y q ∨ dominates q y) as Hyq by (apply Hch; set_solver).
  assert (cp_backend y = cp_backend q) as Hbb by congruence.
  pose proof (ComparePriority_opp y q Hbb) as Hopp.
  case_decide as Hc; unfold CAPTURE_PROFILE_PRIORITY_HIGH in Hc.
  - assert (dominates y q) as Hd.
    { destruct Hyq as [?|Hd]; [done|]. apply dominates_priority in Hd. lia. }
    assert (dominates c y) as Hcy by (apply HIH; by left).
    destruct Hx as [[= ->]|[[->|?]%elem_of_cons ?]]; [by etrans|done|apply HIH; by right].
  - assert (dominates q y) as Hd.
    { destruct Hyq as [Hd|?]; [|done]. pose proof (dominates_priority _ _ Hd).
      apply dominates_same; [done|lia]. }
    assert (dominates c q) as Hcq by (apply HIH; by left).
    destruct Hx as [[= ->]|[[->|?]%elem_of_cons ?]]; [done|by etrans|apply HIH; by right].
Qed.

(** In the state [w], each stream has the profile [prof]: asked for it, it changes nothing
    but [mNLPIStreams], to which it may add itself, and the profile does not depend on
    that set ([GetCurrentCaptureProfile]; [registerNLPIStream] in [StreamASR]). *)
Definition profiles_are `{StuEnv} (prof : positive → option CaptureProfile) (w : StUtils)
    : Prop :=
  ∀ s n, s ∈ mActiveStreams (su_users w) → mNLPIStreams w ⊆ n →
    stream_profile s (set_mNLPIStreams n w) = Some (prof s, set_mNLPIStreams n w) ∨
    stream_profile s (set_mNLPIStreams n w) =
      Some (prof s, set_mNLPIStreams ({[s]} ∪ n) w).

Lemma set_mNLPIStreams_id w : set_mNLPIStreams (mNLPIStreams w) w = w.
Proof. by destruct w. Qed.

Section profiles.
Context `{StuEnv} (prof : positive → option CaptureProfile) (w : StUtils).
Hypothesis Hprof : profiles_are prof w.

(** The result is [r], and asking only added to [mNLPIStreams]. *)
Definition answers {A} (m : St StUtils A) (r : A) : Prop :=
  ∀ n, mNLPIStreams w ⊆ n →
    ∃ n', n ⊆ n' ∧ m (set_mNLPIStreams n w) = Some (r, set_mNLPIStreams n' w).

Lemma answers_bind {A B} (m : St StUtils A) (k : A → St StUtils B) a b :
  answers m a → answers (k a) b → answers (st_bind m k) b.
Proof.
  intros Hm Hk n Hn. destruct (Hm n Hn) as (n1&H1&E1).
  destruct (Hk n1) as (n2&H2&E2); [by etrans|].
  exists n2. split; [by etrans|]. unfold st_bind. by rewrite E1.
Qed.

Lemma profile_loop_select check skip s backend l p :
  (∀ x, x ∈ l → x ∈ mActiveStreams (su_users w)) → alive w l →
  answers (profile_loop check skip s backend l p)
    (select backend p (candidates prof check skip s w l)).
Proof.
  revert p. induction l as [|str l IH]; intros p Hin.
  { intros _ n Hn. by exists n. }
  intros [[o Ho] Hl]%alive_cons.
  assert (∀ p, answers (profile_loop check skip s backend l p)
    (select backend p (candidates prof check skip s w l))) as IH'
    by (intros q; apply IH; [set_solver|done]). clear IH. rename IH' into IH.
  intros n Hn.
  unfold candidates in *. cbn [profile_loop omap list_omap]. rewrite Ho. simpl.
  destruct (decide (Some str = s)) as [Hs|Hs].
  { destruct (IH p n Hn) as (n'&Hn'&->). exists n'. split; [done|].
    destruct (prof str); simpl; [|done].
    rewrite decide_True by (by left). done. }
  unfold st_bind at 1, stream at 1.
  change (su_streams (set_mNLPIStreams n w)) with (su_streams w). rewrite Ho.
  destruct (check && negb (ss_active o)) eqn:Ec.
  { apply andb_prop in Ec as [-> Ea%negb_true_iff].
    destruct (IH p n Hn) as (n'&Hn'&->). exists n'. split; [done|].
    destruct (prof str); simpl; [|done]. rewrite decide_True by tauto. done. }
  assert (¬ (check = true ∧ ss_active o = false)) as Hc
    by (destruct check, (ss_active o); naive_solver).
  assert (∃ n1, n ⊆ n1 ∧ stream_profile str (set_mNLPIStreams n w) =
    Some (prof str, set_mNLPIStreams n1 w)) as (n1&Hn1&E).
  { destruct (Hprof str n) as [E|E]; [apply Hin; set_solver|done|by exists n|].
    exists ({[str]} ∪ n). split; [set_solver|done]. }
  assert (mNLPIStreams w ⊆ n1) as Hw1 by by etrans.
  unfold st_bind. rewrite E. destruct (prof str) as [cap|]; simpl.
  2:{ destruct (IH p n1 Hw1) as (n'&Hn'&->). exists n'. split; [by etrans|done]. }
  destruct (skip cap) eqn:Ek.
  - rewrite decide_True by tauto.
    destruct (IH p n1 Hw1) as (n'&Hn'&->). exists n'. split; [by etrans|done].
  - rewrite decide_False by naive_solver. simpl.
    destruct (IH (better_profile backend cap p) n1 Hw1) as (n'&Hn'&->).
    exists n'. split; [by etrans|done].
Qed.

Lemma GetCaptureProfileByPriority_select s backend :
  reg_wf w →
  answers (GetCaptureProfileByPriority s backend)
    (select backend None (all_candidates prof s w)).
Proof.
  intros Hreg.
  assert (∀ t, default [] (activeStreamMap (su_users w) !! t) = streams_of t w) as Hd.
  { intros t. rewrite (reg_map w Hreg). case_decide as E; [by rewrite E|done]. }
  assert (∀ t x, x ∈ streams_of t w → x ∈ mActiveStreams (su_users w)) as Hin
    by (intros t x [? _]%elem_of_streams_of; done).
  assert (∀ t check skip p, answers
    (st_bind (getActiveStreamByType_l t) (λ l, profile_loop check skip s backend l p))
    (select backend p (candidates prof check skip s w (streams_of t w)))) as Hl.
  { intros t check skip p. apply (answers_bind _ _ (streams_of t w)).
    - intros n Hn. exists n. split; [done|]. unfold getActiveStreamByType_l, st_gets.
      by rewrite <-Hd.
    - apply profile_loop_select; [by apply Hin|].
      intros x Hx. by eapply reg_alive, Hin. }
  unfold GetCaptureProfileByPriority, all_candidates, select. rewrite !foldl_app.
  do 3 (eapply answers_bind; [apply Hl|]). apply Hl.
Qed.
End profiles.

(** C21: In a state in which every active stream has a profile ([profiles_are]: asked for
    it a stream changes nothing, or registers itself as needing normal power, which does
    not change the profiles), the profile chosen for a back end is one of a candidate (an active stream but [s], with a profile that is
    not passed over), there is one as soon as there is a candidate, and if any two
    candidates are comparable in all attributes it is at least as good as each of them
    in every attribute; nothing changes but registrations for normal power. *)
Theorem best_profile_chosen `{StuEnv} prof s backend w :
  profiles_are prof w → reg_wf w →
  let l := filter (λ cap, cp_backend cap = backend) (all_candidates prof s w) in
  ∃ r n, GetCaptureProfileByPriority s backend w = Some (r, set_mNLPIStreams n w) ∧
    mNLPIStreams w ⊆ n ∧
    (r = None ↔ l = []) ∧
    (∀ c, r = Some c → c ∈ l ∧
       ((∀ x y, x ∈ l → y ∈ l → dominates x y ∨ dominates y x) →
        ∀ x, x ∈ l → dominates c x)).
Proof.
  intros Hprof Hreg l.
  destruct (GetCaptureProfileByPriority_select prof w Hprof s backend Hreg (mNLPIStreams w))
    as (n&Hn&E0); [done|]. rewrite set_mNLPIStreams_id in E0. rewrite E0. clear E0.
  set (l0 := all_candidates prof s w) in *.
  assert (∀ x, x ∈ l ↔ x ∈ l0 ∧ cp_backend x = backend) as Hl.
  { intros x. unfold l. rewrite list_elem_of_filter. tauto. }
  eexists _, n. split; [done|]. split; [done|]. split.
  - destruct l as [|x l'] eqn:El.
    + split; [done|]. intros _. destruct (select _ _ _) as [c|] eqn:E; [|done].
      apply select_in in E as [?|Hc]; [done|]. apply Hl in Hc. by apply not_elem_of_nil in Hc.
    + split; [|done]. intros E. exfalso.
      destruct (select_is_Some backend None l0) as [c Hc]; [|congruence].
      right. exists x. apply Hl. set_solver.
  - intros c E. split.
    + apply select_in in E as [?|?]; [done|]. by apply Hl.
    + intros Hch x Hx. eapply select_dominates; [| |exact E|right; by apply Hl].
      * intros a b [Ha|?] [Hb|?] ??; try done. by apply Hch; apply Hl.
      * done.
Qed.

Lemma best_profile_chosen_witness :
  let w := registered 2 Demo.voice_ui (registered 1 Demo.voice_ui su_init) in
  profiles_are Demo.prof w ∧ reg_wf w ∧
  let l := filter (λ cap, cp_backend cap = "va_macro"%string)
             (all_candidates Demo.prof None w) in
  ∃ r n, GetCaptureProfileByPriority None "va_macro" w = Some (r, set_mNLPIStreams n w) ∧
    mNLPIStreams w ⊆ n ∧
    (r = None ↔ l = []) ∧
    (∀ c, r = Some c → c ∈ l ∧
       ((∀ x y, x ∈ l → y ∈ l → dominates x y ∨ dominates y x) →
        ∀ x, x ∈ l → dominates c x)).
Proof.
  intros w. assert (profiles_are Demo.prof w) as Hp by (intros ? ? ? ?; left; reflexivity).
  assert (reg_wf w) as Hr. { apply reg_ok_wf.
    apply registered_reg_ok; [|done|done]. apply registered_reg_ok; [apply su_init_inv|done..]. }
  split; [exact Hp|]. split; [exact Hr|].
  exact (best_profile_chosen Demo.prof None "va_macro" w Hp Hr).
Defined.

(** The comparison counts attributes, so it has cycles: of three profiles of one
    back end each beats the one before it, and the one chosen depends on the order of
    the streams and is itself beaten by another candidate. *)
Theorem priority_has_cycles :
  ∃ a b c,
    cp_backend a = "va_macro"%string ∧ cp_backend b = "va_macro"%string ∧
    cp_backend c = "va_macro"%string ∧
    CAPTURE_PROFILE_PRIORITY_HIGH ≤ ComparePriority b (Some a) ∧
    CAPTURE_PROFILE_PRIORITY_HIGH ≤ ComparePriority c (Some b) ∧
    CAPTURE_PROFILE_PRIORITY_HIGH ≤ ComparePriority a (Some c) ∧
    select "va_macro" None [a; b; c] = Some c ∧
    select "va_macro" None [b; c; a] = Some a.
Proof.
  exists (Demo.profile_at 16000 24 4), (Demo.profile_at 48000 32 1),
    (Demo.profile_at 96000 16 2).
  split_and!; vm_compute; try reflexivity; discriminate.
Qed.

(** Asking for the device of a stream uses a null pointer exactly when neither the
    stream nor the common profile of the back end of that device exists but the common
    profile of the other back end does. *)
Theorem GetPalDevice_null `{StuEnv} prof s o dev_id w :
  stream_profile s w = Some (prof, w) → su_streams w !! s = Some o →
  GetPalDevice (Some s) dev_id w = None ↔
    prof = None ∧
    if decide (dev_id = PAL_DEVICE_IN_ULTRASOUND_MIC)
    then TXMacroCaptureProfile w = None ∧ SoundTriggerCaptureProfile w ≠ None
    else SoundTriggerCaptureProfile w = None ∧ TXMacroCaptureProfile w ≠ None.
Proof.
  intros Hpure Ho. unfold GetPalDevice, st_bind, stream, st_gets, st_lift, st_ret.
  rewrite Ho, Hpure.
  destruct prof as [p|], (SoundTriggerCaptureProfile w) as [c|],
    (TXMacroCaptureProfile w) as [c'|];
    repeat case_decide; simpl; repeat case_match; naive_solver.
Qed.

Lemma GetPalDevice_null_witness :
  let w := set_SoundTriggerCaptureProfile (Some (Demo.profile_at 16000 16 1))
             (registered 3 Demo.voice_ui su_init) in
  stream_profile 3 w = Some (Demo.prof 3, w) ∧
  su_streams w !! 3%positive = Some Demo.voice_ui ∧
  (GetPalDevice (Some 3%positive) PAL_DEVICE_IN_ULTRASOUND_MIC w = None ↔
    Demo.prof 3 = None ∧
    if decide (PAL_DEVICE_IN_ULTRASOUND_MIC = PAL_DEVICE_IN_ULTRASOUND_MIC)
    then TXMacroCaptureProfile w = None ∧ SoundTriggerCaptureProfile w ≠ None
    else SoundTriggerCaptureProfile w = None ∧ TXMacroCaptureProfile w ≠ None).
Proof.
  intros w. assert (stream_profile 3 w = Some (Demo.prof 3, w)) as Hp by reflexivity.
  assert (su_streams w !! 3%positive = Some Demo.voice_ui) as Ho by reflexivity.
  split; [exact Hp|]. split; [exact Ho|].
  exact (GetPalDevice_null (Demo.prof 3) 3 _ PAL_DEVICE_IN_ULTRASOUND_MIC w Hp Ho).
Defined.

(** ** Histories whose calls are not well behaved *)

(** The playback ends, which defers the switch back by five seconds; meanwhile the only
    voice UI stream goes, the charger comes, and a new voice UI stream appears. *)
Definition charger_history : list su_op :=
  [ OpCreate 1 Demo.voice_ui; OpCreate 2 Demo.playback; OpConcurrency 2 true;
    OpConcurrency 2 false; OpDestroy 1; OpParameter (PARAM_CHARGING_STATE true true);
    OpCreate 3 Demo.voice_ui; OpDeferredSwitch ].

(** [onVUIStreamRegistered] looks at the current mode only: a switch to low power
    that is pending when a voice UI stream appears on a charger is carried out, and the
    stream stays in low power on the charger. *)
Theorem charger_ignored_by_deferral :
  ∃ w, su_history charger_history su_init = Some (tt, w) ∧
    charging_state_ w = true ∧ streams_of PAL_STREAM_VOICE_UI w = [3%positive] ∧
    deferredSwitchState w = NO_DEFER ∧ use_lpi_ w = true ∧ wants_nlpi w = true.
Proof. eexists. split; [vm_compute; reflexivity|]. vm_compute. by split_and!. Qed.

(** A voice call, a second one from a caller without a ring back tone, and the end of
    both ([pal_stream_close] resets the flag after it reports the stream). *)
Definition crs_history : list su_op :=
  [ OpCreate 1 Demo.voice_ui;
    OpCreate 2 Demo.voice_call; OpConcurrency 2 true;
    OpCRS true; OpCreate 3 Demo.voice_call; OpConcurrency 3 true;
    OpConcurrency 2 false; OpCRS false; OpDestroy 2;
    OpConcurrency 3 false; OpCRS false; OpDestroy 3 ].

(** Whether a voice call may run next to the sound trigger streams is asked again
    when it closes. With two calls the flag that allowed the second is reset by the
    first, so the second is never taken off [mNLPIStreams]: after both ended the voice
    UI stream stays in normal power, for a stream that no longer exists. *)
Theorem crs_call_leaves_normal_power :
  ∃ w, su_history crs_history su_init = Some (tt, w) ∧
    dom (su_streams w) = {[ 1%positive ]} ∧ mNLPIStreams w = {[ 3%positive ]} ∧
    deferredSwitchState w = NO_DEFER ∧ use_lpi_ w = false.
Proof. eexists. split; [vm_compute; reflexivity|]. by split_and!; vm_compute. Qed.

(** A stream is started while the switch to normal power waits for the end of a
    buffering stream, and closed before that end. *)
Definition deferred_start_history : list su_op :=
  [ OpCreate 1 Demo.voice_ui; OpStreamState 1 true true;
    OpCreate 2 Demo.playback; OpConcurrency 2 true;
    OpCreate 3 Demo.voice_ui; OpDeferStart 3 true ].

(** A start that was put off is only ever carried out by the deferred switch: when
    the playback ends first the switch is cancelled and the stream, whose [start]
    reported success, stays in the list unstarted; when the stream is closed first its
    address stays in the list and the switch uses a freed stream. *)
Theorem deferred_start_lost :
  (∃ w, su_history (deferred_start_history ++ [OpConcurrency 2 false]) su_init = Some (tt, w) ∧
     deferredSwitchState w = NO_DEFER ∧ mStartDeferredStreams w = [3%positive] ∧
     EvCall 3 start_l ∉ su_log w) ∧
  (∃ w, su_history (deferred_start_history ++ [OpDestroy 3; OpStreamState 1 true false])
          su_init = Some (tt, w) ∧
     mStartDeferredStreams w = [3%positive] ∧ stHandleDeferredSwitch w = None).
Proof.
  split; eexists; (split; [vm_compute; reflexivity|]).
  - split_and!; [done..|]. vm_compute. set_solver.
  - by split_and!; vm_compute.
Qed.

(** ** Streams that are not quiet

    The platform of the examples with the part of two handlers that comes back to this
    file: [ASRActive::ProcessEvent] for a pause of a speech recognition stream that does
    not use the low power profile, and [StreamSensorPCMData::Pause], which calls [stop]. *)
Module CallBack.
Local Open Scope st_scope.

Definition asr_pause (s : positive) (o : StStream) : St StUtils Z :=
  deregisterNLPIStream s ;;;;
  lpi <-- getLPIUsage ;;
  (if ss_support_lpi o && lpi then @forceSwitchSoundTriggerStreams Demo.env false
   else st_ret tt) ;;;;
  st_ret 0.

Definition sensor_pause (s : positive) (o : StStream) : St StUtils Z :=
  (if ss_support_lpi o then st_ret tt else updateDeferredSTStreams s false) ;;;; st_ret 0.

Definition handler (s : positive) (c : SuCall) : St StUtils Z := λ w,
  match su_streams w !! s, c with
  | Some o, Pause _ =>
      if decide (ss_type o = PAL_STREAM_ASR) then asr_pause s o w
      else if decide (ss_type o = PAL_STREAM_SENSOR_PCM_DATA) then sensor_pause s o w
      else Some (0, w)
  | _, _ => Some (0, w)
  end.

Definition env : StuEnv := {|
  stream_call := handler;
  stream_profile := λ s w, Some (Demo.prof s, w);
  vendor_uuid := λ _ _, (0, []);
  device_available := λ _, true;
  support_nlpi_switch_ := true;
  support_device_switch_ := true;
  concurrent_capture_ := true;
  concurrent_voice_call_ := false;
  concurrent_voip_call_ := true;
  low_latency_bargein_enable_ := true;
  transit_to_non_lpi_on_charging_ := true;
|}.

Definition recognition : StStream := mkStStream PAL_STREAM_ASR PAL_AUDIO_INPUT true false true.
Definition sensor (lpi : bool) : StStream :=
  mkStStream PAL_STREAM_SENSOR_PCM_DATA PAL_AUDIO_INPUT true false lpi.
End CallBack.

(** A speech recognition stream starts in normal power ([SetRecognitionConfig]): it
    registers itself and forces a switch, which does not change the mode. So it runs,
    and all other streams with it, in low power against the policy; and when a voice call
    then pauses it, [mActiveStreamMutex] is held and the forced switch back takes it
    again. *)
Theorem recognition_against_policy :
  ∃ w, @su_history CallBack.env
      [ OpCreate 1 CallBack.recognition; OpRegisterNLPI 1; OpForceSwitch true;
        OpCreate 2 Demo.voice_call ] su_init = Some (tt, w) ∧
    wants_nlpi w = true ∧ deferredSwitchState w = NO_DEFER ∧ use_lpi_ w = true ∧
    @HandleConcurrencyForSoundTriggerStreams CallBack.env 2 true w = None.
Proof. eexists. split; [vm_compute; reflexivity|]. by split_and!; vm_compute. Qed.

(** A voice call pauses a sensor stream that is configured for normal power: [stop] takes
    [mActiveStreamMutex], which the caller of [Pause] holds. In low power it returns. *)
Theorem sensor_pause_deadlocks lpi :
  ∃ w, @su_history CallBack.env
      [ OpCreate 1 (CallBack.sensor lpi); OpCreate 2 Demo.voice_call ] su_init = Some (tt, w) ∧
    (@HandleConcurrencyForSoundTriggerStreams CallBack.env 2 true w = None ↔ lpi = false).
Proof.
  destruct lpi; eexists; (split; [vm_compute; reflexivity|]).
  - split; [|done]. vm_compute. discriminate.
  - split; [done|]. intros _. by vm_compute.
Qed.
