(* ===== verification/STUtilsThread.v ===== *)
(** * The deferred switch thread (utils/src/STUtils.cpp)

    With low latency barge-in, [checkAndUpdateDeferSwitchState] arms a countdown that
    [voiceUIDeferredSwitchLoop] carries out.  The relation [step] interleaves the
    sections of the thread between two places where it gives up [vui_switch_mutex_]
    with the critical sections of the others: arming and cancelling the countdown, and
    [STUtilsDeinit].  The thread holds a wake lock while it counts. *)

From S2P Require Import Prelude.

Module DeferredSwitch.

(** Where [voiceUIDeferredSwitchLoop] is; in all of these it does not hold the mutex. *)
Inductive place :=
  | Begin           (* before lck is taken *)
  | Waiting         (* in vui_switch_cv_.wait *)
  | Woken           (* notified, takes the mutex again *)
  | Sleeping        (* in sleep(NLPI_LPI_SWITCH_SLEEP_INTERVAL_SEC) *)
  | Handling        (* in stHandleDeferredSwitch *)
  | Returned.

#[export] Instance place_eq_dec : EqDecision place.
Proof. solve_decision. Defined.

(** [wake_locks] counts the wake locks the thread has taken and not given back;
    [handled] the calls of [stHandleDeferredSwitch] that ended. *)
Record state := mkState {
  at_place : place;
  deferred_switch_cnt_ : Z;
  vui_switch_thread_exit_ : bool;
  is_wake_lock_acquired : bool;
  wake_locks : Z;
  handled : nat;
}.

Definition init : state := mkState Begin (-1) false false 0 0%nat.

Definition go (p : place) (s : state) : state :=
  mkState p (deferred_switch_cnt_ s) (vui_switch_thread_exit_ s) (is_wake_lock_acquired s)
    (wake_locks s) (handled s).
Definition set_cnt (n : Z) (s : state) : state :=
  mkState (at_place s) n (vui_switch_thread_exit_ s) (is_wake_lock_acquired s)
    (wake_locks s) (handled s).
(** [releaseWakeLock] without the reset of the flag. *)
Definition release (s : state) : state :=
  mkState (at_place s) (deferred_switch_cnt_ s) (vui_switch_thread_exit_ s)
    (is_wake_lock_acquired s) (wake_locks s - 1) (handled s).
Definition set_acquired (b : bool) (s : state) : state :=
  mkState (at_place s) (deferred_switch_cnt_ s) (vui_switch_thread_exit_ s) b
    (wake_locks s) (handled s).

(** From the test of the loop to the next place without the mutex, when the loop does
    not wait first. *)
Definition loop_test (s : state) : state :=
  if vui_switch_thread_exit_ s then go Returned s
  else if decide (deferred_switch_cnt_ s < 0) then
    go Waiting (if is_wake_lock_acquired s then set_acquired false (release s) else s)
  else if decide (deferred_switch_cnt_ s > 0) then
    go Sleeping (set_cnt (deferred_switch_cnt_ s - 1) s)
  else go Handling s.

(** After [wait]: the wake lock, the test of the exit flag, the countdown. *)
Definition after_wait (s : state) : state :=
  let s := mkState (at_place s) (deferred_switch_cnt_ s) (vui_switch_thread_exit_ s) true
             (wake_locks s + 1) (handled s) in
  if vui_switch_thread_exit_ s then go Returned (release s)
  else if decide (deferred_switch_cnt_ s > 0) then
    go Sleeping (set_cnt (deferred_switch_cnt_ s - 1) s)
  else if decide (deferred_switch_cnt_ s = 0) then go Handling s
  else loop_test s.

(** After [sleep]. *)
Definition after_sleep (s : state) : state :=
  if decide (deferred_switch_cnt_ s = 0) then go Handling s else loop_test s.

(** After [stHandleDeferredSwitch]. *)
Definition after_handling (s : state) : state :=
  let s := mkState (at_place s) (deferred_switch_cnt_ s) (vui_switch_thread_exit_ s)
             (is_wake_lock_acquired s) (wake_locks s) (S (handled s)) in
  loop_test (if decide (deferred_switch_cnt_ s = 0) then set_cnt (-1) s else s).

Definition voiceUIDeferredSwitchLoop (s : state) : option state :=
  match at_place s with
  | Begin => Some (loop_test s)
  | Woken => Some (after_wait s)
  | Sleeping => Some (after_sleep s)
  | Handling => Some (after_handling s)
  | Waiting | Returned => None
  end.

Definition notify (s : state) : state :=
  if decide (at_place s = Waiting) then go Woken s else s.

(** The countdown of [checkAndUpdateDeferSwitchState]: armed with
    NLPI_LPI_SWITCH_DELAY_SEC, or forgotten. *)
Definition arm (s : state) : state := notify (set_cnt 5 s).
Definition cancel (s : state) : state := set_cnt (-1) s.

(** [STUtilsDeinit] up to the join. *)
Definition deinit (s : state) : state :=
  notify (mkState (at_place s) (deferred_switch_cnt_ s) true (is_wake_lock_acquired s)
            (wake_locks s) (handled s)).

Inductive step : state → state → Prop :=
  | step_thread s s' : voiceUIDeferredSwitchLoop s = Some s' → step s s'
  | step_arm s : step s (arm s)
  | step_cancel s : step s (cancel s)
  | step_deinit s : step s (deinit s)
  | step_spurious s : step s (notify s).

(** ** The wake lock *)

Definition inv (s : state) : Prop :=
  -1 ≤ deferred_switch_cnt_ s ∧
  match at_place s with
  | Begin | Waiting | Woken => is_wake_lock_acquired s = false ∧ wake_locks s = 0
  | Sleeping | Handling => wake_locks s = (if is_wake_lock_acquired s then 1 else 0)
  | Returned => vui_switch_thread_exit_ s = true ∧ 0 ≤ wake_locks s ≤ 1
  end.

Ltac by_cases :=
  unfold inv, voiceUIDeferredSwitchLoop, after_wait, after_sleep, after_handling, loop_test,
    arm, cancel, deinit, notify, go, set_cnt, release, set_acquired in *; simpl in *;
  repeat (case_decide; simplify_eq/=); simplify_eq/=.

Lemma step_inv s s' : inv s → step s s' → inv s'.
Proof.
  intros Hi Hs. destruct Hs as [s s' E|s|s|s|s];
    destruct s as [p n ex acq wl h]; destruct p, ex, acq; by_cases; intuition (discriminate || lia).
Qed.

Lemma reachable_inv s : rtc step init s → inv s.
Proof.
  intros Hr. apply (rtc_ind_r (λ s, inv s) init) with (3 := Hr); [by vm_compute; split|].
  intros x y _ Hs Hi. by eapply step_inv.
Qed.

(** Runs of the thread alone. *)
Fixpoint run (k : nat) (s : state) : state :=
  match k with
  | O => s
  | S k => match voiceUIDeferredSwitchLoop s with Some s' => run k s' | None => s end
  end.

(** The calls of [stHandleDeferredSwitch] that have begun. *)
Definition begun (s : state) : nat :=
  if decide (at_place s = Handling) then S (handled s) else handled s.

(** C20: In every reachable state the thread holds at most one wake lock and none while
    it waits for work; and an armed countdown is never missed: wherever the thread is
    when it is armed, unless it was told to end, it starts and ends a call of the deferred
    switch within seven sections of its own, besides one that was running already, and
    the countdown is over. *)
Theorem countdown_not_lost s :
  rtc step init s →
  0 ≤ wake_locks s ≤ 1 ∧
  (at_place s = Waiting → wake_locks s = 0) ∧
  (vui_switch_thread_exit_ s = false →
   (begun s < handled (run 7 (arm s)))%nat ∧ deferred_switch_cnt_ (run 7 (arm s)) = -1).
Proof.
  intros Hi%reachable_inv. split; [|split].
  - destruct s as [p n ex acq wl h]; destruct p, acq; by_cases; lia.
  - destruct s as [p n ex acq wl h]; destruct p; intros E; simpl in E; try discriminate E.
    apply Hi.
  - intros Hex. destruct s as [p n ex acq wl h]; unfold inv in Hi; simpl in *; subst ex.
    destruct p, acq; try (destruct Hi as [_ [? _]]; discriminate);
      (split; [|vm_compute; reflexivity]);
      vm_compute; lia.
Qed.

Lemma countdown_not_lost_witness :
  rtc step init (go Waiting init) ∧
  0 ≤ wake_locks (go Waiting init) ≤ 1 ∧
  (at_place (go Waiting init) = Waiting → wake_locks (go Waiting init) = 0) ∧
  (vui_switch_thread_exit_ (go Waiting init) = false →
   (begun (go Waiting init) < handled (run 7 (arm (go Waiting init))))%nat ∧
   deferred_switch_cnt_ (run 7 (arm (go Waiting init))) = -1).
Proof.
  assert (rtc step init (go Waiting init)) as Hr
    by (apply rtc_once; apply step_thread; reflexivity).
  split; [exact Hr|]. exact (countdown_not_lost _ Hr).
Defined.

(** When [STUtilsDeinit] sets the exit flag while the thread counts, the test of the
    loop ends it before the release after the wait: it returns with its wake lock. *)
Theorem exit_keeps_wake_lock :
  ∃ s, rtc step init s ∧ at_place s = Returned ∧ wake_locks s = 1.
Proof.
  exists (mkState Returned 4 true true 1 0%nat). split_and!; [|done..].
  eapply rtc_l; [by apply step_thread|]. eapply rtc_l; [apply step_arm|].
  eapply rtc_l; [by apply step_thread|]. eapply rtc_l; [apply step_deinit|].
  apply rtc_once, step_thread. vm_compute. reflexivity.
Qed.
End DeferredSwitch.
