(* ===== verification/RoutingState.v ===== *)
(** * Routing of streams to devices: the state

    The part of the resource manager (resource_manager/src/ResourceManager.cpp) and of
    the stream base class (stream/src/Stream.cpp) that decides which devices a stream
    uses: its state, what it asks of the rest of PAL ([RtEnv]) and the queries of the
    registry of streams.  The devices are the objects of the component Device, the
    registry is the one of Users.

    One thread runs at a time: what other threads and the hardware do meanwhile (the
    state of the sound card, whether a Bluetooth device is ready) shows in the answers
    of [RtEnv], which may differ each time they are asked for ([rt_clock]).  [None] is a
    deadlock, the unlock of a mutex that is not held, the use of a stream that does not
    exist, or an exception. *)

From S2P Require Import Prelude PalDefs Users Device.

(** ** State *)

(** [isMMap] to [mVolumeData] as in stream/inc/Stream.h ([rs_volume]: a volume is
    cached); [rs_session]: the stream has a session; [rs_detection]: a sound trigger
    stream, which overrides the connection of devices.  Devices are the addresses of
    their objects. *)
Record RtStream := mkRt {
  mStreamAttr : pal_stream_attributes;
  currentState : stream_state_t;
  mDevices : list positive;
  mPalDevices : list positive;
  isMMap : bool;
  rs_isComboHeadsetActive : bool;
  suspendedOutDevIds : list Z;
  suspendedInDevIds : list Z;
  a2dpMuted : bool;
  rs_volume : bool;
  dutyCycleEnable : bool;
  rs_session : bool;
  rs_detection : bool;
  mStreamMutex : bool;
}.

Definition rs_eta (s : RtStream) : RtStream :=
  mkRt (mStreamAttr s) (currentState s) (mDevices s) (mPalDevices s) (isMMap s)
    (rs_isComboHeadsetActive s) (suspendedOutDevIds s) (suspendedInDevIds s)
    (a2dpMuted s) (rs_volume s) (dutyCycleEnable s) (rs_session s) (rs_detection s)
    (mStreamMutex s).

Definition set_mDevices : list positive → RtStream → RtStream :=
  ltac:(record_setter rs_eta mDevices).
Definition set_mPalDevices : list positive → RtStream → RtStream :=
  ltac:(record_setter rs_eta mPalDevices).
Definition set_isComboHeadsetActive : bool → RtStream → RtStream :=
  ltac:(record_setter rs_eta rs_isComboHeadsetActive).
Definition set_suspendedOutDevIds : list Z → RtStream → RtStream :=
  ltac:(record_setter rs_eta suspendedOutDevIds).
Definition set_suspendedInDevIds : list Z → RtStream → RtStream :=
  ltac:(record_setter rs_eta suspendedInDevIds).
Definition set_a2dpMuted : bool → RtStream → RtStream :=
  ltac:(record_setter rs_eta a2dpMuted).
Definition set_dutyCycleEnable : bool → RtStream → RtStream :=
  ltac:(record_setter rs_eta dutyCycleEnable).
Definition set_mStreamMutex : bool → RtStream → RtStream :=
  ltac:(record_setter rs_eta mStreamMutex).

Inductive group_dev_config_idx_t :=
  | GRP_DEV_CONFIG_INVALID | GRP_UPD_RX | GRP_HANDSET | GRP_SPEAKER | GRP_HAPTICS
  | GRP_SPEAKER_VOICE | GRP_UPD_RX_HANDSET | GRP_UPD_RX_SPEAKER | GRP_HAPTICS_RX_SPEAKER.

#[export] Instance group_dev_config_idx_eq_dec : EqDecision group_dev_config_idx_t.
Proof. solve_decision. Defined.

(** Without [devpp_mfc_cfg], which routing does not read. *)
Record group_dev_config_t := mkGroupDev {
  snd_dev_name : string;
  grp_dev_hwep_cfg : group_dev_hwep_config;
}.

(** What the functions do to the outside, in order.  The calls of a session come with
    whether the stream's mutex was held. *)
Inductive RtEvent :=
  | EvDevice (e : dev_event)
  | EvSetup (s d : positive) (locked : bool)
  | EvConnect (s d : positive) (locked : bool)
  | EvDisconnect (s d : positive) (locked : bool)
  | EvEC (d s : positive) (enable : bool)      (* checkandEnableEC_l *)
  | EvDutyCycle (s : positive) (enable : bool)
  | EvBoost                                    (* chargerListenerSetBoostState *)
  | EvChargerState (s : positive)              (* setSessionParamConfig *)
  | EvAdmRouting (s : positive)
  | EvUser (s : positive) (used : bool)        (* a use of the stream is taken, released *)
  | EvMute (s : positive) (state : bool)
  | EvSetVolume (s : positive).

(** [rt_attrs] are the [struct pal_device]s that lists of connections point to;
    [mResourceManagerMutex] is only taken around leaves and left out. *)
Record RtWorld := mkRtW {
  rt_users : UserState;
  rt_streams : gmap positive RtStream;
  rt_devices : gmap positive Device;
  rt_attrs : gmap positive pal_device;
  active_devices : list (positive * positive);
  mActiveStreamMutex : bool;
  mGraphMutex : bool;
  isDeviceSwitch : bool;
  activeGroupDevConfig : option group_dev_config_t;
  currentGroupDevConfig : group_dev_config_t;
  sndDeviceNameLUT : Z → string;
  rt_clock : nat;
  rt_log : list RtEvent;
}.

Definition rt_eta (w : RtWorld) : RtWorld :=
  mkRtW (rt_users w) (rt_streams w) (rt_devices w) (rt_attrs w) (active_devices w)
    (mActiveStreamMutex w) (mGraphMutex w) (isDeviceSwitch w) (activeGroupDevConfig w)
    (currentGroupDevConfig w) (sndDeviceNameLUT w) (rt_clock w) (rt_log w).

Definition set_rt_users : UserState → RtWorld → RtWorld :=
  ltac:(record_setter rt_eta rt_users).
Definition set_rt_streams : gmap positive RtStream → RtWorld → RtWorld :=
  ltac:(record_setter rt_eta rt_streams).
Definition set_rt_devices : gmap positive Device → RtWorld → RtWorld :=
  ltac:(record_setter rt_eta rt_devices).
Definition set_rt_attrs : gmap positive pal_device → RtWorld → RtWorld :=
  ltac:(record_setter rt_eta rt_attrs).
Definition set_active_devices : list (positive * positive) → RtWorld → RtWorld :=
  ltac:(record_setter rt_eta active_devices).
Definition set_mActiveStreamMutex : bool → RtWorld → RtWorld :=
  ltac:(record_setter rt_eta mActiveStreamMutex).
Definition set_mGraphMutex : bool → RtWorld → RtWorld :=
  ltac:(record_setter rt_eta mGraphMutex).
Definition set_isDeviceSwitch : bool → RtWorld → RtWorld :=
  ltac:(record_setter rt_eta isDeviceSwitch).
Definition set_activeGroupDevConfig : option group_dev_config_t → RtWorld → RtWorld :=
  ltac:(record_setter rt_eta activeGroupDevConfig).
Definition set_currentGroupDevConfig : group_dev_config_t → RtWorld → RtWorld :=
  ltac:(record_setter rt_eta currentGroupDevConfig).
Definition set_sndDeviceNameLUT : (Z → string) → RtWorld → RtWorld :=
  ltac:(record_setter rt_eta sndDeviceNameLUT).
Definition set_rt_clock : nat → RtWorld → RtWorld :=
  ltac:(record_setter rt_eta rt_clock).
Definition set_rt_log : list RtEvent → RtWorld → RtWorld :=
  ltac:(record_setter rt_eta rt_log).

(** ** Device ids *)

Definition isValidDevId (deviceId : Z) : bool :=
  bool_decide (PAL_DEVICE_NONE ≤ deviceId < PAL_DEVICE_OUT_MAX)
  || bool_decide (PAL_DEVICE_IN_MIN < deviceId < PAL_DEVICE_IN_MAX).

Definition isValidStreamId (streamId : Z) : bool :=
  bool_decide (PAL_STREAM_LOW_LATENCY ≤ streamId < PAL_STREAM_MAX).

Definition isOutputDevId (deviceId : Z) : bool :=
  bool_decide (PAL_DEVICE_NONE < deviceId < PAL_DEVICE_OUT_MAX).

Definition isInputDevId (deviceId : Z) : bool :=
  bool_decide (PAL_DEVICE_IN_MIN < deviceId < PAL_DEVICE_IN_MAX).

Definition matchDevDir (devId1 devId2 : Z) : bool :=
  (isOutputDevId devId1 && isOutputDevId devId2) || (isInputDevId devId1 && isInputDevId devId2).

Definition isBtA2dpDevice (id : Z) : bool :=
  bool_decide (id ∈ [PAL_DEVICE_OUT_BLUETOOTH_A2DP; PAL_DEVICE_OUT_BLUETOOTH_BLE;
    PAL_DEVICE_OUT_BLUETOOTH_BLE_BROADCAST; PAL_DEVICE_IN_BLUETOOTH_A2DP;
    PAL_DEVICE_IN_BLUETOOTH_BLE]).

Definition isBtScoDevice (id : Z) : bool :=
  bool_decide (id ∈ [PAL_DEVICE_OUT_BLUETOOTH_SCO; PAL_DEVICE_IN_BLUETOOTH_SCO_HEADSET;
    PAL_DEVICE_IN_BLUETOOTH_HFP; PAL_DEVICE_OUT_BLUETOOTH_HFP]).

Definition isBtDevice (id : Z) : bool :=
  bool_decide (id ∈ [PAL_DEVICE_OUT_BLUETOOTH_A2DP; PAL_DEVICE_IN_BLUETOOTH_A2DP;
    PAL_DEVICE_OUT_BLUETOOTH_SCO; PAL_DEVICE_IN_BLUETOOTH_SCO_HEADSET;
    PAL_DEVICE_OUT_BLUETOOTH_BLE; PAL_DEVICE_OUT_BLUETOOTH_BLE_BROADCAST;
    PAL_DEVICE_IN_BLUETOOTH_BLE]).

(** The keys of [deviceNameLUT]; [at] throws on any other id. *)
Definition in_deviceNameLUT (id : Z) : bool :=
  bool_decide (PAL_DEVICE_OUT_MIN ≤ id < PAL_DEVICE_IN_MAX ∧ id ≠ PAL_DEVICE_IN_CPS2_FEEDBACK).

(** ** Environment

    [rt_dev] answers the device objects what does not depend on this state.
    [object_of] is the singleton the plug-in of a device id returns, [uninit] the
    contents of a structure the code does not initialise.  [dev_close], [dev_start] and
    [dev_stop] are the virtual methods of the device's class (the classes of speakers,
    USB and Bluetooth devices call the base class among other things).
    [detection_connect] and [detection_disconnect] are the overriding methods of sound
    trigger streams, [ssrDownHandler] is virtual.  [increaseStreamUserCounter] is the outcome of
    taking a use of a stream (the component Users).  A number of type [nat] is the moment
    of the call.  The rest is configuration. *)
Class RtEnv := {
  rt_dev : DeviceEnv;
  object_of : Z → option positive;
  uninit : pal_device;
  dev_close : DeviceEnv → nat → Device → option (Z * Device * list dev_event);
  dev_start : DeviceEnv → nat → Device → option (Z * Device * list dev_event);
  dev_stop : DeviceEnv → nat → Device → option (Z * Device * list dev_event);
  dev_isDeviceReady : nat → positive → Z → bool;
  isDeviceConnected : nat → positive → bool;
  isDeviceAvailable : nat → Z → bool;
  bt_force_switch : nat → positive → option (option bool);
  getSoundCardState : nat → card_status_t;
  setupSessionDevice : nat → positive → positive → Z;
  connectSessionDevice : nat → positive → positive → Z;
  disconnectSessionDevice : nat → positive → positive → Z;
  setVolume : nat → positive → Z;
  increaseStreamUserCounter : nat → positive → Z;
  detection_connect : positive → positive → St RtWorld Z;
  detection_disconnect : positive → Z → St RtWorld Z;
  ssrDownHandler : positive → St RtWorld Z;
  getConcurrentBoostState : nat → bool;
  getInputCurrentLimitorConfigStatus : nat → bool;
  getChargerOnlineState : nat → bool;
  chargerListenerSetBoostState : nat → Z;
  setSessionParamConfig : nat → Z;
  getDeviceConfig : nat → pal_device → option pal_stream_attributes → Z * pal_device;
  getSndDevName : Z → Z → string → string;
  listAllBackEndIds : Z → string;
  sndSuffix : Z → string;
  groupDevConfigMap : group_dev_config_idx_t → option group_dev_config_t;
  IsSpeakerProtectionEnabled : bool;
  IsChargeConcurrencyEnabled : bool;
  IsDummyDevEnabled : bool;
  IsDutyCycleForUPDEnabled : bool;
  IsDedicatedBEForUPDEnabled : bool;
  isHapticsthroughWSA : bool;
  admOnRoutingChangeFn : bool;
}.

(** The order of a [std::map] by its keys. *)
Definition key_le {A} (p q : Z * A) : Prop := p.1 ≤ q.1.
#[export] Instance key_le_dec {A} : RelDecision (@key_le A).
Proof. intros p q. unfold key_le. apply _. Defined.

Section state.
Context `{RtEnv}.
Local Open Scope st_scope.

Local Abbreviation M := (St RtWorld).
Local Abbreviation ret := (@st_ret RtWorld _).
Local Abbreviation gets := (@st_gets RtWorld _).
Local Abbreviation query := (@st_query RtWorld _).
Local Abbreviation upd := (@st_modify RtWorld).

Definition log (e : RtEvent) : M unit := upd (λ w, set_rt_log (rt_log w ++ [e]) w).

(** Asks the environment. *)
Definition ask {A} (f : nat → A) : M A := λ w,
  Some (f (rt_clock w), set_rt_clock (S (rt_clock w)) w).

Definition card_down : M bool :=
  st <-- ask getSoundCardState ;; ret (PAL_CARD_STATUS_DOWN st).

(** ** Streams and mutexes *)

Definition stream (s : positive) : M RtStream := query (λ w, rt_streams w !! s).
Definition upd_stream (s : positive) (f : RtStream → RtStream) : M unit :=
  upd (λ w, set_rt_streams (alter f s (rt_streams w)) w).

(** A lock that is held already is a deadlock; the unlock of a free one is undefined. *)
Definition lockStreamMutex (s : positive) : M unit :=
  o <-- stream s ;;
  if mStreamMutex o then st_lift None else upd_stream s (set_mStreamMutex true).
Definition unlockStreamMutex (s : positive) : M unit :=
  o <-- stream s ;;
  if mStreamMutex o then upd_stream s (set_mStreamMutex false) else st_lift None.

Definition lockActiveStream : M unit := λ w,
  if mActiveStreamMutex w then None else Some (tt, set_mActiveStreamMutex true w).
Definition unlockActiveStream : M unit := λ w,
  if mActiveStreamMutex w then Some (tt, set_mActiveStreamMutex false w) else None.
Definition lockGraph : M unit := λ w,
  if mGraphMutex w then None else Some (tt, set_mGraphMutex true w).
Definition unlockGraph : M unit := λ w,
  if mGraphMutex w then Some (tt, set_mGraphMutex false w) else None.

(** [mute] of a stream runs under its mutex. *)
Definition mute (s : positive) (state : bool) : M unit :=
  lockStreamMutex s ;;;; log (EvMute s state) ;;;; unlockStreamMutex s.

(** ** Devices *)

Definition with_id (id : Z) (a : pal_device) : pal_device :=
  mkDevice id (config a) (dev_address a) (sndDevName a) (custom_key a) (addressV1 a).

(** [struct pal_device x; x.id = id;] *)
Definition bare (id : Z) : pal_device := with_id id uninit.

(** [struct pal_device x = {}; x.id = id;] *)
Definition zeroed (id : Z) : pal_device :=
  mkDevice id (mkMedia 0 0 0 (mkChannels 0 (replicate 64 0))) (mkUsb 0 0) "" ""
    (replicate 128 0).

(** [Device::getInstance]: the plug-in creates the object the first time, with the
    attributes it is given. *)
Definition getInstance (a : pal_device) : M (option positive) := λ w,
  if decide (dev_id a = PAL_DEVICE_NONE) then Some (None, w)
  else if in_deviceNameLUT (dev_id a) then
    match object_of (dev_id a) with
    | None => Some (None, w)
    | Some d =>
        Some (Some d, match rt_devices w !! d with
                      | Some _ => w
                      | None => set_rt_devices (<[d := Device_new a]> (rt_devices w)) w
                      end)
    end
  else None.

(** [getSndDeviceId]; the object exists as long as it is referenced. *)
Definition snd_id (w : RtWorld) (d : positive) : Z :=
  match rt_devices w !! d with Some dev => dev_id (deviceAttr dev) | None => PAL_DEVICE_NONE end.
Definition getSndDeviceId (d : positive) : M Z := gets (λ w, snd_id w d).

Definition upd_device (d : positive) (f : Device → Device) : M unit :=
  upd (λ w, set_rt_devices (alter f d (rt_devices w)) w).

Definition getBackendName (deviceId : Z) : option string :=
  if isValidDevId deviceId && bool_decide (deviceId ≠ PAL_DEVICE_NONE)
  then Some (listAllBackEndIds deviceId) else None.

(** The answers of the resource manager to a device at a moment; [sndSuffix] is what
    [getSndDeviceName] appends. *)
Definition world_env (w : RtWorld) : DeviceEnv := {|
  getPALDeviceName := @getPALDeviceName rt_dev;
  Device.getBackendName := λ id, default "" (getBackendName id);
  getAudioRoute := @getAudioRoute rt_dev;
  getSndDeviceName := λ id,
    if isValidDevId id then
      (0, strlcpy (String.append (strlcpy (sndDeviceNameLUT w id) DEVICE_NAME_MAX_SIZE)
                     (sndSuffix id)) DEVICE_NAME_MAX_SIZE)
    else (- EINVAL, "");
  getVirtualAudioMixer := @getVirtualAudioMixer rt_dev;
  getHwAudioMixer := @getHwAudioMixer rt_dev;
  IsQmpEnabled := @IsQmpEnabled rt_dev;
  getDeviceInfo := @getDeviceInfo rt_dev;
  getProxyChannels := @getProxyChannels rt_dev;
  getActiveGroupDevConfig := grp_dev_hwep_cfg <$> activeGroupDevConfig w;
  IsVirtualPortForUPDEnabled := @IsVirtualPortForUPDEnabled rt_dev;
  IsI2sDualMonoEnabled := @IsI2sDualMonoEnabled rt_dev;
  is_multiple_sample_rate_combo_supported := @is_multiple_sample_rate_combo_supported rt_dev;
  isPluginPlaybackDevice := @isPluginPlaybackDevice rt_dev;
  isDpDevice := @isDpDevice rt_dev;
  stream_type := λ s, match rt_streams w !! s with Some o => type (mStreamAttr o) | None => 0 end;
  isComboHeadsetActive := λ s,
    match rt_streams w !! s with Some o => rs_isComboHeadsetActive o | None => false end;
  SNDRV_PCM_FORMAT_S8 := @SNDRV_PCM_FORMAT_S8 rt_dev;
  SNDRV_PCM_FORMAT_S16_LE := @SNDRV_PCM_FORMAT_S16_LE rt_dev;
  SNDRV_PCM_FORMAT_S24_LE := @SNDRV_PCM_FORMAT_S24_LE rt_dev;
  SNDRV_PCM_FORMAT_S24_3LE := @SNDRV_PCM_FORMAT_S24_3LE rt_dev;
  SNDRV_PCM_FORMAT_S32_LE := @SNDRV_PCM_FORMAT_S32_LE rt_dev;
  AGM_DATA_FORMAT_COMPR_OVER_PCM_PACKETIZED := @AGM_DATA_FORMAT_COMPR_OVER_PCM_PACKETIZED rt_dev;
  AGM_DATA_FORMAT_FIXED_POINT := @AGM_DATA_FORMAT_FIXED_POINT rt_dev;
  mixer_get_ctl_by_name := @mixer_get_ctl_by_name rt_dev;
  mixer_ctl_set_array := @mixer_ctl_set_array rt_dev;
  mixer_ctl_set_value := @mixer_ctl_set_value rt_dev;
|}.

Definition updateSndName (deviceId : Z) (sndName : string) (w : RtWorld) : RtWorld :=
  if isValidDevId deviceId
  then set_sndDeviceNameLUT (λ id, if decide (id = deviceId) then sndName
                                   else sndDeviceNameLUT w id) w
  else w.

(** [memcpy] of a null shared pointer is undefined; a device reports the event only when
    there is an active group. *)
Definition setCurrentGroupDevConfig (config1 config2 : Z) (w : RtWorld) : RtWorld :=
  match activeGroupDevConfig w with
  | None => w
  | Some g =>
      let h := grp_dev_hwep_cfg g in
      set_currentGroupDevConfig
        (mkGroupDev (snd_dev_name g)
           (mkGroup config1 config2 (grp_aud_fmt_id h) (grp_slot_mask h))) w
  end.

(** What a device does outside its object. *)
Definition dev_effect (e : dev_event) (w : RtWorld) : RtWorld :=
  let w := match e with
           | EvUpdateSndName id name => updateSndName id name w
           | EvGroupConfig rate ch => setCurrentGroupDevConfig rate ch w
           | _ => w
           end in
  set_rt_log (rt_log w ++ [EvDevice e]) w.

(** Runs a method on the object. *)
Definition run_device {A} (d : positive)
    (f : DeviceEnv → nat → Device → option (A * Device * list dev_event)) : M A := λ w,
  match rt_devices w !! d with
  | None => None
  | Some dev =>
      match f (world_env w) (rt_clock w) dev with
      | None => None
      | Some (r, dev, evs) =>
          Some (r, foldl (λ w e, dev_effect e w)
                     (set_rt_clock (S (rt_clock w))
                        (set_rt_devices (<[d := dev]> (rt_devices w)) w)) evs)
      end
  end.

Definition open (d : positive) : M Z := run_device d (λ E _, @Device.open E).
Definition close (d : positive) : M Z := run_device d dev_close.
Definition start (d : positive) : M Z := run_device d dev_start.
Definition stop (d : positive) : M Z := run_device d dev_stop.

Definition setDeviceAttributes (d : positive) (a : pal_device) : M unit :=
  upd_device d (λ dev, (Device.setDeviceAttributes a dev).2).

(** [getDeviceAttributes] into a structure that exists. *)
Definition getDeviceAttributes (d : positive) (s : option positive) : M pal_device :=
  query (λ w, dev ← rt_devices w !! d; (Device.getDeviceAttributes true s dev).2).

(** The allocation of the entry succeeds. *)
Definition insertStreamDeviceAttr (d : positive) (a : pal_device) (s : positive) : M unit :=
  upd (λ w, set_rt_devices
    (alter (λ dev, (@Device.insertStreamDeviceAttr (world_env w) true (Some a) (Some s) dev).2)
       d (rt_devices w)) w).
Definition removeStreamDeviceAttr (d s : positive) : M unit :=
  upd_device d (Device.removeStreamDeviceAttr s).

(** The attributes and the priority of the first entry. *)
Definition getTopPriorityDeviceAttr (d : positive) : M (Z * option (pal_device * Z)) :=
  run_device d (λ _ _ dev,
    '(st, r, evs) ← Device.getTopPriorityDeviceAttr dev; Some ((st, r), dev, evs)).

Definition setSndName (d : positive) (name : string) : M unit :=
  upd_device d (λ dev, set_updated_priority name (mCurrentPriority dev) dev).
Definition setSampleRate (d : positive) (sr : Z) : M unit :=
  upd_device d (λ dev,
    mkDev (deviceAttr dev) (mPALDeviceName dev) (deviceCount dev) (deviceStartStopCount dev)
      (mSndDeviceName dev) (customPayload dev) (customPayloadSize dev) (UpdatedSndName dev)
      (mCurrentPriority dev) (mStreamDevAttr dev) sr (mBitWidth dev)).

Definition getDeviceCount (d : positive) : M Z :=
  gets (λ w, match rt_devices w !! d with Some dev => deviceCount dev | None => 0 end).

Definition isDeviceReady (id : Z) : M bool :=
  o <-- getInstance (bare id) ;;
  match o with None => ret false | Some d => ask (λ t, dev_isDeviceReady t d id) end.

(** ** Structures the lists point to *)

Definition attr (a : positive) : M pal_device := query (λ w, rt_attrs w !! a).
Definition fresh_addr (m : gmap positive pal_device) : positive :=
  map_fold (λ k _ n, Pos.max n (Pos.succ k)) 1%positive m.
(** A variable of type [struct pal_device]. *)
Definition alloc (v : pal_device) : M positive := λ w,
  let a := fresh_addr (rt_attrs w) in
  Some (a, set_rt_attrs (<[a := v]> (rt_attrs w)) w).
Definition put_attr (a : positive) (v : pal_device) : M unit :=
  upd (λ w, set_rt_attrs (<[a := v]> (rt_attrs w)) w).

(** ** The registry of streams *)

Definition isStreamActive (s : positive) : M bool :=
  gets (λ w, Users.isStreamActive s (rt_users w)).

Definition isAlive (o : RtStream) : bool := bool_decide (currentState o ≠ STREAM_IDLE).
Definition isActive (o : RtStream) : bool := bool_decide (currentState o = STREAM_STARTED).

(** [activeStreamMap], by type of stream. *)
Definition map_streams (w : RtWorld) : list positive :=
  mjoin (snd <$> merge_sort key_le (map_to_list (activeStreamMap (rt_users w)))).

(** The streams of a list with a property. *)
Fixpoint streams_with (P : RtStream → bool) (l : list positive) (w : RtWorld)
    : option (list positive) :=
  match l with
  | [] => Some []
  | s :: l =>
      o ← rt_streams w !! s;
      r ← streams_with P l w;
      Some (if P o then s :: r else r)
  end.

Definition getActiveStreams (d : option positive) (sourcestreams : list positive) (w : RtWorld)
    : option (list positive) :=
  streams_with (λ o,
    match d with
    | None => isAlive o && bool_decide (mDevices o ≠ [])
    | Some d => bool_decide (d ∈ mDevices o) && isAlive o
    end) sourcestreams w.

Definition getActiveStream_l (d : option positive) : M (list positive) :=
  query (λ w, getActiveStreams d (map_streams w) w).

(** The streams without a device and those with a suspended one; [-ENOENT] when there
    are none. *)
Definition getOrphanStream_l : M (Z * list positive * list positive) :=
  orphanstreams <-- query (λ w, streams_with (λ o, bool_decide (mDevices o = [])) (map_streams w) w) ;;
  retrystreams <-- query (λ w, streams_with (λ o,
      bool_decide (suspendedOutDevIds o ≠ []) || bool_decide (suspendedInDevIds o ≠ []))
    (map_streams w) w) ;;
  ret (if bool_decide (orphanstreams = []) && bool_decide (retrystreams = []) then - ENOENT else 0,
       orphanstreams, retrystreams).

(** [isDeviceActive] of an id: a device is active when a stream is registered for it. *)
Definition isDeviceActive (deviceId : Z) : M bool :=
  gets (λ w, existsb (λ p, bool_decide (snd_id w p.1 = deviceId)) (active_devices w)).

Definition registerDevice (d s : positive) : M unit :=
  l <-- gets active_devices ;;
  if bool_decide ((d, s) ∈ l) then ret tt
  else upd (set_active_devices (l ++ [(d, s)])) ;;;; log (EvEC d s true).

Definition deregisterDevice (d s : positive) : M unit :=
  l <-- gets active_devices ;;
  if bool_decide ((d, s) ∈ l)
  then upd (set_active_devices (erase_first (d, s) l)) ;;;; log (EvEC d s false)
  else ret tt.

(** ** Streams that share a back end *)

(** Appends what is not there yet. *)
Fixpoint push_new (found l : list (positive * Z)) : list (positive * Z) :=
  match found with
  | [] => l
  | x :: found => push_new found (if bool_decide (x ∈ l) then l else l ++ [x])
  end.

(** The active streams on one object, registered or not under another type. *)
Definition streams_on (d : positive) (w : RtWorld) : option (list positive) :=
  streams_with (λ o, bool_decide (d ∈ mDevices o)) (mActiveStreams (rt_users w)) w.

Fixpoint shared_loop (backEndName : string) (ids : list Z) (acc : list (positive * Z))
    : M (list (positive * Z)) :=
  match ids with
  | [] => ret acc
  | i :: ids =>
      if decide (backEndName = listAllBackEndIds i) then
        dev <-- getInstance (bare i) ;;
        match dev with
        | None => shared_loop backEndName ids acc
        | Some d =>
            l <-- query (streams_on d) ;;
            id <-- getSndDeviceId d ;;
            shared_loop backEndName ids (push_new ((λ s, (s, id)) <$> l) acc)
        end
      else shared_loop backEndName ids acc
  end.

(** The indices PAL_DEVICE_OUT_MIN to PAL_DEVICE_IN_MAX - 1 of the table. *)
Definition backend_indices : list Z := seqZ PAL_DEVICE_OUT_MIN PAL_DEVICE_IN_MAX.

Definition getSharedBEActiveStreamDevs (acc : list (positive * Z)) (dev_id : Z)
    : M (list (positive * Z)) :=
  let backEndName := default "" (getBackendName dev_id) in
  shared_loop backEndName backend_indices acc.
End state.
