(* ===== verification/Routing.v ===== *)
(** * Routing of streams to devices: connections and switches

    The connection of a stream to a device and its end (stream/src/Stream.cpp), and the
    switches of many streams at once (resource_manager/src/ResourceManager.cpp):
    [streamDevSwitch] locks the streams concerned, takes them off their devices and
    connects them to the new ones. *)

From S2P Require Import Prelude PalDefs Users Device RoutingState.

(** [operator<=] of a tuple with the address of a stream. *)
Definition lex_le {B} (R : B → B → Prop) (p q : positive * B) : Prop :=
  (p.1 < q.1)%positive ∨ p.1 = q.1 ∧ R p.2 q.2.
#[export] Instance lex_le_dec {B} (R : B → B → Prop) `{!RelDecision R} : RelDecision (lex_le R).
Proof. intros p q. unfold lex_le. apply _. Defined.

Section routing.
Context `{RtEnv}.
Local Open Scope st_scope.

Local Abbreviation M := (St RtWorld).
Local Abbreviation ret := (@st_ret RtWorld _).
Local Abbreviation gets := (@st_gets RtWorld _).
Local Abbreviation query := (@st_query RtWorld _).
Local Abbreviation upd := (@st_modify RtWorld).

(** ** Duty cycle of the ultrasound stream *)

Definition contains (needle s : string) : bool := bool_decide (is_Some (String.index 0 needle s)).
Definition WSA_RX : string := "CODEC_DMA-LPAIF_WSA-RX".

Definition is_upd (o : RtStream) : bool :=
  bool_decide (type (mStreamAttr o) ∈ [PAL_STREAM_ULTRASOUND; PAL_STREAM_SENSOR_PCM_RENDERER]).

(** The first active ultrasound stream. *)
Definition upd_stream_of (w : RtWorld) : option (option positive) :=
  head <$> streams_with (λ o, is_upd o && isActive o) (mActiveStreams (rt_users w)) w.

(** The devices of the ultrasound stream, when it shares its back end with audio. *)
Fixpoint shared_duty (upd_devs : list positive) (enable_duty : bool) (w : RtWorld) : bool :=
  match upd_devs with
  | [] => enable_duty
  | d :: upd_devs =>
      shared_duty upd_devs
        (if isOutputDevId (snd_id w d) then
           match rt_devices w !! d with
           | Some dev => negb (bool_decide (1 < deviceCount dev)) | None => true end
         else enable_duty) w
  end.

(** With a back end of its own: whether audio plays on the same codec. *)
Definition dedicated_duty (d : positive) (enable_duty : bool) (w : RtWorld) : bool :=
  match getBackendName PAL_DEVICE_OUT_ULTRASOUND_DEDICATED with
  | None => enable_duty
  | Some upd_be =>
      match getBackendName (snd_id w d) with
      | None => enable_duty
      | Some be =>
          if Bool.eqb (contains WSA_RX be) (contains WSA_RX upd_be) then
            match rt_devices w !! d with
            | Some dev => negb (bool_decide (0 < deviceCount dev)) | None => true end
          else enable_duty
      end
  end.

Fixpoint duty_loop (UPDStream : positive) (conc_dev : list Z) (enable_duty : bool) : M bool :=
  match conc_dev with
  | [] => ret enable_duty
  | c :: conc_dev =>
      dev <-- getInstance (bare c) ;;
      match dev with
      | None => duty_loop UPDStream conc_dev enable_duty
      | Some d =>
          activeStream <-- getActiveStream_l (Some d) ;;
          if decide (activeStream = []) then duty_loop UPDStream conc_dev enable_duty
          else
            w <-- gets (λ w, w) ;;
            o <-- stream UPDStream ;;
            duty_loop UPDStream conc_dev
              (match activeGroupDevConfig w with
               | Some _ => false
               | None =>
                   if IsDedicatedBEForUPDEnabled then dedicated_duty d enable_duty w
                   else shared_duty (mDevices o) enable_duty w
               end)
      end
  end.

Definition checkAndSetDutyCycleParam : M unit :=
  if negb IsDutyCycleForUPDEnabled then ret tt
  else
    upd <-- query upd_stream_of ;;
    match upd with
    | None => ret tt
    | Some s =>
        o <-- stream s ;;
        enable_duty <-- duty_loop s [PAL_DEVICE_OUT_SPEAKER; PAL_DEVICE_OUT_HANDSET]
                          (bool_decide (length (mDevices o) = 2%nat)) ;;
        o <-- stream s ;;
        if Bool.eqb (dutyCycleEnable o) enable_duty || negb (rs_session o) then ret tt
        else upd_stream s (set_dutyCycleEnable enable_duty) ;;;; log (EvDutyCycle s enable_duty)
    end.

(** ** The session of a stream *)

(** A call of the session, with its place in the log. *)
Definition session_call (f : nat → positive → positive → Z)
    (ev : positive → positive → bool → RtEvent) (s d : positive) : M Z :=
  o <-- stream s ;;
  log (ev s d (mStreamMutex o)) ;;;;
  ask (λ t, f t s d).
Definition session_setup : positive → positive → M Z := session_call setupSessionDevice EvSetup.
Definition session_connect : positive → positive → M Z :=
  session_call connectSessionDevice EvConnect.
Definition session_disconnect : positive → positive → M Z :=
  session_call disconnectSessionDevice EvDisconnect.

(** ** Disconnection *)

Definition running (st : stream_state_t) : bool :=
  bool_decide (st ≠ STREAM_INIT ∧ st ≠ STREAM_STOPPED).

(** A device that runs with the stream: the stream runs, or it is a mapped stream, for
    which these devices start with the connection. *)
Definition device_runs (o : RtStream) (id : Z) : bool :=
  running (currentState o) ||
  (bool_decide (id ∈ [PAL_DEVICE_OUT_BLUETOOTH_A2DP; PAL_DEVICE_OUT_BLUETOOTH_BLE;
                      PAL_DEVICE_OUT_SPEAKER]) && isMMap o).

(** The first of the stream's devices with the id. *)
Definition find_device (o : RtStream) (dev_id : Z) (w : RtWorld) : option (nat * positive) :=
  list_find (λ d, snd_id w d = dev_id) (mDevices o).

Definition idle_or_down (o : RtStream) : M bool :=
  st_or (bool_decide (currentState o = STREAM_IDLE)) card_down.

(** The rest of the loop's body once the device is found at index [i]; [inr] is the end
    of the function with an error. *)
Definition disconnect_found (s : positive) (o : RtStream) (i : nat) (d : positive) : M Z :=
  (if bool_decide (currentState o ≠ STREAM_STOPPED) then deregisterDevice d s else ret tt) ;;;;
  id <-- getSndDeviceId d ;;
  let speaker_first := running (currentState o) && bool_decide (id = PAL_DEVICE_OUT_SPEAKER)
                       && IsSpeakerProtectionEnabled in
  status <-- (if speaker_first then stop d else ret 0) ;;
  if decide (status ≠ 0) then ret status
  else
    lockGraph ;;;;
    status <-- session_disconnect s d ;;
    if decide (status ≠ 0) then unlockGraph ;;;; ret status
    else
      id <-- getSndDeviceId d ;;
      status <-- (if device_runs o id && negb speaker_first then stop d else ret 0) ;;
      if decide (status ≠ 0) then unlockGraph ;;;; ret status
      else
        status <-- close d ;;
        if decide (status ≠ 0) then unlockGraph ;;;; ret status
        else
          upd_stream s (λ o, set_mDevices (delete i (mDevices o)) o) ;;;;
          unlockGraph ;;;;
          checkAndSetDutyCycleParam ;;;;
          ret 0.

Definition base_disconnect (s : positive) (dev_id : Z) : M Z :=
  o <-- stream s ;;
  unused <-- idle_or_down o ;;
  r <-- gets (find_device o dev_id) ;;
  if unused then
    match r with
    | Some (i, _) => upd_stream s (λ o, set_mDevices (delete i (mDevices o)) o)
    | None => ret tt
    end ;;;; ret 0
  else
    match r with
    | Some (i, d) => disconnect_found s o i d
    | None => checkAndSetDutyCycleParam ;;;; ret 0
    end.

Definition disconnectStreamDevice_l (s : positive) (dev_id : Z) : M Z :=
  o <-- stream s ;;
  if rs_detection o then detection_disconnect s dev_id else base_disconnect s dev_id.

Definition disconnectStreamDevice (s : positive) (dev_id : Z) : M Z :=
  lockStreamMutex s ;;;;
  status <-- disconnectStreamDevice_l s dev_id ;;
  unlockStreamMutex s ;;;; ret status.

(** ** Connection *)

(** Whether a device of the stream has the back end of [d].  An invalid id leaves the
    string of the previous device. *)
Fixpoint same_backend (newBackEndName curBackEndName : string) (devs : list positive)
    (w : RtWorld) : bool :=
  match devs with
  | [] => false
  | d :: devs =>
      let cur := default curBackEndName (getBackendName (snd_id w d)) in
      bool_decide (newBackEndName = cur) || same_backend newBackEndName cur devs w
  end.

Definition shares_backend (o : RtStream) (d : positive) (w : RtWorld) : bool :=
  same_backend (default "" (getBackendName (snd_id w d))) "" (mDevices o) w.

(** Before a speaker starts next to a USB charger the PMIC is told. *)
Definition boost_before (id : Z) : M unit :=
  b <-- st_and (IsChargeConcurrencyEnabled && bool_decide (id = PAL_DEVICE_OUT_SPEAKER))
          (boost <-- ask getConcurrentBoostState ;;
           st_and (negb boost)
             (limiter <-- ask getInputCurrentLimitorConfigStatus ;; ret (negb limiter))) ;;
  if b then log EvBoost ;;;; ask chargerListenerSetBoostState ;;;; ret tt else ret tt.

(** After it, the current limiter is configured; the status is the function's. *)
Definition limiter_after (s : positive) (id : Z) : M Z :=
  b <-- st_and (IsChargeConcurrencyEnabled && bool_decide (id = PAL_DEVICE_OUT_SPEAKER))
          (boost <-- ask getConcurrentBoostState ;;
           st_and boost
             (limiter <-- ask getInputCurrentLimitorConfigStatus ;;
              st_and (negb limiter) (ask getChargerOnlineState))) ;;
  if b then log (EvChargerState s) ;;;; ask setSessionParamConfig else ret 0.

(** The labels [dev_stop] and [dev_close]: when the sound card went away the device stays
    with the stream. *)
Definition fail_close (s d : positive) (status : Z) : M Z :=
  if decide (status = - ENETRESET) then ret status
  else
    upd_stream s (λ o, set_mDevices (removelast (mDevices o)) o) ;;;;
    close d ;;;; ret status.
Definition fail_stop (s d : positive) (status : Z) : M Z :=
  (if decide (status = - ENETRESET) then ret 0 else stop d) ;;;; fail_close s d status.

Definition connect_session (s : positive) (o : RtStream) (d : positive) : M Z :=
  status <-- session_connect s d ;;
  if decide (status ≠ 0) then unlockGraph ;;;; fail_stop s d status
  else
    unlockGraph ;;;;
    (if bool_decide (currentState o ≠ STREAM_STOPPED) then registerDevice d s else ret tt) ;;;;
    checkAndSetDutyCycleParam ;;;;
    id <-- getSndDeviceId d ;;
    limiter_after s id.

(** From the opening of the device. *)
Definition connect_device (s : positive) (o : RtStream) (d : positive) : M Z :=
  id <-- getSndDeviceId d ;;
  boost_before id ;;;;
  status <-- open d ;;
  if decide (status ≠ 0) then ret status
  else
    upd_stream s (λ o, set_mDevices (mDevices o ++ [d]) o) ;;;;
    lockGraph ;;;;
    status <-- session_setup s d ;;
    if decide (status ≠ 0) then unlockGraph ;;;; fail_close s d status
    else
      id <-- getSndDeviceId d ;;
      if device_runs o id then
        status <-- start d ;;
        if decide (status ≠ 0) then unlockGraph ;;;; fail_close s d status
        else connect_session s o d
      else if isBtDevice id && bool_decide (currentState o = STREAM_STOPPED)
      then unlockGraph ;;;; ret 0
      else connect_session s o d.

(** The label [exit]. *)
Definition usb_exit (d : positive) (status : Z) : M Z :=
  id <-- getSndDeviceId d ;;
  if decide (status ≠ 0) then
    if bool_decide (id ∈ [PAL_DEVICE_OUT_USB_HEADSET; PAL_DEVICE_IN_USB_HEADSET]) then
      connected <-- ask (λ t, isDeviceConnected t d) ;;
      ret (if connected : bool then status else - ENOSYS)
    else ret status
  else ret 0.

Definition base_connect (s a : positive) : M Z :=
  dattr <-- attr a ;;
  dev <-- getInstance dattr ;;
  match dev with
  | None => ret 0
  | Some d =>
      setDeviceAttributes d dattr ;;;;
      o <-- stream s ;;
      unused <-- idle_or_down o ;;
      if unused : bool then
        upd_stream s (λ o, set_mDevices (mDevices o ++ [d]) o) ;;;; usb_exit d 0
      else
        same <-- gets (shares_backend o d) ;;
        if same : bool then usb_exit d 0
        else status <-- connect_device s o d ;; usb_exit d status
  end.

Definition connectStreamDevice_l (s a : positive) : M Z :=
  o <-- stream s ;;
  if rs_detection o then detection_connect s a else base_connect s a.

Definition connectStreamDevice (s a : positive) : M Z :=
  lockStreamMutex s ;;;;
  status <-- connectStreamDevice_l s a ;;
  unlockStreamMutex s ;;;; ret status.

(** ** Lists of connections *)

(** An error ends the loop. *)
Fixpoint for_status {A} (body : A → M Z) (l : list A) : M Z :=
  match l with
  | [] => ret 0
  | x :: l =>
      status <-- body x ;;
      if decide (status ≠ 0) then ret status else for_status body l
  end.

(** Streams that are not registered any more are passed over. *)
Definition if_active (s : positive) (m : M Z) : M Z :=
  active <-- isStreamActive s ;; if active : bool then m else ret 0.

Definition streamDevDisconnect (l : list (positive * Z)) : M Z :=
  for_status (λ p, if_active p.1 (disconnectStreamDevice p.1 p.2)) l.
Definition streamDevConnect (l : list (positive * positive)) : M Z :=
  for_status (λ p, if_active p.1 (connectStreamDevice p.1 p.2)) l.
Definition streamDevDisconnect_l (l : list (positive * Z)) : M Z :=
  for_status (λ p, if_active p.1 (disconnectStreamDevice_l p.1 p.2)) l.

(** An error does not end this loop, and the status is the one of the last connection;
    the first connection of a stream ends with the release of its mutex. *)
Fixpoint connect_loop (l : list (positive * positive)) (connected_streams : gset positive)
    (status : Z) : M Z :=
  match l with
  | [] => ret status
  | (s, a) :: l =>
      active <-- isStreamActive s ;;
      if active : bool then
        status <-- connectStreamDevice_l s a ;;
        (if decide (s ∈ connected_streams) then ret tt else unlockStreamMutex s) ;;;;
        connect_loop l ({[s]} ∪ connected_streams) status
      else connect_loop l connected_streams status
  end.
Definition streamDevConnect_l (l : list (positive * positive)) : M Z := connect_loop l ∅ 0.

(** [SortAndUnique]: [std::sort] and the removal of repetitions in a row. *)
Fixpoint unique {A} `{EqDecision A} (l : list A) : list A :=
  match l with
  | x :: l' =>
      match l' with
      | y :: _ => if decide (x = y) then unique l' else x :: unique l'
      | [] => [x]
      end
  | [] => []
  end.
Definition SortAndUnique {A} `{EqDecision A} (R : A → A → Prop) `{!RelDecision R}
    (l : list A) : list A := unique (merge_sort R l).

(** The active streams of a list of pairs, with repetitions. *)
Definition active_streams {B} (l : list (positive * B)) (w : RtWorld) : list positive :=
  filter (λ s, Users.isStreamActive s (rt_users w)) (fst <$> l).

(** A single new device which is a Bluetooth device that is not ready. *)
Definition bt_not_ready (devs : list positive) : M bool :=
  match devs with
  | [a] =>
      v <-- attr a ;;
      if bool_decide (dev_id v ∈ [PAL_DEVICE_OUT_BLUETOOTH_A2DP; PAL_DEVICE_OUT_BLUETOOTH_BLE;
                                  PAL_DEVICE_OUT_BLUETOOTH_BLE_BROADCAST])
      then ready <-- isDeviceReady (dev_id v) ;; ret (negb ready)
      else ret false
  | _ => ret false
  end.

(** A stream the failure of the sound card has not reached yet is taken down first. *)
Definition lock_for_switch (s : positive) : M unit :=
  down <-- card_down ;;
  (if down : bool then
     o <-- stream s ;;
     if bool_decide (currentState o ≠ STREAM_IDLE) then ssrDownHandler s else ret 0
   else ret 0) ;;;;
  lockStreamMutex s.

Definition notify_adm (s : positive) : M unit :=
  o <-- stream s ;;
  if bool_decide (direction (mStreamAttr o) = PAL_AUDIO_OUTPUT)
     && bool_decide (type (mStreamAttr o) = PAL_STREAM_ULTRA_LOW_LATENCY)
     && rs_session o && isActive o && admOnRoutingChangeFn
  then log (EvAdmRouting s) else ret tt.

Definition end_switch (locked : list positive) (status : Z) : M Z :=
  st_for locked unlockStreamMutex ;;;;
  upd (set_isDeviceSwitch false) ;;;;
  unlockActiveStream ;;;;
  ret status.

(** With the mutexes of the streams held. *)
Definition switch_locked (uniqueStreamsList : list positive)
    (streamDevDisconnectList : list (positive * Z))
    (streamDevConnectList : list (positive * positive)) : M Z :=
  st_for uniqueStreamsList notify_adm ;;;;
  status <-- streamDevDisconnect_l streamDevDisconnectList ;;
  if decide (status ≠ 0) then end_switch uniqueStreamsList status
  else
    status <-- streamDevConnect_l streamDevConnectList ;;
    unlocked <-- gets (active_streams streamDevConnectList) ;;
    end_switch (foldl (λ l s, erase_first s l) uniqueStreamsList unlocked) status.

Definition streamDevSwitch (streamDevDisconnectList : list (positive * Z))
    (streamDevConnectList : list (positive * positive)) : M Z :=
  lockActiveStream ;;;;
  let streamDevDisconnectList := SortAndUnique (lex_le Z.le) streamDevDisconnectList in
  let streamDevConnectList := SortAndUnique (lex_le Pos.le) streamDevConnectList in
  l1 <-- gets (active_streams streamDevDisconnectList) ;;
  l2 <-- gets (active_streams streamDevConnectList) ;;
  devs <-- gets (λ w, snd <$> filter (λ p, Users.isStreamActive p.1 (rt_users w))
                               streamDevConnectList) ;;
  let uniqueStreamsList := SortAndUnique Pos.le (l1 ++ l2) in
  let uniqueDevConnectionList := SortAndUnique Pos.le devs in
  bt <-- bt_not_ready uniqueDevConnectionList ;;
  if bt : bool then unlockActiveStream ;;;; ret (- ENODEV)
  else
    st_for uniqueStreamsList lock_for_switch ;;;;
    upd (set_isDeviceSwitch true) ;;;;
    switch_locked uniqueStreamsList streamDevDisconnectList streamDevConnectList.

(** ** The devices a stream was asked to use *)

(** The devices of the stream's list with a property are taken off it, and their entry
    for the stream. *)
Fixpoint drop_pal_devices (drop : Z → bool) (s : positive) (devs : list positive) : M (list positive) :=
  match devs with
  | [] => ret []
  | d :: devs =>
      id <-- getSndDeviceId d ;;
      if drop id then removeStreamDeviceAttr d s ;;;; drop_pal_devices drop s devs
      else r <-- drop_pal_devices drop s devs ;; ret (d :: r)
  end.
Definition filter_pal_devices (drop : Z → bool) (s : positive) : M unit :=
  o <-- stream s ;;
  devs <-- drop_pal_devices drop s (mPalDevices o) ;;
  upd_stream s (set_mPalDevices devs).

Definition removePalDevice (s : positive) (palDevId : Z) : M unit :=
  filter_pal_devices (λ id, bool_decide (id = palDevId)) s.
Definition clearOutPalDevices (s : positive) : M unit :=
  filter_pal_devices (λ id, negb (isInputDevId id)) s.

Definition addPalDevice (s a : positive) : M unit :=
  dattr <-- attr a ;;
  dev <-- getInstance dattr ;;
  match dev with
  | None => ret tt
  | Some d =>
      insertStreamDeviceAttr d dattr s ;;;;
      upd_stream s (λ o, set_mPalDevices (mPalDevices o ++ [d]) o)
  end.

Definition clearmDevices (s : positive) : M unit := upd_stream s (set_mDevices []).
Definition removemDevice (s : positive) (palDevId : Z) : M unit :=
  upd (λ w, set_rt_streams (alter (λ o,
    set_mDevices (filter (λ d, snd_id w d ≠ palDevId) (mDevices o)) o) s (rt_streams w)) w).
Definition addmDevice (s a : positive) : M unit :=
  dattr <-- attr a ;;
  dev <-- getInstance dattr ;;
  match dev with
  | None => ret tt
  | Some d =>
      setDeviceAttributes d dattr ;;;;
      upd_stream s (λ o, set_mDevices (mDevices o ++ [d]) o)
  end.
Definition removeLastmDevice (s : positive) : M unit :=
  o <-- stream s ;;
  if decide (mDevices o = []) then st_lift None
  else upd_stream s (λ o, set_mDevices (removelast (mDevices o)) o).
End routing.
