(* ===== verification/RoutingPolicy.v ===== *)
(** * Routing of streams to devices: who has to switch

    The decisions of the resource manager (resource_manager/src/ResourceManager.cpp) and
    of [Stream::switchDevice] (stream/src/Stream.cpp): whether two configurations of a
    device differ, which streams share a back end with a new device and have to follow
    it, the configurations of device groups, haptics and the ultrasound stream. *)

From S2P Require Import Prelude PalDefs Users Device RoutingState Routing.

Section policy.
Context `{RtEnv}.
Local Open Scope st_scope.

Local Abbreviation M := (St RtWorld).
Local Abbreviation ret := (@st_ret RtWorld _).
Local Abbreviation gets := (@st_gets RtWorld _).
Local Abbreviation query := (@st_query RtWorld _).
Local Abbreviation upd := (@st_modify RtWorld).

Abbreviation Dis := (list (positive * Z)).
Abbreviation Con := (list (positive * positive)).

Definition rate_44k (a : pal_device) : bool := bool_decide (sample_rate (config a) mod 44100 = 0).

(** ** Differences of configurations *)

Definition attr_differ (inDevAttr curDevAttr : pal_device) : bool :=
  let c := config inDevAttr in let d := config curDevAttr in
  bool_decide (sample_rate c ≠ sample_rate d) || bool_decide (bit_width c ≠ bit_width d)
  || bool_decide (channels (ch_info c) ≠ channels (ch_info d))
  || bool_decide (sndDevName inDevAttr ≠ sndDevName curDevAttr)
  || bool_decide (dev_id inDevAttr ≠ dev_id curDevAttr).

(** For a device of a group the group's configuration counts. *)
Definition group_differ (g cur : group_dev_config_t) (inDevAttr curDevAttr : pal_device) : bool :=
  let h := grp_dev_hwep_cfg g in let k := grp_dev_hwep_cfg cur in
  let rate := if decide (grp_sample_rate h = 0) then sample_rate (config inDevAttr)
              else grp_sample_rate h in
  let ch := if decide (grp_channels h = 0) then channels (ch_info (config inDevAttr))
            else grp_channels h in
  bool_decide (rate ≠ grp_sample_rate k) || bool_decide (ch ≠ grp_channels k)
  || bool_decide (grp_aud_fmt_id h ≠ grp_aud_fmt_id k)
  || bool_decide (grp_slot_mask h ≠ grp_slot_mask k)
  || bool_decide (snd_dev_name g ≠ snd_dev_name cur)
  || bool_decide (dev_id inDevAttr ≠ dev_id curDevAttr).

Definition checkDeviceSwitchForHaptics (inDevAttr curDevAttr : pal_device) : M bool :=
  dev <-- getInstance (bare PAL_DEVICE_OUT_HAPTICS_DEVICE) ;;
  match dev with
  | None => ret true
  | Some hapticsDev =>
      l <-- getActiveStream_l (Some hapticsDev) ;;
      if decide (l = []) then ret true
      else
        hapticsDattr <-- getDeviceAttributes hapticsDev None ;;
        ret (negb (rate_44k inDevAttr && negb (rate_44k curDevAttr)
                   && negb (rate_44k hapticsDattr)))
  end.

(** A Bluetooth device that is already in use decides itself. *)
Definition bt_override (inDevAttr curDevAttr : pal_device) (differ : bool) : M bool :=
  if bool_decide (dev_id inDevAttr = dev_id curDevAttr)
     && bool_decide (dev_id inDevAttr ∈ [PAL_DEVICE_OUT_BLUETOOTH_A2DP;
          PAL_DEVICE_OUT_BLUETOOTH_BLE; PAL_DEVICE_OUT_BLUETOOTH_BLE_BROADCAST;
          PAL_DEVICE_IN_BLUETOOTH_BLE])
  then
    available <-- ask (λ t, isDeviceAvailable t (dev_id inDevAttr)) ;;
    if available : bool then
      dev <-- getInstance inDevAttr ;;
      match dev with
      | None => ret differ
      | Some d =>
          r <-- ask (λ t, bt_force_switch t d) ;;
          ret (match r with Some (Some b) => b | _ => differ end)
      end
    else ret differ
  else ret differ.

(** The differences of a device that is in no group. *)
Definition plain_differ (inDevAttr curDevAttr : pal_device) : M bool :=
  b <-- (if attr_differ inDevAttr curDevAttr
            && bool_decide (dev_id inDevAttr ∈ [PAL_DEVICE_OUT_WIRED_HEADSET;
                                                PAL_DEVICE_OUT_WIRED_HEADPHONE])
            && negb isHapticsthroughWSA
         then checkDeviceSwitchForHaptics inDevAttr curDevAttr
         else ret (attr_differ inDevAttr curDevAttr)) ;;
  bt_override inDevAttr curDevAttr b.

Definition doDevAttrDiffer (inDevAttr curDevAttr : pal_device) : M bool :=
  if bool_decide (dev_id inDevAttr = 0) || bool_decide (dev_id curDevAttr = 0) then ret false
  else
    dev <-- getInstance curDevAttr ;;
    match dev with
    | None => ret false
    | Some _ =>
        g <-- gets activeGroupDevConfig ;;
        cur <-- gets currentGroupDevConfig ;;
        match g with
        | Some g =>
            if bool_decide (dev_id inDevAttr ∈ [PAL_DEVICE_OUT_SPEAKER; PAL_DEVICE_OUT_HANDSET])
            then ret (group_differ g cur inDevAttr curDevAttr)
            else plain_differ inDevAttr curDevAttr
        | None => plain_differ inDevAttr curDevAttr
        end
    end.

(** ** Streams that share a back end with a device *)

(** The new device is [newDev] with the attributes at [a], another one runs: the streams
    of the device of lower priority follow the other. *)
Definition compare_priority (a newDev curDev : positive) (newDevPrio : Z) : M bool :=
  cur <-- getTopPriorityDeviceAttr curDev ;;
  match cur with
  | (_, None) => ret true
  | (_, Some (curDevAttr, curDevPrio)) =>
      new <-- attr a ;;
      if decide (newDevPrio ≤ curDevPrio) then ret true
      else
        ready <-- (if isBtA2dpDevice (dev_id new) && isBtScoDevice (dev_id curDevAttr)
                   then ask (λ t, dev_isDeviceReady t curDev (dev_id curDevAttr)) else ret true) ;;
        if negb ready then ret true
        else
          put_attr a (with_id (dev_id curDevAttr) new) ;;;;
          new <-- attr a ;;
          dev <-- getInstance new ;;
          match dev with
          | None => ret false
          | Some newDev =>
              curDevAttr <-- getDeviceAttributes curDev None ;;
              top <-- getTopPriorityDeviceAttr newDev ;;
              match top with
              | (_, None) => ret false
              | (_, Some (new, _)) => put_attr a new ;;;; doDevAttrDiffer new curDevAttr
              end
          end
  end.

(** The device is about to be used ([enable]). *)
Definition compare_enable (a newDev curDev : positive) (cur_id : Z) : M bool :=
  top <-- getTopPriorityDeviceAttr newDev ;;
  match top with
  | (_, None) => ret false
  | (_, Some (new, newDevPrio)) =>
      put_attr a new ;;;;
      if decide (cur_id = dev_id new) then
        curDevAttr <-- getDeviceAttributes curDev None ;;
        doDevAttrDiffer new curDevAttr
      else compare_priority a newDev curDev newDevPrio
  end.

(** [multimap::insert]: after the entries of the same priority. *)
Fixpoint insert_prio (p : Z * pal_device) (l : list (Z * pal_device)) : list (Z * pal_device) :=
  match l with
  | [] => [p]
  | q :: l' => if decide (p.1 < q.1) then p :: l else q :: insert_prio p l'
  end.

(** The first entries of the devices of a stream with the back end. *)
Fixpoint top_attrs (be : string) (palDevices : list positive) (m : list (Z * pal_device))
    : M (list (Z * pal_device)) :=
  match palDevices with
  | [] => ret m
  | d :: palDevices =>
      id <-- getSndDeviceId d ;;
      if bool_decide (be = listAllBackEndIds id) then
        top <-- getTopPriorityDeviceAttr d ;;
        top_attrs be palDevices
          (match top with (_, Some (v, prio)) => insert_prio (prio, v) m | _ => m end)
      else top_attrs be palDevices m
  end.
Fixpoint stream_attrs (be : string) (shared : list (positive * Z)) (m : list (Z * pal_device))
    : M (list (Z * pal_device)) :=
  match shared with
  | [] => ret m
  | (s, _) :: shared =>
      o <-- stream s ;;
      m <-- top_attrs be (mPalDevices o) m ;;
      stream_attrs be shared m
  end.

(** Of several entries with the first priority the first one on the current device. *)
Definition choose_attr (m : list (Z * pal_device)) (cur_id : Z) : option pal_device :=
  match m with
  | [] => None
  | (prio, v) :: _ =>
      if decide (1 < length (filter (λ p, p.1 = prio) m))%nat then
        match list_find (λ p, dev_id p.2 = cur_id) m with
        | Some (_, (_, x)) => Some x
        | None => Some v
        end
      else Some v
  end.

(** A speaker that only runs at a greater width than needed stays as it is. *)
Definition keep_speaker (new cur : pal_device) : bool :=
  bool_decide (dev_id cur = dev_id new) && bool_decide (dev_id cur = PAL_DEVICE_OUT_SPEAKER)
  && bool_decide (bit_width (config new) < bit_width (config cur))
  && bool_decide (sample_rate (config new) = sample_rate (config cur))
  && bool_decide (channels (ch_info (config new)) = channels (ch_info (config cur))).

(** A stream has left the device; the attributes at [a] are those of the highest priority
    left. *)
Definition compare_disable (shared : list (positive * Z)) (a curDev : positive) : M bool :=
  new <-- attr a ;;
  m <-- stream_attrs (listAllBackEndIds (dev_id new)) shared [] ;;
  cur_id <-- getSndDeviceId curDev ;;
  match choose_attr m cur_id with
  | None => ret false
  | Some v =>
      put_attr a v ;;;;
      curDevAttr <-- getDeviceAttributes curDev None ;;
      if keep_speaker v curDevAttr then ret false else doDevAttrDiffer v curDevAttr
  end.

Definition compareSharedBEStreamDevAttr (shared : list (positive * Z)) (a : positive)
    (enable : bool) : M bool :=
  match shared with
  | [] => st_lift None
  | (_, cur_id) :: _ =>
      curDev <-- getInstance (bare cur_id) ;;
      match curDev with
      | None => ret false
      | Some curDev =>
          new <-- attr a ;;
          newDev <-- getInstance new ;;
          match newDev with
          | None => ret false
          | Some newDev =>
              if enable then compare_enable a newDev curDev cur_id
              else compare_disable shared a curDev
          end
      end
  end.

(** ** Streams that may not follow *)

Definition isValidDeviceSwitchForStream (s : positive) (newDeviceId : Z) : M bool :=
  if negb (isValidDevId newDeviceId) then ret false
  else
    o <-- stream s ;;
    if is_upd o then
      ret (bool_decide (newDeviceId ∈ [PAL_DEVICE_OUT_HANDSET; PAL_DEVICE_OUT_SPEAKER])
           && bool_decide (listAllBackEndIds PAL_DEVICE_OUT_HANDSET
                           = listAllBackEndIds PAL_DEVICE_OUT_SPEAKER))
    else ret (isValidStreamId (type (mStreamAttr o))).

(** The active streams on the device of the first pair that do not leave it. *)
Definition findActiveStreamsNotInDisconnectList (streamDevDisconnectList streamsSkippingSwitch : Dis)
    : M Dis :=
  match streamDevDisconnectList with
  | [] => ret streamsSkippingSwitch
  | (_, id) :: _ =>
      devObj <-- getInstance (bare id) ;;
      match devObj with
      | None => ret streamsSkippingSwitch
      | Some d =>
          lockActiveStream ;;;;
          activeStreams <-- getActiveStream_l (Some d) ;;
          unlockActiveStream ;;;;
          ret (streamsSkippingSwitch ++
               ((λ s, (s, id)) <$>
                  filter (λ s, s ∉ streamDevDisconnectList.*1) activeStreams))
      end
  end.

(** The ultrasound stream that stays alone on a device goes back to its own
    configuration. *)
Definition restore_upd (s : positive) (devId : Z) (dis : Dis) (con : Con) : M (Z * Dis * Con) :=
  o <-- stream s ;;
  if negb (is_upd o) then ret (0, dis, con)
  else
    match mPalDevices o with
    | [] => ret (- EINVAL, dis, con)
    | pd :: _ =>
        id <-- getSndDeviceId pd ;;
        r <-- ask (λ t, getDeviceConfig t (zeroed id) (Some (mStreamAttr o))) ;;
        let '(status, dAttr) := r in
        if decide (status ≠ 0) then ret (status, dis, con)
        else
          same <-- (if bool_decide (type (mStreamAttr o) = PAL_STREAM_ULTRASOUND)
                       && bool_decide (devId = PAL_DEVICE_OUT_HANDSET)
                    then
                      hs <-- getInstance (bare PAL_DEVICE_OUT_HANDSET) ;;
                      cur <-- (match hs with
                               | Some d => getDeviceAttributes d None
                               | None => ret (zeroed 0) end) ;;
                      b <-- doDevAttrDiffer dAttr cur ;; ret (negb b)
                    else ret false) ;;
          if same : bool then ret (0, dis, con)
          else
            a <-- alloc dAttr ;;
            ret (0, dis ++ [(s, devId)], con ++ [(s, a)])
    end.

Definition restoreDeviceConfigForUPD (dis : Dis) (con : Con) (streamsSkippingSwitch : Dis)
    : M (Z * Dis * Con) :=
  if IsDedicatedBEForUPDEnabled || @IsVirtualPortForUPDEnabled rt_dev then ret (0, dis, con)
  else if decide (dis = []) then ret (0, dis, con)
  else
    skipping <-- (if decide (streamsSkippingSwitch = [])
                  then findActiveStreamsNotInDisconnectList dis []
                  else ret streamsSkippingSwitch) ;;
    match skipping with
    | [(s, devId)] => restore_upd s devId dis con
    | _ => ret (0, dis, con)
    end.

(** ** Forced switches *)

(** The streams that may follow, with their new device, and those that may not. *)
Fixpoint switch_vectors (l : list positive) (cur_id : Z) (new_id : Z) (a : positive)
    : M (Dis * Con * Dis) :=
  match l with
  | [] => ret ([], [], [])
  | s :: l =>
      valid <-- isValidDeviceSwitchForStream s new_id ;;
      r <-- switch_vectors l cur_id new_id a ;;
      let '(dis, con, skip) := r in
      ret (if valid : bool then ((s, cur_id) :: dis, (s, a) :: con, skip)
           else (dis, con, (s, cur_id) :: skip))
  end.

(** The devices the streams were asked to use follow the switch. *)
Definition update_pal_devices (l : list positive) (cur_id : Z) (a : positive) : M unit :=
  lockActiveStream ;;;;
  st_for l (λ s,
    active <-- isStreamActive s ;;
    if active : bool then
      lockStreamMutex s ;;;;
      (if IsDummyDevEnabled then removePalDevice s cur_id else clearOutPalDevices s) ;;;;
      addPalDevice s a ;;;;
      unlockStreamMutex s
    else ret tt) ;;;;
  unlockActiveStream.

Definition forceDeviceSwitch (inDev a : positive) : M Z :=
  lockActiveStream ;;;;
  activeStreams <-- getActiveStream_l (Some inDev) ;;
  if decide (activeStreams = []) then unlockActiveStream ;;;; ret 0
  else
    cur_id <-- getSndDeviceId inDev ;;
    new <-- attr a ;;
    v <-- switch_vectors activeStreams cur_id (dev_id new) a ;;
    let '(dis, con, skip) := v in
    unlockActiveStream ;;;;
    r <-- restoreDeviceConfigForUPD dis con skip ;;
    let '(status, dis, con) := r in
    if decide (status ≠ 0) then ret status
    else
      status <-- streamDevSwitch dis con ;;
      (if decide (status = 0) then update_pal_devices activeStreams cur_id a else ret tt) ;;;;
      ret 0.

(** After a failed switch the streams of the new device's back end are added with the
    attributes it runs with. *)
Definition reset_usecases (a : positive) (dis : Dis) (con : Con) : M (option (Dis * Con)) :=
  lockActiveStream ;;;;
  new <-- attr a ;;
  shared <-- getSharedBEActiveStreamDevs [] (dev_id new) ;;
  match shared with
  | [] => unlockActiveStream ;;;; ret (Some (dis, con))
  | (_, id) :: _ =>
      curDev <-- getInstance (bare id) ;;
      match curDev with
      | None => unlockActiveStream ;;;; ret None
      | Some d =>
          curDevAttr <-- getDeviceAttributes d None ;;
          put_attr a curDevAttr ;;;;
          c <-- alloc curDevAttr ;;
          unlockActiveStream ;;;;
          ret (Some (dis ++ shared, con ++ ((λ p, (p.1, c)) <$> shared)))
      end
  end.

(** [forceDeviceSwitch] with the streams given. *)
Definition forceDeviceSwitch_streams (inDev a : positive) (prevActiveStreams : list positive)
    : M Z :=
  lockActiveStream ;;;;
  active <-- gets (λ w, filter (λ s, Users.isStreamActive s (rt_users w)) prevActiveStreams) ;;
  cur_id <-- getSndDeviceId inDev ;;
  new <-- attr a ;;
  v <-- switch_vectors active cur_id (dev_id new) a ;;
  let '(dis, con, skip) := v in
  unlockActiveStream ;;;;
  r <-- restoreDeviceConfigForUPD dis con skip ;;
  let '(status, dis, con) := r in
  if decide (status ≠ 0) then ret status
  else
    status <-- streamDevSwitch dis con ;;
    if decide (status = 0) then update_pal_devices prevActiveStreams cur_id a ;;;; ret 0
    else
      lists <-- reset_usecases a dis con ;;
      match lists with
      | None => ret 0
      | Some (dis, con) =>
          status <-- streamDevSwitch dis con ;;
          (if decide (status = 0) then update_pal_devices prevActiveStreams cur_id a
           else ret tt) ;;;;
          ret 0
      end.

(** ** Device groups *)

Definition isGroupConfigAvailable (idx : group_dev_config_idx_t) : bool :=
  bool_decide (is_Some (groupDevConfigMap idx)).

(** The ultrasound or haptics device comes or goes and a stream of type [ty] plays on the
    speaker or the handset [c]: the group to use and whether the stream switches. *)
Definition back_to_speaker (both : group_dev_config_idx_t) (ty : Z) (idx : group_dev_config_idx_t)
    : group_dev_config_idx_t * bool :=
  if isGroupConfigAvailable both then
    (if bool_decide (ty = PAL_STREAM_VOICE_CALL) && isGroupConfigAvailable GRP_SPEAKER_VOICE
     then GRP_SPEAKER_VOICE
     else if decide (idx = GRP_SPEAKER_VOICE) then idx else GRP_SPEAKER, true)
  else (idx, false).
Definition join_group (both alone : group_dev_config_idx_t) : group_dev_config_idx_t * bool :=
  if isGroupConfigAvailable both then (both, true) else (alone, false).
Definition group_step (c : Z) (streamEnable : bool) (ty : Z) (idx : group_dev_config_idx_t)
    : group_dev_config_idx_t * bool :=
  if decide (c = PAL_DEVICE_OUT_SPEAKER) then
    if streamEnable then
      if @IsVirtualPortForUPDEnabled rt_dev then join_group GRP_UPD_RX_SPEAKER GRP_UPD_RX
      else join_group GRP_HAPTICS_RX_SPEAKER GRP_HAPTICS
    else if @IsVirtualPortForUPDEnabled rt_dev then back_to_speaker GRP_UPD_RX_SPEAKER ty idx
    else if @IsI2sDualMonoEnabled rt_dev then back_to_speaker GRP_HAPTICS_RX_SPEAKER ty idx
    else (idx, false)
  else if streamEnable then join_group GRP_UPD_RX_HANDSET GRP_UPD_RX
  else if isGroupConfigAvailable GRP_UPD_RX_HANDSET then (GRP_HANDSET, true)
  else (idx, false).

Fixpoint group_streams (c : Z) (streamEnable : bool) (l : list positive)
    (idx : group_dev_config_idx_t) : M (group_dev_config_idx_t * list positive) :=
  match l with
  | [] => ret (idx, [])
  | s :: l =>
      o <-- stream s ;;
      let '(idx, b) := group_step c streamEnable (type (mStreamAttr o)) idx in
      r <-- group_streams c streamEnable l idx ;;
      ret (r.1, if b : bool then s :: r.2 else r.2)
  end.

Fixpoint group_devices (conc_dev : list Z) (streamDevAttr : positive) (streamEnable : bool)
    (idx : group_dev_config_idx_t) : M (group_dev_config_idx_t * list positive) :=
  match conc_dev with
  | [] => ret (idx, [])
  | c :: conc_dev =>
      dev <-- getInstance (bare c) ;;
      match dev with
      | None => group_devices conc_dev streamDevAttr streamEnable idx
      | Some d =>
          l <-- getActiveStream_l (Some d) ;;
          if decide (l = []) then group_devices conc_dev streamDevAttr streamEnable idx
          else
            g <-- group_streams c streamEnable l idx ;;
            v <-- getDeviceAttributes d None ;;
            put_attr streamDevAttr v ;;;;
            r <-- group_devices conc_dev streamDevAttr streamEnable g.1 ;;
            ret (r.1, g.2 ++ r.2)
      end
  end.

(** A stream comes to the speaker or the handset or goes away. *)
Definition group_audio (id : Z) (sAttr_type : Z) (streamDevAttr : positive) (streamEnable : bool)
    : M (group_dev_config_idx_t * list positive) :=
  let speaker := bool_decide (id = PAL_DEVICE_OUT_SPEAKER) in
  let own := if speaker then GRP_SPEAKER else GRP_HANDSET in
  let both := if speaker then GRP_UPD_RX_SPEAKER else GRP_UPD_RX_HANDSET in
  let idx := if streamEnable then own else GRP_DEV_CONFIG_INVALID in
  dev <-- getInstance (bare PAL_DEVICE_OUT_ULTRASOUND) ;;
  match dev with
  | None => ret (idx, [])
  | Some d =>
      l <-- getActiveStream_l (Some d) ;;
      match l with
      | s :: _ =>
          v <-- getDeviceAttributes d None ;;
          put_attr streamDevAttr v ;;;;
          let sw := if isGroupConfigAvailable both then [s] else [] in
          ret (if streamEnable then (if isGroupConfigAvailable both then both else own)
               else GRP_UPD_RX, sw)
      | [] =>
          if negb streamEnable then ret (idx, [])
          else if speaker && bool_decide (sAttr_type = PAL_STREAM_VOICE_CALL)
          then ret (if isGroupConfigAvailable GRP_SPEAKER_VOICE then GRP_SPEAKER_VOICE else idx, [])
          else
            voice <-- query (λ w, streams_with
                       (λ o, bool_decide (type (mStreamAttr o) = PAL_STREAM_VOICE_CALL))
                       (mActiveStreams (rt_users w)) w) ;;
            ret (if decide (voice = []) then idx else GRP_SPEAKER_VOICE, [])
      end
  end.

(** The device of the structure takes the name of the group. *)
Definition take_group_name (v : pal_device) (g : group_dev_config_t) : M unit :=
  dev <-- getInstance v ;;
  match dev with None => ret tt | Some d => setSndName d (snd_dev_name g) end.

(** [deviceattr] and [streamDevAttr] are addresses; the result is the status and the
    streams that have to switch. *)
Definition checkAndUpdateGroupDevConfig (deviceattr : positive) (sAttr_type : option Z)
    (streamDevAttr : positive) (streamEnable : bool) : M (Z * list positive) :=
  match sAttr_type with
  | None => ret (- EINVAL, [])
  | Some ty =>
      v <-- attr deviceattr ;;
      let id := dev_id v in
      if bool_decide (is_Some (be ← getBackendName id; String.index 0 "-VIRT-" be)) then
        g <-- (if bool_decide (id ∈ [PAL_DEVICE_OUT_ULTRASOUND; PAL_DEVICE_OUT_HAPTICS_DEVICE])
               then r <-- group_devices [PAL_DEVICE_OUT_SPEAKER; PAL_DEVICE_OUT_HANDSET]
                            streamDevAttr streamEnable
                            (if decide (id = PAL_DEVICE_OUT_ULTRASOUND) then GRP_UPD_RX
                             else GRP_HAPTICS) ;; ret (Some r)
               else if bool_decide (id ∈ [PAL_DEVICE_OUT_SPEAKER; PAL_DEVICE_OUT_HANDSET])
               then r <-- group_audio id ty streamDevAttr streamEnable ;; ret (Some r)
               else ret None) ;;
        match g with
        | Some (idx, sw) =>
            match groupDevConfigMap idx with
            | None => ret (- EINVAL, sw)
            | Some cfg =>
                upd (set_activeGroupDevConfig (Some cfg)) ;;;;
                take_group_name v cfg ;;;;
                v' <-- attr streamDevAttr ;;
                take_group_name v' cfg ;;;;
                ret (0, sw)
            end
        | None =>
            active <-- gets activeGroupDevConfig ;;
            match active with
            | None => ret (0, [])
            | Some cfg =>
                take_group_name v cfg ;;;;
                v' <-- attr streamDevAttr ;;
                take_group_name v' cfg ;;;;
                ret (0, [])
            end
        end
      else ret (0, [])
  end.

(** ** Headset and haptics *)

Definition with_format (rate width fmt : Z) (a : pal_device) : pal_device :=
  mkDevice (dev_id a) (mkMedia rate width fmt (ch_info (config a))) (dev_address a)
    (sndDevName a) (custom_key a) (addressV1 a).
Definition with_channels (n : Z) (a : pal_device) : pal_device :=
  let c := config a in
  mkDevice (dev_id a) (mkMedia (sample_rate c) (bit_width c) (aud_fmt_id c)
      (mkChannels n (ch_map (ch_info c)))) (dev_address a) (sndDevName a) (custom_key a)
    (addressV1 a).

(** A headset comes while haptics may be active. *)
Definition headset_comes (deviceattr : positive) (v : pal_device) : M unit :=
  haptics <-- getInstance (bare PAL_DEVICE_OUT_HAPTICS_DEVICE) ;;
  hs <-- getInstance v ;;
  match haptics, hs with
  | Some hapticsDev, Some hsDev =>
      l <-- getActiveStream_l (Some hapticsDev) ;;
      if decide (l = []) then setSampleRate hsDev 0
      else
        h <-- getDeviceAttributes hapticsDev None ;;
        if rate_44k v && negb (rate_44k h) then
          setSampleRate hsDev (sample_rate (config h)) ;;;;
          fmt <-- st_lift (getAudioFmt (bit_width (config h))) ;;
          put_attr deviceattr (with_format (sample_rate (config h)) (bit_width (config h)) fmt v)
        else ret tt
  | _, _ => ret tt
  end.

(** Haptics comes: the streams on the headset that have to change their rate. *)
Fixpoint haptics_comes (v : pal_device) (sAttr : option pal_stream_attributes)
    (curDevAttr : option positive) (shared : list (positive * Z)) : M (list positive) :=
  match shared with
  | [] => ret []
  | (s, id) :: shared =>
      c <-- st_lift curDevAttr ;;
      cur <-- attr c ;;
      put_attr c (with_id id cur) ;;;;
      dev <-- getInstance (with_id id cur) ;;
      match dev with
      | None => haptics_comes v sAttr curDevAttr shared
      | Some d =>
          cur <-- getDeviceAttributes d None ;;
          put_attr c cur ;;;;
          if rate_44k cur then
            sa <-- st_lift sAttr ;;
            let out := out_media_config sa in
            if bool_decide (sample_rate out mod 44100 ≠ 0) then
              fmt <-- st_lift (getAudioFmt (bit_width (config v))) ;;
              put_attr c (with_format (sample_rate out) (bit_width out) fmt cur) ;;;;
              r <-- haptics_comes v sAttr curDevAttr shared ;; ret (s :: r)
            else haptics_comes v sAttr curDevAttr shared
          else haptics_comes v sAttr curDevAttr shared
      end
  end.

Definition checkHapticsConcurrency (deviceattr : positive) (sAttr : option pal_stream_attributes)
    (curDevAttr : option positive) : M (list positive) :=
  v <-- attr deviceattr ;;
  if bool_decide (dev_id v ∈ [PAL_DEVICE_OUT_WIRED_HEADSET; PAL_DEVICE_OUT_WIRED_HEADPHONE])
  then headset_comes deviceattr v ;;;; ret []
  else if bool_decide (dev_id v = PAL_DEVICE_OUT_HAPTICS_DEVICE) then
    shared <-- getSharedBEActiveStreamDevs [] PAL_DEVICE_OUT_WIRED_HEADSET ;;
    haptics_comes v sAttr curDevAttr shared
  else ret [].

(** The two-channel configuration at the rate and width of [from]. *)
Definition aligned (from to : pal_device) : option pal_device :=
  fmt ← getAudioFmt (bit_width (config from));
  Some (with_channels DEFAULT_OUTPUT_CHANNEL
          (with_format (sample_rate (config from)) (bit_width (config from)) fmt to)).

Definition single_case (shared : list (positive * Z)) (isSwitchCase : bool) : bool :=
  bool_decide (shared = []) || (isSwitchCase && bool_decide (length shared = 1%nat)).

(** The first of the devices that has active streams, with them. *)
Fixpoint first_shared (ids : list Z) : M (Z * list (positive * Z)) :=
  match ids with
  | [] => ret (0, [])
  | id :: ids =>
      shared <-- getSharedBEActiveStreamDevs [] id ;;
      if decide (shared = []) then first_shared ids else ret (id, shared)
  end.

(** A speaker and a wired headset run at the same rate. *)
Definition checkAndUpdateHeadsetDevConfig (newDevAttr : positive) (isSwitchCase : bool) : M unit :=
  new <-- attr newDevAttr ;;
  if bool_decide (dev_id new = PAL_DEVICE_OUT_SPEAKER) then
    lockActiveStream ;;;;
    r <-- first_shared [PAL_DEVICE_OUT_WIRED_HEADSET; PAL_DEVICE_OUT_WIRED_HEADPHONE] ;;
    unlockActiveStream ;;;;
    if single_case r.2 isSwitchCase then ret tt
    else
      dev <-- getInstance (zeroed r.1) ;;
      hsDev <-- st_lift dev ;;
      hsDattr <-- getDeviceAttributes hsDev None ;;
      if bool_decide (sample_rate (config new) = sample_rate (config hsDattr)) then ret tt
      else
        v <-- st_lift (aligned new hsDattr) ;;
        setDeviceAttributes hsDev v ;;;;
        a <-- alloc v ;;
        forceDeviceSwitch hsDev a ;;;; ret tt
  else if bool_decide (dev_id new ∈ [PAL_DEVICE_OUT_WIRED_HEADSET; PAL_DEVICE_OUT_WIRED_HEADPHONE])
  then
    lockActiveStream ;;;;
    shared <-- getSharedBEActiveStreamDevs [] PAL_DEVICE_OUT_SPEAKER ;;
    unlockActiveStream ;;;;
    if single_case shared isSwitchCase then ret tt
    else
      spk <-- getInstance (zeroed PAL_DEVICE_OUT_SPEAKER) ;;
      hs <-- getInstance new ;;
      spkDev <-- st_lift spk ;;
      spkDattr <-- getDeviceAttributes spkDev None ;;
      if bool_decide (sample_rate (config new) = sample_rate (config spkDattr)) then ret tt
      else
        v <-- st_lift (aligned spkDattr new) ;;
        put_attr newDevAttr v ;;;;
        hsDev <-- st_lift hs ;;
        setDeviceAttributes hsDev v
  else ret tt.

(** ** A stream is opened *)

Definition pairs_to (l : list positive) (id : Z) (a : positive) : Dis * Con :=
  ((λ s, (s, id)) <$> l, (λ s, (s, a)) <$> l).

(** A2DP playback and recording from a BLE microphone exclude each other
    (utils/src/BTUtils.cpp). *)
Definition handleA2dpBleConcurrency (inDev : option positive) (inDevAttr dummyDevAttr : positive)
    : M (option positive * Dis * Con) :=
  v <-- attr inDevAttr ;;
  if bool_decide (dev_id v = PAL_DEVICE_IN_BLUETOOTH_BLE) then
    dev <-- getInstance (zeroed PAL_DEVICE_OUT_BLUETOOTH_A2DP) ;;
    match dev with
    | None => ret (inDev, [], [])
    | Some d =>
        lockActiveStream ;;;;
        streams <-- getActiveStream_l (Some d) ;;
        unlockActiveStream ;;;;
        if decide (streams = []) then ret (inDev, [], [])
        else
          dummy <-- attr dummyDevAttr ;;
          r <-- ask (λ t, getDeviceConfig t (with_id PAL_DEVICE_OUT_DUMMY dummy) None) ;;
          put_attr dummyDevAttr r.2 ;;;;
          let p := pairs_to streams PAL_DEVICE_OUT_BLUETOOTH_A2DP dummyDevAttr in
          ret (if decide (r.1 = 0) then (inDev, p.1, p.2) else (inDev, [], []))
    end
  else if bool_decide (dev_id v = PAL_DEVICE_OUT_BLUETOOTH_A2DP) then
    dev <-- getInstance (zeroed PAL_DEVICE_IN_BLUETOOTH_BLE) ;;
    lockActiveStream ;;;;
    streams <-- getActiveStream_l dev ;;
    unlockActiveStream ;;;;
    if decide (streams = []) then ret (inDev, [], [])
    else
      r <-- ask (λ t, getDeviceConfig t (with_id PAL_DEVICE_OUT_DUMMY v) None) ;;
      if decide (r.1 = 0) then
        put_attr inDevAttr r.2 ;;;;
        d <-- getInstance r.2 ;; ret (d, [], [])
      else put_attr inDevAttr (with_id PAL_DEVICE_OUT_BLUETOOTH_A2DP r.2) ;;;; ret (inDev, [], [])
  else ret (inDev, [], []).

(** The streams of the back end follow when the new device is ready. *)
Fixpoint follow (shared : list (positive * Z)) (a : positive) : M (Dis * Con) :=
  match shared with
  | [] => ret ([], [])
  | (s, id) :: shared =>
      v <-- attr a ;;
      ready <-- isDeviceReady (dev_id v) ;;
      r <-- follow shared a ;;
      ret (if ready : bool then ((s, id) :: r.1, (s, a) :: r.2) else r)
  end.

Definition follows_voice_call (o : RtStream) : bool :=
  bool_decide (direction (mStreamAttr o) = PAL_AUDIO_OUTPUT)
  && bool_decide (type (mStreamAttr o) ∈ [PAL_STREAM_LOW_LATENCY; PAL_STREAM_DEEP_BUFFER;
       PAL_STREAM_PCM_OFFLOAD; PAL_STREAM_COMPRESSED; PAL_STREAM_GENERIC; PAL_STREAM_VOIP_RX;
       PAL_STREAM_ULTRA_LOW_LATENCY]).

(** The playback streams that leave another device for the one of a voice call. *)
Fixpoint voice_moves (l : list positive) (new_id : Z) (w : RtWorld) : option Dis :=
  match l with
  | [] => Some []
  | s :: l =>
      o ← rt_streams w !! s;
      r ← voice_moves l new_id w;
      Some ((if follows_voice_call o then
               (λ id, (s, id)) <$>
                 filter (λ id, matchDevDir id new_id ∧ id ≠ new_id) (snd_id w <$> mDevices o)
             else []) ++ r)
  end.

Definition is_detection_type (ty : Z) : bool :=
  bool_decide (ty ∈ [PAL_STREAM_ACD; PAL_STREAM_VOICE_UI; PAL_STREAM_ASR]).

(** The configuration at [inDevAttr] becomes the one of the highest priority; the result
    is whether streams of the back end switch, and the device. *)
Definition updateDeviceConfig (inDev : option positive) (inDevAttr : positive)
    (inStrAttr : pal_stream_attributes) : M (bool * option positive) :=
  if is_detection_type (type inStrAttr) then ret (false, inDev)
  else
    v <-- attr inDevAttr ;;
    let name := getSndDevName (dev_id v) (type inStrAttr) (custom_key v) in
    streamDevAttr <-- alloc uninit ;;
    dummyDevAttr <-- alloc (zeroed 0) ;;
    lockActiveStream ;;;;
    sw <-- (if isHapticsthroughWSA then ret []
            else checkHapticsConcurrency inDevAttr (Some inStrAttr) (Some streamDevAttr)) ;;
    sda <-- attr streamDevAttr ;;
    let p1 := pairs_to sw (dev_id sda) streamDevAttr in
    r <-- handleA2dpBleConcurrency inDev inDevAttr dummyDevAttr ;;
    let '(inDev, dis2, con2) := r in
    g <-- checkAndUpdateGroupDevConfig inDevAttr (Some (type inStrAttr)) streamDevAttr true ;;
    let sw := if decide (g.1 = 0) then g.2 else [] in
    v <-- attr inDevAttr ;;
    shared <-- getSharedBEActiveStreamDevs [] (dev_id v) ;;
    r <-- (if decide (shared = []) then
             upd (updateSndName (dev_id v) name) ;;;;
             sda <-- attr streamDevAttr ;;
             ret (false, inDev, pairs_to sw (dev_id sda) streamDevAttr)
           else
             switchStreams <-- compareSharedBEStreamDevAttr shared inDevAttr true ;;
             p <-- (if switchStreams : bool then follow shared inDevAttr else ret ([], [])) ;;
             v <-- attr inDevAttr ;;
             d <-- getInstance v ;;
             ret (bool_decide (p.1 ≠ []), d, p)) ;;
    let '(isDeviceSwitch, inDev, p3) := r in
    v <-- attr inDevAttr ;;
    moves <-- (if bool_decide (type inStrAttr = PAL_STREAM_VOICE_CALL)
               then query (λ w, voice_moves (mActiveStreams (rt_users w)) (dev_id v) w)
               else ret []) ;;
    unlockActiveStream ;;;;
    let dis := p1.1 ++ dis2 ++ p3.1 ++ moves in
    let con := p1.2 ++ con2 ++ p3.2 ++ ((λ p, (p.1, inDevAttr)) <$> moves) in
    (if bool_decide (dis ≠ []) && negb (@IsI2sDualMonoEnabled rt_dev)
     then streamDevSwitch dis con ;;;; ret tt else ret tt) ;;;;
    d <-- st_lift inDev ;;
    v <-- attr inDevAttr ;;
    setDeviceAttributes d v ;;;;
    ret (isDeviceSwitch, Some d).

(** ** A stream is closed *)

(** [if (!rm->increaseStreamUserCounter(s)) mute] *)
Definition mute_used (s : positive) : M (list positive) :=
  status <-- ask (λ t, increaseStreamUserCounter t s) ;;
  if decide (status = 0) then log (EvUser s true) ;;;; mute s true ;;;; ret [s] else ret [].
Fixpoint mute_all (l : list positive) : M (list positive) :=
  match l with
  | [] => ret []
  | s :: l => r <-- mute_used s ;; r' <-- mute_all l ;; ret (r ++ r')
  end.
Definition unmute_used (s : positive) : M unit :=
  mute s false ;;;; log (EvUser s false).
Definition unmute_all (l : list positive) : M unit :=
  if decide (l = []) then ret tt
  else lockActiveStream ;;;; st_for l unmute_used ;;;; unlockActiveStream.

(** The part under the mutex: the switch and the muted streams; [None] is the early
    exit.  The type of [sAttr] is not read for a device that goes away. *)
Definition restore_lists (dev c nw : positive) : M (option (Dis * Con * list positive)) :=
  n <-- getDeviceCount dev ;;
  g <-- (if decide (n = 0) then checkAndUpdateGroupDevConfig c (Some 0) nw false
         else ret (0, [])) ;;
  let sw := if decide (g.1 = 0) then g.2 else [] in
  id <-- getSndDeviceId dev ;;
  r <-- (if bool_decide (id = PAL_DEVICE_OUT_WIRED_HEADSET) && negb isHapticsthroughWSA then
           new <-- attr nw ;;
           put_attr nw (with_id PAL_DEVICE_OUT_WIRED_HEADSET new) ;;;;
           dev <-- getInstance (with_id PAL_DEVICE_OUT_WIRED_HEADSET new) ;;
           match dev with
           | None => ret None
           | Some dev =>
               new <-- getDeviceAttributes dev None ;;
               put_attr nw new ;;;;
               sw' <-- checkHapticsConcurrency nw None None ;;
               ret (Some (dev, sw ++ sw'))
           end
         else ret (Some (dev, sw))) ;;
  match r with
  | None => ret None
  | Some (dev, sw) =>
      id <-- getSndDeviceId dev ;;
      shared <-- getSharedBEActiveStreamDevs [] id ;;
      if decide (shared = []) then
        new <-- attr nw ;;
        let p := pairs_to sw (dev_id new) nw in ret (Some (p.1, p.2, []))
      else
        switchStreams <-- compareSharedBEStreamDevAttr shared c false ;;
        cur <-- attr c ;;
        ready <-- st_and switchStreams (isDeviceReady (dev_id cur)) ;;
        if ready : bool then
          muted <-- mute_all shared.*1 ;;
          let p := pairs_to shared.*1 id c in ret (Some (p.1, p.2, muted))
        else ret (Some ([], [], []))
  end.

Definition restoreDevice (dev : positive) : M unit :=
  id <-- getSndDeviceId dev ;;
  n <-- getDeviceCount dev ;;
  if @isPluginPlaybackDevice rt_dev id && bool_decide (n ≠ 0) then ret tt
  else
    dev <-- (if bool_decide (id = PAL_DEVICE_OUT_HAPTICS_DEVICE) && negb isHapticsthroughWSA
             then getInstance (bare PAL_DEVICE_OUT_WIRED_HEADSET) else ret (Some dev)) ;;
    match dev with
    | None => ret tt
    | Some dev =>
        cur <-- getDeviceAttributes dev None ;;
        c <-- alloc cur ;;
        nw <-- alloc uninit ;;
        lockActiveStream ;;;;
        r <-- restore_lists dev c nw ;;
        unlockActiveStream ;;;;
        match r with
        | None => ret tt
        | Some (dis, con, muted) =>
            (if bool_decide (dis ≠ []) && negb (@IsI2sDualMonoEnabled rt_dev)
             then streamDevSwitch dis con ;;;; ret tt else ret tt) ;;;;
            unmute_all muted
        end
    end.

(** ** A stream is switched *)

(** What [switchDevice] keeps in local variables while it fills the lists. *)
Record Switch := mkSwitch {
  sw_dis : Dis;
  sw_con : Con;
  sw_skipping : Dis;
  sw_muted : list positive;
  sw_matchFound : bool;
  sw_voice : bool;
}.

(** Output devices from which a request for no device leads to the speaker. *)
Definition checkNone (curDevId : Z) : M bool :=
  if bool_decide (curDevId < PAL_DEVICE_OUT_MAX) then
    ready <-- (if isBtA2dpDevice curDevId || isBtScoDevice curDevId then isDeviceReady curDevId
               else ret true) ;;
    ret (negb ready || bool_decide (curDevId ∈ [PAL_DEVICE_OUT_PROXY; PAL_DEVICE_OUT_USB_DEVICE;
      PAL_DEVICE_OUT_USB_HEADSET; PAL_DEVICE_OUT_WIRED_HEADSET; PAL_DEVICE_OUT_WIRED_HEADPHONE;
      PAL_DEVICE_OUT_AUX_DIGITAL; PAL_DEVICE_OUT_AUX_DIGITAL_1; PAL_DEVICE_OUT_HDMI]))
  else ret false.

(** The search of a current device among the new ones: [Some force] when it is there,
    [force] when its custom key changes. *)
Fixpoint match_device (s d : positive) (curDevId : Z) (numDev : nat) (devs : list positive)
    : M (option bool) :=
  match devs with
  | [] => ret None
  | a :: devs =>
      v <-- attr a ;;
      upd_stream s (set_isComboHeadsetActive
        (bool_decide (1 < numDev)%nat &&
         bool_decide (dev_id v ∈ [PAL_DEVICE_OUT_SPEAKER; PAL_DEVICE_OUT_WIRED_HEADSET;
                                  PAL_DEVICE_OUT_WIRED_HEADPHONE]))) ;;;;
      if decide (curDevId = dev_id v) then
        cur <-- getDeviceAttributes d (Some s) ;;
        ret (Some (bool_decide (custom_key v ≠ custom_key cur)
                   && bool_decide (dev_id v < PAL_DEVICE_IN_MAX)))
      else match_device s d curDevId numDev devs
  end.

(** The current devices: whether one asks for the speaker, those that are not wanted any
    more, the ids with a new custom key, and whether the last one was found. *)
Fixpoint scan_current (s : positive) (hasNone : bool) (devs : list positive)
    (cur : list positive) (found : bool) : M (bool * list positive * list Z * bool) :=
  match cur with
  | [] => ret (false, [], [], found)
  | d :: cur =>
      id <-- getSndDeviceId d ;;
      none <-- (if hasNone then checkNone id else ret false) ;;
      m <-- match_device s d id (length devs) devs ;;
      r <-- scan_current s hasNone devs cur (bool_decide (is_Some m)) ;;
      let '(none', gone, force, found) := r in
      ret (none || none',
           match m with None => d :: gone | Some _ => gone end,
           match m with Some true => id :: force | _ => force end,
           found)
  end.

(** The result of the loop over the new devices: an early return, or the devices that are
    ready, and the last Bluetooth device with whether it is ready. *)
Definition BtState : Type := option (Z * bool).

(** A request for no device is redirected, playback to A2DP during a BLE recording goes
    nowhere; [None] passes over the device. *)
Definition redirect (o : RtStream) (checkNoneDevice : bool) (a : positive) : M (option unit) :=
  v <-- attr a ;;
  ok <-- (if checkNoneDevice && bool_decide (dev_id v = PAL_DEVICE_NONE) then
            let id := if IsDummyDevEnabled then PAL_DEVICE_OUT_DUMMY else PAL_DEVICE_OUT_SPEAKER in
            r <-- ask (λ t, getDeviceConfig t (with_id id v) (Some (mStreamAttr o))) ;;
            put_attr a r.2 ;;;; ret (bool_decide (r.1 = 0))
          else ret true) ;;
  if negb ok then ret None
  else
    v <-- attr a ;;
    (if bool_decide (dev_id v = PAL_DEVICE_OUT_BLUETOOTH_A2DP) then
       dev <-- getInstance (zeroed PAL_DEVICE_IN_BLUETOOTH_BLE) ;;
       match dev with
       | None => ret tt
       | Some d =>
           l <-- getActiveStream_l (Some d) ;;
           if decide (l = []) then ret tt else put_attr a (with_id PAL_DEVICE_OUT_DUMMY v)
       end
     else ret tt) ;;;;
    ret (Some tt).

Fixpoint any_device (devs : list positive) (id : Z) : M bool :=
  match devs with
  | [] => ret false
  | a :: devs => v <-- attr a ;; r <-- any_device devs id ;; ret (bool_decide (dev_id v = id) || r)
  end.

(** A Bluetooth device that is not ready, without a speaker next to it: the stream waits
    for it. *)
Definition suspend (s : positive) (id : Z) : M unit :=
  if isOutputDevId id then upd_stream s (set_suspendedOutDevIds [id])
  else if isInputDevId id then upd_stream s (set_suspendedInDevIds [id]) else ret tt.

Fixpoint scan_new (s : positive) (all devs : list positive) (checkNoneDevice : bool)
    (slots : list positive) (bt : BtState) : M (Z + list positive * BtState) :=
  match devs with
  | [] => ret (inr (slots, bt))
  | a :: devs =>
      o <-- stream s ;;
      r <-- redirect o checkNoneDevice a ;;
      match r with
      | None => scan_new s all devs checkNoneDevice slots bt
      | Some _ =>
          v <-- attr a ;;
          let id := dev_id v in
          if decide (id = PAL_DEVICE_NONE) then ret (inl 0)
          else
            ready <-- isDeviceReady id ;;
            speaker <-- any_device all PAL_DEVICE_OUT_SPEAKER ;;
            (if isBtA2dpDevice id && negb ready && negb speaker then suspend s id else ret tt) ;;;;
            dev <-- getInstance v ;;
            match dev with
            | None => ret (inl (- ENODEV))
            | Some d =>
                insertStreamDeviceAttr d v s ;;;;
                upd_stream s (λ o, set_mPalDevices (mPalDevices o ++ [d]) o) ;;;;
                scan_new s all devs checkNoneDevice
                  (if ready : bool then slots ++ [a] else slots)
                  (if isBtA2dpDevice id then Some (id, ready) else bt)
            end
      end
  end.

(** Streams muted while they follow. *)
Definition muted_type (ty : Z) : bool :=
  bool_decide (ty ∈ [PAL_STREAM_DEEP_BUFFER; PAL_STREAM_COMPRESSED; PAL_STREAM_PCM_OFFLOAD]).

(** The streams that share the back end of the new device at [a]. *)
Fixpoint share_loop (s a : positive) (force : list Z) (switchStreams : bool)
    (shared : list (positive * Z)) (st : Switch) : M Switch :=
  match shared with
  | [] => ret st
  | (s', id) :: shared =>
      if decide (PAL_DEVICE_IN_MAX ≤ id) then share_loop s a force switchStreams shared st
      else if switchStreams || (bool_decide (s' = s) && bool_decide (id ∈ force)) then
        o <-- stream s' ;;
        m <-- (if bool_decide (s' ≠ s) && muted_type (type (mStreamAttr o)) then mute_used s'
               else ret []) ;;
        share_loop s a force switchStreams shared
          (mkSwitch (sw_dis st ++ [(s', id)]) (sw_con st ++ [(s', a)]) (sw_skipping st)
             (sw_muted st ++ m) true (sw_voice st))
      else
        share_loop s a force switchStreams shared
          (mkSwitch (sw_dis st) (sw_con st) (sw_skipping st) (sw_muted st) false (sw_voice st))
  end.

(** The other direction of a SCO device follows; [inl] is the failure of its
    configuration. *)
Definition sco_other (ty newDeviceId : Z) : M (option Z) :=
  if bool_decide (ty = PAL_STREAM_VOIP_RX) && bool_decide (newDeviceId = PAL_DEVICE_OUT_BLUETOOTH_SCO)
  then b <-- isDeviceActive PAL_DEVICE_IN_BLUETOOTH_SCO_HEADSET ;;
       ret (if b : bool then Some PAL_DEVICE_IN_BLUETOOTH_SCO_HEADSET else None)
  else if bool_decide (ty = PAL_STREAM_VOIP_TX)
          && bool_decide (newDeviceId = PAL_DEVICE_IN_BLUETOOTH_SCO_HEADSET)
  then b <-- isDeviceActive PAL_DEVICE_OUT_BLUETOOTH_SCO ;;
       ret (if b : bool then Some PAL_DEVICE_OUT_BLUETOOTH_SCO else None)
  else ret None.

Definition sco_follow (sco_Dattr : positive) (ty newDeviceId : Z) (st : Switch) : M (Z + Switch) :=
  other <-- (if sw_matchFound st then sco_other ty newDeviceId else ret None) ;;
  match other with
  | None => ret (inr st)
  | Some id =>
      v <-- attr sco_Dattr ;;
      scoDev <-- getInstance (with_id id v) ;;
      r <-- ask (λ t, getDeviceConfig t (with_id id v) None) ;;
      put_attr sco_Dattr r.2 ;;;;
      if decide (r.1 ≠ 0) then
        st_for (sw_muted st) unmute_used ;;;; ret (inl r.1)
      else
        l <-- getActiveStream_l scoDev ;;
        st_for l (λ s', lockStreamMutex s' ;;;; unlockStreamMutex s') ;;;;
        let p := pairs_to l (dev_id r.2) sco_Dattr in
        ret (inr (mkSwitch (sw_dis st ++ p.1) (sw_con st ++ p.2) (sw_skipping st) (sw_muted st)
                    (sw_matchFound st) (sw_voice st)))
  end.

Definition push_pairs (p : Dis * Con) (st : Switch) : Switch :=
  mkSwitch (sw_dis st ++ p.1) (sw_con st ++ p.2) (sw_skipping st) (sw_muted st)
    (sw_matchFound st) (sw_voice st).
Definition set_match (b : bool) (st : Switch) : Switch :=
  mkSwitch (sw_dis st) (sw_con st) (sw_skipping st) (sw_muted st) b (sw_voice st).

(** The group's other streams, with the structure [sda]. *)
Definition group_pairs (a sda : positive) (ty : Z) (enable : bool) (st : Switch) : M Switch :=
  g <-- checkAndUpdateGroupDevConfig a (Some ty) sda enable ;;
  v <-- attr sda ;;
  ret (if decide (g.1 = 0) then push_pairs (pairs_to g.2 (dev_id v) sda) st else st).

(** During a voice call everything on the current devices follows. *)
Fixpoint voice_elems (a : positive) (shared : list (positive * Z)) (st : Switch) : M Switch :=
  match shared with
  | [] => ret st
  | (s', id) :: shared =>
      v <-- attr a ;;
      valid <-- isValidDeviceSwitchForStream s' (dev_id v) ;;
      voice_elems a shared
        (if valid : bool then push_pairs ([(s', id)], [(s', a)]) st
         else mkSwitch (sw_dis st) (sw_con st) (sw_skipping st ++ [(s', id)]) (sw_muted st)
                (sw_matchFound st) (sw_voice st))
  end.
Fixpoint voice_loop (a : positive) (ty newDeviceId : Z) (cur : list positive)
    (shared : list (positive * Z)) (st : Switch) : M Switch :=
  match cur with
  | [] => ret st
  | d :: cur =>
      id <-- getSndDeviceId d ;;
      if matchDevDir newDeviceId id && bool_decide (newDeviceId ≠ id)
         && bool_decide (id ≠ PAL_DEVICE_OUT_PROXY) && bool_decide (newDeviceId ≠ PAL_DEVICE_OUT_PROXY)
      then
        shared <-- getSharedBEActiveStreamDevs shared id ;;
        let voice := sw_voice st || (bool_decide (ty = PAL_STREAM_VOICE_CALL)
                                     && bool_decide (newDeviceId ≠ PAL_DEVICE_OUT_HEARING_AID)) in
        let st := mkSwitch (sw_dis st) (sw_con st) (sw_skipping st) (sw_muted st)
                    (sw_matchFound st) voice in
        st <-- (if voice then voice_elems a shared st else ret st) ;;
        voice_loop a ty newDeviceId cur shared st
      else voice_loop a ty newDeviceId cur shared st
  end.

(** The current devices of the same direction that are not wanted any more. *)
Fixpoint leave_loop (s a sda : positive) (ty newDeviceId : Z) (gone : list positive) (st : Switch)
    : M Switch :=
  match gone with
  | [] => ret st
  | d :: gone =>
      id <-- getSndDeviceId d ;;
      v <-- attr a ;;
      if matchDevDir id newDeviceId && bool_decide (id ≠ dev_id v) then
        n <-- getDeviceCount d ;;
        let st := set_match true (push_pairs ([(s, id)], []) st) in
        st <-- (if bool_decide (n = 1)
                   && bool_decide (newDeviceId ∉ [PAL_DEVICE_OUT_SPEAKER; PAL_DEVICE_OUT_HANDSET])
                then
                  dAttr <-- getDeviceAttributes d None ;;
                  c <-- alloc dAttr ;;
                  group_pairs c sda ty false st
                else ret st) ;;
        leave_loop s a sda ty newDeviceId gone st
      else leave_loop s a sda ty newDeviceId gone st
  end.

(** One new device that is ready. *)
Definition new_device (s a sda sco_Dattr : positive) (gone : list positive) (force : list Z)
    (st : Switch) : M (Z + Switch) :=
  o <-- stream s ;;
  let ty := type (mStreamAttr o) in
  v <-- attr a ;;
  let newDeviceId := dev_id v in
  shared <-- getSharedBEActiveStreamDevs [] newDeviceId ;;
  r <-- (if decide (shared = []) then
           upd (updateSndName newDeviceId (getSndDevName newDeviceId ty (custom_key v))) ;;;;
           st <-- group_pairs a sda ty true (set_match true st) ;; ret (inr st)
         else
           switchStreams <-- compareSharedBEStreamDevAttr shared a true ;;
           st <-- share_loop s a force switchStreams shared st ;;
           sco_follow sco_Dattr ty newDeviceId st) ;;
  match r with
  | inl status => ret (inl status)
  | inr st =>
      (if isHapticsthroughWSA then ret [] else checkHapticsConcurrency a None None) ;;;;
      o <-- stream s ;;
      st <-- voice_loop a ty newDeviceId (mDevices o) [] st ;;
      st <-- leave_loop s a sda ty newDeviceId gone st ;;
      ret (inr (if sw_matchFound st || bool_decide (gone = [])
                then push_pairs ([], [(s, a)]) st else st))
  end.

Fixpoint new_devices (s sda sco_Dattr : positive) (gone : list positive) (force : list Z)
    (slots : list positive) (st : Switch) : M (Z + Switch) :=
  match slots with
  | [] => ret (inr st)
  | a :: slots =>
      r <-- new_device s a sda sco_Dattr gone force st ;;
      match r with
      | inl status => ret (inl status)
      | inr st => new_devices s sda sco_Dattr gone force slots st
      end
  end.

(** The label [done]: the muted streams, a stream muted by a suspended A2DP device, and
    the device the stream waits for. *)
Definition switch_done (s : positive) (numDev : nat) (bt : BtState) (muted : list positive)
    (status : Z) : M Z :=
  unmute_all muted ;;;;
  lockStreamMutex s ;;;;
  o <-- stream s ;;
  if a2dpMuted o && negb (rs_volume o) then unlockStreamMutex s ;;;; ret (- ENOMEM)
  else
    status <-- (if a2dpMuted o then
                  upd_stream s (set_a2dpMuted false) ;;;;
                  log (EvSetVolume s) ;;;;
                  status <-- ask (λ t, setVolume t s) ;;
                  log (EvMute s false) ;;;; ret status
                else ret status) ;;
    upd_stream s (set_suspendedOutDevIds
      match bt with
      | Some (id, false) =>
          if decide (1 < numDev)%nat then
            [id; if IsDummyDevEnabled then PAL_DEVICE_OUT_DUMMY else PAL_DEVICE_OUT_SPEAKER]
          else []
      | _ => []
      end) ;;;;
    unlockStreamMutex s ;;;; ret status.

Definition both_unlock (s : positive) (status : Z) : M Z :=
  unlockStreamMutex s ;;;; unlockActiveStream ;;;; ret status.

(** With the lists filled and the mutexes free. *)
Definition run_switch (s : positive) (newDevices : list positive) (bt : BtState) (st : Switch)
    : M Z :=
  (match newDevices with
   | [a] => if @is_multiple_sample_rate_combo_supported rt_dev then ret tt
            else checkAndUpdateHeadsetDevConfig a true
   | _ => ret tt
   end) ;;;;
  r <-- restoreDeviceConfigForUPD (sw_dis st) (sw_con st) (sw_skipping st) ;;
  let '(status, dis, con) := r in
  if decide (status ≠ 0) then switch_done s (length newDevices) bt (sw_muted st) status
  else
    status <-- streamDevSwitch dis con ;;
    switch_done s (length newDevices) bt (sw_muted st) status.

(** The removal of the devices the stream was asked to use before, in the directions of
    the new ones. *)
Definition forget_directions (s : positive) (newDevices : list positive) : M unit :=
  ids <-- query (λ w, mapM (λ a, dev_id <$> rt_attrs w !! a) newDevices) ;;
  let has_out_device := existsb isOutputDevId ids in
  let has_in_device := existsb isInputDevId ids in
  filter_pal_devices (λ id, (isOutputDevId id && has_out_device)
                            || (isInputDevId id && has_in_device)) s.

Definition switchDevice (s : positive) (newDevices : list positive) : M Z :=
  lockActiveStream ;;;;
  lockStreamMutex s ;;;;
  if bool_decide (newDevices = []) || bool_decide (PAL_DEVICE_IN_MAX < Z.of_nat (length newDevices))
  then both_unlock s (- EINVAL)
  else
    hasNone <-- any_device newDevices PAL_DEVICE_NONE ;;
    o <-- stream s ;;
    c <-- scan_current s hasNone newDevices (mDevices o) false ;;
    let '(checkNoneDevice, gone, force, found) := c in
    forget_directions s newDevices ;;;;
    r <-- scan_new s newDevices newDevices checkNoneDevice [] None ;;
    match r with
    | inl status => both_unlock s status
    | inr ([], _) => both_unlock s 0
    | inr (slots, bt) =>
        sda <-- alloc uninit ;;
        sco_Dattr <-- alloc (zeroed 0) ;;
        r <-- new_devices s sda sco_Dattr gone force slots (mkSwitch [] [] [] [] found false) ;;
        match r with
        | inl status => both_unlock s status
        | inr st =>
            both_unlock s 0 ;;;;
            if bool_decide (sw_dis st = []) && bool_decide (sw_con st = [])
            then switch_done s (length newDevices) bt (sw_muted st) 0
            else run_switch s newDevices bt st
        end
    end.
End policy.
