(* ===== verification/RoutingFacts.v ===== *)
(** * Routing: what every operation keeps

    [ok] is the well-formedness of the state, [stays] what every operation leaves as it
    was, [spec] a Hoare logic over the mutexes in which each operation has one lemma. *)

From S2P Require Import Prelude PalDefs Users Device DeviceFacts RoutingState Routing RoutingPolicy.

Local Open Scope st_scope.

(** ** Sums over maps *)

Definition zsum (l : list Z) : Z := foldr Z.add 0 l.

Lemma zsum_perm l l' : l ≡ₚ l' → zsum l = zsum l'.
Proof. induction 1; simpl; lia. Qed.

Section map_sum.
Context {A : Type} (f : A → Z).

Definition map_sum (m : gmap positive A) : Z := zsum ((λ p, f p.2) <$> map_to_list m).

Lemma map_sum_new m s x : m !! s = None → map_sum (<[s := x]> m) = f x + map_sum m.
Proof.
  intros Hs. unfold map_sum.
  rewrite (zsum_perm _ _ (fmap_Permutation _ _ _ (map_to_list_insert m s x Hs))). done.
Qed.

Lemma map_sum_insert m s x y :
  m !! s = Some x → map_sum (<[s := y]> m) = map_sum m - f x + f y.
Proof.
  intros Hs. rewrite <- (insert_delete_id m s x Hs) at 2.
  rewrite <- insert_delete_eq, !map_sum_new by apply lookup_delete_eq. lia.
Qed.

Lemma map_sum_nonneg m : (∀ x, 0 ≤ f x) → 0 ≤ map_sum m.
Proof.
  intros Hf. unfold map_sum, zsum. induction (map_to_list m) as [|p l IH]; [done|].
  rewrite fmap_cons. cbn [foldr]. specialize (Hf p.2). lia.
Qed.

Lemma map_sum_ge m s x : (∀ x, 0 ≤ f x) → m !! s = Some x → f x ≤ map_sum m.
Proof.
  intros Hf Hs. rewrite <- (insert_delete_id m s x Hs), map_sum_new by apply lookup_delete_eq.
  pose proof (map_sum_nonneg (delete s m) Hf). lia.
Qed.

(** Elements that count nothing may be missing. *)
Lemma map_sum_zero m : (∀ s x, m !! s = Some x → f x = 0) → map_sum m = 0.
Proof.
  intros Hf. unfold map_sum, zsum.
  assert (∀ p, p ∈ map_to_list m → f p.2 = 0) as Hl.
  { intros [s x] Hp%elem_of_map_to_list. eauto. }
  revert Hl. induction (map_to_list m) as [|p l IH]; intros Hl; [done|].
  rewrite fmap_cons. cbn [foldr]. rewrite (Hl p) by set_solver. rewrite IH; [lia|]. intros q Hq. apply Hl. set_solver.
Qed.
End map_sum.

(** ** What the state shows *)

(** The mutexes: of the active streams, of the graph, of each stream. *)
Definition Locks : Type := bool * bool * gmap positive bool.
Definition mutexes (w : RtWorld) : gmap positive bool := mStreamMutex <$> rt_streams w.
Definition locks (w : RtWorld) : Locks := (mActiveStreamMutex w, mGraphMutex w, mutexes w).

(** The connections of the streams, and what never changes of them. *)
Definition conn (w : RtWorld) : gmap positive (stream_state_t * list positive) :=
  (λ o, (currentState o, mDevices o)) <$> rt_streams w.
Definition static (w : RtWorld) : gmap positive (bool * pal_stream_attributes) :=
  (λ o, (rs_detection o, mStreamAttr o)) <$> rt_streams w.

Definition str (s : positive) (w : RtWorld) : Prop := is_Some (rt_streams w !! s).
Definition dev_in (d : positive) (w : RtWorld) : Prop := is_Some (rt_devices w !! d).
Definition attr_in (a : positive) (w : RtWorld) : Prop := is_Some (rt_attrs w !! a).

(** A stream uses the devices it is connected to, unless it is idle. *)
Definition uses_of (d : positive) (c : stream_state_t * list positive) : Z :=
  if decide (c.1 = STREAM_IDLE) then 0 else Z.of_nat (length (filter (λ x, x = d) c.2)).
Definition count_of (w : RtWorld) (d : positive) : Z :=
  match rt_devices w !! d with Some dev => deviceCount dev | None => 0 end.
(** How often a device is open beyond the uses of the streams. *)
Definition surplus (w : RtWorld) (d : positive) : Z := count_of w d - map_sum (uses_of d) (conn w).

Lemma uses_of_nonneg d c : 0 ≤ uses_of d c.
Proof. unfold uses_of. case_decide; lia. Qed.

Section state.
Context `{RtEnv}.

Definition backend_of (w : RtWorld) (d : positive) : string :=
  default "" (getBackendName (snd_id w d)).

(** The devices of a stream that is not idle have different back ends. *)
Definition distinct (w : RtWorld) : Prop :=
  ∀ s c, conn w !! s = Some c → c.1 ≠ STREAM_IDLE → NoDup (backend_of w <$> c.2).

(** No sound trigger stream, which opens its devices elsewhere. *)
Definition nodet (w : RtWorld) : Prop := ∀ s x, static w !! s = Some x → x.1 = false.
Definition fair (w : RtWorld) : Prop := ∀ d, 0 ≤ surplus w d.

(** The sound card stays and no device fails to close. *)
Definition card_up : Prop := ∀ t, PAL_CARD_STATUS_DOWN (getSoundCardState t) = false.
Definition good : Prop :=
  card_up ∧
  (∀ E t dev st dev' evs, dev_close E t dev = Some (st, dev', evs) → st = 0).

(** A device object belongs to its ids. *)
Record dev_ok (d : positive) (dev : Device) : Prop := {
  dev_own : object_of (dev_id (deviceAttr dev)) = Some d;
  dev_lut : in_deviceNameLUT (dev_id (deviceAttr dev)) = true;
  dev_width : mBitWidth dev = 0;
  dev_entries : ∀ p s v, (p, (s, v)) ∈ mStreamDevAttr dev →
    object_of (dev_id v) = Some d ∧ in_deviceNameLUT (dev_id v) = true;
}.

Record ok (w : RtWorld) : Prop := {
  ok_active : ∀ s, s ∈ mActiveStreams (rt_users w) → str s w;
  ok_map : ∀ s, s ∈ map_streams w → str s w;
  ok_dev : ∀ d dev, rt_devices w !! d = Some dev → dev_ok d dev;
  ok_conn : ∀ s c d, conn w !! s = Some c → d ∈ c.2 → dev_in d w;
  ok_pal : ∀ s o d, rt_streams w !! s = Some o → d ∈ mPalDevices o → dev_in d w;
  ok_attr : ∀ a v, rt_attrs w !! a = Some v → in_deviceNameLUT (dev_id v) = true;
}.

(** ** Relations between states *)

(** The id of the structure has a device object. *)
Definition named (a : positive) (w : RtWorld) : Prop :=
  ∃ v, rt_attrs w !! a = Some v ∧ is_Some (object_of (dev_id v)).

Record grows (w w' : RtWorld) : Prop := {
  g_users : rt_users w' = rt_users w;
  g_static : static w' = static w;
  g_dev : ∀ d, dev_in d w → dev_in d w';
  g_attr : ∀ a, attr_in a w → attr_in a w';
  g_named : ∀ a, named a w → named a w';
}.

(** The connections, the counts and, but for [K], the structures are as they were. *)
Record quiet (K : positive → Prop) (w w' : RtWorld) : Prop := {
  calm_grows : grows w w';
  calm_conn : conn w' = conn w;
  calm_count : ∀ d, count_of w' d = count_of w d;
  calm_attr : ∀ a v, ¬ K a → rt_attrs w !! a = Some v → rt_attrs w' !! a = Some v;
}.
Definition calm : RtWorld → RtWorld → Prop := quiet (λ _, False).

(** What an operation keeps that writes the structures [K] only. *)
Record stays (K : positive → Prop) (w w' : RtWorld) : Prop := {
  stays_grows : grows w w';
  stays_attr : ∀ a v, ¬ K a → rt_attrs w !! a = Some v → rt_attrs w' !! a = Some v;
  stays_surplus : good → nodet w → fair w → ∀ d, surplus w' d = surplus w d;
  stays_distinct : good → nodet w → distinct w → distinct w';
}.

(** ** Laws of the environment *)

(** What a method of a device leaves as it was. *)
Record same_device (d d' : Device) : Prop := {
  same_id : dev_id (deviceAttr d') = dev_id (deviceAttr d);
  same_entries : mStreamDevAttr d' = mStreamDevAttr d;
  same_width : mBitWidth d' = mBitWidth d;
}.

(** A method of the device's class is defined and changes the count by [f]. *)
Definition method_law (f : Z → Z)
    (op : DeviceEnv → nat → Device → option (Z * Device * list dev_event)) : Prop :=
  ∀ E t dev, ∃ st dev' evs,
    op E t dev = Some (st, dev', evs) ∧ same_device dev dev' ∧
    deviceCount dev' = f (deviceCount dev).

(** What code elsewhere leaves behind. *)
Record foreign (w w' : RtWorld) : Prop := {
  foreign_ok : ok w';
  foreign_grows : grows w w';
  foreign_attr : ∀ a v, rt_attrs w !! a = Some v → rt_attrs w' !! a = Some v;
  foreign_locks : locks w' = locks w;
}.

(** Plug-ins exist for device ids, share objects only within a back end, and the speaker
    and the dummy device have one;
    structures that are not initialised hold an id of the table; the methods are defined;
    sound trigger streams and the handling of a failed sound card give mutexes back. *)
Class RtLaws : Prop := {
  law_object i d : object_of i = Some d → isValidDevId i = true ∧ i ≠ PAL_DEVICE_NONE;
  law_backend i j d : object_of i = Some d → object_of j = Some d →
    listAllBackEndIds i = listAllBackEndIds j;
  law_plugins id : id ∈ [PAL_DEVICE_OUT_SPEAKER; PAL_DEVICE_OUT_DUMMY] → is_Some (object_of id);
  law_uninit : in_deviceNameLUT (dev_id uninit) = true;
  law_config t v sa : dev_id (getDeviceConfig t v sa).2 = dev_id v;
  law_open w dev : is_Some (@Device.open (world_env w) dev);
  law_close : method_law (λ n, if decide (0 < n) then n - 1 else n) dev_close;
  law_start : method_law id dev_start;
  law_stop : method_law id dev_stop;
  law_detection_connect s a w : ok w → mGraphMutex w = false → str s w → attr_in a w →
    st_wp (detection_connect s a) (λ _ w', foreign w w') w;
  law_detection_disconnect s id w : ok w → mGraphMutex w = false → str s w →
    st_wp (detection_disconnect s id) (λ _ w', foreign w w') w;
  law_ssr s w : ok w → mGraphMutex w = false → mActiveStreamMutex w = true →
    mutexes w !! s = Some false →
    st_wp (ssrDownHandler s) (λ _ w', foreign w w') w;
}.

(** CPS2_FEEDBACK, which is missing in [deviceNameLUT], has a back end of its own.  The
    configuration of a platform gives it one; in the table as it is before that is read,
    ids with the empty back end name share it, and a search from one of them throws
    ([shared_backend_exact]). *)
Class RtTable : Prop :=
  law_cps2 i : i ≠ PAL_DEVICE_IN_CPS2_FEEDBACK →
    default "" (getBackendName i) ≠ listAllBackEndIds PAL_DEVICE_IN_CPS2_FEEDBACK.

(** The base class obeys the laws of the methods. *)
Lemma base_close_law : method_law (λ n, if decide (0 < n) then n - 1 else n)
  (λ E _ dev, Some (@Device.close E dev)).
Proof.
  intros E t [? ? n ? ? pay ? ? ? ? ? ?]. cbv beta. unfold Device.close. cbn.
  destruct (decide (0 < n)) as [Hn|]; [|by eexists _, _, _].
  case_decide; [|by eexists _, _, _]. destruct pay; by eexists _, _, _.
Qed.

Lemma base_stop_law : method_law id (λ E _ dev, Some (@Device.stop_l dev, [])).
Proof.
  intros E t dev. unfold Device.stop_l. case_decide; by eexists _, _, _.
Qed.

Lemma open_same `{!DeviceEnv} dev st dev' evs :
  Device.open dev = Some (st, dev', evs) → same_device dev dev'.
Proof.
  unfold Device.open. cbn [deviceCount set_names]. case_decide; [|by intros [= <- <- <-]].
  destruct (if decide (_ = "") then _ else _) as [[x ev1]|]; simpl; [|done].
  case_decide; [by intros [= <- <- <-]|]. destruct (getSndDeviceName _) as [status snd].
  destruct (decide (status ≠ 0)); by intros [= <- <- <-].
Qed.

(** ** The logic *)

Section logic.
Context (R : RtWorld → RtWorld → Prop).

(** From a state with the mutexes [L] and [P], [m] is defined, relates the states by [R]
    and ends with the mutexes [L'] and [V]. *)
Definition spec {A} (P : RtWorld → Prop) (L : Locks) (m : St RtWorld A) (L' : Locks)
    (V : A → RtWorld → Prop) : Prop :=
  ∀ w, ok w → locks w = L → P w →
    st_wp m (λ r w', ok w' ∧ R w w' ∧ locks w' = L' ∧ V r w') w.

(** [P] is not lost along [R]. *)
Class Stable (P : RtWorld → Prop) : Prop :=
  stable w w' : ok w → ok w' → R w w' → P w → P w'.

#[global] Instance stable_pure φ : Stable (λ _, φ).
Proof. by intros w w' _ _ _. Qed.
#[global] Instance stable_and P Q : Stable P → Stable Q → Stable (λ w, P w ∧ Q w).
Proof. intros HP HQ w w' ??? [??]. split; [by apply (HP w)|by apply (HQ w)]. Qed.
#[global] Instance stable_forall {A} (P : A → RtWorld → Prop) :
  (∀ x, Stable (P x)) → Stable (λ w, ∀ x, P x w).
Proof. intros HP w w' ??? HA x. by apply (HP x w). Qed.
#[global] Instance stable_impl φ P : Stable P → Stable (λ w, φ → P w).
Proof. intros HP w w' ??? HA Hφ. apply (HP w); auto. Qed.

Context `{HR : !PreOrder R}.

Lemma triple_ret {A} P L (x : A) V : (∀ w, P w → V x w) → spec P L (st_ret x) L V.
Proof. intros HV w Hok HL HP. apply st_wp_ret. split_and!; auto. reflexivity. Qed.

Lemma triple_bind {A B} P P0 L (m : St RtWorld A) L1 V (k : A → St RtWorld B) L2 V' `{!Stable P} :
  spec P0 L m L1 V → (∀ w, P w → P0 w) → (∀ r, spec (λ w, P w ∧ V r w) L1 (k r) L2 V') →
  spec P L (st_bind m k) L2 V'.
Proof.
  intros Hm HP0 Hk w Hok HL HP. apply st_wp_bind. eapply st_wp_mono; [by apply Hm; auto|].
  cbn beta. intros r w' (Hok'&HR'&HL'&HV).
  eapply st_wp_mono; [apply (Hk r); [done..|]; split; [|done]; by apply (stable w)|].
  cbn beta. intros r' w'' (?&?&?&?). split_and!; auto. by etrans.
Qed.

Lemma spec_frame {A} P Q L (m : St RtWorld A) L' V `{!Stable Q} :
  spec P L m L' V → spec (λ w, P w ∧ Q w) L m L' (λ r w, V r w ∧ Q w).
Proof.
  intros Hm w Hok HL [HP HQ]. eapply st_wp_mono; [by apply Hm|]. cbn beta.
  intros r w' (?&?&?&?). split_and!; auto. by apply (stable w).
Qed.

(** Without a frame. *)
Lemma triple_seq {A B} P L (m : St RtWorld A) L1 V (k : A → St RtWorld B) L2 V' :
  spec P L m L1 V → (∀ r, spec (V r) L1 (k r) L2 V') → spec P L (st_bind m k) L2 V'.
Proof.
  intros Hm Hk w Hok HL HP. apply st_wp_bind. eapply st_wp_mono; [by apply Hm|].
  cbn beta. intros r w' (Hok'&HR'&HL'&HV).
  eapply st_wp_mono; [by apply (Hk r)|]. cbn beta. intros r' w'' (?&?&?&?).
  split_and!; auto. by etrans.
Qed.

Lemma spec_weaken {A} P P' L (m : St RtWorld A) L' V V' :
  spec P L m L' V → (∀ w, P' w → P w) → (∀ r w, V r w → V' r w) → spec P' L m L' V'.
Proof.
  intros Hm HP HV w Hok HL HP'. eapply st_wp_mono; [apply Hm; auto|]. cbn beta.
  intros r w' (?&?&?&?). split_and!; auto.
Qed.

Lemma spec_pre {A} (P P' : RtWorld → Prop) L (m : St RtWorld A) L' V :
  (∀ w, P' w → P w) → spec P L m L' V → spec P' L m L' V.
Proof. intros HP Hm. by eapply spec_weaken; [exact Hm|..]. Qed.

Lemma spec_pre_ok {A} (P P' : RtWorld → Prop) L (m : St RtWorld A) L' V :
  (∀ w, ok w → P' w → P w) → spec P L m L' V → spec P' L m L' V.
Proof. intros HP Hm w Hok HL HP'. apply Hm; auto. Qed.

(** What does not depend on the state becomes a hypothesis. *)
Lemma spec_drop {A} (P : RtWorld → Prop) L (m : St RtWorld A) L' V :
  spec P L m L' V → spec (λ w, P w ∧ True) L m L' V.
Proof. intros Hm. eapply spec_pre; [|done]. by intros w []. Qed.
Lemma spec_take {A} (P : RtWorld → Prop) (φ : Prop) L (m : St RtWorld A) L' V :
  (φ → spec P L m L' V) → spec (λ w, P w ∧ φ) L m L' V.
Proof. intros Hm w Hok HL [? ?]. by apply Hm. Qed.
Lemma spec_take_l {A} (P Q : RtWorld → Prop) (φ : Prop) L (m : St RtWorld A) L' V :
  (φ → spec (λ w, P w ∧ Q w) L m L' V) → spec (λ w, P w ∧ (φ ∧ Q w)) L m L' V.
Proof. intros Hm w Hok HL (? & ? & ?). by apply Hm. Qed.
Lemma spec_take_r {A} (P Q : RtWorld → Prop) (φ : Prop) L (m : St RtWorld A) L' V :
  (φ → spec (λ w, P w ∧ Q w) L m L' V) → spec (λ w, P w ∧ (Q w ∧ φ)) L m L' V.
Proof. intros Hm w Hok HL (? & ? & ?). by apply Hm. Qed.

(** The state of the registry when the operation starts. *)
Lemma spec_users {A} P L (m : St RtWorld A) L' V :
  (∀ u, spec (λ w, rt_users w = u ∧ P w) L m L' V) → spec P L m L' V.
Proof. intros Hm w Hok HL HP. by apply (Hm (rt_users w)). Qed.

Lemma triple_gets {A} P L (f : RtWorld → A) V :
  (∀ w, ok w → locks w = L → P w → V (f w) w) → spec P L (st_gets f) L V.
Proof. intros HV w Hok HL HP. apply st_wp_gets. split_and!; auto. reflexivity. Qed.

Lemma spec_query {A} P L (f : RtWorld → option A) V :
  (∀ w, ok w → locks w = L → P w → ∃ x, f w = Some x ∧ V x w) →
  spec P L (st_query f) L V.
Proof.
  intros HV w Hok HL HP. destruct (HV w Hok HL HP) as (x&Hx&?).
  eapply st_wp_query; [done|]. split_and!; auto. reflexivity.
Qed.

(** A loop whose invariant [I] speaks of what is still to do. *)
Lemma spec_for {A} P (l : list A) body (I : list A → Locks) `{!Stable P} :
  (∀ l1 x l2, l = l1 ++ x :: l2 → spec P (I (x :: l2)) (body x) (I l2) (λ _ _, True)) →
  spec P (I l) (st_for l body) (I []) (λ _ _, True).
Proof.
  induction l as [|x l IH]; intros Hb; simpl; [by apply triple_ret|].
  eapply triple_bind; [apply _|by apply (Hb [])|done|]. intros r.
  eapply spec_weaken; [apply IH|by intros w []|done].
  intros l1 y l2 ->. by apply (Hb (x :: l1)).
Qed.

Lemma triple_if {A} (P : RtWorld → Prop) L (b : bool) (m m' : St RtWorld A) L' V :
  (b = true → spec P L m L' V) → (b = false → spec P L m' L' V) →
  spec P L (if b then m else m') L' V.
Proof. destruct b; auto. Qed.
Lemma spec_decide {A} (P : RtWorld → Prop) L φ `{!Decision φ} (m m' : St RtWorld A) L' V :
  (φ → spec P L m L' V) → (¬ φ → spec P L m' L' V) →
  spec P L (if decide φ then m else m') L' V.
Proof. case_decide; auto. Qed.

(** Facts about the state can be used as hypotheses when they do not depend on it. *)
Lemma spec_pure {A} (P : RtWorld → Prop) L (φ : Prop) (m : St RtWorld A) L' V :
  (∀ w, P w → φ) → (φ → spec P L m L' V) → spec P L m L' V.
Proof. intros Hφ Hm w Hok HL HP. by apply Hm; eauto. Qed.
End logic.

(** A step of a finer relation. *)
Lemma spec_sub {A} (R R' : RtWorld → RtWorld → Prop) P L (m : St RtWorld A) L' V :
  (∀ w w', ok w → ok w' → R' w w' → R w w') → spec R' P L m L' V → spec R P L m L' V.
Proof.
  intros Hsub Hm w Hok HL HP. eapply st_wp_mono; [by apply Hm|]. cbn beta.
  intros r w' (?&?&?&?). split_and!; auto.
Qed.

Lemma spec_bind_sub {A B} (R R' : RtWorld → RtWorld → Prop) `{!PreOrder R} P P0 L
    (m : St RtWorld A) L1 V (k : A → St RtWorld B) L2 V' `{!Stable R' P} :
  (∀ w w', ok w → ok w' → R' w w' → R w w') → spec R' P0 L m L1 V → (∀ w, P w → P0 w) →
  (∀ r, spec R (λ w, P w ∧ V r w) L1 (k r) L2 V') → spec R P L (st_bind m k) L2 V'.
Proof.
  intros Hsub Hm HP0 Hk w Hok HL HP. apply st_wp_bind. eapply st_wp_mono; [by apply Hm; auto|].
  cbn beta. intros r w' (Hok'&HR'&HL'&HV).
  eapply st_wp_mono; [apply (Hk r); [done..|]; split; [|done]; by apply (stable R' w)|].
  cbn beta. intros r' w'' (?&?&?&?). split_and!; auto. transitivity w'; auto.
Qed.

Lemma spec_ex {A B} R (P : B → RtWorld → Prop) L (m : St RtWorld A) L' V :
  (∀ x, spec R (P x) L m L' V) → spec R (λ w, ∃ x, P x w) L m L' V.
Proof. intros Hm w Hok HL [x HP]. by apply (Hm x). Qed.

(** ** The relations *)

#[global] Instance grows_preorder : PreOrder grows.
Proof.
  constructor; [by intros w; constructor|]. intros w1 w2 w3 [] []. constructor; [congruence..|auto|auto|auto].
Qed.
#[global] Instance quiet_preorder K : PreOrder (quiet K).
Proof.
  constructor; [intros w; constructor; (reflexivity || done)|].
  intros w1 w2 w3 [] []. constructor; [by etrans|congruence| |auto]. intros d. congruence.
Qed.
#[global] Instance calm_preorder : PreOrder calm.
Proof. apply _. Qed.

Lemma nodet_grows w w' : grows w w' → nodet w → nodet w'.
Proof. intros Hg Hn s x. rewrite (g_static _ _ Hg). apply Hn. Qed.

#[global] Instance stays_preorder K : PreOrder (stays K).
Proof.
  constructor; [intros w; constructor; (reflexivity || done)|].
  intros w1 w2 w3 [Hg1 Ha1 Hs1 Hd1] [Hg2 Ha2 Hs2 Hd2]. constructor; [by etrans|auto|..].
  - intros Hgd Hn Hf d. specialize (Hs1 Hgd Hn Hf).
    rewrite Hs2; [done..|by eapply nodet_grows|]. intros d'. by rewrite Hs1.
  - intros Hgd Hn Hd. apply Hd2; [done|by eapply nodet_grows|auto].
Qed.

Lemma stays_sub (K K' : positive → Prop) w w' : (∀ a, K a → K' a) → stays K w w' → stays K' w w'.
Proof. intros HK [Hg Ha Hs Hd]. constructor; auto. Qed.

(** [R] keeps what only grows, and holds of calm steps. *)
Class Grows (R : RtWorld → RtWorld → Prop) : Prop := R_grows w w' : R w w' → grows w w'.
Class Calm (R : RtWorld → RtWorld → Prop) : Prop :=
  R_calm w w' : ok w → ok w' → calm w w' → R w w'.

#[global] Instance grows_quiet K : Grows (quiet K).
Proof. by intros w w' []. Qed.
#[global] Instance grows_calm : Grows calm.
Proof. by intros w w' []. Qed.
#[global] Instance grows_stays K : Grows (stays K).
Proof. by intros w w' []. Qed.
#[global] Instance calm_calm : Calm calm.
Proof. by intros w w'. Qed.

Context `{!RtLaws}.

(** The back end of an object does not depend on the id it has at the moment. *)
Lemma ok_snd w d dev : ok w → rt_devices w !! d = Some dev → dev_ok d dev.
Proof. intros Hok. apply (ok_dev _ Hok). Qed.

Lemma backend_object w d i : ok w → dev_in d w → object_of i = Some d →
  backend_of w d = listAllBackEndIds i.
Proof.
  intros Hok [dev Hd] Hi. unfold backend_of, snd_id. rewrite Hd.
  pose proof (dev_own _ _ (ok_snd _ _ _ Hok Hd)) as Ho.
  destruct (law_object _ _ Ho) as [Hv Hn]. unfold getBackendName.
  rewrite Hv. rewrite bool_decide_eq_true_2 by done. simpl. by eapply law_backend.
Qed.

Lemma backend_of_stable w w' d : ok w → ok w' → dev_in d w → dev_in d w' →
  backend_of w' d = backend_of w d.
Proof.
  intros Hok Hok' Hd Hd'. destruct Hd as [dev Hdev].
  pose proof (dev_own _ _ (ok_snd _ _ _ Hok Hdev)) as Ho.
  rewrite !(backend_object _ _ _ Hok (mk_is_Some _ _ Hdev) Ho).
  by apply backend_object.
Qed.

Lemma distinct_calm w w' : ok w → ok w' → grows w w' → conn w' = conn w → distinct w → distinct w'.
Proof.
  intros Hok Hok' Hg Hc Hd s c Hs Ha. rewrite Hc in Hs.
  rewrite (list_fmap_ext (backend_of w') (backend_of w) c.2); [by eapply Hd|].
  intros i x Hx. assert (dev_in x w) as Hin.
  { eapply ok_conn; [done..|]. by eapply list_elem_of_lookup_2. }
  apply backend_of_stable; [done..|]. by apply (g_dev _ _ Hg).
Qed.

Lemma surplus_quiet K w w' : quiet K w w' → ∀ d, surplus w' d = surplus w d.
Proof. intros [_ Hc Hn _] d. unfold surplus. by rewrite Hc, Hn. Qed.

Lemma quiet_stays K w w' : ok w → ok w' → quiet K w w' → stays K w w'.
Proof.
  intros Hok Hok' Hc. constructor; [apply Hc|apply Hc|..].
  - intros _ _ _. by eapply surplus_quiet.
  - intros _ _. apply distinct_calm; [done..|apply Hc|apply Hc].
Qed.
#[global] Instance calm_stays K : Calm (stays K).
Proof.
  intros w w' Hok Hok' Hc. apply (stays_sub (λ _, False)); [by intros ? []|].
  by apply quiet_stays.
Qed.

(** [R] allows the structure at [a] to be written. *)
Class Puts (R : RtWorld → RtWorld → Prop) (a : positive) : Prop :=
  R_puts w w' : ok w → ok w' → quiet (eq a) w w' → R w w'.
Lemma puts_stays (K : positive → Prop) a : K a → Puts (stays K) a.
Proof.
  intros Ha w w' Hok Hok' Hc. apply (stays_sub (eq a)); [by intros ? <-|]. by apply quiet_stays.
Qed.
#[global] Instance puts_stays_all a : Puts (stays (λ _, True)) a.
Proof. by apply puts_stays. Qed.

Lemma str_static s w : str s w ↔ is_Some (static w !! s).
Proof. unfold str, static. rewrite lookup_fmap. by rewrite fmap_is_Some. Qed.

#[global] Instance stable_str R s `{!Grows R} : Stable R (str s).
Proof.
  intros w w' _ _ Hr. rewrite !str_static. apply R_grows in Hr. by rewrite (g_static _ _ Hr).
Qed.
#[global] Instance stable_dev R d `{!Grows R} : Stable R (dev_in d).
Proof. intros w w' _ _ Hr. apply (g_dev w w'). by apply R_grows. Qed.
#[global] Instance stable_attr R a `{!Grows R} : Stable R (attr_in a).
Proof. intros w w' _ _ Hr. apply (g_attr w w'). by apply R_grows. Qed.
#[global] Instance stable_named R a `{!Grows R} : Stable R (named a).
Proof. intros w w' _ _ Hr. apply (g_named w w'). by apply R_grows. Qed.
#[global] Instance stable_static R s x `{!Grows R} : Stable R (λ w, static w !! s = Some x).
Proof. intros w w' _ _ Hr. apply R_grows in Hr. by rewrite (g_static _ _ Hr). Qed.
#[global] Instance stable_users_eq R u `{!Grows R} : Stable R (λ w, rt_users w = u).
Proof. intros w w' _ _ Hr. apply R_grows in Hr. by rewrite (g_users _ _ Hr). Qed.
#[global] Instance stable_users R (P : UserState → Prop) `{!Grows R} : Stable R (λ w, P (rt_users w)).
Proof. intros w w' _ _ Hr. apply R_grows in Hr. by rewrite (g_users _ _ Hr). Qed.

(** A change of fields that nothing here speaks of. *)
Lemma ok_fields w w' :
  rt_users w' = rt_users w → rt_streams w' = rt_streams w → rt_devices w' = rt_devices w →
  rt_attrs w' = rt_attrs w → ok w → ok w'.
Proof.
  intros Hu Hs Hd Ha []. unfold str, dev_in, conn, map_streams in *.
  constructor; unfold str, dev_in, conn, map_streams; rewrite ?Hu, ?Hs, ?Hd, ?Ha; auto.
Qed.

Lemma calm_fields w w' :
  rt_users w' = rt_users w → rt_streams w' = rt_streams w → rt_devices w' = rt_devices w →
  rt_attrs w' = rt_attrs w → calm w w'.
Proof.
  intros Hu Hs Hd Ha.
  constructor; [constructor|..]; unfold static, conn, count_of, dev_in, attr_in, named;
    rewrite ?Hu, ?Hs, ?Hd, ?Ha; auto.
Qed.

(** ** Operations that keep the connections

    One lemma each, for every relation [R] that holds of calm steps. *)

Class Rel (R : RtWorld → RtWorld → Prop) : Prop := {
  #[global] rel_pre :: PreOrder R;
  #[global] rel_grows :: Grows R;
  #[global] rel_calm :: Calm R;
}.
#[global] Instance rel_stays K : Rel (stays K).
Proof. constructor; apply _. Qed.
#[global] Instance rel_calm' : Rel calm.
Proof. constructor; apply _. Qed.

(** A structure that is not written. *)
Lemma stable_attr_eq (K : positive → Prop) a v :
  ¬ K a → Stable (stays K) (λ w, rt_attrs w !! a = Some v).
Proof. intros Ha w w' _ _ Hs. by apply (stays_attr _ _ _ Hs). Qed.

(** [sp_bind H] and [sp_ret] apply the rules, with the class arguments found. *)
Ltac sp_bind H :=
  eapply triple_bind; [apply _|apply _|H|intros ? ?; simpl in *; tauto|intros ?; cbn beta].
Ltac sp_ret := apply triple_ret; [apply _|].

Section leaves.
Context (R : RtWorld → RtWorld → Prop) `{!Rel R}.

Lemma spec_step {A} P L (m : St RtWorld A) L' V :
  (∀ w, ok w → locks w = L → P w →
    ∃ r w', m w = Some (r, w') ∧ ok w' ∧ calm w w' ∧ locks w' = L' ∧ V r w') →
  spec R P L m L' V.
Proof.
  intros Hm w Hok HL HP. destruct (Hm w Hok HL HP) as (r&w'&Hr&Hok'&Hc&HL'&HV).
  exists r, w'. split; [done|]. split_and!; [done|by apply R_calm|done..].
Qed.

(** Steps that only touch fields outside the registry, streams, devices and attributes. *)
Lemma spec_fields {A} (P : RtWorld → Prop) L (m : St RtWorld A) L' (V : A → RtWorld → Prop) :
  (∀ w, locks w = L → P w → ∃ r w', m w = Some (r, w') ∧ rt_users w' = rt_users w ∧
    rt_streams w' = rt_streams w ∧ rt_devices w' = rt_devices w ∧ rt_attrs w' = rt_attrs w ∧
    locks w' = L' ∧ V r w') →
  spec R P L m L' V.
Proof.
  intros Hm. apply spec_step. intros w Hok HL HP.
  destruct (Hm w HL HP) as (r&w'&?&?&?&?&?&?&?). exists r, w'.
  split_and!; [done|by eapply ok_fields|by apply calm_fields|done..].
Qed.

Abbreviation any := (λ _ : RtWorld, True).

Lemma spec_log L e : spec R any L (log e) L (λ _ _, True).
Proof. apply spec_fields. intros w <- _. by eexists _, _. Qed.
Lemma spec_ask {A} L (f : nat → A) : spec R any L (ask f) L (λ _ _, True).
Proof. apply spec_fields. intros w <- _. by eexists _, _. Qed.
Lemma spec_config L v sa :
  spec R any L (ask (λ t, getDeviceConfig t v sa)) L (λ r _, dev_id r.2 = dev_id v).
Proof. apply spec_fields. intros w <- _. eexists _, _. split_and!; try done. apply law_config. Qed.
Lemma triple_read {A} L (f : RtWorld → A) : spec R any L (st_gets f) L (λ _ _, True).
Proof. by apply triple_gets; [apply _|]. Qed.
Lemma spec_card L : spec R any L card_down L (λ _ _, True).
Proof. sp_bind ltac:(apply spec_ask). by sp_ret. Qed.
Lemma spec_upd_fields L f :
  (∀ w, locks (f w) = locks w ∧ rt_users (f w) = rt_users w ∧ rt_streams (f w) = rt_streams w ∧
        rt_devices (f w) = rt_devices w ∧ rt_attrs (f w) = rt_attrs w) →
  spec R any L (st_modify f) L (λ _ _, True).
Proof.
  intros Hf. apply spec_fields. intros w <- _. destruct (Hf w) as (?&?&?&?&?).
  by eexists _, _.
Qed.

Lemma triple_lift {A} L (x : A) : spec R any L (st_lift (Some x)) L (λ y _, y = x).
Proof. apply spec_fields. intros w <- _. by eexists _, _. Qed.
Lemma spec_lockActive g ms : spec R any (false, g, ms) lockActiveStream (true, g, ms) (λ _ _, True).
Proof.
  apply spec_fields. intros w [= Ha Hg <-] _. unfold lockActiveStream. rewrite Ha.
  eexists _, _. split_and!; try done. unfold locks. cbn. by rewrite Hg.
Qed.
Lemma spec_unlockActive g ms :
  spec R any (true, g, ms) unlockActiveStream (false, g, ms) (λ _ _, True).
Proof.
  apply spec_fields. intros w [= Ha Hg <-] _. unfold unlockActiveStream. rewrite Ha.
  eexists _, _. split_and!; try done. unfold locks. cbn. by rewrite Hg.
Qed.
Lemma spec_lockGraph a ms : spec R any (a, false, ms) lockGraph (a, true, ms) (λ _ _, True).
Proof.
  apply spec_fields. intros w [= Ha Hg <-] _. unfold lockGraph. rewrite Hg.
  eexists _, _. split_and!; try done. unfold locks. cbn. by rewrite Ha.
Qed.
Lemma spec_unlockGraph a ms : spec R any (a, true, ms) unlockGraph (a, false, ms) (λ _ _, True).
Proof.
  apply spec_fields. intros w [= Ha Hg <-] _. unfold unlockGraph. rewrite Hg.
  eexists _, _. split_and!; try done. unfold locks. cbn. by rewrite Ha.
Qed.

(** *** Streams *)

(** What a stream read from the state tells about later states. *)
Definition known (s : positive) (o : RtStream) (w : RtWorld) : Prop :=
  static w !! s = Some (rs_detection o, mStreamAttr o) ∧
  ∀ d, d ∈ mDevices o ++ mPalDevices o → dev_in d w.

#[global] Instance stable_known s o : Stable R (known s o).
Proof. unfold known. apply _. Qed.

Lemma known_ok w s o : ok w → rt_streams w !! s = Some o → known s o w.
Proof.
  intros Hok Hs. split; [unfold static; by rewrite lookup_fmap, Hs|].
  intros d [Hd|Hd]%elem_of_app.
  - eapply (ok_conn _ Hok s (currentState o, mDevices o)); [|done].
    unfold conn. by rewrite lookup_fmap, Hs.
  - by eapply ok_pal.
Qed.

Lemma spec_stream L s :
  spec R (str s) L (stream s) L (λ o w, known s o w ∧ L.2 !! s = Some (mStreamMutex o)).
Proof.
  apply spec_query; [apply _|]. intros w Hok <- [o Ho].
  exists o. split; [done|]. split; [by apply known_ok|].
  unfold locks, mutexes. cbn. by rewrite lookup_fmap, Ho.
Qed.

(** An update of a stream that keeps its connections, and its mutex up to [b]. *)
Lemma alter_stream_ok w s f :
  ok w → (∀ o, rt_streams w !! s = Some o → static w !! s = Some (rs_detection (f o), mStreamAttr (f o))
     ∧ currentState (f o) = currentState o ∧ mDevices (f o) = mDevices o
     ∧ ∀ d, d ∈ mPalDevices (f o) → dev_in d w) →
  let w' := set_rt_streams (alter f s (rt_streams w)) w in ok w' ∧ calm w w'.
Proof.
  intros Hok Hf w'.
  assert (static w' = static w) as Hst.
  { apply map_eq. intros s'. unfold static, w'. cbn. rewrite !lookup_fmap.
    destruct (decide (s = s')) as [<-|]; [|by rewrite lookup_alter_ne].
    rewrite lookup_alter_eq. destruct (rt_streams w !! s) as [o|] eqn:Ho; [|done]. simpl.
    destruct (Hf o eq_refl) as [Hs _]. unfold static in Hs. rewrite lookup_fmap, Ho in Hs. done. }
  assert (conn w' = conn w) as Hc.
  { apply map_eq. intros s'. unfold conn, w'. cbn. rewrite !lookup_fmap.
    destruct (decide (s = s')) as [<-|]; [|by rewrite lookup_alter_ne].
    rewrite lookup_alter_eq. destruct (rt_streams w !! s) as [o|] eqn:Ho; [|done]. simpl.
    destruct (Hf o eq_refl) as (_&->&->&_). done. }
  assert (∀ x, str x w ↔ str x w') as Hstr by (intros x; by rewrite !str_static, Hst).
  split.
  - constructor.
    + intros x Hx. apply Hstr. by apply (ok_active _ Hok).
    + intros x Hx. apply Hstr. by apply (ok_map _ Hok).
    + apply (ok_dev _ Hok).
    + rewrite Hc. apply (ok_conn _ Hok).
    + intros x o d. unfold w'. cbn. destruct (decide (s = x)) as [<-|].
      * rewrite lookup_alter_eq. intros (o'&Ho'&->)%fmap_Some. by apply Hf.
      * rewrite lookup_alter_ne by done. apply (ok_pal _ Hok).
    + apply (ok_attr _ Hok).
  - constructor; [by constructor|done..].
Qed.

Lemma spec_upd_stream (P : RtWorld → Prop) L s f :
  (∀ o, rs_detection (f o) = rs_detection o ∧ mStreamAttr (f o) = mStreamAttr o ∧
        currentState (f o) = currentState o ∧ mDevices (f o) = mDevices o ∧
        mStreamMutex (f o) = mStreamMutex o) →
  (∀ w o d, P w → rt_streams w !! s = Some o → d ∈ mPalDevices (f o) →
     d ∈ mPalDevices o ∨ dev_in d w) →
  spec R P L (upd_stream s f) L (λ _ _, True).
Proof.
  intros Hf Hp. apply spec_step. intros w Hok HL HP. eexists _, _. split; [done|].
  assert (locks (set_rt_streams (alter f s (rt_streams w)) w) = L) as HL'.
  { rewrite <- HL. unfold locks, mutexes. cbn. f_equal. apply map_eq. intros x.
    rewrite !lookup_fmap. destruct (decide (s = x)) as [<-|]; [|by rewrite lookup_alter_ne].
    rewrite lookup_alter_eq. destruct (rt_streams w !! s) as [o|]; [|done]. simpl.
    destruct (Hf o) as (_&_&_&_&->). done. }
  destruct (alter_stream_ok w s f Hok) as [Hok' Hc]; [|split_and!; auto].
  intros o Ho. destruct (Hf o) as (->&->&->&->&_). split_and!; [|done..|].
  - unfold static. by rewrite lookup_fmap, Ho.
  - intros d Hd. destruct (Hp w o d HP Ho Hd); [by eapply ok_pal|done].
Qed.

(** The mutexes of the streams [X] held. *)
Definition held (X : gset positive) (ms : gmap positive bool) : gmap positive bool :=
  map_imap (λ s _, Some (bool_decide (s ∈ X))) ms.

Lemma held_lookup X ms s : held X ms !! s = (λ _, bool_decide (s ∈ X)) <$> ms !! s.
Proof. unfold held. rewrite map_lookup_imap. by destruct (ms !! s). Qed.

Lemma spec_set_mutex a g X Y ms s b :
  (∀ x, x ≠ s → x ∈ Y ↔ x ∈ X) → bool_decide (s ∈ Y) = b →
  spec R (str s) (a, g, held X ms) (upd_stream s (set_mStreamMutex b)) (a, g, held Y ms)
    (λ _ _, True).
Proof.
  intros HY Hb. apply spec_step. intros w Hok [= Ha Hg Hms] [o Ho].
  destruct (alter_stream_ok w s (set_mStreamMutex b) Hok) as [Hok' Hc].
  { intros o' Ho'. split_and!; [|done..|].
    - unfold static. by rewrite lookup_fmap, Ho'.
    - intros d. by apply (ok_pal _ Hok s o'). }
  eexists _, _. split; [done|]. split_and!; [done..| |done].
  unfold locks. cbn. rewrite Ha, Hg. f_equal.
  apply map_eq. intros x. pose proof (f_equal (.!! x) Hms) as Hx. cbn beta in Hx. revert Hx.
  unfold mutexes. cbn. rewrite !held_lookup, !lookup_fmap.
  destruct (decide (s = x)) as [<-|Hne].
  - rewrite lookup_alter_eq, Ho. simpl. rewrite Hb. by destruct (ms !! s).
  - rewrite lookup_alter_ne by done. intros ->. destruct (ms !! x); [|done]. simpl. f_equal.
    apply bool_decide_ext. rewrite HY by done. done.
Qed.

Lemma spec_lockStream a g X ms s :
  s ∉ X → spec R (str s) (a, g, held X ms) (lockStreamMutex s) (a, g, held ({[s]} ∪ X) ms)
            (λ _ _, True).
Proof.
  intros Hs. eapply triple_bind; [apply _..|apply spec_stream|done|]. intros o.
  eapply spec_pure; [intros w [_ [_ Ho]]; exact Ho|]. cbn. rewrite held_lookup.
  intros (?&_&->)%fmap_Some. rewrite bool_decide_eq_false_2 by done.
  eapply spec_weaken; [apply spec_set_mutex; [set_solver|apply bool_decide_eq_true_2; set_solver]
    |by intros w []|done].
Qed.
Lemma spec_unlockStream a g X ms s :
  s ∈ X → spec R (str s) (a, g, held X ms) (unlockStreamMutex s) (a, g, held (X ∖ {[s]}) ms)
            (λ _ _, True).
Proof.
  intros Hs. eapply triple_bind; [apply _..|apply spec_stream|done|]. intros o.
  eapply spec_pure; [intros w [_ [_ Ho]]; exact Ho|]. cbn. rewrite held_lookup.
  intros (?&_&->)%fmap_Some. rewrite bool_decide_eq_true_2 by done.
  eapply spec_weaken; [apply spec_set_mutex; [set_solver|apply bool_decide_eq_false_2; set_solver]
    |by intros w []|done].
Qed.

Lemma spec_mute a g X ms s b :
  s ∉ X → spec R (str s) (a, g, held X ms) (mute s b) (a, g, held X ms) (λ _ _, True).
Proof.
  intros Hs. sp_bind ltac:(by apply spec_lockStream). sp_bind ltac:(apply spec_log).
  replace X with (({[s]} ∪ X) ∖ {[s]}) at 2 by set_solver.
  eapply spec_weaken; [apply spec_unlockStream; set_solver|by intros w [[]]|done].
Qed.

(** *** Devices *)

Lemma ok_devices w m' :
  ok w → (∀ d, dev_in d w → is_Some (m' !! d)) → (∀ d dev, m' !! d = Some dev → dev_ok d dev) →
  let w' := set_rt_devices m' w in ok w' ∧ grows w w'.
Proof.
  intros Hok Hin Hm w'. split; [|by constructor].
  destruct Hok. constructor; try done.
  - intros s c d Hs Hd. apply Hin. by eapply ok_conn0.
  - intros s o d Hs Hd. apply Hin. by eapply ok_pal0.
Qed.

Lemma insert_device_ok w d dev' :
  ok w → dev_ok d dev' →
  let w' := set_rt_devices (<[d := dev']> (rt_devices w)) w in ok w' ∧ grows w w'.
Proof.
  intros Hok Hd. apply ok_devices; [done|..].
  - intros d' [dev Hd']. destruct (decide (d = d')) as [<-|].
    + rewrite lookup_insert_eq. by eexists.
    + rewrite lookup_insert_ne by done. by eexists.
  - intros d' dev. destruct (decide (d = d')) as [<-|].
    + rewrite lookup_insert_eq. by intros [= <-].
    + rewrite lookup_insert_ne by done. apply (ok_dev _ Hok).
Qed.

Lemma count_insert w d dev' d' :
  count_of (set_rt_devices (<[d := dev']> (rt_devices w)) w) d' =
  if decide (d' = d) then deviceCount dev' else count_of w d'.
Proof.
  unfold count_of. cbn. case_decide; subst.
  - by rewrite lookup_insert_eq.
  - by rewrite lookup_insert_ne.
Qed.

Lemma alter_device_ok w d f :
  ok w → (∀ dev, rt_devices w !! d = Some dev → dev_ok d (f dev) ∧ deviceCount (f dev) = deviceCount dev) →
  let w' := set_rt_devices (alter f d (rt_devices w)) w in ok w' ∧ calm w w'.
Proof.
  intros Hok Hf. cbn zeta. destruct (rt_devices w !! d) as [dev|] eqn:Hd.
  2:{ rewrite alter_id by (intros ??; congruence). split.
      - by eapply ok_fields; [..|exact Hok].
      - by apply calm_fields. }
  destruct (Hf dev eq_refl) as [Hdev Hc].
  assert (alter f d (rt_devices w) = <[d := f dev]> (rt_devices w)) as ->.
  { apply map_eq. intros x. destruct (decide (d = x)) as [<-|].
    - by rewrite lookup_insert_eq, lookup_alter_eq, Hd.
    - by rewrite lookup_insert_ne, lookup_alter_ne. }
  destruct (insert_device_ok w d (f dev) Hok Hdev) as [Hok' Hg]. split; [done|].
  constructor; [done..| |done]. intros d'. rewrite count_insert. case_decide; [|done]. subst.
  unfold count_of. by rewrite Hd.
Qed.

Lemma dev_effects_fields evs w :
  let w' := foldl (λ w e, dev_effect e w) w evs in
  rt_users w' = rt_users w ∧ rt_streams w' = rt_streams w ∧ rt_devices w' = rt_devices w ∧
  rt_attrs w' = rt_attrs w ∧ mActiveStreamMutex w' = mActiveStreamMutex w ∧
  mGraphMutex w' = mGraphMutex w.
Proof.
  revert w. induction evs as [|e evs IH]; intros w w'; [done|].
  unfold w'. cbn [foldl]. destruct (IH (dev_effect e w)) as (->&->&->&->&->&->).
  destruct e; cbn; try done.
  - unfold setCurrentGroupDevConfig. by destruct (activeGroupDevConfig w).
  - unfold updateSndName. by case_match.
Qed.

Lemma run_device_wp {A} d (f : DeviceEnv → nat → Device → option (A * Device * list dev_event))
    w dev r dev' evs :
  ok w → rt_devices w !! d = Some dev →
  f (world_env w) (rt_clock w) dev = Some (r, dev', evs) → dev_ok d dev' →
  ∃ w', run_device d f w = Some (r, w') ∧ ok w' ∧ grows w w' ∧ locks w' = locks w ∧
    conn w' = conn w ∧ rt_attrs w' = rt_attrs w ∧
    ∀ d', count_of w' d' = if decide (d' = d) then deviceCount dev' else count_of w d'.
Proof.
  intros Hok Hd Hr Hdev'. unfold run_device. rewrite Hd, Hr. eexists. split; [done|].
  set (w1 := set_rt_clock _ _).
  destruct (dev_effects_fields evs w1) as (Hu&Hs&Hds&Ha&Hm&Hg).
  destruct (insert_device_ok w d dev' Hok Hdev') as [Hok1 Hg1]. split_and!.
  - eapply ok_fields; [..|exact Hok1]; done.
  - etrans; [exact Hg1|]. by apply calm_fields.
  - unfold locks, mutexes. by rewrite Hs, Hm, Hg.
  - unfold conn. by rewrite Hs.
  - by rewrite Ha.
  - intros d'. rewrite <- (count_insert w). unfold count_of. by rewrite Hds.
Qed.

Lemma spec_run_device {A} L d f (V : A → RtWorld → Prop) :
  (∀ w dev, ok w → rt_devices w !! d = Some dev → ∃ r dev' evs,
     f (world_env w) (rt_clock w) dev = Some (r, dev', evs) ∧ dev_ok d dev' ∧
     deviceCount dev' = deviceCount dev ∧ ∀ w', V r w') →
  spec R (dev_in d) L (run_device d f) L V.
Proof.
  intros Hf. apply spec_step. intros w Hok <- [dev Hd].
  destruct (Hf w dev Hok Hd) as (r&dev'&evs&Hr&Hdev'&Hc&HV).
  destruct (run_device_wp d f w dev r dev' evs) as (w'&?&?&?&?&?&Ha&Hn); [done..|].
  exists r, w'. split_and!; [done..| |done|apply HV].
  constructor; [done..| |by intros ? ? _; rewrite Ha].
  intros d'. rewrite Hn. case_decide; [|done]. subst. unfold count_of. by rewrite Hd.
Qed.

Lemma spec_upd_device L d f :
  (∀ dev, dev_ok d dev → dev_ok d (f dev) ∧ deviceCount (f dev) = deviceCount dev) →
  spec R any L (upd_device d f) L (λ _ _, True).
Proof.
  intros Hf. apply spec_step. intros w Hok <- _. eexists _, _. split; [done|].
  destruct (alter_device_ok w d f Hok) as [Hok' Hc]; [|by split_and!].
  intros dev Hd. apply Hf. by apply (ok_dev _ Hok).
Qed.

Lemma spec_getInstance L a :
  in_deviceNameLUT (dev_id a) = true →
  spec R any L (getInstance a) L (λ r w,
    r = (if decide (dev_id a = PAL_DEVICE_NONE) then None else object_of (dev_id a)) ∧
    ∀ d, r = Some d → dev_in d w ∧ object_of (dev_id a) = Some d).
Proof.
  intros Hl. apply spec_step. intros w Hok <- _. unfold getInstance.
  destruct (decide _); [by eexists _, _; split_and!|]. rewrite Hl.
  destruct (object_of (dev_id a)) as [d|] eqn:Ho; [|by eexists _, _; split_and!].
  eexists _, _. split; [done|]. destruct (rt_devices w !! d) as [dev|] eqn:Hd.
  { split_and!; try done. intros ? [= <-]. split; [by eexists|done]. }
  destruct (insert_device_ok w d (Device_new a) Hok) as [Hok' Hg].
  { constructor; cbn; [done..|]. set_solver. }
  split_and!; try done.
  - constructor; [done..| |done]. intros d'. rewrite count_insert. case_decide; [|done]. subst.
    unfold count_of. by rewrite Hd.
  - intros ? [= <-]. split; [|done]. unfold dev_in. cbn. rewrite lookup_insert_eq. by eexists.
Qed.

(** The two outcomes of [getInstance]. *)
Lemma spec_instance {A} P L a (m : St RtWorld A) k L' V `{!Stable R P} :
  in_deviceNameLUT (dev_id a) = true → spec R P L m L' V →
  (∀ d, object_of (dev_id a) = Some d → spec R (λ w, P w ∧ dev_in d w) L (k d) L' V) →
  spec R P L (dev <-- getInstance a ;; match dev with None => m | Some d => k d end) L' V.
Proof.
  intros Hl Hm Hk. sp_bind ltac:(by apply spec_getInstance). destruct r as [d|].
  - intros w Hok HL [HP [_ Hd]]. destruct (Hd d eq_refl) as [Hin Ho]. by apply (Hk d Ho w).
  - eapply spec_pre; [|exact Hm]. by intros w [].
Qed.

Lemma spec_getSndDeviceId L d :
  spec R (dev_in d) L (getSndDeviceId d) L (λ id _,
    object_of id = Some d ∧ in_deviceNameLUT id = true).
Proof.
  apply triple_gets; [apply _|]. intros w Hok _ [dev Hd]. unfold snd_id. rewrite Hd.
  by destruct (ok_dev _ Hok _ _ Hd).
Qed.

Lemma same_device_ok d dev dev' : dev_ok d dev → same_device dev dev' → dev_ok d dev'.
Proof. intros [] [Hi He Hw]. constructor; rewrite ?Hi, ?He, ?Hw; done. Qed.

Lemma spec_method L d op : method_law id op → spec R (dev_in d) L (run_device d op) L (λ _ _, True).
Proof.
  intros Hop. apply spec_run_device. intros w dev Hok Hd.
  destruct (Hop (world_env w) (rt_clock w) dev) as (st&dev'&evs&Hr&Hs&Hc).
  eexists _, _, _. split; [exact Hr|]. split_and!; [|done..].
  eapply same_device_ok; [by eapply ok_dev|done].
Qed.
Lemma spec_dev_start L d : spec R (dev_in d) L (start d) L (λ _ _, True).
Proof. apply spec_method, law_start. Qed.
Lemma spec_dev_stop L d : spec R (dev_in d) L (stop d) L (λ _ _, True).
Proof. apply spec_method, law_stop. Qed.

(** An id of the object [d]. *)
Definition id_of (d : positive) (id : Z) : Prop :=
  object_of id = Some d ∧ in_deviceNameLUT id = true.

Lemma spec_setDeviceAttributes L d a :
  id_of d (dev_id a) → spec R any L (setDeviceAttributes d a) L (λ _ _, True).
Proof.
  intros [Ho Hl]. apply spec_upd_device. intros dev []. split; [|done]. by constructor.
Qed.

Lemma spec_getDeviceAttributes L d s :
  spec R (dev_in d) L (getDeviceAttributes d s) L (λ v _, id_of d (dev_id v)).
Proof.
  apply spec_query; [apply _|]. intros w Hok _ [dev Hd]. rewrite Hd. simpl.
  destruct (ok_dev _ Hok _ _ Hd) as [Ho Hl _ _].
  unfold Device.getDeviceAttributes. destruct s as [s|]; [|by eexists].
  case_match; [|by eexists]. destruct p as (?&?&?&?). by eexists.
Qed.

Lemma dev_ok_entries d dev l :
  dev_ok d dev → (∀ x, x ∈ l → x ∈ mStreamDevAttr dev ∨ id_of d (dev_id x.2.2)) →
  dev_ok d (set_mStreamDevAttr l dev).
Proof.
  intros [Ho Hl Hw He] Hx. constructor; cbn; [done..|]. intros p s v [Hin|Hin]%Hx; [|done].
  by eapply He.
Qed.

Lemma remove_loop_sub s l x : x ∈ remove_loop s l → x ∈ l.
Proof.
  induction l as [|[p [s' a']] l IH]; simpl; [done|]. case_decide; set_solver.
Qed.

Lemma spec_insertStreamDeviceAttr L d a s :
  id_of d (dev_id a) → spec R any L (insertStreamDeviceAttr d a s) L (λ _ _, True).
Proof.
  intros Ha. apply spec_step. intros w Hok <- _. eexists _, _. split; [done|].
  destruct (alter_device_ok w d (λ dev,
    (@Device.insertStreamDeviceAttr (world_env w) true (Some a) (Some s) dev).2) Hok)
    as [Hok' Hc]; [|by split_and!].
  intros dev Hd. split; [|done]. apply dev_ok_entries; [by apply (ok_dev _ Hok)|].
  intros x. rewrite insert_loop_perm. intros [->|]%elem_of_cons; auto.
Qed.
Lemma spec_removeStreamDeviceAttr L d s :
  spec R any L (removeStreamDeviceAttr d s) L (λ _ _, True).
Proof.
  apply spec_upd_device. intros dev Hd. split; [|done]. apply dev_ok_entries; [done|].
  intros x Hx%remove_loop_sub. auto.
Qed.

Lemma spec_getTopPriorityDeviceAttr L d :
  spec R (dev_in d) L (getTopPriorityDeviceAttr d) L (λ r _,
    ∀ v p, r.2 = Some (v, p) → id_of d (dev_id v)).
Proof.
  apply spec_run_device. intros w dev Hok Hd. pose proof (ok_dev _ Hok _ _ Hd) as Hdev.
  unfold Device.getTopPriorityDeviceAttr. destruct (mStreamDevAttr dev) as [|[p [s v]] l] eqn:He.
  { eexists _, _, _. split; [done|]. by split_and!. }
  destruct (decide (mBitWidth dev = 0)) as [_|[]]; [|by eapply dev_width]. simpl.
  eexists _, _, _. split; [done|]. split_and!; [done|done|].
  intros _ v' p' [= <- <-]. cbn. eapply (dev_entries _ _ Hdev). rewrite He. by left.
Qed.

Lemma spec_setSndName L d name : spec R any L (setSndName d name) L (λ _ _, True).
Proof. apply spec_upd_device. intros dev []. split; [|done]. by constructor. Qed.
Lemma spec_setSampleRate L d sr : spec R any L (setSampleRate d sr) L (λ _ _, True).
Proof. apply spec_upd_device. intros dev []. split; [|done]. by constructor. Qed.
Lemma spec_getDeviceCount L d : spec R any L (getDeviceCount d) L (λ _ _, True).
Proof. by apply triple_gets; [apply _|]. Qed.

Lemma spec_isDeviceReady L id :
  in_deviceNameLUT id = true → spec R any L (isDeviceReady id) L (λ _ _, True).
Proof.
  intros Hl. sp_bind ltac:(by apply (spec_getInstance _ (bare id))).
  destruct r; [eapply spec_weaken; [apply spec_ask|done..]|by sp_ret].
Qed.

(** *** Structures and queries *)

Lemma spec_attr L a :
  spec R (attr_in a) L (attr a) L (λ v _, in_deviceNameLUT (dev_id v) = true).
Proof.
  apply spec_query; [apply _|]. intros w Hok _ [v Hv]. exists v. split; [done|].
  by eapply ok_attr.
Qed.
Lemma spec_attr_named L a :
  spec R (named a) L (attr a) L (λ v _, in_deviceNameLUT (dev_id v) = true ∧
    is_Some (object_of (dev_id v))).
Proof.
  apply spec_query; [apply _|]. intros w Hok _ (v&Hv&Hn). exists v. split_and!; try done.
  by eapply ok_attr.
Qed.

Lemma spec_attr_eq L a x :
  spec R (λ w, rt_attrs w !! a = Some x) L (attr a) L (λ v _, v = x).
Proof. apply spec_query; [apply _|]. intros w _ _ Ha. by exists x. Qed.

Lemma named_in a w : named a w → attr_in a w.
Proof. intros (v&Hv&_). by exists v. Qed.

Lemma attr_eq_in a v w : rt_attrs w !! a = Some v → attr_in a w.
Proof. by eexists. Qed.

(** A structure is written: a new one, or with an id that has an object. *)
Lemma insert_attr_ok w a v :
  ok w → in_deviceNameLUT (dev_id v) = true →
  rt_attrs w !! a = None ∨ is_Some (object_of (dev_id v)) →
  let w' := set_rt_attrs (<[a := v]> (rt_attrs w)) w in ok w' ∧ quiet (eq a) w w'.
Proof.
  intros Hok Hl Ha w'. split.
  - destruct Hok. constructor; try done. intros b u. cbn.
    destruct (decide (a = b)) as [<-|]; [rewrite lookup_insert_eq; by intros [= <-]|].
    rewrite lookup_insert_ne by done. apply ok_attr0.
  - constructor; [|done..|].
    2:{ intros b u Hb. cbn. by rewrite lookup_insert_ne. }
    constructor; try done.
    + intros b [u Hb]. unfold attr_in. cbn. destruct (decide (a = b)) as [<-|].
      * rewrite lookup_insert_eq. by eexists.
      * rewrite lookup_insert_ne by done. by eexists.
    + intros b (u&Hb&Hu). unfold named. cbn. destruct (decide (a = b)) as [<-|].
      * rewrite lookup_insert_eq. destruct Ha; [congruence|]. by eexists.
      * rewrite lookup_insert_ne by done. by eexists.
Qed.

Lemma spec_put_attr L a v `{!Puts R a} :
  in_deviceNameLUT (dev_id v) = true → is_Some (object_of (dev_id v)) →
  spec R any L (put_attr a v) L (λ _ w, attr_in a w ∧ named a w).
Proof.
  intros Hl Ho w Hok <- _. eexists _, _. split; [done|].
  destruct (insert_attr_ok w a v) as [Hok' Hc]; [by auto..|].
  split_and!; [done|by apply (R_puts w)|done|..];
    unfold attr_in, named; cbn; rewrite lookup_insert_eq; by eexists.
Qed.

Lemma fresh_addr_None (m : gmap positive pal_device) : m !! fresh_addr m = None.
Proof.
  assert (∀ k, is_Some (m !! k) → (k < fresh_addr m)%positive) as Hlt.
  { unfold fresh_addr.
    apply (map_fold_weak_ind (λ n m, ∀ k, is_Some (m !! k) → (k < n)%positive)).
    - intros k [v Hv]. by rewrite lookup_empty in Hv.
    - intros k v m' n Hk IH k' Hk'. destruct (decide (k = k')) as [<-|]; [lia|].
      rewrite lookup_insert_ne in Hk' by done. apply IH in Hk'. lia. }
  destruct (m !! fresh_addr m) eqn:Hm; [|done].
  assert (fresh_addr m < fresh_addr m)%positive; [|lia]. apply Hlt. by eexists.
Qed.

Lemma spec_alloc L v :
  in_deviceNameLUT (dev_id v) = true →
  spec R any L (alloc v) L (λ a w, attr_in a w ∧ (is_Some (object_of (dev_id v)) → named a w)).
Proof.
  intros Hl. apply spec_step. intros w Hok <- _. eexists _, _. split; [done|].
  destruct (insert_attr_ok w (fresh_addr (rt_attrs w)) v) as [Hok' Hc];
    [done..|left; apply fresh_addr_None|].
  split_and!; [done| |done|..].
  - constructor; try apply Hc. intros a x _ Ha. apply (calm_attr _ _ _ Hc); [|done].
    intros <-. by rewrite fresh_addr_None in Ha.
  - unfold attr_in. cbn. rewrite lookup_insert_eq. by eexists.
  - unfold named. cbn. rewrite lookup_insert_eq. eauto.
Qed.

Lemma spec_alloc_eq L v :
  in_deviceNameLUT (dev_id v) = true →
  spec R any L (alloc v) L (λ a w, rt_attrs w !! a = Some v).
Proof.
  intros Hl w Hok HL _. destruct (spec_alloc L v Hl w Hok HL I) as (a&w'&Ha&?&?&?&_).
  exists a, w'. split_and!; try done. injection Ha as <- <-. cbn. apply lookup_insert_eq.
Qed.

(** A new structure is not one of those there are. *)
Lemma spec_alloc_ne L v b :
  in_deviceNameLUT (dev_id v) = true →
  spec R (attr_in b) L (alloc v) L (λ a w, a ≠ b ∧ attr_in a w).
Proof.
  intros Hl w Hok HL Hb. destruct (spec_alloc L v Hl w Hok HL I) as (a&w'&Ha&?&?&?&?&_).
  exists a, w'. split_and!; try done. intros ->. destruct Hb as [u Hb].
  injection Ha as <- _. by rewrite fresh_addr_None in Hb.
Qed.

(** *** The registry *)

Definition strs (l : list positive) (w : RtWorld) : Prop := ∀ s, s ∈ l → str s w.

Lemma streams_with_Some P l w :
  strs l w → ∃ r, streams_with P l w = Some r ∧ ∀ s, s ∈ r → s ∈ l.
Proof.
  induction l as [|s l IH]; intros Hl; simpl; [by eexists|].
  destruct (Hl s) as [o Ho]; [by left|]. rewrite Ho. simpl.
  destruct IH as (r&Hr&Hs); [intros x Hx; apply Hl; by right|]. rewrite Hr. simpl.
  eexists. split; [done|]. destruct (P o); set_solver.
Qed.

Lemma spec_streams_with L P (f : RtWorld → list positive) :
  (∀ w, ok w → strs (f w) w) →
  spec R any L (st_query (λ w, streams_with P (f w) w)) L (λ l w, strs l w).
Proof.
  intros Hf. apply spec_query; [apply _|]. intros w Hok _ _.
  destruct (streams_with_Some P (f w) w) as (r&Hr&Hs); [auto|]. exists r. split; [done|].
  intros s Hin. apply (Hf _ Hok). auto.
Qed.

Lemma spec_isStreamActive L s u :
  spec R (λ w, rt_users w = u) L (isStreamActive s) L (λ b _, b = Users.isStreamActive s u).
Proof. apply triple_gets; [apply _|]. by intros w _ _ ->. Qed.

Lemma spec_getActiveStream L d : spec R any L (getActiveStream_l d) L (λ l w, strs l w).
Proof. apply spec_streams_with. intros w Hok s. by apply ok_map. Qed.

Lemma spec_isDeviceActive L id : spec R any L (isDeviceActive id) L (λ _ _, True).
Proof. by apply triple_gets; [apply _|]. Qed.

Lemma spec_registerDevice L d s : spec R any L (registerDevice d s) L (λ _ _, True).
Proof.
  sp_bind ltac:(apply triple_read).
  case_bool_decide; [by sp_ret|].
  sp_bind ltac:(by apply spec_upd_fields). eapply spec_weaken; [apply spec_log|done..].
Qed.
Lemma spec_deregisterDevice L d s : spec R any L (deregisterDevice d s) L (λ _ _, True).
Proof.
  sp_bind ltac:(apply triple_read).
  case_bool_decide; [|by sp_ret].
  sp_bind ltac:(by apply spec_upd_fields). eapply spec_weaken; [apply spec_log|done..].
Qed.

(** Pairs of a stream and a device id. *)
Definition dis_ok (l : list (positive * Z)) (w : RtWorld) : Prop :=
  ∀ p, p ∈ l → str p.1 w ∧ in_deviceNameLUT p.2 = true.

Lemma push_new_elem found l x : x ∈ push_new found l ↔ x ∈ l ∨ x ∈ found.
Proof.
  revert l. induction found as [|y found IH]; intros l; simpl; [set_solver|].
  rewrite IH. case_bool_decide; set_solver.
Qed.

Lemma spec_shared_loop L be ids acc :
  (∀ i, i ∈ ids → be = listAllBackEndIds i → in_deviceNameLUT i = true) →
  spec R (dis_ok acc) L (shared_loop be ids acc) L (λ l w, dis_ok l w).
Proof.
  revert acc. induction ids as [|i ids IH]; intros acc Hids; simpl; [by sp_ret|].
  case_decide as Hbe; [|by apply IH; set_solver].
  sp_bind ltac:(apply (spec_getInstance _ (bare i)); apply Hids; set_solver).
  destruct r as [d|].
  2:{ eapply spec_weaken; [apply IH; set_solver|by intros w []|done]. }
  eapply (triple_bind _ _ any _ _ _ (λ l w, strs l w)); [apply _..| |done|].
  { apply (spec_streams_with _ _ (λ w, mActiveStreams (rt_users w))).
    intros w Hok s. by apply ok_active. }
  intros l. cbn beta.
  eapply triple_bind; [apply _..|apply spec_getSndDeviceId| |].
  { intros w [[_ [_ Hd]] _]. by apply Hd. }
  intros id. cbn beta. eapply spec_weaken; [apply IH; set_solver| |done].
  intros w [[[Hacc _] Hl] [_ Hid]] p [Hp|Hp]%push_new_elem; [auto|].
  apply list_elem_of_fmap in Hp as (s&->&Hs). auto.
Qed.

Lemma in_LUT_index i : i ∈ backend_indices → i ≠ PAL_DEVICE_IN_CPS2_FEEDBACK →
  in_deviceNameLUT i = true.
Proof.
  unfold backend_indices, in_deviceNameLUT. rewrite elem_of_seqZ. intros Hi Hn.
  apply bool_decide_eq_true_2. split; [|done]. unfold PAL_DEVICE_OUT_MIN, PAL_DEVICE_IN_MAX in *. lia.
Qed.

Lemma spec_getSharedBE `{!RtTable} L acc id :
  in_deviceNameLUT id = true →
  spec R (dis_ok acc) L (getSharedBEActiveStreamDevs acc id) L (λ l w, dis_ok l w).
Proof.
  intros Hid. apply spec_shared_loop. intros i Hi Hbe. apply in_LUT_index; [done|].
  intros ->. apply bool_decide_eq_true in Hid as [_ Hid]. by apply (law_cps2 id).
Qed.

(** *** The duty cycle *)

Lemma spec_duty_loop L s ids b :
  (∀ i, i ∈ ids → in_deviceNameLUT i = true) →
  spec R (str s) L (duty_loop s ids b) L (λ _ _, True).
Proof.
  revert b. induction ids as [|i ids IH]; intros b Hids; simpl; [by sp_ret|].
  sp_bind ltac:(apply (spec_getInstance _ (bare i)); apply Hids; set_solver).
  destruct r as [d|].
  2:{ eapply spec_weaken; [apply IH; set_solver|by intros w []|done]. }
  sp_bind ltac:(apply spec_getActiveStream).
  apply spec_decide; intros _.
  { eapply spec_weaken; [apply IH; set_solver|by intros w [[]]|done]. }
  sp_bind ltac:(apply triple_read).
  sp_bind ltac:(apply spec_stream).
  eapply spec_weaken; [apply IH; set_solver|by intros w [[[[]]]]|done].
Qed.

Lemma spec_checkAndSetDutyCycleParam L : spec R any L checkAndSetDutyCycleParam L (λ _ _, True).
Proof.
  unfold checkAndSetDutyCycleParam. destruct IsDutyCycleForUPDEnabled; [|by sp_ret]. cbn [negb].
  eapply (triple_bind _ _ any _ _ _ (λ r w, ∀ s, r = Some s → str s w)); [apply _..| |done|].
  { apply spec_query; [apply _|]. intros w Hok _ _. unfold upd_stream_of.
    destruct (streams_with_Some (λ o, is_upd o && isActive o) (mActiveStreams (rt_users w)) w)
      as (r&Hr&Hs); [intros s; by apply ok_active|].
    rewrite Hr. eexists. split; [done|]. intros s Hh. apply (ok_active _ Hok), Hs.
    destruct r; [done|]. injection Hh as ->. by left. }
  intros [s|]; cbn beta; [|by sp_ret].
  apply (spec_pre _ (str s)); [intros w [_ Hw]; by apply Hw|].
  sp_bind ltac:(apply spec_stream).
  sp_bind ltac:(apply spec_duty_loop; apply Forall_forall; by repeat constructor).
  sp_bind ltac:(apply spec_stream).
  apply triple_if; intros _; [by sp_ret|].
  eapply (triple_bind _ _ any); [apply _..|apply spec_upd_stream|done|]; [by intros []|by auto|].
  intros u. by eapply spec_pre; [|apply spec_log].
Qed.
End leaves.
End state.

(** The rules for other files.  [sp_bind tac as x] steps over the first operation, whose
    lemma [tac] applies; [sp_go] turns what it says of its result into hypotheses, and
    [sp as x] finds the lemma in the hint database. *)
Create HintDb routing.
Ltac sp_side := intros ? ?; simpl in *; intuition eauto using named_in, attr_eq_in.
Ltac sp_rel := match goal with |- Rel _ => apply _ end.
Ltac sp_norm :=
  repeat first [ apply spec_drop
               | apply spec_take; let F := fresh "F" in intros F; destruct_and? F
               | apply spec_take_l; let F := fresh "F" in intros F; destruct_and? F
               | apply spec_take_r; let F := fresh "F" in intros F; destruct_and? F ].
Tactic Notation "sp_bind" tactic3(H) "as" simple_intropattern(x) :=
  eapply triple_bind; [apply _|apply _|H; try sp_rel|sp_side; fail|intros x; cbn beta].
Tactic Notation "sp_go" tactic3(H) "as" simple_intropattern(x) := sp_bind H as x; sp_norm.
Tactic Notation "sp" "as" simple_intropattern(x) := sp_go (solve [eauto with routing]) as x.
Tactic Notation "sp_inst" simple_intropattern(d) simple_intropattern(Hd) :=
  eapply spec_instance; [apply _|apply _|solve [eauto with routing]| |intros d Hd].
Ltac sp_ret := apply triple_ret; [apply _|].
(** The last operation. *)
Ltac sp_last := eapply spec_weaken; [solve [eauto with routing]|sp_side; fail|done].

#[export] Hint Extern 0 (Rel _) => apply _ : routing.
#[export] Hint Extern 0 (Puts _ _) => apply _ : routing.
#[export] Hint Extern 0 (in_deviceNameLUT _ = true) => first [assumption|reflexivity] : routing.
#[export] Hint Extern 1 (spec _ _ _ (log _) _ _) => apply spec_log : routing.
#[export] Hint Extern 1 (spec _ _ _ (ask (λ t, getDeviceConfig t _ _)) _ _) =>
  apply spec_config : routing.
#[export] Hint Extern 2 (spec _ _ _ (ask _) _ _) => apply spec_ask : routing.
#[export] Hint Extern 1 (spec _ _ _ (stream _) _ _) => apply spec_stream : routing.
#[export] Hint Extern 1 (spec _ _ _ lockActiveStream _ _) => apply spec_lockActive : routing.
#[export] Hint Extern 1 (spec _ _ _ unlockActiveStream _ _) => apply spec_unlockActive : routing.
#[export] Hint Extern 1 (spec _ _ _ (getInstance _) _ _) => apply spec_getInstance : routing.
#[export] Hint Extern 1 (spec _ _ _ (getSndDeviceId _) _ _) => apply spec_getSndDeviceId : routing.
#[export] Hint Extern 1 (spec _ _ _ (getDeviceAttributes _ _) _ _) =>
  apply spec_getDeviceAttributes : routing.
#[export] Hint Extern 1 (spec _ _ _ (getTopPriorityDeviceAttr _) _ _) =>
  apply spec_getTopPriorityDeviceAttr : routing.
#[export] Hint Extern 1 (spec _ _ _ (removeStreamDeviceAttr _ _) _ _) =>
  apply spec_removeStreamDeviceAttr : routing.
#[export] Hint Extern 1 (spec _ _ _ (setSndName _ _) _ _) => apply spec_setSndName : routing.
#[export] Hint Extern 1 (spec _ _ _ (getDeviceCount _) _ _) => apply spec_getDeviceCount : routing.
#[export] Hint Extern 1 (spec _ _ _ (isDeviceReady _) _ _) => apply spec_isDeviceReady : routing.
#[export] Hint Extern 1 (spec _ _ _ (attr _) _ _) => apply spec_attr : routing.
#[export] Hint Extern 1 (spec _ _ _ (alloc _) _ _) => apply spec_alloc : routing.
#[export] Hint Extern 1 (spec _ _ _ (put_attr _ _) _ _) => apply spec_put_attr : routing.
#[export] Hint Extern 1 (spec _ _ _ (getActiveStream_l _) _ _) =>
  apply spec_getActiveStream : routing.
#[export] Hint Extern 1 (spec _ _ _ (isDeviceActive _) _ _) => apply spec_isDeviceActive : routing.
#[export] Hint Extern 2 (spec _ _ _ (st_gets _) _ _) => apply triple_read : routing.

(** What an id of an object gives. *)
#[export] Hint Extern 1 (in_deviceNameLUT _ = true) =>
  match goal with Hid : id_of _ _ |- _ => exact (proj2 Hid) end : routing.
#[export] Hint Extern 1 (is_Some (object_of _)) =>
  match goal with Hid : id_of _ _ |- _ => exact (mk_is_Some _ _ (proj1 Hid)) end : routing.
