(* ===== verification/RoutingConn.v ===== *)
(** * Routing: connections

    The connection of a stream to a device and its end are defined from every state that
    is [ok], keep it and the mutexes, and are related by [stays]. *)

From S2P Require Import Prelude PalDefs Users Device DeviceFacts RoutingState Routing RoutingPolicy.
From S2P Require Import RoutingFacts.

Local Open Scope st_scope.

Section conn.
Context `{RtEnv, !RtLaws} (K : positive → Prop).

Local Abbreviation stays := (RoutingFacts.stays K).

Abbreviation any := (λ _ : RtWorld, True).

(** ** Steps that change the connections *)

(** A calm step in front of an operation. *)
Lemma spec_bind_calm {A B} P P0 L (m : St RtWorld A) L1 V (k : A → St RtWorld B) L2 V'
    `{!Stable calm P} :
  spec calm P0 L m L1 V → (∀ w, P w → P0 w) →
  (∀ r, spec stays (λ w, P w ∧ V r w) L1 (k r) L2 V') → spec stays P L (st_bind m k) L2 V'.
Proof.
  intros Hm HP0 Hk w Hok HL HP. apply st_wp_bind. eapply st_wp_mono; [by apply Hm; auto|].
  cbn beta. intros r w' (Hok'&HR'&HL'&HV).
  eapply st_wp_mono; [apply (Hk r); [done..|]; split; [|done]; by apply (stable calm w)|].
  cbn beta. intros r' w'' (?&?&?&?). split_and!; auto.
  etrans; [|done]. by apply R_calm.
Qed.

Lemma spec_calm {A} P L (m : St RtWorld A) L' V : spec calm P L m L' V → spec stays P L m L' V.
Proof.
  intros Hm w Hok HL HP. eapply st_wp_mono; [by apply Hm|]. cbn beta.
  intros r w' (?&?&?&?). split_and!; [done|by apply R_calm|done..].
Qed.

(** An operation after a step already taken. *)
Lemma spec_from {A} P L (m : St RtWorld A) L' V w0 w :
  spec stays P L m L' V → stays w0 w → ok w → locks w = L → P w →
  st_wp m (λ r w', ok w' ∧ stays w0 w' ∧ locks w' = L' ∧ V r w') w.
Proof.
  intros Hm Hs Hok HL HP. eapply st_wp_mono; [by apply Hm|]. cbn beta.
  intros r w' (?&?&?&?). split_and!; auto. by etrans.
Qed.

#[local] Instance stable_conn s c : Stable calm (λ w, conn w !! s = Some c).
Proof. intros w w' _ _ Hc. by rewrite (calm_conn _ _ _ Hc). Qed.

Definition uses (d : positive) (devs : list positive) : Z :=
  Z.of_nat (length (filter (λ x, x = d) devs)).

Lemma set_conn_ok w s st devs f :
  ok w → conn w !! s = Some (st, devs) → (∀ d, d ∈ f devs → d ∈ devs ∨ dev_in d w) →
  let w' := set_rt_streams (alter (λ o, set_mDevices (f (mDevices o)) o) s (rt_streams w)) w in
  ok w' ∧ grows w w' ∧ rt_attrs w' = rt_attrs w ∧ locks w' = locks w ∧ conn w' = <[s := (st, f devs)]> (conn w) ∧
  ∀ d, count_of w' d = count_of w d.
Proof.
  intros Hok Hs Hf w'. pose proof Hs as Hs'.
  unfold conn in Hs. rewrite lookup_fmap in Hs. apply fmap_Some in Hs as (o&Ho&[= -> ->]).
  assert (static w' = static w) as Hst.
  { apply map_eq. intros x. unfold static, w'. cbn. rewrite !lookup_fmap.
    destruct (decide (s = x)) as [<-|]; [|by rewrite lookup_alter_ne].
    by rewrite lookup_alter_eq, Ho. }
  assert (conn w' = <[s := (currentState o, f (mDevices o))]> (conn w)) as Hc.
  { apply map_eq. intros x. unfold conn, w'. cbn. rewrite lookup_fmap.
    destruct (decide (s = x)) as [<-|].
    - by rewrite lookup_alter_eq, lookup_insert_eq, Ho.
    - rewrite lookup_alter_ne, lookup_insert_ne by done. by rewrite lookup_fmap. }
  assert (∀ x, str x w → str x w') as Hstr by (intros x; by rewrite !str_static, Hst).
  split_and!; [|by constructor|done| |done|done].
  - constructor.
    + intros x Hx. apply Hstr. by apply (ok_active _ Hok).
    + intros x Hx. apply Hstr. by apply (ok_map _ Hok).
    + apply (ok_dev _ Hok).
    + rewrite Hc. intros x c d. destruct (decide (s = x)) as [<-|].
      * rewrite lookup_insert_eq. intros [= <-] Hd. destruct (Hf d Hd) as [Hin|Hin]; [|done].
        by apply (ok_conn _ Hok _ _ d Hs').
      * rewrite lookup_insert_ne by done. apply (ok_conn _ Hok).
    + intros x o' d. unfold w'. cbn. destruct (decide (s = x)) as [<-|].
      * rewrite lookup_alter_eq. intros (o2&Ho2&->)%fmap_Some.
        apply (ok_pal _ Hok s o2 d Ho2).
      * rewrite lookup_alter_ne by done. apply (ok_pal _ Hok).
    + apply (ok_attr _ Hok).
  - unfold locks, mutexes. cbn. f_equal. apply map_eq. intros x. rewrite !lookup_fmap.
    destruct (decide (s = x)) as [<-|]; [|by rewrite lookup_alter_ne].
    by rewrite lookup_alter_eq, Ho.
Qed.

(** The counts follow the devices of one stream. *)
Lemma stays_intro w w' s st devs devs' :
  ok w → ok w' → grows w w' → rt_attrs w' = rt_attrs w → (∀ d, d ∈ devs' → dev_in d w) →
  conn w !! s = Some (st, devs) → conn w' = <[s := (st, devs')]> (conn w) →
  (good → fair w → st ≠ STREAM_IDLE → ∀ d, count_of w' d = count_of w d + uses d devs' - uses d devs) →
  (st = STREAM_IDLE → ∀ d, count_of w' d = count_of w d) →
  (good → st ≠ STREAM_IDLE → NoDup (backend_of w <$> devs) → NoDup (backend_of w <$> devs')) →
  stays w w'.
Proof.
  intros Hok Hok' Hg Ha Hin Hs Hc Hn Hn0 Hd. constructor; [done|by intros ? ? _; rewrite Ha|..].
  - intros Hgd _ Hf d. unfold surplus. rewrite Hc, (map_sum_insert _ _ _ _ _ Hs).
    unfold uses_of. cbn. case_decide as Hst.
    + rewrite Hn0 by done. lia.
    + rewrite Hn by done. unfold uses. lia.
  - intros Hgd _ Hdi. intros x c Hx Hx'.
    assert (NoDup (backend_of w <$> c.2)) as Hnd.
    { rewrite Hc in Hx. destruct (decide (s = x)) as [<-|].
      - rewrite lookup_insert_eq in Hx. injection Hx as <-. apply Hd; [done..|].
        by apply (Hdi _ _ Hs).
      - rewrite lookup_insert_ne in Hx by done. by apply (Hdi x). }
    rewrite (list_fmap_ext (backend_of w') (backend_of w) c.2); [done|].
    intros i y Hy%list_elem_of_lookup_2.
    assert (dev_in y w); [|apply backend_of_stable; [done..|by apply (g_dev _ _ Hg)]].
    rewrite Hc in Hx. destruct (decide (s = x)) as [<-|].
    + rewrite lookup_insert_eq in Hx. injection Hx as <-. by apply Hin.
    + rewrite lookup_insert_ne in Hx by done. by eapply ok_conn.
Qed.

Lemma uses_perm d l l' : l ≡ₚ l' → uses d l = uses d l'.
Proof. intros Hl. unfold uses. by rewrite Hl. Qed.
Lemma uses_cons d x l : uses d (x :: l) = (if decide (x = d) then 1 else 0) + uses d l.
Proof. unfold uses. rewrite filter_cons. case_decide; simpl; lia. Qed.

Lemma NoDup_less {A B} (f : A → B) l x l' : l ≡ₚ x :: l' → NoDup (f <$> l) → NoDup (f <$> l').
Proof.
  intros Hl. rewrite (fmap_Permutation f _ _ Hl), fmap_cons. by intros [_ ?]%NoDup_cons.
Qed.

(** A fair state has opened the devices in use. *)
Lemma fair_count w s st devs d :
  fair w → conn w !! s = Some (st, devs) → st ≠ STREAM_IDLE → d ∈ devs → 0 < count_of w d.
Proof.
  intros Hf Hs Hst Hd. specialize (Hf d). unfold surplus in Hf.
  pose proof (map_sum_ge (uses_of d) (conn w) s _ (uses_of_nonneg d) Hs) as Hge.
  unfold uses_of at 1 in Hge. cbn in Hge. rewrite decide_False in Hge by done.
  apply elem_of_Permutation in Hd as [l Hl]. fold (uses d devs) in Hge.
  rewrite (uses_perm _ _ _ Hl), uses_cons, decide_True in Hge by done.
  unfold uses in Hge. lia.
Qed.

Definition closed (w : RtWorld) (d d' : positive) : Z :=
  count_of w d' - (if decide (d = d') then if decide (0 < count_of w d) then 1 else 0 else 0).

Lemma close_wp w d :
  ok w → dev_in d w →
  ∃ st w', close d w = Some (st, w') ∧ ok w' ∧ grows w w' ∧ rt_attrs w' = rt_attrs w ∧
    locks w' = locks w ∧ conn w' = conn w ∧ (good → st = 0) ∧ ∀ d', count_of w' d' = closed w d d'.
Proof.
  intros Hok [dev Hd].
  destruct (law_close (world_env w) (rt_clock w) dev) as (st&dev'&evs&Hr&Hs&Hc).
  destruct (run_device_wp d dev_close w dev st dev' evs) as (w'&?&?&?&?&?&?&Hn); [done..| |].
  { eapply same_device_ok; [by eapply ok_dev|done]. }
  exists st, w'. split_and!; try done.
  - intros [_ Hg]. by eapply Hg.
  - intros d'. rewrite Hn, Hc. unfold closed.
    assert (count_of w d = deviceCount dev) as -> by (unfold count_of; by rewrite Hd).
    destruct (decide (d' = d)) as [->|]; [|rewrite decide_False by done; lia].
    rewrite (decide_True (P := d = d)) by done.
    assert (count_of w d = deviceCount dev) as -> by (unfold count_of; by rewrite Hd).
    case_decide; lia.
Qed.

Lemma open_wp w d :
  ok w → dev_in d w →
  ∃ st w', open d w = Some (st, w') ∧ ok w' ∧ grows w w' ∧ rt_attrs w' = rt_attrs w ∧
    locks w' = locks w ∧ conn w' = conn w ∧
    ∀ d', count_of w' d' = count_of w d' + if decide (d = d' ∧ st = 0) then 1 else 0.
Proof.
  intros Hok [dev Hd]. destruct (law_open w dev) as [[[st dev'] evs] Hr].
  destruct (run_device_wp d (λ E _, @Device.open E) w dev st dev' evs)
    as (w'&?&?&?&?&?&?&Hn); [done..| |].
  { eapply same_device_ok; [by eapply ok_dev|by eapply open_same]. }
  exists st, w'. split_and!; try done.
  intros d'. rewrite Hn. apply open_spec in Hr.
  destruct (decide (d' = d)) as [->|]; [|rewrite decide_False by naive_solver; lia].
  assert (count_of w d = deviceCount dev) as -> by (unfold count_of; by rewrite Hd).
  destruct Hr as [_ [(?&?&?&_)|(?&?&_)]].
  - rewrite decide_False by naive_solver. lia.
  - rewrite decide_True by done. lia.
Qed.

(** ** Atoms *)

(** A stream that is idle, or whose sound card is down, uses no device. *)
Lemma spec_conn_unused L s f st devs :
  st = STREAM_IDLE ∨ ¬ good →
  spec stays (λ w, conn w !! s = Some (st, devs) ∧ ∀ d, d ∈ f devs → d ∈ devs ∨ dev_in d w) L
    (upd_stream s (λ o, set_mDevices (f (mDevices o)) o)) L (λ _ _, True).
Proof.
  intros Hst w Hok HL [Hs Hf].
  destruct (set_conn_ok w s st devs f) as (Hok'&Hg&Ha&HL'&Hc&Hn); [done..|].
  eexists _, _. split; [done|]. split_and!; [done| |by rewrite HL'|done].
  eapply stays_intro; [done..| |exact Hs|exact Hc|naive_solver|done|naive_solver].
  intros d Hd. destruct (Hf d Hd); [|done]. by eapply ok_conn.
Qed.

Lemma spec_idle_or_down L o :
  spec calm any L (idle_or_down o) L (λ b _,
    if b : bool then currentState o = STREAM_IDLE ∨ ¬ card_up else currentState o ≠ STREAM_IDLE).
Proof.
  unfold idle_or_down, st_or. case_bool_decide as Hi.
  { apply triple_ret; [apply _|]. auto. }
  unfold card_down.
  eapply (triple_bind _ _ any _ _ L (λ r _, PAL_CARD_STATUS_DOWN r = true → ¬ card_up));
    [apply _..| |done|].
  { apply spec_step; [apply _|]. intros w Hok <- _. eexists _, _. split; [done|].
    split_and!; [by eapply ok_fields; [..|exact Hok]|by apply calm_fields|done|].
    intros Hr Hgd. by rewrite Hgd in Hr. }
  intros r. apply triple_ret; [apply _|]. intros w [_ Hr]. destruct (PAL_CARD_STATUS_DOWN r); auto.
Qed.

Lemma spec_stream_conn L s :
  spec calm (str s) L (stream s) L (λ o w, known s o w ∧
    conn w !! s = Some (currentState o, mDevices o)).
Proof.
  apply spec_query; [apply _|]. intros w Hok <- [o Ho].
  exists o. split; [done|]. split; [by apply known_ok|].
  unfold conn. by rewrite lookup_fmap, Ho.
Qed.

Lemma spec_opt {A} R `{!Rel R} P L (b : bool) (m : St RtWorld A) x :
  spec R P L m L (λ _ _, True) → spec R P L (if b then m else st_ret x) L (λ _ _, True).
Proof. intros Hm. destruct b; [done|]. by sp_ret. Qed.

Lemma spec_session_call R `{!Rel R} L f ev s d :
  spec R (str s) L (session_call f ev s d) L (λ _ _, True).
Proof.
  unfold session_call. sp_bind (apply spec_stream) as o. sp_bind (apply spec_log) as u.
  eapply spec_pre; [|by apply spec_ask]. done.
Qed.

Tactic Notation "sp_calm" tactic3(H) "as" simple_intropattern(x) :=
  eapply spec_bind_calm; [apply _|H; try sp_rel|sp_side; fail|intros x; cbn beta].

(** ** Disconnection *)

(** The outcome of a disconnection: an error leaves the stream its devices. *)
Definition left_at (s : positive) (st : stream_state_t) (devs : list positive) (i : nat)
    (r : Z) (w : RtWorld) : Prop :=
  conn w !! s = Some (st, if decide (r = 0) then delete i devs else devs).

(** The end of the disconnection: the device is closed and taken off the stream. *)
Lemma spec_close_delete a ms s st devs i d :
  st ≠ STREAM_IDLE → devs !! i = Some d →
  spec stays (λ w, conn w !! s = Some (st, devs) ∧ dev_in d w) (a, true, ms)
    (status <-- close d ;;
     if decide (status ≠ 0) then unlockGraph ;;;; st_ret status
     else
       upd_stream s (λ o, set_mDevices (delete i (mDevices o)) o) ;;;;
       unlockGraph ;;;; checkAndSetDutyCycleParam ;;;; st_ret 0)
    (a, false, ms) (left_at s st devs i).
Proof.
  intros Hst Hi w Hok HL [Hs Hd]. apply st_wp_bind.
  pose proof (delete_Permutation _ _ _ Hi) as Hp.
  destruct (close_wp w d Hok Hd) as (r&w1&Hr&Hok1&Hg1&Ha1&HL1&Hc1&Hgood&Hn1).
  exists r, w1. split; [done|]. rewrite HL in HL1. case_decide as Hr0.
  - apply (spec_from (λ w, conn w !! s = Some (st, devs)) (a, true, ms));
      [|constructor; [done|by intros ? ? _; rewrite Ha1|naive_solver..]|done..|by rewrite Hc1].
    sp_calm (apply spec_unlockGraph) as u. apply triple_ret; [apply _|].
    intros w' [? _]. unfold left_at. by rewrite decide_False.
  - apply st_wp_bind. eexists _, _. split; [done|].
    destruct (set_conn_ok w1 s st devs (delete i)) as (Hok2&Hg2&Ha2&HL2&Hc2&Hn2).
    { done. } { by rewrite Hc1. }
    { intros x Hx. left. rewrite Hp. by right. }
    apply (spec_from (λ w, conn w !! s = Some (st, delete i devs)) (a, true, ms));
      [| |done|by rewrite HL2|by rewrite Hc2; apply lookup_insert_eq].
    { sp_calm (apply spec_unlockGraph) as u.
      sp_calm (apply spec_checkAndSetDutyCycleParam) as v. apply triple_ret; [apply _|].
      by intros w' [[? _] _]. }
    apply (stays_intro w _ s st devs (delete i devs)); try done.
    + by etrans.
    + intros x Hx. apply (ok_conn _ Hok _ _ x Hs). cbn. rewrite Hp. by right.
    + by rewrite Hc2, Hc1.
    + intros _ Hf _ x. rewrite Hn2, Hn1. unfold closed.
      rewrite (uses_perm x _ _ Hp), uses_cons.
      rewrite (decide_True (P := 0 < _)); [lia|]. eapply fair_count; [done..|].
      by eapply list_elem_of_lookup_2.
    + intros _ _. by apply NoDup_less with d.
Qed.

Lemma spec_disconnect_found a ms s o i d :
  currentState o ≠ STREAM_IDLE → mDevices o !! i = Some d →
  spec stays (λ w, conn w !! s = Some (currentState o, mDevices o) ∧ dev_in d w ∧ str s w)
    (a, false, ms) (disconnect_found s o i d) (a, false, ms)
    (left_at s (currentState o) (mDevices o) i).
Proof.
  intros Hst Hi. unfold disconnect_found.
  sp_calm (apply spec_opt; [apply _|]; apply spec_deregisterDevice) as u.
  sp_calm (apply spec_getSndDeviceId) as id.
  sp_calm (apply spec_opt; [apply _|]; apply spec_dev_stop) as status.
  assert (∀ (r : Z) w, r ≠ 0 → conn w !! s = Some (currentState o, mDevices o) →
    left_at s (currentState o) (mDevices o) i r w) as Herr.
  { intros r w Hr Hc. unfold left_at. by rewrite decide_False. }
  apply spec_decide; intros Hr; [apply triple_ret; [apply _|]; intros w HP; destruct_and? HP; auto|].
  sp_calm (apply spec_lockGraph) as u'.
  sp_calm (apply spec_session_call) as status'.
  apply spec_decide; intros ?.
  { sp_calm (apply spec_unlockGraph) as u2. apply triple_ret; [apply _|].
    intros w HP. destruct_and? HP. auto. }
  sp_calm (apply spec_getSndDeviceId) as id'.
  sp_calm (apply spec_opt; [apply _|]; apply spec_dev_stop) as status2.
  apply spec_decide; intros ?.
  { sp_calm (apply spec_unlockGraph) as u2. apply triple_ret; [apply _|].
    intros w HP. destruct_and? HP. auto. }
  eapply spec_pre; [|by eapply spec_close_delete]. sp_side.
Qed.

Lemma spec_base_disconnect a ms s id :
  spec stays (str s) (a, false, ms) (base_disconnect s id) (a, false, ms) (λ _ _, True).
Proof.
  unfold base_disconnect. sp_calm (apply spec_stream_conn) as o.
  sp_calm (apply spec_idle_or_down) as unused.
  sp_calm (apply (triple_gets _ any _ _ (λ r _, ∀ i d, r = Some (i, d) → mDevices o !! i = Some d))) as r.
  { intros w _ _ _ i d Hr. by apply list_find_Some in Hr as [? _]. }
  destruct unused.
  - apply (spec_pure _ _ _ (currentState o = STREAM_IDLE ∨ ¬ good));
      [intros w [[_ [?|Hd]] _]; [by left|right; by intros [? _]]|].
    intros Hst. apply (spec_pre _ (λ w, conn w !! s = Some (currentState o, mDevices o)));
      [sp_side|].
    eapply (triple_seq _ _ _ _ _ (λ _ _, True)); [|intros u; apply triple_ret; [apply _|done]].
    destruct r as [[i d]|]; [|by apply triple_ret; [apply _|]].
    eapply spec_weaken; [apply (spec_conn_unused _ s (delete i) (currentState o) (mDevices o) Hst)| |done].
    intros w Hs. split; [done|]. intros x Hx. left. eapply elem_of_submseteq; [done|].
    apply sublist_submseteq, sublist_delete.
  - apply (spec_pure _ _ _ (currentState o ≠ STREAM_IDLE)); [by intros w [[_ ?] _]|]. intros Hst.
    destruct r as [[i d]|].
    + apply (spec_pure _ _ _ (mDevices o !! i = Some d)); [intros w [_ Hr]; by apply Hr|].
      intros Hi. eapply spec_weaken; [by apply spec_disconnect_found| |done].
      intros w [[[Hs [[_ Hd] Hc]] _] _]. split_and!; [done| |done]. apply Hd.
      apply elem_of_app. left. by eapply list_elem_of_lookup_2.
    + sp_calm (apply spec_checkAndSetDutyCycleParam) as u. apply triple_ret; [apply _|done].
Qed.

(** Sound trigger streams: the law, and nothing is said of the counts. *)
Lemma spec_law a ms s (m : St RtWorld Z) (Q : RtWorld → Prop) :
  (∀ w, ok w → mGraphMutex w = false → str s w → Q w →
     st_wp m (λ _ w', foreign w w') w) →
  spec stays (λ w, str s w ∧ Q w ∧ ∃ x, static w !! s = Some (true, x)) (a, false, ms) m
    (a, false, ms) (λ _ _, True).
Proof.
  intros Hm w Hok HL (Hs&HQ&x&Hx). eapply st_wp_mono.
  { apply Hm; [done| |done|done]. by injection HL. }
  cbn beta. intros r w' [Hok' Hg Ha HL']. split_and!; [done| |congruence|done].
  constructor; [done|auto|..]; intros _ Hn; specialize (Hn _ _ Hx); by simpl in Hn.
Qed.

Lemma spec_disconnectStreamDevice_l a ms s id :
  spec stays (str s) (a, false, ms) (disconnectStreamDevice_l s id) (a, false, ms) (λ _ _, True).
Proof.
  unfold disconnectStreamDevice_l. sp_calm (apply spec_stream_conn) as o.
  destruct (rs_detection o) eqn:Hdet; [|eapply spec_pre; [|apply spec_base_disconnect]; sp_side].
  eapply spec_pre; [|apply (spec_law _ _ s _ (λ _, True))].
  - intros w [Hs [[Ho _] _]]. split_and!; [done..|]. rewrite Hdet in Ho. by eexists.
  - intros w Hok Hg Hs _. by apply law_detection_disconnect.
Qed.

Lemma spec_disconnectStreamDevice a ms s id X :
  s ∉ X → spec stays (str s) (a, false, held X ms) (disconnectStreamDevice s id) (a, false, held X ms)
            (λ _ _, True).
Proof.
  intros Hs. unfold disconnectStreamDevice. sp_bind (apply spec_lockStream; try done) as u.
  sp_bind (apply spec_disconnectStreamDevice_l) as status.
  replace X with (({[s]} ∪ X) ∖ {[s]}) at 2 by set_solver.
  sp_bind (apply spec_unlockStream; [|set_solver]) as u'. by sp_ret.
Qed.

(** ** Connection *)

(** The back end of [d] is not that of a device in the list, whichever ids they have. *)
Definition apart (devs : list positive) (d : positive) : Prop :=
  ∀ x i j, x ∈ devs → object_of i = Some x → object_of j = Some d →
    listAllBackEndIds i ≠ listAllBackEndIds j.

Lemma same_backend_apart w devs d cur :
  ok w → (∀ x, x ∈ devs → dev_in x w) → dev_in d w →
  same_backend (backend_of w d) cur devs w = false → apart devs d.
Proof.
  intros Hok. revert cur. induction devs as [|y devs IH]; intros cur Hin Hd Hb x i j Hx Hi Hj.
  { by apply elem_of_nil in Hx. }
  simpl in Hb. apply orb_false_iff in Hb as [Hy Hb]. apply elem_of_cons in Hx as [->|Hx].
  2:{ eapply IH; try done. intros z Hz. apply Hin. by right. }
  apply bool_decide_eq_false in Hy. destruct (Hin y) as [dev Hdev]; [by left|].
  rewrite <- (backend_object w y i Hok (mk_is_Some _ _ Hdev) Hi).
  rewrite <- (backend_object w d j Hok Hd Hj).
  intros He. apply Hy. rewrite <- He.
  unfold backend_of, snd_id. rewrite Hdev.
  destruct (law_object _ _ (dev_own _ _ (ok_snd _ _ _ Hok Hdev))) as [Hv Hn].
  unfold getBackendName. rewrite Hv. by rewrite bool_decide_eq_true_2.
Qed.

Lemma apart_NoDup w devs d :
  ok w → (∀ x, x ∈ devs → dev_in x w) → dev_in d w → apart devs d →
  NoDup (backend_of w <$> devs) → NoDup (backend_of w <$> devs ++ [d]).
Proof.
  intros Hok Hin [dev Hd] Ha Hnd. rewrite fmap_app. apply NoDup_app. split_and!; [done| |].
  - intros b Hb Hb'. apply list_elem_of_fmap in Hb as (x&->&Hx).
    apply list_elem_of_singleton in Hb'. destruct (Hin x Hx) as [devx Hdx].
    pose proof (dev_own _ _ (ok_snd _ _ _ Hok Hd)) as Hj.
    pose proof (dev_own _ _ (ok_snd _ _ _ Hok Hdx)) as Hi.
    apply (Ha x _ _ Hx Hi Hj).
    rewrite <- (backend_object w x _ Hok (mk_is_Some _ _ Hdx) Hi).
    by rewrite <- (backend_object w d _ Hok (mk_is_Some _ _ Hd) Hj).
  - apply NoDup_singleton.
Qed.

Lemma uses_snoc d x l : uses d (l ++ [x]) = (if decide (x = d) then 1 else 0) + uses d l.
Proof. rewrite <- uses_cons. apply uses_perm. by rewrite Permutation_app_comm. Qed.

(** The outcome of a connection: the device is the stream's, or there is an error. *)
Definition outcome (s : positive) (st : stream_state_t) (devs : list positive) (d : positive)
    (r : Z) (w : RtWorld) : Prop :=
  conn w !! s = Some (st, devs ++ [d]) ∧
    (r = 0 ∨ r = - ENETRESET ∨ IsChargeConcurrencyEnabled = true) ∨
  conn w !! s = Some (st, devs) ∧ r ≠ 0.

Lemma spec_open_push L L2 s d st devs k :
  st ≠ STREAM_IDLE → apart devs d →
  spec stays (λ w, conn w !! s = Some (st, devs ++ [d]) ∧ dev_in d w ∧ str s w) L k L2 (outcome s st devs d) →
  L2 = L →
  spec stays (λ w, conn w !! s = Some (st, devs) ∧ dev_in d w ∧ str s w) L
    (status <-- open d ;;
     if decide (status ≠ 0) then st_ret status
     else upd_stream s (λ o, set_mDevices (mDevices o ++ [d]) o) ;;;; k) L2 (outcome s st devs d).
Proof.
  intros Hst Hap Hk -> w Hok HL (Hs&Hd&Hstr). apply st_wp_bind.
  destruct (open_wp w d Hok Hd) as (r&w1&Hr&Hok1&Hg1&Ha1&HL1&Hc1&Hn1).
  exists r, w1. split; [done|]. rewrite HL in HL1. destruct (decide (r ≠ 0)) as [Hr0|Hr0].
  - apply st_wp_ret. split_and!; [done| |done|right; by rewrite Hc1]. apply R_calm; [done..|].
    constructor; [done..| |by intros ? ? _; rewrite Ha1]. intros d'. rewrite Hn1, decide_False by naive_solver. lia.
  - apply dec_stable in Hr0 as ->. apply st_wp_bind. eexists _, _. split; [done|].
    destruct (set_conn_ok w1 s st devs (λ l, l ++ [d])) as (Hok2&Hg2&Ha2&HL2&Hc2&Hn2).
    { done. } { by rewrite Hc1. }
    { intros x [Hx|Hx%list_elem_of_singleton]%elem_of_app; [by left|right]. subst.
      by apply (g_dev _ _ Hg1). }
    pose proof (g_dev _ _ Hg2 d (g_dev _ _ Hg1 d Hd)) as Hd2.
    assert (∀ x, x ∈ devs → dev_in x w) as Hin by (intros x Hx; by eapply ok_conn).
    apply (spec_from _ _ _ _ _ w _ Hk); [|done|by rewrite HL2|].
    2:{ rewrite Hc2. split_and!; [apply lookup_insert_eq|done|].
        rewrite str_static, (g_static _ _ Hg2), (g_static _ _ Hg1). by apply str_static. }
    apply (stays_intro w _ s st devs (devs ++ [d])); try done.
    + by etrans.
    + intros x [Hx|Hx%list_elem_of_singleton]%elem_of_app; [auto|by subst].
    + by rewrite Hc2, Hc1.
    + intros _ _ _ x. rewrite Hn2, Hn1, uses_snoc.
      destruct (decide (d = x)); [rewrite decide_True by done|rewrite decide_False by naive_solver]; lia.
    + intros _ _. by apply apart_NoDup.
Qed.

(** A device that was opened is given back. *)
Lemma spec_fail_close L s d st devs status :
  st ≠ STREAM_IDLE →
  status ≠ 0 →
  spec stays (λ w, conn w !! s = Some (st, devs ++ [d]) ∧ dev_in d w) L (fail_close s d status) L
    (outcome s st devs d).
Proof.
  intros Hst Hs0 w Hok HL [Hs Hd]. unfold fail_close. case_decide.
  { apply st_wp_ret. split_and!; [done|reflexivity|done|]. left. auto. }
  apply st_wp_bind. eexists _, _. split; [done|].
  destruct (set_conn_ok w s st (devs ++ [d]) (λ l, removelast l)) as (Hok1&Hg1&Ha1&HL1&Hc1&Hn1); [done..| |].
  { rewrite removelast_last. set_solver. }
  set (w1 := set_rt_streams _ w) in *. apply st_wp_bind.
  destruct (close_wp w1 d Hok1 (g_dev _ _ Hg1 _ Hd)) as (r&w2&Hr&Hok2&Hg2&Ha2&HL2&Hc2&_&Hn2).
  exists r, w2. split; [done|]. rewrite removelast_last in Hc1.
  apply st_wp_ret. split_and!; [done| |by rewrite HL2, HL1|].
  2:{ right. split; [|done]. rewrite Hc2, Hc1. apply lookup_insert_eq. }
  apply (stays_intro w w2 s st (devs ++ [d]) devs); try done.
  - by etrans.
  - intros x Hx. apply (ok_conn _ Hok _ _ x Hs). set_solver.
  - by rewrite Hc2, Hc1.
  - intros _ Hf _ x. rewrite Hn2, uses_snoc. unfold closed. rewrite !Hn1.
    rewrite (decide_True (P := 0 < _)); [lia|]. eapply fair_count; [done..|]. set_solver.
  - intros _ _. apply NoDup_less with d. by rewrite Permutation_app_comm.
Qed.

Definition opened (s d : positive) (st : stream_state_t) (devs : list positive) (w : RtWorld) :
  Prop := conn w !! s = Some (st, devs ++ [d]) ∧ dev_in d w ∧ str s w.
#[local] Instance stable_opened s d st devs : Stable calm (opened s d st devs).
Proof. unfold opened. apply _. Qed.

Lemma spec_fail_stop L s d st devs status :
  st ≠ STREAM_IDLE → status ≠ 0 →
  spec stays (opened s d st devs) L (fail_stop s d status) L (outcome s st devs d).
Proof.
  intros Hst Hs0. unfold fail_stop.
  eapply (spec_bind_calm _ (dev_in d) _ _ L (λ _ _, True)); [apply _|..].
  - apply spec_decide; intros _; [by sp_ret|apply spec_dev_stop, _].
  - by intros w (?&?&?).
  - intros r. cbn beta. eapply spec_pre; [|by apply spec_fail_close]. by intros w [(?&?&?) _].
Qed.

Lemma spec_limiter_after L s id :
  spec calm any L (limiter_after s id) L (λ r _, r = 0 ∨ IsChargeConcurrencyEnabled = true).
Proof.
  unfold limiter_after, st_and.
  eapply (triple_bind _ _ any _ _ L (λ b _, b = true → IsChargeConcurrencyEnabled = true));
    [apply _| |done|].
  - apply triple_if; [|by intros _; sp_ret]. intros [Hc _]%andb_prop. rewrite Hc.
    sp_bind (apply spec_ask) as boost.
    destruct boost; [|by sp_ret]. sp_bind (apply spec_ask) as l.
    destruct (negb l); [|by sp_ret]. eapply spec_weaken; [by apply spec_ask, _|done..].
  - intros b. destruct b; [|by sp_ret; auto].
    apply spec_take. intros Hc. sp_bind (apply spec_log) as u.
    eapply spec_weaken; [by apply spec_ask, _|done|]. auto.
Qed.

Lemma spec_boost_before L id : spec calm any L (boost_before id) L (λ _ _, True).
Proof.
  unfold boost_before, st_and.
  eapply (triple_bind _ _ any _ _ L (λ _ _, True)); [apply _| |done|].
  - destruct (_ && _); [|by sp_ret]. sp_bind (apply spec_ask) as boost.
    destruct (negb boost); [|by sp_ret]. sp_bind (apply spec_ask) as l. by sp_ret.
  - intros b. destruct b; [|by sp_ret]. sp_bind (apply spec_log) as u.
    sp_bind (apply spec_ask) as v. by sp_ret.
Qed.

Lemma spec_connect_session a ms s o d devs :
  currentState o ≠ STREAM_IDLE →
  spec stays (opened s d (currentState o) devs) (a, true, ms) (connect_session s o d) (a, false, ms)
    (outcome s (currentState o) devs d).
Proof.
  intros Hst. unfold connect_session. eapply spec_bind_calm; [apply _|apply spec_session_call, _| |].
  { by intros w (?&?&?). }
  intros status. cbn beta. apply spec_decide; intros Hs0.
  - sp_calm (apply spec_unlockGraph) as u. eapply spec_pre; [|by apply spec_fail_stop].
    by intros w [[? _] _].
  - sp_calm (apply spec_unlockGraph) as u.
    sp_calm (apply spec_opt; [apply _|]; apply spec_registerDevice) as u'.
    sp_calm (apply spec_checkAndSetDutyCycleParam) as u2.
    eapply (spec_bind_calm _ (dev_in d)); [apply _|apply spec_getSndDeviceId, _| |].
    { by intros w [[[[(?&?&?) _] _] _] _]. }
    intros id. cbn beta. apply spec_calm. eapply spec_weaken;
      [apply (spec_frame _ any (opened s d (currentState o) devs)); [apply _|apply spec_limiter_after]| |].
    + by intros w [[[[[? _] _] _] _] _].
    + intros r w [? [? _]]. left. naive_solver.
Qed.

Lemma spec_connect_device a ms s o d :
  currentState o ≠ STREAM_IDLE → apart (mDevices o) d →
  spec stays (λ w, conn w !! s = Some (currentState o, mDevices o) ∧ dev_in d w ∧ str s w)
    (a, false, ms) (connect_device s o d) (a, false, ms)
    (outcome s (currentState o) (mDevices o) d).
Proof.
  intros Hst Hap. unfold connect_device. sp_calm (apply spec_getSndDeviceId) as id.
  sp_calm (apply spec_boost_before) as u.
  eapply spec_pre; [|eapply (spec_open_push _ _ _ _ _ _ _ Hst Hap); [|done]]; [sp_side|].
  apply (spec_pre _ (opened s d (currentState o) (mDevices o))); [done|].
  sp_calm (apply spec_lockGraph) as u'.
  eapply (spec_bind_calm _ (str s)); [apply _|apply spec_session_call, _|by intros w [(?&?&?) _]|].
  intros status. cbn beta. apply spec_decide; intros ?.
  { sp_calm (apply spec_unlockGraph) as u2. eapply spec_pre; [|by apply spec_fail_close].
    by intros w [[[(?&?&?) _] _] _]. }
  eapply (spec_bind_calm _ (dev_in d)); [apply _|apply spec_getSndDeviceId, _| |].
  { by intros w [[(?&?&?) _] _]. }
  intros id'. cbn beta. apply (spec_pre _ (opened s d (currentState o) (mDevices o))).
  { by intros w [[[? _] _] _]. }
  apply triple_if; intros _.
  - eapply (spec_bind_calm _ (dev_in d)); [apply _|apply spec_dev_start, _|by intros w (?&?&?)|].
    intros status'. cbn beta. apply spec_decide; intros ?.
    + sp_calm (apply spec_unlockGraph) as u2. eapply spec_pre; [|by apply spec_fail_close].
      by intros w [[(?&?&?) _] _].
    + eapply spec_pre; [|by apply spec_connect_session]. by intros w [? _].
  - apply triple_if; intros _; [|by apply spec_connect_session].
    sp_calm (apply spec_unlockGraph) as u2. apply triple_ret; [apply _|].
    intros w [[? _] _]. left. auto.
Qed.

Lemma spec_usb_exit R `{!Rel R} L d status :
  spec R (dev_in d) L (usb_exit d status) L
    (λ r _, r = status ∨ status ≠ 0 ∧ r = - ENOSYS).
Proof.
  unfold usb_exit. sp_bind (apply spec_getSndDeviceId) as id.
  apply spec_decide; intros Hs; [|sp_ret; intros; lia]. apply triple_if; intros _; [|by sp_ret; auto].
  sp_bind (apply spec_ask) as b. sp_ret. intros w _. destruct b; auto.
Qed.

Lemma same_backend_shared w devs d cur :
  ok w → (∀ x, x ∈ devs → dev_in x w) → dev_in d w →
  same_backend (backend_of w d) cur devs w = true → ¬ apart devs d.
Proof.
  intros Hok. revert cur. induction devs as [|y devs IH]; intros cur Hin Hd Hb Ha; [done|].
  simpl in Hb. apply orb_true_iff in Hb as [Hy|Hb].
  2:{ apply (IH _ (λ z Hz, Hin z (list_elem_of_further _ _ _ Hz)) Hd Hb).
      intros x i j Hx. apply Ha. by right. }
  apply bool_decide_eq_true in Hy.
  destruct (Hin y) as [dev Hdev]; [by left|]. pose proof Hd as [dev' Hdev'].
  pose proof (dev_own _ _ (ok_snd _ _ _ Hok Hdev)) as Hi.
  pose proof (dev_own _ _ (ok_snd _ _ _ Hok Hdev')) as Hj.
  apply (Ha y _ _ (list_elem_of_here _ _) Hi Hj).
  rewrite <- (backend_object w y _ Hok (mk_is_Some _ _ Hdev) Hi).
  rewrite <- (backend_object w d _ Hok Hd Hj), Hy.
  unfold backend_of, snd_id. rewrite Hdev. unfold getBackendName.
  destruct (law_object _ _ Hi) as [-> Hn]. by rewrite bool_decide_eq_true_2.
Qed.

Lemma spec_shares_backend L o d :
  spec calm (λ w, dev_in d w ∧ ∀ x, x ∈ mDevices o → dev_in x w) L (st_gets (shares_backend o d)) L
    (λ b _, if b : bool then ¬ apart (mDevices o) d else apart (mDevices o) d).
Proof.
  apply triple_gets; [apply _|]. intros w Hok _ [Hd Hin].
  destruct (shares_backend o d w) eqn:Hb; [by eapply same_backend_shared|by eapply same_backend_apart].
Qed.

(** The outcome for the caller. *)
Definition connected (s : positive) (st : stream_state_t) (devs : list positive) (d : positive)
    (r : Z) (w : RtWorld) : Prop :=
  conn w !! s = Some (st, devs ++ [d]) ∧ apart devs d ∧
    (r = 0 ∨ r = - ENETRESET ∨ r = - ENOSYS ∨ IsChargeConcurrencyEnabled = true) ∨
  conn w !! s = Some (st, devs) ∧ (r = 0 ∧ ¬ apart devs d ∨ r ≠ 0 ∧ apart devs d).

Lemma spec_connect_used a ms s o d :
  currentState o ≠ STREAM_IDLE →
  spec stays (λ w, (conn w !! s = Some (currentState o, mDevices o) ∧ dev_in d w ∧ str s w) ∧
                   ∀ x, x ∈ mDevices o → dev_in x w) (a, false, ms)
    (same <-- st_gets (shares_backend o d) ;;
     if same : bool then usb_exit d 0
     else status <-- connect_device s o d ;; usb_exit d status) (a, false, ms)
    (connected s (currentState o) (mDevices o) d).
Proof.
  intros Hst. eapply spec_bind_calm; [apply _|apply spec_shares_backend| |].
  { intros w [(?&?&?) ?]. by split. }
  intros same. cbn beta.
  assert (∀ st devs status, spec stays (λ w, conn w !! s = Some (st, devs) ∧ dev_in d w) (a, false, ms)
    (usb_exit d status) (a, false, ms) (λ r w, (r = status ∨ status ≠ 0 ∧ r = - ENOSYS) ∧
      conn w !! s = Some (st, devs))) as Hexit.
  { intros st devs status. apply spec_calm. eapply spec_pre;
      [|apply (spec_frame _ (dev_in d)); [apply _|apply spec_usb_exit, _]]. by intros w []. }
  destruct same.
  { apply (spec_pure _ _ _ (¬ apart (mDevices o) d)); [by intros w [_ ?]|]. intros Hap.
    eapply spec_weaken; [apply Hexit|by intros w [[(?&?&?) _] _]|].
    intros r w [[->|[? _]] Hc]; [|done]. right. auto. }
  apply (spec_pure _ _ _ (apart (mDevices o) d)); [by intros w [_ ?]|]. intros Hap.
  eapply triple_seq; [apply _| |].
  - eapply (spec_pre _ (λ w, _ ∧ dev_in d w));
      [|apply spec_frame; [apply _|]; by apply (spec_connect_device a ms s o d)].
    by intros w [[(?&?&?) _] _].
  - intros status. cbn beta. intros w Hok HL [[[Hc Hr]|[Hc Hr]] Hd].
    + eapply st_wp_mono; [by apply (Hexit _ _ status w Hok HL (conj Hc Hd))|]. cbn beta.
      intros r w' (?&?&?&Hst'&?). split_and!; [done..|]. left. split_and!; [done..|].
      destruct Hst' as [->|[? ->]]; tauto.
    + eapply st_wp_mono; [by apply (Hexit _ _ status w Hok HL (conj Hc Hd))|]. cbn beta.
      intros r w' (?&?&?&Hst'&?). split_and!; [done..|]. right. split; [done|]. right.
      split; [|done]. destruct Hst' as [->|[? ->]]; [done|]. done.
Qed.

Lemma spec_base_connect b ms s a :
  spec stays (λ w, str s w ∧ attr_in a w) (b, false, ms) (base_connect s a) (b, false, ms)
    (λ _ _, True).
Proof.
  unfold base_connect. sp_calm (apply spec_attr) as dattr.
  apply (spec_pure _ _ _ (in_deviceNameLUT (dev_id dattr) = true)); [by intros w [_ ?]|]. intros Hl.
  sp_calm (apply spec_getInstance; [|done]) as dev.
  destruct dev as [d|]; [|apply triple_ret; [apply _|done]].
  apply (spec_pure _ _ _ (object_of (dev_id dattr) = Some d)).
  { intros w [_ [_ Hd]]. by apply Hd. }
  intros Ho. apply (spec_pre _ (λ w, str s w ∧ dev_in d w)).
  { intros w [[[Hs _] _] [_ Hd]]. split; [done|]. by apply Hd. }
  sp_calm (apply spec_setDeviceAttributes; [|done]) as u.
  sp_calm (apply spec_stream_conn) as o. sp_calm (apply spec_idle_or_down) as unused.
  destruct unused.
  - apply (spec_pure _ _ _ (currentState o = STREAM_IDLE ∨ ¬ good));
      [intros w [_ [?|Hd]]; [by left|right; by intros [? _]]|].
    intros Hst. eapply triple_seq; [apply _| |].
    + eapply (spec_pre _ (λ w, _ ∧ dev_in d w)); [|apply spec_frame; [apply _|];
        apply (spec_conn_unused _ s (λ l, l ++ [d]) (currentState o) (mDevices o) Hst)].
      intros w [[[[_ Hd] _] [_ Hc]] _]. split_and!; [done| |done].
      intros x [?|Hx%list_elem_of_singleton]%elem_of_app; [by left|subst; by right].
    + intros r. eapply spec_weaken; [by apply spec_usb_exit, _|by intros w [_ ?]|done].
  - apply (spec_pure _ _ _ (currentState o ≠ STREAM_IDLE)); [by intros w [_ ?]|]. intros Hst.
    eapply spec_weaken; [by apply spec_connect_used| |done].
    intros w [[[[? ?] _] [[_ Hk] ?]] _]. split_and!; try done. intros x Hx. apply Hk.
    apply elem_of_app. by left.
Qed.

(** With the sound card up and the stream not idle, in terms of the state before. *)
Lemma spec_base_connect_outcome b ms s a v st devs d :
  card_up → st ≠ STREAM_IDLE → object_of (dev_id v) = Some d →
  spec stays (λ w, conn w !! s = Some (st, devs) ∧ rt_attrs w !! a = Some v) (b, false, ms)
    (base_connect s a) (b, false, ms) (connected s st devs d).
Proof.
  intros Hup Hst Ho. apply (spec_pre_ok _ (λ w, (conn w !! s = Some (st, devs) ∧
    rt_attrs w !! a = Some v ∧ str s w) ∧ in_deviceNameLUT (dev_id v) = true)).
  { intros w Hok [Hc Ha]. split_and!; [done|done| |by eapply ok_attr].
    unfold conn in Hc. rewrite lookup_fmap in Hc. apply fmap_Some in Hc as (o&Hs&_). by eexists. }
  apply spec_take. intros Hl. unfold base_connect.
  eapply triple_seq; [apply _| |].
  { apply spec_calm. apply (spec_pre _ (λ w, rt_attrs w !! a = Some v ∧
      (conn w !! s = Some (st, devs) ∧ str s w))); [by intros w (?&?&?)|].
    apply spec_frame; [apply _|]. apply (spec_attr_eq _ _ _ v). }
  intros dattr. apply (spec_pre _ (λ w, (conn w !! s = Some (st, devs) ∧ str s w) ∧ dattr = v));
    [by intros w (?&?&?)|].
  apply spec_take. intros ->. sp_calm (apply spec_getInstance; [|done]) as dev.
  apply (spec_pre _ (λ w, (conn w !! s = Some (st, devs) ∧ str s w ∧ dev_in d w) ∧ dev = Some d)).
  { intros w [[? ?] [Hdev Hd]]. rewrite decide_False, Ho in Hdev by (by apply (law_object _ _ Ho)).
    split_and!; [done|done| |done]. by apply Hd. }
  apply spec_take. intros ->. sp_calm (apply spec_setDeviceAttributes; [|done]) as u.
  sp_calm (apply spec_stream_conn) as o. sp_calm (apply spec_idle_or_down) as unused.
  apply (spec_pre _ (λ w, ((conn w !! s = Some (currentState o, mDevices o) ∧ dev_in d w ∧ str s w) ∧
    ∀ x, x ∈ mDevices o → dev_in x w) ∧ (unused = false ∧ (currentState o, mDevices o) = (st, devs)))).
  { intros w [[[(Hc&?&?) _] [[_ Hk] Hc']] Hu]. rewrite Hc in Hc'. injection Hc' as -> ->.
    split_and!; try done.
    - intros x Hx. apply Hk, elem_of_app. by left.
    - destruct unused; [|done]. by destruct Hu. }
  apply spec_take. intros [-> [= <- <-]]. by apply spec_connect_used.
Qed.

Lemma spec_connectStreamDevice_l b ms s a :
  spec stays (λ w, str s w ∧ attr_in a w) (b, false, ms) (connectStreamDevice_l s a) (b, false, ms)
    (λ _ _, True).
Proof.
  unfold connectStreamDevice_l. sp_calm (apply spec_stream_conn) as o.
  destruct (rs_detection o) eqn:Hdet; [|eapply spec_pre; [|apply spec_base_connect]; sp_side].
  eapply spec_pre; [|apply (spec_law _ _ s _ (attr_in a))].
  - intros w [[Hs Ha] [[Ho _] _]]. split_and!; [done..|]. rewrite Hdet in Ho. by eexists.
  - intros w Hok Hg Hs Ha. by apply law_detection_connect.
Qed.

Lemma spec_connectStreamDevice b ms s a X :
  s ∉ X → spec stays (λ w, str s w ∧ attr_in a w) (b, false, held X ms) (connectStreamDevice s a)
            (b, false, held X ms) (λ _ _, True).
Proof.
  intros Hs. unfold connectStreamDevice. sp_bind (apply spec_lockStream; try done) as u.
  sp_bind (apply spec_connectStreamDevice_l) as status.
  replace X with (({[s]} ∪ X) ∖ {[s]}) at 2 by set_solver.
  sp_bind (apply spec_unlockStream; [|set_solver]) as u'. by sp_ret.
Qed.
End conn.
