(* ===== verification/RoutingSwitch.v ===== *)
(** * Routing: switches

    Switches of many streams at once: the mutexes they take are given back, on every
    path. *)

From S2P Require Import Prelude PalDefs Users Device DeviceFacts RoutingState Routing RoutingPolicy.
From S2P Require Import RoutingFacts RoutingConn.

Local Open Scope st_scope.

(** ** Sorted lists without repetitions *)

Section unique.
Context {A : Type} `{EqDecision A} (R : A → A → Prop) `{!RelDecision R}.

Lemma elem_of_unique x (l : list A) : x ∈ unique l ↔ x ∈ l.
Proof.
  induction l as [|y [|z l] IH]; [done..|]. cbn [unique]. fold (unique (z :: l)).
  case_decide; subst; set_solver.
Qed.

Lemma SortAndUnique_elem x l : x ∈ SortAndUnique R l ↔ x ∈ l.
Proof. unfold SortAndUnique. by rewrite elem_of_unique, merge_sort_Permutation. Qed.

Lemma unique_NoDup `{!AntiSymm eq R} l : StronglySorted R l → NoDup (unique l).
Proof.
  induction 1 as [|x l Hl IH Hx]; [constructor|]. destruct l as [|y l]; [apply NoDup_singleton|].
  change (NoDup (if decide (x = y) then unique (y :: l) else x :: unique (y :: l))).
  case_decide as Hxy; [done|]. constructor; [|done]. rewrite elem_of_unique.
  intros [->|Hin]%elem_of_cons; [done|]. apply Hxy, (anti_symm R).
  - apply Forall_inv in Hx. done.
  - inversion Hl as [|?? _ Hy]; subst. rewrite Forall_forall in Hy. by apply Hy.
Qed.

Lemma SortAndUnique_NoDup `{!AntiSymm eq R, !Transitive R, !Total R} l : NoDup (SortAndUnique R l).
Proof.
  apply unique_NoDup. apply Sorted_StronglySorted; [done|]. apply Sorted_merge_sort, _.
Qed.
End unique.

#[local] Instance Pos_le_antisymm : AntiSymm eq Pos.le.
Proof. intros x y. lia. Qed.
#[local] Instance Pos_le_trans : Transitive Pos.le.
Proof. intros x y z. lia. Qed.
#[local] Instance Pos_le_total : Total Pos.le.
Proof. intros x y. lia. Qed.

Section switch.
Context `{RtEnv, !RtLaws} (K : positive → Prop) (ms : gmap positive bool).

Local Abbreviation stays := (RoutingFacts.stays K).

Abbreviation any := (λ _ : RtWorld, True).
Abbreviation active s := (λ w : RtWorld, Users.isStreamActive s (rt_users w) = true).

Lemma active_str w s : ok w → Users.isStreamActive s (rt_users w) = true → str s w.
Proof. intros Hok Hs%bool_decide_eq_true. by apply ok_active. Qed.

Lemma spec_for_status {A} P L (l : list A) body `{!Stable stays P} :
  (∀ x, x ∈ l → spec stays P L (body x) L (λ _ _, True)) →
  spec stays P L (for_status body l) L (λ _ _, True).
Proof.
  induction l as [|x l IH]; intros Hb; simpl; [by sp_ret|].
  eapply triple_bind; [apply _..|apply Hb; set_solver|done|]. intros r.
  apply spec_decide; intros _; [by sp_ret|].
  eapply spec_pre; [|apply IH; set_solver]. by intros w [].
Qed.

Lemma spec_if_active P L s m `{!Stable stays P} :
  spec stays (λ w, str s w ∧ P w) L m L (λ _ _, True) →
  spec stays P L (if_active s m) L (λ _ _, True).
Proof.
  intros Hm. unfold if_active.
  eapply (triple_bind _ _ any _ _ L (λ b w, b = true → active s w)); [apply _| |done|].
  { by apply triple_gets; [apply _|]. }
  intros b. destruct b; [|by sp_ret]. intros w Hok HL [HP Ha]. apply Hm; [done..|].
  split; [|done]. apply active_str; auto.
Qed.

Lemma spec_streamDevDisconnect_l a m l :
  spec stays any (a, false, m) (streamDevDisconnect_l l) (a, false, m) (λ _ _, True).
Proof.
  apply spec_for_status; [apply _|]. intros p _. apply spec_if_active; [apply _|].
  eapply spec_pre; [|apply spec_disconnectStreamDevice_l]. by intros w [].
Qed.

Definition attrs_in (l : list (positive * positive)) (w : RtWorld) : Prop :=
  ∀ p, p ∈ l → attr_in p.2 w.

Lemma filter_active s l u :
  filter (λ s, Users.isStreamActive s u) (s :: l) =
  if Users.isStreamActive s u then s :: filter (λ s, Users.isStreamActive s u) l
  else filter (λ s, Users.isStreamActive s u) l.
Proof. rewrite filter_cons. by destruct (Users.isStreamActive s u). Qed.

(** What the loop of connections gives back: the streams that were active, once. *)
Lemma spec_connect_loop u l : ∀ U C status,
  (∀ p, p ∈ l → Users.isStreamActive p.1 u = true → p.1 ∈ U) →
  spec stays (λ w, rt_users w = u ∧ attrs_in l w) (true, false, held (U ∖ C) ms)
    (connect_loop l C status)
    (true, false, held (U ∖ (C ∪ list_to_set (filter (λ s, Users.isStreamActive s u) l.*1))) ms)
    (λ _ _, True).
Proof.
  induction l as [|[s a] l IH]; intros U C status HU.
  { cbn. replace (C ∪ ∅) with C by set_solver. by sp_ret. }
  cbn [connect_loop]. sp_bind (apply spec_isStreamActive) as b.
  apply (spec_pure _ _ _ (b = Users.isStreamActive s u)); [by intros w [_ ?]|]. intros Hb.
  rewrite fmap_cons, filter_active. cbn [fst]. rewrite <- Hb. destruct b.
  2:{ eapply spec_pre; [|apply IH].
      - intros w [[? Ha] _]. split; [done|]. intros p Hp. apply Ha. by right.
      - intros p Hp. apply HU. by right. }
  cbn [list_to_set].
  apply (spec_pre_ok _ (λ w, rt_users w = u ∧ attrs_in l w ∧ attr_in a w ∧ str s w)).
  { intros w Hok [[<- Ha] _]. split_and!; [done|intros p Hp; apply Ha; by right| |].
    - apply (Ha (s, a)). by left.
    - by apply active_str. }
  sp_bind (apply spec_connectStreamDevice_l) as status'.
  apply (spec_pre _ (λ w, (rt_users w = u ∧ attrs_in l w) ∧ str s w)); [sp_side|].
  eapply (triple_bind _ _ (str s) _ _ (true, false, held (U ∖ ({[s]} ∪ C)) ms) (λ _ _, True)).
  { apply _. }
  { apply spec_decide; intros Hin.
    - replace (U ∖ ({[s]} ∪ C)) with (U ∖ C) by set_solver. by sp_ret.
    - replace (U ∖ ({[s]} ∪ C)) with ((U ∖ C) ∖ {[s]}) by set_solver.
      apply spec_unlockStream; [apply _|]. apply elem_of_difference. split; [|done].
      apply (HU (s, a)); [by left|done]. }
  { by intros w []. }
  intros []. cbn beta.
  replace (U ∖ (C ∪ ({[s]} ∪ _))) with
    (U ∖ (({[s]} ∪ C) ∪ list_to_set (filter (λ s, Users.isStreamActive s u) l.*1))) by set_solver.
  eapply spec_pre; [|apply IH]; [by intros w [[? _] _]|].
  intros p Hp. apply HU. by right.
Qed.

Lemma foldl_erase_elem l u x :
  NoDup l → NoDup (foldl (λ l s, erase_first s l) l u) ∧
  (x ∈ foldl (λ l s, erase_first s l) l u ↔ x ∈ l ∧ x ∉ (u : list positive)).
Proof.
  revert l. induction u as [|y u IH]; intros l Hl; simpl; [set_solver|].
  destruct (IH (erase_first y l)) as [Hn Hx]; [by apply erase_first_NoDup|].
  split; [done|]. rewrite Hx, erase_first_elem by done. set_solver.
Qed.

Lemma spec_end_switch l status :
  NoDup l →
  spec stays (strs l) (true, false, held (list_to_set l) ms) (end_switch l status)
    (false, false, held ∅ ms) (λ _ _, True).
Proof.
  intros Hl. unfold end_switch.
  eapply (triple_bind _ _ (strs l) _ _ (true, false, held ∅ ms) (λ _ _, True)); [unfold strs; apply _| |done|].
  - apply (spec_for _ _ _ _ (λ l, (true, false, held (list_to_set l) ms))).
    intros l1 s l2 ->. replace (list_to_set l2 : gset positive)
      with (list_to_set (s :: l2) ∖ {[s]} : gset positive).
    + eapply spec_pre; [|apply spec_unlockStream; [apply _|set_solver]].
      intros w Hw. apply Hw. set_solver.
    + apply NoDup_app in Hl as (_&_&[Hs _]%NoDup_cons). cbn [list_to_set].
      apply set_eq. intros x. rewrite elem_of_difference, elem_of_union, !elem_of_list_to_set.
      rewrite elem_of_singleton. split; [tauto|]. intros Hx. split; [tauto|]. by intros ->.
  - intros []. sp_bind (apply spec_upd_fields; [|done]) as u.
    sp_bind (apply spec_unlockActive) as u'. by sp_ret.
Qed.

Lemma spec_notify_adm L s : spec stays (str s) L (notify_adm s) L (λ _ _, True).
Proof.
  unfold notify_adm. sp_bind (apply spec_stream) as o. apply triple_if; intros _; [|by sp_ret].
  eapply spec_pre; [|by apply spec_log, _]. done.
Qed.

Lemma spec_lock_for_switch X s :
  s ∉ X → spec stays (str s) (true, false, held X ms) (lock_for_switch s)
            (true, false, held ({[s]} ∪ X) ms) (λ _ _, True).
Proof.
  intros Hs. unfold lock_for_switch.
  eapply (spec_bind_calm _ (str s) any _ _ (true, false, held X ms) (λ r _, r = true → ¬ good));
    [apply _| |done|].
  { unfold card_down. eapply (triple_bind _ _ any _ _ (true, false, held X ms)
      (λ r _, PAL_CARD_STATUS_DOWN r = true → ¬ good)); [apply _| |done|].
    - apply spec_step; [apply _|]. intros w Hok HL _. eexists _, _. split; [done|].
      split_and!; [by eapply ok_fields; [..|exact Hok]|by apply calm_fields|done|].
      intros Hr [Hgd _]. by rewrite Hgd in Hr.
    - intros r. apply triple_ret; [apply _|]. by intros w [_ Hr]. }
  intros down. cbn beta.
  eapply (triple_bind _ _ (λ w, str s w ∧ (down = true → ¬ good)) _ _ (true, false, held X ms) (λ _ _, True));
    [apply _| |done|].
  - destruct down; [|by sp_ret].
    apply (spec_pure _ _ _ (¬ good)); [intros w [_ Hg]; by apply Hg|]. intros Hg.
    sp_bind (apply spec_stream) as o.
    apply (spec_pure _ _ _ (held X ms !! s = Some (mStreamMutex o))); [by intros w [_ [_ ?]]|].
    intros Hm. apply triple_if; intros _; [|by sp_ret].
    intros w Hok HL _. eapply st_wp_mono.
    { apply law_ssr; [done|by injection HL..|]. injection HL as _ _ ->. rewrite Hm.
      revert Hm. rewrite held_lookup. intros (?&_&->)%fmap_Some.
      by rewrite bool_decide_eq_false_2. }
    cbn beta. intros r w' []. split_and!; [done| |congruence|done].
    constructor; [done|auto|by intros ?..].
  - intros u. eapply spec_pre; [|by apply spec_lockStream; [apply _|]]. by intros w [[? _] _].
Qed.

#[local] Instance stable_strs l : Stable stays (strs l).
Proof. unfold strs. apply _. Qed.
#[local] Instance stable_attrs l : Stable stays (attrs_in l).
Proof. unfold attrs_in. apply _. Qed.

Lemma spec_switch_locked u U dis con :
  NoDup U → (∀ p, p ∈ con → Users.isStreamActive p.1 u = true → p.1 ∈ U) →
  spec stays (λ w, rt_users w = u ∧ strs U w ∧ attrs_in con w) (true, false, held (list_to_set U) ms)
    (switch_locked U dis con) (false, false, held ∅ ms) (λ _ _, True).
Proof.
  intros Hnd HU. unfold switch_locked.
  eapply (triple_bind _ _ (strs U) _ _ (true, false, held (list_to_set U) ms) (λ _ _, True));
    [apply _| |by intros w (_&?&_)|].
  { apply (spec_for _ _ _ _ (λ _, (true, false, held (list_to_set U) ms))).
    intros l1 s l2 ->. eapply spec_pre; [|apply spec_notify_adm]. intros w Hw. apply Hw. set_solver. }
  intros []. cbn beta.
  sp_bind (apply spec_streamDevDisconnect_l) as status. apply spec_decide; intros _.
  { eapply spec_pre; [|by apply spec_end_switch]. by intros w [[(_&?&_) _] _]. }
  replace (list_to_set U) with (list_to_set U ∖ ∅ : gset positive) by set_solver.
  sp_bind (apply (spec_connect_loop u con (list_to_set U) ∅); set_solver) as status'.
  eapply (triple_bind _ _ (λ w, rt_users w = u) _ _ _
    (λ r _, r = filter (λ s, Users.isStreamActive s u) con.*1)); [apply _| | |].
  { apply triple_gets; [apply _|]. by intros w _ _ <-. }
  { by intros w [[[(?&_&_) _] _] _]. }
  intros r. cbn beta. apply (spec_pure _ _ _ (r = filter (λ s, Users.isStreamActive s u) con.*1));
    [by intros w [_ ?]|]. intros <-.
  replace (list_to_set U ∖ (∅ ∪ list_to_set r))
    with (list_to_set (foldl (λ l s, erase_first s l) U r) : gset positive).
  - eapply spec_pre; [|apply spec_end_switch; by apply (foldl_erase_elem U r xH)].
    intros w [[[[(_&Hs&_) _] _] _] _] s Hs'. apply Hs.
    apply (foldl_erase_elem U r s Hnd) in Hs'. by destruct Hs'.
  - apply set_eq. intros x.
    rewrite elem_of_difference, elem_of_union, !elem_of_list_to_set.
    destruct (foldl_erase_elem U r x Hnd) as [_ ->]. set_solver.
Qed.

Lemma spec_bt_not_ready L l :
  spec stays (λ w, ∀ a, a ∈ l → attr_in a w) L (bt_not_ready l) L (λ _ _, True).
Proof.
  unfold bt_not_ready. destruct l as [|a [|b l]]; try by sp_ret.
  eapply triple_bind; [apply _..|apply spec_attr, _|intros w Hw; apply Hw; by left|]. intros v. cbn beta.
  apply (spec_pure _ _ _ (in_deviceNameLUT (dev_id v) = true)); [by intros w [_ ?]|]. intros Hl.
  apply triple_if; intros _; [|by sp_ret].
  sp_bind (apply spec_isDeviceReady; [|done]) as ready. by sp_ret.
Qed.

Lemma active_streams_elem {B} (l : list (positive * B)) w s :
  s ∈ active_streams l w ↔ s ∈ l.*1 ∧ Users.isStreamActive s (rt_users w) = true.
Proof. unfold active_streams. rewrite list_elem_of_filter. rewrite Is_true_true. tauto. Qed.

Lemma attrs_in_elem con w : (∀ a, a ∈ con.*2 → attr_in a w) ↔ attrs_in con w.
Proof.
  unfold attrs_in. split.
  - intros Ha p Hp. apply Ha. apply list_elem_of_fmap. eauto.
  - intros Ha a Hin. apply list_elem_of_fmap in Hin as (p&->&Hp). auto.
Qed.

(** The mutexes are given back on every path. *)
Lemma spec_streamDevSwitch dis con :
  spec stays (attrs_in con) (false, false, held ∅ ms) (streamDevSwitch dis con)
    (false, false, held ∅ ms) (λ _ _, True).
Proof.
  apply spec_users. intros u. unfold streamDevSwitch.
  set (dis' := SortAndUnique _ dis). set (con' := SortAndUnique _ con).
  apply (spec_pre _ (λ w, rt_users w = u ∧ attrs_in con' w)).
  { intros w [<- Ha]. split; [done|]. intros p Hp%SortAndUnique_elem. auto. }
  sp_bind (apply spec_lockActive) as u1.
  set (act := λ l : list positive, filter (λ s, Users.isStreamActive s u) l).
  eapply (triple_bind _ _ (λ w, rt_users w = u) _ _ _ (λ r _, r = act dis'.*1)); [apply _| | |].
  { apply triple_gets; [apply _|]. by intros w _ _ <-. } { by intros w [[? _] _]. }
  intros l1. apply (spec_pure _ _ _ (l1 = act dis'.*1)); [by intros w [_ ?]|]. intros ->.
  eapply (triple_bind _ _ (λ w, rt_users w = u) _ _ _ (λ r _, r = act con'.*1)); [apply _| | |].
  { apply triple_gets; [apply _|]. by intros w _ _ <-. } { by intros w [[[? _] _] _]. }
  intros l2. apply (spec_pure _ _ _ (l2 = act con'.*1)); [by intros w [_ ?]|]. intros ->.
  eapply (triple_bind _ _ any _ _ _ (λ r w, ∀ a, a ∈ r → a ∈ con'.*2)); [apply _| |done|].
  { apply triple_gets; [apply _|]. intros w _ _ _ a Ha. apply list_elem_of_fmap in Ha as (p&->&Hp).
    apply list_elem_of_filter in Hp as [_ Hp]. apply list_elem_of_fmap. eauto. }
  intros devs. cbn zeta.
  set (U := SortAndUnique Pos.le (act dis'.*1 ++ act con'.*1)).
  apply (spec_pre_ok _ (λ w, (rt_users w = u ∧ attrs_in con' w ∧ strs U w) ∧
    ∀ a, a ∈ SortAndUnique Pos.le devs → attr_in a w)).
  { intros w Hok [[[[[<- Ha] _] _] _] Hd]. split_and!; [done..| |].
    - intros s Hs. apply SortAndUnique_elem in Hs. apply active_str; [done|]. revert Hs.
      rewrite elem_of_app. unfold act. rewrite !list_elem_of_filter, !Is_true_true. tauto.
    - intros a Hin%SortAndUnique_elem. apply (proj2 (attrs_in_elem con' w) Ha). auto. }
  sp_bind (apply spec_bt_not_ready) as bt. destruct bt.
  { sp_bind (apply spec_unlockActive) as v. by sp_ret. }
  assert (NoDup U) as Hnd by (apply SortAndUnique_NoDup; apply _).
  eapply (triple_bind _ _ (strs U) _ _ (true, false, held (list_to_set U) ms) (λ _ _, True));
    [apply _| |by intros w [[(_&_&?) _] _]|].
  { replace (held ∅ ms) with (held (list_to_set U ∖ list_to_set U) ms) by (f_equal; set_solver).
    replace (held (list_to_set U) ms) with (held (list_to_set U ∖ list_to_set []) ms)
      by (f_equal; set_solver).
    apply (spec_for _ _ _ _ (λ l, (true, false, held (list_to_set U ∖ list_to_set l) ms))).
    intros l3 s l4 HU.
    replace (list_to_set U ∖ list_to_set l4 : gset positive)
      with ({[s]} ∪ (list_to_set U ∖ list_to_set (s :: l4)) : gset positive).
    - eapply spec_pre; [|apply spec_lock_for_switch; set_solver]. intros w Hw. apply Hw.
      rewrite HU. set_solver.
    - rewrite HU in Hnd |- *. apply NoDup_app in Hnd as (_&_&[Hs _]%NoDup_cons).
      apply set_eq. intros x. rewrite elem_of_union, !elem_of_difference, !elem_of_list_to_set.
      rewrite elem_of_singleton, elem_of_app, elem_of_cons.
      destruct (decide (x = s)) as [->|]; tauto. }
  intros []. cbn beta. sp_bind (apply spec_upd_fields; [|done]) as v.
  eapply spec_pre; [|apply (spec_switch_locked u); [done|]].
  { by intros w [[[[(?&?&?) _] _] _] _]. }
  intros p Hp Ha. apply SortAndUnique_elem. apply elem_of_app. right.
  apply list_elem_of_filter. split; [by apply Is_true_true|]. apply list_elem_of_fmap. eauto.
Qed.
End switch.
