(* ===== verification/RoutingPolicyFacts.v ===== *)
(** * Routing: the decisions keep the state

    One lemma per function of RoutingPolicy: it is defined from every state that is [ok],
    [stays] relates the states, and the mutexes end as they were. *)

From S2P Require Import Prelude PalDefs Users Device DeviceFacts RoutingState Routing RoutingPolicy.
From S2P Require Import RoutingFacts RoutingConn RoutingSwitch.

Local Open Scope st_scope.

Section policy.
Context `{RtEnv, !RtLaws, Htable : !RtTable}.

Abbreviation any := (λ _ : RtWorld, True).
Local Abbreviation stays := (RoutingFacts.stays (λ _, True)).
Abbreviation LUT v := (in_deviceNameLUT (dev_id v) = true).

(** ** Differences *)

Lemma spec_checkDeviceSwitchForHaptics L a b :
  spec stays any L (checkDeviceSwitchForHaptics a b) L (λ _ _, True).
Proof.
  unfold checkDeviceSwitchForHaptics. sp_inst d Hd; [by sp_ret|].
  sp as l. apply spec_decide; intros _; [by sp_ret|]. sp as v. by sp_ret.
Qed.

Lemma spec_bt_override L a b r :
  LUT a → spec stays any L (bt_override a b r) L (λ _ _, True).
Proof.
  intros Ha. unfold bt_override. apply triple_if; intros _; [|by sp_ret].
  sp as available. destruct available; [|by sp_ret]. sp_inst d Hd; [by sp_ret|].
  sp as x. by sp_ret.
Qed.

Lemma spec_plain_differ L a b :
  LUT a → spec stays any L (plain_differ a b) L (λ _ _, True).
Proof.
  intros Ha. unfold plain_differ. eapply (triple_seq _ _ _ _ L (λ _ _, True)).
  - apply triple_if; intros _; [apply spec_checkDeviceSwitchForHaptics|by sp_ret].
  - intros r. by apply spec_bt_override.
Qed.

Lemma spec_doDevAttrDiffer L a b :
  LUT a → LUT b → spec stays any L (doDevAttrDiffer a b) L (λ _ _, True).
Proof.
  intros Ha Hb. unfold doDevAttrDiffer. apply triple_if; intros _; [by sp_ret|].
  sp_inst d Hd; [by sp_ret|]. sp as g. sp as cur.
  eapply spec_pre; [|]. 2:{ destruct g; [apply triple_if; intros _; [by sp_ret|]|]; by apply spec_plain_differ. }
  done.
Qed.
#[local] Hint Extern 1 (spec _ _ _ (doDevAttrDiffer _ _) _ _) =>
  apply spec_doDevAttrDiffer : routing.

(** ** Shared back ends *)

Lemma spec_compare_priority L a newDev curDev prio :
  spec stays (λ w, attr_in a w ∧ dev_in newDev w ∧ dev_in curDev w) L
    (compare_priority a newDev curDev prio) L (λ _ _, True).
Proof.
  unfold compare_priority. sp as top. destruct top as [st [[cur curPrio]|]]; [|by sp_ret].
  assert (id_of curDev (dev_id cur)) as Hcur by eauto.
  sp as new. apply spec_decide; intros _; [by sp_ret|].
  eapply (triple_bind _ _ any _ _ L (λ _ _, True)); [apply _| |done|].
  { apply triple_if; intros _; [eapply spec_weaken; [apply spec_ask, _|done..]|by sp_ret]. }
  intros ready. cbn beta. sp_norm. apply triple_if; intros _; [by sp_ret|].
  sp as u. sp as new2. sp_inst d Hd; [by sp_ret|]. sp as v. sp as top2.
  destruct top2 as [st2 [[new3 p3]|]]; [|by sp_ret].
  assert (id_of d (dev_id new3)) as Hnew by eauto. sp as u2. sp_last.
Qed.

Lemma spec_compare_enable L a newDev curDev id :
  spec stays (λ w, attr_in a w ∧ dev_in newDev w ∧ dev_in curDev w) L
    (compare_enable a newDev curDev id) L (λ _ _, True).
Proof.
  unfold compare_enable. sp as top. destruct top as [st [[new prio]|]]; [|by sp_ret].
  assert (id_of newDev (dev_id new)) as Hnew by eauto.
  sp as u. apply spec_decide; intros _.
  - sp as cur. sp_last.
  - eapply spec_pre; [|apply spec_compare_priority]. sp_side.
Qed.

Definition attrs_ok (m : list (Z * pal_device)) : Prop :=
  ∀ p, p ∈ m → LUT p.2 ∧ is_Some (object_of (dev_id p.2)).

Lemma insert_prio_elem p m q : q ∈ insert_prio p m ↔ q = p ∨ q ∈ m.
Proof.
  induction m as [|x m IH]; simpl; [set_solver|]. case_decide; [set_solver|].
  rewrite !elem_of_cons, IH. tauto.
Qed.

Lemma spec_top_attrs L be devs m :
  attrs_ok m → spec stays (λ w, ∀ d, d ∈ devs → dev_in d w) L (top_attrs be devs m) L
                 (λ m _, attrs_ok m).
Proof.
  revert m. induction devs as [|d devs IH]; intros m Hm; cbn [top_attrs]; [by sp_ret|].
  apply (spec_pre _ (λ w, dev_in d w ∧ ∀ d, d ∈ devs → dev_in d w)).
  { intros w Hw. split; [apply Hw; by left|]. intros x Hx. apply Hw. by right. }
  sp as id. apply triple_if; intros _; [|eapply spec_pre; [|by apply IH]; sp_side].
  sp as top. eapply spec_pre; [|apply IH]; [sp_side|].
  destruct top as [st [[v p]|]]; [|done]. assert (id_of d (dev_id v)) as [? ?] by eauto.
  intros q [->|Hq]%insert_prio_elem; [|auto]. cbn. by eauto.
Qed.

Lemma spec_stream_attrs L be shared m :
  attrs_ok m → spec stays (λ w, strs shared.*1 w) L (stream_attrs be shared m) L
                 (λ m _, attrs_ok m).
Proof.
  revert m. induction shared as [|[s id] shared IH]; intros m Hm; cbn [stream_attrs]; [by sp_ret|].
  apply (spec_pre _ (λ w, str s w ∧ strs shared.*1 w)).
  { intros w Hw. split; [apply Hw; by left|]. intros x Hx. apply Hw. by right. }
  sp as o. eapply (triple_bind _ _ (λ w, ∀ d, d ∈ mPalDevices o → dev_in d w) _ _ L (λ m _, attrs_ok m));
    [apply _|by apply spec_top_attrs| |].
  { intros w [_ [_ Hd]] d Hin. apply Hd. apply elem_of_app. by right. }
  intros m'. cbn beta. sp_norm. eapply spec_pre; [|by apply IH]. sp_side.
Qed.

Lemma choose_attr_in m id v : choose_attr m id = Some v → ∃ p, (p, v) ∈ m.
Proof.
  unfold choose_attr. destruct m as [|[prio x] m]; [done|]. intros Hv.
  assert (∃ p, (p, x) ∈ (prio, x) :: m) as Hx by (exists prio; by left).
  case_decide; [|by simplify_eq]. destruct (list_find _ _) as [[i [q y]]|] eqn:H2; [|by simplify_eq].
  apply list_find_Some in H2 as [Hi _]. simplify_eq. exists q. by eapply list_elem_of_lookup_2.
Qed.

Lemma spec_compare_disable L shared a curDev :
  spec stays (λ w, strs shared.*1 w ∧ attr_in a w ∧ dev_in curDev w) L
    (compare_disable shared a curDev) L (λ _ _, True).
Proof.
  unfold compare_disable. sp as new. sp_go (apply spec_stream_attrs; by intros p Hp%elem_of_nil) as m.
  sp as id. destruct (choose_attr m id) as [v|] eqn:Hv; [|by sp_ret].
  apply choose_attr_in in Hv as [p Hp]. destruct (F0 _ Hp) as [Hl Ho].
  sp as u. sp as cur. apply triple_if; intros _; [by sp_ret|]. sp_last.
Qed.

Lemma spec_compareShared L shared a enable :
  shared ≠ [] →
  spec stays (λ w, dis_ok shared w ∧ attr_in a w) L (compareSharedBEStreamDevAttr shared a enable) L
    (λ _ _, True).
Proof.
  destruct shared as [|[s id] shared]; [done|]. intros _. unfold compareSharedBEStreamDevAttr.
  apply (spec_pure _ _ _ (in_deviceNameLUT id = true)).
  { intros w [Hd _]. by apply (Hd (s, id)), list_elem_of_here. }
  intros Hid. sp_inst c Hc; [by sp_ret|]. sp as new. sp_inst n Hn; [by sp_ret|].
  apply triple_if; intros _.
  - eapply spec_pre; [|apply spec_compare_enable]. sp_side.
  - eapply spec_pre; [|apply spec_compare_disable]. intros w [[[Hd ?] ?] ?].
    split_and!; [|done..]. intros x Hx. apply list_elem_of_fmap in Hx as (q&->&Hq). by apply Hd.
Qed.

(** ** Lists of switches *)

#[local] Instance stable_strs l : Stable stays (strs l).
Proof. unfold strs. apply _. Qed.
#[local] Instance stable_attrs l : Stable stays (attrs_in l).
Proof. unfold attrs_in. apply _. Qed.
#[local] Instance stable_dis l : Stable stays (dis_ok l).
Proof. unfold dis_ok. apply _. Qed.

Lemma spec_isValidDeviceSwitchForStream L s id :
  spec stays (str s) L (isValidDeviceSwitchForStream s id) L (λ _ _, True).
Proof.
  unfold isValidDeviceSwitchForStream. apply triple_if; intros _; [by sp_ret|]. sp as o.
  apply triple_if; intros _; by sp_ret.
Qed.
#[local] Hint Extern 1 (spec _ _ _ (isValidDeviceSwitchForStream _ _) _ _) =>
  apply spec_isValidDeviceSwitchForStream : routing.

Definition ids_ok (l : list (positive * Z)) : Prop := ∀ p, p ∈ l → in_deviceNameLUT p.2 = true.

Lemma spec_findActive g m dis skip :
  ids_ok dis → spec stays (dis_ok skip) (false, g, m)
    (findActiveStreamsNotInDisconnectList dis skip) (false, g, m) (λ r w, dis_ok r w).
Proof.
  intros Hd. unfold findActiveStreamsNotInDisconnectList. destruct dis as [|[s id] dis]; [by sp_ret|].
  assert (in_deviceNameLUT id = true) as Hid by (by apply (Hd (s, id)), list_elem_of_here).
  sp_inst d Ho; [by sp_ret|]. sp as u. sp as l. sp as u'.
  apply triple_ret; [apply _|]. intros w [[Hk _] Hl] p [Hp|Hp]%elem_of_app; [auto|].
  apply list_elem_of_fmap in Hp as (x&->&Hx). apply list_elem_of_filter in Hx as [_ Hx].
  split; [by apply Hl|done].
Qed.

Lemma attrs_in_snoc con s a w : attrs_in con w → attr_in a w → attrs_in (con ++ [(s, a)]) w.
Proof. intros Hc Ha p [Hp|Hp%list_elem_of_singleton]%elem_of_app; [auto|by subst]. Qed.

Lemma attrs_in_pairs con (l : list (positive * Z)) a w :
  attrs_in con w → attr_in a w → attrs_in (con ++ ((λ p, (p.1, a)) <$> l)) w.
Proof.
  intros Hc Ha p [Hp|Hp]%elem_of_app; [auto|]. by apply list_elem_of_fmap in Hp as (x&->&_).
Qed.

Lemma spec_restore_upd L s id dis con :
  in_deviceNameLUT id = true →
  spec stays (λ w, str s w ∧ attrs_in con w) L (restore_upd s id dis con) L (λ r w, attrs_in r.2 w).
Proof.
  intros Hid. unfold restore_upd. sp as o. apply triple_if; intros _; [sp_ret; sp_side|].
  destruct (mPalDevices o) as [|pd l] eqn:Hp; [sp_ret; sp_side|].
  apply (spec_pre _ (λ w, (str s w ∧ attrs_in con w) ∧ dev_in pd w)).
  { intros w [? [_ Hd]]. split; [done|]. apply Hd. rewrite Hp. apply elem_of_app. right. by left. }
  sp as id'.
  sp as r. destruct r as [status dAttr]. cbn [snd dev_id zeroed] in *.
  assert (LUT dAttr) as Hl by (by rewrite F0).
  apply spec_decide; intros _; [sp_ret; sp_side|].
  eapply (triple_bind _ _ any _ _ L (λ _ _, True)); [apply _| |done|].
  { apply triple_if; intros _; [|by sp_ret]. sp as hs.
    eapply (triple_bind _ _ (λ w, ∀ d, hs = Some d → dev_in d w) _ _ L (λ v _, LUT v)); [apply _| | |].
    - destruct hs as [d|]; [|by sp_ret].
      eapply spec_weaken; [apply spec_getDeviceAttributes, _|by intros w Hw; apply Hw|].
      by intros v _ [_ ?].
    - intros w [_ Hd] d ->. by destruct (Hd d eq_refl).
    - intros cur. sp_norm. sp as b. by sp_ret. }
  intros same. cbn beta. sp_norm. destruct same; [sp_ret; sp_side|].
  sp as a. sp_ret. intros w [[[_ ?] _] [? _]]. by apply attrs_in_snoc.
Qed.

Lemma spec_restoreDeviceConfigForUPD g m dis con skip :
  ids_ok dis →
  spec stays (λ w, attrs_in con w ∧ dis_ok skip w) (false, g, m)
    (restoreDeviceConfigForUPD dis con skip) (false, g, m) (λ r w, attrs_in r.2 w).
Proof.
  intros Hd. unfold restoreDeviceConfigForUPD. apply triple_if; intros _; [sp_ret; sp_side|].
  apply spec_decide; intros _; [sp_ret; sp_side|].
  eapply (triple_bind _ _ (dis_ok skip) _ _ (false, g, m) (λ r w, dis_ok r w)); [apply _| |sp_side|].
  { apply spec_decide; intros _; [|by sp_ret]. eapply spec_pre; [|by apply spec_findActive].
    by intros w _ p Hp%elem_of_nil. }
  intros l. cbn beta. destruct l as [|[s id] [|? ?]]; try (sp_ret; sp_side; fail).
  intros w Hok HL [[Hc _] Hl]. destruct (Hl (s, id)) as [Hs Hid]; [by left|].
  by apply (spec_restore_upd (false, g, m)).
Qed.

(** ** Forced switches *)

(** The result of [switch_vectors]. *)
Definition vec_ok (l : list positive) (cur : Z) (a : positive)
    (r : list (positive * Z) * list (positive * positive) * list (positive * Z)) : Prop :=
  (∀ p, p ∈ r.1.1 → p.2 = cur) ∧ (∀ p, p ∈ r.1.2 → p.2 = a) ∧ ∀ p, p ∈ r.2 → p.1 ∈ l ∧ p.2 = cur.

Lemma spec_switch_vectors L l cur new a :
  spec stays (strs l) L (switch_vectors l cur new a) L (λ r _, vec_ok l cur a r).
Proof.
  induction l as [|s l IH]; cbn [switch_vectors].
  { sp_ret. intros w _. split_and!; intros p Hp%elem_of_nil; done. }
  apply (spec_pre _ (λ w, str s w ∧ strs l w)).
  { intros w Hw. split; [apply Hw; by left|]. intros x Hx. apply Hw. by right. }
  sp as valid. sp_go (apply IH) as r. destruct r as [[dis con] skip].
  destruct F as (Hd&Hc&Hs).
  cbn [fst snd] in *. sp_ret. intros w _.
  assert (∀ p, p ∈ skip → p.1 ∈ s :: l ∧ p.2 = cur) as Hs'.
  { intros p Hp. destruct (Hs p Hp). split; [by right|done]. }
  destruct valid; split_and!; cbn [fst snd]; try done; intros p [->|Hp]%elem_of_cons; auto.
  split; [by left|done].
Qed.

Lemma vec_ok_use l cur a dis con skip w :
  vec_ok l cur a (dis, con, skip) → in_deviceNameLUT cur = true → strs l w → attr_in a w →
  attrs_in con w ∧ dis_ok skip w.
Proof.
  intros (_&Hc&Hs) Hl Hst Ha. split.
  - intros p Hp. by rewrite (Hc p Hp).
  - intros p Hp. destruct (Hs p Hp) as [? ->]. auto.
Qed.
Lemma vec_ok_ids l cur a dis con skip :
  vec_ok l cur a (dis, con, skip) → in_deviceNameLUT cur = true → ids_ok dis.
Proof. intros (Hd&_) Hl p Hp. by rewrite (Hd p Hp). Qed.

(** *** The devices a stream was asked to use *)

Lemma spec_drop_pal_devices L drop s devs :
  spec stays (λ w, ∀ d, d ∈ devs → dev_in d w) L (drop_pal_devices drop s devs) L
    (λ r _, ∀ d, d ∈ r → d ∈ devs).
Proof.
  induction devs as [|d devs IH]; cbn [drop_pal_devices]; [by sp_ret|].
  apply (spec_pre _ (λ w, dev_in d w ∧ ∀ d, d ∈ devs → dev_in d w)).
  { intros w Hw. split; [apply Hw; by left|]. intros x Hx. apply Hw. by right. }
  sp as id. apply triple_if; intros _.
  - sp as u. eapply spec_weaken; [apply IH|sp_side|]. intros r w Hr x Hx. right. auto.
  - sp_go (apply IH) as r. sp_ret. intros _ _ x. rewrite !elem_of_cons. naive_solver.
Qed.

Lemma spec_filter_pal_devices L drop s :
  spec stays (str s) L (filter_pal_devices drop s) L (λ _ _, True).
Proof.
  unfold filter_pal_devices. sp as o.
  eapply (triple_bind _ _ (λ w, ∀ d, d ∈ mPalDevices o → dev_in d w)); [apply _| | |].
  { apply spec_drop_pal_devices. }
  { intros w [_ [_ Hd]] d Hin. apply Hd, elem_of_app. by right. }
  intros devs. cbn beta. sp_norm. apply spec_upd_stream; [apply _|by intros|].
  intros w o' d [_ [_ Hd]] _ Hin. right. apply Hd, elem_of_app. cbn in Hin. auto.
Qed.

Lemma spec_addPalDevice L s a :
  spec stays (λ w, str s w ∧ attr_in a w) L (addPalDevice s a) L (λ _ _, True).
Proof.
  unfold addPalDevice. sp as v. sp_inst d Hd; [by sp_ret|].
  sp_go (apply spec_insertStreamDeviceAttr; [|by split]) as u.
  apply spec_upd_stream; [apply _|by intros|].
  intros w o x [_ ?] _ [Hx|Hx%list_elem_of_singleton]%elem_of_app; [by left|subst; by right].
Qed.

Section locks.
Context (ms : gmap positive bool).

Lemma spec_update_pal_devices l id a :
  spec stays (attr_in a) (false, false, held ∅ ms) (update_pal_devices l id a)
    (false, false, held ∅ ms) (λ _ _, True).
Proof.
  unfold update_pal_devices. sp as u.
  eapply (triple_bind _ _ (attr_in a) _ _ (true, false, held ∅ ms) (λ _ _, True)); [apply _| |sp_side|].
  2:{ intros v. eapply spec_pre; [|by apply spec_unlockActive, _]. done. }
  apply (spec_for _ _ _ _ (λ _, (true, false, held ∅ ms))). intros l1 s l2 _.
  eapply (triple_bind _ _ any _ _ (true, false, held ∅ ms)
    (λ b w, b = true → Users.isStreamActive s (rt_users w) = true)); [apply _| |done|].
  { by apply triple_gets; [apply _|]. }
  intros b. cbn beta. destruct b; [|by sp_ret].
  apply (spec_pre_ok _ (λ w, str s w ∧ attr_in a w)).
  { intros w Hok [? Ha]. split; [|done]. apply active_str; auto. }
  sp_go (apply spec_lockStream; [apply _|set_solver]) as u1.
  eapply (triple_bind _ _ (str s) _ _ (true, false, held ({[s]} ∪ ∅) ms) (λ _ _, True));
    [apply _| |sp_side|].
  { apply triple_if; intros _; apply spec_filter_pal_devices. }
  intros u2. cbn beta. sp_norm. sp_go (apply spec_addPalDevice) as u3.
  replace (∅ : gset positive) with (({[s]} ∪ ∅) ∖ {[s]} : gset positive) at 2 by set_solver.
  eapply spec_pre; [|apply spec_unlockStream; [apply _|set_solver]]. sp_side.
Qed.

Lemma spec_forceDeviceSwitch d a :
  spec stays (λ w, dev_in d w ∧ attr_in a w) (false, false, held ∅ ms) (forceDeviceSwitch d a)
    (false, false, held ∅ ms) (λ _ _, True).
Proof.
  unfold forceDeviceSwitch. sp as u. sp as l. apply spec_decide; intros _.
  { sp as u'. by sp_ret. }
  sp as id. sp as new. sp_go (apply spec_switch_vectors) as v. destruct v as [[dis con] skip].
  sp as u'.
  apply (spec_pre _ (λ w, attr_in a w ∧ attrs_in con w ∧ dis_ok skip w)).
  { intros w [[_ ?] ?]. split; [done|]. by eapply vec_ok_use. }
  sp_go (apply spec_restoreDeviceConfigForUPD; eapply vec_ok_ids; eauto) as r.
  destruct r as [[status dis'] con']. apply spec_decide; intros _; [by sp_ret|].
  sp_go (apply spec_streamDevSwitch) as status'.
  eapply (triple_seq _ _ _ _ _ (λ _ _, True)).
  - apply spec_decide; intros _; [|by sp_ret]. eapply spec_pre; [|apply spec_update_pal_devices].
    sp_side.
  - intros v. by sp_ret.
Qed.

Lemma spec_reset_usecases a dis con :
  spec stays (λ w, attrs_in con w ∧ named a w) (false, false, held ∅ ms) (reset_usecases a dis con)
    (false, false, held ∅ ms) (λ r w, ∀ p, r = Some p → attrs_in p.2 w).
Proof.
  unfold reset_usecases. sp as u. sp as new.
  eapply (triple_bind _ _ any _ _ (true, false, held ∅ ms) (λ l w, dis_ok l w)); [apply _| |done|].
  { eapply spec_pre; [|by apply spec_getSharedBE; [apply _..|]]. by intros w _ p Hp%elem_of_nil. }
  intros shared. cbn beta. destruct shared as [|[s id] shared].
  { sp as u'. apply triple_ret; [apply _|]. intros w [[? _] _] p [= <-]. done. }
  apply (spec_pure _ _ _ (in_deviceNameLUT id = true)).
  { intros w [_ Hd]. by apply (Hd (s, id)), list_elem_of_here. }
  intros Hid. sp_inst d Hd; [sp as u'; by sp_ret|].
  sp as v. sp as u1. sp as c. sp as u2. sp_ret.
  intros w [[[[[? _] _] _] _] [Hc _]] p [= <-]. by apply (attrs_in_pairs con ((s, id) :: shared)).
Qed.

Lemma spec_forceDeviceSwitch_streams d a l :
  spec stays (λ w, dev_in d w ∧ named a w) (false, false, held ∅ ms)
    (forceDeviceSwitch_streams d a l) (false, false, held ∅ ms) (λ _ _, True).
Proof.
  unfold forceDeviceSwitch_streams. sp as u.
  eapply (triple_bind _ _ any _ _ (true, false, held ∅ ms) (λ l w, strs l w)); [apply _| |done|].
  { apply triple_gets; [apply _|]. intros w Hok _ _ s Hs. apply list_elem_of_filter in Hs as [Hs _].
    apply active_str; [done|by apply Is_true_true]. }
  intros act. cbn beta. sp as id. sp as new. sp_go (apply spec_switch_vectors) as v.
  destruct v as [[dis con] skip]. sp as u'.
  apply (spec_pre _ (λ w, named a w ∧ attrs_in con w ∧ dis_ok skip w)).
  { intros w [[_ ?] ?]. split; [done|]. eapply vec_ok_use; eauto using named_in. }
  sp_go (apply spec_restoreDeviceConfigForUPD; eapply vec_ok_ids; eauto) as r.
  destruct r as [[status dis'] con']. apply spec_decide; intros _; [by sp_ret|].
  sp_go (apply spec_streamDevSwitch) as status'.
  apply spec_decide; intros _.
  - sp_go (apply spec_update_pal_devices) as v. by sp_ret.
  - sp_go (apply spec_reset_usecases) as lists. destruct lists as [[dis2 con2]|]; [|by sp_ret].
    apply (spec_pre _ (λ w, named a w ∧ attrs_in con2 w)).
    { intros w [[[? _] _] Hc]. split; [done|]. by apply (Hc (dis2, con2)). }
    sp_go (apply spec_streamDevSwitch) as status2.
    eapply (triple_seq _ _ _ _ _ (λ _ _, True)).
    + apply spec_decide; intros _; [|by sp_ret]. eapply spec_pre; [|apply spec_update_pal_devices].
      sp_side.
    + intros v. by sp_ret.
Qed.
End locks.

(** ** Device groups *)

Section group.
Context (R : RtWorld → RtWorld → Prop) `{!Rel R} (sda : positive) `{!Puts R sda}.

#[local] Instance group_strs l : Stable R (strs l).
Proof. unfold strs. apply _. Qed.

Lemma spec_group_streams L c enable l idx :
  spec R (strs l) L (group_streams c enable l idx) L (λ r w, strs r.2 w).
Proof.
  revert idx. induction l as [|s l IH]; intros idx; cbn [group_streams]; [by sp_ret|].
  apply (spec_pre _ (λ w, str s w ∧ strs l w)).
  { intros w Hw. split; [apply Hw; by left|]. intros x Hx. apply Hw. by right. }
  sp as o. destruct (group_step _ _ _ _) as [idx' b]. sp_go (apply IH) as r.
  sp_ret. intros w [[[? _] _] Hr]. destruct b; [|done].
  intros x [->|Hx]%elem_of_cons; auto.
Qed.

Lemma spec_group_devices L ids enable idx :
  (∀ i, i ∈ ids → in_deviceNameLUT i = true) →
  spec R (attr_in sda) L (group_devices ids sda enable idx) L (λ r w, strs r.2 w).
Proof.
  revert idx. induction ids as [|c ids IH]; intros idx Hids; cbn [group_devices].
  { sp_ret. by intros w _ s Hs%elem_of_nil. }
  assert (in_deviceNameLUT c = true) as Hc by (apply Hids; by left).
  assert (∀ i, i ∈ ids → in_deviceNameLUT i = true) as Hids' by (intros; apply Hids; by right).
  sp_inst d Hd; [by apply IH|]. sp as l. apply spec_decide; intros _.
  { eapply spec_pre; [|by apply IH]. sp_side. }
  sp_go (apply spec_group_streams) as g. sp as v. sp as u.
  eapply triple_bind; [apply _..|by apply IH|sp_side|]. intros r. cbn beta. sp_ret.
  intros w [[[_ Hg] _] Hr] s [Hs|Hs]%elem_of_app; auto.
Qed.

Lemma spec_group_audio L id ty enable :
  spec R (attr_in sda) L (group_audio id ty sda enable) L (λ r w, strs r.2 w).
Proof.
  unfold group_audio. sp_inst d Hd; [by sp_ret; intros w _ s Hs%elem_of_nil|].
  sp as l. destruct l as [|s l].
  - destruct enable; [|by sp_ret; intros w _ s Hs%elem_of_nil]. cbn [negb].
    apply triple_if; intros _; [by sp_ret; intros w _ s Hs%elem_of_nil|].
    eapply (triple_bind _ _ any _ _ L (λ _ _, True)); [apply _| |done|].
    { eapply spec_weaken; [apply (spec_streams_with R L _ (λ w, mActiveStreams (rt_users w)))|done..].
      intros w Hok s. by apply ok_active. }
    intros voice. by sp_ret; intros w _ s Hs%elem_of_nil.
  - sp as v. sp as u. sp_ret. intros w HP x Hx. cbn [snd] in Hx.
    assert (x = s) as -> by (destruct (isGroupConfigAvailable _); set_solver).
    destruct HP as [[_ Hl] _]. apply Hl. by left.
Qed.

Lemma spec_take_group_name L v g :
  LUT v → spec R any L (take_group_name v g) L (λ _ _, True).
Proof.
  intros Hv. unfold take_group_name. sp_inst d Hd; [by sp_ret|].
  eapply spec_pre; [|by apply spec_setSndName, _]. done.
Qed.

Lemma spec_take_names L v cfg (sw : list positive) (st : Z) :
  LUT v → spec R (λ w, attr_in sda w ∧ strs sw w) L
    (take_group_name v cfg ;;;; v' <-- attr sda ;; take_group_name v' cfg ;;;; st_ret (st, sw)) L
    (λ (r : Z * list positive) w, strs r.2 w).
Proof.
  intros Hv. sp_go (by apply spec_take_group_name) as u. sp as v'.
  sp_go (by apply spec_take_group_name) as u'. sp_ret. sp_side.
Qed.

Lemma spec_checkAndUpdateGroupDevConfig L a ty enable :
  spec R (λ w, attr_in a w ∧ attr_in sda w) L (checkAndUpdateGroupDevConfig a (Some ty) sda enable) L
    (λ r w, strs r.2 w).
Proof.
  assert (∀ w, strs [] w) as Hnil by (by intros w s Hs%elem_of_nil).
  unfold checkAndUpdateGroupDevConfig. sp as v. apply triple_if; intros _; [|by sp_ret].
  eapply (triple_bind _ _ (attr_in sda) _ _ L (λ r w, ∀ p, r = Some p → strs p.2 w)); [apply _| |sp_side|].
  { apply triple_if; intros _; [|apply triple_if; intros _; [|by sp_ret]].
    - sp_go (apply spec_group_devices; apply Forall_forall; by repeat constructor) as r.
      sp_ret. intros w [_ Hr] p [= <-]. done.
    - sp_go (apply spec_group_audio) as r. sp_ret. intros w [_ Hr] p [= <-]. done. }
  intros g. cbn beta. destruct g as [[idx sw]|].
  - destruct (groupDevConfigMap idx) as [cfg|]; [|sp_ret; intros w [_ Hr]; by apply (Hr (idx, sw))].
    sp_go (apply spec_upd_fields; [|done]) as u. eapply spec_pre; [|by apply spec_take_names].
    intros w [[_ ?] Hr]. split; [done|]. by apply (Hr (idx, sw)).
  - sp as active. destruct active as [cfg|]; [|by sp_ret].
    eapply spec_pre; [|by apply spec_take_names]. intros w [[_ ?] _]. by split.
Qed.
End group.

(** ** A stream is opened *)

Lemma spec_follow R `{!Rel R} L shared a :
  spec R (attr_in a) L (follow shared a) L (λ r _, ∀ p, p ∈ r.2 → p.2 = a).
Proof.
  induction shared as [|[s id] shared IH]; cbn [follow].
  { sp_ret. by intros w _ p Hp%elem_of_nil. }
  sp as v. sp as ready. sp_go (apply IH) as r. rename F0 into Hr. sp_ret. intros w _ p.
  destruct ready; [|auto]. intros [->|Hp]%elem_of_cons; [done|auto].
Qed.

Lemma voice_moves_Some l id w : strs l w → is_Some (voice_moves l id w).
Proof.
  induction l as [|s l IH]; intros Hl; cbn [voice_moves]; [by eexists|].
  destruct (Hl s) as [o Ho]; [by left|]. rewrite Ho. simpl.
  destruct IH as [r ->]; [intros x Hx; apply Hl; by right|]. by eexists.
Qed.

Section locks.
Context (ms : gmap positive bool) (a : positive).

(** Steps that do not write the structure at [a]. *)
Local Abbreviation kept := (RoutingFacts.stays (λ b, b ≠ a)).
#[local] Instance stable_kept v : Stable kept (λ w, rt_attrs w !! a = Some v).
Proof. apply stable_attr_eq. tauto. Qed.
#[local] Instance kept_strs l : Stable kept (strs l).
Proof. unfold strs. apply _. Qed.
#[local] Instance kept_attrs l : Stable kept (attrs_in l).
Proof. unfold attrs_in. apply _. Qed.
Lemma kept_stays w w' : ok w → ok w' → kept w w' → stays w w'.
Proof. intros _ _. by apply stays_sub. Qed.

Tactic Notation "sp_keep" tactic3(H) "as" simple_intropattern(x) :=
  eapply (spec_bind_sub _ kept);
    [apply _|apply kept_stays|H; try sp_rel|sp_side; fail|intros x; cbn beta; sp_norm].

Lemma spec_update_tail v d id sw dis con (ty : bool) :
  id_of d (dev_id v) →
  spec stays (λ w, rt_attrs w !! a = Some v ∧ attrs_in con w) (true, false, held ∅ ms)
    (moves <-- (if ty then st_query (λ w, voice_moves (mActiveStreams (rt_users w)) id w)
                else st_ret []) ;;
     unlockActiveStream ;;;;
     (if bool_decide (dis ++ moves ≠ []) && negb (@IsI2sDualMonoEnabled rt_dev)
      then streamDevSwitch (dis ++ moves) (con ++ ((λ p, (p.1, a)) <$> moves)) ;;;; st_ret tt
      else st_ret tt) ;;;;
     d <-- st_lift (Some d) ;;
     v <-- attr a ;;
     setDeviceAttributes d v ;;;;
     st_ret (sw : bool, Some d)) (false, false, held ∅ ms) (λ _ _, True).
Proof.
  intros Hid.
  eapply (spec_bind_sub _ kept _ any _ _ (true, false, held ∅ ms) (λ _ _, True));
    [apply _|apply kept_stays| |done|].
  { apply triple_if; intros _; [|by sp_ret]. apply spec_query; [apply _|]. intros w Hok _ _.
    destruct (voice_moves_Some (mActiveStreams (rt_users w)) id w) as [r Hr]; [|by eexists].
    intros s. by apply ok_active. }
  intros moves. cbn beta. sp_norm. sp_keep (apply spec_unlockActive) as u.
  eapply (spec_bind_sub _ kept _ (λ w, attr_in a w ∧ attrs_in con w) _ _ (false, false, held ∅ ms)
    (λ _ _, True)); [apply _|apply kept_stays| |intros w [? ?]; split; [by eexists|done]|].
  { apply triple_if; intros _; [|by sp_ret].
    eapply (triple_seq _ _ _ _ _ (λ _ _, True)); [|intros r; by sp_ret].
    eapply spec_pre; [|apply spec_streamDevSwitch]. intros w [Ha Hc]. by apply attrs_in_pairs. }
  intros u'. cbn beta. sp_norm. sp_keep (apply triple_lift) as x. subst x.
  sp_keep (apply (spec_attr_eq _ _ _ v)) as x. subst x.
  sp_keep (apply spec_setDeviceAttributes; [|done]) as u2. by sp_ret.
Qed.

Lemma spec_updateDeviceConfig d v0 sattr :
  isHapticsthroughWSA = true →
  dev_id v0 ∉ [PAL_DEVICE_OUT_BLUETOOTH_A2DP; PAL_DEVICE_IN_BLUETOOTH_BLE] →
  object_of (dev_id v0) = Some d →
  spec stays (λ w, rt_attrs w !! a = Some v0) (false, false, held ∅ ms)
    (updateDeviceConfig (Some d) a sattr) (false, false, held ∅ ms) (λ _ _, True).
Proof.
  intros Hh Hbt Ho. unfold updateDeviceConfig. apply triple_if; intros _; [by sp_ret|].
  rewrite Hh. set_unfold in Hbt.
  apply (spec_pre_ok _ (λ w, rt_attrs w !! a = Some v0 ∧ LUT v0)).
  { intros w Hok Ha. split; [done|by eapply ok_attr]. }
  sp_keep (apply (spec_attr_eq _ _ _ v0)) as v. subst v.
  eapply (spec_bind_sub _ kept _ (attr_in a) _ _ (false, false, held ∅ ms)
    (λ sda w, sda ≠ a ∧ attr_in sda w)); [apply _|apply kept_stays| | |].
  { apply spec_alloc_ne; [apply _|apply law_uninit]. } { intros w Ha. by eexists. }
  intros sda. cbn beta. sp_norm. assert (Puts kept sda) by (by apply puts_stays).
  sp_keep (apply (spec_alloc _ _ (zeroed 0)); done) as dummy.
  sp_keep (apply spec_lockActive) as u.
  eapply (spec_bind_sub _ kept _ any _ _ (true, false, held ∅ ms) (λ r _, r = []));
    [apply _|apply kept_stays|by sp_ret|done|].
  intros sw. cbn beta. sp_norm. subst sw. sp_keep (apply spec_attr) as x.
  eapply (spec_bind_sub _ kept _ (λ w, rt_attrs w !! a = Some v0) _ _ (true, false, held ∅ ms)
    (λ r _, r = (Some d, [], []))); [apply _|apply kept_stays| |sp_side|].
  { unfold handleA2dpBleConcurrency. sp_bind (apply (spec_attr_eq _ _ _ v0)) as v.
    apply (spec_pure _ _ _ (v = v0)); [by intros w [_ ?]|]. intros ->.
    rewrite !bool_decide_eq_false_2 by tauto. by sp_ret. }
  intros r. cbn beta. sp_norm. subst r. cbn iota beta.
  sp_keep (apply (spec_checkAndUpdateGroupDevConfig kept sda)) as g. cbn zeta.
  sp_keep (apply (spec_attr_eq _ _ _ v0)) as v. subst v.
  eapply (spec_bind_sub _ kept _ any _ _ (true, false, held ∅ ms) (λ l w, dis_ok l w));
    [apply _|apply kept_stays| |done|].
  { eapply spec_pre; [|by apply spec_getSharedBE; [apply _..|]]. by intros w _ p Hp%elem_of_nil. }
  intros shared. cbn beta.
  eapply (triple_seq _ _ _ _ (true, false, held ∅ ms) (λ r w, ∃ d v, r.1.2 = Some d ∧
    id_of d (dev_id v) ∧ rt_attrs w !! a = Some v ∧ attrs_in r.2.2 w)).
  - apply spec_decide; intros Hsh.
    + sp_keep (apply spec_upd_fields; [|intros w; unfold updateSndName; by case_match]) as u'.
      sp_keep (apply spec_attr) as y. sp_ret. intros w HP. destruct_and? HP. exists d, v0.
      split_and!; try done. intros p Hp. apply list_elem_of_fmap in Hp as (s&->&_). done.
    + apply (spec_pre _ (λ w, dis_ok shared w ∧ named a w)).
      { intros w [[[[Ha _] _] _] Hs]. split; [done|]. by eexists. }
      sp_go (apply spec_compareShared; done) as sw.
      apply (spec_pre_ok _ (λ w, ∃ v1, rt_attrs w !! a = Some v1 ∧
        (LUT v1 ∧ is_Some (object_of (dev_id v1))))).
      { intros w Hok (_&v1&Ha&Hv). exists v1. split_and!; [done| |done]. by eapply ok_attr. }
      apply spec_ex. intros v1. apply spec_take. intros [Hl1 [d1 Hd1]].
      eapply (spec_bind_sub _ kept _ (attr_in a) _ _ (true, false, held ∅ ms)
        (λ r _, ∀ p, p ∈ r.2 → p.2 = a)); [apply _|apply kept_stays| |intros w Ha; by eexists|].
      { apply triple_if; intros _; [by apply spec_follow, _|].
        sp_ret. by intros w _ p Hp%elem_of_nil. }
      intros p3. cbn beta. sp_norm. sp_keep (apply (spec_attr_eq _ _ _ v1)) as v. subst v.
      sp_keep (apply spec_getInstance; [|done]) as d'. sp_ret. intros w [Ha _]. exists d1, v1.
      cbn [fst snd]. split_and!; try done.
      * rewrite F3, decide_False; [done|]. by apply (law_object _ _ Hd1).
      * intros p Hp. rewrite F2 by done. by eexists.
  - intros [[isSw inDev] p3]. cbn [fst snd]. apply spec_ex. intros d'. apply spec_ex. intros v'.
    apply (spec_pre _ (λ w, (rt_attrs w !! a = Some v' ∧ attrs_in p3.2 w) ∧
      (inDev = Some d' ∧ id_of d' (dev_id v')))); [by intros w (?&?&?&?)|].
    apply spec_take. intros [-> Hid].
    sp_keep (apply (spec_attr_eq _ _ _ v')) as v. subst v.
    by apply (spec_update_tail v' d').
Qed.
End locks.

(** ** A stream is closed *)

Lemma spec_mute_used a g X ms s :
  s ∉ X → spec stays (str s) (a, g, held X ms) (mute_used s) (a, g, held X ms)
            (λ r _, ∀ x, x ∈ r → x = s).
Proof.
  intros Hs. unfold mute_used. sp as status. apply spec_decide; intros _.
  - sp as u. sp_go (apply spec_mute; [|done]) as u'. sp_ret. intros w _ x. set_solver.
  - sp_ret. by intros w _ x Hx%elem_of_nil.
Qed.

Lemma spec_mute_all a g ms l :
  spec stays (strs l) (a, g, held ∅ ms) (mute_all l) (a, g, held ∅ ms) (λ r _, ∀ x, x ∈ r → x ∈ l).
Proof.
  induction l as [|s l IH]; cbn [mute_all]; [by sp_ret|].
  apply (spec_pre _ (λ w, str s w ∧ strs l w)).
  { intros w Hw. split; [apply Hw; by left|]. intros x Hx. apply Hw. by right. }
  sp_go (apply spec_mute_used; set_solver) as r. sp_go (apply IH) as r'. sp_ret.
  intros w _ x [Hx|Hx]%elem_of_app; apply elem_of_cons; auto.
Qed.

Lemma spec_unmute_used a g X ms s :
  s ∉ X → spec stays (str s) (a, g, held X ms) (unmute_used s) (a, g, held X ms) (λ _ _, True).
Proof.
  intros Hs. unfold unmute_used. sp_go (apply spec_mute; [|done]) as u.
  eapply spec_pre; [|by apply spec_log, _]. done.
Qed.

Lemma spec_unmute_all g ms l :
  spec stays (strs l) (false, g, held ∅ ms) (unmute_all l) (false, g, held ∅ ms) (λ _ _, True).
Proof.
  unfold unmute_all. apply spec_decide; intros _; [by sp_ret|]. sp as u.
  eapply (triple_bind _ _ (strs l) _ _ (true, g, held ∅ ms) (λ _ _, True)); [apply _| |sp_side|].
  - apply (spec_for _ _ _ _ (λ _, (true, g, held ∅ ms))). intros l1 s l2 ->.
    eapply spec_pre; [|apply spec_unmute_used; set_solver]. intros w Hw. apply Hw. set_solver.
  - intros v. eapply spec_pre; [|by apply spec_unlockActive, _]. done.
Qed.

Lemma strs_fst l w : dis_ok l w → strs l.*1 w.
Proof. intros Hd s Hs. apply list_elem_of_fmap in Hs as (p&->&Hp). by apply Hd. Qed.

Lemma attrs_in_pairs_to l id a w : attr_in a w → attrs_in (pairs_to l id a).2 w.
Proof. intros Ha p Hp. by apply list_elem_of_fmap in Hp as (s&->&_). Qed.

Section locks.
Context (ms : gmap positive bool).

Lemma spec_shared a g m id :
  in_deviceNameLUT id = true →
  spec stays any (a, g, m) (getSharedBEActiveStreamDevs [] id) (a, g, m) (λ l w, dis_ok l w).
Proof.
  intros Hid. eapply spec_pre; [|by apply spec_getSharedBE; [apply _..|]].
  by intros w _ p Hp%elem_of_nil.
Qed.

Lemma spec_restore_lists dev c nw :
  isHapticsthroughWSA = true →
  spec stays (λ w, dev_in dev w ∧ attr_in c w ∧ attr_in nw w) (true, false, held ∅ ms)
    (restore_lists dev c nw) (true, false, held ∅ ms) (λ r w, ∀ dis con muted,
      r = Some (dis, con, muted) → attrs_in con w ∧ strs muted w).
Proof.
  intros Hh. unfold restore_lists. rewrite Hh. sp as n.
  eapply (triple_bind _ _ (λ w, attr_in c w ∧ attr_in nw w) _ _ (true, false, held ∅ ms)
    (λ _ _, True)); [apply _| |sp_side|].
  { apply spec_decide; intros _; [|by sp_ret].
    eapply spec_weaken; [apply (spec_checkAndUpdateGroupDevConfig stays nw)|done..]. }
  intros g. cbn beta zeta. sp_norm. sp as id. rewrite andb_false_r.
  eapply (triple_bind _ _ any _ _ (true, false, held ∅ ms)
    (λ r _, r = Some (dev, if decide (g.1 = 0) then g.2 else []))); [apply _|by sp_ret|done|].
  intros r. cbn beta. sp_norm. subst r. cbn iota beta. sp as id'.
  sp_go (by apply spec_shared) as shared. apply spec_decide; intros Hsh.
  - sp as new. sp_ret. intros w HP dis con muted [= <- <- <-]. destruct_and? HP. split.
    + by apply (attrs_in_pairs_to _ 0).
    + by intros s Hs%elem_of_nil.
  - sp_go (apply spec_compareShared; done) as sw. sp as cur.
    eapply (triple_bind _ _ any _ _ (true, false, held ∅ ms) (λ _ _, True)); [apply _| |done|].
    { unfold st_and. apply triple_if; intros _; [by apply spec_isDeviceReady; [apply _|]|by sp_ret]. }
    intros ready. cbn beta. sp_norm. destruct ready.
    2:{ sp_ret. intros w _ dis con muted [= <- <- <-].
        split; [by intros p Hp%elem_of_nil|by intros s Hs%elem_of_nil]. }
    apply (spec_pre _ (λ w, strs shared.*1 w ∧ attr_in c w)).
    { intros w HP. destruct_and? HP. split; [by apply strs_fst|done]. }
    sp_go (apply spec_mute_all) as muted. sp_ret. intros w [Hs Hc] dis con m [= <- <- <-].
    split; [by apply (attrs_in_pairs_to _ 0)|]. intros s Hin. apply Hs. auto.
Qed.

Lemma spec_restoreDevice dev :
  isHapticsthroughWSA = true →
  spec stays (dev_in dev) (false, false, held ∅ ms) (restoreDevice dev) (false, false, held ∅ ms)
    (λ _ _, True).
Proof.
  intros Hh. unfold restoreDevice. rewrite Hh. sp as id. sp as n.
  apply triple_if; intros _; [by sp_ret|]. rewrite andb_false_r.
  eapply (triple_bind _ _ any _ _ (false, false, held ∅ ms) (λ r _, r = Some dev));
    [apply _|by sp_ret|done|].
  intros r. cbn beta. sp_norm. subst r. cbn iota beta. sp as cur. sp as c.
  sp_go (apply (spec_alloc _ _ uninit), law_uninit) as nw. sp as u.
  sp_go (by apply spec_restore_lists) as r. sp as u'.
  destruct r as [[[dis con] muted]|]; [|by sp_ret].
  apply (spec_pre _ (λ w, attrs_in con w ∧ strs muted w)).
  { intros w [_ Hr]. by apply (Hr dis con muted). }
  eapply (triple_bind _ _ (attrs_in con) _ _ (false, false, held ∅ ms) (λ _ _, True));
    [apply _| |sp_side|].
  { apply triple_if; intros _; [|by sp_ret].
    eapply (triple_seq _ _ _ _ _ (λ _ _, True)); [apply spec_streamDevSwitch|]. intros r. by sp_ret. }
  intros v. cbn beta. sp_norm. eapply spec_pre; [|apply spec_unmute_all]. sp_side.
Qed.
End locks.
End policy.
