(* ===== verification/RoutingDevice.v ===== *)
(** * Routing: the switch of one stream keeps the state

    The lemmas of RoutingPolicyFacts for [Stream::switchDevice] and its parts. *)

From S2P Require Import Prelude PalDefs Users Device DeviceFacts RoutingState Routing RoutingPolicy.
From S2P Require Import RoutingFacts RoutingConn RoutingSwitch RoutingPolicyFacts.

Local Open Scope st_scope.

Section device.
Context `{RtEnv, !RtLaws, Htable : !RtTable}.

Abbreviation any := (λ _ : RtWorld, True).
Abbreviation LUT v := (in_deviceNameLUT (dev_id v) = true).
Local Abbreviation stays := (RoutingFacts.stays (λ _, True)).

#[local] Instance stable_strs l : Stable stays (strs l).
Proof. unfold strs. apply _. Qed.
#[local] Instance stable_attrs l : Stable stays (attrs_in l).
Proof. unfold attrs_in. apply _. Qed.
#[local] Instance stable_dis l : Stable stays (dis_ok l).
Proof. unfold dis_ok. apply _. Qed.

(** All of a list of structures exist. *)
Definition given (l : list positive) (w : RtWorld) : Prop := ∀ a, a ∈ l → attr_in a w.
Definition devs_in (l : list positive) (w : RtWorld) : Prop := ∀ d, d ∈ l → dev_in d w.
#[local] Instance stable_given l : Stable stays (given l).
Proof. unfold given. apply _. Qed.
#[local] Instance stable_devs l : Stable stays (devs_in l).
Proof. unfold devs_in. apply _. Qed.

Lemma given_cons a l w : given (a :: l) w → attr_in a w ∧ given l w.
Proof. intros Hg. split; [apply Hg; by left|]. intros x Hx. apply Hg. by right. Qed.
Lemma devs_cons a l w : devs_in (a :: l) w → dev_in a w ∧ devs_in l w.
Proof. intros Hg. split; [apply Hg; by left|]. intros x Hx. apply Hg. by right. Qed.
Lemma dis_cons s id l w : dis_ok ((s, id) :: l) w →
  str s w ∧ in_deviceNameLUT id = true ∧ dis_ok l w.
Proof.
  intros Hg. destruct (Hg (s, id)) as [? ?]; [by left|]. split_and!; [done..|].
  intros x Hx. apply Hg. by right.
Qed.

(** ** The scans *)

Lemma spec_checkNone L id :
  in_deviceNameLUT id = true → spec stays any L (checkNone id) L (λ _ _, True).
Proof.
  intros Hid. unfold checkNone. apply triple_if; intros _; [|by sp_ret].
  eapply (triple_bind _ _ any _ _ L (λ _ _, True)); [apply _| |done|].
  { apply triple_if; intros _; [by apply spec_isDeviceReady; [apply _|]|by sp_ret]. }
  intros ready. by sp_ret.
Qed.

Lemma spec_set_combo L s b :
  spec stays any L (upd_stream s (set_isComboHeadsetActive b)) L (λ _ _, True).
Proof. apply spec_upd_stream; [apply _|by intros|by auto]. Qed.

Lemma spec_match_device L s d id n devs :
  spec stays (λ w, dev_in d w ∧ given devs w) L (match_device s d id n devs) L (λ _ _, True).
Proof.
  induction devs as [|a devs IH]; cbn [match_device]; [by sp_ret|].
  apply (spec_pre _ (λ w, dev_in d w ∧ attr_in a w ∧ given devs w)).
  { intros w [? Hg%given_cons]. done. }
  sp as v. sp_go (apply spec_set_combo) as u. apply spec_decide; intros _.
  - sp as cur. by sp_ret.
  - eapply spec_pre; [|apply IH]. sp_side.
Qed.

Lemma spec_scan_current L s hasNone devs cur found :
  spec stays (λ w, devs_in cur w ∧ given devs w) L (scan_current s hasNone devs cur found) L
    (λ r _, ∀ d, d ∈ r.1.1.2 → d ∈ cur).
Proof.
  revert found. induction cur as [|d cur IH]; intros found; cbn [scan_current].
  { sp_ret. intros w _ d. set_solver. }
  apply (spec_pre _ (λ w, dev_in d w ∧ devs_in cur w ∧ given devs w)).
  { intros w [Hd%devs_cons ?]. naive_solver. }
  sp as id.
  eapply (triple_bind _ _ any _ _ L (λ _ _, True)); [apply _| |done|].
  { apply triple_if; intros _; [by apply spec_checkNone|by sp_ret]. }
  intros none. cbn beta. sp_norm. sp_go (apply spec_match_device) as m.
  sp_go (apply IH) as r. destruct r as [[[none' gone] force] fnd]. sp_ret.
  intros w _ x. cbn [fst snd] in *. destruct m; [intros ?; right; auto|].
  intros [->|?]%elem_of_cons; [by left|right; auto].
Qed.

Lemma spec_any_device L devs id :
  spec stays (given devs) L (any_device devs id) L (λ _ _, True).
Proof.
  induction devs as [|a devs IH]; cbn [any_device]; [by sp_ret|].
  apply (spec_pre _ (λ w, attr_in a w ∧ given devs w)); [by intros w Hg%given_cons|].
  sp as v. sp_go (apply IH) as r. by sp_ret.
Qed.

Lemma spec_redirect L o b a :
  spec stays (attr_in a) L (redirect o b a) L (λ _ _, True).
Proof.
  unfold redirect. sp as v.
  assert (∀ id, id ∈ [PAL_DEVICE_OUT_SPEAKER; PAL_DEVICE_OUT_DUMMY] →
    in_deviceNameLUT id = true ∧ is_Some (object_of id)) as Hplug.
  { intros id Hid. split; [|by apply law_plugins]. set_unfold in Hid. by destruct Hid as [->|[->|[]]]. }
  eapply (triple_bind _ _ any _ _ L (λ _ _, True)); [apply _| |done|].
  { apply triple_if; intros _; [|by sp_ret]. cbn zeta.
    set (id := if IsDummyDevEnabled then _ else _).
    assert (id ∈ [PAL_DEVICE_OUT_SPEAKER; PAL_DEVICE_OUT_DUMMY]) as Hid.
    { unfold id. destruct IsDummyDevEnabled; set_solver. }
    destruct (Hplug id Hid) as [Hl Ho]. sp as r. cbn [dev_id with_id] in F0.
    sp_go (apply spec_put_attr; [apply _..|by rewrite F0|by rewrite F0]) as u. by sp_ret. }
  intros ok. cbn beta. sp_norm. apply triple_if; intros _; [by sp_ret|]. sp as v'.
  eapply (triple_seq _ _ _ _ L (λ _ _, True)); [|intros u; by sp_ret].
  apply triple_if; intros _; [|by sp_ret]. sp_inst d Hd; [by sp_ret|]. sp as l.
  apply spec_decide; intros _; [by sp_ret|].
  destruct (Hplug PAL_DEVICE_OUT_DUMMY) as [Hl Ho]; [set_solver|].
  eapply spec_weaken; [apply spec_put_attr; [apply _..|done|done]|done|done].
Qed.

Lemma spec_suspend L s id : spec stays any L (suspend s id) L (λ _ _, True).
Proof.
  unfold suspend. apply triple_if; intros _; [|apply triple_if; intros _; [|by sp_ret]];
    (apply spec_upd_stream; [apply _|by intros|by auto]).
Qed.

Lemma spec_push_pal L s d :
  spec stays (dev_in d) L (upd_stream s (λ o, set_mPalDevices (mPalDevices o ++ [d]) o)) L
    (λ _ _, True).
Proof.
  apply spec_upd_stream; [apply _|by intros|].
  intros w o x Hd _ [?|Hx%list_elem_of_singleton]%elem_of_app; [by left|subst; by right].
Qed.

Lemma spec_scan_new L s all devs none slots bt :
  spec stays (λ w, str s w ∧ given all w ∧ given devs w) L (scan_new s all devs none slots bt) L
    (λ r _, ∀ sl b, r = inr (sl, b) → ∀ a, a ∈ sl → a ∈ slots ++ devs).
Proof.
  revert slots bt. induction devs as [|a devs IH]; intros slots bt; cbn [scan_new].
  { sp_ret. intros w _ sl b [= <- <-] a. by rewrite app_nil_r. }
  apply (spec_pre _ (λ w, (str s w ∧ given all w ∧ given devs w) ∧ attr_in a w)).
  { intros w (?&?&Hg%given_cons). naive_solver. }
  sp as o. sp_go (apply spec_redirect) as r. destruct r.
  2:{ eapply spec_weaken; [apply IH|sp_side|]. intros r w Hr sl b -> x Hx.
      specialize (Hr _ _ eq_refl x Hx). set_solver. }
  sp as v. apply spec_decide; intros _; [by sp_ret|]. sp as ready.
  sp_go (apply spec_any_device) as speaker.
  eapply (triple_bind _ _ any _ _ L (λ _ _, True)); [apply _| |done|].
  { apply triple_if; intros _; [apply spec_suspend|by sp_ret]. }
  intros u1. cbn beta. sp_norm. sp_inst d Hd; [by sp_ret|].
  sp_go (apply spec_insertStreamDeviceAttr; [|by split]) as u2. sp_go (apply spec_push_pal) as u3.
  eapply spec_weaken; [apply IH|sp_side|]. intros r w Hr sl b' -> x Hx.
  specialize (Hr _ _ eq_refl x Hx). destruct ready; set_solver.
Qed.

(** ** The lists *)

(** The lists filled so far: their ids, structures and streams exist. *)
Definition sw_ok (st : Switch) (w : RtWorld) : Prop :=
  attrs_in (sw_con st) w ∧ dis_ok (sw_skipping st) w ∧ strs (sw_muted st) w.
#[local] Instance stable_sw st : Stable stays (sw_ok st).
Proof. unfold sw_ok. apply _. Qed.

Lemma attrs_app l l' w : attrs_in l w → attrs_in l' w → attrs_in (l ++ l') w.
Proof. intros ?? p [?|?]%elem_of_app; auto. Qed.
Lemma strs_app l l' w : strs l w → strs l' w → strs (l ++ l') w.
Proof. intros ?? p [?|?]%elem_of_app; auto. Qed.
Lemma dis_snoc l s id w :
  dis_ok l w → str s w → in_deviceNameLUT id = true → dis_ok (l ++ [(s, id)]) w.
Proof. intros ??? p [?|Hp%list_elem_of_singleton]%elem_of_app; [auto|by subst]. Qed.

(** The ids the streams leave. *)
Definition sw_ids (st : Switch) : Prop := ids_ok (sw_dis st).
Lemma ids_app l l' : ids_ok l → ids_ok l' → ids_ok (l ++ l').
Proof. intros ?? p [?|?]%elem_of_app; auto. Qed.
Lemma ids_pairs l id a : in_deviceNameLUT id = true → ids_ok (pairs_to l id a).1.
Proof. intros Hid p Hp. by apply list_elem_of_fmap in Hp as (s&->&_). Qed.
Lemma ids_one s id : in_deviceNameLUT id = true → ids_ok [(s, id)].
Proof. intros Hid p Hp%list_elem_of_singleton. by subst. Qed.

Section locks.
Context (ms : gmap positive bool) (s : positive).

Abbreviation L := (true, false, held {[s]} ms).
(** Every step hands on well-formed lists. *)
Abbreviation lists := (λ (r : Switch) w, sw_ok r w ∧ sw_ids r).

Lemma spec_share_loop a force b shared st :
  sw_ids st →
  spec stays (λ w, sw_ok st w ∧ dis_ok shared w ∧ attr_in a w) L
    (share_loop s a force b shared st) L lists.
Proof.
  revert st. induction shared as [|[s' id] shared IH]; intros st Hids; cbn [share_loop].
  { sp_ret. by intros w (?&_). }
  apply (spec_pre _ (λ w, (sw_ok st w ∧ str s' w ∧ dis_ok shared w ∧ attr_in a w) ∧
    in_deviceNameLUT id = true)).
  { intros w (?&(?&?&?)%dis_cons&?). done. }
  apply spec_take. intros Hid. apply spec_decide; intros _.
  { eapply spec_pre; [|by apply IH]. by intros w (?&?&?&?). }
  apply triple_if; intros _.
  2:{ eapply spec_pre; [|by apply IH]. by intros w (?&?&?&?). }
  sp as o.
  eapply (triple_bind _ _ (str s') _ _ L (λ m _, ∀ x, x ∈ m → x = s')); [apply _| |sp_side|].
  { apply triple_if; intros Hs; [|by sp_ret; intros w _ x Hx%elem_of_nil].
    apply andb_prop in Hs as [Hs%bool_decide_eq_true _]. apply spec_mute_used. set_solver. }
  intros m. cbn beta. sp_norm. eapply spec_pre; [|apply IH].
  - intros w [((Hc&Hd&Hm)&Hs&Hsh&Ha) _]. split; [|done]. split_and!; cbn; [|done|].
    + apply attrs_in_snoc; done.
    + apply strs_app; [done|]. intros x ->%F0. done.
  - by apply ids_app; [|apply ids_one].
Qed.

Lemma spec_sco_follow sco (x : bool * pal_stream_attributes) st id :
  type x.2 ∉ [PAL_STREAM_VOIP_RX; PAL_STREAM_VOIP_TX] → sw_ids st →
  spec stays (sw_ok st) L (sco_follow sco (type x.2) id st) L
    (λ r w, ∃ st', r = inr st' ∧ sw_ok st' w ∧ sw_ids st').
Proof.
  intros Hty Hids. unfold sco_follow, sco_other. set_unfold in Hty.
  rewrite !(bool_decide_eq_false_2 (type x.2 = _)) by tauto. cbn [andb].
  eapply (triple_bind _ _ any _ _ L (λ r _, r = None)); [apply _| |done|].
  { apply triple_if; intros _; by sp_ret. }
  intros r. cbn beta. sp_norm. subst r. sp_ret. intros w ?. by exists st.
Qed.

Lemma spec_group_pairs a sda ty enable st :
  sw_ids st → spec stays (λ w, sw_ok st w ∧ attr_in a w ∧ attr_in sda w) L
    (group_pairs a sda ty enable st) L lists.
Proof.
  intros Hids. unfold group_pairs. sp_go (apply (spec_checkAndUpdateGroupDevConfig stays sda)) as g.
  sp as v. sp_ret. intros w [(Hok&_&Hsda) _]. case_decide; [|done].
  destruct Hok as (?&?&?). split; [split_and!; cbn; [|done|done]|].
  - apply attrs_app; [done|]. by apply (attrs_in_pairs_to _ 0).
  - apply ids_app; [done|]. by apply ids_pairs.
Qed.

Lemma spec_voice_elems a shared st :
  sw_ids st → spec stays (λ w, sw_ok st w ∧ dis_ok shared w ∧ attr_in a w) L
    (voice_elems a shared st) L lists.
Proof.
  revert st. induction shared as [|[s' id] shared IH]; intros st Hids; cbn [voice_elems].
  { sp_ret. by intros w (?&_). }
  apply (spec_pre _ (λ w, (sw_ok st w ∧ str s' w ∧ dis_ok shared w ∧ attr_in a w) ∧
    in_deviceNameLUT id = true)).
  { intros w (?&(?&?&?)%dis_cons&?). done. }
  apply spec_take. intros Hid. sp as v. sp_go (apply spec_isValidDeviceSwitchForStream) as valid.
  eapply spec_pre; [|apply IH].
  - intros w ((Hc&Hd&Hm)&Hs&Hsh&Ha). (split; [|done]); destruct valid; split_and!; cbn; try done.
    + by apply attrs_in_snoc.
    + by apply dis_snoc.
  - destruct valid; [by apply ids_app; [|apply ids_one]|done].
Qed.

Lemma spec_voice_loop a ty new cur shared st :
  sw_ids st → spec stays (λ w, sw_ok st w ∧ dis_ok shared w ∧ attr_in a w ∧ devs_in cur w) L
    (voice_loop a ty new cur shared st) L lists.
Proof.
  revert shared st. induction cur as [|d cur IH]; intros shared st Hids; cbn [voice_loop].
  { sp_ret. by intros w (?&_). }
  apply (spec_pre _ (λ w, (sw_ok st w ∧ attr_in a w ∧ devs_in cur w ∧ dev_in d w) ∧ dis_ok shared w)).
  { intros w (?&?&?&?%devs_cons). naive_solver. }
  sp as id. apply triple_if; intros _.
  2:{ eapply spec_pre; [|by apply IH]. by intros w [(?&?&?&?) ?]. }
  eapply (triple_bind _ _ (dis_ok shared) _ _ L (λ l w, dis_ok l w));
    [apply _|by apply spec_getSharedBE; [apply _..|]|sp_side|].
  intros shared'. cbn beta zeta. set (st' := mkSwitch _ _ _ _ _ _).
  eapply (triple_bind _ _ (λ w, sw_ok st w ∧ dis_ok shared' w ∧ attr_in a w) _ _ L lists);
    [apply _| |by intros w [[(?&?&?&?) _] ?]|].
  { apply triple_if; intros _; [by apply (spec_voice_elems a shared' st')|].
    sp_ret. by intros w (?&_). }
  intros st2. cbn beta. sp_norm. eapply spec_pre; [|by apply IH].
  by intros w [[[(?&?&?&?) _] ?] ?].
Qed.

Lemma spec_leave_loop a sda ty new gone st :
  sw_ids st →
  spec stays (λ w, sw_ok st w ∧ attr_in a w ∧ attr_in sda w ∧ devs_in gone w) L
    (leave_loop s a sda ty new gone st) L lists.
Proof.
  revert st. induction gone as [|d gone IH]; intros st Hids; cbn [leave_loop].
  { sp_ret. by intros w (?&_). }
  apply (spec_pre _ (λ w, (sw_ok st w ∧ attr_in a w ∧ attr_in sda w ∧ devs_in gone w) ∧ dev_in d w)).
  { intros w (?&?&?&?%devs_cons). naive_solver. }
  sp as id. sp as v. apply triple_if; intros _.
  2:{ eapply spec_pre; [|by apply IH]. by intros w [(?&?&?&?) ?]. }
  sp as n. cbn zeta. set (st' := set_match _ _).
  assert (sw_ids st') as Hids' by (by apply ids_app; [|apply ids_one]).
  eapply (triple_bind _ _ (λ w, sw_ok st' w ∧ attr_in sda w ∧ dev_in d w) _ _ L lists); [apply _| | |].
  { apply triple_if; intros _; [|sp_ret; by intros w (?&_)]. sp as dAttr.
    sp_go (apply spec_alloc; [|by destruct F0]) as c. eapply spec_pre; [|by apply spec_group_pairs].
    intros w [(?&?&?) (?&?)]. done. }
  { intros w [((Hc&Hd&Hm)&?&?&?) ?]. split; [|done]. split_and!; cbn; try done. by apply attrs_app; [|intros p Hp%elem_of_nil]. }
  intros st2. cbn beta. sp_norm. eapply spec_pre; [|by apply IH].
  intros w [[(?&?&?&?) ?] ?]. done.
Qed.

(** ** A switch *)

(** The lists are handed on: no error. *)
Abbreviation handed := (λ (r : Z + Switch) w, ∃ st, r = inr st ∧ sw_ok st w ∧ sw_ids st).

Context (x : bool * pal_stream_attributes).
Hypothesis not_voip : type x.2 ∉ [PAL_STREAM_VOIP_RX; PAL_STREAM_VOIP_TX].
Hypothesis wsa : isHapticsthroughWSA = true.

Lemma spec_new_shared a sda sco force new ty key shared st :
  ty = type x.2 → sw_ids st →
  spec stays (λ w, sw_ok st w ∧ dis_ok shared w ∧ attr_in a w ∧ attr_in sda w) L
    (if decide (shared = []) then
       st_modify (updateSndName new (getSndDevName new ty key)) ;;;;
       st <-- group_pairs a sda ty true (set_match true st) ;; st_ret (inr st)
     else
       switchStreams <-- compareSharedBEStreamDevAttr shared a true ;;
       st <-- share_loop s a force switchStreams shared st ;;
       sco_follow sco ty new st) L handed.
Proof.
  intros -> Hids. apply spec_decide; intros Hsh.
  - sp_go (apply spec_upd_fields; [|intros w; unfold updateSndName; by case_match]) as u.
    eapply (triple_seq _ _ _ _ L (lists)).
    + eapply spec_pre; [|by apply (spec_group_pairs a sda _ true (set_match true st))].
      intros w (?&?&?&?). done.
    + intros st'. sp_ret. intros w [? ?]. by exists st'.
  - sp_go (apply spec_compareShared; done) as sw.
    eapply (triple_seq _ _ _ _ L (lists)).
    + eapply spec_pre; [|by apply spec_share_loop]. by intros w (?&?&?&?).
    + intros st'. apply spec_take. intros Hids'. by apply spec_sco_follow.
Qed.

Lemma spec_new_device a sda sco gone force st :
  sw_ids st →
  spec stays (λ w, sw_ok st w ∧ (str s w ∧ static w !! s = Some x ∧ attr_in a w ∧ attr_in sda w ∧
                   devs_in gone w)) L
    (new_device s a sda sco gone force st) L handed.
Proof.
  intros Hids. unfold new_device. sp as o.
  apply (spec_pure _ _ _ (type (mStreamAttr o) = type x.2)).
  { intros w [(_&_&Hx&_) [Ho _]]. rewrite Hx in Ho. by injection Ho as ->. }
  intros Hty. apply (spec_pre _ (λ w, sw_ok st w ∧ (str s w ∧ attr_in a w ∧ attr_in sda w ∧
                   devs_in gone w))); [by intros w [(?&?&?&?&?&?) _]|].
  cbn zeta. sp as v. sp_go (by apply spec_shared) as shared.
  eapply (triple_bind _ _ (λ w, sw_ok st w ∧ dis_ok shared w ∧ attr_in a w ∧ attr_in sda w) _ _ L handed);
    [apply _|by apply spec_new_shared|by intros w [(?&?&?&?&?) ?]|].
  intros r. cbn beta.
  apply (spec_pre _ (λ w, ∃ st, (str s w ∧ attr_in a w ∧ attr_in sda w ∧ devs_in gone w) ∧ sw_ok st w ∧
    r = inr st ∧ sw_ids st)).
  { intros w [[(?&?&?&?&?) _] (st'&?&?&?)]. by exists st'. }
  apply spec_ex. intros st'.
  apply (spec_pre _ (λ w, ((str s w ∧ attr_in a w ∧ attr_in sda w ∧ devs_in gone w) ∧ sw_ok st' w) ∧
    (r = inr st' ∧ sw_ids st'))); [by intros w (?&?&?&?)|].
  apply spec_take. intros [-> Hids']. rewrite wsa.
  eapply (triple_bind _ _ any _ _ L (λ _ _, True)); [apply _|by sp_ret|done|].
  intros u. cbn beta. sp_norm. sp as o2.
  eapply (triple_bind _ _ (λ w, sw_ok st' w ∧ dis_ok [] w ∧ attr_in a w ∧ devs_in (mDevices o2) w) _ _ L
    lists); [apply _|by apply spec_voice_loop| |].
  { intros w [[(?&?&?&?) ?] [_ Hd]]. split_and!; [done|by intros p Hp%elem_of_nil|done|].
    intros d Hin. apply Hd, elem_of_app. by left. }
  intros st2. cbn beta. sp_norm.
  eapply (triple_bind _ _ (λ w, sw_ok st2 w ∧ attr_in a w ∧ attr_in sda w ∧ devs_in gone w) _ _ L lists);
    [apply _|by apply spec_leave_loop|by intros w [[[(?&?&?&?) ?] _] ?]|].
  intros st3. cbn beta. sp_norm. sp_ret. intros w [[[[(?&?&?&?) ?] _] ?] (Hc&Hd&Hm)].
  eexists. split; [done|]. destruct (_ || _); (split; [split_and!; cbn; try done|]).
  - by apply attrs_in_snoc.
  - by apply ids_app; [|intros p Hp%elem_of_nil].
  - done.
Qed.

Lemma spec_new_devices sda sco gone force slots st :
  sw_ids st →
  spec stays (λ w, sw_ok st w ∧ (str s w ∧ static w !! s = Some x ∧ given slots w ∧ attr_in sda w ∧
                   devs_in gone w)) L
    (new_devices s sda sco gone force slots st) L handed.
Proof.
  revert st. induction slots as [|a slots IH]; intros st Hids; cbn [new_devices].
  { sp_ret. intros w (?&_). by exists st. }
  apply (spec_pre _ (λ w, sw_ok st w ∧ ((str s w ∧ static w !! s = Some x ∧ given slots w ∧
    attr_in sda w ∧ devs_in gone w) ∧ attr_in a w))).
  { intros w (?&?&?&?%given_cons&?&?). naive_solver. }
  eapply (triple_bind _ _ (λ w, sw_ok st w ∧ (str s w ∧ static w !! s = Some x ∧ attr_in a w ∧
    attr_in sda w ∧ devs_in gone w)) _ _ L handed); [apply _|by apply spec_new_device| |].
  { intros w (?&(?&?&?&?&?)&?). done. }
  intros r. cbn beta.
  apply (spec_pre _ (λ w, ∃ st', (sw_ok st' w ∧ (str s w ∧ static w !! s = Some x ∧ given slots w ∧
    attr_in sda w ∧ devs_in gone w)) ∧ (r = inr st' ∧ sw_ids st'))).
  { intros w [(_&?&_) (st'&?&?&?)]. by exists st'. }
  apply spec_ex. intros st'. apply spec_take. intros [-> Hids']. by apply IH.
Qed.

Lemma spec_both_unlock status :
  spec stays (str s) L (both_unlock s status) (false, false, held ∅ ms) (λ _ _, True).
Proof.
  unfold both_unlock. sp_go (apply spec_unlockStream; [|set_solver]) as u.
  replace ({[s]} ∖ {[s]} : gset positive) with (∅ : gset positive) by set_solver.
  sp as u'. by sp_ret.
Qed.

Lemma spec_set_field X (f : RtStream → RtStream) :
  (∀ o, rs_detection (f o) = rs_detection o ∧ mStreamAttr (f o) = mStreamAttr o ∧
        currentState (f o) = currentState o ∧ mDevices (f o) = mDevices o ∧
        mStreamMutex (f o) = mStreamMutex o ∧ mPalDevices (f o) = mPalDevices o) →
  spec stays any X (upd_stream s f) X (λ _ _, True).
Proof.
  intros Hf. apply spec_upd_stream; [apply _|intros o; by destruct (Hf o) as (?&?&?&?&?&?)|].
  intros w o d _ _. destruct (Hf o) as (_&_&_&_&_&->). auto.
Qed.

Lemma spec_switch_done n bt muted status :
  spec stays (λ w, str s w ∧ strs muted w) (false, false, held ∅ ms)
    (switch_done s n bt muted status) (false, false, held ∅ ms) (λ _ _, True).
Proof.
  unfold switch_done. sp_go (apply spec_unmute_all) as u.
  sp_go (apply spec_lockStream; [|set_solver]) as u1. sp as o.
  replace (held ∅ ms) with (held (({[s]} ∪ ∅) ∖ {[s]}) ms) by (f_equal; set_solver).
  apply triple_if; intros _.
  { sp_go (apply spec_unlockStream; [|set_solver]) as u2. by sp_ret. }
  eapply (triple_bind _ _ any _ _ (false, false, held ({[s]} ∪ ∅) ms) (λ _ _, True));
    [apply _| |done|].
  { apply triple_if; intros _; [|by sp_ret]. sp_go (by apply spec_set_field) as u2.
    sp as u3. sp as st. sp as u4. by sp_ret. }
  intros st. cbn beta. sp_norm. sp_go (by apply spec_set_field) as u5.
  sp_go (apply spec_unlockStream; [|set_solver]) as u6. by sp_ret.
Qed.

Lemma spec_run_switch new bt st :
  @is_multiple_sample_rate_combo_supported rt_dev = true → sw_ids st →
  spec stays (λ w, str s w ∧ sw_ok st w) (false, false, held ∅ ms) (run_switch s new bt st)
    (false, false, held ∅ ms) (λ _ _, True).
Proof.
  intros Hm Hids. unfold run_switch. rewrite Hm.
  eapply (triple_bind _ _ any _ _ (false, false, held ∅ ms) (λ _ _, True)); [apply _| |done|].
  { destruct new as [|? [|? ?]]; by sp_ret. }
  intros u. cbn beta. sp_norm. unfold sw_ok.
  sp_go (by apply spec_restoreDeviceConfigForUPD) as r. destruct r as [[status dis] con].
  cbn [snd]. apply spec_decide; intros _.
  { eapply spec_pre; [|apply spec_switch_done]. sp_side. }
  sp_go (apply spec_streamDevSwitch) as st'. eapply spec_pre; [|apply spec_switch_done]. sp_side.
Qed.

Lemma spec_forget_directions X new :
  spec stays (λ w, str s w ∧ given new w) X (forget_directions s new) X (λ _ _, True).
Proof.
  unfold forget_directions.
  eapply (triple_bind _ _ (given new) _ _ X (λ _ _, True)); [apply _| |sp_side|].
  { apply spec_query; [apply _|]. intros w _ _ Hg.
    assert (is_Some (mapM (λ a, dev_id <$> rt_attrs w !! a) new)) as [r Hr]; [|by exists r].
    apply mapM_is_Some, Forall_forall. intros a Ha. destruct (Hg a Ha) as [v Hv].
    exists (dev_id v). cbn beta. by rewrite Hv. }
  intros ids. cbn beta. sp_norm. eapply spec_pre; [|apply spec_filter_pal_devices]. sp_side.
Qed.

Lemma spec_switchDevice new :
  @is_multiple_sample_rate_combo_supported rt_dev = true →
  spec stays (λ w, static w !! s = Some x ∧ given new w) (false, false, held ∅ ms)
    (switchDevice s new) (false, false, held ∅ ms) (λ _ _, True).
Proof.
  intros Hm. unfold switchDevice.
  apply (spec_pre _ (λ w, str s w ∧ static w !! s = Some x ∧ given new w)).
  { intros w [Hs ?]. split; [|done]. apply str_static. by eexists. }
  sp as u. sp_go (apply spec_lockStream; [|set_solver]) as u1.
  replace ({[s]} ∪ ∅ : gset positive) with ({[s]} : gset positive) by set_solver.
  apply triple_if; intros _; [eapply spec_pre; [|apply spec_both_unlock]; sp_side|].
  sp_go (apply spec_any_device) as hasNone. sp as o.
  eapply (triple_bind _ _ (λ w, devs_in (mDevices o) w ∧ given new w) _ _ L
    (λ r _, ∀ d, d ∈ r.1.1.2 → d ∈ mDevices o)); [apply _|apply spec_scan_current| |].
  { intros w [(?&?&?) [_ Hd]]. split; [|done]. intros d Hin. apply Hd, elem_of_app. by left. }
  intros [[[none gone] force] found]. cbn [fst snd]. cbn beta. sp_norm.
  apply (spec_pre _ (λ w, str s w ∧ static w !! s = Some x ∧ given new w ∧ devs_in gone w)).
  { intros w [(?&?&?) [_ Hd]]. split_and!; try done. intros d Hin. apply Hd, elem_of_app. left. auto. }
  sp_go (apply spec_forget_directions) as u2.
  sp_go (apply spec_scan_new) as r. destruct r as [status|[slots bt]].
  { eapply spec_pre; [|apply spec_both_unlock]. sp_side. }
  destruct slots as [|a slots]; [eapply spec_pre; [|apply spec_both_unlock]; sp_side|].
  set (sl := a :: slots) in *.
  sp_go (apply (spec_alloc _ _ uninit), law_uninit) as sda.
  sp_go (apply (spec_alloc _ _ (zeroed 0)); done) as sco.
  set (st0 := mkSwitch [] [] [] [] found false).
  eapply (triple_bind _ _ (λ w, sw_ok st0 w ∧ (str s w ∧ static w !! s = Some x ∧ given sl w ∧
    attr_in sda w ∧ devs_in gone w)) _ _ L handed); [apply _| | |].
  { apply spec_new_devices. by intros p Hp%elem_of_nil. }
  { intros w HP. destruct_and? HP. split_and!; try done.
    - split_and!; by intros p Hp%elem_of_nil.
    - intros b Hb. apply (F1 _ _ eq_refl) in Hb. auto. }
  intros r. cbn beta.
  apply (spec_pre _ (λ w, ∃ st, (str s w ∧ sw_ok st w) ∧ (r = inr st ∧ sw_ids st))).
  { intros w [HP (st&?&?&?)]. exists st. destruct_and? HP. done. }
  apply spec_ex. intros st. apply spec_take. intros [-> Hids]. cbn iota.
  sp_go (apply spec_both_unlock) as u3. apply triple_if; intros _.
  - eapply spec_pre; [|apply spec_switch_done]. by intros w (?&_&_&?).
  - by apply spec_run_switch.
Qed.
End locks.
End device.
