(* ===== verification/RoutingSpec.v ===== *)
(** * Routing: what holds of it

    Any history of the calls that connect, disconnect and switch streams returns, gives
    its mutexes back and keeps the state well formed; the devices are open as often as
    streams use them, and no stream uses a back end twice; the outcomes of a connection
    and a disconnection on every branch; the search for the streams of a back end. *)

From S2P Require Import Prelude PalDefs Users Device DeviceFacts RoutingState Routing RoutingPolicy.
From S2P Require Import RoutingFacts RoutingConn RoutingSwitch RoutingPolicyFacts RoutingDevice.

Local Open Scope st_scope.

(** ** Histories *)

(** The calls of the API and of the resource manager's own reactions, with the
    structures the caller passes. *)
Inductive RtCall :=
  | CallConnect (s : positive) (v : pal_device)
  | CallDisconnect (s : positive) (id : Z)
  | CallSwitch (dis : list (positive * Z)) (con : list (positive * pal_device))
  | CallForce (d : positive) (v : pal_device)
  | CallForceStreams (d : positive) (v : pal_device) (l : list positive)
  | CallOpen (v : pal_device) (sattr : pal_stream_attributes)
  | CallClose (d : positive)
  | CallSwitchDevice (s : positive) (devs : list pal_device).

Section history.
Context `{RtEnv}.

(** Variables of the caller. *)
Fixpoint alloc_all (l : list pal_device) : St RtWorld (list positive) :=
  match l with
  | [] => st_ret []
  | v :: l => a <-- alloc v ;; r <-- alloc_all l ;; st_ret (a :: r)
  end.

Definition run (c : RtCall) : St RtWorld unit :=
  match c with
  | CallConnect s v => a <-- alloc v ;; connectStreamDevice s a ;;;; st_ret tt
  | CallDisconnect s id => disconnectStreamDevice s id ;;;; st_ret tt
  | CallSwitch dis con =>
      as_ <-- alloc_all con.*2 ;; streamDevSwitch dis (zip con.*1 as_) ;;;; st_ret tt
  | CallForce d v => a <-- alloc v ;; forceDeviceSwitch d a ;;;; st_ret tt
  | CallForceStreams d v l => a <-- alloc v ;; forceDeviceSwitch_streams d a l ;;;; st_ret tt
  | CallOpen v sattr =>
      d <-- getInstance v ;; a <-- alloc v ;; updateDeviceConfig d a sattr ;;;; st_ret tt
  | CallClose d => restoreDevice d
  | CallSwitchDevice s devs => as_ <-- alloc_all devs ;; switchDevice s as_ ;;;; st_ret tt
  end.

Abbreviation LUT v := (in_deviceNameLUT (dev_id v) = true).

(** What a caller has to respect: streams and devices exist, ids are in the table; and
    what the code does not survive is left out (a device opened for A2DP or a BLE
    microphone, a switch of a VoIP stream). *)
Definition allowed (c : RtCall) (w : RtWorld) : Prop :=
  match c with
  | CallConnect s v => str s w ∧ LUT v
  | CallDisconnect s _ => str s w
  | CallSwitch _ con => Forall (λ p, LUT p.2) con
  | CallForce d v => dev_in d w ∧ LUT v
  | CallForceStreams d v _ => dev_in d w ∧ LUT v ∧ is_Some (object_of (dev_id v))
  | CallOpen v _ => LUT v ∧ is_Some (object_of (dev_id v)) ∧
      dev_id v ∉ [PAL_DEVICE_OUT_BLUETOOTH_A2DP; PAL_DEVICE_IN_BLUETOOTH_BLE]
  | CallClose d => dev_in d w
  | CallSwitchDevice s devs => Forall (λ v, LUT v) devs ∧
      ∃ x, static w !! s = Some x ∧ type x.2 ∉ [PAL_STREAM_VOIP_RX; PAL_STREAM_VOIP_TX]
  end.

(** No mutex is held. *)
Definition idle (w : RtWorld) : Prop :=
  mActiveStreamMutex w = false ∧ mGraphMutex w = false ∧
  ∀ s b, mutexes w !! s = Some b → b = false.

Context `{!RtLaws, Htable : !RtTable}.
Hypothesis wsa : isHapticsthroughWSA = true.
Hypothesis combo : @is_multiple_sample_rate_combo_supported rt_dev = true.

Local Abbreviation stays := (RoutingFacts.stays (λ _, True)).
Abbreviation any := (λ _ : RtWorld, True).

#[local] Instance stable_attrs l : Stable stays (attrs_in l).
Proof. unfold attrs_in. apply _. Qed.
#[local] Instance stable_given l : Stable stays (given l).
Proof. unfold given. apply _. Qed.

Lemma idle_locks w : idle w → locks w = (false, false, held ∅ (mutexes w)).
Proof.
  intros (Ha&Hg&Hm). unfold locks. rewrite Ha, Hg. f_equal. apply map_eq. intros s.
  rewrite held_lookup. destruct (mutexes w !! s) as [b|] eqn:Hs; [|done]. cbn.
  by rewrite (Hm s b Hs).
Qed.

Lemma allowed_stable c : Stable stays (allowed c).
Proof.
  destruct c; unfold allowed; try apply _.
  intros w w' _ _ Hs [? (x&Hx&?)]. split; [done|]. exists x.
  by rewrite (g_static _ _ (stays_grows _ _ _ Hs)).
Qed.

Lemma spec_alloc_all L l :
  Forall (λ v, LUT v) l → spec stays any L (alloc_all l) L (λ r w, given r w).
Proof.
  induction 1 as [|v l Hv Hl IH]; cbn [alloc_all]; [sp_ret; by intros w _ a Ha%elem_of_nil|].
  sp as a. sp_go (apply IH) as r. sp_ret. intros w [[_ [? _]] Hr] b [->|Hb]%elem_of_cons; auto.
Qed.

Lemma spec_then {A} P L (m : St RtWorld A) :
  spec stays P L m L (λ _ _, True) → spec stays P L (m ;;;; st_ret tt) L (λ _ _, True).
Proof. intros Hm. eapply triple_seq; [apply _|exact Hm|]. intros r. by sp_ret. Qed.

(** One call. *)
Lemma spec_run ms c :
  spec stays (allowed c) (false, false, held ∅ ms) (run c) (false, false, held ∅ ms) (λ _ _, True).
Proof.
  destruct c; unfold run, allowed.
  - apply (spec_pre _ (λ w, str s w ∧ LUT v)); [done|]. apply spec_take. intros Hl. sp as a.
    apply spec_then. eapply spec_pre; [|apply spec_connectStreamDevice; set_solver]. sp_side.
  - apply spec_then, spec_disconnectStreamDevice. set_solver.
  - apply (spec_pure _ _ _ (Forall (λ p, LUT p.2) con)); [done|]. intros Hl.
    eapply (triple_bind _ _ any _ _ _ (λ r w, given r w)); [apply _| |done|].
    { apply spec_alloc_all. by apply Forall_fmap. }
    intros as_. cbn beta. apply spec_then. eapply spec_pre; [|apply spec_streamDevSwitch].
    intros w [_ Hg] p Hp. apply Hg. destruct p as [s a]. by eapply elem_of_zip_r.
  - apply spec_take. intros Hl. sp as a. apply spec_then.
    eapply spec_pre; [|apply spec_forceDeviceSwitch]. sp_side.
  - apply (spec_pre _ (λ w, dev_in d w ∧ (LUT v ∧ is_Some (object_of (dev_id v))))); [done|].
    apply spec_take. intros [Hl Ho]. sp as a. apply spec_then.
    eapply spec_pre; [|apply spec_forceDeviceSwitch_streams]. intros w (?&_&?). auto.
  - apply (spec_pure _ _ _ (LUT v ∧ is_Some (object_of (dev_id v)) ∧
      dev_id v ∉ [PAL_DEVICE_OUT_BLUETOOTH_A2DP; PAL_DEVICE_IN_BLUETOOTH_BLE])); [done|].
    intros (Hl&[d Ho]&Hbt). apply (spec_pre _ any); [done|]. sp as r.
    rewrite decide_False in F by (by apply (law_object _ _ Ho)). rewrite F, Ho.
    eapply (triple_bind _ _ any _ _ _ (λ a w, rt_attrs w !! a = Some v)); [apply _| |done|].
    { by apply spec_alloc_eq; [apply _|]. }
    intros a. cbn beta. apply spec_then.
    eapply spec_pre; [|by apply (spec_updateDeviceConfig ms a d v)]. by intros w [_ ?].
  - by apply spec_restoreDevice.
  - apply (spec_pre _ (λ w, ∃ x, static w !! s = Some x ∧
      (Forall (λ v, LUT v) devs ∧ type x.2 ∉ [PAL_STREAM_VOIP_RX; PAL_STREAM_VOIP_TX]))).
    { intros w (?&x&?&?). by exists x. }
    apply spec_ex. intros x. apply spec_take. intros [Hl Hx].
    eapply (triple_bind _ _ any _ _ _ (λ r w, given r w)); [apply _|by apply spec_alloc_all|done|].
    intros as_. cbn beta. apply spec_then. by apply (spec_switchDevice _ _ x).
Qed.

Lemma run_all cs w :
  ok w → idle w → (∀ c, c ∈ cs → allowed c w) →
  st_wp (st_for cs run) (λ _ w', ok w' ∧ stays w w' ∧ locks w' = locks w) w.
Proof.
  intros Hok Hi Hc. pose proof (idle_locks w Hi) as HL.
  set (L := (false, false, held ∅ (mutexes w))) in HL.
  assert (Stable stays (λ w, ∀ c, c ∈ cs → allowed c w)).
  { intros w1 w2 Ho1 Ho2 Hs Ha c Hin. exact (allowed_stable c w1 w2 Ho1 Ho2 Hs (Ha c Hin)). }
  assert (spec stays (λ w, ∀ c, c ∈ cs → allowed c w) L (st_for cs run) L (λ _ _, True)) as Hs.
  { apply (spec_for _ _ _ _ (λ _, L)). intros l1 c l2 ->. eapply spec_pre; [|apply spec_run].
    intros w' Ha. apply Ha. set_solver. }
  eapply st_wp_mono; [by apply Hs|]. cbn beta. intros _ w' (?&?&?&_). split_and!; [done..|].
  by rewrite HL.
Qed.



End history.

(** ** Outcomes *)

Section outcomes.
Context `{RtEnv, !RtLaws}.

(** C23: A connection with the sound card up, of a stream that is not idle and no sound
    trigger stream, to a device whose object exists, either gives the
    stream the device, at the end of its list, or leaves its devices as they were: the
    latter with status 0 when it already uses the back end (exactly then), otherwise with
    an error; the former with status 0, but for the reset of the sound card and the status
    of the current limiter of a speaker. *)
Theorem connect_outcome s a v st devs d w :
  ok w → mGraphMutex w = false → card_up → st ≠ STREAM_IDLE →
  (∃ x, static w !! s = Some (false, x)) →
  conn w !! s = Some (st, devs) → rt_attrs w !! a = Some v → object_of (dev_id v) = Some d →
  st_wp (connectStreamDevice_l s a) (λ r w', ok w' ∧ locks w' = locks w ∧
    connected s st devs d r w') w.
Proof.
  intros Hok Hg Hup Hst [x Hx] Hs Ha Ho. unfold connectStreamDevice_l. apply st_wp_bind.
  unfold static in Hx. rewrite lookup_fmap in Hx. apply fmap_Some in Hx as (o&Hso&[= Hdet _]).
  eapply st_wp_query; [done|]. rewrite <- Hdet.
  eapply st_wp_mono.
  { apply (spec_base_connect_outcome (λ _, False) (mActiveStreamMutex w) (mutexes w) s a v st devs d);
      [done..| |done]. unfold locks. by rewrite Hg. }
  cbn beta. intros r w' (?&_&HL&?). split_and!; [done| |done]. rewrite HL. unfold locks. by rewrite Hg.
Qed.

Lemma idle_or_down_up o w : card_up →
  ∃ w', idle_or_down o w = Some (bool_decide (currentState o = STREAM_IDLE), w') ∧
    rt_users w' = rt_users w ∧ rt_streams w' = rt_streams w ∧ rt_devices w' = rt_devices w ∧
    rt_attrs w' = rt_attrs w ∧ locks w' = locks w.
Proof.
  intros Hup. unfold idle_or_down, st_or. case_bool_decide; [by exists w|].
  eexists. split; [unfold card_down, st_bind, ask; cbn; by rewrite Hup|done].
Qed.

(** C24: A disconnection with the sound card up, of a stream that is no sound trigger
    stream: a stream without the device keeps its list and its state, with status 0;
    otherwise the device is taken off the stream's list - always from an idle stream, and
    from another exactly when the status is 0. *)
Theorem disconnect_outcome s id o w :
  ok w → mGraphMutex w = false → card_up → rt_streams w !! s = Some o → rs_detection o = false →
  st_wp (disconnectStreamDevice_l s id) (λ r w', ok w' ∧ locks w' = locks w ∧
    match find_device o id w with
    | None => r = 0 ∧ conn w' !! s = Some (currentState o, mDevices o)
    | Some (i, _) =>
        (currentState o = STREAM_IDLE → r = 0) ∧
        conn w' !! s = Some (currentState o, if decide (r = 0) then delete i (mDevices o) else mDevices o)
    end) w.
Proof.
  intros Hok Hg Hup Hs Hdet. unfold disconnectStreamDevice_l. apply st_wp_bind.
  eapply st_wp_query; [done|]. rewrite Hdet. unfold base_disconnect. apply st_wp_bind.
  eapply st_wp_query; [done|]. apply st_wp_bind.
  destruct (idle_or_down_up o w Hup) as (w1&Hw1&Hu&Hst&Hd&Ha&HL). eexists _, _. split; [done|].
  apply st_wp_bind, st_wp_gets.
  assert (find_device o id w1 = find_device o id w) as ->.
  { unfold find_device. apply list_find_ext. intros d. unfold snd_id. by rewrite Hd. }
  assert (ok w1) as Hok1 by (by eapply ok_fields; [..|exact Hok]).
  assert (conn w1 !! s = Some (currentState o, mDevices o)) as Hc.
  { unfold conn. by rewrite Hst, lookup_fmap, Hs. }
  assert (locks w1 = (mActiveStreamMutex w, false, mutexes w)) as HL1.
  { rewrite HL. unfold locks. by rewrite Hg. }
  destruct (find_device o id w) as [[i d]|] eqn:Hf; case_bool_decide as Hi.
  - apply st_wp_bind. eexists _, _. split; [done|].
    destruct (set_conn_ok w1 s (currentState o) (mDevices o) (delete i)) as (Hok2&_&_&HL2&Hc2&_);
      [done..| |].
    { intros x Hx. left. eapply elem_of_submseteq; [done|].
      apply sublist_submseteq, sublist_delete. }
    apply st_wp_ret. split_and!; [done|by rewrite HL2|done|]. rewrite Hc2. apply lookup_insert_eq.
  - apply list_find_Some in Hf as (Hl&_&_).
    eapply st_wp_mono; [apply (spec_disconnect_found (λ _, False) (mActiveStreamMutex w) (mutexes w) s o i d Hi Hl); try done|].
    + split_and!; [done| |unfold str; rewrite Hst; by eexists].
      apply (ok_conn _ Hok1 _ _ d Hc). by eapply list_elem_of_lookup_2.
    + cbn beta. intros r w' (?&_&HL'&?). split_and!; [done| |done|done].
      rewrite HL', <- HL1. done.
  - apply st_wp_bind, st_wp_ret, st_wp_ret. by rewrite HL.
  - apply st_wp_bind.
    eapply st_wp_mono; [apply (spec_checkAndSetDutyCycleParam calm _ w1 Hok1 eq_refl I)|].
    cbn beta. intros [] w' (?&Hq&HL'&_). apply st_wp_ret. split_and!; [done| |done|].
    + by rewrite HL', HL.
    + by rewrite (calm_conn _ _ _ Hq).
Qed.
End outcomes.

(** ** The streams of a back end *)

Section shared.
Context `{RtEnv, !RtLaws}.

(** A state in which devices were only created. *)
Record extends (w w' : RtWorld) : Prop := {
  ext_users : rt_users w' = rt_users w;
  ext_streams : rt_streams w' = rt_streams w;
  ext_devices d dev : rt_devices w !! d = Some dev → rt_devices w' !! d = Some dev;
}.

(** The stream [s] uses, with the id [i], an object of the back end. *)
Definition shares (w : RtWorld) (be : string) (ids : list Z) (p : positive * Z) : Prop :=
  p.1 ∈ mActiveStreams (rt_users w) ∧ ∃ o d j, rt_streams w !! p.1 = Some o ∧ d ∈ mDevices o ∧
    j ∈ ids ∧ be = listAllBackEndIds j ∧ object_of j = Some d ∧ p.2 = snd_id w d.

Lemma push_new_NoDup found l : NoDup l → NoDup (push_new found l).
Proof.
  revert l. induction found as [|x found IH]; intros l Hl; simpl; [done|]. apply IH.
  case_bool_decide; [done|]. apply NoDup_app. split_and!; [done| |apply NoDup_singleton].
  by intros y Hy ->%list_elem_of_singleton.
Qed.

Lemma streams_with_exact P l w r s :
  streams_with P l w = Some r →
  s ∈ r ↔ s ∈ l ∧ ∃ o, rt_streams w !! s = Some o ∧ P o = true.
Proof.
  revert r. induction l as [|x l IH]; intros r; simpl; [intros [= <-]; set_solver|].
  destruct (rt_streams w !! x) as [o|] eqn:Hx; [|done]. simpl.
  destruct (streams_with P l w) as [r'|]; [|done]. simpl. intros [= <-].
  specialize (IH r' eq_refl). destruct (P o) eqn:HP; rewrite ?elem_of_cons, IH; split.
  - intros [->|[? ?]]; [split; [by left|by exists o]|split; [by right|done]].
  - intros [[->|?] ?]; [by left|by right].
  - intros [? ?]. split; [by right|done].
  - intros [[->|?] (o'&Ho'&HP')]; [congruence|]. split; [done|by exists o'].
Qed.

Lemma getInstance_extends i w :
  ok w → in_deviceNameLUT i = true →
  st_wp (getInstance (bare i)) (λ r w', ok w' ∧ extends w w' ∧
    r = (if decide (i = PAL_DEVICE_NONE) then None else object_of i) ∧
    ∀ d, r = Some d → dev_in d w') w.
Proof.
  intros Hok Hl.
  destruct (spec_getInstance calm _ (bare i) Hl w Hok eq_refl I) as (r&w'&Hr&Hok'&_&_&Hrv&Hd).
  exists r, w'. split_and!; [done..| |done|intros d ->; by apply Hd].
  revert Hr. unfold getInstance. case_decide; [by intros [= _ <-]|]. cbn [dev_id bare with_id].
  rewrite Hl. destruct (object_of i) as [d|]; [|by intros [= _ <-]].
  destruct (rt_devices w !! d) eqn:Hw; intros [= _ <-]; [done|]. constructor; [done..|].
  intros d' dev Hd'. cbn. rewrite lookup_insert_ne; [done|]. intros ->. congruence.
Qed.

Lemma extends_trans w1 w2 w3 : extends w1 w2 → extends w2 w3 → extends w1 w3.
Proof. intros [] []. constructor; [congruence..|auto]. Qed.

Lemma shares_cons w be i ids p : shares w be (i :: ids) p ↔ shares w be [i] p ∨ shares w be ids p.
Proof.
  unfold shares. setoid_rewrite elem_of_cons. setoid_rewrite elem_of_nil. naive_solver.
Qed.

(** One index of the table. *)
Lemma shares_one w be i p :
  shares w be [i] p ↔ be = listAllBackEndIds i ∧ p.1 ∈ mActiveStreams (rt_users w) ∧
    ∃ o d, rt_streams w !! p.1 = Some o ∧ d ∈ mDevices o ∧ object_of i = Some d ∧ p.2 = snd_id w d.
Proof.
  unfold shares. split.
  - intros (?&o&d&j&?&?&->%list_elem_of_singleton&?&?&?). naive_solver.
  - intros (?&?&o&d&?&?&?&?). split; [done|]. exists o, d, i.
    split_and!; [done|done|by left|done..].
Qed.

(** The active streams on an object, in a later state. *)
Lemma streams_on_exact w0 w d l p i :
  ok w0 → extends w0 w → streams_on d w = Some l → object_of i = Some d →
  (∃ s, p = (s, snd_id w d) ∧ s ∈ l) ↔
  shares w0 (listAllBackEndIds i) [i] p.
Proof.
  intros Hok0 He Hl Ho. rewrite shares_one.
  assert (∀ s o, rt_streams w0 !! s = Some o → d ∈ mDevices o → snd_id w d = snd_id w0 d) as Hsnd.
  { intros s o Hs Hin. destruct (ok_conn _ Hok0 s (currentState o, mDevices o) d) as [dev Hdev];
      [unfold conn; by rewrite lookup_fmap, Hs|done|].
    unfold snd_id. by rewrite (ext_devices _ _ He _ _ Hdev), Hdev. }
  split.
  - intros (s&->&Hs). rewrite (streams_with_exact _ _ _ _ _ Hl) in Hs.
    destruct Hs as [Hs (o&Hso&Hin%bool_decide_eq_true)].
    rewrite (ext_users _ _ He) in Hs. rewrite (ext_streams _ _ He) in Hso.
    split; [done|]. split; [done|]. exists o, d. split_and!; try done. by eapply Hsnd.
  - intros (_&Hs&o&d'&Hso&Hin&Ho'&Hp). assert (d' = d) as -> by congruence. exists p.1. split.
    + erewrite Hsnd by done. destruct p; by cbn in *; subst.
    + rewrite (streams_with_exact _ _ _ _ _ Hl), (ext_users _ _ He). split; [done|].
      exists o. rewrite (ext_streams _ _ He). split; [done|]. by apply bool_decide_eq_true.
Qed.

Lemma shared_loop_exact be w0 ids : ∀ acc w,
  ok w0 → ok w → extends w0 w →
  (∀ i, i ∈ ids → be = listAllBackEndIds i → in_deviceNameLUT i = true) →
  st_wp (shared_loop be ids acc) (λ l _, (NoDup acc → NoDup l) ∧
    ∀ p, p ∈ l ↔ p ∈ acc ∨ shares w0 be ids p) w.
Proof.
  induction ids as [|i ids IH]; intros acc w Hok0 Hok He Hl; cbn [shared_loop].
  { apply st_wp_ret. split; [done|]. intros p. split; [by left|].
    intros [?|(?&?&?&?&?&?&Hj&?)]; [done|by apply elem_of_nil in Hj]. }
  assert (∀ w acc', ok w → extends w0 w → (NoDup acc → NoDup acc') →
    (∀ p, p ∈ acc' ↔ p ∈ acc ∨ shares w0 be [i] p) →
    st_wp (shared_loop be ids acc') (λ l _, (NoDup acc → NoDup l) ∧
      ∀ p, p ∈ l ↔ p ∈ acc ∨ shares w0 be (i :: ids) p) w) as Hrest.
  { intros w' acc' Hok' He' Hn Ha. eapply st_wp_mono.
    { apply IH; [done..|]. intros j Hj. apply Hl. by right. }
    cbn beta. intros l _ [Hnl Hp]. split; [auto|]. intros p. rewrite Hp, Ha, (shares_cons _ _ i ids). tauto. }
  case_decide as Hbe.
  2:{ apply Hrest; [done..|]. intros p. rewrite shares_one. tauto. }
  apply st_wp_bind. eapply st_wp_mono; [apply (getInstance_extends i w Hok)|].
  { by apply Hl; [left|]. }
  cbn beta. intros r w' (Hok'&He'&Hr&Hd).
  assert (extends w0 w') as He2 by (by eapply extends_trans).
  assert (r = object_of i) as ->.
  { rewrite Hr. case_decide as Hni; [|done]. destruct (object_of i) eqn:Ho; [|done].
    by destruct (law_object _ _ Ho). }
  destruct (object_of i) as [d|] eqn:Ho.
  2:{ apply Hrest; [done..|]. intros p. rewrite shares_one. naive_solver. }
  apply st_wp_bind. destruct (streams_with_Some calm (λ o : RtStream, bool_decide (d ∈ mDevices o))
    (mActiveStreams (rt_users w')) w') as (l&Hsw&_); [intros s; by apply ok_active|].
  eapply st_wp_query; [exact Hsw|]. apply st_wp_bind, st_wp_gets. apply Hrest; [done..| |].
  { intros Hn. by apply push_new_NoDup. }
  intros p. rewrite (push_new_elem calm), list_elem_of_fmap, Hbe.
  apply or_iff_compat_l. by apply streams_on_exact.
Qed.

(** The search throws when it reaches an index that [deviceNameLUT] lacks. *)
Lemma shared_loop_throws be ids i : i ∈ ids → be = listAllBackEndIds i →
  i ≠ PAL_DEVICE_NONE → in_deviceNameLUT i = false → ∀ acc w, shared_loop be ids acc w = None.
Proof.
  intros Hi Hbe Hn Hl. induction ids as [|j ids IH]; [by apply elem_of_nil in Hi|].
  intros acc w. cbn [shared_loop]. apply elem_of_cons in Hi as [<-|Hi].
  - rewrite decide_True by done. unfold st_bind at 1, getInstance. cbn [dev_id bare with_id].
    by rewrite decide_False, Hl.
  - specialize (IH Hi). case_decide; [|apply IH]. unfold st_bind at 1.
    destruct (getInstance (bare j) w) as [[[d|] w']|]; [|apply IH|done].
    unfold st_bind at 1. destruct (st_query _ w') as [[l w2]|]; [|done].
    unfold st_bind. destruct (getSndDeviceId d w2) as [[x w3]|]; [|done]. apply IH.
Qed.

(** The search, for an id whose back end is not that of CPS2_FEEDBACK. *)
Lemma shared_backend_found id w :
  ok w → in_deviceNameLUT id = true →
  default "" (getBackendName id) ≠ listAllBackEndIds PAL_DEVICE_IN_CPS2_FEEDBACK →
  st_wp (getSharedBEActiveStreamDevs [] id) (λ l _, NoDup l ∧ ∀ s i,
    (s, i) ∈ l ↔ s ∈ mActiveStreams (rt_users w) ∧ ∃ o d, rt_streams w !! s = Some o ∧
      d ∈ mDevices o ∧ backend_of w d = default "" (getBackendName id) ∧ i = snd_id w d) w.
Proof.
  intros Hok Hid Hcps. unfold getSharedBEActiveStreamDevs. eapply st_wp_mono.
  { apply (shared_loop_exact _ w); [done|done|done|].
    intros i Hi Hbe. apply in_LUT_index; [done|]. by intros ->. }
  cbn beta. intros l _ [Hn Hl]. split; [by apply Hn, NoDup_nil|]. intros s i. rewrite Hl.
  assert (∀ o d, rt_streams w !! s = Some o → d ∈ mDevices o → dev_in d w) as Hdev.
  { intros o d Hso Hin. eapply (ok_conn _ Hok s (currentState o, mDevices o)); [|done].
    unfold conn. by rewrite lookup_fmap, Hso. }
  split.
  - intros [Hnil%elem_of_nil|(Hs&o&d&j&Hso&Hin&_&Hbe&Ho&Hi)]; [done|]. split; [done|].
    exists o, d. split_and!; try done. rewrite Hbe. apply backend_object; eauto.
  - intros (Hs&o&d&Hso&Hin&Hbe&Hi). right. split; [done|].
    destruct (Hdev o d Hso Hin) as [dev Hd]. destruct (ok_dev _ Hok _ _ Hd) as [Ho Hlut _ _].
    exists o, d, (dev_id (deviceAttr dev)). split_and!; try done.
    + unfold backend_indices. rewrite elem_of_seqZ. apply bool_decide_eq_true in Hlut.
      unfold PAL_DEVICE_OUT_MIN, PAL_DEVICE_IN_MAX in *. lia.
    + rewrite <- Hbe. apply backend_object; [done|by eexists|done].
Qed.

End shared.

(** ** A mutex taken twice *)

Lemma st_bind_run {A B} (m : St RtWorld A) (k : A → St RtWorld B) w x w' :
  m w = Some (x, w') → st_bind m k w = k x w'.
Proof. unfold st_bind. by intros ->. Qed.

Lemma st_bind_undef {A B} (m : St RtWorld A) (k : A → St RtWorld B) w :
  m w = None → st_bind m k w = None.
Proof. unfold st_bind. by intros ->. Qed.

Lemma attr_Some a v w : rt_attrs w !! a = Some v → attr a w = Some (v, w).
Proof. unfold attr, st_query. by intros ->. Qed.

(** A new variable leaves the others as they are. *)
Lemma alloc_keeps v a u w :
  rt_attrs w !! a = Some u →
  ∃ b w', alloc v w = Some (b, w') ∧ rt_attrs w' !! a = Some u.
Proof.
  intros Ha. do 2 eexists. split; [done|]. cbn. rewrite lookup_insert_ne; [done|].
  intros Heq. by rewrite <- Heq, fresh_addr_None in Ha.
Qed.

(** With the mutex held, the Bluetooth concurrency never returns. *)
Lemma handleA2dp_relocks `{RtEnv} inDev a dummy v w :
  mActiveStreamMutex w = true → rt_attrs w !! a = Some v →
  dev_id v = PAL_DEVICE_OUT_BLUETOOTH_A2DP →
  handleA2dpBleConcurrency inDev a dummy w = None.
Proof.
  intros Hm Ha Hid. unfold handleA2dpBleConcurrency.
  erewrite st_bind_run by (by apply attr_Some). rewrite Hid. cbn [bool_decide decide_rel].
  rewrite bool_decide_false, bool_decide_true by done.
  destruct (getInstance (zeroed PAL_DEVICE_IN_BLUETOOTH_BLE) w) as [[r w']|] eqn:Hg;
    [|by apply st_bind_undef].
  erewrite st_bind_run by done. apply st_bind_undef. unfold lockActiveStream.
  assert (mActiveStreamMutex w' = mActiveStreamMutex w) as ->; [|by rewrite Hm].
  revert Hg. unfold getInstance. case_decide; [by intros [= _ <-]|].
  destruct (in_deviceNameLUT _); [|done]. destruct (object_of _) as [d|]; [|by intros [= _ <-]].
  by destruct (rt_devices w !! d); intros [= _ <-].
Qed.

(** C36: Opening a stream on A2DP never returns: [updateDeviceConfig] holds the mutex of
    the active streams when [handleA2dpBleConcurrency] takes it again. *)
Theorem open_on_a2dp_deadlocks `{RtEnv} inDev a v sattr w :
  is_detection_type (type sattr) = false → isHapticsthroughWSA = true →
  rt_attrs w !! a = Some v → dev_id v = PAL_DEVICE_OUT_BLUETOOTH_A2DP →
  updateDeviceConfig inDev a sattr w = None.
Proof.
  intros Hty Hh Ha Hid. unfold updateDeviceConfig. rewrite Hty, Hh.
  erewrite st_bind_run by (by apply attr_Some).
  destruct (alloc_keeps uninit a v w Ha) as (b&w1&Hb&Ha1). erewrite st_bind_run by done.
  destruct (alloc_keeps (zeroed 0) a v w1 Ha1) as (c&w2&Hc&Ha2). erewrite st_bind_run by done.
  destruct (lockActiveStream w2) as [[[] w3]|] eqn:Hl; [|by apply st_bind_undef].
  erewrite st_bind_run by done. erewrite st_bind_run by done.
  unfold lockActiveStream in Hl. destruct (mActiveStreamMutex w2) eqn:Hm; [done|].
  injection Hl as <-.
  destruct (attr b (set_mActiveStreamMutex true w2)) as [[x w4]|] eqn:Hx; [|by apply st_bind_undef].
  erewrite st_bind_run by done. apply st_bind_undef.
  unfold attr, st_query in Hx. destruct (rt_attrs _ !! b); [|done]. injection Hx as _ <-.
  by eapply handleA2dp_relocks.
Qed.

(** ** A small system

    A speaker and a handset behind one back end, other devices behind another; the
    methods of the base class; a stream that plays on the speaker, one that is started
    without a device and one that is idle. *)

Module routing_demo.
Definition plugin (i : Z) : option positive :=
  if isValidDevId i && bool_decide (i ≠ PAL_DEVICE_NONE) then
    if decide (i ∈ [PAL_DEVICE_OUT_SPEAKER; PAL_DEVICE_OUT_HANDSET]) then Some 3%positive
    else Some (Z.to_pos (100 + i))
  else None.

Definition back_end (i : Z) : string :=
  if decide (i ∈ [PAL_DEVICE_OUT_SPEAKER; PAL_DEVICE_OUT_HANDSET]) then "WSA-RX-0"
  else if decide (i = PAL_DEVICE_IN_CPS2_FEEDBACK) then "CPS2"
  else if decide (i < PAL_DEVICE_OUT_MAX) then "AUX-RX-0" else "AUX-TX-0".

Definition count_start (dev : Device) : Device :=
  set_counts (deviceCount dev) (deviceStartStopCount dev + 1) dev.

#[export] Instance env : RtEnv := {|
  rt_dev := device_examples.env; object_of := plugin; uninit := zeroed 0;
  dev_close := λ E _ dev, Some (@Device.close E dev);
  dev_start := λ _ _ dev, Some (0, count_start dev, []);
  dev_stop := λ E _ dev, Some (@Device.stop_l dev, []);
  dev_isDeviceReady := λ _ _ _, true; isDeviceConnected := λ _ _, true;
  isDeviceAvailable := λ _ _, true; bt_force_switch := λ _ _, None;
  getSoundCardState := λ _, CARD_STATUS_ONLINE;
  setupSessionDevice := λ _ _ _, 0; connectSessionDevice := λ _ _ _, 0;
  disconnectSessionDevice := λ _ _ _, 0; setVolume := λ _ _, 0;
  increaseStreamUserCounter := λ _ _, 0;
  detection_connect := λ _ _, st_ret 0; detection_disconnect := λ _ _, st_ret 0;
  ssrDownHandler := λ _, st_ret 0;
  getConcurrentBoostState := λ _, false; getInputCurrentLimitorConfigStatus := λ _, false;
  getChargerOnlineState := λ _, false; chargerListenerSetBoostState := λ _, 0;
  setSessionParamConfig := λ _, 0; getDeviceConfig := λ _ v _, (0, v);
  getSndDevName := λ _ _ _, "snd"; listAllBackEndIds := back_end; sndSuffix := λ _, "";
  groupDevConfigMap := λ _, None; IsSpeakerProtectionEnabled := false;
  IsChargeConcurrencyEnabled := false; IsDummyDevEnabled := false;
  IsDutyCycleForUPDEnabled := false; IsDedicatedBEForUPDEnabled := false;
  isHapticsthroughWSA := true; admOnRoutingChangeFn := false |}.

Definition media : pal_media_config := mkMedia 48000 16 1 (mkChannels 2 [1; 2]).
Definition playback (ty : Z) : pal_stream_attributes :=
  mkAttr ty (hpcm_stream_info 0) 0 PAL_AUDIO_OUTPUT media media None.
Definition stream (st : stream_state_t) (devs : list positive) : RtStream :=
  mkRt (playback PAL_STREAM_DEEP_BUFFER) st devs devs false false [] [] false true false true
    false false.
Definition speaker : Device := set_counts 1 1 (Device_new (zeroed PAL_DEVICE_OUT_SPEAKER)).
Definition world : RtWorld :=
  mkRtW (mkUsers [1%positive; 2%positive] ∅ ∅ ∅)
    {[ 1%positive := stream STREAM_STARTED [3%positive];
       2%positive := stream STREAM_STARTED []; 4%positive := stream STREAM_IDLE [] ]}
    {[ 3%positive := speaker ]} {[ 1%positive := zeroed PAL_DEVICE_OUT_HANDSET ]} [] false false
    false None (mkGroupDev "" (mkGroup 0 0 0 0)) (λ _, "") 0 [].
End routing_demo.
Import routing_demo.

Lemma demo_media w be a : is_Some (@setMediaConfig (world_env w) be a).
Proof.
  unfold setMediaConfig. cbn -[getBeMixerControl].
  destruct (activeGroupDevConfig w) as [g|]; cbn -[getBeMixerControl].
  - do 2 (destruct (decide (_ ∧ false = true)) as [[_ ?]|]; [done|]).
    cbn -[getBeMixerControl]. destruct (getBeMixerControl _ _); by eexists.
  - destruct (getBeMixerControl _ _); by eexists.
Qed.

Lemma demo_open w dev : is_Some (@Device.open (world_env w) dev).
Proof.
  unfold Device.open. cbv zeta. case_decide; [|by eexists].
  set (o := if decide (_ = "") then _ else _).
  assert (is_Some o) as [[x ev] ->] by (unfold o; case_decide; [by eexists|apply demo_media]).
  cbn -[getSndDeviceName]. destruct (getSndDeviceName _) as [st snd]. destruct (decide (st ≠ 0)); by eexists.
Qed.

Lemma demo_foreign w : ok w → foreign w w.
Proof. intros Hok. by constructor; [| constructor | |]. Qed.

Lemma plugin_id i d : plugin i = Some d →
  isValidDevId i = true ∧ i ≠ PAL_DEVICE_NONE ∧ 0 ≤ i ∧
  d = if decide (i ∈ [PAL_DEVICE_OUT_SPEAKER; PAL_DEVICE_OUT_HANDSET]) then 3%positive
      else Z.to_pos (100 + i).
Proof.
  unfold plugin. destruct (isValidDevId i) eqn:Hv; [|done]. case_bool_decide as Hn; [|done].
  cbn [andb]. intros Hd. split_and!; [done|done| |case_decide; congruence].
  unfold isValidDevId, PAL_DEVICE_NONE, PAL_DEVICE_OUT_MAX, PAL_DEVICE_IN_MIN in *.
  apply orb_true_iff in Hv as [Hv%bool_decide_eq_true|Hv%bool_decide_eq_true]; lia.
Qed.

Lemma demo_laws : RtLaws.
Proof.
  constructor.
  - intros i d Hd. by apply plugin_id in Hd as (?&?&_).
  - intros i j d (_&_&?&->)%plugin_id (_&_&?&Hj)%plugin_id. cbn [listAllBackEndIds env].
    unfold back_end. do 2 destruct (decide (_ ∈ _)); [done|lia..|].
    by assert (i = j) as -> by lia.
  - intros id [->|[->|[]%elem_of_nil]%elem_of_cons]%elem_of_cons; by eexists.
  - done.
  - done.
  - apply demo_open.
  - apply base_close_law.
  - intros E t dev. by eexists _, _, _.
  - apply base_stop_law.
  - intros s a w Hok _ _ _. exists 0, w. by split; [|apply demo_foreign].
  - intros s a w Hok _ _. exists 0, w. by split; [|apply demo_foreign].
  - intros s w Hok _ _ _. exists 0, w. by split; [|apply demo_foreign].
Qed.

Lemma demo_table : RtTable.
Proof.
  intros i Hi. unfold getBackendName. destruct (_ && _); [|done]. cbn. unfold back_end.
  do 3 (case_decide; [done|]). done.
Qed.

Lemma demo_streams s o : rt_streams world !! s = Some o →
  o = routing_demo.stream STREAM_STARTED [3%positive] ∨ o = routing_demo.stream STREAM_STARTED [] ∨
  o = routing_demo.stream STREAM_IDLE [].
Proof.
  cbn. intros [[_ <-]|[_ [[_ <-]|[_ [_ <-]%lookup_singleton_Some]]%lookup_insert_Some]]%lookup_insert_Some;
    auto.
Qed.

Lemma demo_ok : ok world.
Proof.
  constructor.
  - intros s [->|[->|[]%elem_of_nil]%elem_of_cons]%elem_of_cons; by eexists.
  - intros s. unfold map_streams. cbn. rewrite map_to_list_empty. by intros []%elem_of_nil.
  - intros d dev. cbn. intros [<- <-]%lookup_singleton_Some. constructor; [done..|].
    by intros p s v []%elem_of_nil.
  - intros s c d. unfold conn. rewrite lookup_fmap. intros (o&Ho&->)%fmap_Some.
    apply demo_streams in Ho as [->|[->| ->]]; cbn; [|by intros []%elem_of_nil..].
    intros ->%list_elem_of_singleton. by eexists.
  - intros s o d Ho. apply demo_streams in Ho as [->|[->| ->]]; cbn; [|by intros []%elem_of_nil..].
    intros ->%list_elem_of_singleton. by eexists.
  - intros a v. cbn. by intros [<- <-]%lookup_singleton_Some.
Qed.

Lemma demo_idle : idle world.
Proof.
  split_and!; [done..|]. intros s b. unfold mutexes. rewrite lookup_fmap.
  intros (o&Ho&->)%fmap_Some. by apply demo_streams in Ho as [->|[->| ->]].
Qed.

Lemma demo_good : good.
Proof.
  split; [done|]. intros E t dev st dev' evs. cbn. unfold Device.close. 
  repeat case_match; naive_solver.
Qed.

Lemma demo_nodet : nodet world.
Proof.
  intros s x. unfold static. rewrite lookup_fmap. intros (o&Ho&->)%fmap_Some.
  by apply demo_streams in Ho as [->|[->| ->]].
Qed.

Lemma demo_surplus d : surplus world d = 0.
Proof.
  unfold surplus, count_of. cbn [rt_devices world].
  assert (map_sum (uses_of d) (conn world) = if decide (3%positive = d) then 1 else 0) as ->.
  { unfold map_sum. change (map_to_list (conn world)) with
      [(4%positive, (STREAM_IDLE, @nil positive)); (2%positive, (STREAM_STARTED, []));
       (1%positive, (STREAM_STARTED, [3%positive]))].
    cbn. unfold uses_of. cbn. by repeat case_decide. }
  rewrite lookup_singleton. by case_decide.
Qed.

Lemma demo_fair : fair world.
Proof. intros d. by rewrite demo_surplus. Qed.

Lemma demo_distinct : distinct world.
Proof.
  intros s c. unfold conn. rewrite lookup_fmap. intros (o&Ho&->)%fmap_Some.
  apply demo_streams in Ho as [->|[->| ->]]; cbn; intros _; [apply NoDup_singleton|apply NoDup_nil_2..].
Qed.

(** A connection, a switch of one back end to another device, switches of all streams of a
    device, the opening of a stream and its end. *)
Definition demo_calls : list RtCall :=
  [ CallConnect 2 (zeroed PAL_DEVICE_OUT_HANDSET); CallConnect 4 (zeroed PAL_DEVICE_OUT_DUMMY);
    CallSwitch [(1%positive, PAL_DEVICE_OUT_SPEAKER)] [(1%positive, zeroed PAL_DEVICE_OUT_DUMMY)];
    CallForce 3 (zeroed PAL_DEVICE_OUT_USB_HEADSET);
    CallOpen (zeroed PAL_DEVICE_OUT_SPEAKER) (playback PAL_STREAM_DEEP_BUFFER); CallClose 3;
    CallSwitchDevice 2 [zeroed PAL_DEVICE_OUT_HANDSET];
    CallForceStreams 3 (zeroed PAL_DEVICE_OUT_USB_HEADSET) [2%positive];
    CallDisconnect 1 PAL_DEVICE_OUT_DUMMY ].

Lemma demo_allowed c : c ∈ demo_calls → allowed c world.
Proof.
  intros Hc. unfold demo_calls in Hc.
  assert (∀ z l, bool_decide (z ∉ l) = true → z ∉ (l : list Z)) as Hin
    by (intros z l; apply bool_decide_eq_true).
  repeat (apply elem_of_cons in Hc as [->|Hc]; [cbn [allowed]|]); [..|by apply elem_of_nil in Hc].
  all: repeat match goal with |- _ ∧ _ => split end.
  all: first [reflexivity | by apply Hin | by eexists | by repeat constructor | idtac].
  eexists. split; [reflexivity|by apply Hin].
Qed.




Theorem connect_outcome_witness :
  st_wp (connectStreamDevice_l 2 1) (λ r w', ok w' ∧ locks w' = locks world ∧
    connected 2 STREAM_STARTED [] 3 r w') world.
Proof.
  apply (@connect_outcome env demo_laws 2 1 (zeroed PAL_DEVICE_OUT_HANDSET)
    STREAM_STARTED [] 3 world demo_ok eq_refl); [exact (proj1 demo_good)|discriminate| |reflexivity..].
  eexists. reflexivity.
Defined.

Theorem disconnect_outcome_witness :
  st_wp (disconnectStreamDevice_l 1 PAL_DEVICE_OUT_SPEAKER) (λ r w', ok w' ∧
    locks w' = locks world ∧
    conn w' !! 1%positive = Some (STREAM_STARTED, if decide (r = 0) then [] else [3%positive])) world.
Proof.
  eapply st_wp_mono.
  { apply (@disconnect_outcome env demo_laws 1 PAL_DEVICE_OUT_SPEAKER
      (routing_demo.stream STREAM_STARTED [3%positive]) world demo_ok eq_refl (proj1 demo_good));
      reflexivity. }
  intros r w' (Hok&HL&_&Hc). split; [exact Hok|]. split; [exact HL|exact Hc].
Defined.


Theorem open_on_a2dp_deadlocks_witness :
  let w := set_rt_attrs {[ 1%positive := zeroed PAL_DEVICE_OUT_BLUETOOTH_A2DP ]} world in
  updateDeviceConfig None 1 (playback PAL_STREAM_DEEP_BUFFER) w = None.
Proof.
  intros w. apply (@open_on_a2dp_deadlocks env None 1 (zeroed PAL_DEVICE_OUT_BLUETOOTH_A2DP));
    reflexivity.
Defined.
