(* ===== verification/SvaState.v ===== *)
(** * Voice UI interface: the data

    The structures of plugins/vui_interface (api/vui-interface/SoundTriggerUtils.h and
    VoiceUIInterface.h, utils/inc/VUIInterfaceUtils.h, sva_intf/inc/SVAInterface.h): the
    confidence levels a client sends with their two layouts in memory, the information
    kept per keyword model and per stream, the interface object, and the interface
    [SvaEnv] to what lies outside the repository: the allocator, the sound model library,
    and the layouts of the events of the audio DSP.

    A stream is known by its address.  Opaque data are bytes; a structure read from them
    is decoded with the sizes and offsets of its packed layout, and an access outside the
    bytes or past the end of an array is [None].  Counters of an array and the array are
    kept apart, as in the structures. *)

From S2P Require Import Prelude PalDefs SoundTriggerState.

(** ** Constants *)

Definition ST_MAX_FSTAGE_CONF_LEVEL : Z := 100.
Definition MAX_CONF_LEVEL_VALUE : Z := 100.
Definition CUSTOM_CONFIG_OPAQUE_DATA_SIZE : Z := 12.
Definition CONF_LEVELS_INTF_VERSION_0002 : Z := 2.
Definition SML_GLOBAL_HEADER_MAGIC_NUMBER : Z := 0x00180cc8.
Definition SML_ID_SVA_S_STAGE_UBM : Z := 16.
Definition SML_ID_SVA_F_STAGE_INTERNAL : Z := 32.
Definition ST_MODULE_TYPE_PDK : Z := 100.
Definition ST_MODULE_TYPE_MMA : Z := 200.
Definition PAL_RECOGNITION_MODE_USER_IDENTIFICATION : Z := 2.
Definition MAX_STRING_LEN : nat := 200.
Definition MAX_KW_USERS_NAME_LEN : nat := 400.
Definition MAX_MODELS_SUPPORTED : Z := 8.
Definition MAX_KEYWORD_SUPPORTED : Z := 8.
Definition PAL_SOUND_TRIGGER_MAX_USERS : Z := 10.
Definition US_PER_SEC : Z := 1000000.

Definition ST_PARAM_KEY_CONFIDENCE_LEVELS : Z := 0.
Definition ST_PARAM_KEY_HISTORY_BUFFER_CONFIG : Z := 1.
Definition ST_PARAM_KEY_KEYWORD_INDICES : Z := 2.
Definition ST_PARAM_KEY_TIMESTAMP : Z := 3.
Definition ST_PARAM_KEY_DETECTION_PERF_MODE : Z := 4.
Definition ST_PARAM_KEY_MMA_THRESHOLD_CONFIG : Z := 8.
Definition ST_PARAM_KEY_MMA_DETECTION_RESULT : Z := 9.
Definition ST_PARAM_KEY_TIUV_THRESHOLD_CONFIG : Z := 10.
Definition ST_PARAM_KEY_HIST_CAPTURE_MODE : Z := 12.
Definition ST_PARAM_KEY_MMAP_READ_INDEX : Z := 13.
Definition ST_PARAM_KEY_KEYWORD_BUFFER : Z := 0x10001.
Definition ST_PARAM_KEY_SSTAGE_KW_ENGINE_INFO : Z := 0x10002.
Definition ST_PARAM_KEY_SSTAGE_UV_ENGINE_INFO : Z := 0x10003.
Definition ST_PARAM_KEY_IS_BARGEIN : Z := 0x10004.

(** Sizes of the packed structures. *)
Definition sizeof_st_param_header : Z := 8.
Definition sizeof_st_hist_buffer_info : Z := 12.
Definition sizeof_st_det_perf_mode_info : Z := 8.
Definition sizeof_tiuv_threshold_config : Z := 72.
Definition sizeof_tiuv_detection_result : Z := 8.
Definition sizeof_st_det_engine_stats : Z := 24.
Definition sizeof_st_timestamp_info : Z := 20.
Definition sizeof_st_keyword_indices_info : Z := 12.
Definition sizeof_st_mmap_index_info : Z := 8.
Definition sizeof_SML_GlobalHeaderType : Z := 12.
Definition sizeof_SML_HeaderTypeV3 : Z := 412.
Definition sizeof_SML_BigSoundModelTypeV3 : Z := 16.

(** [a & b] as a condition. *)
Definition has_bits (a b : Z) : bool := negb (Z.land a b =? 0).

(** ** Code that can fail

    [Chk A]: undefined behaviour, a [goto exit] with a status, or a value. *)

Definition Chk (A : Type) : Type := option (Z + A).
Definition chk_ok {A} (x : A) : Chk A := Some (inr x).
Definition chk_fail {A} (status : Z) : Chk A := Some (inl status).
Definition chk_bind {A B} (m : Chk A) (k : A → Chk B) : Chk B :=
  match m with Some (inr x) => k x | Some (inl s) => Some (inl s) | None => None end.
(** A read that is undefined outside its block. *)
Definition chk_lift {A} (o : option A) : Chk A :=
  match o with Some x => Some (inr x) | None => None end.

Declare Scope chk_scope.
Delimit Scope chk_scope with chk.
Notation "x <~ m ; k" := (chk_bind m (λ x, k))
  (at level 100, m at next level, right associativity) : chk_scope.
Notation "'guard' b 'else' s ;; k" := (if b then k else chk_fail s)
  (at level 100, b at level 99, s at level 99, right associativity) : chk_scope.

(** [for (i = i0; i < num; i++)] over the elements of an array from its element [i0];
    an access past its end is undefined. *)
Fixpoint for_array {A S} (num i : Z) (arr : list A) (body : Z → A → S → Chk S) (s : S)
  : Chk S :=
  match arr with
  | [] => if i <? num then None else chk_ok s
  | x :: arr =>
      if i <? num then chk_bind (body i x s) (for_array num (i + 1) arr body)
      else chk_ok s
  end.

(** ** Confidence levels of a client *)

Record st_keyword_levels := mkKwLevels {
  kw_level : Z;
  num_user_levels : Z;
  user_levels : list pal_st_confidence_level;
}.

Record st_sound_model_conf_levels := mkSmLevels {
  sm_id : Z;
  num_kw_levels : Z;
  kw_levels : list st_keyword_levels;
}.

Record st_confidence_levels_info := mkLevelsInfo {
  ci_version : Z;
  num_sound_models : Z;
  conf_levels : list st_sound_model_conf_levels;
}.

(** The layouts: the first version has [uint8_t] levels, the second [int32_t] levels. *)
Definition ST_MAX_ENTRIES : nat := 10.
Definition level_size (v2 : bool) : nat := if v2 then 4 else 1.
Definition user_size (v2 : bool) : nat := 4 + level_size v2.
Definition kw_size (v2 : bool) : nat := level_size v2 + 4 + ST_MAX_ENTRIES * user_size v2.
Definition sm_size (v2 : bool) : nat := 8 + ST_MAX_ENTRIES * kw_size v2.
Definition info_size (v2 : bool) : nat := 8 + ST_MAX_ENTRIES * sm_size v2.

Definition level_of (v2 : bool) (z : Z) : Z := if v2 then s32 z else z.

Definition get_word (n : nat) (bs : list Z) : Z := le_val (take n bs).
Definition get_array {A} (n size : nat) (get : list Z → A) (bs : list Z) : list A :=
  (λ i, get (drop (i * size) bs)) <$> seq 0 n.

Definition get_user (v2 : bool) (bs : list Z) : pal_st_confidence_level :=
  mkLevel (get_word 4 bs) (level_of v2 (get_word (level_size v2) (drop 4 bs))).
Definition get_keyword (v2 : bool) (bs : list Z) : st_keyword_levels :=
  let n := level_size v2 in
  mkKwLevels (level_of v2 (get_word n bs)) (get_word 4 (drop n bs))
    (get_array ST_MAX_ENTRIES (user_size v2) (get_user v2) (drop (n + 4) bs)).
Definition get_sm_levels (v2 : bool) (bs : list Z) : st_sound_model_conf_levels :=
  mkSmLevels (get_word 4 bs) (get_word 4 (drop 4 bs))
    (get_array ST_MAX_ENTRIES (kw_size v2) (get_keyword v2) (drop 8 bs)).
Definition get_levels_info (v2 : bool) (bs : list Z) : st_confidence_levels_info :=
  mkLevelsInfo (get_word 4 bs) (get_word 4 (drop 4 bs))
    (get_array ST_MAX_ENTRIES (sm_size v2) (get_sm_levels v2) (drop 8 bs)).

Definition put_user (v2 : bool) (u : pal_st_confidence_level) : list Z :=
  le_bytes 4 (user_id u) ++ le_bytes (level_size v2) (level u).
Definition put_keyword (v2 : bool) (k : st_keyword_levels) : list Z :=
  le_bytes (level_size v2) (kw_level k) ++ le_bytes 4 (num_user_levels k) ++
  (user_levels k ≫= put_user v2).
Definition put_sm_levels (v2 : bool) (m : st_sound_model_conf_levels) : list Z :=
  le_bytes 4 (sm_id m) ++ le_bytes 4 (num_kw_levels m) ++ (kw_levels m ≫= put_keyword v2).
Definition put_levels_info (v2 : bool) (c : st_confidence_levels_info) : list Z :=
  le_bytes 4 (ci_version c) ++ le_bytes 4 (num_sound_models c) ++
  (conf_levels c ≫= put_sm_levels v2).

(** ** The environment *)

(** What the sound model library tells of a model. *)
Record listen_sound_model_header := mkSmlHeader {
  numKeywords : Z;
  numUsers : Z;
  numActiveUserKeywordPairs : Z;
  numUsersSetPerKw : option (list Z);
  userKeywordPairFlags : option (list (list Z));
}.

(** The fixed part of a detection event, and the mode of the history capture. *)
Record generic_info := mkGeneric { gi_status : Z; gi_payload_size : Z }.
Record history_buffer_mode := mkHistMode { data_flow_mode : Z; batch_size_ms : Z }.

(** [calloc_ok n]: an allocation of [n] bytes succeeds.  The library's functions return
    their status, [kSucess] being 0, and their results.  [ev_*] decode the structures of
    the DSP's events from the bytes at a pointer; [None] when the bytes do not hold
    them. *)
Class SvaEnv := {
  calloc_ok : Z → bool;
  sizeof_history_buffer_mode : Z;
  get_history_buffer_mode : list Z → history_buffer_mode;
  sizeof_mma_detection_event : Z;
  sizeof_register_multi_sound_model : Z;
  sizeof_mma_ml_model_config : Z;
  GetSoundModelHeader : list Z → Z * listen_sound_model_header;
  ReleaseSoundModelHeader : listen_sound_model_header → Z;
  GetKeywordPhrases : list Z → Z → Z * Z * list string;
  GetUserNames : list Z → Z → Z * Z * list string;
  GetMergedModelSize : list (list Z) → Z * Z;
  MergeModels : list (list Z) → Z → Z * list Z;
  GetSizeAfterDeleting : list Z → string → Z * Z;
  DeleteFromModel : list Z → string → Z → Z * list Z;
  KEY_ID_FTRT_DATA_INFO : Z;
  KEY_ID_VOICE_UI_MULTI_MODEL_RESULT_INFO : Z;
  KEY_ID_CONFIDENCE_LEVELS_INFO : Z;
  KEY_ID_KWD_POSITION_INFO : Z;
  KEY_ID_TIMESTAMP_INFO : Z;
  sizeof_generic_info : Z;
  sizeof_event_header : Z;
  sizeof_multi_model_result : Z;
  ev_generic : list Z → option generic_info;
  ev_header : list Z → option (Z * Z);
  ev_ftrt_length : list Z → option Z;
  ev_num_models : list Z → option Z;
  ev_num_confidence : list Z → option Z;
  ev_confidence : list Z → Z → option Z;
  ev_kw_position : list Z → option (Z * Z * Z * Z);
  ev_timestamp : list Z → option (Z * Z);
}.

(** ** Objects *)

(** A part of a client's sound model; the pointers of the list are distinct blocks. *)
Record sound_model_data := mkSmPart {
  smd_type : Z;
  smd_data : list Z;
  smd_size : Z;
  is_persistent : bool;
}.

(** [SoundModelInfo].  [det_cf_levels_] is the second half of the block of
    [cf_levels_]; arrays of C strings are lists of strings. *)
Record SoundModelInfo := mkSmi {
  sm_data_ : option (list Z);
  sm_size_ : Z;
  num_keyphrases_ : Z;
  num_users_ : Z;
  keyphrases_ : option (list string);
  users_ : option (list string);
  cf_levels_kw_users_ : option (list string);
  cf_levels_ : option (list Z);
  det_cf_levels_ : option (list Z);
  cf_levels_size_ : Z;
}.

Definition smi_init : SoundModelInfo := mkSmi None 0 0 0 None None None None None 0.

Definition smi_eta (s : SoundModelInfo) : SoundModelInfo :=
  mkSmi (sm_data_ s) (sm_size_ s) (num_keyphrases_ s) (num_users_ s) (keyphrases_ s)
    (users_ s) (cf_levels_kw_users_ s) (cf_levels_ s) (det_cf_levels_ s) (cf_levels_size_ s).
Definition set_sm_data_ : option (list Z) → SoundModelInfo → SoundModelInfo :=
  ltac:(record_setter smi_eta sm_data_).
Definition set_sm_size_ : Z → SoundModelInfo → SoundModelInfo :=
  ltac:(record_setter smi_eta sm_size_).
Definition set_num_keyphrases_ : Z → SoundModelInfo → SoundModelInfo :=
  ltac:(record_setter smi_eta num_keyphrases_).
Definition set_num_users_ : Z → SoundModelInfo → SoundModelInfo :=
  ltac:(record_setter smi_eta num_users_).
Definition set_keyphrases_ : option (list string) → SoundModelInfo → SoundModelInfo :=
  ltac:(record_setter smi_eta keyphrases_).
Definition set_users_ : option (list string) → SoundModelInfo → SoundModelInfo :=
  ltac:(record_setter smi_eta users_).
Definition set_cf_levels_kw_users_ : option (list string) → SoundModelInfo → SoundModelInfo :=
  ltac:(record_setter smi_eta cf_levels_kw_users_).
Definition set_cf_levels_ : option (list Z) → SoundModelInfo → SoundModelInfo :=
  ltac:(record_setter smi_eta cf_levels_).
Definition set_det_cf_levels_ : option (list Z) → SoundModelInfo → SoundModelInfo :=
  ltac:(record_setter smi_eta det_cf_levels_).
Definition set_cf_levels_size_ : Z → SoundModelInfo → SoundModelInfo :=
  ltac:(record_setter smi_eta cf_levels_size_).

Record buffer_config := mkBufCfg { hist_buffer_duration : Z; pre_roll_duration : Z }.

(** [struct sound_model_info]: what the interface keeps of a stream. *)
Record sound_model_info := mkSmInfo {
  si_type : Z;
  recognition_mode : Z;
  model_id : Z;
  model_list : list sound_model_data;
  si_model : option pal_st_sound_model;
  rec_config : option pal_st_recognition_config;
  wakeup_config : option (list Z);
  wakeup_config_size : Z;
  conf_levels_intf_version : Z;
  buf_config : buffer_config;
  sec_threshold : list (Z * Z);
  sec_det_level : list (Z * Z);
  sec_kw_det_info : list Z;
  sec_uv_det_info : list Z;
  det_prop_list : list Z;
  det_result : Z;
  si_info : option SoundModelInfo;
  si_state : bool;
  ftrt_data_ : option (list Z);
  ftrt_data_size_ : Z;
}.

Definition sm_info_init : sound_model_info :=
  mkSmInfo 0 0 0 [] None None None 0 0 (mkBufCfg 0 0) [] []
    (replicate 24 0) (replicate 24 0) [] 0 None false None 0.

Definition si_eta (s : sound_model_info) : sound_model_info :=
  mkSmInfo (si_type s) (recognition_mode s) (model_id s) (model_list s) (si_model s)
    (rec_config s) (wakeup_config s) (wakeup_config_size s) (conf_levels_intf_version s)
    (buf_config s) (sec_threshold s) (sec_det_level s) (sec_kw_det_info s)
    (sec_uv_det_info s) (det_prop_list s) (det_result s) (si_info s) (si_state s)
    (ftrt_data_ s) (ftrt_data_size_ s).
Definition set_si_type : Z → sound_model_info → sound_model_info :=
  ltac:(record_setter si_eta si_type).
Definition set_recognition_mode : Z → sound_model_info → sound_model_info :=
  ltac:(record_setter si_eta recognition_mode).
Definition set_model_id : Z → sound_model_info → sound_model_info :=
  ltac:(record_setter si_eta model_id).
Definition set_model_list : list sound_model_data → sound_model_info → sound_model_info :=
  ltac:(record_setter si_eta model_list).
Definition set_si_model : option pal_st_sound_model → sound_model_info → sound_model_info :=
  ltac:(record_setter si_eta si_model).
Definition set_rec_config :
  option pal_st_recognition_config → sound_model_info → sound_model_info :=
  ltac:(record_setter si_eta rec_config).
Definition set_wakeup_config : option (list Z) → sound_model_info → sound_model_info :=
  ltac:(record_setter si_eta wakeup_config).
Definition set_wakeup_config_size : Z → sound_model_info → sound_model_info :=
  ltac:(record_setter si_eta wakeup_config_size).
Definition set_conf_levels_intf_version : Z → sound_model_info → sound_model_info :=
  ltac:(record_setter si_eta conf_levels_intf_version).
Definition set_buf_config : buffer_config → sound_model_info → sound_model_info :=
  ltac:(record_setter si_eta buf_config).
Definition set_sec_threshold : list (Z * Z) → sound_model_info → sound_model_info :=
  ltac:(record_setter si_eta sec_threshold).
Definition set_sec_det_level : list (Z * Z) → sound_model_info → sound_model_info :=
  ltac:(record_setter si_eta sec_det_level).
Definition set_sec_kw_det_info : list Z → sound_model_info → sound_model_info :=
  ltac:(record_setter si_eta sec_kw_det_info).
Definition set_sec_uv_det_info : list Z → sound_model_info → sound_model_info :=
  ltac:(record_setter si_eta sec_uv_det_info).
Definition set_det_prop_list : list Z → sound_model_info → sound_model_info :=
  ltac:(record_setter si_eta det_prop_list).
Definition set_det_result : Z → sound_model_info → sound_model_info :=
  ltac:(record_setter si_eta det_result).
Definition set_si_info : option SoundModelInfo → sound_model_info → sound_model_info :=
  ltac:(record_setter si_eta si_info).
Definition set_si_state : bool → sound_model_info → sound_model_info :=
  ltac:(record_setter si_eta si_state).
Definition set_ftrt_data_ : option (list Z) → sound_model_info → sound_model_info :=
  ltac:(record_setter si_eta ftrt_data_).
Definition set_ftrt_data_size_ : Z → sound_model_info → sound_model_info :=
  ltac:(record_setter si_eta ftrt_data_size_).

(** [struct model_stats]: ten words. *)
Record model_stats := mkStats {
  detected_model_id : Z;
  detected_keyword_id : Z;
  best_channel_idx : Z;
  best_confidence_level : Z;
  kw_start_timestamp_lsw : Z;
  kw_start_timestamp_msw : Z;
  kw_end_timestamp_lsw : Z;
  kw_end_timestamp_msw : Z;
  detection_timestamp_lsw : Z;
  detection_timestamp_msw : Z;
}.

Definition sizeof_model_stats : Z := 40.
Definition stats_zero : model_stats := mkStats 0 0 0 0 0 0 0 0 0 0.
Definition get_model_stats (bs : list Z) : model_stats :=
  let w i := get_word 4 (drop (4 * i) bs) in
  mkStats (w 0%nat) (w 1%nat) (w 2%nat) (w 3%nat) (w 4%nat) (w 5%nat) (w 6%nat) (w 7%nat)
    (w 8%nat) (w 9%nat).

Record detection_event_info_pdk := mkPdkInfo {
  num_detected_models : Z;
  detected_model_stats : list model_stats;
  pdk_ftrt_data_length_in_us : Z;
}.

Record detection_event_info := mkGmmInfo {
  dei_status : Z;
  num_confidence_levels : Z;
  confidence_levels : list Z;
  dei_kw_start : Z * Z;
  dei_kw_end : Z * Z;
  dei_detection : Z * Z;
  ftrt_data_length_in_us : Z;
}.

(** The union in [struct detection_event]: the member that was written.  Reading
    another one is not modelled. *)
Inductive event_info :=
  | GmmInfo (i : detection_event_info)
  | PdkInfo (i : detection_event_info_pdk)
  | MmaInfo (bytes : list Z).

Record detection_event := mkDetEv {
  det_info : event_info;
  det_model_id_ : Z;
  ftrt_size_us_ : Z;
  start_ts_ : Z;
  end_ts_ : Z;
  start_index_ : Z;
  end_index_ : Z;
}.

Definition set_indices (first last : Z) (e : detection_event) : detection_event :=
  mkDetEv (det_info e) (det_model_id_ e) (ftrt_size_us_ e) (start_ts_ e) (end_ts_ e) first last.

(** [struct detection_engine_config_voice_wakeup]. *)
Record voice_wakeup := mkWakeup {
  wk_mode : Z;
  custom_payload_size : Z;
  num_active_models : Z;
  wk_reserved : Z;
  wk_confidence_levels : list Z;
  keyword_user_enables : list Z;
}.

Definition wakeup_zero : voice_wakeup := mkWakeup 0 0 0 0 (replicate 10 0) (replicate 10 0).

(** The input media configuration of [str_attr_]. *)
Record media_in := mkMediaIn { in_sample_rate : Z; in_bit_width : Z; in_channels : Z }.

(** [class SVAInterface].  [wakeup_payload_] holds [wakeup_payload_size_] bytes. *)
Record SVAInterface := mkSva {
  module_type_ : Z;
  sm_info_map_ : gmap positive (option sound_model_info);
  str_attr_ : media_in;
  sound_model_info_ : SoundModelInfo;
  perf_mode_ : bool;
  st_conf_levels_ : option st_confidence_levels_info;
  st_conf_levels_v2_ : option st_confidence_levels_info;
  default_buf_config_ : buffer_config;
  deregister_model_id : Z;
  buffering_config_ : Z * buffer_config;
  per_model_reset_id : Z;
  wakeup_config_ : voice_wakeup;
  mma_history_size : Z;
  tiuv_threshold_config_ : list Z;
  tiuv_detection_result_ : list Z;
  hist_cap_mode_config_ : history_buffer_mode;
  mma_mode_bit_config_ : Z;
  wakeup_payload_ : option (list Z);
  start_position_ : Z;
  bytes_to_read_ : Z;
  sm_merged_ : bool;
  det_event_info_ : gmap positive (option detection_event);
  readOffsets_ : gmap positive Z;
  origin_hist_buf_duration_ : gmap positive Z;
}.

Definition sva_eta (w : SVAInterface) : SVAInterface :=
  mkSva
    (module_type_ w) (sm_info_map_ w) (str_attr_ w) (sound_model_info_ w) (perf_mode_ w)
    (st_conf_levels_ w) (st_conf_levels_v2_ w) (default_buf_config_ w)
    (deregister_model_id w) (buffering_config_ w) (per_model_reset_id w) (wakeup_config_
    w) (mma_history_size w) (tiuv_threshold_config_ w) (tiuv_detection_result_ w)
    (hist_cap_mode_config_ w) (mma_mode_bit_config_ w) (wakeup_payload_ w)
    (start_position_ w) (bytes_to_read_ w) (sm_merged_ w) (det_event_info_ w)
    (readOffsets_ w) (origin_hist_buf_duration_ w).

Definition set_sm_info_map_ : (gmap positive (option sound_model_info)) → SVAInterface → SVAInterface :=
  ltac:(record_setter sva_eta sm_info_map_).
Definition set_str_attr_ : media_in → SVAInterface → SVAInterface :=
  ltac:(record_setter sva_eta str_attr_).
Definition set_sound_model_info_ : SoundModelInfo → SVAInterface → SVAInterface :=
  ltac:(record_setter sva_eta sound_model_info_).
Definition set_perf_mode_ : bool → SVAInterface → SVAInterface :=
  ltac:(record_setter sva_eta perf_mode_).
Definition set_st_conf_levels_ : (option st_confidence_levels_info) → SVAInterface → SVAInterface :=
  ltac:(record_setter sva_eta st_conf_levels_).
Definition set_st_conf_levels_v2_ : (option st_confidence_levels_info) → SVAInterface → SVAInterface :=
  ltac:(record_setter sva_eta st_conf_levels_v2_).
Definition set_default_buf_config_ : buffer_config → SVAInterface → SVAInterface :=
  ltac:(record_setter sva_eta default_buf_config_).
Definition set_deregister_model_id : Z → SVAInterface → SVAInterface :=
  ltac:(record_setter sva_eta deregister_model_id).
Definition set_buffering_config_ : (Z * buffer_config) → SVAInterface → SVAInterface :=
  ltac:(record_setter sva_eta buffering_config_).
Definition set_per_model_reset_id : Z → SVAInterface → SVAInterface :=
  ltac:(record_setter sva_eta per_model_reset_id).
Definition set_wakeup_config_ : voice_wakeup → SVAInterface → SVAInterface :=
  ltac:(record_setter sva_eta wakeup_config_).
Definition set_mma_history_size : Z → SVAInterface → SVAInterface :=
  ltac:(record_setter sva_eta mma_history_size).
Definition set_tiuv_threshold_config_ : (list Z) → SVAInterface → SVAInterface :=
  ltac:(record_setter sva_eta tiuv_threshold_config_).
Definition set_tiuv_detection_result_ : (list Z) → SVAInterface → SVAInterface :=
  ltac:(record_setter sva_eta tiuv_detection_result_).
Definition set_hist_cap_mode_config_ : history_buffer_mode → SVAInterface → SVAInterface :=
  ltac:(record_setter sva_eta hist_cap_mode_config_).
Definition set_mma_mode_bit_config_ : Z → SVAInterface → SVAInterface :=
  ltac:(record_setter sva_eta mma_mode_bit_config_).
Definition set_wakeup_payload_ : (option (list Z)) → SVAInterface → SVAInterface :=
  ltac:(record_setter sva_eta wakeup_payload_).
Definition set_start_position_ : Z → SVAInterface → SVAInterface :=
  ltac:(record_setter sva_eta start_position_).
Definition set_bytes_to_read_ : Z → SVAInterface → SVAInterface :=
  ltac:(record_setter sva_eta bytes_to_read_).
Definition set_sm_merged_ : bool → SVAInterface → SVAInterface :=
  ltac:(record_setter sva_eta sm_merged_).
Definition set_det_event_info_ : (gmap positive (option detection_event)) → SVAInterface → SVAInterface :=
  ltac:(record_setter sva_eta det_event_info_).
Definition set_readOffsets_ : (gmap positive Z) → SVAInterface → SVAInterface :=
  ltac:(record_setter sva_eta readOffsets_).
Definition set_origin_hist_buf_duration_ : (gmap positive Z) → SVAInterface → SVAInterface :=
  ltac:(record_setter sva_eta origin_hist_buf_duration_).

(** The constructor.  [u] stands for the members it does not initialise: [str_attr_],
    [perf_mode_], the two TIUV structures and the two mmap positions. *)
Record uninit_members := mkUninit {
  un_attr : media_in; un_perf : bool; un_threshold : list Z; un_result : list Z;
  un_start : Z; un_bytes : Z;
}.

Definition sva_construct (u : uninit_members) (module_type : Z) : SVAInterface :=
  mkSva module_type ∅ (un_attr u) smi_init (un_perf u) None None (mkBufCfg 0 0) 0
    (0, mkBufCfg 0 0) 0 wakeup_zero 0 (un_threshold u) (un_result u) (mkHistMode 0 0) 0
    None (un_start u) (un_bytes u) false ∅ ∅ ∅.

(** [sm_info_map_.find(s) != end() && sm_info_map_[s]]. *)
Definition registered (s : positive) (w : SVAInterface) : option sound_model_info :=
  mjoin (sm_info_map_ w !! s).

(** Changes the information of a registered stream through its pointer. *)
Definition update_info (s : positive) (f : sound_model_info → sound_model_info)
    (w : SVAInterface) : SVAInterface :=
  set_sm_info_map_ (alter (fmap f) s (sm_info_map_ w)) w.

(** The entries of a [std::map] keyed by addresses, in the order of its iterator. *)
Definition key_le {A} (a b : positive * A) : Prop := Z.pos a.1 ≤ Z.pos b.1.
#[export] Instance key_le_dec {A} (a b : positive * A) : Decision (key_le a b).
Proof. unfold key_le. apply _. Defined.
Definition map_entries {A} (m : gmap positive A) : list (positive * A) :=
  merge_sort key_le (map_to_list m).

(** ** A concrete environment, for closed examples

    The library's model is the list of the letters that name its keywords. *)
Module SvaDemo.
Definition letter (z : Z) : string := String (Ascii.ascii_of_nat (Z.to_nat z)) EmptyString.
Definition without (kw : string) (d : list Z) : list Z :=
  List.filter (λ z, negb (String.eqb (letter z) kw)) d.

#[export] Instance demo_env : SvaEnv := {|
  calloc_ok := λ _, true;
  sizeof_history_buffer_mode := 8;
  get_history_buffer_mode := λ b, mkHistMode (get_word 4 b) (get_word 4 (drop 4 b));
  sizeof_mma_detection_event := 16;
  sizeof_register_multi_sound_model := 8;
  sizeof_mma_ml_model_config := 8;
  GetSoundModelHeader := λ d, (0, mkSmlHeader (zlen d mod 2 ^ 16) 0 0 None None);
  ReleaseSoundModelHeader := λ _, 0;
  GetKeywordPhrases := λ d n, (0, zlen d, letter <$> d);
  GetUserNames := λ _ _, (0, 0, []);
  GetMergedModelSize := λ ms, (0, zlen (concat ms));
  MergeModels := λ ms _, (0, concat ms);
  GetSizeAfterDeleting := λ d kw, (0, zlen (without kw d));
  DeleteFromModel := λ d kw _, (0, without kw d);
  KEY_ID_FTRT_DATA_INFO := 1;
  KEY_ID_VOICE_UI_MULTI_MODEL_RESULT_INFO := 2;
  KEY_ID_CONFIDENCE_LEVELS_INFO := 3;
  KEY_ID_KWD_POSITION_INFO := 4;
  KEY_ID_TIMESTAMP_INFO := 5;
  sizeof_generic_info := 8;
  sizeof_event_header := 8;
  sizeof_multi_model_result := 4;
  ev_generic := λ b, s ← read_u32 0 b; n ← read_u32 4 b; Some (mkGeneric s n);
  ev_header := λ b, k ← read_u32 0 b; n ← read_u32 4 b; Some (k, n);
  ev_ftrt_length := read_u32 0;
  ev_num_models := read_u32 0;
  ev_num_confidence := read_u32 0;
  ev_confidence := λ b i, b !! Z.to_nat (4 + i);
  ev_kw_position := λ b, sl ← read_u32 0 b; sm ← read_u32 4 b; el ← read_u32 8 b;
                         em ← read_u32 12 b; Some (sl, sm, el, em);
  ev_timestamp := λ b, l ← read_u32 0 b; m ← read_u32 4 b; Some (l, m);
|}.

Definition demo_uninit : uninit_members :=
  mkUninit (mkMediaIn 16000 16 1) false (replicate 72 0) (replicate 8 0) 0 0.
Definition demo_model (n : Z) : pal_st_sound_model :=
  mkSoundModel PAL_SOUND_MODEL_TYPE_KEYPHRASE 0 0 0 n 1 [].
(** A configuration whose keywords have the given levels. *)
Definition demo_config (ls : list Z) : pal_st_recognition_config :=
  mkRecCfg 0 0 false (zlen ls) ((λ l, mkPhrase 0 1 l 0 []) <$> ls) 0 0 [].
End SvaDemo.
