(* ===== verification/SvaConfig.v ===== *)
(** * Voice UI interface: sound models and recognition configurations

    What plugins/vui_interface/sva_intf/src/SVAInterface.cpp reads from a client: the
    split of a combined sound model into its parts (ParseSoundModel), the confidence
    levels of a recognition configuration, given by phrases (FillConfLevels) or by
    opaque data in two layouts (FillOpaqueConfLevels, ParseOpaqueConfLevels), and the
    opaque data themselves, a sequence of keyed parameters (ParseRecognitionConfig).

    The code repeats its text for the two layouts; here a structure is decoded first and
    the text is one function.  Log messages are not modelled. *)

From S2P Require Import Prelude PalDefs SoundTriggerState.
From S2P Require Import SvaState.

Local Open Scope chk_scope.

Section config.
Context `{!SvaEnv, !Osal}.

(** ** Confidence levels *)

(** The two out parameters of a function that fills in a block of levels. *)
Record LevelsOut := mkOut { out_levels : option (list Z); out_num : Z }.

(** Every level of the keywords and their users is acceptable. *)
Definition check_levels (bad : Z → bool) (num : Z) (kws : list st_keyword_levels)
  : Chk unit :=
  for_array num 0 kws (λ _ k _,
    guard negb (bad (kw_level k)) else - EINVAL;;
    for_array (num_user_levels k) 0 (user_levels k) (λ _ u _,
      guard negb (bad (level u)) else - EINVAL;; chk_ok tt) tt) tt.

Definition count_levels (mid num : Z) (kws : list st_keyword_levels) : Chk Z :=
  for_array num 0 kws (λ _ k n,
    chk_ok (u32 (n + 1 + (if decide (mid = 0) then num_user_levels k else 0)))) 0.

(** The blocks [conf_levels] and [user_id_tracker]. *)
Definition Tables : Type := list Z * list Z.

Definition place_user (num_kws num : Z) (store : Z → Z) (u : pal_st_confidence_level)
    (t : Tables) : Chk Tables :=
  let '(cl, tracker) := t in
  let i := Z.to_nat (user_id u) in
  guard negb ((user_id u <? num_kws) || (num <=? user_id u)) else - EINVAL;;
  seen <~ chk_lift (tracker !! i);
  guard negb (seen =? 1) else - EINVAL;;
  chk_ok (<[i := u8 (store (level u))]> cl, <[i := 1]> tracker).

(** [past_end]: what the code does when there is no room for a keyword. *)
Definition place_keyword (mid num_kws num : Z) (store : Z → Z) (past_end : Chk Tables)
    (i : Z) (k : st_keyword_levels) (t : Tables) : Chk Tables :=
  if i <? num then
    let t := (<[Z.to_nat i := u8 (kw_level k)]> t.1, t.2) in
    if decide (mid = 0)
    then for_array (num_user_levels k) 0 (user_levels k)
           (λ _ u, place_user num_kws num store u) t
    else chk_ok t
  else past_end.

Definition place_levels (mid num_kws num : Z) (store : Z → Z) (past_end : Chk Tables)
    (kws : list st_keyword_levels) : Chk Tables :=
  for_array num_kws 0 kws (place_keyword mid num_kws num store past_end)
    (replicate (Z.to_nat num) 0, replicate (Z.to_nat num) 0).

(** The label [exit] after [conf_levels] has been allocated. *)
Definition fill_exit (num : Z) (r : Chk Tables) : option (Z * LevelsOut) :=
  match r with
  | Some (inr (cl, _)) => Some (0, mkOut (Some cl) num)
  | Some (inl status) => Some (status, mkOut None 0)
  | None => None
  end.

Definition phrase_levels (p : pal_st_phrase_recognition_extra) : st_keyword_levels :=
  mkKwLevels (confidence_level p) (num_levels p) (levels p).

Definition FillConfLevels (info : sound_model_info) (config : option pal_st_recognition_config)
    (out : LevelsOut) : option (Z * LevelsOut) :=
  match config with
  | None => Some (- EINVAL, out)
  | Some c =>
      let too_many := match si_model info with
                      | Some m => sm_num_phrases m <? num_phrases c | None => false end in
      if (num_phrases c =? 0) || too_many then Some (- EINVAL, out) else
      let kws := phrase_levels <$> phrases c in
      match count_levels (model_id info) (num_phrases c) kws with
      | None => None
      | Some (inl status) => Some (status, out)
      | Some (inr num) =>
          if calloc_ok num then
            fill_exit num
              (_ <~ check_levels (λ l, ST_MAX_FSTAGE_CONF_LEVEL <? l) (num_phrases c) kws;
               place_levels (model_id info) (num_phrases c) num
                 (λ l, if l <? ST_MAX_FSTAGE_CONF_LEVEL then l else ST_MAX_FSTAGE_CONF_LEVEL)
                 None kws)
          else Some (- ENOMEM, out)
      end
  end.

Definition FillOpaqueConfLevels (mid : Z) (sm_levels : option st_sound_model_conf_levels)
    (out : LevelsOut) : option (Z * LevelsOut) :=
  match sm_levels with
  | None => Some (- EINVAL, out)
  | Some sm =>
      let counted :=
        _ <~ check_levels (λ l, (l <? 0) || (ST_MAX_FSTAGE_CONF_LEVEL <? l))
               (num_kw_levels sm) (kw_levels sm);
        num <~ count_levels mid (num_kw_levels sm) (kw_levels sm);
        guard negb (num =? 0) else - EINVAL;;
        guard calloc_ok num else - ENOMEM;; chk_ok num in
      match counted with
      | None => None
      | Some (inl status) => Some (status, out)
      | Some (inr num) =>
          fill_exit num (place_levels mid (num_kw_levels sm) num (λ l, l)
                           (chk_fail (- EINVAL)) (kw_levels sm))
      end
  end.

(** One sound model of the opaque levels: the state is whether a first stage was found,
    the status, the out parameters and the thresholds of the second stage. *)
Record OpaqueLoop := mkLoop {
  gmm_conf_found : bool;
  ol_status : Z;
  ol_out : LevelsOut;
  ol_threshold : list (Z * Z);
}.

Definition opaque_model (mid : Z) (sm : st_sound_model_conf_levels) (l : OpaqueLoop)
  : Chk OpaqueLoop :=
  if decide (sm_id sm = ST_SM_ID_SVA_F_STAGE_GMM) then
    match FillOpaqueConfLevels mid (Some sm) (ol_out l) with
    | Some (status, out) => chk_ok (mkLoop true status out (ol_threshold l))
    | None => None
    end
  else if has_bits (sm_id sm) ST_SM_ID_SVA_S_STAGE_KWD ||
          has_bits (sm_id sm) ST_SM_ID_SVA_S_STAGE_USER then
    k <~ chk_lift (kw_levels sm !! 0%nat);
    entry <~ (if has_bits (sm_id sm) ST_SM_ID_SVA_S_STAGE_KWD
              then chk_ok (ST_SM_ID_SVA_S_STAGE_KWD, kw_level k)
              else u <~ chk_lift (user_levels k !! 0%nat);
                   chk_ok (ST_SM_ID_SVA_S_STAGE_USER, level u));
    chk_ok (mkLoop (gmm_conf_found l) (ol_status l) (ol_out l) (ol_threshold l ++ [entry]))
  else chk_ok l.

Definition set_cached_levels (v2 : bool) (c : option st_confidence_levels_info)
  : SVAInterface → SVAInterface :=
  if v2 then set_st_conf_levels_v2_ c else set_st_conf_levels_ c.

(** [opaque_conf_levels] is read by the caller; [conf] is the structure there. *)
Definition ParseOpaqueConfLevels (s : positive) (info : sound_model_info)
    (conf : st_confidence_levels_info) (version : Z) (out : LevelsOut) (w : SVAInterface)
  : option (Z * LevelsOut * SVAInterface) :=
  let v2 := bool_decide (version = CONF_LEVELS_INTF_VERSION_0002) in
  if negb (calloc_ok (Z.of_nat (info_size v2)))
  then Some (- ENOMEM, out, set_cached_levels v2 None w) else
  let w := set_cached_levels v2 (Some conf) w in
  match for_array (num_sound_models conf) 0 (conf_levels conf)
          (λ _, opaque_model (model_id info))
          (mkLoop false 0 out (sec_threshold info)) with
  | Some (inr l) =>
      let status := if negb (gmm_conf_found l) || negb (ol_status l =? 0)
                    then - EINVAL else ol_status l in
      Some (status, ol_out l, update_info s (set_sec_threshold (ol_threshold l)) w)
  | Some (inl status) => Some (status, out, w)
  | None => None
  end.

(** ** Recognition configuration *)

(** The variables of the loop over the opaque data. *)
Record ConfigLoop := mkConfig {
  cl_out : LevelsOut;
  cl_hist : Z;
  cl_preroll : Z;
}.

(** The case of one parameter at offset [off]: the number of bytes it takes, the
    variables and the state; or a status. *)
Definition config_param (s : positive) (data : list Z) (off key size : Z) (l : ConfigLoop)
    (w : SVAInterface) : option ((Z + Z * ConfigLoop) * SVAInterface) :=
  let payload n := slice (off + sizeof_st_param_header) n data in
  let sized n (k : list Z → option ((Z + Z * ConfigLoop) * SVAInterface)) :=
    if decide (size = n) then b ← payload n; k b else Some (inl (- EINVAL), w) in
  if decide (key = ST_PARAM_KEY_CONFIDENCE_LEVELS) then
    version ← read_u32 (off + sizeof_st_param_header) data;
    let w := update_info s (set_conf_levels_intf_version version) w in
    let v2 := bool_decide (version = CONF_LEVELS_INTF_VERSION_0002) in
    let n := Z.of_nat (info_size v2) in
    if decide (size = n) then
      b ← payload n;
      info ← registered s w;
      '(status, out, w) ← ParseOpaqueConfLevels s info (get_levels_info v2 b) version
                            (cl_out l) w;
      if decide (status = 0)
      then Some (inr (sizeof_st_param_header + n,
                      mkConfig out (cl_hist l) (cl_preroll l)), w)
      else Some (inl status, w)
    else Some (inl (- EINVAL), w)
  else if decide (key = ST_PARAM_KEY_HISTORY_BUFFER_CONFIG) then
    sized sizeof_st_hist_buffer_info (λ b,
      Some (inr (sizeof_st_param_header + size,
                 mkConfig (cl_out l) (get_word 4 (drop 4 b)) (get_word 4 (drop 8 b))), w))
  else if decide (key = ST_PARAM_KEY_DETECTION_PERF_MODE) then
    sized sizeof_st_det_perf_mode_info (λ _,
      Some (inr (sizeof_st_param_header + size, l), w))
  else if decide (key = ST_PARAM_KEY_MMA_THRESHOLD_CONFIG) then
    if calloc_ok size then
      b ← payload size;
      Some (inr (sizeof_st_param_header + size,
                 mkConfig (mkOut (Some (ar_mem_cpy size b)) size) (cl_hist l) (cl_preroll l)),
            w)
    else Some (inl (- ENOMEM), w)
  else if decide (key = ST_PARAM_KEY_TIUV_THRESHOLD_CONFIG) then
    sized sizeof_tiuv_threshold_config (λ b,
      Some (inr (sizeof_st_param_header + size, l),
            set_tiuv_threshold_config_ (ar_mem_cpy size b) w))
  else if decide (key = ST_PARAM_KEY_HIST_CAPTURE_MODE) then
    sized sizeof_history_buffer_mode (λ b,
      Some (inr (sizeof_st_param_header + size, l),
            set_hist_cap_mode_config_ (get_history_buffer_mode (ar_mem_cpy size b)) w))
  else Some (inl (- EINVAL), w).

(** The loop, with [opaque_size = off]; [fuel] bounds its iterations. *)
Fixpoint config_loop (fuel : nat) (s : positive) (data : list Z) (end_ off : Z)
    (l : ConfigLoop) (w : SVAInterface) : option ((Z + ConfigLoop) * SVAInterface) :=
  if negb (off <? end_) then Some (inr l, w) else
  match fuel with
  | O => None
  | S fuel =>
      key ← read_u32 off data;
      size ← read_u32 (off + 4) data;
      '(r, w) ← config_param s data off key size l w;
      match r with
      | inl status => Some (inl status, w)
      | inr (n, l) => config_loop fuel s data end_ (u32 (off + n)) l w
      end
  end.

(** What follows the parsing: the buffering and the levels are taken over, or the label
    [error_exit]. *)
Definition config_exit (s : positive) (r : Z + ConfigLoop) (w : SVAInterface)
  : Z * SVAInterface :=
  match r with
  | inl status => (status, set_st_conf_levels_v2_ None (set_st_conf_levels_ None w))
  | inr l =>
      let w := set_origin_hist_buf_duration_
                 (<[s := cl_hist l]> (origin_hist_buf_duration_ w)) w in
      let dflt := default_buf_config_ w in
      let hist := if decide (cl_hist l = 0) then hist_buffer_duration dflt else cl_hist l in
      let pre := if decide (cl_preroll l = 0) then pre_roll_duration dflt
                 else cl_preroll l in
      (0, update_info s (λ i,
            set_wakeup_config_size (out_num (cl_out l))
              (set_wakeup_config (out_levels (cl_out l))
                 (set_buf_config (mkBufCfg hist pre) i))) w)
  end.

Definition ParseRecognitionConfig (s : positive) (config : option pal_st_recognition_config)
    (w : SVAInterface) : option (Z * SVAInterface) :=
  match registered s w with
  | None => Some (- EINVAL, w)
  | Some info =>
      let w := update_info s (set_rec_config config) w in
      match config with
      | None => Some (- EINVAL, w)
      | Some c =>
          let l := mkConfig (mkOut None 0) 0 0 in
          '(r, w) ←
            (if CUSTOM_CONFIG_OPAQUE_DATA_SIZE <? data_size c then
               config_loop (length (rc_data c)) s (rc_data c) (data_size c) 0 l w
             else if decide (si_type info = PAL_SOUND_MODEL_TYPE_KEYPHRASE) then
               '(status, out) ← FillConfLevels info config (mkOut None 0);
               Some (if decide (status = 0) then inr (mkConfig out 0 0) else inl status, w)
             else Some (inr l, w));
          Some (config_exit s r w)
      end
  end.

(** ** Sound models *)

Definition sizeof_sound_model_data : Z := 32.

(** The bytes at [off] of the payload as a part of the model. *)
Definition AllocateSMData (size off : Z) (m : list Z) (type : Z) : Chk sound_model_data :=
  guard calloc_ok sizeof_sound_model_data else - ENOMEM;;
  guard calloc_ok (u64 size) else - ENOMEM;;
  src <~ chk_lift (slice off (u64 size) m);
  chk_ok (mkSmPart type (ar_mem_cpy (u64 size) src) (u32 size) true).

Record SML_BigSoundModelTypeV3 := mkBigSm {
  versionMajor : Z;
  versionMinor : Z;
  big_offset : Z;
  big_size : Z;
  big_type : Z;
}.

Definition big_model_at (i : Z) (m : list Z) : option SML_BigSoundModelTypeV3 :=
  b ← slice (sizeof_SML_GlobalHeaderType + sizeof_SML_HeaderTypeV3 +
             i * sizeof_SML_BigSoundModelTypeV3) sizeof_SML_BigSoundModelTypeV3 m;
  Some (mkBigSm (get_word 2 b) (get_word 2 (drop 2 b)) (get_word 4 (drop 4 b))
          (get_word 4 (drop 8 b)) (get_word 4 (drop 12 b))).

(** One entry of the header, with [first_stage_type] and [model_list]. *)
Definition parse_big_model (keyphrase : option Z) (numModels : Z) (m : list Z)
    (big : SML_BigSoundModelTypeV3) (st : Z * list sound_model_data)
  : Z * Chk (list sound_model_data) :=
  let '(first_stage_type, parts) := st in
  let off := sizeof_SML_GlobalHeaderType + sizeof_SML_HeaderTypeV3 +
             u32 numModels * sizeof_SML_BigSoundModelTypeV3 + big_offset big in
  let add :=
    d <~ AllocateSMData (s32 (big_size big)) off m (big_type big); chk_ok (parts ++ [d]) in
  if decide (big_type big = ST_SM_ID_SVA_F_STAGE_GMM) then
    (Z.land (versionMajor big) 0xFF, add)
  else if decide (big_type big ≠ SML_ID_SVA_S_STAGE_UBM ∧
                  big_type big ≠ SML_ID_SVA_F_STAGE_INTERNAL) then
    let unused := match keyphrase with
      | Some mode => bool_decide (big_type big = ST_SM_ID_SVA_S_STAGE_USER ∨
                                  big_type big = ST_SM_ID_SVA_S_STAGE_CTIUV) &&
                     negb (has_bits mode PAL_RECOGNITION_MODE_USER_IDENTIFICATION)
      | None => false end in
    (first_stage_type, if unused then chk_ok parts else add)
  else (first_stage_type, chk_ok parts).

(** [for (i = 0; i < numModels; i++)] from [i] with [n] entries left. *)
Fixpoint parse_big_models (keyphrase : option Z) (numModels : Z) (m : list Z) (n : nat)
    (i : Z) (st : Z * list sound_model_data) : option (Z * (Z + list sound_model_data)) :=
  match n with
  | O => Some (st.1, inr st.2)
  | S n =>
      big ← big_model_at i m;
      let '(t, r) := parse_big_model keyphrase numModels m big st in
      r ← r;
      match r with
      | inl status => Some (t, inl status)
      | inr parts => parse_big_models keyphrase numModels m n (i + 1) (t, parts)
      end
  end.

(** The result, [*first_stage_type] and [model_list]. *)
Definition ParseSoundModel (sound_model : pal_st_sound_model) (first_stage_type : Z)
  : option (Z * Z * list sound_model_data) :=
  let m := sm_data sound_model in
  let size := sm_data_size sound_model in
  let keyphrase := if decide (sm_type sound_model = PAL_SOUND_MODEL_TYPE_KEYPHRASE)
                   then Some (sm_recognition_mode sound_model) else None in
  magic ← read_u32 0 m;
  '(t, r) ←
    (if decide (magic = SML_GLOBAL_HEADER_MAGIC_NUMBER) then
       numModels ← read_u32 sizeof_SML_GlobalHeaderType m;
       '(t, r) ← parse_big_models keyphrase numModels m (Z.to_nat numModels) 0
                   (first_stage_type, []);
       match r with
       | inl status => Some (t, inl status)
       | inr parts =>
           if decide (t = ST_MODULE_TYPE_MMA) then
             r ← AllocateSMData 4 (size - 4) m ST_SM_ID_SVA_F_STAGE_GMM;
             Some (t, match r with inl e => inl e | inr d => inr (parts ++ [d]) end)
           else Some (t, inr parts)
       end
     else
       r ← AllocateSMData (s32 size) 0 m ST_SM_ID_SVA_F_STAGE_GMM;
       Some (first_stage_type, match r with inl e => inl e | inr d => inr [d] end));
  match r with
  | inl status => Some (status, t, [])
  | inr parts => Some (0, t, parts)
  end.

End config.
