(* ===== verification/SvaConfigFacts.v ===== *)
(** * Voice UI interface: facts about levels, configurations and models

    The two functions that lay out confidence levels are equal to a reference table, and
    accept exactly the configurations whose user ids number the slots behind the
    keywords; the decoders invert the encoders of the two layouts, of the opaque data and
    of combined sound models. *)

From S2P Require Import Prelude PalDefs SoundTriggerState.
From S2P Require Import SvaState.
From S2P Require Import SvaConfig.
From stdpp Require Import options.

Local Open Scope chk_scope.

(** ** Loops over arrays *)

(** [for_array] without the bound: the elements one after the other. *)
Fixpoint for_list {A S} (i : Z) (l : list A) (body : Z → A → S → Chk S) (s : S) : Chk S :=
  match l with
  | [] => chk_ok s
  | x :: l => chk_bind (body i x s) (for_list (i + 1) l body)
  end.

Lemma for_array_take {A T} (body : Z → A → T → Chk T) (arr : list A) : ∀ num i s,
  i ≤ num → num - i ≤ zlen arr →
  for_array num i arr body s = for_list i (take (Z.to_nat (num - i)) arr) body s.
Proof.
  induction arr as [|x arr IH]; intros num i s Hi Hl.
  - unfold zlen in Hl. simpl in *. rewrite take_nil. simpl.
    destruct (Z.ltb_spec i num); [lia|done].
  - unfold zlen in *. simpl in *. destruct (Z.ltb_spec i num).
    + replace (Z.to_nat (num - i)) with (S (Z.to_nat (num - (i + 1)))) by lia. simpl.
      destruct (body i x s) as [[st|s']|]; simpl; [done| |done].
      apply IH; lia.
    + by replace (Z.to_nat (num - i)) with 0%nat by lia.
Qed.

(** A loop whose result is judged by a property of the elements seen so far. *)
Lemma for_list_invariant {A T} (I : list A → T → Prop) (good : list A → Prop) e
    (body : Z → A → T → Chk T) (l : list A) : ∀ pre s,
  (∀ p q, good (p ++ q) → good p) →
  (∀ p x s, p ++ [x] `prefix_of` pre ++ l → I p s → good p →
     (∃ s', body (zlen p) x s = chk_ok s' ∧ I (p ++ [x]) s' ∧ good (p ++ [x])) ∨
     (body (zlen p) x s = chk_fail e ∧ ¬ good (p ++ [x]))) →
  I pre s → good pre →
  (∃ s', for_list (zlen pre) l body s = chk_ok s' ∧ I (pre ++ l) s' ∧ good (pre ++ l)) ∨
  (for_list (zlen pre) l body s = chk_fail e ∧ ¬ good (pre ++ l)).
Proof.
  induction l as [|x l IH]; intros pre s Hmono Hstep HI Hb; simpl.
  - left. rewrite app_nil_r. eauto.
  - destruct (Hstep pre x s) as [(s'&Heq&HI'&Hg')|[Heq Hbad]].
    { exists l. by rewrite <-app_assoc. } { done. } { done. }
    + rewrite Heq. simpl. replace (zlen pre + 1) with (zlen (pre ++ [x]))
        by (rewrite zlen_app; done).
      rewrite (cons_middle x pre l), app_assoc.
      apply IH; [done| |done|done]. intros p y s2. rewrite <-app_assoc. apply Hstep.
    + right. rewrite Heq. simpl. split; [done|].
      rewrite (cons_middle x pre l), app_assoc. intros H%Hmono. done.
Qed.

(** A loop that only checks its elements. *)
Lemma for_list_forall {A} (P : A → Prop) e (body : Z → A → unit → Chk unit) (l : list A) :
  (∀ i x s, x ∈ l → (body i x s = chk_ok tt ∧ P x) ∨ (body i x s = chk_fail e ∧ ¬ P x)) →
  ∀ i s, (for_list i l body s = chk_ok tt ∧ ∀ x, x ∈ l → P x) ∨
         (for_list i l body s = chk_fail e ∧ ¬ ∀ x, x ∈ l → P x).
Proof.
  induction l as [|x l IH]; intros Hb i []; simpl.
  - left. split; [done|]. set_solver.
  - destruct (Hb i x tt ltac:(set_solver)) as [[-> ?]|[-> ?]]; simpl.
    + destruct (IH ltac:(set_solver) (i + 1) tt) as [[-> ?]|[-> Hn]]; [left|right]; simpl.
      * split; [done|]. set_solver.
      * split; [done|]. intros Ha. apply Hn. set_solver.
    + right. split; [done|]. set_solver.
Qed.

(** ** The table of levels *)

Section levels.
Context `{!SvaEnv, !Osal}.

(** The keywords and the users in use. *)
Definition kws_of (num : Z) (l : list st_keyword_levels) : list st_keyword_levels :=
  take (Z.to_nat num) l.
Definition users_of (k : st_keyword_levels) : list pal_st_confidence_level :=
  take (Z.to_nat (num_user_levels k)) (user_levels k).
Definition all_users (kws : list st_keyword_levels) : list pal_st_confidence_level :=
  kws ≫= users_of.

(** The structure as a client may fill it in: the counts fit the arrays. *)
Definition fits (num : Z) (l : list st_keyword_levels) : Prop :=
  0 ≤ num ≤ zlen l ∧ zlen l ≤ 10 ∧
  ∀ k, k ∈ l → 0 ≤ num_user_levels k ≤ zlen (user_levels k) ∧ zlen (user_levels k) ≤ 10 ∧
               ∀ u, u ∈ user_levels k → 0 ≤ user_id u.

Definition level_ok (l : Z) : Prop := 0 ≤ l ≤ ST_MAX_FSTAGE_CONF_LEVEL.
Definition levels_ok (kws : list st_keyword_levels) : Prop :=
  ∀ k, k ∈ kws → level_ok (kw_level k) ∧ ∀ u, u ∈ users_of k → level_ok (level u).

(** The users number the slots from [n] on without repetition. *)
Definition ids_ok (n m : Z) (us : list pal_st_confidence_level) : Prop :=
  NoDup (user_id <$> us) ∧ ∀ u, u ∈ us → n ≤ user_id u < m.

(** The slots of a model: one per keyword and, when the model is not one of several in
    its engine, one per user. *)
Definition slots (mid : Z) (kws : list st_keyword_levels) : Z :=
  zlen kws + (if decide (mid = 0) then zlen (all_users kws) else 0).

Definition acceptable (mid : Z) (kws : list st_keyword_levels) : Prop :=
  kws ≠ [] ∧ levels_ok kws ∧ (mid = 0 → ids_ok (zlen kws) (slots mid kws) (all_users kws)).

(** The level of the user with an id. *)
Definition level_at (us : list pal_st_confidence_level) (i : Z) : Z :=
  from_option (λ r, level r.2) 0 (list_find (λ u, user_id u = i) us).

(** The reference: the levels of the keywords in order, then each user's level in the
    slot its id names. *)
Definition conf_table (mid : Z) (kws : list st_keyword_levels) : list Z :=
  (kw_level <$> kws) ++
  (if decide (mid = 0)
   then level_at (all_users kws) <$> seqZ (zlen kws) (zlen (all_users kws)) else []).

Lemma kws_of_length num l : fits num l → zlen (kws_of num l) = num.
Proof. intros [? _]. unfold kws_of, zlen in *. rewrite length_take. lia. Qed.

Lemma users_of_length num l k : fits num l → k ∈ kws_of num l →
  zlen (users_of k) = num_user_levels k ∧ ∀ u, u ∈ users_of k → 0 ≤ user_id u.
Proof.
  intros (?&?&Hk) Hin. apply elem_of_take in Hin as (i&Hi&_).
  destruct (Hk k) as (?&?&Hu). { by eapply list_elem_of_lookup_2. }
  unfold users_of, zlen in *. rewrite length_take. split; [lia|].
  intros u Hin. apply Hu. apply elem_of_take in Hin as (j&?&_).
  by eapply list_elem_of_lookup_2.
Qed.

Lemma all_users_app p q : all_users (p ++ q) = all_users p ++ all_users q.
Proof. apply bind_app. Qed.
Lemma all_users_single k : all_users [k] = users_of k.
Proof. unfold all_users. simpl. by rewrite app_nil_r. Qed.

Lemma all_users_length kws : (∀ k, k ∈ kws → zlen (users_of k) ≤ 10) →
  0 ≤ zlen (all_users kws) ≤ 10 * zlen kws.
Proof.
  induction kws as [|k kws IH]; intros Hk; [done|].
  change (k :: kws) with ([k] ++ kws). rewrite all_users_app, !zlen_app, all_users_single.
  destruct IH; [intros; apply Hk; set_solver|].
  pose proof (Hk k ltac:(set_solver)). pose proof (zlen_nonneg (users_of k)).
  unfold zlen in *. simpl. lia.
Qed.

Lemma all_users_elem kws k u : k ∈ kws → u ∈ users_of k → u ∈ all_users kws.
Proof. intros. unfold all_users. apply list_elem_of_bind. eauto. Qed.

(** *** Checking and counting *)

Lemma check_levels_spec bad num l :
  fits num l →
  (∀ x, bad x = false ∧ level_ok x ∨ bad x = true ∧ ¬ level_ok x ∨
        ∀ k, k ∈ l → kw_level k ≠ x ∧ ∀ u, u ∈ user_levels k → level u ≠ x) →
  (check_levels bad num l = chk_ok tt ∧ levels_ok (kws_of num l)) ∨
  (check_levels bad num l = chk_fail (- EINVAL) ∧ ¬ levels_ok (kws_of num l)).
Proof.
  intros (?&?&Hf) Hbad. unfold check_levels.
  rewrite for_array_take by lia. rewrite Z.sub_0_r. fold (kws_of num l).
  apply for_list_forall. intros i k _ Hin.
  assert (k ∈ l) as Hkl.
  { apply elem_of_take in Hin as (j&?&_). by eapply list_elem_of_lookup_2. }
  destruct (Hf k Hkl) as (?&?&_).
  destruct (Hbad (kw_level k)) as [[-> ?]|[[-> ?]|Hn]]; simpl.
  3: { by destruct (Hn k Hkl). }
  2: { right. split; [done|]. tauto. }
  rewrite for_array_take by lia. rewrite Z.sub_0_r. fold (users_of k).
  destruct (for_list_forall (λ u, level_ok (level u)) (- EINVAL)
    (λ _ u _, guard negb (bad (level u)) else - EINVAL;; chk_ok tt) (users_of k)) with
    (i := 0) (s := tt) as [[-> ?]|[-> ?]]; [|by left|right; tauto].
  intros _ u _ Hu. apply elem_of_take in Hu as (j&Hu%list_elem_of_lookup_2&_).
  destruct (Hbad (level u)) as [[-> ?]|[[-> ?]|Hn]]; simpl; [by left|by right|].
  by destruct (Hn k Hkl) as [_ []%(λ H, H u Hu)].
Qed.

Lemma count_levels_spec mid num l : fits num l →
  count_levels mid num l = chk_ok (slots mid (kws_of num l)).
Proof.
  intros Hf. pose proof Hf as (?&?&_). unfold count_levels.
  rewrite for_array_take by lia. rewrite Z.sub_0_r. fold (kws_of num l).
  assert (∀ k, k ∈ kws_of num l → zlen (users_of k) = num_user_levels k ∧
    0 ≤ num_user_levels k ≤ 10) as Hu.
  { intros k Hk. destruct (users_of_length num l k Hf Hk) as [Hn _].
    apply elem_of_take in Hk as (j&Hk%list_elem_of_lookup_2&_).
    destruct Hf as (_&_&Hf). destruct (Hf k Hk) as (?&?&_). lia. }
  assert (zlen (kws_of num l) ≤ 10) as Hlen by (rewrite kws_of_length by done; lia).
  revert Hu Hlen. generalize (kws_of num l). clear. intros kws Hu.
  assert (∀ i n, 0 ≤ n → n + 11 * zlen kws < 2 ^ 32 →
    for_list i kws (λ _ k n, chk_ok (u32 (n + 1 + (if decide (mid = 0)
      then num_user_levels k else 0)))) n = chk_ok (n + slots mid kws)) as Hgen.
  { induction kws as [|k kws IH]; intros i n Hn Hb; simpl.
    - unfold slots. change (all_users []) with (@nil pal_st_confidence_level).
      unfold zlen. simpl. case_decide; f_equal; f_equal; lia.
    - destruct (Hu k ltac:(set_solver)) as [Hlk ?].
      unfold zlen in Hb; cbn [length] in Hb.
      rewrite u32_small by (case_decide; lia).
      rewrite IH; [|set_solver|case_decide; lia|unfold zlen; case_decide; lia].
      f_equal. unfold slots. change (k :: kws) with ([k] ++ kws).
      rewrite all_users_app, all_users_single, !zlen_app, Hlk.
      change (zlen [k]) with 1. case_decide; lia. }
  intros Hlen. rewrite Hgen; [by rewrite Z.add_0_l|lia|lia].
Qed.

(** *** Placing *)

(** The two blocks after the keywords [kd] and the users [us]. *)
Record placed (num : Z) (store : Z → Z) (kd : list st_keyword_levels)
    (us : list pal_st_confidence_level) (t : Tables) : Prop := {
  placed_len : zlen t.1 = num ∧ zlen t.2 = num;
  placed_kw j k : kd !! j = Some k → t.1 !! j = Some (u8 (kw_level k));
  placed_user u : u ∈ us → t.1 !! Z.to_nat (user_id u) = Some (u8 (store (level u)));
  placed_seen j : Z.of_nat j < num →
    t.2 !! j = Some (if bool_decide (Z.of_nat j ∈ user_id <$> us) then 1 else 0);
}.

Lemma ids_ok_prefix n m p q : ids_ok n m (p ++ q) → ids_ok n m p.
Proof.
  intros [Hd Hr]. split; [|set_solver].
  rewrite fmap_app in Hd. by apply NoDup_app in Hd as [? _].
Qed.

Lemma ids_ok_snoc n m us u : ids_ok n m us →
  ids_ok n m (us ++ [u]) ↔ n ≤ user_id u < m ∧ user_id u ∉ user_id <$> us.
Proof.
  intros [Hd Hr]. unfold ids_ok. rewrite fmap_app, NoDup_app. simpl. split.
  - intros [(_&Hn&_) Hr']. split; [apply Hr'; set_solver|].
    intros Hin. by apply (Hn (user_id u) Hin), list_elem_of_singleton.
  - intros [? Hn]. split_and!; [done| |apply NoDup_singleton|].
    + intros x Hx Hx'. apply list_elem_of_singleton in Hx'. by subst.
    + intros v [?|Hv]%elem_of_app; [by auto|]. apply list_elem_of_singleton in Hv. by subst.
Qed.

Lemma place_user_spec nk num store kd us u t :
  placed num store kd us t → ids_ok nk num us → zlen kd ≤ nk → 0 ≤ user_id u →
  (∃ t', place_user nk num store u t = chk_ok t' ∧ placed num store kd (us ++ [u]) t' ∧
         ids_ok nk num (us ++ [u])) ∨
  (place_user nk num store u t = chk_fail (- EINVAL) ∧ ¬ ids_ok nk num (us ++ [u])).
Proof.
  intros Hp Hi Hk Hu. rewrite ids_ok_snoc by done. destruct t as [cl tr]. unfold place_user.
  destruct Hp as [[Hc Ht] Hkw Huser Hseen]. simpl in *.
  destruct (Z.ltb_spec (user_id u) nk); simpl; [right; split; [done|intros [? _]; lia]|].
  destruct (Z.leb_spec num (user_id u)); simpl; [right; split; [done|intros [? _]; lia]|].
  rewrite Hseen by lia. simpl. rewrite Z2Nat.id by lia.
  case_bool_decide as Hin; simpl; [right; split; [done|tauto]|].
  left. eexists. split; [done|]. split; [|apply ids_ok_snoc; [done|by split]].
  unfold zlen in *. split; simpl.
  - unfold zlen. rewrite !length_insert. lia.
  - intros j k Hj. pose proof (lookup_lt_Some _ _ _ Hj).
    rewrite list_lookup_insert_ne by lia. eauto.
  - intros v [Hv|Hv]%elem_of_app; [|apply list_elem_of_singleton in Hv; subst v].
    + rewrite list_lookup_insert_ne; [by apply Huser|]. intros Heq. destruct Hi as [_ Hr].
      apply Hin. apply list_elem_of_fmap. exists v. split; [|done]. pose proof (Hr v Hv). lia.
    + by rewrite list_lookup_insert_eq by lia.
  - intros j Hj. rewrite fmap_app. destruct (decide (j = Z.to_nat (user_id u))) as [->|].
    + rewrite list_lookup_insert_eq by lia. rewrite bool_decide_true; [done|].
      apply elem_of_app. right. apply list_elem_of_singleton. simpl. lia.
    + rewrite list_lookup_insert_ne by done. rewrite Hseen by done.
      f_equal. erewrite bool_decide_ext; [done|]. rewrite elem_of_app. simpl.
      rewrite list_elem_of_singleton. split; [auto|intros [?|?]; [done|lia]].
Qed.

Lemma place_users_spec nk num store kd us new : ∀ i t,
  placed num store kd us t → ids_ok nk num us → zlen kd ≤ nk →
  (∀ u, u ∈ new → 0 ≤ user_id u) →
  (∃ t', for_list i new (λ _ u, place_user nk num store u) t = chk_ok t' ∧
         placed num store kd (us ++ new) t' ∧ ids_ok nk num (us ++ new)) ∨
  (for_list i new (λ _ u, place_user nk num store u) t = chk_fail (- EINVAL) ∧
   ¬ ids_ok nk num (us ++ new)).
Proof.
  revert us. induction new as [|u new IH]; intros us i t Hp Hi Hk Hu; simpl.
  - left. rewrite app_nil_r. eauto.
  - rewrite (cons_middle u us new), app_assoc.
    destruct (place_user_spec nk num store kd us u t Hp Hi Hk) as [(t'&->&Hp'&Hi')|[-> Hn]].
    { apply Hu. set_solver. }
    + simpl. apply IH; [done..|]. intros v Hv. apply Hu. set_solver.
    + right. simpl. split; [done|]. intros Hg%ids_ok_prefix. done.
Qed.

(** What the keywords [p] of a model place besides their own level. *)
Definition placed_users (mid : Z) (p : list st_keyword_levels) : list pal_st_confidence_level :=
  if decide (mid = 0) then all_users p else [].

Lemma place_keyword_spec mid nk num store past l p k t :
  fits nk l → p ++ [k] `prefix_of` kws_of nk l → nk ≤ num →
  placed num store p (placed_users mid p) t → (ids_ok nk num (placed_users mid p)) →
  (∃ t', place_keyword mid nk num store past (zlen p) k t = chk_ok t' ∧
         placed num store (p ++ [k]) (placed_users mid (p ++ [k])) t' ∧
         ids_ok nk num (placed_users mid (p ++ [k]))) ∨
  (place_keyword mid nk num store past (zlen p) k t = chk_fail (- EINVAL) ∧
   ¬ ids_ok nk num (placed_users mid (p ++ [k]))).
Proof.
  intros Hf Hpre Hnum Hp Hi.
  assert (k ∈ kws_of nk l) as Hin. { destruct Hpre as [q ->]. set_solver. }
  assert (zlen p + 1 ≤ nk) as Hlt.
  { destruct Hpre as [q Hq]. pose proof (kws_of_length nk l Hf) as Hlen. rewrite Hq in Hlen.
    rewrite !zlen_app in Hlen. change (zlen [k]) with 1 in Hlen.
    pose proof (zlen_nonneg q). lia. }
  unfold place_keyword. destruct (Z.ltb_spec (zlen p) num); [|lia].
  assert (placed num store (p ++ [k]) (placed_users mid p)
            (<[Z.to_nat (zlen p) := u8 (kw_level k)]> t.1, t.2)) as Hp1.
  { destruct Hp as [[Hc Ht] Hkw Huser Hseen]. unfold zlen in *. rewrite Nat2Z.id.
    split; simpl; [unfold zlen; by rewrite length_insert| | |done].
    - intros j k' [Hj|[Hj Hk']]%lookup_app_Some.
      + pose proof (lookup_lt_Some _ _ _ Hj). rewrite list_lookup_insert_ne by lia. eauto.
      + apply list_lookup_singleton_Some in Hk' as [Hj0 ->].
        replace j with (length p) by lia. by rewrite list_lookup_insert_eq by lia.
    - intros u Hu. destruct Hi as [_ Hr]. pose proof (Hr u Hu).
      rewrite list_lookup_insert_ne by lia. by apply Huser. }
  unfold placed_users in *. case_decide as Hm.
  - destruct (users_of_length nk l k Hf Hin) as [Hlen Hpos].
    assert (k ∈ l) as Hkl.
    { apply elem_of_take in Hin as (j&?&_). by eapply list_elem_of_lookup_2. }
    destruct Hf as (_&_&Hf). destruct (Hf k Hkl) as (?&?&_).
    rewrite for_array_take by lia. rewrite Z.sub_0_r. fold (users_of k).
    rewrite all_users_app, all_users_single.
    apply place_users_spec; [done|done| |done]. rewrite zlen_app. done.
  - left. eauto.
Qed.

Lemma place_levels_spec mid nk num store past l :
  fits nk l → nk ≤ num →
  (∃ t, place_levels mid nk num store past l = chk_ok t ∧
        placed num store (kws_of nk l) (placed_users mid (kws_of nk l)) t ∧
        ids_ok nk num (placed_users mid (kws_of nk l))) ∨
  (place_levels mid nk num store past l = chk_fail (- EINVAL) ∧
   ¬ ids_ok nk num (placed_users mid (kws_of nk l))).
Proof.
  intros Hf Hnum. pose proof Hf as (?&?&_). unfold place_levels.
  rewrite for_array_take by lia. rewrite Z.sub_0_r. fold (kws_of nk l).
  assert (placed_users mid [] = []) as Hnil by (unfold placed_users; by case_decide).
  apply (for_list_invariant (λ p t, placed num store p (placed_users mid p) t)
    (λ p, ids_ok nk num (placed_users mid p)) (- EINVAL) _ (kws_of nk l) []).
  - intros p q. unfold placed_users. case_decide; [|done].
    rewrite all_users_app. apply ids_ok_prefix.
  - intros p k t Hpre Hp Hg. by eapply place_keyword_spec.
  - rewrite Hnil. split; simpl.
    + unfold zlen. rewrite !length_replicate. lia.
    + done.
    + set_solver.
    + intros j Hj. by rewrite lookup_replicate_2 by lia.
  - rewrite Hnil. split; [constructor|set_solver].
Qed.

(** ids that number the slots leave none out. *)
Lemma ids_ok_cover n us : ids_ok n (n + zlen us) us →
  user_id <$> us ≡ₚ seqZ n (zlen us).
Proof.
  intros [Hd Hr]. apply submseteq_length_Permutation.
  - apply NoDup_submseteq; [done|]. intros i (u&->&Hu)%list_elem_of_fmap.
    apply elem_of_seqZ. auto.
  - rewrite length_seqZ, length_fmap. unfold zlen. lia.
Qed.

Lemma level_at_elem us u : NoDup (user_id <$> us) → u ∈ us → level_at us (user_id u) = level u.
Proof.
  intros Hd Hu. unfold level_at.
  destruct (list_find (λ v, user_id v = user_id u) us) as [[i v]|] eqn:Hf; simpl.
  - apply list_find_Some in Hf as (Hi&Heq&_). apply list_elem_of_lookup in Hu as [j Hj].
    assert (i = j) as ->; [|by simplify_eq].
    eapply NoDup_lookup; [done| |]; rewrite list_lookup_fmap; [by rewrite Hi|].
    by rewrite Hj; simpl; f_equal.
  - apply list_find_None in Hf. rewrite Forall_forall in Hf. by destruct (Hf u Hu).
Qed.

(** The blocks hold the table once every slot has been placed. *)
Lemma placed_table mid store kws t :
  (∀ k, k ∈ kws → level_ok (kw_level k)) →
  (∀ u, u ∈ all_users kws → u8 (store (level u)) = level u) →
  ids_ok (zlen kws) (slots mid kws) (placed_users mid kws) →
  placed (slots mid kws) store kws (placed_users mid kws) t → t.1 = conf_table mid kws.
Proof.
  intros Hk Hu Hi [[Hlen _] Hkw Hus _].
  assert (length t.1 = length (conf_table mid kws)) as Hl.
  { unfold conf_table, slots, zlen in *. rewrite length_app, length_fmap.
    case_decide; rewrite ?length_fmap, ?length_seqZ; simpl; lia. }
  apply list_eq_same_length with (length t.1); [done|done|].
  intros j x y Hj Hx Hy. unfold conf_table in Hy. apply lookup_app_Some in Hy as [Hy|[Hge Hy]].
  - rewrite list_lookup_fmap in Hy. destruct (kws !! j) as [k|] eqn:Hkj; [|done].
    simplify_eq/=. rewrite (Hkw j k Hkj) in Hx. simplify_eq.
    apply u8_small. pose proof (Hk k ltac:(by eapply list_elem_of_lookup_2)) as Hok.
    unfold level_ok, ST_MAX_FSTAGE_CONF_LEVEL in Hok. lia.
  - rewrite length_fmap in Hge, Hy. unfold slots, placed_users in *. case_decide; [|done].
    rewrite list_lookup_fmap, fmap_Some in Hy. destruct Hy as (i&Hseq&->).
    apply list_elem_of_lookup_2 in Hseq as Hin. rewrite <-ids_ok_cover in Hin by done.
    apply list_elem_of_fmap in Hin as (u&->&Hin).
    apply lookup_seqZ in Hseq as [Hid _]. destruct Hi as [Hd Hr].
    rewrite level_at_elem by done. specialize (Hus u Hin).
    assert (Z.to_nat (user_id u) = j) as Hj' by (unfold zlen in *; lia).
    rewrite Hj' in Hus. rewrite Hx in Hus. simplify_eq. by apply Hu.
Qed.

Lemma slots_bounds mid num l : fits num l →
  num ≤ slots mid (kws_of num l) ∧ slots mid (kws_of num l) ≤ 110.
Proof.
  intros Hf. pose proof (kws_of_length num l Hf) as Hlen.
  destruct (all_users_length (kws_of num l)) as [? Hb].
  { intros k Hk. destruct (users_of_length num l k Hf Hk) as [-> _].
    apply elem_of_take in Hk as (j&Hk%list_elem_of_lookup_2&_).
    destruct Hf as (_&_&Hf). destruct (Hf k Hk) as (?&?&_). lia. }
  destruct Hf as (?&?&_). unfold slots. case_decide; lia.
Qed.

Lemma users_levels_ok kws u : levels_ok kws → u ∈ all_users kws → level_ok (level u).
Proof.
  intros Hok (k&Hu&Hk)%list_elem_of_bind. by destruct (Hok k Hk) as [_ Hl]; apply Hl.
Qed.

(** The end both functions share, once levels have been checked. *)
Lemma fill_exit_table mid store past nk l :
  fits nk l → levels_ok (kws_of nk l) → (∀ x, level_ok x → u8 (store x) = x) →
  (fill_exit (slots mid (kws_of nk l))
     (place_levels mid nk (slots mid (kws_of nk l)) store past l) =
   Some (0, mkOut (Some (conf_table mid (kws_of nk l))) (slots mid (kws_of nk l))) ∧
   (mid = 0 → ids_ok nk (slots mid (kws_of nk l)) (all_users (kws_of nk l)))) ∨
  (fill_exit (slots mid (kws_of nk l))
     (place_levels mid nk (slots mid (kws_of nk l)) store past l) =
   Some (- EINVAL, mkOut None 0) ∧
   ¬ (mid = 0 → ids_ok nk (slots mid (kws_of nk l)) (all_users (kws_of nk l)))).
Proof.
  intros Hf Hok Hst. destruct (slots_bounds mid nk l Hf) as [Hnk _].
  assert (ids_ok nk (slots mid (kws_of nk l)) (placed_users mid (kws_of nk l)) ↔
    (mid = 0 → ids_ok nk (slots mid (kws_of nk l)) (all_users (kws_of nk l)))) as Hiff.
  { unfold placed_users. case_decide; [tauto|]. split; [done|]. intros _.
    split; [constructor|set_solver]. }
  destruct (place_levels_spec mid nk (slots mid (kws_of nk l)) store past l Hf Hnk)
    as [([cl tr]&->&Hp&Hi)|[-> Hn]]; [left|right]; rewrite <-Hiff; (split; [|done]); simpl.
  - do 4 f_equal. rewrite <-(kws_of_length nk l Hf) in Hi at 1.
    apply (placed_table mid store (kws_of nk l) (cl, tr)); [|  |done|done].
    + intros k Hk. by apply Hok.
    + intros u Hu. by apply Hst, (users_levels_ok (kws_of nk l)).
  - done.
Qed.

Lemma u8_level_ok x : level_ok x → u8 x = x.
Proof. unfold level_ok, ST_MAX_FSTAGE_CONF_LEVEL. intros. apply u8_small. lia. Qed.

(** Counts that fit their arrays keep the parser inside them. *)
Lemma FillOpaqueConfLevels_defined mid sm out :
  fits (num_kw_levels sm) (kw_levels sm) →
  ∃ r, FillOpaqueConfLevels mid (Some sm) out = Some r.
Proof.
  intros Hf. unfold FillOpaqueConfLevels.
  destruct (check_levels_spec (λ l, (l <? 0) || (ST_MAX_FSTAGE_CONF_LEVEL <? l))
    (num_kw_levels sm) (kw_levels sm) Hf) as [[-> Hok]|[-> _]].
  { intros x. unfold level_ok.
    destruct (Z.ltb_spec x 0), (Z.ltb_spec ST_MAX_FSTAGE_CONF_LEVEL x); simpl; lia. }
  2: { by eexists. }
  rewrite count_levels_spec by done. cbn [chk_bind chk_ok].
  destruct (negb _); [|by eexists]. destruct (calloc_ok _); [|by eexists].
  cbn [chk_bind chk_ok chk_fail]. unfold chk_ok. cbn [chk_bind]. edestruct (fill_exit_table mid (λ l, l) (chk_fail (- EINVAL)) _ _ Hf Hok u8_level_ok)
    as [[-> _]|[-> _]]; by eexists.
Qed.

(** The structure as a client may fill it in. *)
Definition info_counts (c : st_confidence_levels_info) : Prop :=
  0 ≤ num_sound_models c ≤ zlen (conf_levels c) ∧
  ∀ m, m ∈ conf_levels c → fits (num_kw_levels m) (kw_levels m) ∧ zlen (kw_levels m) = 10 ∧
       ∀ k, k ∈ kw_levels m → zlen (user_levels k) = 10.

Lemma ParseOpaqueConfLevels_defined s info c version out w :
  info_counts c → ∃ r, ParseOpaqueConfLevels s info c version out w = Some r.
Proof.
  intros [? Hm]. unfold ParseOpaqueConfLevels. case_match; [by eexists|].
  rewrite for_array_take by lia.
  assert (∀ l i st, (∀ m, m ∈ l → m ∈ conf_levels c) →
    ∃ st', for_list i l (λ _, opaque_model (model_id info)) st = Some st') as Hl.
  { induction l as [|m l IH]; intros i st Hin; simpl; [by eexists|].
    assert (∃ st', opaque_model (model_id info) m st = chk_ok st') as [st' ->].
    { destruct (Hm m ltac:(set_solver)) as (Hf&Hk&Hu). unfold opaque_model.
      destruct (decide (sm_id m = ST_SM_ID_SVA_F_STAGE_GMM)).
      { destruct (FillOpaqueConfLevels_defined (model_id info) m (ol_out st) Hf)
          as [[??] ->]. eexists. reflexivity. }
      destruct (has_bits (sm_id m) ST_SM_ID_SVA_S_STAGE_KWD ||
                has_bits (sm_id m) ST_SM_ID_SVA_S_STAGE_USER); [|eexists; reflexivity].
      destruct (kw_levels m) as [|k ks] eqn:Hkw; [done|]. simpl.
      pose proof (Hu k ltac:(set_solver)) as Hul.
      destruct (has_bits _ _); [eexists; reflexivity|].
      destruct (user_levels k); [done|]. eexists. reflexivity. }
    simpl. apply IH. set_solver. }
  destruct (Hl (take (Z.to_nat (num_sound_models c - 0)) (conf_levels c)) 0
    (mkLoop false 0 out (sec_threshold info))) as [[?|?] ->]; [|by eexists|by eexists].
  intros m Hin. apply elem_of_take in Hin as (j&?&_). by eapply list_elem_of_lookup_2.
Qed.

(** C10: FillOpaqueConfLevels accepts exactly the structures whose levels are percentages
    and, for a model alone in its engine, whose user ids number the slots behind the
    keywords without repetition; it then returns the reference table, in which no slot
    is left out, and otherwise -EINVAL without a block. *)
Theorem opaque_levels_are_table mid sm out :
  (∀ n, calloc_ok n = true) →
  fits (num_kw_levels sm) (kw_levels sm) →
  let kws := kws_of (num_kw_levels sm) (kw_levels sm) in
  (acceptable mid kws ∧
   (mid = 0 → user_id <$> all_users kws ≡ₚ seqZ (zlen kws) (zlen (all_users kws))) ∧
   FillOpaqueConfLevels mid (Some sm) out =
     Some (0, mkOut (Some (conf_table mid kws)) (slots mid kws))) ∨
  (¬ acceptable mid kws ∧ ∃ out', (out' = out ∨ out' = mkOut None 0) ∧
   FillOpaqueConfLevels mid (Some sm) out = Some (- EINVAL, out')).
Proof.
  intros Hal Hf kws. subst kws. pose proof (kws_of_length _ _ Hf) as Hlen. unfold FillOpaqueConfLevels.
  destruct (check_levels_spec (λ l, (l <? 0) || (ST_MAX_FSTAGE_CONF_LEVEL <? l))
    (num_kw_levels sm) (kw_levels sm) Hf) as [[-> Hok]|[-> Hn]].
  { intros x. unfold level_ok.
    destruct (Z.ltb_spec x 0), (Z.ltb_spec ST_MAX_FSTAGE_CONF_LEVEL x); simpl; lia. }
  2: { simpl. right. split; [|eauto]. intros (_&?&_). by apply Hn. }
  rewrite count_levels_spec by done. cbn [chk_bind chk_ok].
  destruct (slots_bounds mid _ _ Hf) as [Hnk _].
  destruct (Z.eqb_spec (slots mid (kws_of (num_kw_levels sm) (kw_levels sm))) 0) as [Hz|Hz]; simpl.
  { right. split; [|eauto]. intros (Hne&_). apply Hne.
    apply nil_length_inv. unfold zlen in Hlen. lia. }
  rewrite Hal. simpl.
  assert (kws_of (num_kw_levels sm) (kw_levels sm) ≠ []) as Hne.
  { intros Hnil. apply Hz. unfold slots. rewrite Hnil. by case_decide. }
  destruct (fill_exit_table mid (λ l, l) (chk_fail (- EINVAL)) _ _ Hf Hok u8_level_ok)
    as [[-> Hi]|[-> Hn]]; [rewrite <-Hlen in Hi at 1|rewrite <-Hlen in Hn at 1].
  - left. split; [done|]. split; [|done]. intros Hm. apply ids_ok_cover.
    specialize (Hi Hm). unfold slots in Hi. by rewrite decide_True in Hi.
  - right. split; [by intros (_&_&?)|eauto].
Qed.

(** FillConfLevels does the same with the phrases of the configuration. *)
Theorem phrase_levels_are_table info c out :
  (∀ n, calloc_ok n = true) →
  fits (num_phrases c) (phrase_levels <$> phrases c) →
  num_phrases c ≠ 0 →
  (∀ m, si_model info = Some m → num_phrases c ≤ sm_num_phrases m) →
  (∀ k, k ∈ phrase_levels <$> phrases c →
        0 ≤ kw_level k ∧ ∀ u, u ∈ user_levels k → 0 ≤ level u) →
  let kws := kws_of (num_phrases c) (phrase_levels <$> phrases c) in
  (acceptable (model_id info) kws ∧
   FillConfLevels info (Some c) out =
     Some (0, mkOut (Some (conf_table (model_id info) kws)) (slots (model_id info) kws))) ∨
  (¬ acceptable (model_id info) kws ∧
   FillConfLevels info (Some c) out = Some (- EINVAL, mkOut None 0)).
Proof.
  intros Hal Hf Hnz Hm Hpos kws. subst kws. pose proof (kws_of_length _ _ Hf) as Hlen.
  unfold FillConfLevels. destruct (Z.eqb_spec (num_phrases c) 0) as [|_]; [done|]. simpl.
  assert (match si_model info with Some m => sm_num_phrases m <? num_phrases c
          | None => false end = false) as ->.
  { destruct (si_model info) as [m|]; [|done]. apply Z.ltb_ge, Hm. done. }
  rewrite count_levels_spec by done. cbn [chk_bind chk_ok]. rewrite Hal.
  assert (kws_of (num_phrases c) (phrase_levels <$> phrases c) ≠ []) as Hne.
  { intros Hnil. rewrite Hnil in Hlen. by apply Hnz. }
  destruct (check_levels_spec (λ l, ST_MAX_FSTAGE_CONF_LEVEL <? l)
    (num_phrases c) (phrase_levels <$> phrases c) Hf) as [[-> Hok]|[-> Hn]].
  { intros x. unfold level_ok. destruct (Z.ltb_spec ST_MAX_FSTAGE_CONF_LEVEL x); [lia|].
    destruct (decide (0 ≤ x)); [lia|]. right; right. intros k Hk.
    destruct (Hpos k Hk) as [? Hu]. split; [lia|]. intros u Hul. pose proof (Hu u Hul). lia. }
  2: { right. split; [|done]. intros (_&?&_). by apply Hn. }
  simpl. edestruct (fill_exit_table (model_id info)
    (λ l, if l <? ST_MAX_FSTAGE_CONF_LEVEL then l else ST_MAX_FSTAGE_CONF_LEVEL) None
    _ _ Hf Hok) as [[-> Hi]|[-> Hn]].
  { intros x Hx. destruct (Z.ltb_spec x ST_MAX_FSTAGE_CONF_LEVEL); [by apply u8_level_ok|].
    unfold level_ok in Hx. replace x with ST_MAX_FSTAGE_CONF_LEVEL by lia. done. }
  - left. rewrite <-Hlen in Hi at 1. done.
  - right. rewrite <-Hlen in Hn at 1. split; [|done]. by intros (_&_&?).
Qed.

End levels.

(** ** At a concrete input *)

Module SvaConfigDemo.
Import SvaDemo BoundedCopy.

(** Two keywords; the second has two users, whose ids number the slots 2 and 3. *)
Definition demo_keywords : list st_keyword_levels :=
  [mkKwLevels 60 0 []; mkKwLevels 70 2 [mkLevel 3 40; mkLevel 2 30]].

Lemma opaque_levels_are_table_witness :
  FillOpaqueConfLevels 0 (Some (mkSmLevels ST_SM_ID_SVA_F_STAGE_GMM 2 demo_keywords))
    (mkOut None 0) = Some (0, mkOut (Some [60; 70; 30; 40]) 4) ∧
  user_id <$> all_users demo_keywords ≡ₚ seqZ 2 2.
Proof.
  destruct (opaque_levels_are_table 0 (mkSmLevels ST_SM_ID_SVA_F_STAGE_GMM 2 demo_keywords)
    (mkOut None 0)) as [(_&Hp&Ho)|(_&out'&_&Ho)].
  - done.
  - split; [vm_compute; by split|]. split; [by vm_compute|].
    intros k [-> |[-> |[]%not_elem_of_nil]%elem_of_cons]%elem_of_cons;
      (split; [vm_compute; by split|]; split; [by vm_compute|]); intros u Hu.
    + by apply not_elem_of_nil in Hu.
    + apply elem_of_cons in Hu as [-> |[-> |[]%not_elem_of_nil]%elem_of_cons]; by vm_compute.
  - split; [exact Ho|]. by apply Hp.
  - vm_compute in Ho. discriminate.
Defined.
End SvaConfigDemo.
