(* ===== verification/SvaCodecFacts.v ===== *)
(** * Voice UI interface: the decoders invert the encoders

    A client's opaque data, encoded parameter by parameter, are read back exactly: the two
    layouts of confidence levels, the loop over the parameters, and the parts of a
    combined sound model. *)

From S2P Require Import Prelude PalDefs SoundTriggerState.
From S2P Require Import SvaState.
From S2P Require Import SvaConfig.
From S2P Require Import SvaConfigFacts.

(** ** Words, arrays and the layouts of levels *)

Definition word_ok (n : nat) (z : Z) : Prop := 0 ≤ z < 2 ^ (8 * Z.of_nat n).

Lemma get_word_put n z r : word_ok n z → get_word n (le_bytes n z ++ r) = z.
Proof.
  intros. unfold get_word. rewrite take_app_length' by by rewrite le_bytes_length.
  rewrite le_val_bytes. by apply Z.mod_small.
Qed.

Lemma drop_le_bytes n z r : drop n (le_bytes n z ++ r) = r.
Proof. apply drop_app_length'. by rewrite le_bytes_length. Qed.

Lemma get_array_put {A} size (get : list Z → A) (put : A → list Z) xs r :
  (∀ x, x ∈ xs → length (put x) = size ∧ ∀ r, get (put x ++ r) = x) →
  get_array (length xs) size get ((xs ≫= put) ++ r) = xs.
Proof.
  unfold get_array. revert r. induction xs as [|x xs IH]; intros r Hx; [done|].
  destruct (Hx x ltac:(set_solver)) as [Hl Hg]. cbn [length seq fmap list_fmap].
  rewrite drop_0. change ((x :: xs) ≫= put) with (put x ++ (xs ≫= put)).
  rewrite <-app_assoc, Hg. f_equal. rewrite <-fmap_S_seq, <-list_fmap_compose.
  rewrite <-(IH r) at 2 by set_solver. apply list_fmap_ext. intros i j _. simpl.
  rewrite <-drop_drop. f_equal. f_equal. by apply drop_app_length'.
Qed.

Lemma bind_length {A} (put : A → list Z) size xs :
  (∀ x, x ∈ xs → length (put x) = size) → length (xs ≫= put) = (length xs * size)%nat.
Proof.
  induction xs as [|x xs IH]; intros Hx; [done|].
  change ((x :: xs) ≫= put) with (put x ++ (xs ≫= put)).
  rewrite length_app, IH, Hx by set_solver. simpl. lia.
Qed.

Section layouts.
Variable v2 : bool.

Definition level_fits (l : Z) : Prop :=
  if v2 then - 2 ^ 31 ≤ l < 2 ^ 31 else 0 ≤ l < 2 ^ 8.
Definition user_fits (u : pal_st_confidence_level) : Prop :=
  word_ok 4 (user_id u) ∧ level_fits (level u).
Definition keyword_fits (k : st_keyword_levels) : Prop :=
  level_fits (kw_level k) ∧ word_ok 4 (num_user_levels k) ∧
  length (user_levels k) = ST_MAX_ENTRIES ∧ ∀ u, u ∈ user_levels k → user_fits u.
Definition sm_fits (m : st_sound_model_conf_levels) : Prop :=
  word_ok 4 (sm_id m) ∧ word_ok 4 (num_kw_levels m) ∧
  length (kw_levels m) = ST_MAX_ENTRIES ∧ ∀ k, k ∈ kw_levels m → keyword_fits k.
Definition info_fits (c : st_confidence_levels_info) : Prop :=
  word_ok 4 (ci_version c) ∧ word_ok 4 (num_sound_models c) ∧
  length (conf_levels c) = ST_MAX_ENTRIES ∧ ∀ m, m ∈ conf_levels c → sm_fits m.

Lemma level_put l r : level_fits l →
  level_of v2 (get_word (level_size v2) (le_bytes (level_size v2) l ++ r)) = l.
Proof.
  unfold level_fits, level_of, level_size, get_word. intros Hl.
  rewrite take_app_length' by by rewrite le_bytes_length. rewrite le_val_bytes.
  destruct v2; simpl Z.of_nat; simpl Z.mul; [|by apply Z.mod_small].
  unfold s32. rewrite Z.add_mod_idemp_l by done. rewrite Z.mod_small; lia.
Qed.

Lemma user_put u r : user_fits u → get_user v2 (put_user v2 u ++ r) = u.
Proof.
  intros [Hi Hl]. destruct u as [i l]. unfold get_user, put_user. simpl user_id.
  simpl level. rewrite <-app_assoc, get_word_put, drop_le_bytes, level_put by done. done.
Qed.
Lemma put_user_length u : length (put_user v2 u) = user_size v2.
Proof. unfold put_user. by rewrite length_app, !le_bytes_length. Qed.

Lemma keyword_put k r : keyword_fits k → get_keyword v2 (put_keyword v2 k ++ r) = k.
Proof.
  intros (Hl&Hn&Hlen&Hu). destruct k as [l n us]. unfold get_keyword, put_keyword.
  cbn [kw_level num_user_levels user_levels] in *.
  rewrite <-!app_assoc, level_put by done. rewrite <-drop_drop, !drop_le_bytes.
  rewrite get_word_put by done. f_equal. rewrite <-Hlen. apply get_array_put.
  intros u Hin. split; [apply put_user_length|]. intros. by apply user_put, Hu.
Qed.
Lemma put_keyword_length k : keyword_fits k → length (put_keyword v2 k) = kw_size v2.
Proof.
  intros (_&_&Hlen&_). unfold put_keyword, kw_size. rewrite !length_app, !le_bytes_length.
  rewrite (bind_length _ (user_size v2)) by (intros; apply put_user_length). rewrite Hlen. lia.
Qed.

Lemma sm_put m r : sm_fits m → get_sm_levels v2 (put_sm_levels v2 m ++ r) = m.
Proof.
  intros (Hi&Hn&Hlen&Hk). destruct m as [i n ks]. unfold get_sm_levels, put_sm_levels.
  cbn [sm_id num_kw_levels kw_levels] in *. rewrite <-!app_assoc. change 8%nat with (4 + 4)%nat.
  rewrite <-drop_drop, !drop_le_bytes, !get_word_put by done. f_equal. rewrite <-Hlen.
  apply get_array_put. intros k Hin. split; [by apply put_keyword_length, Hk|].
  intros. by apply keyword_put, Hk.
Qed.
Lemma put_sm_length m : sm_fits m → length (put_sm_levels v2 m) = sm_size v2.
Proof.
  intros (_&_&Hlen&Hk). unfold put_sm_levels, sm_size. rewrite !length_app, !le_bytes_length.
  rewrite (bind_length _ (kw_size v2)) by (intros; by apply put_keyword_length, Hk).
  rewrite Hlen. lia.
Qed.

Lemma info_put c r : info_fits c → get_levels_info v2 (put_levels_info v2 c ++ r) = c.
Proof.
  intros (Hi&Hn&Hlen&Hk). destruct c as [i n ms]. unfold get_levels_info, put_levels_info.
  cbn [ci_version num_sound_models conf_levels] in *. rewrite <-!app_assoc. change 8%nat with (4 + 4)%nat.
  rewrite <-drop_drop, !drop_le_bytes, !get_word_put by done. f_equal. rewrite <-Hlen.
  apply get_array_put. intros m Hin. split; [by apply put_sm_length, Hk|].
  intros. by apply sm_put, Hk.
Qed.
Lemma put_info_length c : info_fits c → length (put_levels_info v2 c) = info_size v2.
Proof.
  intros (_&_&Hlen&Hk). unfold put_levels_info, info_size.
  rewrite !length_app, !le_bytes_length.
  rewrite (bind_length _ (sm_size v2)) by (intros; by apply put_sm_length, Hk).
  rewrite Hlen. lia.
Qed.
End layouts.

(** ** Opaque recognition data *)

Section opaque.
Context `{!SvaEnv, !Osal, !OsalSpec _}.

(** The parameters a client can send. *)
Inductive OpaqueParam :=
  | PLevels (v2 : bool) (c : st_confidence_levels_info)
  | PHistory (version hist preroll : Z)
  | PPerfMode (version mode : Z)
  | PMmaThreshold (b : list Z)
  | PTiuvThreshold (b : list Z)
  | PHistMode (b : list Z).

Definition param_key (p : OpaqueParam) : Z :=
  match p with
  | PLevels _ _ => ST_PARAM_KEY_CONFIDENCE_LEVELS
  | PHistory _ _ _ => ST_PARAM_KEY_HISTORY_BUFFER_CONFIG
  | PPerfMode _ _ => ST_PARAM_KEY_DETECTION_PERF_MODE
  | PMmaThreshold _ => ST_PARAM_KEY_MMA_THRESHOLD_CONFIG
  | PTiuvThreshold _ => ST_PARAM_KEY_TIUV_THRESHOLD_CONFIG
  | PHistMode _ => ST_PARAM_KEY_HIST_CAPTURE_MODE
  end.

Definition param_payload (p : OpaqueParam) : list Z :=
  match p with
  | PLevels v2 c => put_levels_info v2 c
  | PHistory version hist preroll =>
      le_bytes 4 version ++ le_bytes 4 hist ++ le_bytes 4 preroll
  | PPerfMode version mode => le_bytes 4 version ++ le_bytes 4 mode
  | PMmaThreshold b | PTiuvThreshold b | PHistMode b => b
  end.

Definition encode_param (p : OpaqueParam) : list Z :=
  le_bytes 4 (param_key p) ++ le_bytes 4 (zlen (param_payload p)) ++ param_payload p.

(** The structures hold values of their types; the version selects the layout. *)
Definition param_fits (p : OpaqueParam) : Prop :=
  match p with
  | PLevels v2 c => info_fits v2 c ∧ (ci_version c = CONF_LEVELS_INTF_VERSION_0002 ↔ v2 = true)
  | PHistory version hist preroll => word_ok 4 version ∧ word_ok 4 hist ∧ word_ok 4 preroll
  | PPerfMode version mode => word_ok 4 version ∧ word_ok 4 mode
  | PMmaThreshold _ => True
  | PTiuvThreshold b => zlen b = sizeof_tiuv_threshold_config
  | PHistMode b => zlen b = sizeof_history_buffer_mode
  end.

(** What a parameter means. *)
Definition apply_param (s : positive) (p : OpaqueParam) (l : ConfigLoop) (w : SVAInterface)
  : option ((Z + ConfigLoop) * SVAInterface) :=
  match p with
  | PLevels v2 c =>
      let w := update_info s (set_conf_levels_intf_version (ci_version c)) w in
      info ← registered s w;
      '(status, out, w) ← ParseOpaqueConfLevels s info c (ci_version c) (cl_out l) w;
      Some (if decide (status = 0) then inr (mkConfig out (cl_hist l) (cl_preroll l))
            else inl status, w)
  | PHistory _ hist preroll => Some (inr (mkConfig (cl_out l) hist preroll), w)
  | PPerfMode _ _ => Some (inr l, w)
  | PMmaThreshold b => Some (inr (mkConfig (mkOut (Some b) (zlen b)) (cl_hist l) (cl_preroll l)), w)
  | PTiuvThreshold b => Some (inr l, set_tiuv_threshold_config_ b w)
  | PHistMode b => Some (inr l, set_hist_cap_mode_config_ (get_history_buffer_mode b) w)
  end.

Fixpoint apply_params (s : positive) (ps : list OpaqueParam) (l : ConfigLoop)
    (w : SVAInterface) : option ((Z + ConfigLoop) * SVAInterface) :=
  match ps with
  | [] => Some (inr l, w)
  | p :: ps =>
      '(r, w) ← apply_param s p l w;
      match r with
      | inl status => Some (inl status, w)
      | inr l => apply_params s ps l w
      end
  end.

(** Reads at an offset of a concatenation. *)
Lemma slice_middle (a b c : list Z) : slice (zlen a) (zlen b) (a ++ b ++ c) = Some b.
Proof.
  apply slice_Some. rewrite !zlen_app. pose proof (zlen_nonneg a).
  pose proof (zlen_nonneg b). pose proof (zlen_nonneg c). split; [lia|].
  unfold zlen. rewrite !Nat2Z.id, drop_app_length. by rewrite take_app_length.
Qed.

Lemma read_u32_middle (a : list Z) z c : word_ok 4 z →
  read_u32 (zlen a) (a ++ le_bytes 4 z ++ c) = Some z.
Proof.
  intros Hz. unfold read_u32. change 4 with (zlen (le_bytes 4 z)) at 1.
  rewrite slice_middle. cbn [mbind option_bind]. f_equal. rewrite le_val_bytes. by apply Z.mod_small.
Qed.

Lemma zlen_le_bytes n z : zlen (le_bytes n z) = Z.of_nat n.
Proof. unfold zlen. by rewrite le_bytes_length. Qed.

Lemma slice_payload (pre h pay post : list Z) : zlen h = 8 →
  slice (zlen pre + sizeof_st_param_header) (zlen pay) (pre ++ h ++ pay ++ post) = Some pay.
Proof.
  intros Hh. unfold sizeof_st_param_header. rewrite <-Hh, <-zlen_app, app_assoc.
  apply slice_middle.
Qed.

Lemma config_param_encoded s p pre post l w :
  (∀ n, calloc_ok n = true) → param_fits p →
  config_param s (pre ++ encode_param p ++ post) (zlen pre) (param_key p)
    (zlen (param_payload p)) l w =
  '(r, w) ← apply_param s p l w;
  Some (match r with
        | inl status => inl status
        | inr l => inr (zlen (encode_param p), l) end, w).
Proof.
  intros Hal Hf. set (h := le_bytes 4 (param_key p) ++ le_bytes 4 (zlen (param_payload p))).
  assert (encode_param p = h ++ param_payload p) as He.
  { unfold encode_param, h. by rewrite <-app_assoc. }
  assert (zlen h = 8) as Hh by (unfold h; by rewrite zlen_app, !zlen_le_bytes).
  assert (zlen (encode_param p) = sizeof_st_param_header + zlen (param_payload p)) as Hsz
    by (rewrite He, zlen_app, Hh; done).
  rewrite Hsz, He, <-app_assoc.
  pose proof (slice_payload pre h (param_payload p) post Hh) as Hs.
  destruct p as [v2 c|v hi pr|v m|b|b|b];
    cbn [param_key param_payload param_fits apply_param] in *; unfold config_param;
    repeat first [rewrite (decide_True (P := _ = _)) by done
                 |rewrite (decide_False (P := _ = _)) by done].
  - destruct Hf as [Hf Hv].
    assert (zlen (put_levels_info v2 c) = Z.of_nat (info_size v2)) as Hlen
      by (unfold zlen; by rewrite put_info_length).
    assert (read_u32 (zlen pre + sizeof_st_param_header)
      (pre ++ h ++ put_levels_info v2 c ++ post) = Some (ci_version c)) as Hr.
    { unfold sizeof_st_param_header. rewrite <-Hh, <-zlen_app, app_assoc.
      generalize (pre ++ h). intros q. unfold put_levels_info. rewrite <-!app_assoc. apply read_u32_middle. by destruct Hf. }
    rewrite Hr. cbn [mbind option_bind].
    assert (bool_decide (ci_version c = CONF_LEVELS_INTF_VERSION_0002) = v2) as ->.
    { destruct v2; case_bool_decide; naive_solver. }
    rewrite decide_True by done. rewrite Hlen in Hs. rewrite Hs. cbn [mbind option_bind].
    rewrite <-(app_nil_r (put_levels_info v2 c)), info_put by done.
    destruct (registered _ _) as [info|]; [|done]. cbn [mbind option_bind].
    destruct (ParseOpaqueConfLevels _ _ _ _ _ _) as [[[st out] w']|]; [|done].
    cbn [mbind option_bind]. rewrite app_nil_r, Hlen. by case_decide.
  - rewrite !zlen_app, !zlen_le_bytes in Hs |- *.
    change (Z.of_nat 4 + (Z.of_nat 4 + Z.of_nat 4)) with sizeof_st_hist_buffer_info in *.
    rewrite Hs. cbn [mbind option_bind]. destruct Hf as (?&?&?).
    change 8%nat with (4 + 4)%nat. rewrite <-drop_drop, !drop_le_bytes, get_word_put by done.
    by rewrite <-(app_nil_r (le_bytes 4 pr)), get_word_put by done.
  - rewrite !zlen_app, !zlen_le_bytes in Hs |- *.
    change (Z.of_nat 4 + Z.of_nat 4) with sizeof_st_det_perf_mode_info in *. by rewrite Hs.
  - rewrite Hal, Hs. cbn [mbind option_bind]. by rewrite ar_mem_cpy_fits by done.
  - rewrite Hf in Hs. rewrite Hs. cbn [mbind option_bind].
    rewrite ar_mem_cpy_fits by lia. done.
  - rewrite Hf in Hs. rewrite Hs. cbn [mbind option_bind].
    rewrite ar_mem_cpy_fits by lia. done.
Qed.

Lemma param_key_ok p : word_ok 4 (param_key p).
Proof. destruct p; done. Qed.

Lemma config_loop_encoded s ps : ∀ fuel pre l w,
  (∀ n, calloc_ok n = true) → (∀ p, p ∈ ps → param_fits p) →
  zlen pre + zlen (ps ≫= encode_param) < 2 ^ 32 →
  (length (ps ≫= encode_param) ≤ fuel)%nat →
  config_loop fuel s (pre ++ (ps ≫= encode_param))
    (zlen (pre ++ (ps ≫= encode_param))) (zlen pre) l w = apply_params s ps l w.
Proof.
  induction ps as [|p ps IH]; intros fuel pre l w Hal Hf Hb Hfuel.
  - simpl. rewrite app_nil_r. destruct fuel; cbn [config_loop]; by rewrite Z.ltb_irrefl.
  - change ((p :: ps) ≫= encode_param) with (encode_param p ++ (ps ≫= encode_param)) in *.
    assert (8 ≤ zlen (encode_param p)) as Hp.
    { unfold encode_param. rewrite !zlen_app, !zlen_le_bytes.
      pose proof (zlen_nonneg (param_payload p)). lia. }
    rewrite !zlen_app in Hb. rewrite length_app in Hfuel.
    pose proof (zlen_nonneg pre). pose proof (zlen_nonneg (ps ≫= encode_param)).
    destruct fuel as [|fuel]; [unfold zlen in Hp; lia|]. cbn [config_loop].
    assert (zlen pre <? zlen (pre ++ encode_param p ++ (ps ≫= encode_param)) = true) as ->
      by (rewrite !zlen_app; apply Z.ltb_lt; lia).
    cbn [negb]. pose proof (config_param_encoded s p pre (ps ≫= encode_param) l w Hal
      ltac:(apply Hf; set_solver)) as Hcp.
    assert (read_u32 (zlen pre) (pre ++ encode_param p ++ (ps ≫= encode_param)) =
            Some (param_key p)) as ->.
    { unfold encode_param at 1. rewrite <-!app_assoc. apply read_u32_middle, param_key_ok. }
    assert (read_u32 (zlen pre + 4) (pre ++ encode_param p ++ (ps ≫= encode_param)) =
            Some (zlen (param_payload p))) as ->.
    { unfold encode_param at 1. rewrite <-!app_assoc.
      change 4 with (zlen (le_bytes 4 (param_key p))) at 1.
      rewrite <-zlen_app, app_assoc. apply read_u32_middle. unfold word_ok.
      assert (zlen (param_payload p) ≤ zlen (encode_param p)).
      { unfold encode_param. rewrite !zlen_app, !zlen_le_bytes. lia. }
      pose proof (zlen_nonneg (param_payload p)). change (8 * Z.of_nat 4) with 32. lia. }
    cbn [mbind option_bind]. rewrite Hcp. cbn [apply_params].
    destruct (apply_param s p l w) as [[[st|l'] w']|]; cbn [mbind option_bind];
      [done| |done].
    rewrite u32_small by lia. rewrite app_assoc, <-zlen_app. apply IH; [done|set_solver|rewrite zlen_app; lia|].
    unfold zlen in Hp. lia.
Qed.

(** The counts of a level structure fit its arrays. *)
Definition param_counts (p : OpaqueParam) : Prop :=
  match p with PLevels _ c => info_counts c | _ => True end.

Lemma registered_update s f w : registered s (update_info s f w) = f <$> registered s w.
Proof.
  unfold registered, update_info. simpl. rewrite lookup_alter_eq.
  by destruct (sm_info_map_ w !! s) as [[i|]|].
Qed.

Lemma registered_cached v2 c s w : registered s (set_cached_levels v2 c w) = registered s w.
Proof. by destruct v2. Qed.

Lemma ParseOpaqueConfLevels_registered s info c version out w st out' w' :
  ParseOpaqueConfLevels s info c version out w = Some (st, out', w') →
  is_Some (registered s w) → is_Some (registered s w').
Proof.
  unfold ParseOpaqueConfLevels. intros Heq Hr.
  destruct (negb _); [|destruct (for_array _ _ _ _ _) as [[?|?]|]]; simplify_eq;
    rewrite ?registered_update, ?registered_cached, ?fmap_is_Some; done.
Qed.

Lemma apply_params_defined s ps : ∀ l w,
  (∀ p, p ∈ ps → param_counts p) → is_Some (registered s w) →
  is_Some (apply_params s ps l w).
Proof.
  induction ps as [|p ps IH]; intros l w Hc Hr; cbn [apply_params]; [done|].
  assert (∃ r w', apply_param s p l w = Some (r, w') ∧ is_Some (registered s w'))
    as (r&w'&->&Hr').
  { destruct p as [v2 c|v hi pr|v m|b|b|b]; cbn [apply_param]; eauto.
    rewrite registered_update. destruct Hr as [info Hi]. rewrite Hi. cbn [fmap option_fmap
      option_map mbind option_bind].
    destruct (ParseOpaqueConfLevels_defined s (set_conf_levels_intf_version (ci_version c) info)
      c (ci_version c) (cl_out l) (update_info s (set_conf_levels_intf_version (ci_version c)) w))
      as [[[st out] w'] Heq]; [apply (Hc (PLevels v2 c)); set_solver|].
    rewrite Heq. do 2 eexists. split; [done|].
    eapply ParseOpaqueConfLevels_registered; [done|]. rewrite registered_update, Hi. eauto. }
  cbn [mbind option_bind]. destruct r; [done|]. apply IH; [set_solver|done].
Qed.

(** C12: Opaque recognition data are read back exactly: for any sequence of parameters in
    their layouts, with counts that fit the arrays, ParseRecognitionConfig is defined and
    ends with the status and in the state that applying the meaning of each parameter in
    turn gives. *)
Theorem opaque_data_round_trip s ps c w :
  (∀ n, calloc_ok n = true) →
  is_Some (registered s w) →
  (∀ p, p ∈ ps → param_fits p ∧ param_counts p) →
  rc_data c = ps ≫= encode_param → data_size c = zlen (rc_data c) →
  CUSTOM_CONFIG_OPAQUE_DATA_SIZE < data_size c < 2 ^ 32 →
  ∃ r w', apply_params s ps (mkConfig (mkOut None 0) 0 0)
            (update_info s (set_rec_config (Some c)) w) = Some (r, w') ∧
          ParseRecognitionConfig s (Some c) w = Some (config_exit s r w').
Proof.
  intros Hal Hreg Hf Hd Hsize Hb.
  destruct (apply_params_defined s ps (mkConfig (mkOut None 0) 0 0)
    (update_info s (set_rec_config (Some c)) w)) as [[r w'] Hap].
  { intros p Hp. by apply Hf. } { rewrite registered_update. by apply fmap_is_Some. }
  exists r, w'. split; [done|]. destruct Hreg as [info Hreg].
  unfold ParseRecognitionConfig. rewrite Hreg.
  destruct (Z.ltb_spec CUSTOM_CONFIG_OPAQUE_DATA_SIZE (data_size c)); [|lia].
  rewrite Hsize, Hd in Hb |- *.
  pose proof (config_loop_encoded s ps (length (ps ≫= encode_param)) []
    (mkConfig (mkOut None 0) 0 0) (update_info s (set_rec_config (Some c)) w) Hal) as Hl.
  cbn [app] in Hl. change (zlen []) with 0 in Hl. rewrite Hl; [by rewrite Hap| |lia|lia].
  intros p Hp. by apply Hf.
Qed.
End opaque.

(** ** Combined sound models *)

Section models.
Context `{!SvaEnv, !Osal, !OsalSpec _}.

(** A part a combined model is made of. *)
Record ModelEntry := mkEntry { me_major : Z; me_minor : Z; me_type : Z; me_data : list Z }.

Definition entry_fits (e : ModelEntry) : Prop :=
  word_ok 2 (me_major e) ∧ word_ok 2 (me_minor e) ∧ word_ok 4 (me_type e).

(** The table of the parts, whose data start at [off], and the data. *)
Fixpoint encode_table (off : Z) (es : list ModelEntry) : list (list Z) :=
  match es with
  | [] => []
  | e :: es =>
      (le_bytes 2 (me_major e) ++ le_bytes 2 (me_minor e) ++ le_bytes 4 off ++
       le_bytes 4 (zlen (me_data e)) ++ le_bytes 4 (me_type e)) ::
      encode_table (off + zlen (me_data e)) es
  end.
Definition encode_data (es : list ModelEntry) : list Z := es ≫= me_data.

(** [rest1] and [rest2] are the parts of the two headers nothing reads, [mode] the words
    behind the data. *)
Definition encode_model (rest1 rest2 mode : list Z) (es : list ModelEntry) : list Z :=
  (le_bytes 4 SML_GLOBAL_HEADER_MAGIC_NUMBER ++ rest1 ++ le_bytes 4 (zlen es) ++ rest2) ++
  concat (encode_table 0 es) ++ encode_data es ++ mode.

(** The parts that are kept: not the internal ones, and user verification models only
    when the client's first key phrase, if it sent one, asks for the user. *)
Definition keeps (keyphrase : option Z) (e : ModelEntry) : bool :=
  let t := me_type e in
  negb ((t =? SML_ID_SVA_S_STAGE_UBM) || (t =? SML_ID_SVA_F_STAGE_INTERNAL)) &&
  (negb ((t =? ST_SM_ID_SVA_S_STAGE_USER) || (t =? ST_SM_ID_SVA_S_STAGE_CTIUV)) ||
   from_option (λ mode, has_bits mode PAL_RECOGNITION_MODE_USER_IDENTIFICATION) true keyphrase).
Definition part_of (e : ModelEntry) : sound_model_data :=
  mkSmPart (me_type e) (me_data e) (zlen (me_data e)) true.
(** The type of the first stage: the version of the last first-stage model. *)
Definition stage_type (t : Z) (es : list ModelEntry) : Z :=
  foldl (λ t e, if decide (me_type e = ST_SM_ID_SVA_F_STAGE_GMM)
                then Z.land (me_major e) 0xFF else t) t es.

Lemma AllocateSMData_at pre (data post : list Z) type :
  (∀ n, calloc_ok n = true) → zlen data < 2 ^ 31 →
  AllocateSMData (s32 (zlen data)) (zlen pre) (pre ++ data ++ post) type =
  chk_ok (mkSmPart type data (zlen data) true).
Proof.
  intros Hal Hb. pose proof (zlen_nonneg data). unfold AllocateSMData. rewrite !Hal.
  rewrite s32_small, u64_small, u32_small, slice_middle by lia. cbn [chk_lift chk_bind].
  by rewrite ar_mem_cpy_fits by done.
Qed.

Lemma encode_table_length off es : zlen (concat (encode_table off es)) = 16 * zlen es.
Proof.
  revert off. induction es as [|e es IH]; intros off; [done|].
  cbn [encode_table concat]. rewrite zlen_app, IH, !zlen_app, !zlen_le_bytes.
  unfold zlen. cbn [length]. lia.
Qed.

Lemma encode_table_app off p q :
  encode_table off (p ++ q) = encode_table off p ++ encode_table (off + zlen (encode_data p)) q.
Proof.
  revert off. induction p as [|e p IH]; intros off; cbn [app encode_table].
  - unfold encode_data. change (zlen ([] ≫= me_data)) with 0. by rewrite Z.add_0_r.
  - rewrite IH. do 3 f_equal. unfold encode_data.
    change ((e :: p) ≫= me_data) with (me_data e ++ (p ≫= me_data)). rewrite zlen_app. lia.
Qed.

Lemma encode_data_app p q : encode_data (p ++ q) = encode_data p ++ encode_data q.
Proof. apply bind_app. Qed.

(** The entry of a part in the table. *)
Lemma big_model_at_encoded hdr p e q tail :
  zlen hdr = 424 → entry_fits e → zlen (encode_data (p ++ e :: q)) < 2 ^ 31 →
  big_model_at (zlen p) (hdr ++ concat (encode_table 0 (p ++ e :: q)) ++ tail) =
  Some (mkBigSm (me_major e) (me_minor e) (zlen (encode_data p)) (zlen (me_data e)) (me_type e)).
Proof.
  intros Hh (Hma&Hmi&Ht) Hb. unfold big_model_at. rewrite encode_table_app. cbn [encode_table].
  rewrite encode_data_app in Hb. change (e :: q) with ([e] ++ q) in Hb.
  rewrite encode_data_app, !zlen_app in Hb. unfold encode_data at 2 in Hb. simpl in Hb.
  rewrite app_nil_r in Hb.
  pose proof (zlen_nonneg (encode_data p)). pose proof (zlen_nonneg (me_data e)).
  pose proof (zlen_nonneg (encode_data q)).
  rewrite concat_app. cbn [concat]. rewrite <-!(app_assoc (concat (encode_table 0 p))).
  rewrite Z.add_0_l. set (ent := le_bytes 2 (me_major e) ++ _).
  rewrite <-(app_assoc ent), (app_assoc hdr).
  replace (sizeof_SML_GlobalHeaderType + sizeof_SML_HeaderTypeV3 +
           zlen p * sizeof_SML_BigSoundModelTypeV3)
    with (zlen (hdr ++ concat (encode_table 0 p)))
    by (rewrite zlen_app, encode_table_length, Hh; unfold sizeof_SML_GlobalHeaderType,
          sizeof_SML_HeaderTypeV3, sizeof_SML_BigSoundModelTypeV3; lia).
  change sizeof_SML_BigSoundModelTypeV3 with (zlen ent).
  rewrite slice_middle. subst ent. cbn [mbind option_bind].
  change 12%nat with (2 + (2 + (4 + 4)))%nat. change 8%nat with (2 + (2 + 4))%nat.
  change (drop (A := Z) 4) with (drop (A := Z) (2 + 2)).
  rewrite <-!drop_drop, !drop_le_bytes.
  rewrite <-(app_nil_r (le_bytes 4 (me_type e))).
  rewrite !get_word_put;
    [done|done|unfold word_ok; change (8 * Z.of_nat 4) with 32; lia..|done|done].
Qed.
Lemma parse_big_model_encoded kp hdr tail p e q t parts :
  (∀ n, calloc_ok n = true) → zlen hdr = 424 →
  zlen (encode_data (p ++ e :: q)) < 2 ^ 31 → zlen (p ++ e :: q) < 2 ^ 32 →
  let m := hdr ++ concat (encode_table 0 (p ++ e :: q)) ++ encode_data (p ++ e :: q) ++ tail in
  parse_big_model kp (zlen (p ++ e :: q)) m
    (mkBigSm (me_major e) (me_minor e) (zlen (encode_data p)) (zlen (me_data e)) (me_type e))
    (t, parts) =
  (stage_type t [e], chk_ok (parts ++ (part_of <$> List.filter (keeps kp) [e]))).
Proof.
  intros Hal Hh Hb Hn m. pose proof (zlen_nonneg (p ++ e :: q)).
  assert (AllocateSMData (s32 (zlen (me_data e)))
    (sizeof_SML_GlobalHeaderType + sizeof_SML_HeaderTypeV3 +
     u32 (zlen (p ++ e :: q)) * sizeof_SML_BigSoundModelTypeV3 + zlen (encode_data p)) m
    (me_type e) = chk_ok (part_of e)) as Hadd.
  { rewrite u32_small by lia. unfold m. rewrite encode_data_app in Hb |- *.
    change (encode_data (e :: q)) with (me_data e ++ encode_data q) in *.
    rewrite !zlen_app in Hb. pose proof (zlen_nonneg (encode_data p)).
    pose proof (zlen_nonneg (encode_data q)).
    rewrite <-(app_assoc (encode_data p)), <-(app_assoc (me_data e)).
    rewrite (app_assoc (concat _)), (app_assoc hdr).
    replace (_ + zlen (encode_data p))
      with (zlen (hdr ++ concat (encode_table 0 (p ++ e :: q)) ++ encode_data p)).
    - apply AllocateSMData_at; [done|lia].
    - rewrite !zlen_app, encode_table_length, !zlen_app, Hh. unfold sizeof_SML_GlobalHeaderType,
        sizeof_SML_HeaderTypeV3, sizeof_SML_BigSoundModelTypeV3. lia. }
  unfold parse_big_model. cbn [big_size big_type big_offset versionMajor]. rewrite Hadd.
  cbn [chk_bind chk_ok]. unfold chk_ok. cbn [chk_bind]. unfold stage_type, keeps. cbn [foldl List.filter].
  destruct (decide (me_type e = ST_SM_ID_SVA_F_STAGE_GMM)) as [Hg|Hg].
  { rewrite Hg. done. }
  destruct (Z.eqb_spec (me_type e) SML_ID_SVA_S_STAGE_UBM) as [Hu|Hu]; simpl.
  { rewrite decide_False by tauto. by rewrite app_nil_r. }
  destruct (Z.eqb_spec (me_type e) SML_ID_SVA_F_STAGE_INTERNAL) as [Hi|Hi]; simpl.
  { rewrite decide_False by tauto. by rewrite app_nil_r. }
  rewrite decide_True by done. f_equal.
  assert (bool_decide (me_type e = ST_SM_ID_SVA_S_STAGE_USER ∨
                       me_type e = ST_SM_ID_SVA_S_STAGE_CTIUV) =
    ((me_type e =? ST_SM_ID_SVA_S_STAGE_USER) || (me_type e =? ST_SM_ID_SVA_S_STAGE_CTIUV)))
    as ->.
  { apply eq_bool_prop_intro. rewrite bool_decide_spec, orb_True, !Z.eqb_eq || idtac.
    destruct (Z.eqb_spec (me_type e) ST_SM_ID_SVA_S_STAGE_USER),
      (Z.eqb_spec (me_type e) ST_SM_ID_SVA_S_STAGE_CTIUV); simpl; rewrite bool_decide_spec; tauto. }
  destruct (_ || _); simpl; [|by destruct kp].
  destruct kp as [mode|]; simpl; [|done].
  destruct (has_bits mode _); simpl; [done|by rewrite app_nil_r].
Qed.

Lemma parse_big_models_encoded kp hdr tail : ∀ q p t parts,
  (∀ n, calloc_ok n = true) → zlen hdr = 424 → (∀ e, e ∈ q → entry_fits e) →
  zlen (encode_data (p ++ q)) < 2 ^ 31 → zlen (p ++ q) < 2 ^ 32 →
  parse_big_models kp (zlen (p ++ q))
    (hdr ++ concat (encode_table 0 (p ++ q)) ++ encode_data (p ++ q) ++ tail)
    (length q) (zlen p) (t, parts) =
  Some (stage_type t q, inr (parts ++ (part_of <$> List.filter (keeps kp) q))).
Proof.
  induction q as [|e q IH]; intros p t parts Hal Hh Hf Hb Hn; cbn [length parse_big_models].
  { by rewrite app_nil_r. }
  rewrite big_model_at_encoded; [|done|apply Hf; set_solver|done]. cbn [mbind option_bind].
  rewrite parse_big_model_encoded by done. cbn [chk_ok].
  unfold chk_ok. cbn [mbind option_bind].
  replace (zlen p + 1) with (zlen (p ++ [e])) by (rewrite zlen_app; done).
  rewrite (cons_middle e p q), app_assoc in Hb, Hn |- *.
  rewrite IH by (done || set_solver). f_equal. f_equal.
  rewrite <-app_assoc, <-fmap_app. do 2 f_equal. by rewrite <-List.filter_app.
Qed.

(** C11: A combined sound model is taken apart exactly: whatever parts it was built from,
    ParseSoundModel returns those the client's recognition mode keeps, in order and
    unchanged, with the type of the first stage; a multi-modal model ends with its mode
    word as one more part. *)
Theorem sound_model_round_trip sm t rest1 rest2 mode es :
  (∀ n, calloc_ok n = true) →
  zlen rest1 = 8 → zlen rest2 = 408 → zlen mode = 4 → (∀ e, e ∈ es → entry_fits e) →
  sm_data sm = encode_model rest1 rest2 mode es → sm_data_size sm = zlen (sm_data sm) →
  zlen (encode_data es) < 2 ^ 31 → zlen es < 2 ^ 32 →
  let kp := if decide (sm_type sm = PAL_SOUND_MODEL_TYPE_KEYPHRASE)
            then Some (sm_recognition_mode sm) else None in
  ParseSoundModel sm t =
  Some (0, stage_type t es,
        (part_of <$> List.filter (keeps kp) es) ++
        (if decide (stage_type t es = ST_MODULE_TYPE_MMA)
         then [mkSmPart ST_SM_ID_SVA_F_STAGE_GMM mode 4 true] else [])).
Proof.
  intros Hal H1 H2 Hm Hf Hd Hs Hb Hn kp. unfold ParseSoundModel. fold kp.
  rewrite Hs, Hd. unfold encode_model.
  set (hdr := le_bytes 4 _ ++ rest1 ++ _ ++ rest2).
  assert (zlen hdr = 424) as Hh.
  { unfold hdr. rewrite !zlen_app, !zlen_le_bytes, H1, H2. done. }
  assert (read_u32 0 (hdr ++ concat (encode_table 0 es) ++ encode_data es ++ mode) =
          Some SML_GLOBAL_HEADER_MAGIC_NUMBER) as ->.
  { unfold hdr. rewrite <-(app_assoc (le_bytes 4 _)).
    apply (read_u32_middle [] SML_GLOBAL_HEADER_MAGIC_NUMBER). done. }
  cbn [mbind option_bind]. rewrite decide_True by done.
  assert (read_u32 sizeof_SML_GlobalHeaderType
    (hdr ++ concat (encode_table 0 es) ++ encode_data es ++ mode) = Some (zlen es)) as ->.
  { unfold hdr. replace sizeof_SML_GlobalHeaderType
      with (zlen (le_bytes 4 SML_GLOBAL_HEADER_MAGIC_NUMBER ++ rest1))
      by (rewrite zlen_app, zlen_le_bytes, H1; done).
    rewrite <-!app_assoc, (app_assoc (le_bytes 4 _)). apply read_u32_middle.
    pose proof (zlen_nonneg es). unfold word_ok. change (8 * Z.of_nat 4) with 32. lia. }
  cbn [mbind option_bind].
  pose proof (parse_big_models_encoded kp hdr mode es [] t []) as Hp.
  cbn [app] in Hp. change (zlen []) with 0 in Hp.
  replace (Z.to_nat (zlen es)) with (length es) by (unfold zlen; lia).
  rewrite Hp by done. cbn [mbind option_bind]. case_decide; [|by rewrite app_nil_r].
  pose proof (AllocateSMData_at (hdr ++ concat (encode_table 0 es) ++ encode_data es) mode []
    ST_SM_ID_SVA_F_STAGE_GMM Hal) as Ha.
  rewrite Hm, app_nil_r, <-!app_assoc in Ha. change (s32 4) with 4 in Ha.
  rewrite !zlen_app in Ha. rewrite !zlen_app, Hm.
  replace (zlen hdr + (zlen (concat (encode_table 0 es)) + (zlen (encode_data es) + 4)) - 4)
    with (zlen hdr + (zlen (concat (encode_table 0 es)) + zlen (encode_data es))) by lia.
  by rewrite Ha.
Qed.
End models.

(** ** At concrete inputs *)

Module SvaCodecDemo.
Import SvaDemo BoundedCopy.

Definition demo_params : list OpaqueParam :=
  [PHistory 2 1750 500; PPerfMode 1 1; PMmaThreshold [1; 2; 3; 4; 5]].
Definition demo_opaque : pal_st_recognition_config :=
  mkRecCfg 0 0 false 0 [] 49 0 (demo_params ≫= encode_param).
Definition demo_registered : SVAInterface :=
  set_sm_info_map_ {[ 1%positive := Some sm_info_init ]}
    (sva_construct demo_uninit ST_MODULE_TYPE_GMM).

(** The durations reach the stream's buffering, the block its levels. *)
Lemma opaque_data_round_trip_witness :
  ∃ r w', apply_params 1 demo_params (mkConfig (mkOut None 0) 0 0)
            (update_info 1 (set_rec_config (Some demo_opaque)) demo_registered) = Some (r, w') ∧
          ParseRecognitionConfig 1 (Some demo_opaque) demo_registered =
            Some (config_exit 1 r w') ∧
          buf_config <$> registered 1 (config_exit 1 r w').2 = Some (mkBufCfg 1750 500).
Proof.
  destruct (opaque_data_round_trip 1 demo_params demo_opaque demo_registered)
    as (r&w'&Ha&Hp).
  - done.
  - eexists. vm_compute. reflexivity.
  - intros p [-> |[-> |[-> |[]%not_elem_of_nil]%elem_of_cons]%elem_of_cons]%elem_of_cons;
      (split; [vm_compute; by repeat split|done]).
  - done.
  - vm_compute. reflexivity.
  - by vm_compute.
  - exists r, w'. split; [exact Ha|]. split; [exact Hp|].
    vm_compute in Ha. injection Ha as <- <-. vm_compute. reflexivity.
Defined.

(** A first stage of version 1, a part of the library's own and a keyword verifier. *)
Definition demo_entries : list ModelEntry :=
  [mkEntry 3 0 ST_SM_ID_SVA_F_STAGE_GMM [10; 11; 12]; mkEntry 0 0 SML_ID_SVA_S_STAGE_UBM [13];
   mkEntry 0 0 ST_SM_ID_SVA_S_STAGE_KWD [14; 15]].
Definition demo_combined : pal_st_sound_model :=
  let b := encode_model (replicate 8 0) (replicate 408 0) [1; 0; 0; 0] demo_entries in
  mkSoundModel PAL_SOUND_MODEL_TYPE_KEYPHRASE 0 (zlen b) 0 1 1 b.

Lemma sound_model_round_trip_witness :
  ParseSoundModel demo_combined 0 =
    Some (0, 3, [mkSmPart ST_SM_ID_SVA_F_STAGE_GMM [10; 11; 12] 3 true;
                 mkSmPart ST_SM_ID_SVA_S_STAGE_KWD [14; 15] 2 true]).
Proof.
  apply (sound_model_round_trip demo_combined 0 (replicate 8 0) (replicate 408 0) [1; 0; 0; 0]
    demo_entries).
  - done.
  - done.
  - vm_compute. reflexivity.
  - done.
  - intros e [-> |[-> |[-> |[]%not_elem_of_nil]%elem_of_cons]%elem_of_cons]%elem_of_cons;
      vm_compute; by repeat split.
  - done.
  - done.
  - by vm_compute.
  - by vm_compute.
Defined.
End SvaCodecDemo.
