(* ===== verification/SvaModels.v ===== *)
(** * Voice UI interface: keyword models and their confidence levels

    plugins/vui_interface/utils/src/VUIInterfaceUtils.cpp ([SoundModelInfo]: the names of
    a model's keywords and users, the levels the engine is given for them) and the part of
    sva_intf/src/SVAInterface.cpp that merges the models of several streams into the one
    the engine runs, keeps its levels, and answers the engine's requests for payloads.

    The sound model library is the environment; its functions fill in as many names as the
    model has.  The library is taken as loaded.  Payloads handed out are their bytes. *)

From S2P Require Import Prelude PalDefs SoundTriggerState.
From S2P Require Import SvaState.
From S2P Require Import SvaConfig.

Local Open Scope st_scope.

Section models.
Context `{!SvaEnv, !Osal}.

(** ** SoundModelInfo *)

Definition AllocArrayPtrs (n : Z) (elem_len : nat) : option (list string) :=
  if calloc_ok (8 * n) && ((n =? 0) || calloc_ok (Z.of_nat elem_len))
  then Some (replicate (Z.to_nat n) EmptyString) else None.

(** [memcpy] of [n] bytes from a pointer. *)
Definition copy_block (src : option (list Z)) (n : Z) : option (list Z) :=
  if decide (n = 0) then Some [] else b ← src; slice 0 n b.

(** A fresh array of [n] strings with the contents of another. *)
Definition copy_strings (src : option (list string)) (n : Z) (elem_len : nat)
  : option (option (list string)) :=
  match AllocArrayPtrs n elem_len with
  | None => Some None
  | Some _ => if decide (n = 0) then Some (Some [])
              else l ← src; if decide (zlen l = n) then Some (Some l) else None
  end.

(** [operator=] on distinct objects. *)
Definition smi_assign (d smi : SoundModelInfo) : option SoundModelInfo :=
  let n := cf_levels_size_ smi in
  let d := set_sm_size_ (sm_size_ smi) d in
  if negb (calloc_ok (sm_size_ smi)) then Some (set_sm_data_ None d) else
  data ← copy_block (sm_data_ smi) (sm_size_ smi);
  if negb (calloc_ok (2 * n))
  then Some (set_cf_levels_size_ 0 (set_sm_data_ None (set_cf_levels_ None d))) else
  levels ← copy_block (cf_levels_ smi) n;
  det ← copy_block (det_cf_levels_ smi) n;
  kws ← copy_strings (keyphrases_ smi) (num_keyphrases_ smi) MAX_STRING_LEN;
  us ← copy_strings (users_ smi) (num_users_ smi) MAX_STRING_LEN;
  names ← copy_strings (cf_levels_kw_users_ smi) n MAX_KW_USERS_NAME_LEN;
  Some (mkSmi (Some data) (sm_size_ smi) (num_keyphrases_ smi) (num_users_ smi) kws us names
          (Some levels) (Some det) n).

(** The common text of SetKeyPhrases and SetUsers. *)
Definition fetch_names (get : list Z → Z → Z * Z * list string) (model : list Z) (num : Z)
  : option (Z * option (list string)) :=
  match AllocArrayPtrs num MAX_STRING_LEN with
  | None => Some (- ENOMEM, None)
  | Some blank =>
      let '(ret, n, names) := get model num in
      if negb (ret =? 0) then Some (- EINVAL, Some blank)
      else if decide (zlen names = num) then
        Some (if decide (n = num) then 0 else - EINVAL, Some names)
      else None
  end.

Definition SetKeyPhrases (model : list Z) (num : Z) (i : SoundModelInfo)
  : option (Z * SoundModelInfo) :=
  let i := set_num_keyphrases_ num i in
  if decide (num = 0) then Some (0, i) else
  '(status, names) ← fetch_names GetKeywordPhrases model num;
  Some (status, set_keyphrases_ names i).

Definition SetUsers (model : list Z) (num : Z) (i : SoundModelInfo)
  : option (Z * SoundModelInfo) :=
  let i := set_num_users_ num i in
  if decide (num = 0) then Some (0, i) else
  '(status, names) ← fetch_names GetUserNames model num;
  Some (status, set_users_ names i).

(** [strlcat] to a string below its array's size. *)
Definition strlcat (s t : string) (n : nat) : string := strlcpy (s +:+ t) n.

(** The names written so far, the next user slot and the count of users [k]. *)
Record NameLoop := mkNames { nl_names : list string; ukw_idx : nat; nl_k : Z }.

(** [for (j = 0; j < num_users_; j++)] for the keyword [i], over the users left. *)
Fixpoint name_users (i : nat) (kw : string) (num_kw : nat) (per_kw : Z)
    (flags : option (list (list Z))) (j : nat) (users : list string) (l : NameLoop)
  : option NameLoop :=
  match users with
  | [] => Some l
  | u :: users =>
      if per_kw <=? nl_k l then Some l else
      fs ← flags;
      row ← fs !! j;
      flag ← row !! i;
      if decide (flag = 0) then name_users i kw num_kw per_kw flags (S j) users l
      else
        let slot := (num_kw + ukw_idx l)%nat in
        if decide (slot < length (nl_names l))%nat then
          name_users i kw num_kw per_kw flags (S j) users
            (mkNames (<[slot := strlcat (strlcpy u MAX_KW_USERS_NAME_LEN) kw
                                  MAX_KW_USERS_NAME_LEN]> (nl_names l))
               (S (ukw_idx l)) (nl_k l + 1))
        else None
  end.

Fixpoint name_keywords (i : nat) (kws : list string) (num_kw : nat)
    (num_users_per_kw : option (list Z)) (flags : option (list (list Z)))
    (users : list string) (l : NameLoop) : option NameLoop :=
  match kws with
  | [] => Some l
  | kw :: kws =>
      if decide (i < length (nl_names l))%nat then
        let l := mkNames (<[i := strlcpy kw MAX_KW_USERS_NAME_LEN]> (nl_names l))
                   (ukw_idx l) (nl_k l) in
        l ← match num_users_per_kw, users with
            | None, _ | _, [] => Some l
            | Some per, _ =>
                n ← per !! i; name_users i kw num_kw n flags 0 users l
            end;
        name_keywords (S i) kws num_kw num_users_per_kw flags users l
      else None
  end.

Definition SetConfLevels (num_user_kw_pairs : Z) (num_users_per_kw : option (list Z))
    (user_kw_pair_flags : option (list (list Z))) (i : SoundModelInfo)
  : option (Z * SoundModelInfo) :=
  let n := u32 (num_keyphrases_ i + num_user_kw_pairs) in
  let i := set_cf_levels_size_ n i in
  if decide (n = 0) then Some (0, i) else
  match AllocArrayPtrs n MAX_KW_USERS_NAME_LEN with
  | None => Some (- ENOMEM, set_cf_levels_kw_users_ None i)
  | Some blank =>
      let i := set_cf_levels_kw_users_ (Some blank) i in
      if negb (calloc_ok (2 * n)) then Some (- ENOMEM, set_cf_levels_ None i) else
      let i := set_det_cf_levels_ (Some (replicate (Z.to_nat n) 0))
                 (set_cf_levels_ (Some (replicate (Z.to_nat n) MAX_CONF_LEVEL_VALUE)) i) in
      kws ← (if decide (num_keyphrases_ i = 0) then Some [] else keyphrases_ i);
      us ← (if decide (num_users_ i = 0) then Some [] else users_ i);
      l ← name_keywords 0 kws (Z.to_nat (num_keyphrases_ i)) num_users_per_kw
            user_kw_pair_flags us (mkNames blank 0 0);
      Some (0, set_cf_levels_kw_users_ (Some (nl_names l)) i)
  end.

Definition SetModelData (data : list Z) (i : SoundModelInfo) : SoundModelInfo :=
  let n := zlen data in
  let i := set_sm_size_ n (set_sm_data_ None i) in
  if decide (n = 0) then i
  else if calloc_ok n then set_sm_data_ (Some data) i else i.

Definition UpdateConfLevel (index level : Z) (i : SoundModelInfo) : option SoundModelInfo :=
  if index <? cf_levels_size_ i then
    l ← cf_levels_ i; Some (set_cf_levels_ (Some (<[Z.to_nat index := u8 level]> l)) i)
  else Some i.

Definition UpdateDetConfLevel (index level : Z) (i : SoundModelInfo) : option SoundModelInfo :=
  if index <? cf_levels_size_ i then
    l ← det_cf_levels_ i;
    Some (set_det_cf_levels_ (Some (<[Z.to_nat index := u8 level]> l)) i)
  else Some i.

Definition ResetDetConfLevels (i : SoundModelInfo) : option SoundModelInfo :=
  if decide (cf_levels_size_ i = 0) then Some i else
  l ← det_cf_levels_ i; Some (set_det_cf_levels_ (Some (replicate (length l) 0)) i).

(** Its callers ignore the status. *)
Definition UpdateConfLevelArray (conf_levels : option (list Z)) (cfl_size : Z)
    (i : SoundModelInfo) : option (Z * SoundModelInfo) :=
  match conf_levels with
  | None => Some (- EINVAL, i)
  | Some c =>
      if cf_levels_size_ i <? cfl_size then Some (- EINVAL, i) else
      match cf_levels_ i with
      | None => Some (0, i)
      | Some l => src ← slice 0 cfl_size c; l ← splice 0 src l;
                  Some (0, set_cf_levels_ (Some l) i)
      end
  end.

(** ** Access to streams *)

(** [GetSoundModelInfo(s)] of a stream. *)
Definition GetSoundModelInfo (s : positive) (w : SVAInterface) : option SoundModelInfo :=
  info ← registered s w; si_info info.

Definition put_sound_model_info (s : positive) (i : SoundModelInfo) : SVAInterface → SVAInterface :=
  update_info s (set_si_info (Some i)).

(** The streams of a map other than [s] whose model has data, with the test of the
    pointer that only DeleteSoundModel makes. *)
Definition model_data_of (checked : bool) (o : option sound_model_info) : option bool :=
  match o ≫= si_info with
  | Some i => Some (bool_decide (is_Some (sm_data_ i)))
  | None => if checked then Some false else None
  end.

Fixpoint other_models (checked : bool) (s : positive)
    (l : list (positive * option sound_model_info)) : option (list positive) :=
  match l with
  | [] => Some []
  | (x, o) :: l =>
      rest ← (if decide (x = s) then Some false else model_data_of checked o);
      r ← other_models checked s l;
      Some (if rest : bool then x :: r else r)
  end.

(** ** Levels of the engine's model *)

(** [for (j ...)] over the engine's names from [j]: [strcmp] and the update. *)
Fixpoint level_of_name (name : string) (v : Z) (j : Z) (names : list string)
    (e : SoundModelInfo) : option SoundModelInfo :=
  match names with
  | [] => Some e
  | n :: names =>
      e ← (if decide (n = name) then UpdateConfLevel j v e else Some e);
      level_of_name name v (j + 1) names e
  end.

Fixpoint merge_levels (set : bool) (src : list (string * Z)) (enames : list string)
    (e : SoundModelInfo) : option SoundModelInfo :=
  match src with
  | [] => Some e
  | (name, v) :: src =>
      e ← level_of_name name (if set then v else MAX_CONF_LEVEL_VALUE) 0 enames e;
      merge_levels set src enames e
  end.

Fixpoint reset_levels (n : nat) (i : Z) (e : SoundModelInfo) : option SoundModelInfo :=
  match n with
  | O => Some e
  | S n => e ← UpdateConfLevel i MAX_CONF_LEVEL_VALUE e; reset_levels n (i + 1) e
  end.

(** The arrays behind [cf_levels_size_], as the loops read them. *)
Definition names_of (i : SoundModelInfo) : option (list string) :=
  if decide (cf_levels_size_ i = 0) then Some [] else
  l ← cf_levels_kw_users_ i; if decide (zlen l = cf_levels_size_ i) then Some l else None.
Definition levels_of (i : SoundModelInfo) : option (list Z) :=
  if decide (cf_levels_size_ i = 0) then Some [] else
  l ← cf_levels_ i; if decide (zlen l = cf_levels_size_ i) then Some l else None.

Definition UpdateMergeConfLevelsPayload (src : option SoundModelInfo) (set : bool)
    (w : SVAInterface) : option (Z * SVAInterface) :=
  match src with
  | None => Some (- EINVAL, w)
  | Some src =>
      if negb (sm_merged_ w) then
        e ← smi_assign (sound_model_info_ w) src;
        e ← (if set then Some e else reset_levels (Z.to_nat (cf_levels_size_ e)) 0 e);
        Some (0, set_sound_model_info_ e w)
      else if cf_levels_size_ (sound_model_info_ w) <? cf_levels_size_ src
      then Some (- EINVAL, w)
      else
        names ← names_of src;
        levels ← levels_of src;
        enames ← names_of (sound_model_info_ w);
        e ← merge_levels set (zip names levels) enames (sound_model_info_ w);
        Some (0, set_sound_model_info_ e w)
  end.

Fixpoint update_active (l : list (positive * option sound_model_info)) (w : SVAInterface)
  : option (Z * SVAInterface) :=
  match l with
  | [] => Some (0, w)
  | (x, o) :: l =>
      info ← o;
      if si_state info then
        '(status, w) ← UpdateMergeConfLevelsPayload (GetSoundModelInfo x w) true w;
        if decide (status = 0) then update_active l w else Some (status, w)
      else update_active l w
  end.

Definition UpdateMergeConfLevelsWithActiveStreams (w : SVAInterface)
  : option (Z * SVAInterface) := update_active (map_entries (sm_info_map_ w)) w.

(** ** Adding and deleting models *)

Definition QuerySoundModel (sm_info : SoundModelInfo) (data : list Z)
  : option (Z * SoundModelInfo) :=
  let '(ret, h) := GetSoundModelHeader data in
  if negb (ret =? 0) then Some (- EINVAL, sm_info)
  else if decide (numKeywords h = 0) then Some (- EINVAL, sm_info)
  else if numActiveUserKeywordPairs h <? numUsers h then Some (0, sm_info)
  else if decide (numUsers h ≠ 0 ∧ userKeywordPairFlags h = None) then Some (0, sm_info)
  else
    '(status, i) ← SetKeyPhrases data (numKeywords h) sm_info;
    if decide (status ≠ 0) then Some (status, i) else
    '(status, i) ← SetUsers data (numUsers h) i;
    if decide (status ≠ 0) then Some (status, i) else
    '(status, i) ← SetConfLevels (numActiveUserKeywordPairs h) (numUsersSetPerKw h)
                     (userKeywordPairFlags h) i;
    if decide (status ≠ 0) then Some (status, i) else
    Some (if decide (ReleaseSoundModelHeader h = 0) then 0 else - EINVAL, i).

Definition MergeSoundModels (in_models : list (list Z)) : Z * list Z :=
  let '(ret, size) := GetMergedModelSize in_models in
  if negb (ret =? 0) || (size =? 0) then (- EINVAL, [])
  else if negb (calloc_ok size) then (- ENOMEM, [])
  else
    let '(ret, out) := MergeModels in_models size in
    if negb (ret =? 0) || (zlen out =? 0) then (- EINVAL, []) else (0, out).

(** The end of both operations: the engine takes over the new model [out] and the levels
    of the active streams. *)
Definition install_model (smaller : bool) (out : list Z) (w : SVAInterface)
  : option (Z * SVAInterface) :=
  '(status, sm_info) ← QuerySoundModel (SetModelData out smi_init) out;
  if decide (status ≠ 0) then Some (status, w) else
  let size := sm_size_ (sound_model_info_ w) in
  if (if smaller then size <? zlen out else zlen out <? size)
  then Some (- EINVAL, w) else
  e ← smi_assign (sound_model_info_ w) sm_info;
  UpdateMergeConfLevelsWithActiveStreams (set_sm_merged_ true (set_sound_model_info_ e w)).

Definition AddSoundModel (s : positive) (data : list Z) (w : SVAInterface)
  : option (Z * SVAInterface) :=
  i ← GetSoundModelInfo s w;
  if decide (is_Some (sm_data_ i)) then Some (0, w) else
  '(status, i) ← QuerySoundModel i data;
  if decide (status ≠ 0) then Some (status, put_sound_model_info s i w) else
  let w := put_sound_model_info s (SetModelData data i) w in
  others ← other_models false s (map_entries (sm_info_map_ w));
  if decide (others = []) then
    e ← smi_assign (sound_model_info_ w) (SetModelData data i);
    Some (0, set_sm_merged_ false (set_sound_model_info_ e w))
  else
    let current := sm_data_ (sound_model_info_ w) in
    if decide (current = None ∧ (zlen others = 1 ∨ sm_merged_ w = false))
    then Some (- EINVAL, w) else
    match AllocArrayPtrs 2 16 with
    | None => Some (- ENOMEM, w)
    | Some _ =>
        let '(status, out) := MergeSoundModels [default [] current; data] in
        if decide (status ≠ 0) then Some (status, w) else install_model false out w
    end.

(** [for (i < num_keyphrases)]: [merge_model] is the model so far. *)
Fixpoint DeleteFromMergedModel (keyphrases : list string) (in_size : Z)
    (merge_model out : list Z) : Z * list Z :=
  match keyphrases with
  | [] => (0, out)
  | kw :: keyphrases =>
      let '(ret, sz) := GetSizeAfterDeleting merge_model kw in
      if negb (ret =? 0) || (in_size <=? sz) then (- EINVAL, [])
      else if negb (calloc_ok sz) then (- ENOMEM, [])
      else
        let '(ret, out) := DeleteFromModel merge_model kw sz in
        if negb (ret =? 0) || negb (zlen out =? sz) then (- EINVAL, [])
        else DeleteFromMergedModel keyphrases in_size out out
  end.

(** The levels as the DSP is given them, with the enable flag of each. *)
Definition write_wakeup (levels : list Z) (k : voice_wakeup) : option voice_wakeup :=
  c ← splice 0 levels (wk_confidence_levels k);
  en ← splice 0 ((λ l, if decide (l = 100) then 0 else 1) <$> levels)
         (keyword_user_enables k);
  Some (mkWakeup (wk_mode k) (custom_payload_size k) (num_active_models k) (wk_reserved k)
          c en).

Definition set_num_active (n : Z) (k : voice_wakeup) : voice_wakeup :=
  mkWakeup (wk_mode k) (custom_payload_size k) (u8 n) (wk_reserved k)
    (wk_confidence_levels k) (keyword_user_enables k).

Definition DeleteSoundModel (s : positive) (w : SVAInterface) : option (Z * SVAInterface) :=
  i ← GetSoundModelInfo s w;
  if decide (sm_data_ i = None) then Some (0, w) else
  others ← other_models true s (map_entries (sm_info_map_ w));
  match others with
  | [] => Some (0, w)
  | [rem_st] =>
      r ← GetSoundModelInfo rem_st w;
      e ← smi_assign (sound_model_info_ w) r;
      let w := set_sound_model_info_ e w in
      let k := set_num_active (cf_levels_size_ e) (wakeup_config_ w) in
      k ← match cf_levels_ e with
          | Some l => l ← slice 0 (cf_levels_size_ e) l; write_wakeup l k
          | None => Some k
          end;
      Some (0, set_sm_merged_ false (set_wakeup_config_ k w))
  | _ =>
      match sm_data_ (sound_model_info_ w) with
      | None => Some (0, w)
      | Some data =>
          if negb (sm_merged_ w) then Some (0, w) else
          kws ← (if decide (num_keyphrases_ i = 0) then Some [] else keyphrases_ i);
          let '(status, out) :=
            DeleteFromMergedModel kws (sm_size_ (sound_model_info_ w)) data [] in
          if decide (status ≠ 0) then Some (status, w) else install_model true out w
      end
  end.

Definition UpdateEngineModel (s : positive) (data : list Z) (add : bool) (w : SVAInterface)
  : option (Z * SVAInterface) :=
  if add then AddSoundModel s data w else DeleteSoundModel s w.

(** ** The state of a model *)

Definition SetModelState (s : positive) (state : bool) (w : SVAInterface)
  : option (Z * SVAInterface) :=
  match sm_info_map_ w !! s with
  | None => Some (0, w)
  | Some o =>
      info ← o;
      if decide (si_state info = state) then Some (0, w) else
      let w := update_info s (set_si_state state) w in
      match si_info info with
      | None => Some (0, w)
      | Some i =>
          '(_, i) ← UpdateConfLevelArray (wakeup_config info) (wakeup_config_size info) i;
          let w := put_sound_model_info s i w in
          '(status, w) ← UpdateMergeConfLevelsPayload (Some i) state w;
          if decide (status ≠ 0) then Some (status, w) else
          let k := wakeup_config_ w in
          let '(mode, n, src) :=
            if decide (size (sm_info_map_ w) = 1%nat)
            then (recognition_mode info, wakeup_config_size info, wakeup_config info)
            else (Z.lor (wk_mode k) (recognition_mode info),
                  cf_levels_size_ (sound_model_info_ w), cf_levels_ (sound_model_info_ w)) in
          let k := mkWakeup (mode mod 2 ^ 16) 0 (u8 n) 0 (wk_confidence_levels k)
                     (keyword_user_enables k) in
          levels ← copy_block src (u8 n);
          k ← write_wakeup levels k;
          Some (0, set_wakeup_config_ k w)
      end
  end.

(** ** Payloads for the engine *)

Definition le16 := le_bytes 2.
Definition le32 := le_bytes 4.

(** The status, and the data and size handed out ([None]: left alone). *)
Definition Payload : Type := Z * option (list Z).

Definition GetWakeUpPayload (s : positive) (w : SVAInterface) : option (Payload * SVAInterface) :=
  match sm_info_map_ w !! s with
  | None => Some ((- EINVAL, None), w)
  | Some o =>
      built ←
        (if decide (module_type_ w = ST_MODULE_TYPE_GMM) then
           let k := wakeup_config_ w in
           l ← slice 0 (num_active_models k) (wk_confidence_levels k);
           en ← slice 0 (num_active_models k) (keyword_user_enables k);
           Some (Some (le16 (wk_mode k) ++ le16 (custom_payload_size k) ++
                       [num_active_models k; wk_reserved k] ++ l ++ en))
         else if IS_MODULE_TYPE_PDK (module_type_ w) then
           info ← o;
           let n := wakeup_config_size info in
           levels ← (if decide (n ≤ MAX_KEYWORD_SUPPORTED)
                     then if si_state info then copy_block (wakeup_config info) n
                          else Some (replicate (Z.to_nat n) 100)
                     else None);
           Some (Some (le16 (recognition_mode info) ++ le16 0 ++ le32 (model_id info) ++
                       le32 n ++ (levels ≫= le32)))
         else if decide (module_type_ w = ST_MODULE_TYPE_MMA) then
           info ← o;
           b ← copy_block (wakeup_config info) (wakeup_config_size info);
           Some (Some (ar_mem_cpy (wakeup_config_size info) b))
         else Some None);
      match built with
      | None => Some ((0, None), w)
      | Some b =>
          if calloc_ok (zlen b) then Some ((0, Some b), set_wakeup_payload_ (Some b) w)
          else Some ((- ENOMEM, None), set_wakeup_payload_ None w)
      end
  end.

(** The largest durations any active stream asks for. *)
Fixpoint max_buffering (l : list (positive * option sound_model_info)) (c : buffer_config)
  : option buffer_config :=
  match l with
  | [] => Some c
  | (_, o) :: l =>
      info ← o;
      let b := buf_config info in
      max_buffering l
        (if si_state info then
           mkBufCfg
             (if hist_buffer_duration c <? hist_buffer_duration b
              then hist_buffer_duration b else hist_buffer_duration c)
             (if pre_roll_duration c <? pre_roll_duration b
              then pre_roll_duration b else pre_roll_duration c)
         else c)
  end.

Definition GetBufferingPayload (s : positive) (w : SVAInterface)
  : option (Payload * SVAInterface) :=
  let words c := le32 (hist_buffer_duration c) ++ le32 (pre_roll_duration c) in
  if decide (module_type_ w = ST_MODULE_TYPE_GMM ∨ module_type_ w = ST_MODULE_TYPE_HIST_CAP)
  then
    c ← max_buffering (map_entries (sm_info_map_ w)) (mkBufCfg 0 0);
    Some ((0, Some (words c)), set_buffering_config_ (0, c) w)
  else if IS_MODULE_TYPE_PDK (module_type_ w) then
    match registered s w with
    | Some info =>
        Some ((0, Some (le32 (model_id info) ++ words (buf_config info))),
              set_buffering_config_ (model_id info, buf_config info) w)
    | None => Some ((- EINVAL, None), set_buffering_config_ (0, mkBufCfg 0 0) w)
    end
  else if decide (module_type_ w = ST_MODULE_TYPE_MMA) then
    match registered s w with
    | Some info =>
        Some ((0, Some (le32 (hist_buffer_duration (buf_config info)))),
              set_mma_history_size (hist_buffer_duration (buf_config info)) w)
    | None => Some ((- EINVAL, None), set_mma_history_size 0 w)
    end
  else Some ((0, None), w).

(** The first part of the first stage, behind a header of the engine's. *)
Definition load_payload (header : list Z → list Z) (fixed : Z) (s : positive)
    (w : SVAInterface) : option Payload :=
  match registered s w with
  | None => Some (- EINVAL, None)
  | Some info =>
      match List.find (λ d, smd_type d =? ST_SM_ID_SVA_F_STAGE_GMM) (model_list info) with
      | None => Some (0, None)
      | Some d =>
          if calloc_ok (fixed + smd_size d) then
            b ← slice 0 (smd_size d) (smd_data d);
            Some (0, Some (header (le32 (smd_size d)) ++ ar_mem_cpy (smd_size d) b))
          else Some (- ENOMEM, None)
      end
  end.

(** [pdk_header] and [mma_header] lay out the engine's structures around the size. *)
Definition GetSoundModelLoadPayload (pdk_header : Z → list Z → list Z)
    (mma_header : list Z → list Z) (s : positive) (w : SVAInterface) : option Payload :=
  if decide (module_type_ w = ST_MODULE_TYPE_GMM) then
    Some (0, sm_data_ (sound_model_info_ w))
  else if IS_MODULE_TYPE_PDK (module_type_ w) then
    load_payload (pdk_header (from_option model_id 0 (registered s w)))
      sizeof_register_multi_sound_model s w
  else if decide (module_type_ w = ST_MODULE_TYPE_MMA) then
    load_payload mma_header sizeof_mma_ml_model_config s w
  else Some (0, None).

Definition GetSoundModelUnloadPayload (s : option positive) (w : SVAInterface)
  : Payload * SVAInterface :=
  if negb (IS_MODULE_TYPE_PDK (module_type_ w)) then ((0, None), w) else
  match s ≫= λ s, registered s w with
  | Some info => ((0, Some (le32 (model_id info))), set_deregister_model_id (model_id info) w)
  | None => ((- EINVAL, None), w)
  end.

Definition GetEngineResetPayload (s : positive) (w : SVAInterface) : Payload * SVAInterface :=
  let w := set_per_model_reset_id 0 w in
  if negb (IS_MODULE_TYPE_PDK (module_type_ w)) then ((0, Some []), w) else
  match registered s w with
  | Some info => ((0, Some (le32 (model_id info))), set_per_model_reset_id (model_id info) w)
  | None => ((- EINVAL, None), w)
  end.

Definition GetMMAModeBitPayload (w : SVAInterface) : Payload :=
  if decide (mma_mode_bit_config_ w = 0) then (- ENOENT, None)
  else (0, Some (le32 (mma_mode_bit_config_ w))).

Definition GetTIUVThresholdConfig (w : SVAInterface) : Payload :=
  (0, Some (tiuv_threshold_config_ w)).

Definition SetBufferingModeConfig (size : Z) (w : SVAInterface) : Z * SVAInterface :=
  let m := hist_cap_mode_config_ w in
  if decide (data_flow_mode m = 0) then (0, w)
  else if decide (size = 0) then (- EINVAL, w)
  else (0, set_hist_cap_mode_config_ (mkHistMode (data_flow_mode m) size) w).

(** ** Streams *)

Definition sizeof_sound_model_info : Z := 240.

(** The mode word of a model's parts: the last first-stage part of four bytes. *)
Fixpoint mode_word (parts : list sound_model_data) (v : option Z) : option (option Z) :=
  match parts with
  | [] => Some v
  | d :: parts =>
      if decide (smd_type d = ST_SM_ID_SVA_F_STAGE_GMM ∧ smd_size d = 4)
      then z ← read_u32 0 (smd_data d); mode_word parts (Some z)
      else mode_word parts v
  end.

Definition RegisterModel (s : positive) (model : pal_st_sound_model)
    (parts : list sound_model_data) (w : SVAInterface) : option (Z * SVAInterface) :=
  let fresh := bool_decide (sm_info_map_ w !! s = None) in
  if fresh && negb (calloc_ok sizeof_sound_model_info)
  then Some (- ENOMEM, set_sm_info_map_ (<[s := None]> (sm_info_map_ w)) w) else
  info ← (if fresh then Some sm_info_init else registered s w);
  let info := if decide (module_type_ w = ST_MODULE_TYPE_GMM)
              then set_si_info (Some smi_init) info else info in
  let info := set_si_type (sm_type model)
                (set_si_model (Some model) (set_model_list parts info)) in
  let w := set_sm_info_map_ (<[s := Some info]> (sm_info_map_ w)) w in
  if decide (module_type_ w = ST_MODULE_TYPE_MMA) then
    v ← mode_word parts None;
    Some (0, from_option (λ z, set_mma_mode_bit_config_ z w) w v)
  else if decide (module_type_ w = ST_MODULE_TYPE_HIST_CAP) then
    v ← mode_word parts None;
    Some (0, from_option (λ z, set_hist_cap_mode_config_
               (mkHistMode z (batch_size_ms (hist_cap_mode_config_ w))) w) w v)
  else Some (0, w).

Definition DeregisterModel (s : positive) (w : SVAInterface) : SVAInterface :=
  let w := match registered s w with
           | Some _ => set_sm_info_map_ (delete s (sm_info_map_ w)) w
           | None => w end in
  set_origin_hist_buf_duration_ (delete s (origin_hist_buf_duration_ w)) w.

Definition SetModelId (s : positive) (id : Z) : SVAInterface → SVAInterface :=
  update_info s (set_model_id id).
Definition SetRecognitionMode (s : positive) (mode : Z) : SVAInterface → SVAInterface :=
  update_info s (set_recognition_mode mode).

End models.
