(* ===== verification/SvaModelsFacts.v ===== *)
(** * Voice UI interface: facts about models and levels

    Every operation on models keeps the arrays of the interface as long as their counts
    say; within the limits of the engine's structures the operations are defined; and in a
    merged model the engine's level of a name is the level of the active stream that has
    it. *)

From S2P Require Import Prelude PalDefs SoundTriggerState.
From S2P Require Import SvaState.
From S2P Require Import SvaConfig.
From S2P Require Import SvaConfigFacts.
From S2P Require Import SvaCodecFacts.
From S2P Require Import SvaModels.

Definition byte_ok (z : Z) : Prop := 0 ≤ z < 256.

Lemma u8_byte z : byte_ok (u8 z).
Proof. apply Z.mod_pos_bound. done. Qed.

Lemma Forall_insert_byte (l : list Z) i z : Forall byte_ok l → Forall byte_ok (<[i:=u8 z]> l).
Proof. intros. apply Forall_insert; [done|apply u8_byte]. Qed.

(** ** Well-formed objects *)

(** An array and its count. *)
Definition array_ok {A} (o : option (list A)) (n : Z) : Prop :=
  n = 0 ∨ ∃ l, o = Some l ∧ zlen l = n.
Definition bytes_ok (o : option (list Z)) : Prop := ∀ l, o = Some l → Forall byte_ok l.

Record smi_ok (i : SoundModelInfo) : Prop := {
  ok_size : 0 ≤ cf_levels_size_ i;
  ok_names : array_ok (cf_levels_kw_users_ i) (cf_levels_size_ i);
  ok_levels : array_ok (cf_levels_ i) (cf_levels_size_ i) ∧ bytes_ok (cf_levels_ i);
  ok_det : array_ok (det_cf_levels_ i) (cf_levels_size_ i) ∧ bytes_ok (det_cf_levels_ i);
  ok_kws : array_ok (keyphrases_ i) (num_keyphrases_ i);
  ok_users : array_ok (users_ i) (num_users_ i);
  ok_data : from_option zlen 0 (sm_data_ i) = sm_size_ i;
}.

Record info_ok (mt : Z) (info : sound_model_info) : Prop := {
  ok_info : ∀ i, si_info info = Some i → smi_ok i;
  ok_gmm : mt = ST_MODULE_TYPE_GMM → is_Some (si_info info);
  ok_wakeup : array_ok (wakeup_config info) (wakeup_config_size info) ∧
              bytes_ok (wakeup_config info) ∧ 0 ≤ wakeup_config_size info;
  ok_ftrt : 0 ≤ ftrt_data_size_ info < 2 ^ 32 ∧
            ∀ d, ftrt_data_ info = Some d → zlen d = ftrt_data_size_ info;
  ok_stats : zlen (sec_kw_det_info info) = sizeof_st_det_engine_stats ∧
             zlen (sec_uv_det_info info) = sizeof_st_det_engine_stats;
}.

(** A detection event kept for a stream: its arrays have their sizes. *)
Definition event_ok `{!SvaEnv} (e : detection_event) : Prop :=
  match det_info e with
  | GmmInfo i => length (confidence_levels i) = 20%nat
  | PdkInfo i => zlen (detected_model_stats i) = MAX_MODELS_SUPPORTED
  | MmaInfo b => zlen b = sizeof_mma_detection_event
  end.

Record sva_ok `{!SvaEnv} (w : SVAInterface) : Prop := {
  ok_engine : smi_ok (sound_model_info_ w);
  ok_streams : ∀ s o, sm_info_map_ w !! s = Some o →
               ∃ info, o = Some info ∧ info_ok (module_type_ w) info;
  ok_wk : zlen (wk_confidence_levels (wakeup_config_ w)) = PAL_SOUND_TRIGGER_MAX_USERS ∧
          zlen (keyword_user_enables (wakeup_config_ w)) = PAL_SOUND_TRIGGER_MAX_USERS;
  ok_events : ∀ s o, det_event_info_ w !! s = Some o → ∃ e, o = Some e ∧ event_ok e;
}.

Lemma array_ok_Some {A} (l : list A) n : zlen l = n → array_ok (Some l) n.
Proof. right. eauto. Qed.
Lemma array_ok_zero {A} (o : option (list A)) : array_ok o 0.
Proof. by left. Qed.
#[local] Hint Resolve array_ok_Some array_ok_zero : pal.

Lemma smi_init_ok : smi_ok smi_init.
Proof. split; unfold bytes_ok, array_ok; simpl; naive_solver. Qed.

Lemma slice_Forall (P : Z → Prop) off n l b : slice off n l = Some b → Forall P l → Forall P b.
Proof. rewrite slice_Some. intros [_ ->] ?. by apply Forall_take, Forall_drop. Qed.

Lemma splice_Forall (P : Z → Prop) off d l b :
  splice off d l = Some b → Forall P d → Forall P l → Forall P b.
Proof.
  rewrite splice_Some. intros [_ ->] ??. apply Forall_app. split; [by apply Forall_take|].
  apply Forall_app. split; [done|by apply Forall_drop].
Qed.

Lemma copy_block_ok src n b : 0 ≤ n → copy_block src n = Some b →
  zlen b = n ∧ (bytes_ok src → Forall byte_ok b) ∧
  (n ≠ 0 → ∀ l, src = Some l → zlen l = n → b = l).
Proof.
  unfold copy_block. intros Hn Hc. case_decide; simplify_eq; [done|].
  destruct src as [l|]; [|done]. cbn [mbind option_bind] in Hc.
  split_and!; [by eapply slice_length| |].
  - intros Hb. eapply slice_Forall; [done|]. by apply Hb.
  - intros _ l' [= ->] Hl. apply slice_Some in Hc as [_ ->]. simpl. rewrite drop_0.
    apply take_ge. unfold zlen in Hl. lia.
Qed.

Section models.
Context `{env : !SvaEnv, osal : !Osal, osal_spec : !OsalSpec osal}.
Hypothesis memory : ∀ n, calloc_ok n = true.
(** The library counts with [uint16_t]. *)
Hypothesis header_counts : ∀ d,
  0 ≤ numKeywords (GetSoundModelHeader d).2 < 2 ^ 16 ∧
  0 ≤ numUsers (GetSoundModelHeader d).2 < 2 ^ 16 ∧
  0 ≤ numActiveUserKeywordPairs (GetSoundModelHeader d).2 < 2 ^ 16.

Lemma AllocArrayPtrs_ok n k :
  AllocArrayPtrs n k = Some (replicate (Z.to_nat n) EmptyString).
Proof. unfold AllocArrayPtrs. rewrite !memory. by destruct (n =? 0). Qed.

Lemma copy_strings_ok src n k o : copy_strings src n k = Some o →
  array_ok o n ∧ (n ≠ 0 → o = src).
Proof.
  unfold copy_strings. rewrite AllocArrayPtrs_ok. intros Hc.
  case_decide; [simplify_eq; split; [by left|done]|].
  destruct src as [l|]; [|done]. cbn [mbind option_bind] in Hc. case_decide; [|done].
  simplify_eq. split; [by apply array_ok_Some|done].
Qed.

(** The copy of an object has its names and levels. *)
Lemma smi_assign_ok d s d' : smi_ok s → smi_assign d s = Some d' →
  smi_ok d' ∧ cf_levels_size_ d' = cf_levels_size_ s ∧
  names_of d' = names_of s ∧ levels_of d' = levels_of s.
Proof.
  intros Hs Ha. unfold smi_assign in Ha. rewrite !memory in Ha. cbn [negb] in Ha.
  pose proof (ok_size s Hs) as Hn.
  assert (0 ≤ sm_size_ s) as Hz.
  { rewrite <-(ok_data s Hs). destruct (sm_data_ s); simpl; [apply zlen_nonneg|done]. }
  simplify_option_eq.
  repeat match goal with
  | Hc : copy_block _ _ = Some _ |- _ => apply copy_block_ok in Hc as (?&?&?); [|lia]
  | Hc : copy_strings _ _ _ = Some _ |- _ => apply copy_strings_ok in Hc as [??]
  end.
  destruct (ok_levels s Hs) as [Hl ?], (ok_det s Hs) as [? ?].
  split_and!; [|done| |].
  - split; simpl; [done|done| | |done|done|done].
    + split; [auto with pal|]. intros l [= <-]. auto.
    + split; [auto with pal|]. intros l [= <-]. auto.
  - unfold names_of. simpl. case_decide; [done|]. by match goal with
      Hx : _ → ?o = cf_levels_kw_users_ _ |- _ => rewrite Hx end.
  - unfold levels_of. simpl. case_decide; [done|]. destruct Hl as [|(l&Hl&?)]; [done|].
    rewrite Hl. simpl. match goal with Hx : _ → ∀ l, cf_levels_ s = Some l → _ |- _ =>
      by rewrite (Hx ltac:(done) l) by done end.
Qed.

(** *** Names *)

Lemma fetch_names_ok get m num st names : 0 ≤ num →
  fetch_names get m num = Some (st, names) → array_ok names num.
Proof.
  unfold fetch_names. rewrite AllocArrayPtrs_ok. intros Hn Hf.
  destruct (get m num) as [[ret n] l]. destruct (negb _).
  - simplify_eq. apply array_ok_Some. unfold zlen. rewrite length_replicate. lia.
  - case_decide; [|done]. simplify_eq. by apply array_ok_Some.
Qed.

Lemma SetKeyPhrases_ok m num i st i' : 0 ≤ num → smi_ok i →
  SetKeyPhrases m num i = Some (st, i') → smi_ok i'.
Proof.
  unfold SetKeyPhrases. intros Hn Hi Hs. case_decide.
  - simplify_eq. destruct Hi; split; simpl; auto with pal.
  - apply bind_Some in Hs as ([s1 names]&Hf%fetch_names_ok&Hs); [|done]. simplify_eq.
    destruct Hi; split; simpl; auto with pal.
Qed.

Lemma SetUsers_ok m num i st i' : 0 ≤ num → smi_ok i →
  SetUsers m num i = Some (st, i') → smi_ok i'.
Proof.
  unfold SetUsers. intros Hn Hi Hs. case_decide.
  - simplify_eq. destruct Hi; split; simpl; auto with pal.
  - apply bind_Some in Hs as ([s1 names]&Hf%fetch_names_ok&Hs); [|done]. simplify_eq.
    destruct Hi; split; simpl; auto with pal.
Qed.

Lemma name_users_length i kw nk per flags us : ∀ j l l',
  name_users i kw nk per flags j us l = Some l' → length (nl_names l') = length (nl_names l).
Proof.
  induction us as [|u us IH]; intros j l l' Hl; simpl in Hl; [by simplify_eq|].
  destruct (per <=? nl_k l); [by simplify_eq|]. apply bind_Some in Hl as (fs&_&Hl).
  apply bind_Some in Hl as (row&_&Hl). apply bind_Some in Hl as (flag&_&Hl).
  case_decide; [by eapply IH|]. case_decide; [|done].
  apply IH in Hl. simpl in Hl. by rewrite length_insert in Hl.
Qed.

Lemma name_keywords_length kws nk per flags us : ∀ i l l',
  name_keywords i kws nk per flags us l = Some l' →
  length (nl_names l') = length (nl_names l).
Proof.
  induction kws as [|kw kws IH]; intros i l l' Hl; cbn [name_keywords] in Hl; [by simplify_eq|].
  case_decide; [|done]. apply bind_Some in Hl as (l1&H1&Hl). apply IH in Hl. rewrite Hl.
  destruct per as [per|], us as [|u us];
    try (injection H1 as <-; simpl; by rewrite length_insert).
  apply bind_Some in H1 as (n&_&H1). apply name_users_length in H1. rewrite H1. simpl.
  by rewrite length_insert.
Qed.

Lemma replicate_byte n z : byte_ok z → Forall byte_ok (replicate n z).
Proof. intros. by apply Forall_replicate. Qed.

Lemma SetConfLevels_ok pairs per flags i st i' : smi_ok i →
  SetConfLevels pairs per flags i = Some (st, i') → smi_ok i'.
Proof.
  unfold SetConfLevels. rewrite AllocArrayPtrs_ok, memory. intros Hi Hs.
  pose proof (u32_range (num_keyphrases_ i + pairs)) as Hr. revert Hs Hr.
  generalize (u32 (num_keyphrases_ i + pairs)). intros n Hs Hr. cbn [negb] in Hs.
  case_decide; [simplify_eq|].
  { destruct Hi as [? ? [] [] ? ? ?]. split; simpl; auto with pal. lia. }
  apply bind_Some in Hs as (kws&_&Hs). apply bind_Some in Hs as (us&_&Hs).
  apply bind_Some in Hs as (l&Hl&Hs). simplify_eq. apply name_keywords_length in Hl.
  simpl in Hl. rewrite length_replicate in Hl.
  destruct Hi; split; simpl; auto with pal; try lia; [apply array_ok_Some; unfold zlen; lia|..].
  all: split; [apply array_ok_Some; unfold zlen; rewrite length_replicate; lia|].
  all: intros ? [= <-]; by apply replicate_byte.
Qed.

Lemma QuerySoundModel_ok i d st i' : smi_ok i → QuerySoundModel i d = Some (st, i') → smi_ok i'.
Proof.
  unfold QuerySoundModel. destruct (header_counts d) as (?&?&?).
  destruct (GetSoundModelHeader d) as [ret h]. simpl in *. intros Hi Hq.
  case_match; [by simplify_eq|]. case_match; [by simplify_eq|].
  case_match; [by simplify_eq|]. case_match; [by simplify_eq|].
  apply bind_Some in Hq as ([s1 i1]&Hk&Hq). apply SetKeyPhrases_ok in Hk; [|lia|done].
  case_decide; [by simplify_eq|].
  apply bind_Some in Hq as ([s2 i2]&Hu&Hq). apply SetUsers_ok in Hu; [|lia|done].
  case_decide; [by simplify_eq|].
  apply bind_Some in Hq as ([s3 i3]&Hc&Hq). apply SetConfLevels_ok in Hc; [|done].
  case_decide; by simplify_eq.
Qed.

Lemma SetModelData_ok d i : smi_ok i → smi_ok (SetModelData d i).
Proof.
  intros Hi. unfold SetModelData. rewrite memory.
  case_decide as Hz; destruct Hi; split; simpl; done.
Qed.

(** *** Levels *)

Lemma array_ok_insert {A} (l : list A) n k x : array_ok (Some l) n → array_ok (Some (<[k:=x]> l)) n.
Proof.
  intros [->|(l'&[= <-]&Hl)]; [by left|]. apply array_ok_Some. unfold zlen in *.
  by rewrite length_insert.
Qed.

Lemma UpdateConfLevel_ok j v i i' : smi_ok i → UpdateConfLevel j v i = Some i' →
  smi_ok i' ∧ names_of i' = names_of i ∧ cf_levels_size_ i' = cf_levels_size_ i.
Proof.
  unfold UpdateConfLevel. intros Hi Hu. case_match; [|by simplify_eq].
  apply bind_Some in Hu as (l&Hl&Hu). simplify_eq. split; [|done].
  destruct Hi as [? ? [Ha Hb] ? ? ? ?]. rewrite Hl in Ha, Hb.
  split; simpl; try done. split; [by apply array_ok_insert|].
  intros ? [= <-]. by apply Forall_insert_byte, Hb.
Qed.

Lemma UpdateConfLevelArray_ok c n i st i' : smi_ok i → bytes_ok c →
  UpdateConfLevelArray c n i = Some (st, i') →
  smi_ok i' ∧ names_of i' = names_of i ∧ cf_levels_size_ i' = cf_levels_size_ i ∧
  num_keyphrases_ i' = num_keyphrases_ i.
Proof.
  unfold UpdateConfLevelArray. intros Hi Hc Hu. destruct c as [c|]; [|by simplify_eq].
  case_match; [by simplify_eq|]. case_match eqn:Hl; [|by simplify_eq].
  apply bind_Some in Hu as (src&Hs&Hu). apply bind_Some in Hu as (l'&Hl'&Hu). simplify_eq.
  split; [|done]. destruct Hi as [? ? [Ha Hb] ? ? ? ?]. rewrite Hl in Ha, Hb.
  split; simpl; try done. split.
  - destruct Ha as [->|(l0&[= <-]&Hn)]; [by left|]. apply array_ok_Some.
    apply splice_length in Hl'. unfold zlen in *. lia.
  - intros ? [= <-]. eapply splice_Forall; [done| |by apply Hb].
    eapply slice_Forall; [done|]. by apply Hc.
Qed.

Lemma reset_levels_ok n : ∀ j e e', smi_ok e → reset_levels n j e = Some e' → smi_ok e'.
Proof.
  induction n as [|n IH]; intros j e e' He Hr; simpl in Hr; [by simplify_eq|].
  apply bind_Some in Hr as (e1&Hu&Hr). apply UpdateConfLevel_ok in Hu as [? _]; [|done]. eauto.
Qed.

Lemma level_of_name_ok name v names : ∀ j e e', smi_ok e →
  level_of_name name v j names e = Some e' → smi_ok e' ∧ names_of e' = names_of e ∧
  cf_levels_size_ e' = cf_levels_size_ e.
Proof.
  induction names as [|n names IH]; intros j e e' He Hr; simpl in Hr; [by simplify_eq|].
  apply bind_Some in Hr as (e1&Hu&Hr). case_decide.
  - apply UpdateConfLevel_ok in Hu as (?&<-&<-); [|done]. eauto.
  - simplify_eq. eauto.
Qed.

Lemma merge_levels_ok set src names : ∀ e e', smi_ok e →
  merge_levels set src names e = Some e' → smi_ok e' ∧ names_of e' = names_of e ∧
  cf_levels_size_ e' = cf_levels_size_ e.
Proof.
  induction src as [|[n v] src IH]; intros e e' He Hr; simpl in Hr; [by simplify_eq|].
  apply bind_Some in Hr as (e1&Hu&Hr). apply level_of_name_ok in Hu as (?&<-&<-); [|done]. eauto.
Qed.

(** ** Operations on the interface *)

Lemma set_engine_ok e w : smi_ok e → sva_ok w → sva_ok (set_sound_model_info_ e w).
Proof. intros ? []. by split. Qed.
Lemma set_merged_ok b w : sva_ok w → sva_ok (set_sm_merged_ b w).
Proof. intros []. by split. Qed.

Lemma stream_info_ok s w info : sva_ok w → registered s w = Some info →
  info_ok (module_type_ w) info.
Proof.
  intros Hw Hr. unfold registered in Hr.
  destruct (sm_info_map_ w !! s) as [o|] eqn:Ho; [|done]. simpl in Hr. subst o.
  destruct (ok_streams w Hw s _ Ho) as (i&[= <-]&?). done.
Qed.

Lemma GetSoundModelInfo_ok s w i : sva_ok w → GetSoundModelInfo s w = Some i → smi_ok i.
Proof.
  intros Hw Hg. unfold GetSoundModelInfo in Hg. apply bind_Some in Hg as (info&Hr&Hi).
  eapply stream_info_ok in Hr; [|done]. by eapply ok_info.
Qed.

(** Changing a stream's information keeps the interface well formed when it keeps that. *)
Lemma update_info_ok s f w : sva_ok w →
  (∀ info, registered s w = Some info → info_ok (module_type_ w) info →
           info_ok (module_type_ w) (f info)) →
  sva_ok (update_info s f w).
Proof.
  intros Hw Hf. pose proof Hw as [He Hs Hk]. split; [done| |done|done]. intros s' o. simpl.
  destruct (decide (s' = s)) as [->|].
  - rewrite lookup_alter_eq. destruct (sm_info_map_ w !! s) as [o1|] eqn:Ho; [|done].
    destruct (Hs s o1 Ho) as (info&->&Hok). simpl. intros [= <-]. eexists. split; [done|].
    apply Hf; [unfold registered; by rewrite Ho|done].
  - rewrite lookup_alter_ne by done. apply Hs.
Qed.

Lemma put_sound_model_info_ok s i w : smi_ok i → sva_ok w → sva_ok (put_sound_model_info s i w).
Proof.
  intros Hi Hw. apply update_info_ok; [done|]. intros info _ [H1 H2 H3].
  split; simpl; [by intros ? [= <-]|eauto|done..].
Qed.

Lemma UpdateMergeConfLevelsPayload_ok src set w st w' :
  (∀ i, src = Some i → smi_ok i) → sva_ok w →
  UpdateMergeConfLevelsPayload src set w = Some (st, w') → sva_ok w'.
Proof.
  unfold UpdateMergeConfLevelsPayload. intros Hs Hw Hu.
  destruct src as [src|]; [|by simplify_eq]. specialize (Hs src eq_refl). case_match.
  - apply bind_Some in Hu as (e&He&Hu). apply smi_assign_ok in He as (He&_); [|done].
    apply bind_Some in Hu as (e1&He1&Hu). simplify_eq. apply set_engine_ok; [|done].
    destruct set; simplify_eq; [done|]. by eapply reset_levels_ok.
  - case_match; [by simplify_eq|].
    apply bind_Some in Hu as (ns&_&Hu). apply bind_Some in Hu as (ls&_&Hu).
    apply bind_Some in Hu as (es&_&Hu). apply bind_Some in Hu as (e&He&Hu). simplify_eq.
    apply merge_levels_ok in He as [? _]; [|apply Hw]. by apply set_engine_ok.
Qed.

Lemma update_active_ok l : ∀ w st w', sva_ok w → update_active l w = Some (st, w') → sva_ok w'.
Proof.
  induction l as [|[x o] l IH]; intros w st w' Hw Hu; simpl in Hu; [by simplify_eq|].
  apply bind_Some in Hu as (info&->&Hu). case_match; [|by eapply IH].
  apply bind_Some in Hu as ([s1 w1]&Hm&Hu).
  apply UpdateMergeConfLevelsPayload_ok in Hm; [|intros; by eapply GetSoundModelInfo_ok|done].
  case_decide; [by eapply IH|by simplify_eq].
Qed.

Lemma install_model_ok smaller out w st w' :
  sva_ok w → install_model smaller out w = Some (st, w') → sva_ok w'.
Proof.
  unfold install_model. intros Hw Hi. apply bind_Some in Hi as ([s1 i]&Hq&Hi).
  apply QuerySoundModel_ok in Hq; [|apply SetModelData_ok, smi_init_ok].
  case_decide; [by simplify_eq|]. case_match; [by simplify_eq|].
  apply bind_Some in Hi as (e&He&Hi). apply smi_assign_ok in He as [He _]; [|done].
  eapply update_active_ok, Hi. by apply set_merged_ok, set_engine_ok.
Qed.

Lemma AddSoundModel_ok s d w st w' :
  sva_ok w → AddSoundModel s d w = Some (st, w') → sva_ok w'.
Proof.
  unfold AddSoundModel. intros Hw Ha. apply bind_Some in Ha as (i&Hi&Ha).
  apply GetSoundModelInfo_ok in Hi; [|done]. case_decide; [by simplify_eq|].
  apply bind_Some in Ha as ([s1 i1]&Hq&Ha). apply QuerySoundModel_ok in Hq; [|done].
  case_decide; [simplify_eq; by apply put_sound_model_info_ok|].
  assert (sva_ok (put_sound_model_info s (SetModelData d i1) w)) as Hw1
    by (apply put_sound_model_info_ok; [by apply SetModelData_ok|done]).
  apply bind_Some in Ha as (os&_&Ha). case_decide.
  - apply bind_Some in Ha as (e&He&Ha). simplify_eq.
    apply smi_assign_ok in He as [He _]; [|by apply SetModelData_ok].
    by apply set_merged_ok, set_engine_ok.
  - case_decide; [by simplify_eq|]. rewrite AllocArrayPtrs_ok in Ha.
    destruct (MergeSoundModels _) as [s2 out]. case_decide; [by simplify_eq|].
    by eapply install_model_ok.
Qed.
Lemma write_wakeup_ok ls k k' : write_wakeup ls k = Some k' →
  zlen (wk_confidence_levels k') = zlen (wk_confidence_levels k) ∧
  zlen (keyword_user_enables k') = zlen (keyword_user_enables k).
Proof.
  unfold write_wakeup. intros Hk. apply bind_Some in Hk as (c&Hc%splice_length&Hk).
  apply bind_Some in Hk as (en&He%splice_length&Hk). simplify_eq. unfold zlen. simpl. lia.
Qed.

Lemma set_wakeup_ok k w : sva_ok w →
  zlen (wk_confidence_levels k) = zlen (wk_confidence_levels (wakeup_config_ w)) →
  zlen (keyword_user_enables k) = zlen (keyword_user_enables (wakeup_config_ w)) →
  sva_ok (set_wakeup_config_ k w).
Proof. intros [? ? [??] ?] ??. split; simpl; [done|done| |done]. split; congruence. Qed.

Lemma DeleteSoundModel_ok s w st w' :
  sva_ok w → DeleteSoundModel s w = Some (st, w') → sva_ok w'.
Proof.
  unfold DeleteSoundModel. intros Hw Hd. apply bind_Some in Hd as (i&_&Hd).
  case_decide; [by simplify_eq|]. apply bind_Some in Hd as (os&_&Hd).
  destruct os as [|r [|r' os]]; [by simplify_eq| |].
  - apply bind_Some in Hd as (ri&Hri&Hd). apply GetSoundModelInfo_ok in Hri; [|done].
    apply bind_Some in Hd as (e&He&Hd). apply smi_assign_ok in He as [He _]; [|done].
    apply bind_Some in Hd as (k&Hk&Hd). simplify_eq. apply set_merged_ok.
    assert (zlen (wk_confidence_levels k) = zlen (wk_confidence_levels (wakeup_config_ w)) ∧
      zlen (keyword_user_enables k) = zlen (keyword_user_enables (wakeup_config_ w))) as [??].
    { destruct (cf_levels_ e); [|by simplify_eq]. apply bind_Some in Hk as (?&_&Hk).
      by apply write_wakeup_ok in Hk. }
    apply set_wakeup_ok; [by apply set_engine_ok|done|done].
  - destruct (sm_data_ (sound_model_info_ w)); [|by simplify_eq].
    case_match; [by simplify_eq|]. apply bind_Some in Hd as (kws&_&Hd).
    destruct (DeleteFromMergedModel _ _ _ _) as [s1 out]. case_decide; [by simplify_eq|].
    by eapply install_model_ok.
Qed.

Lemma SetModelState_ok s b w st w' : sva_ok w → SetModelState s b w = Some (st, w') → sva_ok w'.
Proof.
  unfold SetModelState. intros Hw Hs. destruct (sm_info_map_ w !! s) as [o|] eqn:Ho;
    [|by simplify_eq]. apply bind_Some in Hs as (info&->&Hs).
  assert (registered s w = Some info) as Hr by (unfold registered; by rewrite Ho).
  pose proof (stream_info_ok s w info Hw Hr) as Hinfo.
  case_decide; [by simplify_eq|].
  assert (sva_ok (update_info s (set_si_state b) w)) as Hw1.
  { apply update_info_ok; [done|]. intros i _ []. by split. }
  destruct (si_info info) as [i|] eqn:Hi; [|by simplify_eq].
  apply bind_Some in Hs as ([s1 i1]&Hu&Hs).
  apply UpdateConfLevelArray_ok in Hu as (Hi1&_); [|by eapply ok_info|by apply Hinfo].
  apply bind_Some in Hs as ([s2 w2]&Hm&Hs).
  apply UpdateMergeConfLevelsPayload_ok in Hm;
    [|by intros ? [= <-]|by apply put_sound_model_info_ok].
  case_decide; [by simplify_eq|].
  destruct (if decide (size (sm_info_map_ w2) = 1%nat) then _ else _) as [[mode n] src].
  apply bind_Some in Hs as (ls&_&Hs). apply bind_Some in Hs as (k&Hk&Hs). simplify_eq.
  apply write_wakeup_ok in Hk as [??]. by apply set_wakeup_ok.
Qed.

Lemma sm_info_init_rest :
  (array_ok (wakeup_config sm_info_init) 0 ∧ bytes_ok (wakeup_config sm_info_init) ∧ 0 ≤ 0) ∧
  (0 ≤ 0 < 2 ^ 32 ∧ ∀ d, ftrt_data_ sm_info_init = Some d → zlen d = 0) ∧
  zlen (sec_kw_det_info sm_info_init) = sizeof_st_det_engine_stats ∧
  zlen (sec_uv_det_info sm_info_init) = sizeof_st_det_engine_stats.
Proof. split; [split; [by left|by split]|]. by split_and!. Qed.

Lemma RegisterModel_ok s m parts w st w' :
  sva_ok w → RegisterModel s m parts w = Some (st, w') → sva_ok w'.
Proof.
  unfold RegisterModel. intros Hw Hr. rewrite memory, andb_false_r in Hr.
  apply bind_Some in Hr as (info&Hi&Hr). pose proof Hw as [He Hs Hk].
  assert (info_ok (module_type_ w) info ∨ info = sm_info_init) as Hinfo.
  { destruct (bool_decide _); [simplify_eq; by right|]. left. by eapply stream_info_ok. }
  set (info' := set_si_type _ _) in Hr.
  assert (info_ok (module_type_ w) info') as Hinfo'.
  { unfold info'. destruct (decide (module_type_ w = ST_MODULE_TYPE_GMM)).
    - destruct Hinfo as [[]| ->]; split; simpl; try done.
      all: try apply sm_info_init_rest; intros ? [= <-]; apply smi_init_ok.
    - destruct Hinfo as [[]| ->]; split; simpl; try done; apply sm_info_init_rest. }
  assert (sva_ok (set_sm_info_map_ (<[s := Some info']> (sm_info_map_ w)) w)) as Hw'.
  { split; [done| |done|done]. intros s' o. simpl. destruct (decide (s' = s)) as [->|].
    - rewrite lookup_insert_eq. intros [= <-]. eauto.
    - rewrite lookup_insert_ne by done. apply Hs. }
  revert Hw' Hr. generalize (set_sm_info_map_ (<[s := Some info']> (sm_info_map_ w)) w).
  intros w1 Hw1 Hr. repeat case_decide; [| |by simplify_eq].
  all: apply bind_Some in Hr as ([v|]&_&Hr); simplify_eq/=; [|done]; by destruct Hw1; split.
Qed.

Lemma DeregisterModel_ok s w : sva_ok w → sva_ok (DeregisterModel s w).
Proof.
  intros Hw. pose proof Hw as [He Hs Hk]. unfold DeregisterModel.
  destruct (registered s w); [|by split]. split; [done| |done|done]. intros s' o. simpl.
  intros [_ Ho]%lookup_delete_Some. by apply (Hs s').
Qed.

(** *** Recognition configurations *)

Definition out_ok (o : LevelsOut) : Prop :=
  array_ok (out_levels o) (out_num o) ∧ bytes_ok (out_levels o) ∧ 0 ≤ out_num o.

Lemma out_ok_none : out_ok (mkOut None 0).
Proof. split; [by left|by split]. Qed.

Lemma for_array_keeps {A T} (I : T → Prop) num (arr : list A) (body : Z → A → T → Chk T) :
  (∀ i x s s', I s → body i x s = Some (inr s') → I s') →
  ∀ i s s', I s → for_array num i arr body s = Some (inr s') → I s'.
Proof.
  intros Hb. induction arr as [|x arr IH]; intros i s s' HI Hf; cbn [for_array] in Hf;
    unfold chk_ok in Hf.
  - case_match; [done|]. by simplify_eq.
  - case_match; [|by simplify_eq]. destruct (body i x s) as [[?|s1]|] eqn:Hx; [done| |done].
    cbn [chk_bind] in Hf. eauto.
Qed.

Definition tables_keep (m : nat) (t : Tables) : Prop :=
  length t.1 = m ∧ Forall byte_ok t.1.

Lemma place_user_keeps m nk num store u t t' : tables_keep m t →
  place_user nk num store u t = Some (inr t') → tables_keep m t'.
Proof.
  destruct t as [cl tr]. unfold place_user, tables_keep. intros [Hl Hb] Hp. simpl in *.
  destruct (negb _); [|done]. destruct (tr !! _) as [seen|]; [|done]. simpl in Hp.
  destruct (negb _); [|done]. unfold chk_ok in Hp. simplify_eq. simpl.
  split; [by rewrite length_insert|by apply Forall_insert_byte].
Qed.

Lemma place_levels_keeps mid nk num store past kws t :
  (∀ t', past ≠ Some (inr t')) →
  place_levels mid nk num store past kws = Some (inr t) → tables_keep (Z.to_nat num) t.
Proof.
  intros Hpast. unfold place_levels. apply for_array_keeps.
  - intros i k t1 t2 [Hl Hb] Hp. unfold place_keyword in Hp.
    case_match; [|by apply Hpast in Hp].
    assert (tables_keep (Z.to_nat num) (<[Z.to_nat i := u8 (kw_level k)]> t1.1, t1.2)).
    { split; simpl; [by rewrite length_insert|by apply Forall_insert_byte]. }
    case_decide; [|unfold chk_ok in Hp; by simplify_eq].
    revert Hp. apply for_array_keeps; [|done]. intros. by eapply place_user_keeps.
  - split; [apply length_replicate|by apply replicate_byte].
Qed.

Lemma fill_exit_ok num mid nk store past kws st out : 0 ≤ num →
  (∀ t', past ≠ Some (inr t')) →
  fill_exit num (place_levels mid nk num store past kws) = Some (st, out) → out_ok out.
Proof.
  intros Hn Hpast Hf. destruct (place_levels _ _ _ _ _ _) as [[s1|[cl tr]]|] eqn:Hp;
    simplify_eq/=; [apply out_ok_none|]. apply place_levels_keeps in Hp as [Hl Hb]; [|done].
  simpl in *. split; [|split; [by intros ? [= <-]|done]]. simpl. apply array_ok_Some.
  unfold zlen. lia.
Qed.

Lemma count_levels_nonneg mid num kws n : count_levels mid num kws = Some (inr n) → 0 ≤ n.
Proof.
  unfold count_levels. apply for_array_keeps; [|done].
  intros i k m m' _ Hm. unfold chk_ok in Hm. simplify_eq. apply u32_range.
Qed.
Lemma FillConfLevels_ok info c out st out' :
  out_ok out → FillConfLevels info c out = Some (st, out') → out_ok out'.
Proof.
  unfold FillConfLevels. intros Ho Hf. destruct c as [c|]; [|by simplify_eq].
  destruct (_ || _); [by simplify_eq|].
  destruct (count_levels _ _ _) as [[s1|n]|] eqn:Hc; [by simplify_eq| |done].
  apply count_levels_nonneg in Hc. rewrite memory in Hf.
  destruct (check_levels _ _ _) as [[s1|[]]|]; simplify_eq/=; [apply out_ok_none|].
  eapply fill_exit_ok; [done| |exact Hf]. done.
Qed.

Lemma FillOpaqueConfLevels_ok mid sm out st out' :
  out_ok out → FillOpaqueConfLevels mid sm out = Some (st, out') → out_ok out'.
Proof.
  unfold FillOpaqueConfLevels. intros Ho Hf. destruct sm as [sm|]; [|by simplify_eq].
  destruct (check_levels _ _ _) as [[s1|[]]|]; simplify_eq/=; [done|].
  destruct (count_levels _ _ _) as [[s1|n]|] eqn:Hc; simplify_eq/=; [done|].
  apply count_levels_nonneg in Hc. rewrite memory in Hf.
  destruct (n =? 0); simplify_eq/=; [done|].
  eapply fill_exit_ok; [done| |exact Hf]. done.
Qed.

Lemma set_cached_ok v2 c w : sva_ok w → sva_ok (set_cached_levels v2 c w).
Proof. intros []. by destruct v2; split. Qed.

Lemma ParseOpaqueConfLevels_ok s info c v out w st out' w' :
  sva_ok w → out_ok out →
  ParseOpaqueConfLevels s info c v out w = Some (st, out', w') → sva_ok w' ∧ out_ok out'.
Proof.
  unfold ParseOpaqueConfLevels. intros Hw Ho Hp. rewrite memory in Hp. simpl in Hp.
  destruct (for_array _ _ _ _ _) as [[s1|l]|] eqn:Hl; simplify_eq;
    [split; [by apply set_cached_ok|done]|].
  apply (for_array_keeps (λ l, out_ok (ol_out l))) in Hl; [|clear -memory|done].
  - split; [|done]. apply update_info_ok; [by apply set_cached_ok|].
    intros i _ []. by split.
  - intros _ sm l l' Hl Hm. unfold opaque_model in Hm.
    destruct (decide (sm_id sm = ST_SM_ID_SVA_F_STAGE_GMM)).
    + destruct (FillOpaqueConfLevels _ _ _) as [[s1 o]|] eqn:Hf; [|done].
      unfold chk_ok in Hm. simplify_eq. by eapply FillOpaqueConfLevels_ok.
    + destruct (_ || _); [|unfold chk_ok in Hm; by simplify_eq].
      destruct (kw_levels sm !! 0%nat); [|done]. cbn [chk_lift chk_bind] in Hm.
      destruct (has_bits _ _); [unfold chk_ok in Hm; simpl in Hm; by simplify_eq|].
      destruct (user_levels _ !! 0%nat); [|done]. unfold chk_ok in Hm. simpl in Hm.
      by simplify_eq.
Qed.

(** The variables and the state after a parameter. *)
Definition config_ok (r : option ((Z + Z * ConfigLoop) * SVAInterface)) : Prop :=
  ∀ x w, r = Some (x, w) → sva_ok w ∧ ∀ n l, x = inr (n, l) → out_ok (cl_out l).

Lemma config_param_ok s data off key size l w :
  Forall byte_ok data → sva_ok w → out_ok (cl_out l) →
  config_ok (config_param s data off key size l w).
Proof.
  intros Hd Hw Hl x w' Hp. unfold config_param in Hp.
  destruct (decide (key = ST_PARAM_KEY_CONFIDENCE_LEVELS)).
  { apply bind_Some in Hp as (v&_&Hp).
    assert (sva_ok (update_info s (set_conf_levels_intf_version v) w)) as Hw1.
    { apply update_info_ok; [done|]. intros i _ []. by split. }
    case_decide; [|by simplify_eq]. apply bind_Some in Hp as (b&_&Hp).
    apply bind_Some in Hp as (i&_&Hp). apply bind_Some in Hp as ([[st o] w2]&Ho&Hp).
    apply ParseOpaqueConfLevels_ok in Ho as [??]; [|done..].
    case_decide; simplify_eq; (split; [done|]); [|done]. by intros ?? [= <- <-]. }
  destruct (decide (key = ST_PARAM_KEY_HISTORY_BUFFER_CONFIG)).
  { case_decide; [|by simplify_eq]. apply bind_Some in Hp as (b&_&Hp). simplify_eq.
    split; [done|]. by intros ?? [= <- <-]. }
  destruct (decide (key = ST_PARAM_KEY_DETECTION_PERF_MODE)).
  { case_decide; [|by simplify_eq]. apply bind_Some in Hp as (b&_&Hp). simplify_eq.
    split; [done|]. by intros ?? [= <- <-]. }
  destruct (decide (key = ST_PARAM_KEY_MMA_THRESHOLD_CONFIG)).
  { rewrite memory in Hp. apply bind_Some in Hp as (b&Hb&Hp). simplify_eq.
    split; [done|]. intros ?? [= <- <-]. simpl. pose proof (slice_length _ _ _ _ Hb).
    pose proof (zlen_nonneg b). rewrite ar_mem_cpy_fits by lia.
    split; [by apply array_ok_Some|]. split; [|simpl; lia]. intros ? [= <-].
    by eapply slice_Forall. }
  destruct (decide (key = ST_PARAM_KEY_TIUV_THRESHOLD_CONFIG)).
  { case_decide; [|by simplify_eq]. apply bind_Some in Hp as (b&_&Hp). simplify_eq.
    split; [by destruct Hw; split|]. by intros ?? [= <- <-]. }
  destruct (decide (key = ST_PARAM_KEY_HIST_CAPTURE_MODE)); [|by simplify_eq].
  case_decide; [|by simplify_eq]. apply bind_Some in Hp as (b&_&Hp). simplify_eq.
  split; [by destruct Hw; split|]. by intros ?? [= <- <-].
Qed.

Lemma config_loop_ok s data end_ fuel : ∀ off l w r w',
  Forall byte_ok data → sva_ok w → out_ok (cl_out l) →
  config_loop fuel s data end_ off l w = Some (r, w') →
  sva_ok w' ∧ ∀ l', r = inr l' → out_ok (cl_out l').
Proof.
  induction fuel as [|fuel IH]; intros off l w r w' Hd Hw Hl Hc; cbn [config_loop] in Hc;
    (case_match; [simplify_eq; split; [done|by intros ? [= <-]]|]); [done|].
  apply bind_Some in Hc as (key&_&Hc). apply bind_Some in Hc as (sz&_&Hc).
  apply bind_Some in Hc as ([x w1]&Hx&Hc).
  apply config_param_ok in Hx as [Hw1 Hx]; [|done..].
  destruct x as [st|[n l1]]; [by simplify_eq|]. eapply IH; [done|done| |done]. by eapply Hx.
Qed.

Lemma config_exit_ok s r w : sva_ok w → (∀ l, r = inr l → out_ok (cl_out l)) →
  sva_ok (config_exit s r w).2.
Proof.
  intros Hw Hr. destruct r as [st|l]; [by destruct Hw; split|]. simpl.
  apply update_info_ok; [by destruct Hw; split|]. intros i _ [H1 H2 H3].
  destruct (Hr l eq_refl) as (?&?&?). by split.
Qed.

Lemma ParseRecognitionConfig_ok s c w st w' :
  (∀ c', c = Some c' → Forall byte_ok (rc_data c')) → sva_ok w →
  ParseRecognitionConfig s c w = Some (st, w') → sva_ok w'.
Proof.
  unfold ParseRecognitionConfig. intros Hb Hw Hp.
  destruct (registered s w) as [info|]; [|by simplify_eq].
  assert (sva_ok (update_info s (set_rec_config c) w)) as Hw1.
  { apply update_info_ok; [done|]. intros i _ []. by split. }
  destruct c as [c|]; [|by simplify_eq].
  apply bind_Some in Hp as ([r w1]&Hr&Hp). simplify_eq.
  assert (sva_ok w1 ∧ ∀ l, r = inr l → out_ok (cl_out l)) as [Hw2 Hl].
  { case_match.
    - eapply config_loop_ok; [by apply Hb|exact Hw1| |exact Hr]. apply out_ok_none.
    - case_decide; [|simplify_eq; split; [done|intros ? [= <-]; apply out_ok_none]].
      apply bind_Some in Hr as ([s1 out]&Ho&Hr). simplify_eq.
      apply FillConfLevels_ok in Ho; [|apply out_ok_none].
      split; [done|]. intros l. case_decide; [by intros [= <-]|done]. }
  replace w' with (config_exit s r w1).2 by (by destruct (config_exit s r w1); simplify_eq).
  by apply config_exit_ok.
Qed.

Lemma sva_construct_ok u mt : sva_ok (sva_construct u mt).
Proof. split; [apply smi_init_ok|done..]. Qed.

(** ** Limits *)

Lemma copy_block_defined src n l : src = Some l → n ≤ zlen l → 0 ≤ n →
  ∃ b, copy_block src n = Some b ∧ zlen b = n.
Proof.
  intros -> ??. unfold copy_block. case_decide; [by exists []|]. simpl.
  destruct (slice_is_Some 0 n l) as [b Hb]; [lia..|]. exists b.
  split; [done|]. by eapply slice_length.
Qed.

Lemma copy_array_defined (o : option (list Z)) n : 0 ≤ n → array_ok o n →
  ∃ b, copy_block o n = Some b ∧ zlen b = n.
Proof.
  intros Hn [->|(l&->&Hl)]; [by exists []|]. eapply copy_block_defined; [done|lia|done].
Qed.

Lemma copy_strings_defined o n k : array_ok o n → ∃ r, copy_strings o n k = Some r.
Proof.
  unfold copy_strings. rewrite AllocArrayPtrs_ok. intros Ho. case_decide; [eauto|].
  destruct Ho as [|(l&->&Hl)]; [done|]. simpl. rewrite decide_True by done. eauto.
Qed.

Lemma smi_assign_defined d s : smi_ok s → ∃ d', smi_assign d s = Some d'.
Proof.
  intros [Hn H1 [H2 _] [H3 _] H4 H5 H6]. unfold smi_assign. rewrite !memory. cbn [negb].
  assert (0 ≤ sm_size_ s ∧ array_ok (sm_data_ s) (sm_size_ s)) as [Hz Hd].
  { destruct (sm_data_ s) as [l|]; simpl in H6; subst.
    - rewrite <-H6. split; [apply zlen_nonneg|by apply array_ok_Some].
    - rewrite <-H6. split; [done|]. by left. }
  destruct (copy_array_defined _ _ Hz Hd) as (b1&->&_).
  destruct (copy_array_defined _ _ Hn H2) as (b2&->&_).
  destruct (copy_array_defined _ _ Hn H3) as (b3&->&_).
  destruct (copy_strings_defined _ _ MAX_STRING_LEN H4) as (r1&->).
  destruct (copy_strings_defined _ _ MAX_STRING_LEN H5) as (r2&->).
  destruct (copy_strings_defined _ _ MAX_KW_USERS_NAME_LEN H1) as (r3&->). simpl. eauto.
Qed.

Lemma reset_levels_defined n : ∀ j e, 0 ≤ j → smi_ok e → ∃ e', reset_levels n j e = Some e'.
Proof.
  induction n as [|n IH]; intros j e Hj He; simpl; [eauto|].
  assert (∃ e1, UpdateConfLevel j MAX_CONF_LEVEL_VALUE e = Some e1) as [e1 Hu].
  { unfold UpdateConfLevel. destruct (Z.ltb_spec j (cf_levels_size_ e)); [|eauto].
    destruct (ok_levels e He) as [[Hz|(l&->&_)] _]; [lia|]. simpl. eauto. }
  rewrite Hu. simpl. apply IH; [lia|]. by eapply UpdateConfLevel_ok.
Qed.

Lemma UpdateConfLevelArray_defined c n i : smi_ok i → array_ok c n → 0 ≤ n →
  ∃ r, UpdateConfLevelArray c n i = Some r.
Proof.
  intros Hi Hc Hn. unfold UpdateConfLevelArray. destruct c as [c|]; [|eauto].
  destruct (Z.ltb_spec (cf_levels_size_ i) n); [eauto|].
  destruct (cf_levels_ i) as [l|] eqn:Hl; [|eauto].
  assert (n ≤ zlen c ∧ n ≤ zlen l) as [??].
  { destruct Hc as [->|(l'&[= <-]&?)]; [pose proof (zlen_nonneg c); pose proof (zlen_nonneg l);
      lia|]. destruct (ok_levels i Hi) as [[Hz|(l'&Hl'&Hlen)] _].
    - pose proof (zlen_nonneg l). lia.
    - rewrite Hl in Hl'. simplify_eq. lia. }
  destruct (slice_is_Some 0 n c) as [b Hb]; [lia..|]. rewrite Hb. cbn [mbind option_bind].
  apply slice_length in Hb. destruct (splice_is_Some 0 b l) as [l' ->]; [lia..|]. simpl. eauto.
Qed.

Lemma write_wakeup_defined ls m c n r k :
  zlen (wk_confidence_levels k) = PAL_SOUND_TRIGGER_MAX_USERS →
  zlen (keyword_user_enables k) = PAL_SOUND_TRIGGER_MAX_USERS →
  ∀ w : SVAInterface, is_Some (k' ← write_wakeup ls (mkWakeup m c n r (wk_confidence_levels k)
                (keyword_user_enables k)); Some (0, set_wakeup_config_ k' w)) ↔
  zlen ls ≤ PAL_SOUND_TRIGGER_MAX_USERS.
Proof.
  intros H1 H2 w. unfold write_wakeup. simpl. pose proof (zlen_nonneg ls).
  assert (zlen ((λ l, if decide (l = 100) then 0 else 1) <$> ls) = zlen ls) as Hf
    by (unfold zlen; by rewrite length_fmap).
  split.
  - intros [x Hx]. apply bind_Some in Hx as (k'&Hk&_). apply bind_Some in Hk as (l&Hl&_).
    apply splice_Some in Hl as [[??] _]. lia.
  - intros Hle. destruct (splice_is_Some 0 ls (wk_confidence_levels k)) as [l1 ->]; [lia..|].
    edestruct (splice_is_Some 0 (((λ l, if decide (l = 100) then 0 else 1) <$> ls))
      (keyword_user_enables k)) as [l2 ->]; [lia|lia|]. simpl. eauto.
Qed.

(** C16: Starting or stopping the only stream of an engine is defined exactly when the
    number of levels the client sent, cut to a byte, is at most the ten the engine's
    structure has room for: with more, the arrays behind it are overwritten. *)
Theorem model_state_limit s b w info i :
  sva_ok w → sm_info_map_ w = {[ s := Some info ]} → si_info info = Some i →
  si_state info ≠ b → sm_merged_ w = false →
  is_Some (SetModelState s b w) ↔ u8 (wakeup_config_size info) ≤ PAL_SOUND_TRIGGER_MAX_USERS.
Proof.
  intros Hw Hmap Hi Hb Hm.
  assert (registered s w = Some info) as Hr
    by (unfold registered; by rewrite Hmap, lookup_singleton_eq).
  destruct (stream_info_ok s w info Hw Hr) as [Hinfo _ (Hc&Hcb&Hcn)].
  unfold SetModelState. rewrite Hmap, lookup_singleton_eq. cbn [mbind option_bind].
  rewrite decide_False by done. rewrite Hi.
  destruct (UpdateConfLevelArray_defined (wakeup_config info) (wakeup_config_size info) i)
    as [[s1 i1] Hu]; [by apply Hinfo|done|done|].
  rewrite Hu. apply UpdateConfLevelArray_ok in Hu as (Hi1&_); [|by apply Hinfo|done].
  cbn [mbind option_bind]. unfold UpdateMergeConfLevelsPayload. cbn [sm_merged_ negb].
  replace (sm_merged_ (put_sound_model_info s i1 (update_info s (set_si_state b) w)))
    with false by (by rewrite <-Hm). cbn [negb].
  destruct (smi_assign_defined (sound_model_info_ (put_sound_model_info s i1
    (update_info s (set_si_state b) w))) i1 Hi1) as [e He].
  rewrite He. apply smi_assign_ok in He as (He&_); [|done]. cbn [mbind option_bind].
  assert (∃ e1, (if b then Some e else reset_levels (Z.to_nat (cf_levels_size_ e)) 0 e) =
    Some e1) as [e1 ->].
  { destruct b; [eauto|]. by apply reset_levels_defined. }
  cbn [mbind option_bind]. rewrite decide_False by tauto.
  cbn [sm_info_map_ set_sound_model_info_ put_sound_model_info update_info set_sm_info_map_].
  rewrite Hmap, !alter_singleton_eq, map_size_singleton, decide_True by done.
  assert (∃ ls, copy_block (wakeup_config info) (u8 (wakeup_config_size info)) = Some ls ∧
    zlen ls = u8 (wakeup_config_size info)) as (ls&->&Hls).
  { pose proof (u8_byte (wakeup_config_size info)) as Hu8. unfold byte_ok in Hu8.
    assert (u8 (wakeup_config_size info) ≤ wakeup_config_size info)
      by (apply Z.mod_le; [done|lia]).
    destruct Hc as [Hz|(l&->&Hl)]; [rewrite Hz; by exists []|].
    eapply copy_block_defined; [done|lia|lia]. }
  cbn [mbind option_bind]. rewrite <-Hls. destruct (ok_wk w Hw) as [Hk1 Hk2].
  apply write_wakeup_defined; done.
Qed.
End models.

(** ** At concrete inputs *)

Module SvaModelsDemo.
Import SvaDemo BoundedCopy.

Lemma memory n : calloc_ok n = true.
Proof. done. Qed.
Lemma header_counts d :
  0 ≤ numKeywords (GetSoundModelHeader d).2 < 2 ^ 16 ∧
  0 ≤ numUsers (GetSoundModelHeader d).2 < 2 ^ 16 ∧
  0 ≤ numActiveUserKeywordPairs (GetSoundModelHeader d).2 < 2 ^ 16.
Proof. simpl. split; [apply Z.mod_pos_bound; lia|lia]. Qed.

(** A stream whose client sent [n] levels. *)
Definition demo_limit (n : nat) : sound_model_info :=
  set_wakeup_config_size (Z.of_nat n)
    (set_wakeup_config (Some (replicate n 50)) (set_si_info (Some smi_init) sm_info_init)).
Definition demo_limit_world (n : nat) : SVAInterface :=
  set_sm_info_map_ {[ 1%positive := Some (demo_limit n) ]}
    (sva_construct demo_uninit ST_MODULE_TYPE_GMM).

Lemma demo_limit_ok n : sva_ok (demo_limit_world n).
Proof.
  split; [apply smi_init_ok| |done|done]. intros s o. simpl.
  rewrite lookup_singleton_Some. intros [<- <-]. eexists. split; [done|]. split.
  - intros i [= <-]. apply smi_init_ok.
  - done.
  - split; [|split; [|simpl; lia]].
    + apply array_ok_Some. unfold zlen. by rewrite length_replicate.
    + intros l [= <-]. apply Forall_replicate. done.
  - done.
  - done.
Qed.

(** Ten levels fit, eleven do not. *)
Lemma model_state_limit_witness :
  is_Some (SetModelState 1 true (demo_limit_world 10)) ∧
  ¬ is_Some (SetModelState 1 true (demo_limit_world 11)).
Proof.
  split.
  - apply (model_state_limit memory 1 true (demo_limit_world 10) (demo_limit 10)
      smi_init); [apply demo_limit_ok|done..|vm_compute; discriminate].
  - rewrite (model_state_limit memory 1 true (demo_limit_world 11) (demo_limit 11)
      smi_init); [|apply demo_limit_ok|done..]. vm_compute. intros H. by apply H.
Defined.
End SvaModelsDemo.
