(* ===== verification/SvaEvent.v ===== *)
(** * Voice UI interface: detection events and the interface's parameters

    sva_intf/src/SVAInterface.cpp: the events of the audio DSP and the streams they are
    for, the levels and positions taken from them, the event built for the client with
    its opaque data, and SetParameter and GetParameter, through which the sound trigger
    stream and its engines use the interface.

    The bytes of an event are the block behind its pointer; what lies at an offset is
    decoded by the environment.  A structure in the opaque data is edited as a structure
    and then laid out.  Streams are not null.

    [None] is undefined behaviour: memory outside a block or array, a null pointer, a
    member of a union that is not the one stored.  The code takes the address of a member
    of an event before it checks it; without an event that is undefined too, although the
    check is meant to return -EINVAL. *)

From S2P Require Import Prelude PalDefs SoundTriggerState.
From S2P Require Import SvaState.
From S2P Require Import SvaConfig.
From S2P Require Import SvaModels.

Local Open Scope st_scope.

Section events.
Context `{!SvaEnv, !Osal}.

Definition BITS_PER_BYTE : Z := 8.
Definition CONF_LEVELS_OF_EVENT : nat := 20.
Definition PAL_SOUND_TRIGGER_MAX_PHRASES : Z := 10.
Definition sizeof_detection_event : Z := 368.

(** [*x] of a pointer kept in [det_event_info_]. *)
Definition event_of (s : positive) (w : SVAInterface) : option detection_event :=
  mjoin (det_event_info_ w !! s).
Definition gmm_info (e : detection_event) : option detection_event_info :=
  match det_info e with GmmInfo i => Some i | _ => None end.
Definition pdk_info (e : detection_event) : option detection_event_info_pdk :=
  match det_info e with PdkInfo i => Some i | _ => None end.
Definition mma_info (e : detection_event) : option (list Z) :=
  match det_info e with MmaInfo b => Some b | _ => None end.

Definition UsToBytes (us : Z) (w : SVAInterface) : Z :=
  let a := str_attr_ w in
  u32 (u64 (u32 (u32 (in_sample_rate a * in_bit_width a) * in_channels a) * us) /
       (BITS_PER_BYTE * US_PER_SEC)).

Definition put_event (s : positive) (e : detection_event) (w : SVAInterface) : SVAInterface :=
  set_det_event_info_ (<[s := Some e]> (det_event_info_ w)) w.

Definition UpdateKeywordIndex (s : positive) (kwd_start kwd_end ftrt_start : Z)
    (w : SVAInterface) : option SVAInterface :=
  if kwd_end <? kwd_start then Some w
  else if ftrt_start <? kwd_start then
    e ← event_of s w;
    Some (put_event s (set_indices (UsToBytes (u64 (kwd_start - ftrt_start)) w)
                         (UsToBytes (u64 (kwd_end - ftrt_start)) w) e) w)
  else Some w.

(** ** The parts of an event

    The four functions that read an event share this loop.  [body] gets a part's key and
    the offset of its data, and the variables; it ends the function, or gives the
    variables and whether the rest is skipped.  [fuel] bounds the iterations. *)
Fixpoint event_loop {S R} (fuel : nat) (event : list Z) (event_size parsed ptr : Z)
    (body : Z → Z → S → option (R + S * bool)) (v : S) : option (R + S) :=
  if negb (parsed <? event_size) then Some (inr v) else
  match fuel with
  | O => None
  | S fuel =>
      '(key, size) ← ev_header (drop (Z.to_nat ptr) event);
      let ptr := ptr + sizeof_event_header in
      r ← body key ptr v;
      match r with
      | inl r => Some (inl r)
      | inr (v, over) =>
          let parsed := if over : bool then event_size
                        else u32 (parsed + sizeof_event_header) in
          event_loop fuel event event_size (u32 (parsed + size)) (ptr + size) body v
      end
  end.

Definition event_parts {S R} (event : list Z) (event_size : Z)
    (body : Z → Z → S → option (R + S * bool)) (v : S) : option (R + S) :=
  event_loop (length event) event event_size 0 sizeof_generic_info body v.

(** The statistics of the [i]-th model of a result. *)
Definition stat_at (event : list Z) (ptr i : Z) : option model_stats :=
  get_model_stats <$>
    slice (ptr + sizeof_multi_model_result + i * sizeof_model_stats) sizeof_model_stats event.

(** The levels of a part, into an array of 20 bytes. *)
Fixpoint copy_confidence (part : list Z) (n : nat) (i : nat) (levels : list Z)
  : option (list Z) :=
  match n with
  | O => Some levels
  | S n =>
      v ← ev_confidence part (Z.of_nat i);
      if decide (i < length levels)%nat
      then copy_confidence part n (S i) (<[i := v]> levels) else None
  end.

(** ** The detected streams *)

Fixpoint stream_of_model (id : Z) (l : list (positive * option sound_model_info))
  : option (option positive) :=
  match l with
  | [] => Some None
  | (s, o) :: l =>
      info ← o;
      if decide (model_id info = id) then Some (Some s) else stream_of_model id l
  end.

(** [for (i < num_detected_models)]: [st] and [best] as they are left by the models
    before. *)
Fixpoint detected_models (event : list Z) (ptr : Z)
    (streams : list (positive * option sound_model_info)) (n : nat) (i : Z)
    (st : option positive) (best : Z) (det_list : list positive) : option (list positive) :=
  match n with
  | O => Some det_list
  | S n =>
      m ← stat_at event ptr i;
      found ← stream_of_model (detected_model_id m) streams;
      let st := match found with Some s => Some s | None => st end in
      match st with
      | None => Some det_list
      | Some s =>
          if best <? best_confidence_level m
          then detected_models event ptr streams n (i + 1) st (best_confidence_level m)
                 (s :: det_list)
          else detected_models event ptr streams n (i + 1) st best (det_list ++ [s])
      end
  end.

(** A list of streams, or null. *)
Definition GetPDKDetectedStream (event : list Z) (w : SVAInterface)
  : option (option (list positive)) :=
  g ← ev_generic event;
  if decide (gi_payload_size g = 0) then Some None else
  r ← event_parts (R := unit) event (gi_payload_size g) (λ key ptr l,
        if decide (key = KEY_ID_FTRT_DATA_INFO) then Some (inr (l, false))
        else if decide (key = KEY_ID_VOICE_UI_MULTI_MODEL_RESULT_INFO) then
          n ← ev_num_models (drop (Z.to_nat ptr) event);
          l ← detected_models event ptr (map_entries (sm_info_map_ w)) (Z.to_nat n) 0
                None 0 [];
          Some (inr (Some l, true))
        else Some (inl tt)) None;
  Some (match r with inl _ => None | inr l => l end).

Definition keyphrases_of (i : SoundModelInfo) : option (list string) :=
  if decide (num_keyphrases_ i = 0) then Some [] else
  l ← keyphrases_ i; if decide (zlen l = num_keyphrases_ i) then Some l else None.

Fixpoint stream_of_phrase (name : string) (l : list (positive * option sound_model_info))
  : option (option positive) :=
  match l with
  | [] => Some None
  | (s, o) :: l =>
      info ← o; i ← si_info info; names ← keyphrases_of i;
      if decide (name ∈ names) then Some (Some s) else stream_of_phrase name l
  end.

(** The first keyphrase of the engine with a level, and a stream that has it. *)
Fixpoint detected_phrase (names : list string) (levels : list Z)
    (streams : list (positive * option sound_model_info)) : option (option positive) :=
  match names with
  | [] => Some None
  | name :: names =>
      match levels with
      | [] => None
      | v :: levels =>
          if decide (v = 0) then detected_phrase names levels streams else
          found ← stream_of_phrase name streams;
          match found with
          | Some s => Some (Some s)
          | None => detected_phrase names levels streams
          end
      end
  end.

Definition first_stream (w : SVAInterface) : option positive :=
  fst <$> head (map_entries (sm_info_map_ w)).

Definition GetGMMDetectedStream (event : list Z) (w : SVAInterface)
  : option (option positive) :=
  g ← ev_generic event;
  if decide (gi_payload_size g = 0 ∨ gi_status g ≠ 0) then Some None
  else if decide (size (sm_info_map_ w) = 1%nat) then Some (first_stream w) else
  r ← event_parts (R := unit) event (gi_payload_size g) (λ key ptr v,
        if decide (key = KEY_ID_CONFIDENCE_LEVELS_INFO) then
          let part := drop (Z.to_nat ptr) event in
          n ← ev_num_confidence part;
          l ← copy_confidence part (Z.to_nat n) 0 v.2;
          Some (inr ((n, l), true))
        else if decide (key = KEY_ID_KWD_POSITION_INFO ∨ key = KEY_ID_TIMESTAMP_INFO ∨
                        key = KEY_ID_FTRT_DATA_INFO) then Some (inr (v, false))
        else Some (inl tt)) (0, replicate CONF_LEVELS_OF_EVENT 0);
  match r with
  | inl _ => Some None
  | inr (n, levels) =>
      if n <? num_keyphrases_ (sound_model_info_ w) then Some None else
      names ← keyphrases_of (sound_model_info_ w);
      detected_phrase names levels (map_entries (sm_info_map_ w))
  end.

Definition GetMMADetectedStream (w : SVAInterface) : option positive :=
  if decide (size (sm_info_map_ w) = 1%nat) then first_stream w else None.

(** What GetDetectedStream hands out: a stream, a list of them, or null. *)
Inductive Detected := DetNull | DetStream (s : positive) | DetList (l : list positive).
Definition det_stream (o : option positive) : Detected := from_option DetStream DetNull o.
Definition det_list (o : option (list positive)) : Detected := from_option DetList DetNull o.

Definition GetDetectedStream (event : list Z) (w : SVAInterface) : option Detected :=
  if decide (size (sm_info_map_ w) = 0%nat) then Some DetNull
  else if IS_MODULE_TYPE_PDK (module_type_ w) then det_list <$> GetPDKDetectedStream event w
  else if decide (module_type_ w = ST_MODULE_TYPE_GMM)
  then det_stream <$> GetGMMDetectedStream event w
  else Some (det_stream (GetMMADetectedStream w)).

(** ** Events taken in *)

Definition event_zero (i : event_info) : detection_event := mkDetEv i 0 0 0 0 0 0.
Definition stamp (p : Z * Z) : Z := u64 (p.1 + u64 (p.2 * 2 ^ 32)).

(** [for (i < num_detected_models)], the model [i] being read where the code's pointer
    is: it is moved by the size of the structure times that size. *)
Fixpoint copy_stats (event : list Z) (ptr : Z) (n : nat) (i : nat) (l : list model_stats)
  : option (list model_stats) :=
  match n with
  | O => Some l
  | S n =>
      m ← stat_at event ptr (Z.of_nat i * sizeof_model_stats);
      if decide (i < length l)%nat then copy_stats event ptr n (S i) (<[i := m]> l) else None
  end.

Definition ParseDetectionPayloadPDK (s : positive) (event : list Z) (w : SVAInterface)
  : option (Z * SVAInterface) :=
  g ← ev_generic event;
  if decide (gi_payload_size g = 0) then Some (- EINVAL, w)
  else if negb (calloc_ok sizeof_detection_event) then Some (- ENOMEM, w) else
  r ← event_parts event (gi_payload_size g) (λ key ptr v,
        let '(i, id, ftrt) := v in
        let part := drop (Z.to_nat ptr) event in
        if decide (key = KEY_ID_FTRT_DATA_INFO) then
          us ← ev_ftrt_length part;
          Some (inr ((mkPdkInfo (num_detected_models i) (detected_model_stats i) us, id, us),
                     false))
        else if decide (key = KEY_ID_VOICE_UI_MULTI_MODEL_RESULT_INFO) then
          n ← ev_num_models part;
          first ← stat_at event ptr 0;
          l ← copy_stats event ptr (Z.to_nat n) 0 (detected_model_stats i);
          Some (inr ((mkPdkInfo n l (pdk_ftrt_data_length_in_us i), detected_model_id first,
                      ftrt), false))
        else Some (inl (- EINVAL)))
      (mkPdkInfo 0 (replicate (Z.to_nat MAX_MODELS_SUPPORTED) stats_zero) 0, 0, 0);
  match r with
  | inl status => Some (status, w)
  | inr (i, id, ftrt) =>
      m ← head (detected_model_stats i);
      let kwd_start := stamp (kw_start_timestamp_lsw m, kw_start_timestamp_msw m) in
      let kwd_end := stamp (kw_end_timestamp_lsw m, kw_end_timestamp_msw m) in
      let ftrt_start := u64 (stamp (detection_timestamp_lsw m, detection_timestamp_msw m) -
                             pdk_ftrt_data_length_in_us i) in
      w ← UpdateKeywordIndex s kwd_start kwd_end ftrt_start
            (put_event s (mkDetEv (PdkInfo i) id ftrt kwd_start kwd_end 0 0) w);
      Some (0, w)
  end.

Definition ParseDetectionPayloadGMM (s : positive) (event : list Z) (w : SVAInterface)
  : option (Z * SVAInterface) :=
  g ← ev_generic event;
  if decide (gi_payload_size g = 0 ∨ gi_status g ≠ 0) then Some (- EINVAL, w)
  else if negb (calloc_ok sizeof_detection_event) then Some (- ENOMEM, w) else
  r ← event_parts event (gi_payload_size g) (λ key ptr v,
        let '(i, ftrt) := v in
        let part := drop (Z.to_nat ptr) event in
        if decide (key = KEY_ID_CONFIDENCE_LEVELS_INFO) then
          n ← ev_num_confidence part;
          l ← copy_confidence part (Z.to_nat n) 0 (confidence_levels i);
          Some (inr ((mkGmmInfo (dei_status i) n l (dei_kw_start i) (dei_kw_end i)
                        (dei_detection i) (ftrt_data_length_in_us i), ftrt), false))
        else if decide (key = KEY_ID_KWD_POSITION_INFO) then
          '(sl, sm, el, em) ← ev_kw_position part;
          Some (inr ((mkGmmInfo (dei_status i) (num_confidence_levels i)
                        (confidence_levels i) (sl, sm) (el, em) (dei_detection i)
                        (ftrt_data_length_in_us i), ftrt), false))
        else if decide (key = KEY_ID_TIMESTAMP_INFO) then
          t ← ev_timestamp part;
          Some (inr ((mkGmmInfo (dei_status i) (num_confidence_levels i)
                        (confidence_levels i) (dei_kw_start i) (dei_kw_end i) t
                        (ftrt_data_length_in_us i), ftrt), false))
        else if decide (key = KEY_ID_FTRT_DATA_INFO) then
          us ← ev_ftrt_length part;
          Some (inr ((mkGmmInfo (dei_status i) (num_confidence_levels i)
                        (confidence_levels i) (dei_kw_start i) (dei_kw_end i)
                        (dei_detection i) us, us), false))
        else Some (inl (- EINVAL)))
      (mkGmmInfo (gi_status g mod 2 ^ 16) 0 (replicate CONF_LEVELS_OF_EVENT 0) (0, 0) (0, 0)
         (0, 0) 0, 0);
  match r with
  | inl status => Some (status, w)
  | inr (i, ftrt) =>
      let kwd_start := stamp (dei_kw_start i) in
      let kwd_end := stamp (dei_kw_end i) in
      let ftrt_start := u64 (stamp (dei_detection i) - ftrt_data_length_in_us i) in
      w ← UpdateKeywordIndex s kwd_start kwd_end ftrt_start
            (put_event s (mkDetEv (GmmInfo i) 0 ftrt kwd_start kwd_end 0 0) w);
      Some (0, w)
  end.

Definition ParseDetectionPayloadMMA (s : positive) (event : list Z) (w : SVAInterface)
  : option (Z * SVAInterface) :=
  if negb (calloc_ok sizeof_detection_event) then Some (- ENOMEM, w) else
  b ← slice 0 sizeof_mma_detection_event event;
  Some (0, put_event s (event_zero (MmaInfo (ar_mem_cpy sizeof_mma_detection_event b))) w).

(** [for (j ...)]: the levels of a stream with the name of an engine's level. *)
Fixpoint det_level_of_name (name : string) (v : Z) (j : Z) (names : list string)
    (i : SoundModelInfo) : option SoundModelInfo :=
  match names with
  | [] => Some i
  | n :: names =>
      i ← (if decide (n = name) then UpdateDetConfLevel j v i else Some i);
      det_level_of_name name v (j + 1) names i
  end.

Fixpoint det_levels (enames : list string) (levels : list Z) (names : list string)
    (i : SoundModelInfo) : option SoundModelInfo :=
  match enames with
  | [] => Some i
  | name :: enames =>
      match levels with
      | [] => None
      | v :: levels =>
          i ← (if decide (v = 0) then Some i else det_level_of_name name v 0 names i);
          det_levels enames levels names i
      end
  end.

Definition CheckAndSetDetectionConfLevels (so : option positive) (w : SVAInterface)
  : option SVAInterface :=
  match so with
  | None => Some w
  | Some s =>
      e ← event_of s w;
      ev ← gmm_info e;
      if num_confidence_levels ev <? cf_levels_size_ (sound_model_info_ w) then Some w else
      i ← GetSoundModelInfo s w;
      i ← ResetDetConfLevels i;
      enames ← names_of (sound_model_info_ w);
      names ← names_of i;
      i ← det_levels enames (confidence_levels ev) names i;
      Some (put_sound_model_info s i w)
  end.

Definition ParseDetectionPayload (s : positive) (event : list Z) (w : SVAInterface)
  : option (Z * SVAInterface) :=
  if decide (sm_info_map_ w !! s = None) then Some (- EINVAL, w)
  else if decide (module_type_ w = ST_MODULE_TYPE_GMM) then
    '(status, w) ← ParseDetectionPayloadGMM s event w;
    so ← GetGMMDetectedStream event w;
    w ← CheckAndSetDetectionConfLevels so w;
    Some (status, w)
  else if IS_MODULE_TYPE_PDK (module_type_ w) then ParseDetectionPayloadPDK s event w
  else if decide (module_type_ w = ST_MODULE_TYPE_MMA) then ParseDetectionPayloadMMA s event w
  else Some (0, w).

(** ** Levels in a client's event *)

(** A change of the [i]-th element, undefined outside the array. *)
Definition alter_at {A} (i : Z) (f : A → option A) (l : list A) : option (list A) :=
  x ← l !! Z.to_nat i; y ← f x; Some (<[Z.to_nat i := y]> l).
(** A change of the first [num] elements; [over] gives the others. *)
Definition map_first {A} (num : Z) (f : A → option A) (over : A → A) (l : list A)
  : option (list A) :=
  if num <=? zlen l
  then l' ← mapM f (take (Z.to_nat num) l); Some (l' ++ (over <$> drop (Z.to_nat num) l))
  else None.

Definition store_level (v2 : bool) (z : Z) : Z := if v2 then s32 z else u8 z.

(** The counts and ids of the cached levels, in a block of zeros. *)
Definition init_user (u : pal_st_confidence_level) : pal_st_confidence_level :=
  mkLevel (user_id u) 0.
Definition blank_user (u : pal_st_confidence_level) : pal_st_confidence_level := mkLevel 0 0.
Definition blank_keyword (k : st_keyword_levels) : st_keyword_levels :=
  mkKwLevels 0 0 (blank_user <$> user_levels k).
Definition blank_model (m : st_sound_model_conf_levels) : st_sound_model_conf_levels :=
  mkSmLevels 0 0 (blank_keyword <$> kw_levels m).
Definition blank_info (c : st_confidence_levels_info) : st_confidence_levels_info :=
  mkLevelsInfo 0 0 (blank_model <$> conf_levels c).

Definition init_keyword (k : st_keyword_levels) : option st_keyword_levels :=
  us ← map_first (num_user_levels k) (Some ∘ init_user) blank_user (user_levels k);
  Some (mkKwLevels 0 (num_user_levels k) us).
Definition init_model (m : st_sound_model_conf_levels) : option st_sound_model_conf_levels :=
  ks ← map_first (num_kw_levels m) init_keyword blank_keyword (kw_levels m);
  Some (mkSmLevels (sm_id m) (num_kw_levels m) ks).
Definition init_info (c : st_confidence_levels_info) : option st_confidence_levels_info :=
  ms ← map_first (num_sound_models c) init_model blank_model (conf_levels c);
  Some (mkLevelsInfo 0 (num_sound_models c) ms).

Definition cached_levels (v2 : bool) (w : SVAInterface) : option st_confidence_levels_info :=
  if v2 then st_conf_levels_v2_ w else st_conf_levels_ w.

(** The block as a structure. *)
Definition InitCallbackConfLevels (v2 : bool) (w : SVAInterface)
  : option st_confidence_levels_info :=
  match cached_levels v2 w with
  | None => Some (get_levels_info v2 (replicate (info_size v2) 0))
  | Some c => init_info c
  end.

(** [kw_levels[j].kw_level] and [kw_levels[j].user_levels[0].level]. *)
Definition set_levels_of (j kw user : Z) (m : st_sound_model_conf_levels)
  : option st_sound_model_conf_levels :=
  ks ← alter_at j (λ k,
         us ← alter_at 0 (λ u, Some (mkLevel (user_id u) user)) (user_levels k);
         Some (mkKwLevels kw (num_user_levels k) us)) (kw_levels m);
  Some (mkSmLevels (sm_id m) (num_kw_levels m) ks).

(** [for (auto iter : sec_det_level)]. *)
Fixpoint for_det_levels (l : list (Z * Z))
    (f : Z * Z → st_sound_model_conf_levels → option st_sound_model_conf_levels)
    (m : st_sound_model_conf_levels) : option st_sound_model_conf_levels :=
  match l with [] => Some m | p :: l => m ← f p m; for_det_levels l f m end.

Definition fill_model (v2 : bool) (info : sound_model_info) (det_keyword_id best : Z)
    (m : st_sound_model_conf_levels) : option st_sound_model_conf_levels :=
  let store := store_level v2 in
  if decide (sm_id m = ST_SM_ID_SVA_F_STAGE_GMM)
  then set_levels_of det_keyword_id (store best) 0 m
  else if has_bits (sm_id m) ST_SM_ID_SVA_S_STAGE_KWD then
    for_det_levels (sec_det_level info) (λ p m,
      if has_bits p.1 ST_SM_ID_SVA_S_STAGE_KWD then set_levels_of 0 (store p.2) 0 m
      else Some m) m
  else if has_bits (sm_id m) ST_SM_ID_SVA_S_STAGE_USER then
    for_det_levels (sec_det_level info) (λ p m,
      if has_bits p.1 ST_SM_ID_SVA_S_STAGE_USER then set_levels_of 0 (store p.2) (store p.2) m
      else Some m) m
  else Some m.

Definition FillCallbackConfLevels (v2 : bool) (info : sound_model_info)
    (det_keyword_id best : Z) (c : st_confidence_levels_info)
  : option st_confidence_levels_info :=
  ms ← map_first (num_sound_models c) (fill_model v2 info det_keyword_id best) id
         (conf_levels c);
  Some (mkLevelsInfo (ci_version c) (num_sound_models c) ms).

(** [if (j <= size) x = det[j]].  The second version reads [det[j]] for the log in any
    case. *)
Definition det_level (v2 : bool) (i : SoundModelInfo) (j old : Z) : option Z :=
  let read := det ← det_cf_levels_ i; det !! Z.to_nat j in
  if j <=? cf_levels_size_ i then store_level v2 <$> read
  else if v2 then _ ← read; Some old else Some old.

Fixpoint pack_keywords (v2 : bool) (i : SoundModelInfo) (n : nat) (j : Z)
    (ks : list st_keyword_levels) : option (list st_keyword_levels) :=
  match n, ks with
  | O, _ => Some ks
  | S _, [] => None
  | S n, k :: ks =>
      v ← det_level v2 i j (kw_level k);
      us ← map_first (num_user_levels k) (λ u,
             v ← det_level v2 i (user_id u) (level u); Some (mkLevel (user_id u) v)) id
             (user_levels k);
      ks ← pack_keywords v2 i n (j + 1) ks;
      Some (mkKwLevels v (num_user_levels k) us :: ks)
  end.

Definition pack_model (v2 : bool) (info : sound_model_info) (m : st_sound_model_conf_levels)
  : option st_sound_model_conf_levels :=
  let store := store_level v2 in
  if decide (sm_id m = ST_SM_ID_SVA_F_STAGE_GMM) then
    if decide (num_kw_levels m = 0) then Some m else
    i ← si_info info;
    ks ← pack_keywords v2 i (Z.to_nat (num_kw_levels m)) 0 (kw_levels m);
    Some (mkSmLevels (sm_id m) (num_kw_levels m) ks)
  else if has_bits (sm_id m) ST_SM_ID_SVA_S_STAGE_KWD ||
          has_bits (sm_id m) ST_SM_ID_SVA_S_STAGE_USER then
    for_det_levels (sec_det_level info) (λ p m,
      if has_bits (sm_id m) ST_SM_ID_SVA_S_STAGE_KWD && has_bits p.1 ST_SM_ID_SVA_S_STAGE_KWD
      then set_levels_of 0 (store p.2) 0 m
      else if has_bits (sm_id m) ST_SM_ID_SVA_S_STAGE_USER &&
              (p.1 =? (if v2 then ST_SM_ID_SVA_S_STAGE_USER else sm_id m))
      then set_levels_of 0 (store p.2) (store p.2) m
      else Some m) m
  else Some m.

Definition PackEventConfLevels (v2 : bool) (info : sound_model_info)
    (c : st_confidence_levels_info) : option st_confidence_levels_info :=
  ms ← map_first (num_sound_models c) (pack_model v2 info) id (conf_levels c);
  Some (mkLevelsInfo (ci_version c) (num_sound_models c) ms).

(** ** Opaque data of a client's event *)

(** A keyed parameter. *)
Definition opaque_param (key : Z) (payload : list Z) : list Z :=
  le32 key ++ le32 (zlen payload) ++ payload.

Definition prop_size (info : sound_model_info) (key : Z) : Z :=
  if decide (key = ST_PARAM_KEY_KEYWORD_BUFFER) then
    if decide (ftrt_data_size_ info = 0) then 0
    else sizeof_st_param_header + ftrt_data_size_ info
  else if decide (key = ST_PARAM_KEY_SSTAGE_KW_ENGINE_INFO ∨
                  key = ST_PARAM_KEY_SSTAGE_UV_ENGINE_INFO)
  then sizeof_st_param_header + sizeof_st_det_engine_stats
  else if decide (key = ST_PARAM_KEY_IS_BARGEIN)
  then sizeof_st_param_header + sizeof_st_det_perf_mode_info
  else 0.

Definition GetExtendedPayloadSize (s : positive) (w : SVAInterface) : Z :=
  match registered s w with
  | None => 0
  | Some info => foldl (λ size key, u32 (size + prop_size info key)) 0 (det_prop_list info)
  end.

(** One property: the bytes it adds and the information of the stream after it. *)
Definition fill_prop (perf_mode : bool) (key : Z) (info : sound_model_info)
  : option (list Z * sound_model_info) :=
  if decide (key = ST_PARAM_KEY_KEYWORD_BUFFER) then
    match ftrt_data_ info with
    | None => Some ([], info)
    | Some data =>
        let n := ftrt_data_size_ info in
        b ← (if decide (n = 0) then Some []
             else d ← slice 0 n data; Some (le32 key ++ le32 n ++ d));
        Some (b, set_ftrt_data_size_ 0 (set_ftrt_data_ None info))
    end
  else if decide (key = ST_PARAM_KEY_SSTAGE_KW_ENGINE_INFO) then
    Some (opaque_param key (sec_kw_det_info info), info)
  else if decide (key = ST_PARAM_KEY_SSTAGE_UV_ENGINE_INFO) then
    Some (opaque_param key (sec_uv_det_info info), info)
  else if decide (key = ST_PARAM_KEY_IS_BARGEIN) then
    Some (opaque_param key (le32 1 ++ le32 (Z.b2z perf_mode)), info)
  else Some ([], info).

Fixpoint fill_props (perf_mode : bool) (keys : list Z) (info : sound_model_info)
  : option (list Z * sound_model_info) :=
  match keys with
  | [] => Some ([], info)
  | key :: keys =>
      '(b, info) ← fill_prop perf_mode key info;
      '(bs, info) ← fill_props perf_mode keys info;
      Some (b ++ bs, info)
  end.

(** The bytes written from [data] on. *)
Definition FillExtendedDetectionPayload (s : positive) (size : Z) (w : SVAInterface)
  : option (list Z * SVAInterface) :=
  if decide (size = 0) then Some ([], w) else
  match registered s w with
  | None => Some ([], w)
  | Some info =>
      '(b, info') ← fill_props (perf_mode_ w) (det_prop_list info) info;
      Some (b, update_info s (λ _, info') w)
  end.

Definition SetReadOffset (s : positive) (offset : Z) (w : SVAInterface) : SVAInterface :=
  set_readOffsets_ (<[s := offset]> (readOffsets_ w)) w.

(** The statistics of the stream's model, or zeros. *)
Definition stats_of_model (id : Z) (i : detection_event_info_pdk) : option model_stats :=
  let n := s32 (num_detected_models i) in
  match list_find (λ m, id = detected_model_id m)
          (take (Z.to_nat n) (detected_model_stats i)) with
  | Some (_, m) => Some m
  | None => if n <=? zlen (detected_model_stats i) then Some stats_zero else None
  end.

(** The bytes written from [opaque_data] on. *)
Definition PackDetectionOpaqueData (s : positive) (ext_payload_size : Z) (w : SVAInterface)
  : option (Z * list Z * SVAInterface) :=
  if decide (module_type_ w = ST_MODULE_TYPE_MMA) then
    e ← event_of s w;
    b ← mma_info e;
    b ← slice 0 sizeof_mma_detection_event b;
    '(ext, w) ← FillExtendedDetectionPayload s ext_payload_size w;
    Some (0, opaque_param ST_PARAM_KEY_MMA_DETECTION_RESULT
               (ar_mem_cpy sizeof_mma_detection_event b) ++ ext, w)
  else if decide (module_type_ w = ST_MODULE_TYPE_HIST_CAP) then
    Some (0, opaque_param ST_PARAM_KEY_MMAP_READ_INDEX
               (le32 (start_position_ w) ++ le32 (bytes_to_read_ w)), w)
  else
    info ← registered s w;
    e ← event_of s w;
    let v2 := bool_decide (conf_levels_intf_version info = CONF_LEVELS_INTF_VERSION_0002) in
    c ← InitCallbackConfLevels v2 w;
    '(c, t) ←
      (if 0 <? model_id info then
         i ← pdk_info e;
         m ← stats_of_model (model_id info) i;
         c ← FillCallbackConfLevels v2 info (detected_keyword_id m)
               (best_confidence_level m) c;
         Some (c, (detection_timestamp_lsw m, detection_timestamp_msw m))
       else
         i ← gmm_info e;
         c ← PackEventConfLevels v2 info c;
         Some (c, dei_detection i));
    let capture := from_option capture_requested false (rec_config info) in
    let hist := default 0 (origin_hist_buf_duration_ w !! s) in
    let w := if capture
             then set_origin_hist_buf_duration_ (<[s := hist]> (origin_hist_buf_duration_ w)) w
             else w in
    let w := SetReadOffset s (if capture && (hist =? 0) then end_index_ e else 0) w in
    '(ext, w) ← FillExtendedDetectionPayload s ext_payload_size w;
    Some (0,
      opaque_param ST_PARAM_KEY_CONFIDENCE_LEVELS (put_levels_info v2 c) ++
      opaque_param ST_PARAM_KEY_KEYWORD_INDICES
        (le32 1 ++ le32 (start_index_ e) ++ le32 (end_index_ e)) ++
      opaque_param ST_PARAM_KEY_TIMESTAMP
        (le32 1 ++ le_bytes 8 (1000 * stamp t) ++ le_bytes 8 0) ++ ext, w).

(** [struct pal_st_recognition_event], with the phrases of a phrase event and the opaque
    data behind it; constant members are left out. *)
Record recognition_event := mkRecEvent {
  re_status : Z;
  re_type : Z;
  re_capture_available : bool;
  re_data_size : Z;
  re_media : media_in;
  re_phrases : list pal_st_phrase_recognition_extra;
  re_opaque : list Z;
}.

Definition opaque_size_of (info : sound_model_info) (ext : Z) (w : SVAInterface) : Z :=
  let v2 := bool_decide (conf_levels_intf_version info = CONF_LEVELS_INTF_VERSION_0002) in
  if decide (si_type info = PAL_SOUND_MODEL_TYPE_KEYPHRASE) then
    if decide (module_type_ w ≠ ST_MODULE_TYPE_MMA) then
      3 * sizeof_st_param_header + sizeof_st_timestamp_info + sizeof_st_keyword_indices_info +
      Z.of_nat (info_size v2) + ext
    else 2 * sizeof_st_param_header + sizeof_mma_detection_event +
         sizeof_tiuv_detection_result + ext
  else if decide (module_type_ w = ST_MODULE_TYPE_MMA)
  then sizeof_st_param_header + sizeof_mma_detection_event + ext
  else if decide (module_type_ w = ST_MODULE_TYPE_HIST_CAP)
  then sizeof_st_param_header + sizeof_st_mmap_index_info
  else 0.

(** The opaque data in their block of zeros. *)
Definition fill_block (size : Z) (b : list Z) : option (list Z) :=
  splice 0 b (replicate (Z.to_nat size) 0).

Definition GenerateCallbackEvent (sizeof_phrase_event sizeof_generic_event : Z)
    (s : positive) (w : SVAInterface)
  : option (Z * option (recognition_event * Z) * SVAInterface) :=
  match registered s w with
  | None => Some (- EINVAL, None, w)
  | Some info =>
      let ext := GetExtendedPayloadSize s w in
      let size := opaque_size_of info ext w in
      if decide (si_type info = PAL_SOUND_MODEL_TYPE_KEYPHRASE) then
        if negb (calloc_ok (sizeof_phrase_event + size)) then Some (- ENOMEM, None, w) else
        match rec_config info with
        | None => Some (- EINVAL, None, w)
        | Some c =>
            ph ← (if num_phrases c <=? PAL_SOUND_TRIGGER_MAX_PHRASES
                  then slice 0 (num_phrases c) (phrases c) else None);
            '(status, b, w) ← PackDetectionOpaqueData s ext w;
            b ← fill_block size b;
            Some (status, Some (mkRecEvent (det_result info) (si_type info)
                    (capture_requested c) size (str_attr_ w) ph b,
                    sizeof_phrase_event + size), w)
        end
      else if decide (si_type info = PAL_SOUND_MODEL_TYPE_GENERIC) then
        if negb (calloc_ok (sizeof_generic_event + size)) then Some (- ENOMEM, None, w) else
        c ← rec_config info;
        '(status, b, w) ←
          (if decide (size = 0) then Some (0, [], w) else
           PackDetectionOpaqueData s
             (if decide (module_type_ w = ST_MODULE_TYPE_MMA) then ext else 0) w);
        b ← fill_block size b;
        Some (status, Some (mkRecEvent PAL_RECOGNITION_STATUS_SUCCESS (si_type info)
                (capture_requested c) size (str_attr_ w) [] b,
                sizeof_generic_event + size), w)
      else Some (0, None, w)
  end.

(** ** The rest of a stream's information *)

Definition SetSecondStageDetStats (s : positive) (type : Z) (data : option (list Z))
    (level : Z) (w : SVAInterface) : option SVAInterface :=
  match registered s w with
  | None => Some w
  | Some info =>
      match data with
      | Some b =>
          if decide (type = ST_SM_ID_SVA_S_STAGE_KWD) then
            b ← slice 0 sizeof_st_det_engine_stats b;
            Some (update_info s (set_sec_kw_det_info b) w)
          else if decide (type = ST_SM_ID_SVA_S_STAGE_USER) then
            if decide (module_type_ w = ST_MODULE_TYPE_MMA) then
              b ← slice 0 sizeof_tiuv_detection_result b;
              Some (set_tiuv_detection_result_ b w)
            else
              b ← slice 0 sizeof_st_det_engine_stats b;
              Some (update_info s (set_sec_uv_det_info b) w)
          else Some w
      | None =>
          let l := sec_det_level info in
          Some (update_info s (set_sec_det_level
            (match list_find (λ p, type = p.1) l with
             | Some (i, _) => <[i := (type, level)]> l
             | None => l ++ [(type, level)]
             end)) w)
      end
  end.

Definition UpdateDetectionResult (s : positive) (result : Z) : SVAInterface → SVAInterface :=
  update_info s (set_det_result result).

Definition UpdateIndices (s : positive) (index : Z * Z) (w : SVAInterface)
  : option SVAInterface :=
  match det_event_info_ w !! s with
  | None => Some w
  | Some o => e ← o; Some (put_event s (set_indices index.1 index.2 e) w)
  end.

Definition has_model (bits : Z) (info : sound_model_info) : bool :=
  existsb (λ d, has_bits (smd_type d) bits) (model_list info).

Definition SetDetectionPropList (s : positive) (props : list Z) (w : SVAInterface)
  : Z * SVAInterface :=
  match registered s w with
  | None => (- EINVAL, w)
  | Some info =>
      let wanted p :=
        negb (((p =? ST_PARAM_KEY_SSTAGE_KW_ENGINE_INFO) &&
               negb (has_model ST_SM_ID_SVA_S_STAGE_KWD info)) ||
              ((p =? ST_PARAM_KEY_SSTAGE_UV_ENGINE_INFO) &&
               negb (has_model ST_SM_ID_SVA_S_STAGE_USER info))) in
      (0, update_info s (set_det_prop_list
            (det_prop_list info ++ List.filter wanted props)) w)
  end.

(** A failed [realloc] leaves the size. *)
Definition UpdateFtrtData (s : positive) (data : list Z) (w : SVAInterface) : SVAInterface :=
  if decide (zlen data = 0) then w else
  match registered s w with
  | None => w
  | Some _ =>
      if calloc_ok (zlen data)
      then update_info s (λ info, set_ftrt_data_size_ (zlen data)
                                    (set_ftrt_data_ (Some data) info)) w
      else update_info s (set_ftrt_data_ None) w
  end.

Definition GetSecondStageConfLevels (s : positive) (type : Z) (w : SVAInterface) : option Z :=
  info ← registered s w;
  foldl (λ v p, if decide (p.1 = type) then Some p.2 else v) None (sec_threshold info).

Definition GetReadOffset (s : positive) (w : SVAInterface) : Z * SVAInterface :=
  let v := default 0 (readOffsets_ w !! s) in (v, SetReadOffset s v w).

(** ** SetParameter and GetParameter *)

Inductive IntfParam :=
  | PARAM_FSTAGE_SOUND_MODEL_ADD (s : positive) (data : list Z)
  | PARAM_FSTAGE_SOUND_MODEL_DELETE (s : positive)
  | PARAM_FSTAGE_SOUND_MODEL_ID (s : positive) (id : Z)
  | PARAM_FSTAGE_SOUND_MODEL_STATE (s : positive) (state : bool)
  | PARAM_RECOGNITION_MODE (s : positive) (mode : Z)
  | PARAM_RECOGNITION_CONFIG (s : positive) (c : option pal_st_recognition_config)
  | PARAM_SSTAGE_KW_DET_LEVEL (s : positive) (level : Z)
  | PARAM_SSTAGE_UV_DET_LEVEL (s : positive) (level : Z)
  | PARAM_DETECTION_EVENT (s : positive) (event : list Z)
  | PARAM_DETECTION_RESULT (s : positive) (result : Z)
  | PARAM_KEYWORD_INDEX (s : positive) (index : Z * Z)
  | PARAM_LAB_READ_OFFSET (s : positive) (offset : Z)
  | PARAM_STREAM_ATTRIBUTES (attr : option media_in)
  | PARAM_DEFAULT_BUFFER_CONFIG (c : buffer_config)
  | PARAM_DETECTION_PROP_LIST (s : positive) (props : list Z)
  | PARAM_FTRT_DATA (s : positive) (data : list Z)
  | PARAM_SSTAGE_KW_DET_STATS (s : positive) (data : option (list Z))
  | PARAM_SSTAGE_UV_DET_STATS (s : positive) (data : option (list Z))
  | PARAM_DETECTION_PERF_MODE (perf_mode : bool)
  | PARAM_TIUV_DETECTION_RESULT (s : positive) (data : option (list Z))
  | PARAM_BUFFERING_MODE_CONFIG (size : Z)
  | PARAM_MMAP_START_POSITION (z : Z)
  | PARAM_MMAP_BYTES_TO_READ (z : Z)
  | PARAM_UNSUPPORTED.

Definition SetParameter (p : IntfParam) (w : SVAInterface) : option (Z * SVAInterface) :=
  let done (w : SVAInterface) : option (Z * SVAInterface) := Some (0, w) in
  match p with
  | PARAM_FSTAGE_SOUND_MODEL_ADD s data =>
      if decide (module_type_ w = ST_MODULE_TYPE_GMM) then UpdateEngineModel s data true w
      else done w
  | PARAM_FSTAGE_SOUND_MODEL_DELETE s =>
      if decide (module_type_ w = ST_MODULE_TYPE_GMM) then UpdateEngineModel s [] false w
      else done w
  | PARAM_FSTAGE_SOUND_MODEL_ID s id => done (SetModelId s id w)
  | PARAM_FSTAGE_SOUND_MODEL_STATE s state => SetModelState s state w
  | PARAM_RECOGNITION_MODE s mode => done (SetRecognitionMode s mode w)
  | PARAM_RECOGNITION_CONFIG s c => ParseRecognitionConfig s c w
  | PARAM_SSTAGE_KW_DET_LEVEL s l =>
      SetSecondStageDetStats s ST_SM_ID_SVA_S_STAGE_KWD None l w ≫= done
  | PARAM_SSTAGE_UV_DET_LEVEL s l =>
      SetSecondStageDetStats s ST_SM_ID_SVA_S_STAGE_USER None l w ≫= done
  | PARAM_DETECTION_EVENT s event => ParseDetectionPayload s event w
  | PARAM_DETECTION_RESULT s r => done (UpdateDetectionResult s r w)
  | PARAM_KEYWORD_INDEX s i => UpdateIndices s i w ≫= done
  | PARAM_LAB_READ_OFFSET s z => done (SetReadOffset s z w)
  | PARAM_STREAM_ATTRIBUTES None => done w
  | PARAM_STREAM_ATTRIBUTES (Some a) => done (set_str_attr_ a w)
  | PARAM_DEFAULT_BUFFER_CONFIG c => done (set_default_buf_config_ c w)
  | PARAM_DETECTION_PROP_LIST s l => done (SetDetectionPropList s l w).2
  | PARAM_FTRT_DATA s d => done (UpdateFtrtData s d w)
  | PARAM_SSTAGE_KW_DET_STATS s b =>
      SetSecondStageDetStats s ST_SM_ID_SVA_S_STAGE_KWD b 0 w ≫= done
  | PARAM_SSTAGE_UV_DET_STATS s b =>
      SetSecondStageDetStats s ST_SM_ID_SVA_S_STAGE_USER b 0 w ≫= done
  | PARAM_DETECTION_PERF_MODE b => done (set_perf_mode_ b w)
  | PARAM_TIUV_DETECTION_RESULT s b =>
      SetSecondStageDetStats s ST_SM_ID_SVA_S_STAGE_USER b 0 w ≫= done
  | PARAM_BUFFERING_MODE_CONFIG n => Some (SetBufferingModeConfig n w)
  | PARAM_MMAP_START_POSITION z => done (set_start_position_ z w)
  | PARAM_MMAP_BYTES_TO_READ z => done (set_bytes_to_read_ z w)
  | PARAM_UNSUPPORTED => done w
  end.

(** The parameters that can be asked for. *)
Inductive IntfQuery :=
  | GET_INTERFACE_PROPERTY
  | GET_FSTAGE_SOUND_MODEL_TYPE
  | GET_SOUND_MODEL_LIST (s : positive)
  | GET_FSTAGE_BUFFERING_CONFIG (s : positive)
  | GET_FSTAGE_DETECTION_UV_SCORE (s : positive)
  | GET_SSTAGE_KW_CONF_LEVEL (s : positive)
  | GET_SSTAGE_UV_CONF_LEVEL (s : positive)
  | GET_DETECTION_EVENT (s : positive)
  | GET_DETECTION_STREAM (event : list Z)
  | GET_KEYWORD_INDEX (s : positive)
  | GET_KEYWORD_STATS (s : positive)
  | GET_LAB_READ_OFFSET (s : positive)
  | GET_SOUND_MODEL_LOAD (s : positive)
  | GET_SOUND_MODEL_UNLOAD (s : option positive)
  | GET_WAKEUP_CONFIG (s : positive)
  | GET_BUFFERING_CONFIG (s : positive)
  | GET_ENGINE_RESET (s : positive)
  | GET_MMA_MODE_BIT_CONFIG
  | GET_TIUV_THRESHOLD_CONFIG
  | GET_BUFFERING_MODE_CONFIG
  | GET_MMAP_BYTES_TO_READ
  | GET_MMAP_START_POSITION
  | GET_UNSUPPORTED.

(** What is written through the parameter's pointer; [GotNothing] leaves it alone. *)
Inductive IntfAnswer :=
  | GotNothing
  | GotProperty (is_multi_model_supported is_qc_wakeup_config : bool)
  | GotWord (z : Z)
  | GotModels (l : list sound_model_data)
  | GotBuffering (c : buffer_config)
  | GotMode (c : history_buffer_mode)
  | GotEvent (e : option (recognition_event * Z))
  | GotStream (d : Detected)
  | GotIndex (first last : Z)
  | GotStats (start_ts end_ts ftrt : Z)
  | GotPayload (b : list Z).

Definition payload_answer (p : Payload) : Z * IntfAnswer :=
  (p.1, from_option GotPayload GotNothing p.2).

(** The layouts around a first stage model and the sizes of the client's events are
    arguments.  The score of the user is read as a GMM event's, also from the event of a
    PDK module, whose union holds another structure. *)
Definition GetParameter (pdk_header : Z → list Z → list Z) (mma_header : list Z → list Z)
    (sizeof_phrase_event sizeof_generic_event : Z) (q : IntfQuery) (w : SVAInterface)
  : option (Z * IntfAnswer * SVAInterface) :=
  let pure (r : Z * IntfAnswer) : option (Z * IntfAnswer * SVAInterface) := Some (r, w) in
  let got (a : IntfAnswer) := pure (0, a) in
  match q with
  | GET_INTERFACE_PROPERTY => got (GotProperty (IS_MODULE_TYPE_PDK (module_type_ w)) true)
  | GET_FSTAGE_SOUND_MODEL_TYPE => got (GotWord (module_type_ w))
  | GET_SOUND_MODEL_LIST s =>
      match registered s w with
      | Some info => got (GotModels (model_list info))
      | None => pure (- EINVAL, GotNothing)
      end
  | GET_FSTAGE_BUFFERING_CONFIG s =>
      got (from_option (λ i, GotBuffering (buf_config i)) GotNothing (registered s w))
  | GET_FSTAGE_DETECTION_UV_SCORE s =>
      if IS_MODULE_TYPE_PDK (module_type_ w) then None
      else if decide (module_type_ w = ST_MODULE_TYPE_GMM) then
        e ← event_of s w; i ← gmm_info e; v ← confidence_levels i !! 1%nat; got (GotWord v)
      else pure (- EINVAL, GotNothing)
  | GET_SSTAGE_KW_CONF_LEVEL s =>
      got (from_option GotWord GotNothing
             (GetSecondStageConfLevels s ST_SM_ID_SVA_S_STAGE_KWD w))
  | GET_SSTAGE_UV_CONF_LEVEL s =>
      got (from_option GotWord GotNothing
             (GetSecondStageConfLevels s ST_SM_ID_SVA_S_STAGE_USER w))
  | GET_DETECTION_EVENT s =>
      '(status, e, w) ← GenerateCallbackEvent sizeof_phrase_event sizeof_generic_event s w;
      Some (status, GotEvent e, w)
  | GET_DETECTION_STREAM event => d ← GetDetectedStream event w; got (GotStream d)
  | GET_KEYWORD_INDEX s =>
      match det_event_info_ w !! s with
      | Some o => e ← o; got (GotIndex (start_index_ e) (end_index_ e))
      | None => got GotNothing
      end
  | GET_KEYWORD_STATS s =>
      match det_event_info_ w !! s with
      | Some o => e ← o; got (GotStats (start_ts_ e) (end_ts_ e) (ftrt_size_us_ e))
      | None => got GotNothing
      end
  | GET_LAB_READ_OFFSET s => let '(v, w) := GetReadOffset s w in Some (0, GotWord v, w)
  | GET_SOUND_MODEL_LOAD s =>
      p ← GetSoundModelLoadPayload pdk_header mma_header s w; pure (payload_answer p)
  | GET_SOUND_MODEL_UNLOAD s =>
      let '(p, w) := GetSoundModelUnloadPayload s w in Some (payload_answer p, w)
  | GET_WAKEUP_CONFIG s => '(p, w) ← GetWakeUpPayload s w; Some (payload_answer p, w)
  | GET_BUFFERING_CONFIG s => '(p, w) ← GetBufferingPayload s w; Some (payload_answer p, w)
  | GET_ENGINE_RESET s =>
      let '(p, w) := GetEngineResetPayload s w in Some (payload_answer p, w)
  | GET_MMA_MODE_BIT_CONFIG => pure (payload_answer (GetMMAModeBitPayload w))
  | GET_TIUV_THRESHOLD_CONFIG => pure (payload_answer (GetTIUVThresholdConfig w))
  | GET_BUFFERING_MODE_CONFIG => got (GotMode (hist_cap_mode_config_ w))
  | GET_MMAP_BYTES_TO_READ => got (GotWord (bytes_to_read_ w))
  | GET_MMAP_START_POSITION => got (GotWord (start_position_ w))
  | GET_UNSUPPORTED => got GotNothing
  end.

End events.
