(* ===== verification/SvaEventFacts.v ===== *)
(** * Voice UI interface: every call keeps the interface well formed

    The operations on detection events and client's events keep the invariant of
    SvaModelsFacts, and with them every call of the interface: histories of clients and
    engines are any sequences of calls. *)

From S2P Require Import Prelude PalDefs SoundTriggerState.
From S2P Require Import SvaState.
From S2P Require Import SvaConfig.
From S2P Require Import SvaModels.
From S2P Require Import SvaModelsFacts.
From S2P Require Import SvaEvent.

Section events.
Context `{env : !SvaEnv, osal : !Osal, osal_spec : !OsalSpec osal}.
Hypothesis memory : ∀ n, calloc_ok n = true.
Hypothesis header_counts : ∀ d,
  0 ≤ numKeywords (GetSoundModelHeader d).2 < 2 ^ 16 ∧
  0 ≤ numUsers (GetSoundModelHeader d).2 < 2 ^ 16 ∧
  0 ≤ numActiveUserKeywordPairs (GetSoundModelHeader d).2 < 2 ^ 16.

(** ** Events taken in *)

(** What each part keeps, the loop keeps. *)
Lemma event_loop_keeps {S R} (I : S → Prop) (event : list Z) n
    (body : Z → Z → S → option (R + S * bool)) :
  (∀ key ptr v v' over, I v → body key ptr v = Some (inr (v', over)) → I v') →
  ∀ fuel parsed ptr v v', I v →
  event_loop fuel event n parsed ptr body v = Some (inr v') → I v'.
Proof.
  intros Hb. induction fuel as [|fuel IH]; intros parsed ptr v v' Hv He; cbn [event_loop] in He;
    (case_match; [by simplify_eq|]); [done|].
  apply bind_Some in He as ([key size]&_&He). apply bind_Some in He as (r&Hr&He).
  destruct r as [|[v1 over]]; [done|]. eapply IH; [|done]. by eapply Hb.
Qed.

(** The fuel is enough: with a byte per iteration the loop has left the event. *)
Lemma event_loop_enough {S R} (event : list Z) n (body : Z → Z → S → option (R + S * bool)) :
  0 < sizeof_event_header →
  (∀ b key size, ev_header b = Some (key, size) → b ≠ [] ∧ 0 ≤ size) →
  ∀ fuel extra parsed ptr v, 0 ≤ ptr → zlen event ≤ ptr + Z.of_nat fuel →
  event_loop (fuel + extra) event n parsed ptr body v =
  event_loop fuel event n parsed ptr body v.
Proof.
  intros Hh Hev. induction fuel as [|fuel IH]; intros extra parsed ptr v Hp Hn.
  - destruct extra; [done|]. simpl. case_match; [done|].
    assert (drop (Z.to_nat ptr) event = []) as -> by (apply drop_ge; unfold zlen in Hn; lia).
    destruct (ev_header []) as [[key size]|] eqn:He; [|done]. by apply Hev in He as [? _].
  - cbn [event_loop Nat.add]. case_match; [done|].
    destruct (ev_header _) as [[key size]|] eqn:He; [|done]. apply Hev in He as [_ Hs].
    cbn [mbind option_bind]. destruct (body _ _ _) as [[r|[v' over]]|]; [done| |done].
    cbn [mbind option_bind]. apply IH; lia.
Qed.

Lemma copy_confidence_length part n : ∀ i l l',
  copy_confidence part n i l = Some l' → length l' = length l.
Proof.
  induction n as [|n IH]; intros i l l' Hc; simpl in Hc; [by simplify_eq|].
  apply bind_Some in Hc as (v&_&Hc). case_decide; [|done]. apply IH in Hc.
  by rewrite length_insert in Hc.
Qed.

Lemma copy_stats_length event ptr n : ∀ i l l',
  copy_stats event ptr n i l = Some l' → length l' = length l.
Proof.
  induction n as [|n IH]; intros i l l' Hc; simpl in Hc; [by simplify_eq|].
  apply bind_Some in Hc as (m&_&Hc). case_decide; [|done]. apply IH in Hc.
  by rewrite length_insert in Hc.
Qed.

Lemma put_event_ok s e w : event_ok e → sva_ok w → sva_ok (put_event s e w).
Proof.
  intros He [H1 H2 H3 H4]. split; [done..|]. intros s' o. unfold put_event. simpl.
  destruct (decide (s' = s)) as [->|]; [rewrite lookup_insert_eq; intros [= <-]; eauto|].
  rewrite lookup_insert_ne by done. apply H4.
Qed.

Lemma event_of_ok s w e : sva_ok w → event_of s w = Some e → event_ok e.
Proof.
  unfold event_of. intros Hw He. destruct (det_event_info_ w !! s) as [o|] eqn:Ho; [|done].
  simpl in He. subst o. by destruct (ok_events w Hw s _ Ho) as (e'&[= <-]&?).
Qed.

Lemma UpdateKeywordIndex_ok s a b c w w' : sva_ok w →
  UpdateKeywordIndex s a b c w = Some w' → sva_ok w'.
Proof.
  unfold UpdateKeywordIndex. intros Hw Hu. case_match; [by simplify_eq|].
  case_match; [|by simplify_eq]. apply bind_Some in Hu as (e&He&Hu). simplify_eq.
  apply put_event_ok; [|done]. by apply event_of_ok in He.
Qed.

Lemma ParseDetectionPayloadPDK_ok s event w st w' : sva_ok w →
  ParseDetectionPayloadPDK s event w = Some (st, w') → sva_ok w'.
Proof.
  unfold ParseDetectionPayloadPDK. intros Hw Hp. apply bind_Some in Hp as (g&_&Hp).
  case_decide; [by simplify_eq|]. rewrite memory in Hp. cbn [negb] in Hp.
  apply bind_Some in Hp as ([st1|[[i id] ftrt]]&Hl&Hp); [by simplify_eq|].
  apply bind_Some in Hp as (m&_&Hp). apply bind_Some in Hp as (w1&Hu&Hp). simplify_eq.
  eapply UpdateKeywordIndex_ok; [|done]. apply put_event_ok; [|done]. unfold event_ok. simpl.
  eapply (event_loop_keeps (λ v : detection_event_info_pdk * Z * Z,
    zlen (detected_model_stats v.1.1) = MAX_MODELS_SUPPORTED)) in Hl; [exact Hl| |done].
  clear. intros key ptr [[i id] ftrt] v' over Hi Hb. simpl in Hi.
  case_decide; [apply bind_Some in Hb as (us&_&Hb); by simplify_eq|].
  case_decide; [|by simplify_eq]. apply bind_Some in Hb as (n&_&Hb).
  apply bind_Some in Hb as (m&_&Hb). apply bind_Some in Hb as (l&Hl&Hb). simplify_eq. simpl.
  apply copy_stats_length in Hl. unfold zlen in *. lia.
Qed.

Lemma ParseDetectionPayloadGMM_ok s event w st w' : sva_ok w →
  ParseDetectionPayloadGMM s event w = Some (st, w') → sva_ok w'.
Proof.
  unfold ParseDetectionPayloadGMM. intros Hw Hp. apply bind_Some in Hp as (g&_&Hp).
  case_decide; [by simplify_eq|]. rewrite memory in Hp. cbn [negb] in Hp.
  apply bind_Some in Hp as ([st1|[i ftrt]]&Hl&Hp); [by simplify_eq|].
  apply bind_Some in Hp as (w1&Hu&Hp). simplify_eq.
  eapply UpdateKeywordIndex_ok; [|done]. apply put_event_ok; [|done]. unfold event_ok. simpl.
  eapply (event_loop_keeps (λ v : detection_event_info * Z,
    length (confidence_levels v.1) = 20%nat)) in Hl; [exact Hl| |done].
  clear. intros key ptr [i ftrt] v' over Hi Hb. simpl in Hi.
  case_decide.
  { apply bind_Some in Hb as (n&_&Hb). apply bind_Some in Hb as (l&Hl&Hb). simplify_eq. simpl.
    by apply copy_confidence_length in Hl as ->. }
  case_decide; [apply bind_Some in Hb as ([[[??]?]?]&_&Hb); by simplify_eq|].
  case_decide; [apply bind_Some in Hb as (t&_&Hb); by simplify_eq|].
  case_decide; [apply bind_Some in Hb as (us&_&Hb); by simplify_eq|]. by simplify_eq.
Qed.

Lemma ParseDetectionPayloadMMA_ok s event w st w' : sva_ok w →
  ParseDetectionPayloadMMA s event w = Some (st, w') → sva_ok w'.
Proof.
  unfold ParseDetectionPayloadMMA. intros Hw Hp. rewrite memory in Hp. cbn [negb] in Hp.
  apply bind_Some in Hp as (b&Hb&Hp). simplify_eq. apply put_event_ok; [|done].
  unfold event_ok. simpl. apply slice_length in Hb. by rewrite ar_mem_cpy_fits by lia.
Qed.

Lemma det_level_of_name_frame name v names : ∀ j i i', smi_ok i →
  det_level_of_name name v j names i = Some i' →
  smi_ok i' ∧ ∃ x, i' = set_det_cf_levels_ x i.
Proof.
  induction names as [|n names IH]; intros j i i' Hi Hd; simpl in Hd.
  { simplify_eq. split; [done|]. exists (det_cf_levels_ i'). by destruct i'. }
  apply bind_Some in Hd as (i1&H1&Hd).
  assert (smi_ok i1 ∧ ∃ x, i1 = set_det_cf_levels_ x i) as (Hi1&x&->).
  { case_decide; [|simplify_eq; split; [done|]; exists (det_cf_levels_ i1); by destruct i1].
    unfold UpdateDetConfLevel in H1. case_match.
    2: { simplify_eq. split; [done|]. exists (det_cf_levels_ i1). by destruct i1. }
    apply bind_Some in H1 as (l&Hl&H1). simplify_eq. split; [|eauto].
    destruct Hi as [? ? ? [Ha Hb] ? ? ?]. rewrite Hl in Ha, Hb. split; simpl; try done.
    split; [by apply array_ok_insert|]. intros ? [= <-]. by apply Forall_insert_byte, Hb. }
  apply IH in Hd as (?&y&->); [|done]. split; [done|]. by exists y.
Qed.

Lemma det_levels_frame enames : ∀ levels names i i', smi_ok i →
  det_levels enames levels names i = Some i' → smi_ok i' ∧ ∃ x, i' = set_det_cf_levels_ x i.
Proof.
  induction enames as [|n enames IH]; intros levels names i i' Hi Hd; simpl in Hd.
  { simplify_eq. split; [done|]. exists (det_cf_levels_ i'). by destruct i'. }
  destruct levels as [|v levels]; [done|]. apply bind_Some in Hd as (i1&H1&Hd).
  assert (smi_ok i1 ∧ ∃ x, i1 = set_det_cf_levels_ x i) as (Hi1&x&->).
  { case_decide; [simplify_eq; split; [done|]; exists (det_cf_levels_ i1); by destruct i1|].
    by apply det_level_of_name_frame in H1. }
  apply IH in Hd as (?&y&->); [|done]. split; [done|]. by exists y.
Qed.

Lemma ResetDetConfLevels_frame i i' : smi_ok i → ResetDetConfLevels i = Some i' →
  smi_ok i' ∧ ∃ x, i' = set_det_cf_levels_ x i.
Proof.
  unfold ResetDetConfLevels. intros Hi Hr. case_decide.
  { simplify_eq. split; [done|]. exists (det_cf_levels_ i'). by destruct i'. }
  apply bind_Some in Hr as (l&Hl&Hr). simplify_eq. split; [|eauto].
  destruct Hi as [? ? ? [Ha Hb] ? ? ?]. rewrite Hl in Ha, Hb. split; simpl; try done. split.
  - destruct Ha as [|(l'&[= <-]&Hn)]; [by left|]. apply array_ok_Some. unfold zlen in *.
    by rewrite length_replicate.
  - intros ? [= <-]. by apply Forall_replicate.
Qed.

(** The stream's levels that were detected are all that changes. *)
Lemma CheckAndSetDetectionConfLevels_frame so w w' : sva_ok w →
  CheckAndSetDetectionConfLevels so w = Some w' →
  w' = w ∨ ∃ s i x, GetSoundModelInfo s w = Some i ∧ smi_ok (set_det_cf_levels_ x i) ∧
                    w' = put_sound_model_info s (set_det_cf_levels_ x i) w.
Proof.
  unfold CheckAndSetDetectionConfLevels. intros Hw Hc. destruct so as [s|]; [|simplify_eq; auto].
  apply bind_Some in Hc as (e&_&Hc). apply bind_Some in Hc as (ev&_&Hc).
  case_match; [simplify_eq; auto|]. apply bind_Some in Hc as (i&Hi&Hc).
  pose proof (GetSoundModelInfo_ok s w i Hw Hi) as Hok.
  apply bind_Some in Hc as (i1&H1&Hc). apply ResetDetConfLevels_frame in H1 as (H1&x&->); [|done].
  apply bind_Some in Hc as (en&_&Hc). apply bind_Some in Hc as (ns&_&Hc).
  apply bind_Some in Hc as (i2&H2&Hc). apply det_levels_frame in H2 as (H2&y&->); [|done].
  simplify_eq. right. by exists s, i, y.
Qed.

Lemma ParseDetectionPayload_ok s event w st w' : sva_ok w →
  ParseDetectionPayload s event w = Some (st, w') → sva_ok w'.
Proof.
  unfold ParseDetectionPayload. intros Hw Hp. case_decide; [by simplify_eq|].
  case_decide.
  { apply bind_Some in Hp as ([st1 w1]&H1&Hp). apply ParseDetectionPayloadGMM_ok in H1; [|done].
    apply bind_Some in Hp as (so&_&Hp). apply bind_Some in Hp as (w2&H2&Hp). simplify_eq.
    apply CheckAndSetDetectionConfLevels_frame in H2 as [->|(s1&i&x&_&?&->)]; [done| |done].
    by apply put_sound_model_info_ok. }
  case_match; [by eapply ParseDetectionPayloadPDK_ok|].
  case_decide; [by eapply ParseDetectionPayloadMMA_ok|by simplify_eq].
Qed.

(** ** Events for clients *)

(** Only the buffer of the keyword is taken off the stream. *)
Lemma fill_props_frame pm keys : ∀ info b info',
  fill_props pm keys info = Some (b, info') →
  info' = info ∨ info' = set_ftrt_data_size_ 0 (set_ftrt_data_ None info).
Proof.
  induction keys as [|key keys IH]; intros info b info' Hf; simpl in Hf; [simplify_eq; auto|].
  apply bind_Some in Hf as ([b1 i1]&H1&Hf). apply bind_Some in Hf as ([b2 i2]&H2&Hf). simplify_eq.
  assert (i1 = info ∨ i1 = set_ftrt_data_size_ 0 (set_ftrt_data_ None info)) as H3.
  { unfold fill_prop in H1. case_decide; [|repeat (case_decide; [|]); simplify_eq; auto].
    case_match; [|simplify_eq; auto]. apply bind_Some in H1 as (b&_&H1). simplify_eq. auto. }
  apply IH in H2 as [->| ->]; destruct H3 as [->| ->]; auto.
Qed.

Lemma FillExtendedDetectionPayload_frame s size w b w' :
  FillExtendedDetectionPayload s size w = Some (b, w') →
  w' = w ∨ ∃ info, registered s w = Some info ∧
    (w' = update_info s (λ _, info) w ∨
     w' = update_info s (λ _, set_ftrt_data_size_ 0 (set_ftrt_data_ None info)) w).
Proof.
  unfold FillExtendedDetectionPayload. intros Hf. case_decide; [simplify_eq; auto|].
  case_match; [|simplify_eq; auto]. apply bind_Some in Hf as ([b1 info']&H1&Hf). simplify_eq.
  right. apply fill_props_frame in H1 as [->| ->]; eauto.
Qed.

Lemma FillExtendedDetectionPayload_ok s size w b w' : sva_ok w →
  FillExtendedDetectionPayload s size w = Some (b, w') → sva_ok w'.
Proof.
  intros Hw Hf. apply FillExtendedDetectionPayload_frame in Hf as [->|(info&Hr&[->| ->])]; [done| |];
    (apply update_info_ok; [done|]); intros info' Hr' Hok; simplify_eq; [done|].
  destruct Hok. by split.
Qed.

(** The stream's read offset and the entry of its history are set, and the buffer taken. *)
Lemma PackDetectionOpaqueData_frame s ext w st b w' :
  PackDetectionOpaqueData s ext w = Some (st, b, w') →
  ∃ ro oh c b', FillExtendedDetectionPayload s c (set_readOffsets_ ro
                  (set_origin_hist_buf_duration_ oh w)) = Some (b', w').
Proof.
  assert (∀ w1 : SVAInterface, ∃ ro oh b',
    FillExtendedDetectionPayload s 0 (set_readOffsets_ ro (set_origin_hist_buf_duration_ oh w1)) =
    Some (b', w1)) as Hnone.
  { intros w1. exists (readOffsets_ w1), (origin_hist_buf_duration_ w1), []. by destruct w1. }
  unfold PackDetectionOpaqueData. intros Hp. case_decide.
  { apply bind_Some in Hp as (e&_&Hp). apply bind_Some in Hp as (i&_&Hp).
    apply bind_Some in Hp as (b1&_&Hp). apply bind_Some in Hp as ([b2 w2]&Hf&Hp). simplify_eq.
    exists (readOffsets_ w), (origin_hist_buf_duration_ w), ext, b2. by destruct w. }
  case_decide.
  { simplify_eq. destruct (Hnone w') as (?&?&?&?). eauto. }
  apply bind_Some in Hp as (info&_&Hp). apply bind_Some in Hp as (e&_&Hp).
  apply bind_Some in Hp as (c&_&Hp). apply bind_Some in Hp as ([c1 t]&_&Hp).
  apply bind_Some in Hp as ([b2 w2]&Hf&Hp). simplify_eq. unfold SetReadOffset in Hf.
  destruct (from_option capture_requested false (rec_config info)); eexists _, _, ext, b2.
  - exact Hf.
  - replace w with (set_origin_hist_buf_duration_ (origin_hist_buf_duration_ w) w) in Hf
      by (by destruct w). exact Hf.
Qed.

Lemma PackDetectionOpaqueData_ok s ext w st b w' : sva_ok w →
  PackDetectionOpaqueData s ext w = Some (st, b, w') → sva_ok w'.
Proof.
  intros Hw Hp. apply PackDetectionOpaqueData_frame in Hp as (ro&oh&c&b'&Hf).
  eapply FillExtendedDetectionPayload_ok; [|done]. by destruct Hw; split.
Qed.

Lemma GenerateCallbackEvent_keeps (I : SVAInterface → Prop) n m s w st e w' :
  (∀ ext st b w', PackDetectionOpaqueData s ext w = Some (st, b, w') → I w') → I w →
  GenerateCallbackEvent n m s w = Some (st, e, w') → I w'.
Proof.
  unfold GenerateCallbackEvent. intros HI Hw Hg. case_match; [|by simplify_eq].
  case_decide.
  { rewrite memory in Hg. cbn [negb] in Hg. case_match; [|by simplify_eq].
    apply bind_Some in Hg as (ph&_&Hg). apply bind_Some in Hg as ([[st1 b] w1]&Hp&Hg).
    apply bind_Some in Hg as (b1&_&Hg). simplify_eq. by eapply HI. }
  case_decide; [|by simplify_eq]. rewrite memory in Hg. cbn [negb] in Hg.
  apply bind_Some in Hg as (c&_&Hg). apply bind_Some in Hg as ([[st1 b] w1]&Hp&Hg).
  apply bind_Some in Hg as (b1&_&Hg). simplify_eq.
  case_decide; [by simplify_eq|]. by eapply HI.
Qed.

(** ** The interface's calls *)

Inductive IntfOp :=
  | OpRegister (s : positive) (m : pal_st_sound_model) (parts : list sound_model_data)
  | OpDeregister (s : positive)
  | OpSet (p : IntfParam)
  | OpGet (q : IntfQuery).

(** Opaque data are bytes, the size of a buffer is a word. *)
Definition op_typed (op : IntfOp) : Prop :=
  match op with
  | OpSet (PARAM_RECOGNITION_CONFIG _ (Some c)) => Forall byte_ok (rc_data c)
  | OpSet (PARAM_FTRT_DATA _ d) => zlen d < 2 ^ 32
  | _ => True
  end.

Variables (pdk_header : Z → list Z → list Z) (mma_header : list Z → list Z)
          (sizeof_phrase_event sizeof_generic_event : Z).

Definition run_op (op : IntfOp) (w : SVAInterface) : option SVAInterface :=
  match op with
  | OpRegister s m parts => snd <$> RegisterModel s m parts w
  | OpDeregister s => Some (DeregisterModel s w)
  | OpSet p => snd <$> SetParameter p w
  | OpGet q => snd <$> GetParameter pdk_header mma_header sizeof_phrase_event
                         sizeof_generic_event q w
  end.

Fixpoint run_ops (ops : list IntfOp) (w : SVAInterface) : option SVAInterface :=
  match ops with [] => Some w | op :: ops => w ← run_op op w; run_ops ops w end.

Lemma update_info_keeps s f w :
  (∀ mt info, info_ok mt info → info_ok mt (f info)) → sva_ok w → sva_ok (update_info s f w).
Proof. intros Hf Hw. apply update_info_ok; [done|]. auto. Qed.

Lemma SetSecondStageDetStats_ok s type d l w w' : sva_ok w →
  SetSecondStageDetStats s type d l w = Some w' → sva_ok w'.
Proof.
  unfold SetSecondStageDetStats. intros Hw Hs. case_match; [|by simplify_eq].
  destruct d as [b|].
  - case_decide.
    { apply bind_Some in Hs as (b1&Hb%slice_length&Hs). simplify_eq.
      apply update_info_keeps; [|done]. intros mt info [????[??]]. by split. }
    case_decide; [|by simplify_eq]. case_decide; apply bind_Some in Hs as (b1&Hb%slice_length&Hs);
      simplify_eq; [by destruct Hw; split|].
    apply update_info_keeps; [|done]. intros mt info [????[??]]. by split.
  - simplify_eq. apply update_info_keeps; [|done]. intros mt info []. by split.
Qed.

Lemma UpdateFtrtData_ok s d w : zlen d < 2 ^ 32 → sva_ok w → sva_ok (UpdateFtrtData s d w).
Proof.
  intros Hd Hw. unfold UpdateFtrtData. case_decide; [done|]. case_match; [|done].
  rewrite memory. apply update_info_keeps; [|done]. intros mt info []. split; try done. simpl.
  split; [pose proof (zlen_nonneg d); lia|]. by intros ? [= <-].
Qed.

Lemma SetParameter_ok p w st w' : op_typed (OpSet p) → sva_ok w →
  SetParameter p w = Some (st, w') → sva_ok w'.
Proof.
  intros Ht Hw Hp. destruct p; simpl in Hp;
    try (apply bind_Some in Hp as (w1&H1&Hp); apply SetSecondStageDetStats_ok in H1; [|done];
         by simplify_eq).
  - case_decide; [|by simplify_eq]. by eapply AddSoundModel_ok.
  - case_decide; [|by simplify_eq]. by eapply DeleteSoundModel_ok.
  - simplify_eq. apply update_info_keeps; [|done]. intros ?? []. by split.
  - by eapply SetModelState_ok.
  - simplify_eq. apply update_info_keeps; [|done]. intros ?? []. by split.
  - eapply ParseRecognitionConfig_ok; [exact memory| |done|done]. intros c' ->. done.
  - by eapply ParseDetectionPayload_ok.
  - simplify_eq. apply update_info_keeps; [|done]. intros ?? []. by split.
  - apply bind_Some in Hp as (w1&H1&Hp). simplify_eq. unfold UpdateIndices in H1.
    destruct (det_event_info_ w !! s) as [o|] eqn:Ho; [|by simplify_eq].
    apply bind_Some in H1 as (e&->&H1). simplify_eq. apply put_event_ok; [|done].
    destruct (ok_events w Hw s _ Ho) as (e'&[= <-]&He). exact He.
  - simplify_eq. by destruct Hw; split.
  - destruct attr; simplify_eq; [by destruct Hw; split|done].
  - simplify_eq. by destruct Hw; split.
  - simplify_eq. unfold SetDetectionPropList. case_match; [|done]. simpl.
    apply update_info_keeps; [|done]. intros ?? []. by split.
  - simplify_eq. by apply UpdateFtrtData_ok.
  - simplify_eq. by destruct Hw; split.
  - unfold SetBufferingModeConfig in Hp. repeat (case_decide; [|]); simplify_eq; try done.
    by destruct Hw; split.
  - simplify_eq. by destruct Hw; split.
  - simplify_eq. by destruct Hw; split.
  - by simplify_eq.
Qed.

Lemma GetParameter_ok q w st a w' : sva_ok w →
  GetParameter pdk_header mma_header sizeof_phrase_event sizeof_generic_event q w =
  Some (st, a, w') → sva_ok w'.
Proof.
  intros Hw Hg. destruct q; simpl in Hg; try (by simplify_eq);
    try (repeat case_match; try apply bind_Some in Hg as (?&?&Hg); by simplify_eq).
  - case_match; [done|]. case_decide; [|by simplify_eq].
    apply bind_Some in Hg as (e&_&Hg). apply bind_Some in Hg as (i&_&Hg).
    apply bind_Some in Hg as (v&_&Hg). by simplify_eq.
  - apply bind_Some in Hg as ([[st1 e] w1]&H1&Hg). simplify_eq.
    eapply GenerateCallbackEvent_keeps; [|exact Hw|exact H1]. intros ????.
    by apply PackDetectionOpaqueData_ok.
  - simplify_eq. by destruct Hw; split.
  - unfold GetSoundModelUnloadPayload in Hg. repeat case_match; simplify_eq; try done.
    by destruct Hw; split.
  - apply bind_Some in Hg as ([p1 w1]&Hr&Hg). simplify_eq. unfold GetWakeUpPayload in Hr.
    destruct (sm_info_map_ w !! s); [|by simplify_eq].
    apply bind_Some in Hr as ([b|]&_&Hr); [|by simplify_eq]. rewrite memory in Hr.
    simplify_eq. by destruct Hw; split.
  - apply bind_Some in Hg as ([p1 w1]&Hr&Hg). simplify_eq. unfold GetBufferingPayload in Hr.
    case_decide.
    { apply bind_Some in Hr as (c&_&Hr). simplify_eq. by destruct Hw; split. }
    case_match; [case_match; simplify_eq; by destruct Hw; split|].
    case_decide; [|by simplify_eq]. case_match; simplify_eq; by destruct Hw; split.
  - unfold GetEngineResetPayload in Hg. repeat case_match; simplify_eq; by destruct Hw; split.
Qed.

Lemma run_op_ok op w w' : op_typed op → sva_ok w → run_op op w = Some w' → sva_ok w'.
Proof.
  intros Ht Hw Hr. destruct op; simpl in Hr.
  - apply fmap_Some in Hr as ([st w1]&Hr&->). by eapply RegisterModel_ok.
  - simplify_eq. by apply DeregisterModel_ok.
  - apply fmap_Some in Hr as ([st w1]&Hr&->). by eapply SetParameter_ok.
  - apply fmap_Some in Hr as ([[st a] w1]&Hr&->). by eapply GetParameter_ok.
Qed.

Lemma run_ops_ok ops : Forall op_typed ops → ∀ w0 w, sva_ok w0 →
  run_ops ops w0 = Some w → sva_ok w.
Proof.
  induction 1 as [|op ops Hop _ IH]; intros w0 w Hw0 Hr; simpl in Hr; [by simplify_eq|].
  apply bind_Some in Hr as (w1&Hr1&Hr). apply run_op_ok in Hr1; [|done..]. eauto.
Qed.

(** C13: The interface stays well formed: after any history of registrations,
    deregistrations, parameters set and asked for and detection events, with any statuses,
    that is defined (nothing in it reads or writes outside its block) and in which
    allocations succeed, with opaque data that are bytes: the arrays of every model, stream
    and event and of the engine are as long as their counts say and hold bytes, and no
    registered stream and no kept event has lost its structure.  (A registration whose
    allocation fails leaves a stream without its structure.) *)
Theorem interface_well_formed u mt ops w :
  Forall op_typed ops → run_ops ops (sva_construct u mt) = Some w → sva_ok w.
Proof. intros Ht. apply run_ops_ok; [done|]. apply sva_construct_ok. Qed.
End events.

(** ** At a concrete input *)

Module SvaEventDemo.
Import SvaDemo BoundedCopy SvaModelsDemo.

Definition demo_run := run_ops (λ id b, le_bytes 4 id ++ b) (λ b, b) 200 100.

(** Two streams with a keyword each, merged; the first is started. *)
Definition demo_ops : list IntfOp :=
  [OpRegister 1 (demo_model 1) []; OpSet (PARAM_FSTAGE_SOUND_MODEL_ADD 1 [65]);
   OpRegister 2 (demo_model 1) []; OpSet (PARAM_FSTAGE_SOUND_MODEL_ADD 2 [66]);
   OpSet (PARAM_RECOGNITION_CONFIG 1 (Some (demo_config [70])));
   OpSet (PARAM_RECOGNITION_CONFIG 2 (Some (demo_config [80])));
   OpSet (PARAM_FSTAGE_SOUND_MODEL_STATE 1 true)].

(** The first stream's keyword is detected with the level 75, one second after the start
    of the buffered audio. *)
Definition demo_event : list Z :=
  le_bytes 4 0 ++ le_bytes 4 54 ++
  le_bytes 4 KEY_ID_CONFIDENCE_LEVELS_INFO ++ le_bytes 4 6 ++ le_bytes 4 2 ++ [75; 0] ++
  le_bytes 4 KEY_ID_KWD_POSITION_INFO ++ le_bytes 4 16 ++
  le_bytes 4 3000000 ++ le_bytes 4 0 ++ le_bytes 4 3500000 ++ le_bytes 4 0 ++
  le_bytes 4 KEY_ID_TIMESTAMP_INFO ++ le_bytes 4 8 ++ le_bytes 4 4000000 ++ le_bytes 4 0.

Lemma interface_well_formed_witness :
  ∃ w, demo_run (demo_ops ++ [OpSet (PARAM_DETECTION_EVENT 1 demo_event);
                              OpGet (GET_DETECTION_EVENT 1)])
         (sva_construct demo_uninit ST_MODULE_TYPE_GMM) = Some w ∧ sva_ok w.
Proof.
  eexists. split; [vm_compute; reflexivity|].
  apply (interface_well_formed memory header_counts (λ id b, le_bytes 4 id ++ b) (λ b, b) 200 100
    demo_uninit ST_MODULE_TYPE_GMM (demo_ops ++ [OpSet (PARAM_DETECTION_EVENT 1 demo_event);
                              OpGet (GET_DETECTION_EVENT 1)])).
  - repeat constructor.
  - vm_compute. reflexivity.
Defined.
End SvaEventDemo.
