(* ===== verification/SvaEventSpec.v ===== *)
(** * Voice UI interface: what a client's event reports

    A reference for the opaque data of the event built for the client of a keyword model:
    the structure of the levels with the detected levels in it, the keyword's position,
    the time of the detection and the properties asked for.  GenerateCallbackEvent is
    shown to be defined, to fill its block with exactly these parameters, in this order,
    and to leave nothing but zeros behind them. *)

From S2P Require Import Prelude PalDefs SoundTriggerState.
From S2P Require Import SvaState.
From S2P Require Import SvaConfig.
From S2P Require Import SvaModels.
From S2P Require Import SvaModelsFacts.
From S2P Require Import SvaCodecFacts.
From S2P Require Import SvaEvent.
From S2P Require Import SvaEventFacts.

Local Open Scope st_scope.

(** ** Arrays of which the first elements count *)

(** [f] gives the first [n] elements, with their index, [g] the others. *)
Definition first_then {A B} (n : Z) (f : Z → A → B) (g : A → B) (l : list A) : list B :=
  imap (λ j x, if decide (Z.of_nat j < n) then f (Z.of_nat j) x else g x) l.

Lemma first_then_length {A B} n (f : Z → A → B) g l : length (first_then n f g l) = length l.
Proof. apply length_imap. Qed.

Lemma first_then_lookup {A B} n (f : Z → A → B) g l j :
  first_then n f g l !! j =
  (λ x, if decide (Z.of_nat j < n) then f (Z.of_nat j) x else g x) <$> l !! j.
Proof. apply list_lookup_imap. Qed.

Lemma first_then_compose {A B C} n (f : Z → B → C) (g : B → C) (f' : Z → A → B) (g' : A → B) l :
  first_then n f g (first_then n f' g' l) =
  first_then n (λ j x, f j (f' j x)) (λ x, g (g' x)) l.
Proof.
  apply list_eq. intros j. rewrite !first_then_lookup. destruct (l !! j); simpl; [|done].
  by case_decide.
Qed.

Lemma first_then_ext {A B} n (f f' : Z → A → B) g g' l :
  (∀ j x, l !! j = Some x → Z.of_nat j < n → f (Z.of_nat j) x = f' (Z.of_nat j) x) →
  (∀ x, g x = g' x) → first_then n f g l = first_then n f' g' l.
Proof.
  intros Hf Hg. apply list_eq. intros j. rewrite !first_then_lookup.
  destruct (l !! j) eqn:Hx; simpl; [|done]. case_decide; f_equal; auto.
Qed.

Lemma first_then_elem {A B} n (f : Z → A → B) g l y :
  y ∈ first_then n f g l → ∃ j x, l !! j = Some x ∧ (y = f (Z.of_nat j) x ∨ y = g x).
Proof.
  intros [j Hj]%list_elem_of_lookup. rewrite first_then_lookup in Hj.
  apply fmap_Some in Hj as (x&Hx&->). exists j, x. split; [done|]. case_decide; auto.
Qed.

Lemma mapM_total {A B} (F : A → option B) (f : Z → A → B) l : ∀ k : Z,
  (∀ j x, l !! j = Some x → F x = Some (f (k + Z.of_nat j) x)) →
  mapM F l = Some (imap (λ j x, f (k + Z.of_nat j) x) l).
Proof.
  induction l as [|x l IH]; intros k HF; [done|]. simpl. rewrite (HF 0%nat x) by done. simpl.
  rewrite (IH (k + 1)). 
  2: { intros j y Hy. rewrite (HF (S j) y) by done. do 2 f_equal. lia. }
  simpl. f_equal. f_equal. apply imap_ext. intros j y _. simpl. f_equal. lia.
Qed.

Lemma map_first_total {A} n (F : A → option A) (f : Z → A → A) g l :
  0 ≤ n ≤ zlen l →
  (∀ j x, l !! j = Some x → Z.of_nat j < n → F x = Some (f (Z.of_nat j) x)) →
  map_first n F g l = Some (first_then n f g l).
Proof.
  intros Hn HF. unfold map_first. destruct (Z.leb_spec n (zlen l)); [|lia].
  rewrite (mapM_total F f _ 0).
  2: { intros j x Hx. apply lookup_take_Some in Hx as [Hx Hj]. apply HF; [done|lia]. }
  simpl. f_equal. apply list_eq. intros j. rewrite first_then_lookup. unfold zlen in *.
  destruct (decide (Z.of_nat j < n)) as [Hj|Hj].
  - rewrite lookup_app_l by (rewrite length_imap, length_take; lia).
    rewrite list_lookup_imap, lookup_take_lt by lia. by destruct (l !! j).
  - rewrite lookup_app_r by (rewrite length_imap, length_take; lia).
    rewrite length_imap, length_take, list_lookup_fmap, lookup_drop.
    replace (Z.to_nat n + (j - Z.to_nat n `min` length l))%nat with j by lia. done.
Qed.

(** ** The reference *)

(** Arrays as the compiler lays them out, with any contents. *)
Definition keyword_full (k : st_keyword_levels) : Prop :=
  length (user_levels k) = ST_MAX_ENTRIES.
Definition model_full (m : st_sound_model_conf_levels) : Prop :=
  length (kw_levels m) = ST_MAX_ENTRIES ∧ ∀ k, k ∈ kw_levels m → keyword_full k.
Definition info_full (c : st_confidence_levels_info) : Prop :=
  length (conf_levels c) = ST_MAX_ENTRIES ∧ ∀ m, m ∈ conf_levels c → model_full m.

(** Counts within the arrays, and the slots of a first stage model within its levels. *)
Definition keyword_counts (k : st_keyword_levels) : Prop :=
  0 ≤ num_user_levels k ≤ Z.of_nat ST_MAX_ENTRIES.
Definition keyword_slots (size : Z) (k : st_keyword_levels) : Prop :=
  ∀ j u, user_levels k !! j = Some u → Z.of_nat j < num_user_levels k → 0 ≤ user_id u < size.
Definition model_counts (size : Z) (m : st_sound_model_conf_levels) : Prop :=
  0 ≤ num_kw_levels m ≤ Z.of_nat ST_MAX_ENTRIES ∧
  (sm_id m = ST_SM_ID_SVA_F_STAGE_GMM → num_kw_levels m ≤ size) ∧
  ∀ j k, kw_levels m !! j = Some k → Z.of_nat j < num_kw_levels m →
    keyword_counts k ∧ (sm_id m = ST_SM_ID_SVA_F_STAGE_GMM → keyword_slots size k).
Definition info_counts (size : Z) (c : st_confidence_levels_info) : Prop :=
  0 ≤ num_sound_models c ≤ Z.of_nat ST_MAX_ENTRIES ∧
  ∀ j m, conf_levels c !! j = Some m → Z.of_nat j < num_sound_models c → model_counts size m.

(** The detected level of a slot. *)
Definition detected (i : SoundModelInfo) (j : Z) : Z :=
  default 0 (det ← det_cf_levels_ i; det !! Z.to_nat j).

Definition report_user (v2 : bool) (i : SoundModelInfo) (u : pal_st_confidence_level) :=
  mkLevel (user_id u) (store_level v2 (detected i (user_id u))).
Definition report_keyword (v2 : bool) (i : SoundModelInfo) (j : Z) (k : st_keyword_levels) :=
  mkKwLevels (store_level v2 (detected i j)) (num_user_levels k)
    (first_then (num_user_levels k) (λ _, report_user v2 i) blank_user (user_levels k)).

(** The levels of the second stages: the last one set for the kind of model, in the first
    keyword and its first user. *)
Definition second_levels (v2 : bool) (id : Z) (p : Z * Z) : option (Z * Z) :=
  let z := store_level v2 p.2 in
  if has_bits id ST_SM_ID_SVA_S_STAGE_KWD && has_bits p.1 ST_SM_ID_SVA_S_STAGE_KWD
  then Some (z, 0)
  else if has_bits id ST_SM_ID_SVA_S_STAGE_USER &&
          (p.1 =? (if v2 then ST_SM_ID_SVA_S_STAGE_USER else id))
  then Some (z, z) else None.
Definition report_second (v2 : bool) (info : sound_model_info) (id : Z) : option (Z * Z) :=
  last (omap (second_levels v2 id) (sec_det_level info)).
Definition put_first (v : option (Z * Z)) (m : st_sound_model_conf_levels) :=
  match v with
  | None => m
  | Some (kw, user) =>
      mkSmLevels (sm_id m) (num_kw_levels m)
        (first_then 1 (λ _ k, mkKwLevels kw (num_user_levels k)
           (first_then 1 (λ _ u, mkLevel (user_id u) user) id (user_levels k))) id (kw_levels m))
  end.

(** The counts and ids, with levels of zero. *)
Definition zero_keyword (k : st_keyword_levels) :=
  mkKwLevels 0 (num_user_levels k)
    (first_then (num_user_levels k) (λ _, init_user) blank_user (user_levels k)).
Definition zero_model (m : st_sound_model_conf_levels) :=
  mkSmLevels (sm_id m) (num_kw_levels m)
    (first_then (num_kw_levels m) (λ _, zero_keyword) blank_keyword (kw_levels m)).

Definition report_model (v2 : bool) (info : sound_model_info) (i : SoundModelInfo)
    (m : st_sound_model_conf_levels) :=
  if decide (sm_id m = ST_SM_ID_SVA_F_STAGE_GMM)
  then mkSmLevels (sm_id m) (num_kw_levels m)
         (first_then (num_kw_levels m) (report_keyword v2 i) blank_keyword (kw_levels m))
  else put_first (report_second v2 info (sm_id m)) (zero_model m).

Definition report_levels (v2 : bool) (info : sound_model_info) (i : SoundModelInfo)
    (c : st_confidence_levels_info) :=
  mkLevelsInfo 0 (num_sound_models c)
    (first_then (num_sound_models c) (λ _, report_model v2 info i) blank_model (conf_levels c)).

(** ** The levels *)

Section spec.
Context `{env : !SvaEnv, osal : !Osal}.

Lemma init_keyword_total k : keyword_full k → keyword_counts k →
  init_keyword k = Some (zero_keyword k).
Proof.
  unfold keyword_full, keyword_counts, init_keyword. intros Hf Hc.
  rewrite (map_first_total _ _ (λ _, init_user)); [done|unfold zlen; lia|done].
Qed.

Lemma init_model_total size m : model_full m → model_counts size m →
  init_model m = Some (zero_model m).
Proof.
  unfold init_model. intros [Hf Hk] (Hc&_&Hn).
  rewrite (map_first_total _ _ (λ _, zero_keyword)); [done|unfold zlen; lia|].
  intros j k Hj Hlt. apply init_keyword_total; [by eapply Hk, list_elem_of_lookup_2|].
  by eapply Hn.
Qed.

Lemma zero_model_full m : model_full m → model_full (zero_model m).
Proof.
  intros [Hf Hk]. split; simpl; [by rewrite first_then_length|].
  intros k (j&k'&Hj&Hor)%first_then_elem. apply list_elem_of_lookup_2, Hk in Hj.
  unfold keyword_full in *. destruct Hor as [->| ->]; simpl;
    by rewrite ?first_then_length, ?length_fmap.
Qed.

Lemma first_then_one {A} (f : Z → A → A) x l : first_then 1 f id (x :: l) = f 0 x :: l.
Proof.
  apply list_eq. intros [|j]; rewrite first_then_lookup; [done|]. simpl.
  destruct (l !! j); simpl; [|done]. by rewrite decide_False by lia.
Qed.

(** [x = y] in the first element of an array. *)
Lemma set_levels_first kw user m : model_full m →
  set_levels_of 0 kw user m = Some (put_first (Some (kw, user)) m).
Proof.
  destruct m as [id num [|k ks]]; intros [Hf Hk]; [done|]. simpl in *.
  assert (keyword_full k) as Hu by (apply Hk; set_solver). unfold keyword_full in Hu.
  unfold set_levels_of, alter_at. simpl. destruct k as [lv nu [|u us]]; [done|]. simpl.
  rewrite first_then_one. simpl. by rewrite first_then_one.
Qed.

Lemma put_first_full v m : model_full m → model_full (put_first v m).
Proof.
  intros [Hf Hk]. destruct v as [[kw user]|]; [|done]. split; simpl; [by rewrite first_then_length|].
  intros k (j&k'&Hj&Hor)%first_then_elem. apply list_elem_of_lookup_2, Hk in Hj.
  unfold keyword_full in *. destruct Hor as [->| ->]; simpl; by rewrite ?first_then_length.
Qed.

Lemma put_first_twice v v' m : put_first (Some v') (put_first v m) = put_first (Some v') m.
Proof.
  destruct v as [[kw user]|], v' as [kw' user']; [|done]. unfold put_first. simpl. f_equal.
  rewrite first_then_compose. apply first_then_ext; [|done]. intros _ k _ _. simpl. f_equal.
  rewrite first_then_compose. by apply first_then_ext.
Qed.

Lemma put_first_none m : put_first None m = m.
Proof. done. Qed.

Lemma for_second_levels v2 F m l : model_full m →
  (∀ p m, F p m = match second_levels v2 (sm_id m) p with
                  | Some (kw, user) => set_levels_of 0 kw user m | None => Some m end) →
  ∀ v, for_det_levels l F (put_first v m) =
  Some (put_first (match last (omap (second_levels v2 (sm_id m)) l) with
                   | Some x => Some x | None => v end) m).
Proof.
  intros Hf HF. induction l as [|p l IH]; intros v; [done|]. simpl. rewrite HF.
  assert (sm_id (put_first v m) = sm_id m) as -> by (by destruct v as [[]|]).
  destruct (second_levels v2 (sm_id m) p) as [[kw user]|]; [|apply IH].
  rewrite set_levels_first, put_first_twice by (by apply put_first_full).
  cbn [mbind option_bind].
  rewrite IH, last_cons. by destruct (last _).
Qed.

Lemma pack_second_total v2 info m : sm_id m ≠ ST_SM_ID_SVA_F_STAGE_GMM → model_full m →
  pack_model v2 info m = Some (put_first (report_second v2 info (sm_id m)) m).
Proof.
  unfold pack_model. intros Hg Hf. rewrite decide_False by done. unfold report_second.
  case_match eqn:Hbits.
  - rewrite <-(put_first_none m) at 1. rewrite (for_second_levels v2); [by destruct (last _)|done|].
    intros p m'. unfold second_levels. simpl. by repeat case_match.
  - assert (omap (second_levels v2 (sm_id m)) (sec_det_level info) = []) as ->; [|done].
    unfold second_levels. apply orb_false_iff in Hbits as [-> ->]. simpl.
    by induction (sec_det_level info).
Qed.

(** The levels of a first stage model. *)
Lemma det_level_total v2 i j old : smi_ok i → 0 ≤ j < cf_levels_size_ i →
  det_level v2 i j old = Some (store_level v2 (detected i j)).
Proof.
  intros Hi Hj. destruct (ok_det i Hi) as [[?|(l&Hl&Hn)] _]; [lia|].
  unfold det_level, detected. rewrite Hl. simpl. unfold zlen in Hn.
  destruct (lookup_lt_is_Some_2 l (Z.to_nat j)) as [x Hx]; [lia|]. rewrite Hx.
  by destruct (Z.leb_spec j (cf_levels_size_ i)); [|lia].
Qed.

Lemma pack_user_total v2 i k : smi_ok i → keyword_full k → keyword_counts k →
  keyword_slots (cf_levels_size_ i) k →
  map_first (num_user_levels k) (λ u,
    v ← det_level v2 i (user_id u) (level u); Some (mkLevel (user_id u) v)) id (user_levels k) =
  Some (first_then (num_user_levels k) (λ _, report_user v2 i) id (user_levels k)).
Proof.
  unfold keyword_full, keyword_counts. intros Hi Hf Hc Hs.
  apply map_first_total; [unfold zlen; lia|]. intros j u Hj Hlt.
  by rewrite det_level_total by (by eauto).
Qed.

Definition packed_keyword (v2 : bool) (i : SoundModelInfo) (j : Z) (k : st_keyword_levels) :=
  mkKwLevels (store_level v2 (detected i j)) (num_user_levels k)
    (first_then (num_user_levels k) (λ _, report_user v2 i) id (user_levels k)).

Lemma pack_keywords_total v2 i n : smi_ok i → ∀ j ks, 0 ≤ j →
  (n ≤ length ks)%nat → j + Z.of_nat n ≤ cf_levels_size_ i →
  (∀ a k, ks !! a = Some k → (a < n)%nat →
    keyword_full k ∧ keyword_counts k ∧ keyword_slots (cf_levels_size_ i) k) →
  pack_keywords v2 i n j ks =
  Some (imap (λ a k, if decide (a < n)%nat then packed_keyword v2 i (j + Z.of_nat a) k else k) ks).
Proof.
  intros Hi. induction n as [|n IH]; intros j ks Hj Hn Hsz Hk; cbn [pack_keywords].
  { f_equal. apply list_eq. intros a. rewrite list_lookup_imap. by destruct (ks !! a). }
  destruct ks as [|k ks]; [simpl in Hn; lia|]. rewrite det_level_total by (done || lia).
  simpl. destruct (Hk 0%nat k) as (Hf&Hc&Hs); [done|lia|].
  rewrite pack_user_total by done. simpl. rewrite IH; [|lia|simpl in Hn; lia|lia|].
  2: { intros a k' Ha Hlt. apply (Hk (S a)); [done|lia]. }
  simpl. unfold packed_keyword at 2. do 2 f_equal.
  - f_equal. f_equal. f_equal. lia.
  - apply imap_ext. intros a x _. simpl. do 2 case_decide; try lia; [|done].
    f_equal. lia.
Qed.

Lemma zero_keyword_slots size k : keyword_slots size k → keyword_slots size (zero_keyword k).
Proof.
  intros Hs j u. simpl. rewrite first_then_lookup. intros (x&Hx&->)%fmap_Some Hlt.
  rewrite decide_True by done. by apply (Hs j x).
Qed.

Lemma zero_keyword_full k : keyword_full k → keyword_full (zero_keyword k).
Proof. unfold keyword_full. simpl. by rewrite first_then_length. Qed.

Lemma packed_zero v2 i j k : packed_keyword v2 i j (zero_keyword k) = report_keyword v2 i j k.
Proof. unfold packed_keyword, report_keyword. simpl. by rewrite first_then_compose. Qed.

Lemma pack_first_stage_total v2 info i m : si_info info = Some i → smi_ok i → model_full m →
  sm_id m = ST_SM_ID_SVA_F_STAGE_GMM → model_counts (cf_levels_size_ i) m →
  pack_model v2 info (zero_model m) = Some (report_model v2 info i m).
Proof.
  intros Hi Hok [Hf Hk] Hg (Hc&Hsz&Hn). unfold pack_model, report_model. simpl.
  do 2 rewrite (decide_True (P := sm_id m = ST_SM_ID_SVA_F_STAGE_GMM)) by done.
  specialize (Hsz Hg). case_decide as Hz.
  { unfold zero_model. do 2 f_equal. apply first_then_ext; [intros; lia|done]. }
  rewrite Hi. simpl. rewrite pack_keywords_total; [|done|done| | |].
  - simpl. do 2 f_equal. apply list_eq. intros a.
    rewrite list_lookup_imap, !first_then_lookup. destruct (kw_levels m !! a); simpl; [|done].
    f_equal. do 2 case_decide; try lia; [by rewrite packed_zero|done].
  - rewrite first_then_length. lia.
  - lia.
  - intros a k. rewrite first_then_lookup. intros (x&Hx&->)%fmap_Some Ha.
    rewrite decide_True by lia. destruct (Hn a x Hx) as [? Hs]; [lia|].
    split; [apply zero_keyword_full; by eapply Hk, list_elem_of_lookup_2|]. split; [done|].
    by apply zero_keyword_slots, Hs.
Qed.

(** The levels of an event: those of the configuration with what was detected. *)
Lemma PackEventConfLevels_total v2 info i c :
  si_info info = Some i → smi_ok i → info_full c → info_counts (cf_levels_size_ i) c →
  init_info c ≫= PackEventConfLevels v2 info = Some (report_levels v2 info i c).
Proof.
  intros Hi Hok [Hf Hm] [Hc Hn]. unfold init_info.
  assert (0 ≤ num_sound_models c ≤ zlen (conf_levels c)) as Hlen by (unfold zlen; lia).
  rewrite (map_first_total _ _ (λ _, zero_model)); [|done|].
  2: { intros j m Hj Hlt. eapply init_model_total; [by eapply Hm, list_elem_of_lookup_2|eauto]. }
  simpl. unfold PackEventConfLevels. simpl.
  rewrite (map_first_total _ _ (λ j _, default (mkSmLevels 0 0 [])
    (report_model v2 info i <$> conf_levels c !! Z.to_nat j))).
  - simpl. unfold report_levels. do 2 f_equal. rewrite first_then_compose.
    apply first_then_ext; [|done]. intros j m Hj Hlt. by rewrite Nat2Z.id, Hj.
  - unfold zlen. by rewrite first_then_length.
  - intros j y. rewrite first_then_lookup. intros (m&Hj&->)%fmap_Some Hlt.
    rewrite decide_True, Nat2Z.id, Hj by done. simpl.
    assert (model_full m) as Hfm by (by eapply Hm, list_elem_of_lookup_2).
    destruct (decide (sm_id m = ST_SM_ID_SVA_F_STAGE_GMM)) as [Hg|Hg].
    { apply pack_first_stage_total; eauto. }
    rewrite pack_second_total by (done || by apply zero_model_full).
    unfold report_model. by rewrite decide_False by done.
Qed.

(** ** The block has room *)

Lemma put_info_full_length v2 c : info_full c → length (put_levels_info v2 c) = info_size v2.
Proof.
  intros [Hc Hm]. unfold put_levels_info, info_size. rewrite !length_app, !le_bytes_length.
  rewrite (bind_length _ (sm_size v2)); [rewrite Hc; lia|]. intros m [Hk Hu]%Hm.
  unfold put_sm_levels, sm_size. rewrite !length_app, !le_bytes_length.
  rewrite (bind_length _ (kw_size v2)); [rewrite Hk; lia|]. intros k Hl%Hu.
  unfold put_keyword, kw_size. rewrite !length_app, !le_bytes_length.
  rewrite (bind_length _ (user_size v2)); [rewrite Hl; lia|]. intros u _.
  unfold put_user, user_size. by rewrite length_app, !le_bytes_length.
Qed.

Lemma report_model_full v2 info i m : model_full m → model_full (report_model v2 info i m).
Proof.
  unfold report_model. intros Hm. case_decide; [|by apply put_first_full, zero_model_full].
  destruct Hm as [Hf Hk]. split; simpl; [by rewrite first_then_length|].
  intros k (j&k'&Hj&Hor)%first_then_elem. apply list_elem_of_lookup_2, Hk in Hj.
  unfold keyword_full in *. destruct Hor as [->| ->]; simpl;
    by rewrite ?first_then_length, ?length_fmap.
Qed.

Lemma blank_model_full m : model_full m → model_full (blank_model m).
Proof.
  intros [Hf Hk]. split; simpl; [by rewrite length_fmap|]. intros k (k'&->&Hin)%list_elem_of_fmap.
  apply Hk in Hin. unfold keyword_full in *. simpl. by rewrite length_fmap.
Qed.

Lemma report_levels_full v2 info i c : info_full c → info_full (report_levels v2 info i c).
Proof.
  intros [Hc Hm]. split; simpl; [by rewrite first_then_length|].
  intros m (j&m'&Hj&Hor)%first_then_elem. apply list_elem_of_lookup_2, Hm in Hj.
  destruct Hor as [->| ->]; [by apply report_model_full|by apply blank_model_full].
Qed.

(** ** The properties asked for *)

Definition stage_info (perf_mode : bool) (info : sound_model_info) (key : Z)
  : option (list Z) :=
  if decide (key = ST_PARAM_KEY_SSTAGE_KW_ENGINE_INFO) then Some (sec_kw_det_info info)
  else if decide (key = ST_PARAM_KEY_SSTAGE_UV_ENGINE_INFO) then Some (sec_uv_det_info info)
  else if decide (key = ST_PARAM_KEY_IS_BARGEIN)
  then Some (le32 1 ++ le32 (Z.b2z perf_mode)) else None.

(** The keyword's audio is handed out once. *)
Fixpoint report_props (perf_mode : bool) (info : sound_model_info) (keys : list Z)
    (buffer : list Z) : list (Z * list Z) :=
  match keys with
  | [] => []
  | key :: keys =>
      if decide (key = ST_PARAM_KEY_KEYWORD_BUFFER)
      then (if decide (buffer = []) then [] else [(key, buffer)]) ++
           report_props perf_mode info keys []
      else from_option (λ b, [(key, b)]) [] (stage_info perf_mode info key) ++
           report_props perf_mode info keys buffer
  end.

Definition opaque_params (l : list (Z * list Z)) : list Z :=
  l ≫= λ p, opaque_param p.1 p.2.

Lemma opaque_params_app l k : opaque_params (l ++ k) = opaque_params l ++ opaque_params k.
Proof. apply bind_app. Qed.
Lemma opaque_params_cons p l : opaque_params (p :: l) = opaque_param p.1 p.2 ++ opaque_params l.
Proof. done. Qed.

Definition props_size (info : sound_model_info) (keys : list Z) : Z :=
  foldr (λ key n, prop_size info key + n) 0 keys.

Definition buffer_of (info : sound_model_info) : list Z := default [] (ftrt_data_ info).

Lemma opaque_param_length key b : zlen (opaque_param key b) = sizeof_st_param_header + zlen b.
Proof.
  unfold opaque_param, zlen, le32, sizeof_st_param_header.
  rewrite !length_app, !le_bytes_length. lia.
Qed.

Lemma fill_props_total pm keys : ∀ info,
  (∀ d, ftrt_data_ info = Some d → zlen d = ftrt_data_size_ info) →
  ∃ info', fill_props pm keys info =
           Some (opaque_params (report_props pm info keys (buffer_of info)), info').
Proof.
  induction keys as [|key keys IH]; intros info Hd; [by eexists|]. simpl.
  case_decide as Hk.
  - assert (∃ info', fill_prop pm key info =
      Some (opaque_params (if decide (buffer_of info = []) then [] else [(key, buffer_of info)]),
            info') ∧ buffer_of info' = [] ∧ report_props pm info' keys [] =
      report_props pm info keys [] ∧
      ∀ d, ftrt_data_ info' = Some d → zlen d = ftrt_data_size_ info') as (i1&H1&Hb&Hr&Hd1).
    { unfold fill_prop, buffer_of. rewrite decide_True by done.
      assert (∀ i2 l, sec_kw_det_info i2 = sec_kw_det_info info →
        sec_uv_det_info i2 = sec_uv_det_info info →
        report_props pm i2 keys l = report_props pm info keys l) as Hsame.
      { intros i2 l H1 H2. revert l. clear -H1 H2.
        induction keys as [|k keys IH]; intros l; [done|]. simpl.
        case_decide; rewrite IH; [done|]. unfold stage_info. by rewrite H1, H2. }
      destruct (ftrt_data_ info) as [d|] eqn:Hf.
      - rewrite <-(Hd d) by done. simpl. eexists. split.
        + case_decide as Hz.
          * simpl. rewrite (decide_True (P := d = [])); [done|].
            unfold zlen in Hz. by destruct d.
          * rewrite (decide_False (P := d = [])) by (by intros ->).
            destruct (slice_is_Some 0 (zlen d) d) as [x Hx]; [lia|apply zlen_nonneg|lia|].
            rewrite Hx. apply slice_Some in Hx as [_ ->]. simpl. unfold opaque_params. simpl.
            unfold opaque_param. rewrite drop_0, app_nil_r, take_ge by (unfold zlen; lia). done.
        + simpl. split; [done|]. split; [by apply Hsame|done].
      - simpl. eexists. split; [done|]. rewrite Hf. auto. }
    destruct (IH i1 Hd1) as [i2 H2]. exists i2.
    rewrite H1. cbn [mbind option_bind]. rewrite H2, Hb, Hr. simpl. by rewrite opaque_params_app.
  - destruct (IH info Hd) as [i2 H2]. exists i2. unfold fill_prop, stage_info.
    rewrite decide_False by done. rewrite opaque_params_app.
    repeat case_decide; cbn [mbind option_bind]; rewrite H2; simpl; unfold opaque_params at 2;
      simpl; by rewrite ?app_nil_r.
Qed.

Lemma report_props_length pm info keys : ∀ buffer,
  zlen (sec_kw_det_info info) = sizeof_st_det_engine_stats →
  zlen (sec_uv_det_info info) = sizeof_st_det_engine_stats →
  0 ≤ ftrt_data_size_ info → buffer = [] ∨ zlen buffer = ftrt_data_size_ info →
  zlen (opaque_params (report_props pm info keys buffer)) ≤ props_size info keys.
Proof.
  induction keys as [|key keys IH]; intros buffer Hk Hu Hs Hb; [done|].
  assert (∀ b, buffer = [] ∨ zlen buffer = ftrt_data_size_ info → b = buffer ∨ b = [] →
    zlen (opaque_params (report_props pm info keys b)) ≤ props_size info keys) as IH'.
  { intros b ? [->| ->]; apply IH; auto. }
  cbn [report_props props_size foldr]. change (foldr _ 0 keys) with (props_size info keys).
  assert (∀ l k, zlen (opaque_params (l ++ k)) = zlen (opaque_params l) + zlen (opaque_params k))
    as Happ by (intros l k; rewrite opaque_params_app; unfold zlen; rewrite length_app; lia).
  assert (∀ b, zlen (opaque_params [(key, b)]) = sizeof_st_param_header + zlen b) as Hone.
  { intros b. change (opaque_params [(key, b)]) with (opaque_param key b ++ []).
    by rewrite app_nil_r, opaque_param_length. }
  unfold prop_size, stage_info. change (zlen (opaque_params [])) with 0.
  pose proof (zlen_nonneg buffer). unfold sizeof_st_param_header in *.
  case_decide as Hkey.
  - rewrite Happ. specialize (IH' [] Hb (or_intror eq_refl)).
    change (zlen (opaque_params [])) with 0. 
    case_decide as Hbuf; [change (zlen (opaque_params [])) with 0; case_decide; lia|].
    destruct Hb as [?|Hb]; [done|]. rewrite Hone, Hb.
    case_decide; [|lia]. unfold zlen in Hb. destruct buffer; [done|simpl in Hb; lia].
  - rewrite Happ. specialize (IH' buffer Hb (or_introl eq_refl)).
    assert (zlen (le32 1 ++ le32 (Z.b2z pm)) = sizeof_st_det_perf_mode_info) as Hp
      by (unfold zlen, le32; by rewrite length_app, !le_bytes_length).
    repeat case_decide; subst; try done; cbn [from_option]; rewrite ?Hone, ?Hk, ?Hu, ?Hp;
      change (zlen (opaque_params [])) with 0; try tauto; lia.
Qed.

Lemma prop_size_nonneg info key : 0 ≤ ftrt_data_size_ info → 0 ≤ prop_size info key.
Proof.
  intros. unfold prop_size, sizeof_st_param_header, sizeof_st_det_engine_stats,
    sizeof_st_det_perf_mode_info. repeat case_decide; lia.
Qed.

Lemma GetExtendedPayloadSize_sum s w info : registered s w = Some info →
  0 ≤ ftrt_data_size_ info → props_size info (det_prop_list info) < 2 ^ 32 →
  GetExtendedPayloadSize s w = props_size info (det_prop_list info).
Proof.
  unfold GetExtendedPayloadSize. intros -> Hz. 
  assert (∀ keys a, 0 ≤ a → a + props_size info keys < 2 ^ 32 →
    foldl (λ size key, u32 (size + prop_size info key)) a keys = a + props_size info keys)
    as Hf; [|intros; by rewrite Hf by lia].
  induction keys as [|key keys IH]; intros a Ha Hlt; simpl; [lia|].
  change (foldr _ 0 keys) with (props_size info keys) in *. simpl in Hlt.
  assert (0 ≤ props_size info keys) as Hk.
  { clear -Hz. induction keys as [|key keys IH]; simpl; [done|].
    pose proof (prop_size_nonneg info key Hz). lia. }
  pose proof (prop_size_nonneg info key Hz).
  unfold props_size in Hlt at 1. simpl in Hlt.
  change (foldr _ 0 keys) with (props_size info keys) in Hlt.
  rewrite u32_small by lia. rewrite IH by lia. lia.
Qed.

Lemma FillExtended_total s w info : sva_ok w → registered s w = Some info →
  props_size info (det_prop_list info) < 2 ^ 32 →
  let ps := report_props (perf_mode_ w) info (det_prop_list info) (buffer_of info) in
  zlen (opaque_params ps) ≤ GetExtendedPayloadSize s w ∧
  ∀ ro oh, let w0 := set_readOffsets_ ro (set_origin_hist_buf_duration_ oh w) in
  ∃ w', FillExtendedDetectionPayload s (GetExtendedPayloadSize s w) w0 =
        Some (opaque_params ps, w') ∧ readOffsets_ w' = ro.
Proof.
  intros Hw Hr Hs ps.
  assert (∃ mt, info_ok mt info) as [mt [_ _ _ [Hz Hd] [Hk Hu]]].
  { unfold registered in Hr. destruct (sm_info_map_ w !! s) as [o|] eqn:Ho; [|done].
    simpl in Hr. subst o. destruct (ok_streams w Hw s _ Ho) as (?&[= <-]&?). eauto. }
  rewrite (GetExtendedPayloadSize_sum s w info) by (done || lia).
  assert (zlen (opaque_params ps) ≤ props_size info (det_prop_list info)) as Hle.
  { apply report_props_length; try done; [lia|]. unfold buffer_of.
    destruct (ftrt_data_ info) as [d|]; simpl; [right; by apply Hd|by left]. }
  split; [done|]. intros ro oh. simpl. unfold FillExtendedDetectionPayload. case_decide as H0.
  - assert (opaque_params ps = []) as ->.
    { destruct (opaque_params ps) as [|b bs]; [done|]. unfold zlen in Hle. simpl in Hle. lia. }
    by eexists.
  - change (registered s _) with (registered s w). rewrite Hr. simpl.
    destruct (fill_props_total (perf_mode_ w) (det_prop_list info) info Hd) as [info' Hf].
    unfold ps. rewrite Hf. simpl. by eexists.
Qed.

Lemma fill_block_pads size b : zlen b ≤ size →
  fill_block size b = Some (b ++ replicate (Z.to_nat (size - zlen b)) 0).
Proof.
  intros Hs. unfold fill_block, zlen in *.
  destruct (splice_is_Some 0 b (replicate (Z.to_nat size) 0)) as [r Hr]; [lia| |].
  { unfold zlen. rewrite length_replicate. lia. }
  rewrite Hr. apply splice_Some in Hr as [_ ->]. simpl. f_equal. f_equal.
  rewrite drop_replicate. f_equal. lia.
Qed.

(** ** The event *)

(** The parameters of the opaque data. *)
Definition report_params (v2 : bool) (w : SVAInterface) (info : sound_model_info)
    (i : SoundModelInfo) (e : detection_event) (g : detection_event_info)
    (cl : st_confidence_levels_info) : list (Z * list Z) :=
  [(ST_PARAM_KEY_CONFIDENCE_LEVELS, put_levels_info v2 (report_levels v2 info i cl));
   (ST_PARAM_KEY_KEYWORD_INDICES, le32 1 ++ le32 (start_index_ e) ++ le32 (end_index_ e));
   (ST_PARAM_KEY_TIMESTAMP,
    le32 1 ++ le_bytes 8 (1000 * stamp (dei_detection g)) ++ le_bytes 8 0)] ++
  report_props (perf_mode_ w) info (det_prop_list info) (buffer_of info).

Definition levels_v2 (info : sound_model_info) : bool :=
  bool_decide (conf_levels_intf_version info = CONF_LEVELS_INTF_VERSION_0002).

(** A keyword model of a first stage engine that was detected with the event [g]. *)
Record detected_ok (s : positive) (w : SVAInterface) (info : sound_model_info)
    (c : pal_st_recognition_config) (e : detection_event) (g : detection_event_info)
    (i : SoundModelInfo) (cl : st_confidence_levels_info) : Prop := {
  do_wf : sva_ok w;
  do_module : module_type_ w = ST_MODULE_TYPE_GMM;
  do_registered : registered s w = Some info;
  do_type : si_type info = PAL_SOUND_MODEL_TYPE_KEYPHRASE;
  do_id : model_id info = 0;
  do_info : si_info info = Some i;
  do_config : rec_config info = Some c;
  do_phrases : 0 ≤ num_phrases c ≤ PAL_SOUND_TRIGGER_MAX_PHRASES;
  do_extras : num_phrases c ≤ zlen (phrases c);
  do_event : event_of s w = Some e;
  do_gmm : det_info e = GmmInfo g;
  do_levels : cached_levels (levels_v2 info) w = Some cl;
  do_arrays : info_full cl;
  do_counts : info_counts (cf_levels_size_ i) cl;
  do_props : props_size info (det_prop_list info) < 2 ^ 32;
}.

Lemma PackDetectionOpaqueData_total s w info c e g i cl :
  detected_ok s w info c e g i cl →
  ∃ w', PackDetectionOpaqueData s (GetExtendedPayloadSize s w) w =
    Some (0, opaque_params (report_params (levels_v2 info) w info i e g cl), w') ∧
    readOffsets_ w' = <[s := if capture_requested c &&
      (default 0 (origin_hist_buf_duration_ w !! s) =? 0) then end_index_ e else 0]>
      (readOffsets_ w).
Proof.
  intros [Hw Hm Hr Ht Hid Hi Hc Hph Hex He Hg Hl Hf Hn Hs].
  assert (smi_ok i) as Hi'.
  { eapply GetSoundModelInfo_ok; [exact Hw|]. unfold GetSoundModelInfo. by rewrite Hr. }
  destruct (FillExtended_total s w info Hw Hr Hs) as [Hlen Hfill].
  unfold PackDetectionOpaqueData. rewrite Hm.
  rewrite !decide_False by done. rewrite Hr, He. cbn [mbind option_bind].
  unfold InitCallbackConfLevels. change (bool_decide _) with (levels_v2 info). rewrite Hl.
  pose proof (PackEventConfLevels_total (levels_v2 info) info i cl Hi Hi' Hf Hn) as Hp.
  apply bind_Some in Hp as (c0&Hc0&Hp). rewrite Hc0. cbn [mbind option_bind].
  rewrite Hid. cbn [Z.ltb Z.compare]. unfold gmm_info. rewrite Hg. cbn [mbind option_bind].
  rewrite Hp, Hc. cbn [mbind option_bind from_option]. unfold SetReadOffset.
  set (v := if _ && _ then _ else _).
  assert (∃ oh, (if capture_requested c then set_origin_hist_buf_duration_
     (<[s := default 0 (origin_hist_buf_duration_ w !! s)]> (origin_hist_buf_duration_ w)) w
     else w) = set_origin_hist_buf_duration_ oh w) as [oh ->].
  { destruct (capture_requested c); [by eexists|]. exists (origin_hist_buf_duration_ w).
    by destruct w. }
  destruct (Hfill (<[s := v]> (readOffsets_ w)) oh) as (w'&Hf'&Hro).
  exists w'. split; [|exact Hro]. cbn zeta in Hf'.
  change (readOffsets_ (set_origin_hist_buf_duration_ oh w)) with (readOffsets_ w).
  rewrite Hf'. cbn [mbind option_bind].
  unfold report_params. rewrite opaque_params_app, !opaque_params_cons. cbn [fst snd].
  change (opaque_params []) with (@nil Z). rewrite app_nil_r, <-!app_assoc. done.
Qed.

(** C14: A detected keyword is reported exactly: on a GMM engine, for a keyword model with
    model id 0, a recognition configuration and a detection event, for which the interface
    holds opaque levels that lie within the model ([detected_ok]), and when allocations
    succeed, GenerateCallbackEvent is defined and
    succeeds; its opaque data are the levels the interface holds (with several streams on a
    merged engine, those of the last configuration of any of them) with the detected
    level of every keyword and user (and the last level of every second stage), the
    keyword's position, the time of detection and the properties asked for, in this order,
    followed only by zeros; they fit their block, and the offset from which the stream
    reads is the end of the keyword exactly when it captures without a history buffer. *)
Theorem callback_event_reports n m s w info c e g i cl :
  (∀ z, calloc_ok z = true) → detected_ok s w info c e g i cl →
  ∃ ev w', GenerateCallbackEvent n m s w = Some (0, Some (ev, n + re_data_size ev), w') ∧
    (∃ pad, re_opaque ev =
       opaque_params (report_params (levels_v2 info) w info i e g cl) ++ replicate pad 0) ∧
    zlen (re_opaque ev) = re_data_size ev ∧
    re_status ev = det_result info ∧
    re_capture_available ev = capture_requested c ∧
    re_phrases ev = take (Z.to_nat (num_phrases c)) (phrases c) ∧
    (GetReadOffset s w').1 = if capture_requested c &&
      (default 0 (origin_hist_buf_duration_ w !! s) =? 0) then end_index_ e else 0.
Proof.
  intros memory Hd. pose proof (PackDetectionOpaqueData_total s w info c e g i cl Hd) as Hp.
  destruct Hp as (w'&Hp&Hro). destruct Hd as [Hw Hm Hr Ht Hid Hi Hc Hph Hex He Hg Hl Hf Hn Hs].
  destruct (FillExtended_total s w info Hw Hr Hs) as [Hlen _].
  unfold GenerateCallbackEvent. rewrite Hr, Ht, decide_True, memory by done. cbn [negb]. rewrite Hc.
  destruct (Z.leb_spec (num_phrases c) PAL_SOUND_TRIGGER_MAX_PHRASES); [|lia].
  destruct (slice_is_Some 0 (num_phrases c) (phrases c)) as [ph Hph']; [lia..|].
  rewrite Hph'. apply slice_Some in Hph' as [_ ->]. cbn [mbind option_bind]. rewrite Hp.
  cbn [mbind option_bind].
  assert (zlen (opaque_params (report_params (levels_v2 info) w info i e g cl)) ≤
    opaque_size_of info (GetExtendedPayloadSize s w) w) as Hroom.
  { unfold report_params. rewrite opaque_params_app, !opaque_params_cons. cbn [fst snd].
    change (opaque_params []) with (@nil Z). rewrite app_nil_r.
    assert (∀ l k : list Z, zlen (l ++ k) = zlen l + zlen k) as Happ
      by (intros l k; unfold zlen; rewrite length_app; lia).
    assert (∀ k z, zlen (le_bytes k z) = Z.of_nat k) as Hle
      by (intros k z; unfold zlen; by rewrite le_bytes_length).
    rewrite !Happ, !opaque_param_length. unfold le32. rewrite !Happ, !Hle.
    unfold opaque_size_of. rewrite Hm, Ht, decide_True, decide_True by done.
    change (bool_decide _) with (levels_v2 info).
    assert (zlen (put_levels_info (levels_v2 info) (report_levels (levels_v2 info) info i cl)) =
      Z.of_nat (info_size (levels_v2 info))) as ->
      by (unfold zlen; by rewrite put_info_full_length by (by apply report_levels_full)).
    cbv zeta in Hlen.
    unfold sizeof_st_param_header, sizeof_st_timestamp_info, sizeof_st_keyword_indices_info. lia. }
  rewrite fill_block_pads by done. cbn [mbind option_bind]. eexists (mkRecEvent _ _ _ _ _ _ _), _.
  split; [reflexivity|].
  cbn [re_opaque re_data_size re_status re_capture_available re_phrases].
  split; [by eexists|]. split_and!; try done.
  - unfold zlen in *. rewrite length_app, length_replicate.
    by transitivity (opaque_size_of info (GetExtendedPayloadSize s w) w); [lia|].
  - unfold GetReadOffset. cbn [fst]. rewrite Hro, lookup_insert_eq. done.
Qed.

End spec.

(** ** At a concrete input *)

Module SvaEventSpecDemo.
Import SvaDemo BoundedCopy SvaModelsDemo SvaEventDemo.

Definition full_keyword (lv : Z) (us : list pal_st_confidence_level) : st_keyword_levels :=
  mkKwLevels lv (zlen us) (us ++ replicate (ST_MAX_ENTRIES - length us) (mkLevel 0 0)).
Definition full_model (id : Z) (ks : list st_keyword_levels) : st_sound_model_conf_levels :=
  mkSmLevels id (zlen ks) (ks ++ replicate (ST_MAX_ENTRIES - length ks) (full_keyword 0 [])).
Definition full_info (ms : list st_sound_model_conf_levels) : st_confidence_levels_info :=
  mkLevelsInfo CONF_LEVELS_INTF_VERSION_0002 (zlen ms)
    (ms ++ replicate (ST_MAX_ENTRIES - length ms) (full_model 0 [])).

(** A keyword at 70 in the first stage, and a second stage for keywords at 60. *)
Definition sent_levels : st_confidence_levels_info :=
  full_info [full_model ST_SM_ID_SVA_F_STAGE_GMM [full_keyword 70 []];
             full_model ST_SM_ID_SVA_S_STAGE_KWD [full_keyword 60 []]].
Definition sent_config : pal_st_recognition_config :=
  let b := encode_param (PLevels true sent_levels) in
  mkRecCfg 0 0 true 1 [mkPhrase 0 1 70 0 []] (zlen b) 0 b.

(** The stream is detected by both stages; its client asked for the keyword's audio. *)
Definition detected_ops : list IntfOp :=
  [OpRegister 1 (demo_model 1) []; OpSet (PARAM_FSTAGE_SOUND_MODEL_ADD 1 [65]);
   OpSet (PARAM_RECOGNITION_CONFIG 1 (Some sent_config));
   OpSet (PARAM_FSTAGE_SOUND_MODEL_STATE 1 true);
   OpSet (PARAM_DETECTION_PROP_LIST 1 [ST_PARAM_KEY_KEYWORD_BUFFER]);
   OpSet (PARAM_DETECTION_EVENT 1 demo_event);
   OpSet (PARAM_FTRT_DATA 1 [7; 8; 9]);
   OpSet (PARAM_SSTAGE_KW_DET_LEVEL 1 65)].

Definition demo_start : SVAInterface := sva_construct demo_uninit ST_MODULE_TYPE_GMM.
Definition demo_world : SVAInterface := default demo_start (demo_run detected_ops demo_start).
Definition demo_info : sound_model_info := default sm_info_init (registered 1 demo_world).
Definition demo_detection : detection_event :=
  default (event_zero (MmaInfo [])) (event_of 1 demo_world).
Definition demo_gmm : detection_event_info :=
  default (mkGmmInfo 0 0 [] (0, 0) (0, 0) (0, 0) 0) (gmm_info demo_detection).
Definition demo_smi : SoundModelInfo := default smi_init (si_info demo_info).

Lemma demo_world_ok : sva_ok demo_world.
Proof.
  apply (run_ops_ok memory header_counts (λ id b, le_bytes 4 id ++ b) (λ b, b) 200 100
           detected_ops) with demo_start; [|apply sva_construct_ok|vm_compute; reflexivity].
  assert (Forall byte_ok (rc_data sent_config)) as Hb
    by (apply (bool_decide_unpack _); vm_compute; reflexivity).
  unfold detected_ops.
  repeat first [apply Forall_nil_2
               |apply Forall_cons; split; [first [exact I|exact Hb|by vm_compute]|]].
Qed.

Lemma sent_levels_full : info_full sent_levels.
Proof.
  assert (Forall (λ m, length (kw_levels m) = ST_MAX_ENTRIES ∧
    Forall (λ k, length (user_levels k) = ST_MAX_ENTRIES) (kw_levels m)) (conf_levels sent_levels))
    as Hf by (apply (bool_decide_unpack _); vm_compute; reflexivity).
  rewrite Forall_forall in Hf. split; [done|]. intros m [Hl Hk]%Hf. rewrite Forall_forall in Hk.
  by split.
Qed.

Lemma sent_levels_counts : info_counts 1 sent_levels.
Proof.
  split; [done|]. intros [|[|j]] m Hm Hj; [| |change (Z.of_nat (S (S j)) < 2) in Hj; lia];
    injection Hm as <-; (split; [done|]; split; [done|]); intros [|j'] k Hk Hj';
    try (change (Z.of_nat (S j') < 1) in Hj'; lia);
    injection Hk as <-; (split; [done|]); intros _ j'' u _ Hu;
    change (Z.of_nat j'' < 0) in Hu; lia.
Qed.

Lemma demo_detected :
  detected_ok 1 demo_world demo_info sent_config demo_detection demo_gmm demo_smi sent_levels.
Proof.
  split; [apply demo_world_ok|..]; [vm_compute; reflexivity..| | | | | | | |].
  - change (0 ≤ 1 ≤ 10). lia.
  - change (1 ≤ 1). lia.
  - vm_compute. reflexivity.
  - vm_compute. reflexivity.
  - vm_compute. reflexivity.
  - apply sent_levels_full.
  - replace (cf_levels_size_ demo_smi) with 1 by (vm_compute; reflexivity).
    apply sent_levels_counts.
  - by vm_compute.
Qed.

(** The levels of the first two models in the event of a call. *)
Definition reported (r : option (Z * option (recognition_event * Z) * SVAInterface))
  : option (list Z) :=
  '(_, e, _) ← r; '(ev, _) ← e;
  Some ((λ m, from_option kw_level 0 (head (kw_levels m))) <$>
        take 2 (conf_levels (get_levels_info true (drop 8 (re_opaque ev))))).

(** The levels detected by the stages replace those the client had sent. *)
Lemma callback_event_reports_witness :
  ∃ ev w', GenerateCallbackEvent 200 100 1 demo_world =
             Some (0, Some (ev, 200 + re_data_size ev), w') ∧
           reported (Some (0, Some (ev, 200 + re_data_size ev), w')) = Some [75; 65] ∧
           (GetReadOffset 1 w').1 = end_index_ demo_detection.
Proof.
  destruct (callback_event_reports 200 100 1 demo_world demo_info sent_config demo_detection
    demo_gmm demo_smi sent_levels memory demo_detected) as (ev&w'&Hg&_&_&_&_&_&Hro).
  exists ev, w'. split; [exact Hg|]. split; [rewrite <-Hg; vm_compute; reflexivity|].
  rewrite Hro. vm_compute. reflexivity.
Defined.
End SvaEventSpecDemo.
