(* ===== verification/SvaInstances.v ===== *)
(** * Voice UI interface: the interfaces and their streams

    The static members of sva_intf/src/SVAInterface.cpp: get_vui_interface gives a stream
    an interface that exists already or a new one (GetInstance), DetachStream takes the
    stream off again and forgets an interface without streams.

    A shared pointer is a name; [interfaces] has every interface made, also one that is
    in no list any more, which lives as long as someone points to it.  The mutex
    serialises the changes of the map; a history is a sequence of calls. *)

From S2P Require Import Prelude PalDefs SoundTriggerState.
From S2P Require Import SvaState.
From S2P Require Import SvaConfig.
From S2P Require Import SvaModels.

Local Open Scope st_scope.

Record sound_model_config := mkSmConfig {
  smc_sound_model : pal_st_sound_model;
  smc_module_type : Z;
  is_model_merge_enabled : bool;
  supported_engine_count : Z;
}.

Record Instances := mkInstances {
  interfaces : gmap positive SVAInterface;
  intf_map_ : gmap Z (list positive);
}.

Definition no_instances : Instances := mkInstances ∅ ∅.

Section instances.
Context `{!SvaEnv, !Osal}.

Definition put_interface (i : positive) (w : SVAInterface) (x : Instances) : Instances :=
  mkInstances (<[i := w]> (interfaces x)) (intf_map_ x).
Definition put_list (k : Z) (l : list positive) (x : Instances) : Instances :=
  mkInstances (interfaces x) (<[k := l]> (intf_map_ x)).

Definition intf_key (t : Z) : Z := if IS_MODULE_TYPE_PDK t then ST_MODULE_TYPE_PDK else t.
(** [intf_map_[k]], as far as it can be seen. *)
Definition listed (k : Z) (x : Instances) : list positive := default [] (intf_map_ x !! k).

Definition reusable (c : sound_model_config) (t : Z) (l : list positive) : option positive :=
  if (IS_MODULE_TYPE_PDK t && (supported_engine_count c <=? zlen l)) ||
     (negb (IS_MODULE_TYPE_PDK t) && is_model_merge_enabled c)
  then last l else None.

(** The interface, or null.  The status of RegisterModel is only logged. *)
Definition GetInstance (u : uninit_members) (s : positive) (c : sound_model_config)
    (x : Instances) : option (option positive * Instances) :=
  '(status, t, parts) ← ParseSoundModel (smc_sound_model c) (smc_module_type c);
  if decide (status ≠ 0) then Some (None, x) else
  let k := intf_key t in
  let '(i, x) :=
    match reusable c t (listed k x) with
    | Some i => (i, x)
    | None =>
        let i := fresh (dom (interfaces x)) in
        (i, put_list k (listed k x ++ [i]) (put_interface i (sva_construct u t) x))
    end in
  w ← interfaces x !! i;
  '(_, w) ← RegisterModel s (smc_sound_model c) parts w;
  Some (Some i, put_interface i w x).

(** The status and [intf->interface], which only the first case writes. *)
Definition get_vui_interface (u : uninit_members) (s : positive) (c : sound_model_config)
    (intf : option positive) (x : Instances) : option (Z * option positive * Instances) :=
  if bool_decide (smc_module_type c ∈
       [ST_MODULE_TYPE_GMM; ST_MODULE_TYPE_PDK; ST_MODULE_TYPE_MMA; ST_MODULE_TYPE_HIST_CAP])
  then '(i, x) ← GetInstance u s c x; Some (0, i, x)
  else Some (- EINVAL, intf, x).

Definition DetachStream (i s : positive) (x : Instances) : option Instances :=
  w ← interfaces x !! i;
  let w := DeregisterModel s w in
  let x := put_interface i w x in
  if decide (size (sm_info_map_ w) ≠ 0%nat) then Some x else
  let k := intf_key (module_type_ w) in
  Some (match erase_first i (listed k x) with
        | [] => mkInstances (interfaces x) (delete k (intf_map_ x))
        | l => put_list k l x
        end).

(** ** The lists are exactly the interfaces in use *)

(** The interfaces a kind of module can have when models are merged and [n] engines of
    the multi-model kind are supported. *)
Definition intf_limit (n k : Z) : Z := if decide (k = ST_MODULE_TYPE_PDK) then Z.max 1 n else 1.

Record instances_ok (n : Z) (x : Instances) : Prop := {
  io_listed k l i : intf_map_ x !! k = Some l → i ∈ l →
    ∃ w, interfaces x !! i = Some w ∧ intf_key (module_type_ w) = k ∧ sm_info_map_ w ≠ ∅;
  io_used i w : interfaces x !! i = Some w → sm_info_map_ w ≠ ∅ →
    i ∈ listed (intf_key (module_type_ w)) x;
  io_list k l : intf_map_ x !! k = Some l → l ≠ [] ∧ NoDup l ∧ zlen l ≤ intf_limit n k;
}.

(** A stream is given an interface, is taken off one, or uses one without taking streams
    on or off. *)
Inductive inst_step (n : Z) (x : Instances) : Instances → Prop :=
  | is_get u s c intf st i x' : is_model_merge_enabled c = true →
      supported_engine_count c ≤ n → get_vui_interface u s c intf x = Some (st, i, x') →
      inst_step n x x'
  | is_detach i s x' : DetachStream i s x = Some x' → inst_step n x x'
  | is_use i w w' : interfaces x !! i = Some w → module_type_ w' = module_type_ w →
      dom (sm_info_map_ w') = dom (sm_info_map_ w) → inst_step n x (put_interface i w' x).

Inductive inst_history (n : Z) : Instances → Prop :=
  | ih_start : inst_history n no_instances
  | ih_step x x' : inst_history n x → inst_step n x x' → inst_history n x'.

Lemma listed_elem k i x : i ∈ listed k x ↔ ∃ l, intf_map_ x !! k = Some l ∧ i ∈ l.
Proof.
  unfold listed. destruct (intf_map_ x !! k) as [l|]; simpl; [naive_solver|].
  split; [by intros ?%elem_of_nil|naive_solver].
Qed.

(** A changed interface stays where it is. *)
Lemma put_interface_ok n i w w' x : instances_ok n x → interfaces x !! i = Some w →
  module_type_ w' = module_type_ w → sm_info_map_ w ≠ ∅ → sm_info_map_ w' ≠ ∅ →
  instances_ok n (put_interface i w' x).
Proof.
  intros [Hl Hu Hn] Hi Ht Hw Hw'. split; simpl; [| |done].
  - intros k l j Hk Hj. destruct (Hl k l j Hk Hj) as (v&?&?&?).
    destruct (decide (i = j)) as [->|Hne].
    + rewrite lookup_insert. case_decide; [|done]. simplify_eq. exists w'. by rewrite Ht.
    + rewrite lookup_insert_ne by done. eauto.
  - intros j v. destruct (decide (i = j)) as [->|Hne].
    + rewrite lookup_insert. case_decide; [|done]. intros [= <-] _. rewrite Ht. by apply Hu.
    + rewrite lookup_insert_ne by done. by apply Hu.
Qed.

Lemma idle_interface_ok n i w w' x : instances_ok n x → interfaces x !! i = Some w →
  sm_info_map_ w = ∅ → sm_info_map_ w' = ∅ → instances_ok n (put_interface i w' x).
Proof.
  intros [Hl Hu Hn] Hi Hw Hw'. split; simpl; [| |done].
  - intros k l j Hk Hj. destruct (Hl k l j Hk Hj) as (v&?&?&?).
    rewrite lookup_insert_ne by (intros ->; by simplify_eq). eauto.
  - intros j v. destruct (decide (i = j)) as [->|Hne].
    + rewrite lookup_insert. case_decide; [|done]. by intros [= <-].
    + rewrite lookup_insert_ne by done. by apply Hu.
Qed.

Lemma RegisterModel_map s m parts w st w' : RegisterModel s m parts w = Some (st, w') →
  module_type_ w' = module_type_ w ∧ sm_info_map_ w' ≠ ∅.
Proof.
  unfold RegisterModel. intros Hr.
  case_match; [simplify_eq; split; [done|apply insert_non_empty]|].
  apply bind_Some in Hr as (info&_&Hr).
  repeat case_decide; try (apply bind_Some in Hr as ([v|]&_&Hr)); simplify_eq;
    (split; [done|apply insert_non_empty]).
Qed.

(** A new interface at the end of its list. *)
Lemma new_interface_ok n k i w x : instances_ok n x → i ∉ dom (interfaces x) →
  intf_key (module_type_ w) = k → sm_info_map_ w ≠ ∅ →
  zlen (listed k x) < intf_limit n k →
  instances_ok n (put_interface i w (put_list k (listed k x ++ [i]) x)).
Proof.
  intros [Hl Hu Hn] Hi Hk Hw Hlen. apply not_elem_of_dom in Hi.
  assert (∀ k', i ∉ listed k' x) as Hnew.
  { intros k' (l&Hl'&Hin)%listed_elem. by destruct (Hl k' l i Hl' Hin) as (?&?&_); simplify_eq. }
  assert (∀ j k', j ∈ listed k' x → j ∈ listed k' (put_interface i w
            (put_list k (listed k x ++ [i]) x))) as Hmono.
  { intros j k' Hj. unfold listed at 1. simpl. rewrite lookup_insert. case_decide; [|done].
    subst k'. simpl. set_solver. }
  split; simpl.
  - intros k' l j. rewrite lookup_insert. case_decide as Hk'.
    + intros [= <-]. rewrite elem_of_app, list_elem_of_singleton. intros [Hj| ->].
      * assert (j ≠ i) by (intros ->; by apply (Hnew k)).
        apply listed_elem in Hj as (l&Hl'&Hj). destruct (Hl k l j Hl' Hj) as (v&?&?&?).
        exists v. rewrite lookup_insert_ne by done. by rewrite <-Hk'.
      * exists w. rewrite lookup_insert. case_decide; [|done]. by rewrite <-Hk'.
    + intros Hl' Hj. destruct (Hl k' l j Hl' Hj) as (v&?&?&?).
      assert (j ≠ i). { intros ->. apply (Hnew k'), listed_elem. eauto. }
      exists v. by rewrite lookup_insert_ne.
  - intros j v. rewrite lookup_insert. case_decide as Hj.
    + intros [= <-] _. rewrite Hk. unfold listed at 1. simpl. rewrite lookup_insert.
      case_decide; [|done]. simpl. set_solver.
    + intros Hv Hne. apply Hmono. by apply Hu.
  - intros k' l. rewrite lookup_insert. case_decide as Hk'; [|apply Hn]. subst k'.
    intros [= <-]. split; [by destruct (listed k x)|]. split.
    + apply NoDup_app. split; [|split].
      * unfold listed. destruct (intf_map_ x !! k) eqn:He; simpl; [by eapply Hn|constructor].
      * intros j Hj ->%list_elem_of_singleton. by apply (Hnew k).
      * apply NoDup_singleton.
    + unfold zlen in *. rewrite length_app. simpl. lia.
Qed.

Lemma GetInstance_ok n u s c x r x' : is_model_merge_enabled c = true →
  supported_engine_count c ≤ n → instances_ok n x →
  GetInstance u s c x = Some (r, x') → instances_ok n x'.
Proof.
  unfold GetInstance. intros Hm Hc Hx Hg. apply bind_Some in Hg as ([[st t] parts]&_&Hg).
  case_decide; [by simplify_eq|]. destruct (reusable c t _) as [i|] eqn:Hr.
  - apply bind_Some in Hg as (w&Hw&Hg). apply bind_Some in Hg as ([st1 w1]&Hreg&Hg). simplify_eq.
    apply RegisterModel_map in Hreg as [Ht Hne].
    eapply put_interface_ok; [done|exact Hw|done| |done].
    unfold reusable in Hr. case_match; [|done]. apply last_Some in Hr as [l' Hl'].
    assert (i ∈ listed (intf_key t) x) as Hi by (rewrite Hl'; set_solver).
    apply listed_elem in Hi as (l&Hl&Hi). by destruct (io_listed n x Hx _ _ _ Hl Hi) as (?&?&?&?);
      simplify_eq.
  - set (i := fresh (dom (interfaces x))) in Hg.
    assert (i ∉ dom (interfaces x)) as Hi by apply is_fresh.
    simpl in Hg. rewrite lookup_insert in Hg. rewrite decide_True in Hg by done. simpl in Hg.
    apply bind_Some in Hg as ([st1 w1]&Hreg&Hg). simplify_eq.
    apply RegisterModel_map in Hreg as [Ht Hne].
    assert (zlen (listed (intf_key t) x) < intf_limit n (intf_key t)) as Hlen.
    { revert Hr. unfold reusable. rewrite Hm. generalize (listed (intf_key t) x). intros l.
      assert (intf_limit n ST_MODULE_TYPE_PDK = Z.max 1 n) as HP by reflexivity.
      assert (1 ≤ intf_limit n t) by (unfold intf_limit; case_decide; lia).
      unfold intf_key. destruct (IS_MODULE_TYPE_PDK t); cbn [andb orb negb].
      - rewrite orb_false_r, HP.
        destruct (Z.leb_spec (supported_engine_count c) (zlen l)); [|lia].
        intros ->%last_None. unfold zlen. simpl. lia.
      - intros ->%last_None. unfold zlen. simpl. lia. }
    unfold put_interface, put_list. simpl. rewrite insert_insert, decide_True by done.
    by apply (new_interface_ok n (intf_key t) i w1 x); try rewrite Ht.
Qed.

(** An interface without streams leaves its list. *)
Lemma forget_interface_ok n i k x y :
  instances_ok n x →
  (∀ w, interfaces x !! i = Some w → intf_key (module_type_ w) = k) →
  (∀ j, j ≠ i → interfaces y !! j = interfaces x !! j) →
  (∀ w, interfaces y !! i = Some w → sm_info_map_ w = ∅) →
  intf_map_ y = (match erase_first i (listed k x) with
                 | [] => delete k (intf_map_ x) | l => <[k := l]> (intf_map_ x) end) →
  instances_ok n y.
Proof.
  intros [Hl Hu Hn] Hi Hy Hyi Hmap.
  assert (∀ k' l, intf_map_ x !! k' = Some l → i ∈ l → k' = k) as Hk.
  { intros k' l Hk' Hin. destruct (Hl k' l i Hk' Hin) as (w&Hw&<-&_). by apply Hi. }
  assert (NoDup (listed k x)) as Hnd.
  { unfold listed. destruct (intf_map_ x !! k) eqn:He; simpl; [by eapply Hn|constructor]. }
  assert (∀ k' l, intf_map_ y !! k' = Some l →
    (k' = k ∧ l = erase_first i (listed k x) ∧ l ≠ []) ∨
    (k' ≠ k ∧ intf_map_ x !! k' = Some l)) as Hsplit.
  { intros k' l. rewrite Hmap. destruct (erase_first i (listed k x)) eqn:He.
    - rewrite lookup_delete. case_decide; naive_solver.
    - rewrite lookup_insert. case_decide; naive_solver. }
  assert (∀ k', listed k' y = if decide (k' = k) then erase_first i (listed k x) else listed k' x)
    as Hlist.
  { intros k'. unfold listed at 1. rewrite Hmap. case_decide as Hk'.
    - subst. destruct (erase_first i (listed k x)); [by rewrite lookup_delete_eq|
        by rewrite lookup_insert_eq].
    - destruct (erase_first i (listed k x)); [by rewrite lookup_delete_ne|
        by rewrite lookup_insert_ne]. }
  split.
  - intros k' l j Hk' Hj. apply Hsplit in Hk' as [(->&->&_)|(Hne&Hk')].
    + apply erase_first_elem in Hj as [Hj Hne]; [|done]. apply listed_elem in Hj as (l'&?&?).
      rewrite Hy by done. by eapply Hl.
    + rewrite Hy; [by eapply Hl|]. intros ->. by apply Hne, (Hk _ l).
  - intros j w Hw Hne. destruct (decide (j = i)) as [->|Hji]; [by rewrite (Hyi w) in Hne|].
    rewrite Hy in Hw by done. rewrite Hlist. case_decide as Hk'; [|by apply Hu].
    apply erase_first_elem; [done|]. split; [|done]. rewrite <-Hk'. by apply Hu.
  - intros k' l Hk'. apply Hsplit in Hk' as [(->&->&Hne)|(Hne&Hk')]; [|by apply Hn].
    pose proof (erase_first_sublist i (listed k x)) as Hsub.
    split; [done|]. split; [by eapply sublist_NoDup|]. apply sublist_length in Hsub.
    destruct (intf_map_ x !! k) as [l|] eqn:He.
    + destruct (Hn k l He) as (_&_&Hlen). unfold listed, zlen in *. rewrite He in *. simpl in *. lia.
    + unfold listed in Hne. by rewrite He in Hne.
Qed.

Lemma DetachStream_ok n i s x x' : instances_ok n x → DetachStream i s x = Some x' →
  instances_ok n x'.
Proof.
  unfold DetachStream. intros Hx Hd. apply bind_Some in Hd as (w&Hw&Hd).
  assert (module_type_ (DeregisterModel s w) = module_type_ w) as Ht
    by (unfold DeregisterModel; by destruct (registered s w)).
  case_decide as Hsz; simplify_eq.
  - assert (sm_info_map_ (DeregisterModel s w) ≠ ∅) by (intros He; by rewrite He in Hsz).
    eapply put_interface_ok; try done. intros He. apply Hsz. unfold DeregisterModel, registered.
    rewrite He, lookup_empty. simpl. by rewrite He.
  - apply map_size_empty_inv in Hsz. rewrite Ht.
    replace (listed (intf_key (module_type_ w)) (put_interface i (DeregisterModel s w) x))
      with (listed (intf_key (module_type_ w)) x) by done.
    eapply (forget_interface_ok n i (intf_key (module_type_ w)) x); [done| | | |].
    + intros v Hv. by simplify_eq.
    + intros j Hj. case_match; simpl; by rewrite lookup_insert_ne.
    + intros v. case_match; simpl; rewrite lookup_insert_eq; by intros [= <-].
    + by destruct (erase_first _ _).
Qed.

(** C15: Interfaces are shared and forgotten correctly: after any history of streams coming,
    using their interfaces and going, with the merge of models enabled, the lists are
    exactly the interfaces that have streams, each once and under the kind of its module;
    no kind has more interfaces than engines: one, or the number supported for the
    multi-model kind.  Failed registrations are included. *)
Theorem interfaces_shared n x : inst_history n x → instances_ok n x.
Proof.
  induction 1 as [|x x' _ IH Hs].
  { split; intros *; unfold no_instances; simpl; by rewrite lookup_empty. }
  destruct Hs as [u s c intf st i x' Hm Hc Hg|i s x' Hd|i w w' Hw Ht Hdom].
  - unfold get_vui_interface in Hg. case_match; [|by simplify_eq].
    apply bind_Some in Hg as ([r x1]&Hg&He). simplify_eq. by eapply GetInstance_ok.
  - by eapply DetachStream_ok.
  - destruct (decide (sm_info_map_ w = ∅)) as [He|He].
    + eapply idle_interface_ok; try done. rewrite He, dom_empty_L in Hdom.
      by apply dom_empty_inv_L in Hdom.
    + eapply put_interface_ok; try done. intros He'. apply He. rewrite He', dom_empty_L in Hdom.
      by apply dom_empty_inv_L.
Qed.

End instances.

(** ** A closed example: two streams with simple models share an interface. *)
Module SvaInstancesDemo.
Import SvaDemo BoundedCopy.

Definition demo_sm_config : sound_model_config :=
  mkSmConfig (mkSoundModel PAL_SOUND_MODEL_TYPE_KEYPHRASE 0 4 0 1 1 [65; 66; 67; 68])
    ST_MODULE_TYPE_GMM true 1.
Definition demo_get (s : positive) (x : Instances) : option Instances :=
  snd <$> get_vui_interface demo_uninit s demo_sm_config None x.

Definition one_stream : Instances := default no_instances (demo_get 1 no_instances).
Definition two_streams : Instances := default no_instances (demo_get 2 one_stream).

Lemma interfaces_shared_witness :
  instances_ok 1 two_streams ∧ size (interfaces two_streams) = 1%nat ∧
  (λ w, size (sm_info_map_ w)) <$> interfaces two_streams !! 1%positive = Some 2%nat.
Proof.
  split; [|by vm_compute]. apply (interfaces_shared 1 two_streams).
  apply (ih_step 1 one_stream); [apply (ih_step 1 no_instances); [apply ih_start|]|].
  - by apply (is_get 1 _ demo_uninit 1%positive demo_sm_config None 0 (Some 1%positive)).
  - by apply (is_get 1 _ demo_uninit 2%positive demo_sm_config None 0 (Some 1%positive)).
Defined.
End SvaInstancesDemo.
