(* ===== verification/SvaLevelsSpec.v ===== *)
(** * Voice UI interface: the engine's levels follow the streams

    When the models of several streams are merged, the engine runs one model whose names
    are those of all streams.  The specification of its levels: a name has the level of
    the active stream it belongs to, and the level that never detects when no active
    stream has it.  It holds after every history of successful calls as long as no two
    streams share a name; when they do, stopping one stream silences the other. *)

From S2P Require Import Prelude PalDefs SoundTriggerState.
From S2P Require Import SvaState.
From S2P Require Import SvaConfig.
From S2P Require Import SvaConfigFacts.
From S2P Require Import SvaCodecFacts.
From S2P Require Import SvaModels.
From S2P Require Import SvaModelsFacts.
From S2P Require Import SvaEvent.
From S2P Require Import SvaEventFacts.

Section levels.
Context `{env : !SvaEnv, osal : !Osal, osal_spec : !OsalSpec osal}.
Hypothesis memory : ∀ n, calloc_ok n = true.
Hypothesis header_counts : ∀ d,
  0 ≤ numKeywords (GetSoundModelHeader d).2 < 2 ^ 16 ∧
  0 ≤ numUsers (GetSoundModelHeader d).2 < 2 ^ 16 ∧
  0 ≤ numActiveUserKeywordPairs (GetSoundModelHeader d).2 < 2 ^ 16.

(** ** The merge of levels *)

(** The levels after a name is given the level [v]. *)
Definition upd (name : string) (v : Z) (names : list string) (l : list Z) : list Z :=
  zip_with (λ n x, if decide (n = name) then u8 v else x) names l.
Definition upd_all (set : bool) (src : list (string * Z)) (names : list string) (l : list Z)
  : list Z :=
  foldl (λ l p, upd p.1 (if set then p.2 else MAX_CONF_LEVEL_VALUE) names l) l src.

Lemma upd_length name v names l : length names = length l → length (upd name v names l) = length l.
Proof. intros. unfold upd. rewrite length_zip_with. lia. Qed.

Lemma level_of_name_run name v names : ∀ pre rest e,
  cf_levels_ e = Some (pre ++ rest) → cf_levels_size_ e = zlen (pre ++ rest) →
  length rest = length names →
  level_of_name name v (zlen pre) names e =
  Some (set_cf_levels_ (Some (pre ++ upd name v names rest)) e).
Proof.
  induction names as [|n names IH]; intros pre rest e Hl Hs Hlen.
  - destruct rest; [|done]. simpl. rewrite <-Hl. by destruct e.
  - destruct rest as [|x rest]; [done|]. cbn [level_of_name].
    assert (zlen pre < cf_levels_size_ e) as Hlt.
    { rewrite Hs, zlen_app. unfold zlen. simpl. lia. }
    set (y := if decide (n = name) then u8 v else x).
    assert ((if decide (n = name) then UpdateConfLevel (zlen pre) v e else Some e) =
      Some (set_cf_levels_ (Some (pre ++ y :: rest)) e)) as ->.
    { unfold y. case_decide; [|rewrite <-Hl; by destruct e]. unfold UpdateConfLevel.
      rewrite (proj2 (Z.ltb_lt _ _) Hlt), Hl. cbn [mbind option_bind]. do 3 f_equal.
      replace (Z.to_nat (zlen pre)) with (length pre + 0)%nat by (unfold zlen; lia).
      by rewrite insert_app_r. }
    cbn [mbind option_bind]. replace (zlen pre + 1) with (zlen (pre ++ [y]))
      by (rewrite zlen_app; done).
    rewrite (cons_middle y pre rest), app_assoc.
    rewrite (IH (pre ++ [y]) rest); [|done| |simpl in Hlen; lia].
    + cbn [upd zip_with]. fold y. rewrite <-app_assoc. by destruct e.
    + simpl. rewrite Hs, !zlen_app. unfold zlen. simpl. lia.
Qed.

Lemma levels_of_Some e l : levels_of e = Some l → smi_ok e →
  zlen l = cf_levels_size_ e ∧ Forall byte_ok l ∧
  (cf_levels_ e = Some l ∨ (cf_levels_size_ e = 0 ∧ l = [])).
Proof.
  unfold levels_of. intros Hl Hok. case_decide as Hz; [simplify_eq; rewrite Hz; auto|].
  apply bind_Some in Hl as (l'&Hc&Hl). case_decide; [|done]. simplify_eq.
  split_and!; [done| |by left]. by apply (ok_levels e Hok).
Qed.

Lemma names_of_length e l : names_of e = Some l → zlen l = cf_levels_size_ e.
Proof.
  unfold names_of. intros Hl. case_decide as Hz; [simplify_eq; by rewrite Hz|].
  apply bind_Some in Hl as (l'&Hc&Hl). case_decide; [|done]. by simplify_eq.
Qed.

Lemma merge_levels_run set src names : ∀ e e' l,
  smi_ok e → zlen names = cf_levels_size_ e → levels_of e = Some l →
  merge_levels set src names e = Some e' → levels_of e' = Some (upd_all set src names l).
Proof.
  induction src as [|[n v] src IH]; intros e e' l He Hn Hl Hm; cbn [merge_levels] in Hm.
  { by simplify_eq. }
  apply bind_Some in Hm as (e1&H1&Hm).
  pose proof (level_of_name_ok _ _ _ _ _ _ He H1) as (He1&_&Hs1).
  destruct (levels_of_Some e l Hl He) as (Hlen&_&Hc).
  assert (levels_of e1 = Some (upd n (if set then v else MAX_CONF_LEVEL_VALUE) names l)) as Hl1.
  { destruct Hc as [Hc|[Hz ->]].
    - change 0 with (zlen (@nil Z)) in H1.
      rewrite (level_of_name_run _ _ names [] l e) in H1; [|done|done|unfold zlen in *; lia].
      cbn [app] in H1. simplify_eq. unfold levels_of. simpl. case_decide as Hz.
      + rewrite Hz in Hlen, Hn. destruct l; [|done]. by destruct names.
      + rewrite decide_True; [done|]. unfold zlen in *. rewrite upd_length; lia.
    - rewrite Hz in Hn. destruct names; [|done]. simpl in H1. simplify_eq.
      unfold levels_of. rewrite decide_True by done. done. }
  cbn [upd_all foldl fst snd]. eapply IH; [done|by rewrite Hs1|done|done].
Qed.

Lemma upd_lookup name v names l j n x : names !! j = Some n → l !! j = Some x →
  upd name v names l !! j = Some (if decide (n = name) then u8 v else x).
Proof. intros Hn Hl. unfold upd. rewrite lookup_zip_with, Hn. simpl. by rewrite Hl. Qed.

(** A name of the source gets its level, any other keeps its own. *)
Lemma upd_all_lookup set src names j n : names !! j = Some n → NoDup src.*1 →
  ∀ l x, l !! j = Some x →
  (∀ v, (n, v) ∈ src → upd_all set src names l !! j =
        Some (u8 (if set then v else MAX_CONF_LEVEL_VALUE))) ∧
  (n ∉ src.*1 → upd_all set src names l !! j = Some x).
Proof.
  intros Hn. induction src as [|[m v] src IH]; intros Hd l x Hl.
  { split; [|done]. intros v Hv. by apply not_elem_of_nil in Hv. }
  rewrite fmap_cons in Hd. apply NoDup_cons in Hd as [Hnotin Hd]. cbn [fst] in Hnotin.
  cbn [upd_all foldl fst snd].
  pose proof (upd_lookup m (if set then v else MAX_CONF_LEVEL_VALUE) names l j n x Hn Hl) as Hu.
  destruct (IH Hd _ _ Hu) as [H1 H2]. split.
  - intros v' [[= -> ->]|Hin]%elem_of_cons; [|by apply H1].
    rewrite decide_True in H2 by done. by apply H2.
  - rewrite fmap_cons, not_elem_of_cons. intros [Hne Hni]. rewrite decide_False in H2 by done.
    by apply H2.
Qed.

(** Levels as a table: [T name v] says that [name] should have the level [v]. *)
Definition obeys (T : string → Z → Prop) (names : list string) (l : list Z) : Prop :=
  ∀ j name x, names !! j = Some name → l !! j = Some x →
  T name x ∨ (x = MAX_CONF_LEVEL_VALUE ∧ ∀ v, ¬ T name v).

Lemma merge_obeys set ns ls names l (T T' : string → Z → Prop) :
  NoDup ns → length ns = length ls → Forall byte_ok ls → length names = length l →
  obeys T names l →
  (∀ k name v, ns !! k = Some name → ls !! k = Some v →
     if (set : bool) then T' name v else (∀ u, ¬ T' name u)) →
  (∀ name v, name ∉ ns → T' name v ↔ T name v) →
  obeys T' names (upd_all set (zip ns ls) names l).
Proof.
  intros Hd Hlen Hb Hnl Ho Hin Hout j name x Hj Hx.
  destruct (lookup_lt_is_Some_2 l j) as [y Hy].
  { apply lookup_lt_Some in Hj. lia. }
  assert ((zip ns ls).*1 = ns) as Hz by (apply fst_zip; lia).
  destruct (upd_all_lookup set (zip ns ls) names j name Hj ltac:(by rewrite Hz) l y Hy)
    as [H1 H2]. rewrite Hz in H2.
  destruct (decide (name ∈ ns)) as [Hn|Hn].
  - apply list_elem_of_lookup in Hn as [k Hk].
    destruct (lookup_lt_is_Some_2 ls k) as [v Hv]; [apply lookup_lt_Some in Hk; lia|].
    rewrite (H1 v) in Hx.
    2: { apply list_elem_of_lookup. exists k. rewrite lookup_zip_with, Hk. simpl. by rewrite Hv. }
    specialize (Hin k name v Hk Hv). destruct set; simplify_eq; [left|by right].
    rewrite u8_small; [done|]. rewrite Forall_lookup in Hb. apply (Hb k v Hv).
  - rewrite (H2 Hn) in Hx. simplify_eq. destruct (Ho j name x Hj Hy) as [?|[-> Hno]].
    + left. by apply Hout.
    + right. split; [done|]. intros v Hv. apply Hout in Hv; [|done]. by apply (Hno v).
Qed.

(** ** The specification *)

(** A stream of [P] is active and has [v] as the level of [name]. *)
Definition stream_level (P : positive → Prop) (w : SVAInterface) (name : string) (v : Z) : Prop :=
  ∃ s info i ns ls k, P s ∧ registered s w = Some info ∧ si_state info = true ∧
    si_info info = Some i ∧ names_of i = Some ns ∧ levels_of i = Some ls ∧
    ns !! k = Some name ∧ ls !! k = Some v.

(** The engine's levels follow the active streams of [P]. *)
Definition follows (P : positive → Prop) (w : SVAInterface) : Prop :=
  ∃ names l, names_of (sound_model_info_ w) = Some names ∧
    levels_of (sound_model_info_ w) = Some l ∧ obeys (stream_level P w) names l.

(** No name occurs twice among the registered streams. *)
Definition names_distinct (w : SVAInterface) : Prop :=
  ∀ s s' info info' i i' ns ns' k k' name,
    registered s w = Some info → registered s' w = Some info' →
    si_info info = Some i → si_info info' = Some i' →
    names_of i = Some ns → names_of i' = Some ns' →
    ns !! k = Some name → ns' !! k' = Some name → s = s' ∧ k = k'.

(** What the specification reads of a stream, and of a state. *)
Definition shown (info : sound_model_info)
  : bool * option (option (list string) * option (list Z)) :=
  (si_state info, (λ i, (names_of i, levels_of i)) <$> si_info info).
Definition same_levels (w w' : SVAInterface) : Prop :=
  sound_model_info_ w' = sound_model_info_ w ∧ sm_merged_ w' = sm_merged_ w ∧
  ∀ s, shown <$> registered s w' = shown <$> registered s w.

Lemma same_levels_stream P w w' name v : same_levels w w' →
  stream_level P w name v → stream_level P w' name v.
Proof.
  intros (_&_&Hs) (s&info&i&ns&ls&k&HP&Hr&Hst&Hi&Hn&Hl&H4). specialize (Hs s). rewrite Hr in Hs.
  destruct (registered s w') as [info'|] eqn:Hr'; [|done]. simpl in Hs.
  unfold shown in Hs. rewrite Hi in Hs. simpl in Hs.
  destruct (si_info info') as [i'|] eqn:Hi'; [|done]. injection Hs as H1 H2 H3.
  exists s, info', i', ns, ls, k. split_and!; [done|done|congruence|done|congruence|congruence
    |apply H4..].
Qed.

#[export] Instance same_levels_equiv : Equivalence same_levels.
Proof.
  split.
  - intros w. by split_and!.
  - intros w w' (?&?&?). split_and!; done.
  - intros w1 w2 w3 (?&?&H1) (?&?&H2). split_and!; [congruence|congruence|].
    intros s. by rewrite H2.
Qed.

Lemma same_levels_follows P w w' : same_levels w w' → follows P w → follows P w'.
Proof.
  intros Hs (names&l&Hn&Hl&Ho). pose proof Hs as (He&_&_). exists names, l. rewrite He.
  split_and!; [done|done|]. intros j name x Hj Hx.
  destruct (Ho j name x Hj Hx) as [?|[-> Hno]]; [left; by eapply same_levels_stream|right].
  split; [done|]. intros v Hv. eapply Hno, same_levels_stream; [by symmetry|done].
Qed.

Lemma same_levels_update s f w :
  (∀ i, registered s w = Some i → shown (f i) = shown i) → same_levels w (update_info s f w).
Proof.
  intros Hf. split_and!; [done|done|]. intros s'. destruct (decide (s' = s)) as [->|].
  - rewrite registered_update. destruct (registered s w) as [i|]; [|done]. simpl.
    by rewrite Hf.
  - unfold registered, update_info. simpl. by rewrite lookup_alter_ne.
Qed.

Lemma same_levels_map w w' : sound_model_info_ w' = sound_model_info_ w →
  sm_merged_ w' = sm_merged_ w → sm_info_map_ w' = sm_info_map_ w → same_levels w w'.
Proof. intros ?? Hm. split_and!; [done|done|]. intros s. unfold registered. by rewrite Hm. Qed.

(** The model of an active stream. *)
Definition live (s : positive) (w : SVAInterface) : option SoundModelInfo :=
  registered s w ≫= λ info, if si_state info then si_info info else None.

Lemma stream_level_live P w name v : stream_level P w name v ↔
  ∃ s i ns ls k, P s ∧ live s w = Some i ∧ names_of i = Some ns ∧ levels_of i = Some ls ∧
    ns !! k = Some name ∧ ls !! k = Some v.
Proof.
  unfold live. split.
  - intros (s&info&i&ns&ls&k&?&Hr&Hs&?&?). exists s, i, ns, ls, k. rewrite Hr. simpl.
    by rewrite Hs.
  - intros (s&i&ns&ls&k&?&Hl&?). apply bind_Some in Hl as (info&Hr&Hl).
    destruct (si_state info) eqn:Hs; [|done]. by exists s, info, i, ns, ls, k.
Qed.

Lemma follows_live P w w' : sound_model_info_ w' = sound_model_info_ w →
  (∀ s, live s w' = live s w) → follows P w → follows P w'.
Proof.
  intros He Hs (names&l&Hn&Hl&Ho). exists names, l. rewrite He. split_and!; [done|done|].
  assert (∀ name v, stream_level P w' name v ↔ stream_level P w name v) as Hiff.
  { intros name v. rewrite !stream_level_live. by setoid_rewrite Hs. }
  intros j name x Hj Hx. destruct (Ho j name x Hj Hx) as [?|[-> Hno]]; [left; by apply Hiff|].
  right. split; [done|]. intros v Hv. by apply (Hno v), Hiff.
Qed.

Lemma registered_other s s' f w : s' ≠ s → registered s' (update_info s f w) = registered s' w.
Proof. intros. unfold registered, update_info. simpl. by rewrite lookup_alter_ne. Qed.

(** ** Starting and stopping a stream *)

Lemma names_NoDup w s info i ns : names_distinct w → registered s w = Some info →
  si_info info = Some i → names_of i = Some ns → NoDup ns.
Proof.
  intros Hd Hr Hi Hn. apply NoDup_alt. intros k k' name Hk Hk'.
  by destruct (Hd s s info info i i ns ns k k' name).
Qed.

(** The merge of a stream's levels into an engine that follows [P]: [w1] is the state with
    the stream's new information, in which nothing else has changed. *)
Lemma merge_follows (set : bool) (P P' : positive → Prop) s info info1 i1 w w1 w2 :
  sva_ok w1 → names_distinct w1 →
  registered s w = Some info → registered s w1 = Some info1 → si_info info1 = Some i1 →
  si_state info1 = set → (∀ s', s' ≠ s → registered s' w1 = registered s' w) →
  (P s → si_state info = true → ∃ i, si_info info = Some i ∧ names_of i = names_of i1) →
  (∀ s', s' ≠ s → P' s' ↔ P s') → P' s →
  sound_model_info_ w1 = sound_model_info_ w → sm_merged_ w1 = true → follows P w →
  UpdateMergeConfLevelsPayload (Some i1) set w1 = Some (0, w2) →
  follows P' w2.
Proof.
  intros Hok Hd Hr Hr1 Hi1 Hst Hother Hold HP HPs He Hm (names&l&Hn&Hl&Ho) Hu.
  unfold UpdateMergeConfLevelsPayload in Hu. rewrite Hm in Hu. cbn [negb] in Hu.
  case_match; [done|]. apply bind_Some in Hu as (ns&Hns&Hu).
  apply bind_Some in Hu as (ls&Hls&Hu). apply bind_Some in Hu as (enames&Hen&Hu).
  apply bind_Some in Hu as (e&Hme&Hu). simplify_eq. rewrite He in Hen, Hme. rewrite Hn in Hen. simplify_eq.
  assert (smi_ok (sound_model_info_ w)) as Heok by (rewrite <-He; apply Hok).
  assert (smi_ok i1) as Hiok.
  { eapply stream_info_ok in Hr1; [|done]. by eapply ok_info. }
  destruct (levels_of_Some _ _ Hl Heok) as (Hll&_&_).
  destruct (levels_of_Some _ _ Hls Hiok) as (Hlsl&Hlsb&_).
  pose proof (names_of_length _ _ Hns) as Hnsl. pose proof (names_of_length _ _ Hn) as Hnl.
  pose proof (merge_levels_ok _ _ _ _ _ Heok Hme) as (_&Hnames&_).
  eapply merge_levels_run in Hme; [|done|done|done].
  exists enames, (upd_all (si_state info1) (zip ns ls) enames l). simpl.
  split_and!; [by rewrite Hnames|done|].
  eapply merge_obeys; [by eapply names_NoDup|unfold zlen in *; lia|done|unfold zlen in *; lia
    |done| |].
  - intros k name v Hk Hv. destruct (si_state info1) eqn:Hs1.
    + exists s, info1, i1, ns, ls, k. done.
    + intros u (s'&info'&i'&ns'&ls'&k'&_&Hr'&Hst'&Hi'&Hn'&_&Hk'&_).
      change (registered s' w1 = Some info') in Hr'.
      destruct (Hd s s' info1 info' i1 i' ns ns' k k' name) as [<- _]; [done..|].
      rewrite Hr1 in Hr'. injection Hr' as <-. congruence.
  - intros name v Hnotin. split.
    + intros (s'&info'&i'&ns'&ls'&k'&HP'&Hr'&Hst'&Hi'&Hn'&Hl'&Hk'&Hv').
      change (registered s' w1 = Some info') in Hr'.
      destruct (decide (s' = s)) as [->|Hne].
      { exfalso. apply Hnotin. simplify_eq. by eapply list_elem_of_lookup_2. }
      rewrite Hother in Hr' by done. exists s', info', i', ns', ls', k'.
      split_and!; try done. by apply HP.
    + intros (s'&info'&i'&ns'&ls'&k'&HP'&Hr'&Hst'&Hi'&Hn'&Hl'&Hk'&Hv').
      destruct (decide (s' = s)) as [->|Hne].
      { exfalso. apply Hnotin. rewrite Hr in Hr'. simplify_eq.
        destruct (Hold HP' Hst') as (i0&Hi0&Heq). simplify_eq.
        rewrite Heq in Hn'. simplify_eq. by eapply list_elem_of_lookup_2. }
      exists s', info', i', ns', ls', k'. split_and!; try done; [by apply HP|].
      change (registered s' w1 = Some info'). by rewrite Hother.
Qed.

Lemma UpdateMergeConfLevelsPayload_frame src set w st w' :
  UpdateMergeConfLevelsPayload src set w = Some (st, w') → ∃ e, w' = set_sound_model_info_ e w.
Proof.
  unfold UpdateMergeConfLevelsPayload. intros Hu.
  assert (∃ e, w = set_sound_model_info_ e w) by (exists (sound_model_info_ w); by destruct w).
  destruct src as [src|]; [|by simplify_eq]. case_match.
  - apply bind_Some in Hu as (e&_&Hu). apply bind_Some in Hu as (e1&_&Hu). simplify_eq. eauto.
  - case_match; [by simplify_eq|]. apply bind_Some in Hu as (a&_&Hu).
    apply bind_Some in Hu as (b&_&Hu). apply bind_Some in Hu as (c&_&Hu).
    apply bind_Some in Hu as (e&_&Hu). simplify_eq. eauto.
Qed.

Lemma names_distinct_transfer w w1 :
  (∀ s info i, registered s w1 = Some info → si_info info = Some i →
     ∃ info0 i0, registered s w = Some info0 ∧ si_info info0 = Some i0 ∧
                 names_of i0 = names_of i) →
  names_distinct w → names_distinct w1.
Proof.
  intros Ht Hd s s' info info' i i' ns ns' k k' name Hr Hr' Hi Hi' Hn Hn' Hk Hk'.
  destruct (Ht s info i Hr Hi) as (a&b&?&?&?), (Ht s' info' i' Hr' Hi') as (a'&b'&?&?&?).
  apply (Hd s s' a a' b b' ns ns' k k' name); congruence.
Qed.

Lemma follows_iff P P' w :
  (∀ s info, registered s w = Some info → si_state info = true → P s ↔ P' s) →
  follows P w → follows P' w.
Proof.
  intros HP (names&l&Hn&Hl&Ho). exists names, l. split_and!; [done|done|].
  assert (∀ name v, stream_level P w name v ↔ stream_level P' w name v) as Hiff.
  { intros name v. split; intros (s&info&i&ns&ls&k&Hp&Hr&Hs&Hrest);
      exists s, info, i, ns, ls, k; (split; [by apply (HP s info)|done]). }
  intros j name x Hj Hx. destruct (Ho j name x Hj Hx) as [?|[-> Hno]]; [left; by apply Hiff|].
  right. split; [done|]. intros v Hv. by apply (Hno v), Hiff.
Qed.

Notation every := (λ _ : positive, True).

Lemma SetModelState_follows s b w w' :
  sva_ok w → names_distinct w → sm_merged_ w = true → follows every w →
  SetModelState s b w = Some (0, w') → follows every w'.
Proof.
  unfold SetModelState. intros Hw Hd Hm Hf Hs.
  destruct (sm_info_map_ w !! s) as [o|] eqn:Ho; [|by simplify_eq].
  apply bind_Some in Hs as (info&->&Hs).
  assert (registered s w = Some info) as Hr by (unfold registered; by rewrite Ho).
  pose proof (stream_info_ok s w info Hw Hr) as Hinfo.
  case_decide as Hst; [by simplify_eq|].
  assert (sva_ok (update_info s (set_si_state b) w)) as Hw1.
  { apply update_info_ok; [done|]. intros i _ []. by split. }
  assert (registered s (update_info s (set_si_state b) w) = Some (set_si_state b info)) as Hr1
    by (by rewrite registered_update, Hr).
  destruct (si_info info) as [i|] eqn:Hi.
  2: { simplify_eq. apply (follows_live _ w); [done| |done]. intros s'. unfold live.
       destruct (decide (s' = s)) as [->|]; [|by rewrite registered_other].
       rewrite Hr1, Hr. simpl. rewrite Hi. by repeat case_match. }
  apply bind_Some in Hs as ([s1 i1]&Hu&Hs).
  apply UpdateConfLevelArray_ok in Hu as (Hi1&Hnames&_); [|by eapply ok_info|by apply Hinfo].
  apply bind_Some in Hs as ([s2 w2]&Hmerge&Hs). case_decide; [by simplify_eq|].
  assert (s2 = 0) as -> by lia.
  set (w1 := put_sound_model_info s i1 (update_info s (set_si_state b) w)) in Hmerge.
  assert (registered s w1 = Some (set_si_info (Some i1) (set_si_state b info))) as Hrw1.
  { unfold w1, put_sound_model_info. by rewrite registered_update, Hr1. }
  assert (∀ s', s' ≠ s → registered s' w1 = registered s' w) as Hother.
  { intros s' Hne. unfold w1, put_sound_model_info. by rewrite !registered_other. }
  assert (follows every w2) as Hf2.
  { eapply (merge_follows b every every s info (set_si_info (Some i1) (set_si_state b info))
      i1 w w1 w2); try done.
    - by apply put_sound_model_info_ok.
    - eapply names_distinct_transfer; [|exact Hd]. intros s' info' i' Hr' Hi'.
      destruct (decide (s' = s)) as [->|Hne].
      + rewrite Hrw1 in Hr'. simplify_eq/=. eauto.
      + rewrite Hother in Hr' by done. eauto.
    - intros _ _. exists i. done. }
  destruct (if decide (size (sm_info_map_ w2) = 1%nat) then _ else _) as [[mode n] src].
  apply bind_Some in Hs as (lv&_&Hs). apply bind_Some in Hs as (k&_&Hs). simplify_eq.
  eapply same_levels_follows; [|done]. by apply same_levels_map.
Qed.

(** ** A new merged model *)

Lemma update_active_frame l : ∀ w st w',
  update_active l w = Some (st, w') → ∃ e, w' = set_sound_model_info_ e w.
Proof.
  induction l as [|[x o] l IH]; intros w st w' Hu; simpl in Hu.
  { simplify_eq. exists (sound_model_info_ w'). by destruct w'. }
  apply bind_Some in Hu as (info&->&Hu). case_match; [|by eapply IH].
  apply bind_Some in Hu as ([s1 w1]&Hm&Hu).
  apply UpdateMergeConfLevelsPayload_frame in Hm as [e ->].
  case_decide; [|simplify_eq; by exists e]. apply IH in Hu as [e' ->]. by exists e'.
Qed.

Lemma update_active_follows l : ∀ (P : positive → Prop) w w',
  sva_ok w → names_distinct w → sm_merged_ w = true →
  (∀ x o, (x, o) ∈ l → sm_info_map_ w !! x = Some o) → NoDup l.*1 →
  (∀ x, x ∈ l.*1 → ¬ P x) → follows P w → update_active l w = Some (0, w') →
  follows (λ x, P x ∨ x ∈ l.*1) w'.
Proof.
  induction l as [|[x o] l IH]; intros P w w' Hw Hd Hm Hl Hnd HP Hf Hu; simpl in Hu.
  { simplify_eq. eapply follows_iff; [|done]. intros. set_solver. }
  apply bind_Some in Hu as (info&->&Hu). rewrite fmap_cons in Hnd.
  apply NoDup_cons in Hnd as [Hx Hnd]. cbn [fst] in Hx.
  assert (registered x w = Some info) as Hr
    by (unfold registered; by rewrite (Hl x (Some info)) by set_solver).
  destruct (si_state info) eqn:Hst.
  - apply bind_Some in Hu as ([s1 w1]&Hmerge&Hu). case_decide; [subst s1|by simplify_eq].
    assert (GetSoundModelInfo x w = si_info info) as Hg
      by (unfold GetSoundModelInfo; by rewrite Hr).
    rewrite Hg in Hmerge. destruct (si_info info) as [i|] eqn:Hi; [|done].
    assert (follows (λ y, P y ∨ y = x) w1) as Hf1.
    { eapply (merge_follows true P (λ y, P y ∨ y = x) x info info i w w w1); try done.
      - intros HPx. exfalso. by apply (HP x); [set_solver|].
      - intros s' Hne. tauto.
      - by right. }
    pose proof Hmerge as Hmerge'. apply UpdateMergeConfLevelsPayload_frame in Hmerge as [e ->].
    eapply (IH (λ y, P y ∨ y = x)) in Hu; try done.
    + eapply follows_iff; [|done]. intros. simpl. rewrite elem_of_cons. tauto.
    + eapply UpdateMergeConfLevelsPayload_ok; [exact memory| |done|done]. intros i' [= <-].
      eapply stream_info_ok in Hr; [|done]. by eapply ok_info.
    + intros y o Hy. simpl. apply Hl. set_solver.
    + intros y Hy [Hpy| ->]; [|done]. by apply (HP y); [set_solver|].
  - pose proof (update_active_frame _ _ _ _ Hu) as [e He].
    eapply (IH P) in Hu; try done; [|set_solver|set_solver].
    eapply follows_iff; [|exact Hu]. intros s' info' Hr' Hst'. rewrite fmap_cons, elem_of_cons.
    cbn [fst]. split; [tauto|]. intros [?|[->|?]]; [tauto| |tauto]. exfalso.
    rewrite He in Hr'. change (registered x w = Some info') in Hr'. simplify_eq. congruence.
Qed.

Lemma map_entries_elem {A} (m : gmap positive A) x o :
  (x, o) ∈ map_entries m ↔ m !! x = Some o.
Proof. unfold map_entries. rewrite merge_sort_Permutation. apply elem_of_map_to_list. Qed.
Lemma map_entries_NoDup {A} (m : gmap positive A) : NoDup (map_entries m).*1.
Proof. unfold map_entries. rewrite merge_sort_Permutation. apply NoDup_fst_map_to_list. Qed.

(** The levels of a model the library has just described are those that never detect. *)
Definition silent (i : SoundModelInfo) : Prop :=
  ∃ ns ls, names_of i = Some ns ∧ levels_of i = Some ls ∧ Forall (eq MAX_CONF_LEVEL_VALUE) ls.

Lemma silent_empty i : cf_levels_size_ i = 0 → silent i.
Proof.
  intros Hz. exists [], []. unfold names_of, levels_of. by rewrite !decide_True by done.
Qed.

Lemma SetConfLevels_silent pairs per flags i i' :
  SetConfLevels pairs per flags i = Some (0, i') → silent i'.
Proof.
  unfold SetConfLevels. rewrite (AllocArrayPtrs_ok memory), memory. cbn [negb].
  pose proof (u32_range (num_keyphrases_ i + pairs)) as Hr. revert Hr.
  generalize (u32 (num_keyphrases_ i + pairs)). intros n Hr Hs.
  case_decide as Hz; [simplify_eq; by apply silent_empty|].
  apply bind_Some in Hs as (kws&_&Hs). apply bind_Some in Hs as (us&_&Hs).
  apply bind_Some in Hs as (l&Hl&Hs). simplify_eq. apply name_keywords_length in Hl.
  simpl in Hl. rewrite length_replicate in Hl.
  exists (nl_names l), (replicate (Z.to_nat n) MAX_CONF_LEVEL_VALUE).
  unfold names_of, levels_of. simpl. rewrite !(decide_False (P := n = 0)) by done. unfold zlen.
  split_and!; [by rewrite decide_True by lia| |by apply Forall_replicate].
  by rewrite length_replicate, decide_True by lia.
Qed.

Lemma QuerySoundModel_silent d i i' : cf_levels_size_ i = 0 →
  QuerySoundModel i d = Some (0, i') → silent i'.
Proof.
  unfold QuerySoundModel. destruct (GetSoundModelHeader d) as [ret h]. intros Hz Hq.
  case_match; [done|]. case_match; [done|].
  case_match; [simplify_eq; by apply silent_empty|].
  case_match; [simplify_eq; by apply silent_empty|].
  apply bind_Some in Hq as ([s1 i1]&_&Hq). case_decide; [simplify_eq; done|].
  apply bind_Some in Hq as ([s2 i2]&_&Hq). case_decide; [simplify_eq; done|].
  apply bind_Some in Hq as ([s3 i3]&Hc&Hq). case_decide as Hs3; [simplify_eq; done|].
  rewrite Hs3 in Hc. apply SetConfLevels_silent in Hc. by simplify_eq.
Qed.

Lemma silent_follows w : silent (sound_model_info_ w) → follows (λ _, False) w.
Proof.
  intros (ns&ls&Hn&Hl&Ha). exists ns, ls. split_and!; [done|done|]. intros j name x Hj Hx.
  right. split; [|by intros v (?&?&?&?&?&?&[]&_)].
  rewrite Forall_lookup in Ha. by symmetry; apply (Ha j).
Qed.

Lemma install_model_follows smaller out w w' :
  sva_ok w → names_distinct w → install_model smaller out w = Some (0, w') →
  follows every w' ∧ ∃ e, w' = set_sm_merged_ true (set_sound_model_info_ e w).
Proof.
  unfold install_model. intros Hw Hd Hi. apply bind_Some in Hi as ([s1 i]&Hq&Hi).
  assert (smi_ok (SetModelData out smi_init)) as Hfresh
    by (apply SetModelData_ok; [done|apply smi_init_ok]).
  pose proof (QuerySoundModel_ok memory header_counts _ _ _ _ Hfresh Hq) as Hiok.
  case_decide as H1; [simplify_eq; done|]. assert (s1 = 0) as -> by lia.
  apply QuerySoundModel_silent in Hq; [|unfold SetModelData; rewrite memory; by case_decide].
  case_match; [done|]. apply bind_Some in Hi as (e&He&Hi).
  apply smi_assign_ok in He as (He&_&Hen&Hel); [|done..].
  set (w1 := set_sm_merged_ true (set_sound_model_info_ e w)) in Hi.
  assert (sva_ok w1) as Hw1 by (by apply set_merged_ok, set_engine_ok).
  pose proof (update_active_frame _ _ _ _ Hi) as [e' He']. split; [|exists e'; by subst].
  eapply (update_active_follows _ (λ _, False)) in Hi; try done.
  - eapply follows_iff; [|exact Hi]. intros s info Hr Hst. split; [done|]. intros _. right.
    rewrite He' in Hr. change (registered s w = Some info) in Hr. unfold registered in Hr.
    destruct (sm_info_map_ w !! s) as [o|] eqn:Ho; [|done].
    apply list_elem_of_fmap. exists (s, o). split; [done|]. by apply map_entries_elem.
  - intros x o. by rewrite map_entries_elem.
  - apply map_entries_NoDup.
  - intros x _ [].
  - apply silent_follows. destruct Hq as (ns&ls&Hn&Hl&Ha). exists ns, ls. simpl.
    by rewrite Hen, Hel.
Qed.

(** ** Calls that leave the levels alone *)

Lemma ParseOpaqueConfLevels_same s info c v out w st out' w' :
  ParseOpaqueConfLevels s info c v out w = Some (st, out', w') → same_levels w w'.
Proof.
  assert (∀ b c, same_levels w (set_cached_levels b c w)) as Hc
    by (intros [] ?; by apply same_levels_map).
  unfold ParseOpaqueConfLevels. rewrite memory. simpl. intros Hp.
  destruct (for_array _ _ _ _ _) as [[s1|l]|]; simplify_eq; [done|].
  etransitivity; [by apply Hc|]. by apply same_levels_update.
Qed.

Lemma config_param_same s data off key size l w x w' :
  config_param s data off key size l w = Some (x, w') → same_levels w w'.
Proof.
  unfold config_param. intros Hp.
  destruct (decide (key = ST_PARAM_KEY_CONFIDENCE_LEVELS)).
  { apply bind_Some in Hp as (v&_&Hp).
    etransitivity; [by apply (same_levels_update s (set_conf_levels_intf_version v))|].
    case_decide; [|by simplify_eq]. apply bind_Some in Hp as (b&_&Hp).
    apply bind_Some in Hp as (i&_&Hp). apply bind_Some in Hp as ([[st o] w2]&Ho&Hp).
    apply ParseOpaqueConfLevels_same in Ho. by case_decide; simplify_eq. }
  repeat (case_decide; [|]); rewrite ?memory in Hp;
    try apply bind_Some in Hp as (?&_&Hp); simplify_eq; try done; by apply same_levels_map.
Qed.

Lemma config_loop_same s data end_ fuel : ∀ off l w r w',
  config_loop fuel s data end_ off l w = Some (r, w') → same_levels w w'.
Proof.
  induction fuel as [|fuel IH]; intros off l w r w' Hc; cbn [config_loop] in Hc;
    (case_match; [by simplify_eq|]); [done|].
  apply bind_Some in Hc as (key&_&Hc). apply bind_Some in Hc as (sz&_&Hc).
  apply bind_Some in Hc as ([x w1]&Hx%config_param_same&Hc).
  destruct x as [st|[n l1]]; simplify_eq; [done|]. etransitivity; [done|]. by eapply IH.
Qed.

Lemma ParseRecognitionConfig_same s c w st w' :
  ParseRecognitionConfig s c w = Some (st, w') → same_levels w w'.
Proof.
  unfold ParseRecognitionConfig. intros Hp. destruct (registered s w); [|by simplify_eq].
  assert (same_levels w (update_info s (set_rec_config c) w)) as Hs
    by (by apply same_levels_update).
  destruct c as [c|]; [|by simplify_eq]. apply bind_Some in Hp as ([r w1]&Hr&Hp).
  etransitivity; [exact Hs|]. transitivity w1.
  - case_match; [by eapply config_loop_same|]. case_decide; [|by simplify_eq].
    apply bind_Some in Hr as ([??]&_&Hr). by simplify_eq.
  - destruct r as [st1|l]; simpl in Hp; simplify_eq; [by apply same_levels_map|].
    etransitivity; [|by apply same_levels_update]. by apply same_levels_map.
Qed.

Lemma UpdateKeywordIndex_same s a b c w w' :
  UpdateKeywordIndex s a b c w = Some w' → same_levels w w'.
Proof.
  unfold UpdateKeywordIndex. intros Hu. case_match; [by simplify_eq|].
  case_match; [|by simplify_eq]. apply bind_Some in Hu as (e&_&Hu). simplify_eq.
  by apply same_levels_map.
Qed.

Lemma ParseDetectionPayloadGMM_same s event w st w' :
  ParseDetectionPayloadGMM s event w = Some (st, w') → same_levels w w'.
Proof.
  unfold ParseDetectionPayloadGMM. intros Hp. apply bind_Some in Hp as (g&_&Hp).
  case_decide; [by simplify_eq|]. rewrite memory in Hp. cbn [negb] in Hp.
  apply bind_Some in Hp as ([st1|[i ftrt]]&_&Hp); [by simplify_eq|].
  apply bind_Some in Hp as (w1&Hu%UpdateKeywordIndex_same&Hp). simplify_eq.
  etransitivity; [|exact Hu]. by apply same_levels_map.
Qed.

Lemma ParseDetectionPayload_same s event w st w' : sva_ok w →
  ParseDetectionPayload s event w = Some (st, w') → same_levels w w'.
Proof.
  unfold ParseDetectionPayload. intros Hw Hp. case_decide; [by simplify_eq|].
  case_decide.
  { apply bind_Some in Hp as ([st1 w1]&H1&Hp).
    pose proof (ParseDetectionPayloadGMM_ok memory _ _ _ _ _ Hw H1) as Hw1.
    apply ParseDetectionPayloadGMM_same in H1.
    apply bind_Some in Hp as (so&_&Hp). apply bind_Some in Hp as (w2&H2&Hp). simplify_eq.
    etransitivity; [exact H1|].
    apply CheckAndSetDetectionConfLevels_frame in H2 as [->|(s1&i&x&Hi&?&->)]; [done| |done].
    apply same_levels_update. intros info Hr. unfold GetSoundModelInfo in Hi. rewrite Hr in Hi.
    simpl in Hi. unfold shown. simpl. by rewrite Hi. }
  case_match.
  { unfold ParseDetectionPayloadPDK in Hp. apply bind_Some in Hp as (g&_&Hp).
    case_decide; [by simplify_eq|]. rewrite memory in Hp. cbn [negb] in Hp.
    apply bind_Some in Hp as ([st1|[[i id] ftrt]]&_&Hp); [by simplify_eq|].
    apply bind_Some in Hp as (m&_&Hp).
    apply bind_Some in Hp as (w1&Hu%UpdateKeywordIndex_same&Hp). simplify_eq.
    etransitivity; [|exact Hu]. by apply same_levels_map. }
  case_decide; [|by simplify_eq]. unfold ParseDetectionPayloadMMA in Hp.
  rewrite memory in Hp. cbn [negb] in Hp. apply bind_Some in Hp as (b&_&Hp). simplify_eq.
  by apply same_levels_map.
Qed.

Lemma PackDetectionOpaqueData_same s ext w st b w' :
  PackDetectionOpaqueData s ext w = Some (st, b, w') → same_levels w w'.
Proof.
  intros Hp. apply PackDetectionOpaqueData_frame in Hp as (ro&oh&c&b'&Hf).
  transitivity (set_readOffsets_ ro (set_origin_hist_buf_duration_ oh w));
    [by apply same_levels_map|].
  apply FillExtendedDetectionPayload_frame in Hf as [->|(info&Hr&[->| ->])]; [done| |];
    apply same_levels_update; intros i Hi; by rewrite Hr in Hi; simplify_eq.
Qed.

(** Every parameter but the three that change the models or their state. *)
Definition quiet_param (p : IntfParam) : Prop :=
  match p with
  | PARAM_FSTAGE_SOUND_MODEL_ADD _ _ | PARAM_FSTAGE_SOUND_MODEL_DELETE _
  | PARAM_FSTAGE_SOUND_MODEL_STATE _ _ => False
  | _ => True
  end.

Lemma SetSecondStageDetStats_same s type d l w w' :
  SetSecondStageDetStats s type d l w = Some w' → same_levels w w'.
Proof.
  unfold SetSecondStageDetStats. intros Hs. case_match; [|by simplify_eq].
  destruct d as [b|]; [|simplify_eq; by apply same_levels_update].
  repeat (case_decide; [|]); try apply bind_Some in Hs as (b1&_&Hs); simplify_eq; try done;
    solve [by apply same_levels_update|by apply same_levels_map].
Qed.

Lemma SetParameter_same p w st w' : quiet_param p → sva_ok w →
  SetParameter p w = Some (st, w') → same_levels w w'.
Proof.
  intros Hq Hw Hp. destruct p; simpl in Hp; try done;
    try (apply bind_Some in Hp as (w1&H1%SetSecondStageDetStats_same&Hp); by simplify_eq);
    try (simplify_eq; solve [done|by apply same_levels_update|by apply same_levels_map]).
  - by eapply ParseRecognitionConfig_same.
  - by eapply ParseDetectionPayload_same.
  - apply bind_Some in Hp as (w1&H1&Hp). simplify_eq. unfold UpdateIndices in H1.
    destruct (det_event_info_ w !! s); [|by simplify_eq].
    apply bind_Some in H1 as (e&_&H1). simplify_eq. by apply same_levels_map.
  - destruct attr; simplify_eq; [by apply same_levels_map|done].
  - simplify_eq. unfold SetDetectionPropList. case_match; [|done]. by apply same_levels_update.
  - simplify_eq. unfold UpdateFtrtData. case_decide; [done|]. case_match; [|done].
    rewrite memory. by apply same_levels_update.
  - unfold SetBufferingModeConfig in Hp.
    repeat case_decide; simplify_eq; solve [done|by apply same_levels_map].
Qed.

Lemma GetParameter_same h1 h2 n m q w st a w' :
  GetParameter h1 h2 n m q w = Some (st, a, w') → same_levels w w'.
Proof.
  intros Hg. destruct q; simpl in Hg; try (by simplify_eq);
    try (repeat case_match; try apply bind_Some in Hg as (?&?&Hg); by simplify_eq).
  - case_match; [done|]. case_decide; [|by simplify_eq].
    apply bind_Some in Hg as (e&_&Hg). apply bind_Some in Hg as (i&_&Hg).
    apply bind_Some in Hg as (v&_&Hg). by simplify_eq.
  - apply bind_Some in Hg as ([[st1 e] w1]&H1&Hg). simplify_eq.
    eapply (GenerateCallbackEvent_keeps memory (same_levels w)); [|done|exact H1]. intros ????.
    by apply PackDetectionOpaqueData_same.
  - unfold GetSoundModelUnloadPayload in Hg. repeat case_match; simplify_eq; try done.
  - apply bind_Some in Hg as ([p1 w1]&Hr&Hg). simplify_eq. unfold GetWakeUpPayload in Hr.
    destruct (sm_info_map_ w !! s); [|by simplify_eq].
    apply bind_Some in Hr as ([b|]&_&Hr); [|by simplify_eq]. rewrite memory in Hr.
    simplify_eq. by apply same_levels_map.
  - apply bind_Some in Hg as ([p1 w1]&Hr&Hg). simplify_eq. unfold GetBufferingPayload in Hr.
    repeat case_match; try apply bind_Some in Hr as (?&_&Hr); simplify_eq;
      by apply same_levels_map.
  - unfold GetEngineResetPayload in Hg. repeat case_match; simplify_eq; by apply same_levels_map.
Qed.

(** ** Histories *)

(** The calls of clients and engines: a stream is registered once and deregistered when
    it is stopped; the calls that change models succeed, with a status of 0, the others
    may fail. *)
Inductive model_step (w : SVAInterface) : SVAInterface → Prop :=
  | ms_register s m parts w' : sm_info_map_ w !! s = None →
      RegisterModel s m parts w = Some (0, w') → model_step w w'
  | ms_deregister s : (∀ info, registered s w = Some info → si_state info = false) →
      model_step w (DeregisterModel s w)
  | ms_set p st w' : op_typed (OpSet p) → st = 0 ∨ quiet_param p →
      SetParameter p w = Some (st, w') → model_step w w'
  | ms_get h1 h2 n m q st a w' :
      GetParameter h1 h2 n m q w = Some (st, a, w') → model_step w w'.

Inductive model_history (w0 : SVAInterface) : SVAInterface → Prop :=
  | mh_start : model_history w0 w0
  | mh_step w w' : model_history w0 w → model_step w w' → names_distinct w' →
      model_history w0 w'.

Lemma install_model_frame smaller out w w' : install_model smaller out w = Some (0, w') →
  ∃ e, w' = set_sm_merged_ true (set_sound_model_info_ e w).
Proof.
  unfold install_model. intros Hi. apply bind_Some in Hi as ([s1 i]&_&Hi).
  case_decide; [by simplify_eq|]. case_match; [done|]. apply bind_Some in Hi as (e&_&Hi).
  apply update_active_frame in Hi as [e' ->]. by exists e'.
Qed.

Lemma AddSoundModel_follows s d w w' :
  sva_ok w → names_distinct w' → (sm_merged_ w = true → follows every w) →
  AddSoundModel s d w = Some (0, w') → sm_merged_ w' = true → follows every w'.
Proof.
  unfold AddSoundModel. intros Hw Hd Hf Ha Hm. apply bind_Some in Ha as (i&Hi&Ha).
  eapply GetSoundModelInfo_ok in Hi; [|done]. case_decide; [simplify_eq; by apply Hf|].
  apply bind_Some in Ha as ([s1 i1]&Hq&Ha).
  eapply QuerySoundModel_ok in Hq; [|done..]. case_decide; [simplify_eq; done|].
  apply bind_Some in Ha as (os&_&Ha). case_decide.
  { apply bind_Some in Ha as (e&_&Ha). by simplify_eq. }
  case_decide; [done|]. rewrite (AllocArrayPtrs_ok memory) in Ha.
  destruct (MergeSoundModels _) as [s2 out]. case_decide; [simplify_eq; done|].
  assert (names_distinct (put_sound_model_info s (SetModelData d i1) w)) as Hd1.
  { eapply install_model_frame in Ha as [e ->]. exact Hd. }
  eapply install_model_follows in Ha as [? _]; [done| |done].
  apply put_sound_model_info_ok; [by apply SetModelData_ok|done].
Qed.

Lemma DeleteSoundModel_follows s w w' :
  sva_ok w → names_distinct w' → (sm_merged_ w = true → follows every w) →
  DeleteSoundModel s w = Some (0, w') → sm_merged_ w' = true → follows every w'.
Proof.
  unfold DeleteSoundModel. intros Hw Hd Hf Ha Hm. apply bind_Some in Ha as (i&Hi&Ha).
  case_decide; [simplify_eq; by apply Hf|]. apply bind_Some in Ha as (os&_&Ha).
  destruct os as [|x [|y os]]; [simplify_eq; by apply Hf| |].
  - apply bind_Some in Ha as (r&_&Ha). apply bind_Some in Ha as (e&_&Ha).
    apply bind_Some in Ha as (k&_&Ha). by simplify_eq.
  - destruct (sm_data_ (sound_model_info_ w)); [|simplify_eq; by apply Hf].
    destruct (sm_merged_ w) eqn:Hmw; cbn [negb] in Ha; [|simplify_eq; congruence].
    apply bind_Some in Ha as (kws&_&Ha). destruct (DeleteFromMergedModel _ _ _ _) as [s1 out].
    case_decide; [by simplify_eq|].
    assert (names_distinct w) as Hdw.
    { pose proof Ha as Hfr. apply install_model_frame in Hfr as [e ->]. exact Hd. }
    by eapply install_model_follows in Ha as [? _].
Qed.

Lemma SetModelState_merged s b w st w' :
  SetModelState s b w = Some (st, w') → sm_merged_ w' = sm_merged_ w.
Proof.
  unfold SetModelState. intros Hs. destruct (sm_info_map_ w !! s); [|by simplify_eq].
  apply bind_Some in Hs as (info&_&Hs). case_decide; [by simplify_eq|].
  case_match; [|by simplify_eq]. apply bind_Some in Hs as ([s1 i1]&_&Hs).
  apply bind_Some in Hs as ([s2 w2]&Hm&Hs). apply UpdateMergeConfLevelsPayload_frame in Hm as [e ->].
  case_decide; [by simplify_eq|].
  destruct (if decide (size _ = 1%nat) then _ else _) as [[mode n] src].
  apply bind_Some in Hs as (lv&_&Hs). apply bind_Some in Hs as (k&_&Hs). by simplify_eq.
Qed.

Lemma RegisterModel_merged s m parts w st w' :
  RegisterModel s m parts w = Some (st, w') →
  sm_merged_ w' = sm_merged_ w ∧ sound_model_info_ w' = sound_model_info_ w.
Proof.
  unfold RegisterModel. rewrite memory, andb_false_r. intros Hr.
  apply bind_Some in Hr as (i0&_&Hr). repeat (case_decide; [|]);
    repeat (apply bind_Some in Hr as ([?|]&_&Hr)); by simplify_eq.
Qed.

Lemma RegisterModel_follows s m parts w w' : sm_info_map_ w !! s = None →
  follows every w → RegisterModel s m parts w = Some (0, w') → follows every w'.
Proof.
  intros Hs Hf Hr. apply (follows_live _ w); [| |done].
  - by eapply RegisterModel_merged.
  - assert (∃ info, sm_info_map_ w' = <[s := Some info]> (sm_info_map_ w) ∧
      si_state info = false) as (info&Hmap&Hst).
    { unfold RegisterModel in Hr. rewrite memory, andb_false_r, Hs in Hr.
      rewrite bool_decide_eq_true_2 in Hr by done. cbn [mbind option_bind] in Hr.
      match type of Hr with context [<[s := Some ?i]> _] =>
        exists i; assert (si_state i = false) as Hi by (by destruct (decide (module_type_ w = ST_MODULE_TYPE_GMM)));
        revert Hr Hi; generalize i end.
      intros info Hr Hi. split; [|done].
      repeat (case_decide; [|]); repeat (apply bind_Some in Hr as ([?|]&_&Hr)); by simplify_eq. }
    intros s'. unfold live, registered. rewrite Hmap.
    destruct (decide (s' = s)) as [->|]; [|by rewrite lookup_insert_ne].
    rewrite lookup_insert_eq, Hs. simpl. by rewrite Hst.
Qed.

Lemma DeregisterModel_follows s w : (∀ info, registered s w = Some info → si_state info = false) →
  follows every w → follows every (DeregisterModel s w).
Proof.
  intros Hs. apply follows_live.
  - unfold DeregisterModel. by case_match.
  - intros s'. unfold live, registered, DeregisterModel.
    destruct (registered s w) as [info|] eqn:Hr; [|done]. simpl.
    destruct (decide (s' = s)) as [->|]; [|by rewrite lookup_delete_ne].
    rewrite lookup_delete_eq. unfold registered in Hr. rewrite Hr. simpl.
    by rewrite (Hs info eq_refl).
Qed.

Lemma model_step_ok w w' : sva_ok w → model_step w w' → sva_ok w'.
Proof.
  intros Hw [s m parts w1 _ Hr|s _|p st w1 Ht _ Hr|h1 h2 n m q st a w1 Hr].
  - by eapply RegisterModel_ok.
  - by apply DeregisterModel_ok.
  - by eapply SetParameter_ok.
  - by eapply GetParameter_ok.
Qed.

Lemma SetParameter_follows p st w w' : sva_ok w → names_distinct w → names_distinct w' →
  (sm_merged_ w = true → follows every w) → st = 0 ∨ quiet_param p →
  SetParameter p w = Some (st, w') → sm_merged_ w' = true → follows every w'.
Proof.
  intros Hw Hd Hd' Hf Hq Hp Hm. assert (quiet_param p ∨ ¬ quiet_param p ∧ st = 0) as Hc.
  { destruct p; simpl in *; tauto. }
  destruct Hc as [Hc|[Hc ->]].
  { pose proof (SetParameter_same _ _ _ _ Hc Hw Hp) as Hsame.
    eapply same_levels_follows; [done|]. apply Hf. destruct Hsame as (_&<-&_). done. }
  destruct p; simpl in Hc; try tauto; simpl in Hp.
  - case_decide; [|simplify_eq; by apply Hf].
    eapply AddSoundModel_follows; [exact Hw|exact Hd'|exact Hf|exact Hp|exact Hm].
  - case_decide; [|simplify_eq; by apply Hf].
    eapply DeleteSoundModel_follows; [exact Hw|exact Hd'|exact Hf|exact Hp|exact Hm].
  - pose proof (SetModelState_merged _ _ _ _ _ Hp) as Hmm. rewrite Hm in Hmm.
    eapply SetModelState_follows; [done|done|done|by apply Hf|done].
Qed.

Lemma model_step_follows w w' : sva_ok w → names_distinct w → names_distinct w' →
  (sm_merged_ w = true → follows every w) → model_step w w' →
  sm_merged_ w' = true → follows every w'.
Proof.
  intros Hw Hd Hd' Hf Hs. revert Hd'.
  destruct Hs as [s m parts w1 Hs Hr|s Hs|p st w1 Ht Hq Hr|h1 h2 n m q st a w1 Hr];
    intros Hd' Hm.
  - eapply RegisterModel_follows; [done| |done]. apply Hf.
    apply RegisterModel_merged in Hr as [<- _]. done.
  - apply DeregisterModel_follows; [done|]. apply Hf. rewrite <-Hm.
    unfold DeregisterModel. by case_match.
  - by eapply (SetParameter_follows p st w).
  - apply GetParameter_same in Hr. eapply same_levels_follows; [done|]. apply Hf.
    destruct Hr as (_&<-&_). done.
Qed.

Lemma model_history_ok w0 w : sva_ok w0 → model_history w0 w → sva_ok w.
Proof. intros Hw0 Hh. induction Hh; [done|]. by eapply model_step_ok. Qed.

(** C9: After a history of calls ([model_step]) in which no two streams share the name of a
    keyword or user at any time: when the models are merged, each name of the engine's
    model has the level its active stream was configured with, and the level that never
    detects when no active stream has it.  In the history, a stream that is not there is
    registered, with status 0, and deregistered when it is stopped; adding or deleting a
    model and starting or stopping a stream end with status 0 (a deletion that fails can
    leave the names of other active streams at the level that never detects), while the
    other parameters set and asked for may fail; allocations succeed and the counts in a
    model's header are 16-bit numbers. *)
Theorem engine_levels_follow_streams u mt w :
  model_history (sva_construct u mt) w → sm_merged_ w = true →
  ∃ names levels,
    names_of (sound_model_info_ w) = Some names ∧ levels_of (sound_model_info_ w) = Some levels ∧
    ∀ j name x, names !! j = Some name → levels !! j = Some x →
      stream_level every w name x ∨
      (x = MAX_CONF_LEVEL_VALUE ∧ ∀ v, ¬ stream_level every w name v).
Proof.
  pose proof (sva_construct_ok u mt) as Hw0.
  assert (names_distinct (sva_construct u mt)) as Hd0.
  { intros s s' info ? ? ? ? ? ? ? ? Hr. done. }
  intros Hh. change (sm_merged_ w = true → follows every w).
  assert (names_distinct w ∧ (sm_merged_ w = true → follows every w)) as [_ ?]; [|done].
  induction Hh as [|w w' Hh [Hd IH] Hs Hd']; [done|].
  split; [done|]. eapply model_step_follows; [|exact Hd|exact Hd'|exact IH|exact Hs].
  by eapply model_history_ok.
Qed.
End levels.

(** ** Deciding that names are distinct *)

Definition entry_names (e : positive * option sound_model_info) : list string :=
  default [] (info ← e.2; i ← si_info info; names_of i).
Definition all_names (w : SVAInterface) : list string :=
  map_entries (sm_info_map_ w) ≫= entry_names.

Lemma NoDup_bind_inj {A B} (f : A → list B) (l : list A) x y k k' n :
  NoDup (l ≫= f) → x ∈ l → y ∈ l → f x !! k = Some n → f y !! k' = Some n → x = y ∧ k = k'.
Proof.
  induction l as [|a l IH]; intros Hd Hx Hy Hk Hk'; [by apply not_elem_of_nil in Hx|].
  cbn [mbind list_bind] in Hd. apply NoDup_app in Hd as (Ha&Hal&Hl).
  assert (∀ z j, z ∈ l → f z !! j = Some n → n ∈ l ≫= f) as Hin.
  { intros z j Hz Hj. apply list_elem_of_bind. exists z.
    split; [by eapply list_elem_of_lookup_2|done]. }
  apply elem_of_cons in Hx as [->|Hx], Hy as [->|Hy].
  - split; [done|]. by apply (NoDup_lookup (f a) k k' n).
  - destruct (Hal n); [by eapply list_elem_of_lookup_2|]. by eapply Hin.
  - destruct (Hal n); [by eapply list_elem_of_lookup_2|]. by eapply Hin.
  - by apply IH.
Qed.

Lemma names_distinct_check w : NoDup (all_names w) → names_distinct w.
Proof.
  intros Hd s s' info info' i i' ns ns' k k' name Hr Hr' Hi Hi' Hn Hn' Hk Hk'.
  unfold registered in Hr, Hr'.
  destruct (sm_info_map_ w !! s) as [o|] eqn:Ho; [|done].
  destruct (sm_info_map_ w !! s') as [o'|] eqn:Ho'; [|done]. simpl in Hr, Hr'. subst.
  apply map_entries_elem in Ho, Ho'.
  destruct (NoDup_bind_inj _ _ (s, Some info) (s', Some info') k k' name Hd Ho Ho') as [? ?];
    [by unfold entry_names; simpl; rewrite Hi; simpl; rewrite Hn
    |by unfold entry_names; simpl; rewrite Hi'; simpl; rewrite Hn'|].
  by simplify_eq.
Qed.

(** ** At concrete inputs *)

Module SvaLevelsDemo.
Import SvaDemo BoundedCopy SvaModelsDemo SvaEventDemo.

Definition demo_at (n : nat) : SVAInterface :=
  default (sva_construct demo_uninit ST_MODULE_TYPE_GMM)
    (demo_run (take n demo_ops) (sva_construct demo_uninit ST_MODULE_TYPE_GMM)).

Ltac demo_step n tac :=
  apply (mh_step _ (demo_at n));
    [|tac|apply names_distinct_check; vm_compute; repeat constructor; set_solver].
Ltac demo_set n p :=
  demo_step n ltac:(apply (ms_set _ p 0); [by repeat constructor|by left|vm_compute; reflexivity]).

(** The first stream is started with the level 70, the second is not. *)
Lemma engine_levels_follow_streams_witness :
  sm_merged_ (demo_at 7) = true ∧
  levels_of (sound_model_info_ (demo_at 7)) = Some [70; 100] ∧
  ∃ names levels,
    names_of (sound_model_info_ (demo_at 7)) = Some names ∧
    levels_of (sound_model_info_ (demo_at 7)) = Some levels ∧
    ∀ j name x, names !! j = Some name → levels !! j = Some x →
      stream_level (λ _, True) (demo_at 7) name x ∨
      (x = MAX_CONF_LEVEL_VALUE ∧ ∀ v, ¬ stream_level (λ _, True) (demo_at 7) name v).
Proof.
  split; [vm_compute; reflexivity|]. split; [vm_compute; reflexivity|].
  apply (engine_levels_follow_streams memory header_counts demo_uninit ST_MODULE_TYPE_GMM);
    [|vm_compute; reflexivity].
  demo_set 6%nat (PARAM_FSTAGE_SOUND_MODEL_STATE 1 true).
  demo_set 5%nat (PARAM_RECOGNITION_CONFIG 2 (Some (demo_config [80]))).
  demo_set 4%nat (PARAM_RECOGNITION_CONFIG 1 (Some (demo_config [70]))).
  demo_set 3%nat (PARAM_FSTAGE_SOUND_MODEL_ADD 2 [66]).
  demo_step 2%nat ltac:(apply (ms_register _ 2 (demo_model 1) []); vm_compute; reflexivity).
  demo_set 1%nat (PARAM_FSTAGE_SOUND_MODEL_ADD 1 [65]).
  demo_step 0%nat ltac:(apply (ms_register _ 1 (demo_model 1) []); vm_compute; reflexivity).
  apply mh_start.
Defined.

(** Both streams have the keyword A, which the merged model has twice. *)
Definition shared_ops : list IntfOp :=
  [OpRegister 1 (demo_model 1) []; OpSet (PARAM_FSTAGE_SOUND_MODEL_ADD 1 [65]);
   OpRegister 2 (demo_model 1) []; OpSet (PARAM_FSTAGE_SOUND_MODEL_ADD 2 [65]);
   OpSet (PARAM_RECOGNITION_CONFIG 1 (Some (demo_config [70])));
   OpSet (PARAM_RECOGNITION_CONFIG 2 (Some (demo_config [80])));
   OpSet (PARAM_FSTAGE_SOUND_MODEL_STATE 1 true);
   OpSet (PARAM_FSTAGE_SOUND_MODEL_STATE 2 true);
   OpSet (PARAM_FSTAGE_SOUND_MODEL_STATE 2 false)].

(** Where names are shared the levels do not follow the streams: the first stream is
    still active with the level 70, but stopping the second has given every occurrence of
    the name the level that never detects. *)
Theorem shared_name_is_silenced :
  ∃ w info, demo_run shared_ops (sva_construct demo_uninit ST_MODULE_TYPE_GMM) = Some w ∧
    registered 1 w = Some info ∧ si_state info = true ∧ (si_info info ≫= levels_of) = Some [70] ∧
    names_of (sound_model_info_ w) = Some ["A"; "A"]%string ∧
    levels_of (sound_model_info_ w) = Some [MAX_CONF_LEVEL_VALUE; MAX_CONF_LEVEL_VALUE].
Proof. eexists _, _. split; [vm_compute; reflexivity|]. by vm_compute. Qed.
End SvaLevelsDemo.
